(* ===== verification/_CoqProject ===== *)
-Q . S2P
Prelude.v
Json.v
Canonical.v
CheckpointTypes.v
ToolResult.v
Journal.v
TokenUsage.v
Budget.v
BudgetWire.v
Records.v
ResultCodec.v
ToolPolicy.v
Settings.v
Prompt.v
Text.v
ToolPlanner.v
Workspace.v
MessageSanitizer.v
SessionMemory.v
Memory.v
MemorySafety.v
Events.v
HostInteraction.v
EventWire.v
Controller.v
Checkpoint.v
RunDefinition.v
ModelCalls.v
History.v
CheckpointCodec.v
Deferred.v
Orchestrator.v
ToolRunner.v
CycleRunner.v
Approval.v
Cancellation.v
Transitions.v
Store.v
StoreController.v
ApiMoves.v
ApiSafety.v
Driver.v
DriverOps.v
DriverRules.v
DriverSafety.v
DriverDelivery.v
