(* ===== verification/Prelude.v ===== *)
(** * vv-agent: the durable checkpoint kernel, the agent's cycle and its memory

    The crate [crates/vv-agent] runs language-model agents whose progress
    survives crashes: a run is a [Checkpoint] in a store, a worker claims it
    under a lease, advances it by compare-and-set writes, and every effect on
    the outside world (a model call, a tool call, a question to the host, an
    event, a command) leaves a durable record first, so that it can be told
    apart later whether it happened.  This development models that kernel, from
    the values up to the whole interface of the in-memory store, and the driver
    with which a run uses it, and proves what makes recovery sound.  Beside it
    stand the part that keeps a long conversation within the window of the
    model (compaction, with the session memory and the workspace it archives
    in) and the cycle of an agent: compact, ask the model, run the tools it
    called.  Paths below are relative to [src/crates/vv-agent/src].

    ** Files

    - [Prelude.v]: results with an error code, ordered maps ([BTreeMap]),
      checked machine arithmetic, strings, sorting, and the tactics
      [result_inv], [bool_inv], [option_inv] that follow a definition through
      its early returns.
    - [Json.v]: [serde_json] values.  [Canonical.v]: [checkpoint/canonical.rs]
      and [json_pointer.rs]; canonical printing and SHA-256 are the class
      [Digest].
    - [CheckpointTypes.v]: [checkpoint.rs].  [ToolResult.v]:
      [types/tool_calls.rs], [types/dict/tools.rs].  [Journal.v]:
      [runtime/state/journal.rs], the state machine of one operation.
    - [TokenUsage.v]: [types/token_usage.rs], [runtime/token_usage.rs].
      [Budget.v], [BudgetWire.v]: [budget.rs], [budget/wire.rs].
    - [Records.v], [ResultCodec.v]: [types/records.rs], [types/messages.rs] and
      the [types/dict] codecs.
    - [ToolPolicy.v]: [tools/metadata.rs], [tools/policy.rs].  [Settings.v]:
      [model_settings.rs], [memory/microcompact.rs].  [Prompt.v]:
      [prompt/builder/section.rs].  [ToolPlanner.v]:
      [runtime/tool_planner.rs], the names of the tools of a cycle.
    - [Text.v]: the text and float operations of the language the next files
      use.  [Workspace.v]: [workspace/mod.rs], [workspace/memory.rs],
      [workspace/artifacts.rs], with the class [WorkspaceBackend] and its laws
      [WorkspaceLaws].  [MessageSanitizer.v]: [memory/message_sanitizer.rs].
      [SessionMemory.v]: [memory/token_utils.rs], [memory/session].
      [Memory.v]: [memory/manager] with [memory/artifacts] and
      [memory/summary/files.rs].  [MemorySafety.v]: no code; the theorems about
      compaction.
    - [Events.v]: the envelope of [events.rs] and the event outbox of
      [runtime/state.rs].  [EventWire.v]: the strict event reader
      ([events/wire.rs], [wire_checkpoint.rs], [wire_supplemental.rs],
      [payload.rs]), an instance of the class [EventReader] the kernel is
      written against.  [HostInteraction.v], [Controller.v]: the values of
      [checkpoint/controller*.rs] with their checks and codecs.
    - [Checkpoint.v]: the checkpoint and [validate_checkpoint]
      ([runtime/state.rs], [runtime/state/validation.rs]).
      [RunDefinition.v]: [checkpoint/canonical/run_definition.rs] and its
      normalisation, an instance of the class [RunDefinitionRules].
      [ModelCalls.v]: [runtime/model_calls.rs], the accounting of model calls.
      [CheckpointCodec.v]: [runtime/checkpoint_codec.rs], an instance of the
      class [StrictJson].  [History.v]:
      [runtime/state/history.rs].  [Deferred.v]: [checkpoint/deferred.rs],
      [runtime/state/deferred.rs].  [Transitions.v]:
      [runtime/state/transitions.rs].
    - [Orchestrator.v]: [tools/orchestrator.rs] with [tools/dispatcher.rs],
      [tools/outputs.rs], [tools/base/context.rs] and the trait of
      [tools/executor.rs].  [ToolRunner.v]: [runtime/hooks] and
      [runtime/tool_call_runner].  [CycleRunner.v]: [runtime/cycle_runner.rs],
      which composes [Memory.v], [ModelCalls.v] and the hooks.  [Approval.v]:
      [approval.rs] and [runtime/engine/approval.rs], which other threads use at
      the same time.  [Cancellation.v]: [runtime/cancellation.rs].
    - [Store.v]: [runtime/stores/memory.rs], [memory_impl_core.rs].
      [StoreController.v]: [memory_controller.rs],
      [memory_impl_controller.rs], [controller_helpers.rs].
    - [ApiMoves.v], [ApiSafety.v]: no code; the abstract store, the proof that
      the interface refines it, and the theorems about the interface.
    - [Driver.v], [DriverOps.v]: [runtime/checkpoint_resume.rs] and the files
      under [checkpoint_resume/], the controller a run drives its checkpoint
      with.  [DriverRules.v], [DriverSafety.v], [DriverDelivery.v]: no code;
      rules for what an operation of the driver may do, and its theorems.

    ** How code becomes definitions

    A pure function is a function with the same name; [CheckpointResult] is
    [result], which keeps the error code and not the message.  A [u64] is an
    [N] with [checked_add] and [saturating_add] written out; the wire bound
    2^53-1 is [MAX_WIRE_INTEGER].  A [BTreeMap] is a list of entries in key
    order.  A store operation has type [M A]: it takes the store and returns a
    result and the store, so that what it wrote before failing stays written;
    the locks of the source make each operation one step.  The wall clock is an
    argument ([now], or [clock] for the time stamps of events).  Code outside
    the repository is a class: [Digest], [JsonText], [JsonPrefix] and
    [JsonDeserializer] (hashing and the text side of JSON) and [Tokenizer];
    [Env] bundles what the kernel takes with the event reader and the rules
    for run definitions.  An operation of the memory takes the manager and the
    workspace and returns both; the model behind a callback is an argument,
    and its failure is the right side of a sum.  [toy_env], [toy_strict] and
    [driver_env] are concrete instances on which the examples run.

    An operation of the driver has type [D A]: it takes a [World] (the driver's
    own state, the shared store, a tick and a log of effects) and returns a
    result and the world, so that what it did before failing stays done.  The
    class [Host] is everything else: the clock, fresh identifiers, the event
    sink and event store, extensions, the reconciler, the heartbeat thread,
    and [host_interfere], what the other processes do to the store before each
    of the driver's calls.  The log records the store after every call of it,
    every event the sink accepted and every call of the model; the theorems
    about crashes are theorems about prefixes of the log.

    ** What is proved

    - The kernel ([Checkpoint.v], [Transitions.v], [Deferred.v]): what
      validation establishes; that every sequence of claims and writes keeps a
      checkpoint valid, of the same run, at growing revisions; that a finished
      run is final; that stale writers and foreign tokens are fenced; exactly
      when a cycle may be claimed; that a settled model call is accounted once;
      what receipts, early ends, deferred batches and event deliveries do.
    - The archive ([History.v]): nothing is lost, the digest chain is read back
      and hydration restores it.
    - The values: the operation journal's state machine and receipts, the token
      ledger's incremental totals, the budget that is never overspent, and the
      round trips of every wire form, with the exact conditions where the code
      does not round-trip.
    - The store ([Store.v]): each operation is one kernel step, creation or
      renewal of one checkpoint, and a failure changes nothing; receipts are
      idempotent; an expired claim can always be recovered; a renewal past the
      wire bound makes a checkpoint unusable.
    - The interface ([ApiMoves.v], [ApiSafety.v]): [api_move] is the abstract
      store, one guarded change at a time.  Every operation is a sequence of
      moves; every reachable store is well formed ([api_ok]); commands are
      fenced and carried out once; host interactions are admitted once and
      their responses injected once; notifications and wakes settle; expired
      wakes are found again; deferred calls are resolved once; deletion is
      complete.
    - Run definitions, codec, policies: credentials never reach a stored
      definition and redaction hides them; normal forms are normal; a valid
      checkpoint survives its wire form and the reader is strict; merging
      policies only restricts.
    - The driver: whatever the host answers, every store it leaves behind is
      one the interface reaches ([driver_refines], by a simulation argument
      over [evolves]); the model is called at most once by an operation,
      between a write that left the call started and one that left it settled
      with the model's own answer; a tool call is written started before it
      runs and a closed one is replayed; delivery of events terminates and is
      in order; a dispatch is accounted exactly once.
    - Events: what the strict reader accepts is written to a form it accepts
      and reads back as the same event.
    - The memory: a conversation is cut between two tool turns only, so that
      every kind of compaction keeps the tool protocol ([Protocol]) and the
      system messages; a summary keeps the most recent messages, shrinks the
      conversation, fits the window and carries every pointer to what was
      archived; archiving replaces only old and large results and leaves their
      complete content in the workspace; sanitising pairs calls and results;
      the session memory stays within its budget.
    - The cycle: a tool runs exactly when its call passes every check
      ([Permitted]), and one that needs approval only with a decision the
      broker accepted, whatever other threads do; the planner offers what the
      policy permits; cancelling a token reaches what is under it; every call of a turn is answered once, in order, also the
      skipped ones; a cycle asks the model at most four times; the conversation
      stays sound ([sound_conversation]) through compaction, retries and tools,
      from cycle to cycle.  [stale_mark_answers_next_call] shows where a tool
      that times out can break this.
    - The workspace: globs mean what their inductive definition says; an
      artifact lasts and can not be overwritten; the condition under which its
      reference is valid.

    ** Bounds and fuel

    Recursion is structural, on lists or on JSON values, where the source's
    is.  Loops that consume several elements per turn ([filter_loop],
    [scan_blocks], [prune_loop], [glob_match_bytes]) take the length of their
    input as fuel, which is enough ([filter_loop_fuel], [scan_complete],
    [prune_loop_spec], [glob_fuel]).  The retries of a cycle are counted down
    from [MAX_PROMPT_TOO_LONG_RETRIES].  [deliver_pending_outbox], a loop whose
    length other processes can extend, takes fuel.  Its theorem gives the loop as a relation without
    fuel and shows that one unit of fuel more than there are pending events
    reaches its end while nobody else writes the checkpoint; the safety
    theorems of the driver hold for every amount of fuel.  Statements about hashes are unconditional: where
    two identifiers could collide under SHA-256, the conclusion says so
    ([notification_collision]).

    ** Not modelled

    The SQLite and Redis stores apply the same transitions inside a
    transaction.  Of the workspace, the local and S3 backends and the capture
    of process output are I/O.  The loop of
    the heartbeat thread is the host's; the driver's side of it is modelled.
    The loop of the engine and the runner, sub-agents, the registry and the
    built-in tools, the LLM client, sessions, the app server and the CLI are
    asynchronous orchestration and I/O around the parts that are modelled.  Lock poisoning and the free text
    of errors are left out. *)

From Stdlib Require Import Ascii String NArith Sorted Lia.
From stdpp Require Import base strings list gmap.

#[export] Set Default Goal Selector "!".
#[export] Set Warnings "-clear-no-such-hyp,-register-all".

(** ** Results

    [CheckpointResult<T>] and [Result<T, String>] of the source.  A
    [CheckpointError] is modelled by its stable [code]; the free-text message
    next to it is diagnostic output and is not modelled. *)

Inductive result (A : Type) : Type :=
| Ok (a : A)
| Err (code : string).
Arguments Ok {A} _.
Arguments Err {A} _.

Declare Scope result_scope.
Delimit Scope result_scope with result.
Open Scope result_scope.

Notation "'let?' x ':=' c 'in' k" :=
  (match c with Ok x => k | Err err_code => Err err_code end)
  (at level 10, x pattern, c at level 99, k at level 200) : result_scope.
Notation "'do?' c ';;' k" :=
  (match c with Ok _ => k | Err err_code => Err err_code end)
  (at level 10, c at level 99, k at level 200) : result_scope.
Notation "'fail_if' b 'with' e ';;' k" :=
  (if b then Err e else k)
  (at level 10, b at level 99, e at level 99, k at level 200) : result_scope.

Definition is_ok {A} (r : result A) : bool :=
  match r with Ok _ => true | Err _ => false end.

(** [Option::ok_or_else]. *)
Definition ok_or {A} (o : option A) (e : string) : result A :=
  match o with Some a => Ok a | None => Err e end.

(** [Result::map_err]. *)
Definition map_err {A} (r : result A) (e : string) : result A :=
  match r with Ok a => Ok a | Err _ => Err e end.

(** [Iterator::try_for_each]. *)
Section TryForEach.
Context {A : Type} (f : A -> result unit).
Fixpoint try_for_each (l : list A) : result unit :=
  match l with
  | [] => Ok tt
  | x :: r => do? f x ;; try_for_each r
  end.
End TryForEach.

(** A [for] loop whose body may fail and which threads a state. *)
Fixpoint try_fold {A S} (f : S -> A -> result S) (s : S) (l : list A) : result S :=
  match l with
  | [] => Ok s
  | x :: r => let? s' := f s x in try_fold f s' r
  end.

(** [Option<Result<T>>::transpose]. *)
Definition transpose {A} (o : option (result A)) : result (option A) :=
  match o with
  | None => Ok None
  | Some (Ok a) => Ok (Some a)
  | Some (Err e) => Err e
  end.

#[global] Instance result_eq_dec {A} `{EqDecision A} : EqDecision (result A).
Proof. solve_decision. Defined.

(** ** Options *)

Definition is_some {A} (o : option A) : bool :=
  match o with Some _ => true | None => false end.
Definition is_none {A} (o : option A) : bool := negb (is_some o).
(** [Option::is_some_and] and [Option::is_none_or]. *)
Definition is_some_and {A} (o : option A) (f : A -> bool) : bool :=
  match o with Some a => f a | None => false end.
Definition is_none_or {A} (o : option A) (f : A -> bool) : bool :=
  match o with Some a => f a | None => true end.
Definition or_else {A} (o o' : option A) : option A :=
  match o with Some _ => o | None => o' end.
Definition unwrap_or {A} (o : option A) (d : A) : A :=
  match o with Some a => a | None => d end.

(** A check that an absent optional passes. *)
Definition check_opt {A} (f : A -> result unit) (o : option A) : result unit :=
  match o with Some a => f a | None => Ok tt end.

(** [o.as_deref() == Some(s)]. *)
Definition opt_is (o : option string) (s : string) : bool := is_some_and o (String.eqb s).

(** Decidable equality as a boolean, written [x =?? y] after Rust's [==]. *)
Notation "x =?? y" := (bool_decide (x = y)) (at level 70, no associativity).
Notation "x <>?? y" := (negb (bool_decide (x = y))) (at level 70, no associativity).

(** ** Machine integers

    [u64], [u32] and [usize] values are [N]; the width shows wherever the
    source uses a checked or saturating operation. *)

Definition U64_MAX : N := 18446744073709551615.
Definition U32_MAX : N := 4294967295.
Definition MAX_WIRE_INTEGER : N := 9007199254740991.

Definition checked_add (a b : N) : option N :=
  if (a + b <=? U64_MAX)%N then Some (a + b)%N else None.
Definition saturating_add (a b : N) : N := N.min (a + b) U64_MAX.
(** [saturating_sub] on unsigned integers is truncated subtraction. *)
Definition saturating_sub (a b : N) : N := (a - b)%N.
(** [x as u32]. *)
Definition as_u32 (a : N) : N := (a mod 4294967296)%N.
(** [u32::try_from]. *)
Definition u32_try_from (a : N) : option N :=
  if (a <=? U32_MAX)%N then Some a else None.

Lemma checked_add_Some a b c :
  checked_add a b = Some c -> c = (a + b)%N /\ (c <= U64_MAX)%N.
Proof.
  unfold checked_add. destruct (N.leb_spec (a + b) U64_MAX); intros H0; [|done].
  by simplify_eq.
Qed.

(** The prelude's hint database: lemmas every component uses to resolve the
    outcome of a lookup, an insertion or a guard. *)
Create HintDb vv discriminated.

Lemma is_none_true {A} (o : option A) : is_none o = true <-> o = None.
Proof. by destruct o. Qed.
Lemma is_none_false {A} (o : option A) : is_none o = false <-> is_some o = true.
Proof. by destruct o. Qed.
Lemma is_some_true {A} (o : option A) : is_some o = true <-> exists a, o = Some a.
Proof. destruct o; naive_solver. Qed.
Lemma is_some_false {A} (o : option A) : is_some o = false <-> o = None.
Proof. destruct o; naive_solver. Qed.

Lemma opt_is_true o s : opt_is o s = true <-> o = Some s.
Proof.
  destruct o as [t|]; simpl; [|done]. rewrite String.eqb_eq. naive_solver.
Qed.
Lemma opt_is_false o s : opt_is o s = false <-> o <> Some s.
Proof. rewrite <- opt_is_true. by destruct (opt_is o s). Qed.

Lemma is_ok_unit (r : result unit) : is_ok r = true -> r = Ok tt.
Proof. by destruct r as [[]|]. Qed.
Lemma filter_idem {A} (f : A -> bool) (l : list A) :
  List.filter f (List.filter f l) = List.filter f l.
Proof.
  induction l as [|x l IH]; [done|]. cbn. destruct (f x) eqn:E; [|done]. cbn. by rewrite E, IH.
Qed.

Lemma try_for_each_Ok {A} (f : A -> result unit) (l : list A) :
  try_for_each f l = Ok tt <-> Forall (fun x => f x = Ok tt) l.
Proof.
  induction l as [|x l IH]; simpl; [by split|].
  rewrite Forall_cons. destruct (f x) as [[]|e]; naive_solver.
Qed.

(** A loop preserves every invariant its body preserves. *)
Lemma try_fold_inv {A S} (I : S -> Prop) (f : S -> A -> result S) (l : list A) s s' :
  (forall a x b, I a -> f a x = Ok b -> I b) ->
  I s -> try_fold f s l = Ok s' -> I s'.
Proof.
  intros Hf. revert s. induction l as [|x l IH]; simpl; intros s Hs H.
  { by simplify_eq. }
  destruct (f s x) as [b|e] eqn:Hb; [|done]. eauto.
Qed.

(** ** Automation

    [result_inv] opens a hypothesis [H : body = Ok v] of a modelled function:
    it follows every guard, early return and [?] of the body. *)

Lemma ok_or_Ok {A} (o : option A) e a : ok_or o e = Ok a -> o = Some a.
Proof. destruct o; simpl; congruence. Qed.
Lemma map_err_Ok {A} (r : result A) e a : map_err r e = Ok a -> r = Ok a.
Proof. destruct r; simpl; congruence. Qed.

Ltac result_step :=
  match goal with
  | H : ok_or _ _ = Ok _ |- _ => apply ok_or_Ok in H
  | H : map_err _ _ = Ok _ |- _ => apply map_err_Ok in H
  | H : Ok _ = Ok _ |- _ => injection H; clear H; intros; subst
  | H : Err _ = Ok _ |- _ => discriminate H
  | H : Ok _ = Err _ |- _ => discriminate H
  | H : Some _ = Some _ |- _ => injection H; clear H; intros; subst
  | H : Some _ = None |- _ => discriminate H
  | H : None = Some _ |- _ => discriminate H
  | H : (if ?b then _ else _) = Ok _ |- _ =>
      let E := fresh "Hif" in destruct b eqn:E
  | H : match ?c with Ok _ => _ | Err _ => _ end = Ok _ |- _ =>
      let E := fresh "Hdo" in destruct c eqn:E
  | H : match ?c with Some _ => _ | None => _ end = Ok _ |- _ =>
      let E := fresh "Hopt" in destruct c eqn:E
  end.
Ltac result_inv := repeat (cbn beta iota zeta in *; result_step).
(** The value of a check that succeeded is [tt]. *)
Ltac unit_inv := repeat match goal with u : unit |- _ => destruct u end.

(** [option_inv] does the same for [body = Some v]: it follows every bind and
    the pattern matching on the field list of a struct reader. *)
Ltac option_inv :=
  repeat match goal with
  | H : mbind _ ?o = Some _ |- _ =>
      let E := fresh "Ho" in destruct o eqn:E; cbn [mbind option_bind] in H; [|discriminate H]
  | H : match ?l with [] => _ | _ :: _ => _ end = Some _ |- _ =>
      is_var l; destruct l; try discriminate H
  end; cbv zeta in *.

(** [bool_inv] splits boolean guards into propositions. *)
Ltac bool_inv :=
  repeat match goal with
  | H : _ || _ = false |- _ => apply orb_false_iff in H as [? ?]
  | H : _ && _ = true |- _ => apply andb_true_iff in H as [? ?]
  | H : negb _ = true |- _ => apply negb_true_iff in H
  | H : negb _ = false |- _ => apply negb_false_iff in H
  | H : bool_decide _ = true |- _ => apply bool_decide_eq_true in H
  | H : bool_decide _ = false |- _ => apply bool_decide_eq_false in H
  | H : opt_is _ _ = true |- _ => apply opt_is_true in H
  | H : opt_is _ _ = false |- _ => apply opt_is_false in H
  | H : String.eqb _ _ = true |- _ => apply String.eqb_eq in H
  | H : String.eqb _ _ = false |- _ => apply String.eqb_neq in H
  | H : is_none _ = true |- _ => apply is_none_true in H
  | H : is_none _ = false |- _ => apply is_none_false in H
  | H : is_some _ = false |- _ => apply is_some_false in H
  | H : (_ <=? _)%N = true |- _ => apply N.leb_le in H
  | H : (_ <=? _)%N = false |- _ => apply N.leb_gt in H
  | H : (_ <? _)%N = true |- _ => apply N.ltb_lt in H
  | H : (_ <? _)%N = false |- _ => apply N.ltb_ge in H
  | H : (_ =? _)%N = true |- _ => apply N.eqb_eq in H
  | H : (_ =? _)%N = false |- _ => apply N.eqb_neq in H
  end.

(** [Iterator::position] and [Iterator::find_map]. *)
Fixpoint position {A} (f : A -> bool) (l : list A) : option nat :=
  match l with
  | [] => None
  | x :: r => if f x then Some 0%nat else S <$> position f r
  end.
Fixpoint find_map {A B} (f : A -> option B) (l : list A) : option B :=
  match l with
  | [] => None
  | x :: r => match f x with Some b => Some b | None => find_map f r end
  end.

Lemma position_Some {A} (f : A -> bool) l i :
  position f l = Some i -> exists x, l !! i = Some x /\ f x = true.
Proof.
  revert i. induction l as [|x l IH]; simpl; intros i; [done|].
  destruct (f x) eqn:E; [intros; simplify_eq; by exists x|].
  destruct (position f l) as [j|]; simpl; intros; simplify_eq. by apply IH.
Qed.
Lemma find_map_None {A B} (f : A -> option B) l :
  find_map f l = None <-> forall x, x ∈ l -> f x = None.
Proof.
  induction l as [|x l IH]; simpl; [split; [set_solver|done]|].
  destruct (f x) eqn:E; [split; [done|]|].
  - intros H. by rewrite H in E by set_solver.
  - rewrite IH. split; [intros H y [->|Hy]%elem_of_cons; auto|set_solver].
Qed.
Lemma find_map_Some {A B} (f : A -> option B) l b :
  find_map f l = Some b -> exists x, x ∈ l /\ f x = Some b.
Proof.
  induction l as [|x l IH]; simpl; [done|].
  destruct (f x) eqn:E; intros H; [simplify_eq; exists x; set_solver|].
  destruct (IH H) as (y & Hy & ?). exists y. set_solver.
Qed.

(** ** Records

    [set_field eta proj x v] is [x] with the field [proj] replaced by [v],
    where [eta x] spells out the fields of [x]; the result is the record
    literal with the one field changed. *)
Ltac set_field eta proj x v :=
  let body := eval unfold eta in (eta x) in
  match eval pattern proj in body with
  | ?f _ => let r := eval cbv beta in (f (fun _ => v)) in exact r
  end.

(** ** Sorting

    [slice::sort_by] is stable; so is insertion from the right. *)
Section StableSort.
Context {A : Type} (leb : A -> A -> bool).
Fixpoint sort_insert (x : A) (l : list A) : list A :=
  match l with
  | [] => [x]
  | y :: r => if leb x y then x :: l else y :: sort_insert x r
  end.
Definition stable_sort (l : list A) : list A := foldr sort_insert [] l.

Lemma sort_insert_perm x l : sort_insert x l ≡ₚ x :: l.
Proof.
  induction l as [|y l IH]; simpl; [done|]. destruct (leb x y); [done|].
  rewrite IH. apply Permutation_swap.
Qed.
Lemma stable_sort_perm l : stable_sort l ≡ₚ l.
Proof. induction l as [|x l IH]; simpl; [done|]. by rewrite sort_insert_perm, IH. Qed.

Lemma stable_sort_sorted l :
  (forall x y, leb x y = false -> leb y x = true) ->
  (forall x y z, leb x y = true -> leb y z = true -> leb x z = true) ->
  StronglySorted (fun x y => leb x y = true) (stable_sort l).
Proof.
  intros Htot Htr. induction l as [|x l IH]; simpl; [constructor|].
  induction IH as [|y m Hs IHs Hall]; simpl; [by repeat constructor|].
  destruct (leb x y) eqn:E.
  - constructor; [by constructor|]. constructor; [done|].
    eapply Forall_impl; [exact Hall|]. eauto.
  - constructor; [done|]. rewrite sort_insert_perm. constructor; auto.
Qed.
End StableSort.

(** ** Strings

    A Rust [&str] is its UTF-8 byte sequence.  [str::trim] removes Unicode
    white space; the source only asks whether anything is left, which
    [trim_is_empty] decides on the bytes. *)

Section Whitespace.
Local Open Scope N_scope.

(** The number of bytes of the white-space character the string starts with,
    zero when it starts with something else ([char::is_whitespace]). *)
Definition ws_prefix (s : list N) : nat :=
  match s with
  | b :: r =>
      if ((9 <=? b) && (b <=? 13)) || (b =? 32) then 1%nat
      else match r with
      | c :: r' =>
          if (b =? 194) && ((c =? 133) || (c =? 160)) then 2%nat
          else match r' with
          | d :: _ =>
              if ((b =? 225) && (c =? 154) && (d =? 128))
                 || ((b =? 226) && (c =? 128)
                     && (((128 <=? d) && (d <=? 138)) || (d =? 168) || (d =? 169) || (d =? 175)))
                 || ((b =? 226) && (c =? 129) && (d =? 159))
                 || ((b =? 227) && (c =? 128) && (d =? 128))
              then 3%nat else 0%nat
          | [] => 0%nat
          end
      | [] => 0%nat
      end
  | [] => 0%nat
  end.

Fixpoint bytes_blank (fuel : nat) (s : list N) : bool :=
  match s, fuel with
  | [], _ => true
  | _, O => false
  | _, S f => match ws_prefix s with
              | O => false
              | n => bytes_blank f (drop n s)
              end
  end.
End Whitespace.

Definition str_bytes (s : string) : list N := map N_of_ascii (list_ascii_of_string s).
(** [s.len()]: the number of UTF-8 bytes. *)
Definition str_len (s : string) : N := N.of_nat (String.length s).

(** [s.trim().is_empty()].  Every white-space character is at least one byte,
    so the number of bytes is enough fuel. *)
Definition trim_is_empty (s : string) : bool :=
  bytes_blank (String.length s) (str_bytes s).
#[global] Arguments trim_is_empty : simpl never.
Definition str_is_empty (s : string) : bool :=
  match s with EmptyString => true | _ => false end.

(** ASCII classes of [u8]. *)
Definition is_ascii_lowercase (b : N) : bool := (97 <=? b)%N && (b <=? 122)%N.
Definition is_ascii_uppercase (b : N) : bool := (65 <=? b)%N && (b <=? 90)%N.
Definition is_ascii_digit (b : N) : bool := (48 <=? b)%N && (b <=? 57)%N.
Definition is_ascii_hexdigit (b : N) : bool :=
  is_ascii_digit b || ((97 <=? b)%N && (b <=? 102)%N) || ((65 <=? b)%N && (b <=? 70)%N).
Definition is_ascii_alphanumeric (b : N) : bool :=
  is_ascii_lowercase b || is_ascii_uppercase b || is_ascii_digit b.

Example trim_ascii : trim_is_empty (String " " (String "009" EmptyString)) = true.
Proof. reflexivity. Qed.
Example trim_word : trim_is_empty " a " = false.
Proof. reflexivity. Qed.

(** ** Ordered maps

    [BTreeMap<String, V>] and [serde_json::Map<String, Value>] (the
    [preserve_order] feature is off): the entries in byte order of the key. *)

Section OrderedMap.
Context {V : Type}.
Implicit Types (m : list (string * V)) (k : string).

Fixpoint map_get k m : option V :=
  match m with
  | [] => None
  | (k', v) :: r => if String.eqb k k' then Some v else map_get k r
  end.

Fixpoint map_insert k (v : V) m : list (string * V) :=
  match m with
  | [] => [(k, v)]
  | (k', v') :: r =>
      match String.compare k k' with
      | Lt => (k, v) :: m
      | Eq => (k, v) :: r
      | Gt => (k', v') :: map_insert k v r
      end
  end.

Fixpoint map_remove k m : list (string * V) :=
  match m with
  | [] => []
  | (k', v') :: r => if String.eqb k k' then r else (k', v') :: map_remove k r
  end.

Definition map_contains_key k m : bool := is_some (map_get k m).
Definition map_keys m : list string := map fst m.
Definition map_len m : N := N.of_nat (length m).
(** [FromIterator]: later entries win. *)
Definition map_of_list (l : list (string * V)) : list (string * V) :=
  foldl (fun m '(k, v) => map_insert k v m) [] l.

Lemma string_compare_eq (a b : string) : String.compare a b = Eq <-> a = b.
Proof.
  split; [apply String.compare_eq_iff|intros ->].
  pose proof (String.compare_antisym b b) as H.
  destruct (String.compare b b); simpl in H; done.
Qed.

Lemma map_get_insert_eq k v m : map_get k (map_insert k v m) = Some v.
Proof.
  induction m as [|[k' v'] m IH]; simpl; [by rewrite String.eqb_refl|].
  destruct (String.compare k k') eqn:E; simpl; rewrite ?String.eqb_refl; try done.
  destruct (String.eqb_spec k k') as [->|]; [|done].
  by rewrite (proj2 (string_compare_eq k' k') eq_refl) in E.
Qed.

Lemma map_get_insert_ne k k' v m : k <> k' -> map_get k (map_insert k' v m) = map_get k m.
Proof.
  intros Hne. induction m as [|[j w] m IH]; simpl.
  { by rewrite (proj2 (String.eqb_neq k k')). }
  destruct (String.compare k' j) eqn:E; simpl.
  - apply string_compare_eq in E as ->. by rewrite (proj2 (String.eqb_neq k j)).
  - by rewrite (proj2 (String.eqb_neq k k')).
  - by rewrite IH.
Qed.

Lemma map_get_insert k k' v m :
  map_get k (map_insert k' v m) = if String.eqb k k' then Some v else map_get k m.
Proof.
  destruct (String.eqb_spec k k') as [->|]; [apply map_get_insert_eq|by apply map_get_insert_ne].
Qed.

Lemma map_keys_insert k v m j :
  j ∈ map_keys (map_insert k v m) <-> j = k \/ j ∈ map_keys m.
Proof.
  induction m as [|[k' v'] m IH]; simpl; [set_solver|].
  destruct (String.compare k k') eqn:E; simpl; [|set_solver|set_solver].
  apply string_compare_eq in E as ->. set_solver.
Qed.

Lemma map_get_elem k v m : map_get k m = Some v -> (k, v) ∈ m.
Proof.
  induction m as [|[k' v'] m IH]; simpl; [done|].
  destruct (String.eqb_spec k k') as [->|]; intros; simplify_eq; set_solver.
Qed.

Lemma map_contains_key_spec k m : map_contains_key k m = true <-> k ∈ map_keys m.
Proof.
  unfold map_contains_key, map_keys. induction m as [|[k' v'] m IH]; simpl; [set_solver|].
  destruct (String.eqb_spec k k') as [->|]; simpl; set_solver.
Qed.

(** The order invariant of a map: keys strictly increasing. *)
Definition str_lt (a b : string) : Prop := String.compare a b = Lt.
Definition map_wf m : Prop := StronglySorted str_lt (map_keys m).

Lemma str_lt_trans a b c : str_lt a b -> str_lt b c -> str_lt a c.
Proof.
  unfold str_lt. revert b c. induction a as [|x a IH]; intros [|y b] [|z c]; try done.
  simpl. unfold Ascii.compare.
  destruct (N.compare_spec (N_of_ascii x) (N_of_ascii y)) as [Hxy|Hxy|]; try done;
    destruct (N.compare_spec (N_of_ascii y) (N_of_ascii z)) as [Hyz|Hyz|]; try done; intros H1 H2.
  - rewrite Hxy, Hyz, N.compare_refl. eauto.
  - rewrite Hxy. by apply N.compare_lt_iff in Hyz as ->.
  - rewrite <- Hyz. by apply N.compare_lt_iff in Hxy as ->.
  - assert (Hxz : (N_of_ascii x < N_of_ascii z)%N) by lia.
    by apply N.compare_lt_iff in Hxz as ->.
Qed.
Lemma str_lt_irrefl a : ~ str_lt a a.
Proof. unfold str_lt. by rewrite (proj2 (string_compare_eq a a) eq_refl). Qed.

Lemma map_insert_wf k v m : map_wf m -> map_wf (map_insert k v m).
Proof.
  unfold map_wf. induction m as [|[k' v'] m IH]; simpl; intros Hs.
  { constructor; [constructor|constructor]. }
  destruct (String.compare k k') eqn:E; simpl; inversion Hs as [|? ? Hs' Hall]; subst.
  - apply string_compare_eq in E as ->. done.
  - constructor; [done|]. constructor; [done|].
    eapply Forall_impl; [exact Hall|]. intros j Hj. by eapply str_lt_trans.
  - constructor; [by apply IH|]. apply Forall_forall. intros j Hj.
    apply (map_keys_insert k v m j) in Hj as [->|Hj].
    + unfold str_lt. by rewrite String.compare_antisym, E.
    + rewrite Forall_forall in Hall. by apply Hall.
Qed.

(** Deciding the key order. *)
Fixpoint keys_sorted (l : list string) : bool :=
  match l with
  | k :: ((k' :: _) as r) =>
      match String.compare k k' with Lt => keys_sorted r | _ => false end
  | _ => true
  end.
Lemma keys_sorted_wf m : keys_sorted (map_keys m) = true -> map_wf m.
Proof.
  unfold map_wf. intros Hs. apply Sorted_StronglySorted; [exact str_lt_trans|].
  induction (map_keys m) as [|k [|k' l] IH]; [constructor|by constructor|].
  cbn in Hs. destruct (String.compare k k') eqn:E; try done. constructor; [by apply IH|by constructor].
Qed.

Lemma map_wf_NoDup m : map_wf m -> NoDup (map_keys m).
Proof.
  unfold map_wf. induction (map_keys m) as [|k l IH]; intros Hs; [constructor|].
  inversion Hs as [|? ? Hs' Hall]; subst. constructor; [|by apply IH].
  intros Hin. rewrite Forall_forall in Hall. by apply (str_lt_irrefl k), Hall.
Qed.

Lemma map_of_list_snoc l k v : map_of_list (l ++ [(k, v)]) = map_insert k v (map_of_list l).
Proof. unfold map_of_list. by rewrite foldl_app. Qed.

Lemma map_of_list_keys l j : j ∈ map_keys (map_of_list l) <-> j ∈ map fst l.
Proof.
  induction l as [|[k v] l IH] using rev_ind; [done|].
  rewrite map_of_list_snoc, map_keys_insert, IH, map_app. simpl. set_solver.
Qed.

(** A literal without repeated keys holds every entry it lists. *)
Lemma map_of_list_get l k v :
  NoDup (map fst l) -> (k, v) ∈ l -> map_get k (map_of_list l) = Some v.
Proof.
  induction l as [|[k' v'] l IH] using rev_ind; [set_solver|].
  rewrite map_app, NoDup_app. intros (Hnd & Hdis & _) [Hin|Heq]%elem_of_app.
  - rewrite map_of_list_snoc, map_get_insert.
    destruct (String.eqb_spec k k') as [->|]; [|by apply IH].
    exfalso. apply (Hdis k'); [|set_solver].
    apply list_elem_of_fmap. by exists (k', v).
  - rewrite map_of_list_snoc. apply list_elem_of_singleton in Heq. simplify_eq.
    apply map_get_insert_eq.
Qed.

(** A map is the literal of its entries in any order. *)
Lemma map_insert_perm k v m : k ∉ map_keys m -> map_insert k v m ≡ₚ (k, v) :: m.
Proof.
  induction m as [|[k' v'] m IH]; simpl; [done|]. intros Hk.
  destruct (String.compare k k') eqn:E; [|done|].
  - apply string_compare_eq in E as ->. set_solver.
  - rewrite IH by set_solver. apply Permutation_swap.
Qed.
Lemma map_of_list_perm l : NoDup (map fst l) -> map_of_list l ≡ₚ l.
Proof.
  induction l as [|[k v] l IH] using rev_ind; [done|].
  rewrite map_app, NoDup_app. intros (Hnd & Hdis & _). rewrite map_of_list_snoc.
  rewrite map_insert_perm, IH by (rewrite ?map_of_list_keys; set_solver).
  apply Permutation_cons_append.
Qed.
Lemma map_of_list_wf l : map_wf (map_of_list l).
Proof.
  induction l as [|[k v] l IH] using rev_ind; [constructor|].
  rewrite map_of_list_snoc. by apply map_insert_wf.
Qed.
Lemma map_wf_unique m m' : map_wf m -> map_wf m' -> m ≡ₚ m' -> m = m'.
Proof.
  unfold map_wf, map_keys. revert m'.
  induction m as [|[k v] m IH]; intros m' Hs Hs' Hp.
  { by apply Permutation_nil_l in Hp. }
  destruct m' as [|[k' v'] m']; [by apply Permutation_nil_r in Hp|].
  cbn in Hs, Hs'. apply StronglySorted_inv in Hs as [Hs Hall], Hs' as [Hs' Hall'].
  rewrite Forall_forall in Hall, Hall'.
  assert (E : (k, v) = (k', v')).
  { assert (Hin : (k, v) ∈ (k', v') :: m') by (rewrite <- Hp; set_solver).
    assert (Hin' : (k', v') ∈ (k, v) :: m) by (rewrite Hp; set_solver).
    apply elem_of_cons in Hin as [|Hin], Hin' as [|Hin']; [done..|].
    destruct (str_lt_irrefl k). apply (str_lt_trans _ k').
    - apply Hall, list_elem_of_fmap. by exists (k', v').
    - apply Hall', list_elem_of_fmap. by exists (k, v). }
  simplify_eq. f_equal. apply IH; [done..|]. by apply Permutation_cons_inv in Hp.
Qed.

Lemma map_get_wf m k v : map_wf m -> map_get k m = Some v <-> (k, v) ∈ m.
Proof.
  intros Hw. split; [apply map_get_elem|]. pose proof (map_wf_NoDup m Hw) as Hnd.
  unfold map_keys in Hnd. clear Hw.
  induction m as [|[j w] m IH]; [set_solver|]. cbn in Hnd. apply NoDup_cons in Hnd as [Hj Hnd].
  intros [E|Hin]%elem_of_cons; cbn.
  - simplify_eq. by rewrite String.eqb_refl.
  - destruct (String.eqb_spec k j) as [->|]; [|by apply IH]. destruct Hj.
    apply list_elem_of_fmap. by exists (j, v).
Qed.
(** Maps with the same lookups are equal. *)
Lemma map_wf_ext m m' : map_wf m -> map_wf m' -> (forall k, map_get k m = map_get k m') -> m = m'.
Proof.
  intros Hw Hw' He. apply map_wf_unique; [done..|].
  assert (Hnd : forall l, map_wf l -> NoDup l).
  { intros l Hl. apply (NoDup_fmap_1 fst). by apply map_wf_NoDup. }
  apply NoDup_Permutation; [by apply Hnd..|]. intros [k v].
  rewrite <- !map_get_wf by done. by rewrite He.
Qed.

(** [BTreeMap::extend]: later entries win. *)
Definition map_extend m m' : list (string * V) := foldl (fun acc '(k, v) => map_insert k v acc) m m'.
Lemma map_extend_wf m m' : map_wf m -> map_wf (map_extend m m').
Proof.
  revert m. induction m' as [|[k v] m' IH]; intros m Hm; [done|]. cbn. by apply IH, map_insert_wf.
Qed.
Lemma map_get_extend k m m' :
  map_get k (map_extend m m') = or_else (map_get k (map_of_list m')) (map_get k m).
Proof.
  induction m' as [|[j v] m' IH] using rev_ind; [done|].
  unfold map_extend in *. rewrite foldl_app, map_of_list_snoc. cbn. rewrite !map_get_insert, IH.
  by destruct (String.eqb k j).
Qed.
Lemma map_of_list_id m : map_wf m -> map_of_list m = m.
Proof.
  intros Hm. apply map_wf_unique; [apply map_of_list_wf|done|].
  by apply map_of_list_perm, map_wf_NoDup.
Qed.
Lemma map_get_of_app k m m' :
  map_get k (map_of_list (m ++ m')) = or_else (map_get k (map_of_list m')) (map_get k (map_of_list m)).
Proof. unfold map_of_list at 1. rewrite foldl_app. apply map_get_extend. Qed.

(** [BTreeMap::retain]. *)
Definition map_retain (f : string -> V -> bool) m : list (string * V) :=
  List.filter (fun kv => f kv.1 kv.2) m.

(** *** Removing entries *)

Lemma map_get_None k m : k ∉ map_keys m -> map_get k m = None.
Proof.
  intros Hk. destruct (map_get k m) as [v|] eqn:E; [|done]. destruct Hk.
  apply map_contains_key_spec. unfold map_contains_key. by rewrite E.
Qed.

Lemma map_get_remove k j m :
  map_wf m -> map_get j (map_remove k m) = if String.eqb j k then None else map_get j m.
Proof.
  unfold map_wf. induction m as [|[i v] m IH]; cbn [map_remove map_get map_keys map]; intros Hs;
    [by destruct (String.eqb j k)|].
  apply StronglySorted_inv in Hs as [Hs Hall]. destruct (String.eqb_spec k i) as [->|Hki].
  - destruct (String.eqb_spec j i) as [->|]; [|done]. apply map_get_None. intros Hin.
    eapply str_lt_irrefl. by apply (proj1 (Forall_forall _ _) Hall).
  - cbn [map_get]. destruct (String.eqb_spec j i) as [->|]; [|by apply IH].
    by rewrite (proj2 (String.eqb_neq i k)).
Qed.
Lemma map_remove_keys k j m :
  j ∈ map_keys (map_remove k m) -> j ∈ map_keys m.
Proof.
  induction m as [|[i v] m IH]; cbn [map_remove]; [done|]. case_match; cbn; set_solver.
Qed.
Lemma map_remove_wf k m : map_wf m -> map_wf (map_remove k m).
Proof.
  unfold map_wf. induction m as [|[i v] m IH]; cbn [map_remove map_keys map]; intros Hs; [done|].
  apply StronglySorted_inv in Hs as [Hs Hall]. case_match; [done|]. constructor; [by apply IH|].
  apply Forall_forall. intros j Hj%map_remove_keys. by apply (proj1 (Forall_forall _ _) Hall).
Qed.
Lemma map_retain_keys f j m :
  j ∈ map_keys (map_retain f m) -> j ∈ map_keys m.
Proof.
  unfold map_retain. induction m as [|[i v] m IH]; cbn; [done|]. case_match; cbn; set_solver.
Qed.
Lemma map_retain_wf f m : map_wf m -> map_wf (map_retain f m).
Proof.
  unfold map_wf, map_retain. induction m as [|[i v] m IH]; cbn; intros Hs; [done|].
  apply StronglySorted_inv in Hs as [Hs Hall]. case_match; cbn; [|by apply IH].
  constructor; [by apply IH|]. apply Forall_forall. intros j Hj%(map_retain_keys f).
  by apply (proj1 (Forall_forall _ _) Hall).
Qed.
Lemma map_get_retain f k m :
  map_wf m ->
  map_get k (map_retain f m)
  = match map_get k m with Some v => if f k v then Some v else None | None => None end.
Proof.
  unfold map_wf, map_retain. induction m as [|[i v] m IH]; cbn; intros Hs; [done|].
  apply StronglySorted_inv in Hs as [Hs Hall]. specialize (IH Hs).
  assert (Hi : map_get i m = None).
  { apply map_get_None. intros Hin. eapply str_lt_irrefl. by apply (proj1 (Forall_forall _ _) Hall). }
  destruct (f i v) eqn:Hf; cbn; destruct (String.eqb_spec k i) as [->|]; try done.
  - by rewrite Hf.
  - rewrite IH, Hi. by rewrite Hf.
Qed.

Lemma retain_get f k m v :
  map_wf m -> (map_get k (map_retain f m) = Some v <-> map_get k m = Some v /\ f k v = true).
Proof.
  intros Hwf. rewrite map_get_retain by done. destruct (map_get k m) as [x|]; [|by split; [|intros []]].
  destruct (f k x) eqn:E; (split; [intros Hv|intros [Hv Hf]]); simplify_eq; by rewrite ?E in *.
Qed.
End OrderedMap.

(** Insertions in sequence. *)
Lemma map_insert_twice {V} k (v w : V) m : map_insert k v (map_insert k w m) = map_insert k v m.
Proof.
  assert (Hk : String.compare k k = Eq) by by apply string_compare_eq.
  induction m as [|[k' v'] m IH]; simpl; [by rewrite Hk|].
  destruct (String.compare k k') eqn:E; simpl; rewrite ?Hk, ?E, ?IH; done.
Qed.
Lemma map_insert_comm_lt {V} k k' (v v' : V) m : str_lt k k' ->
  map_insert k v (map_insert k' v' m) = map_insert k' v' (map_insert k v m).
Proof.
  intros Hlt. assert (Hgt : String.compare k' k = Gt)
    by (rewrite String.compare_antisym, Hlt; done).
  induction m as [|[j w] m IH]; simpl; [by rewrite Hlt, Hgt|].
  destruct (String.compare k j) eqn:E, (String.compare k' j) eqn:E'; simpl;
    rewrite ?Hlt, ?Hgt, ?E, ?E', ?IH; simpl; rewrite ?Hlt, ?Hgt, ?E, ?E'; try done.
  - apply string_compare_eq in E as ->. by rewrite Hgt in E'.
  - apply string_compare_eq in E as ->. by rewrite Hgt in E'.
  - apply string_compare_eq in E' as ->. by rewrite Hlt in E.
  - assert (Hkj : String.compare k j = Lt) by exact (str_lt_trans _ _ _ Hlt E'). by rewrite E in Hkj.
Qed.
Lemma map_insert_comm {V} k k' (v v' : V) m : k <> k' ->
  map_insert k v (map_insert k' v' m) = map_insert k' v' (map_insert k v m).
Proof.
  intros Hne. destruct (String.compare k k') eqn:E.
  - by apply string_compare_eq in E.
  - by apply map_insert_comm_lt.
  - symmetry. apply map_insert_comm_lt. unfold str_lt. by rewrite String.compare_antisym, E.
Qed.
(** Writing back what is there changes nothing. *)
Lemma map_insert_same {V} k (v : V) m : map_wf m -> map_get k m = Some v -> map_insert k v m = m.
Proof.
  intros Hwf Hget. apply map_wf_ext; [by apply map_insert_wf|done|].
  intros j. rewrite map_get_insert. by destruct (String.eqb_spec j k) as [->|].
Qed.

(** Lookups of literal keys in a map built by insertions. *)
Ltac map_lookup := repeat rewrite map_get_insert; cbn [String.eqb Ascii.eqb Bool.eqb].
