(* ===== verification/Json.v ===== *)
(** * JSON values

    The [serde_json::Value] the program stores and exchanges: a number is an
    unsigned, a negative or a floating-point literal ([serde_json::Number]),
    an object is an ordered map without repeated keys.  Decidable equality,
    the accessors the sources call, and the [json!] object literal. *)

From Stdlib Require Import String NArith ZArith Lia.
From stdpp Require Import base strings list.
From S2P Require Import Prelude.

(** [serde_json::Number] (the [arbitrary_precision] feature is off).  A float
    carries its IEEE-754 bit pattern; serde_json never builds a NaN or an
    infinity, and the two zeros, which Rust's [==] and the canonical printer
    identify, share one pattern here. *)
Inductive Number : Type :=
| PosInt (n : N)
| NegInt (z : Z)
| Float (bits : Z).

#[global] Instance Number_eq_dec : EqDecision Number.
Proof. solve_decision. Defined.

Inductive Value : Type :=
| Null
| Bool (b : bool)
| Num (n : Number)
| Str (s : string)
| Array (items : list Value)
| Object (entries : list (string * Value)).

Abbreviation object := (list (string * Value)).

(** The induction principle that reaches the elements of arrays and objects. *)
Section ValueInd.
Variable P : Value -> Prop.
Hypothesis HNull : P Null.
Hypothesis HBool : forall b, P (Bool b).
Hypothesis HNum : forall n, P (Num n).
Hypothesis HStr : forall s, P (Str s).
Hypothesis HArray : forall l, Forall P l -> P (Array l).
Hypothesis HObject : forall m : object, Forall (fun kv => P kv.2) m -> P (Object m).

Fixpoint Value_rect_nested (v : Value) : P v :=
  match v with
  | Null => HNull
  | Bool b => HBool b
  | Num n => HNum n
  | Str s => HStr s
  | Array l =>
      HArray l ((fix go l : Forall P l :=
        match l with
        | [] => Forall_nil_2 _
        | x :: r => Forall_cons_2 _ x r (Value_rect_nested x) (go r)
        end) l)
  | Object m =>
      HObject m ((fix go (m : object) : Forall (fun kv => P kv.2) m :=
        match m with
        | [] => Forall_nil_2 _
        | x :: r => Forall_cons_2 _ x r (Value_rect_nested x.2) (go r)
        end) m)
  end.
End ValueInd.

(** Structural equality of values ([PartialEq for Value]). *)
Fixpoint value_eqb (a b : Value) {struct a} : bool :=
  match a, b with
  | Null, Null => true
  | Bool x, Bool y => bool_decide (x = y)
  | Num x, Num y => bool_decide (x = y)
  | Str x, Str y => String.eqb x y
  | Array l, Array r =>
      (fix go (l r : list Value) : bool :=
        match l, r with
        | [], [] => true
        | x :: l', y :: r' => value_eqb x y && go l' r'
        | _, _ => false
        end) l r
  | Object l, Object r =>
      (fix go (l r : object) : bool :=
        match l, r with
        | [], [] => true
        | (k, x) :: l', (j, y) :: r' => String.eqb k j && (value_eqb x y && go l' r')
        | _, _ => false
        end) l r
  | _, _ => false
  end.

Lemma value_eqb_spec (a b : Value) : value_eqb a b = true <-> a = b.
Proof.
  revert b. induction a as [|x|x|x|l IH|m IH] using Value_rect_nested;
    intros [|y|y|y|r|r]; cbn [value_eqb]; try (split; [done|congruence]).
  - rewrite bool_decide_eq_true. naive_solver.
  - rewrite bool_decide_eq_true. naive_solver.
  - rewrite String.eqb_eq. naive_solver.
  - enough (forall r, (fix go (l r : list Value) : bool :=
        match l, r with
        | [], [] => true
        | x :: l', y :: r' => value_eqb x y && go l' r'
        | _, _ => false
        end) l r = true <-> l = r) as -> by naive_solver.
    induction IH as [|x l Hx _ IH']; intros [|y r']; try done.
    rewrite andb_true_iff, Hx, IH'. naive_solver.
  - enough (forall r, (fix go (l r : object) : bool :=
        match l, r with
        | [], [] => true
        | (k, x) :: l', (j, y) :: r' => String.eqb k j && (value_eqb x y && go l' r')
        | _, _ => false
        end) m r = true <-> m = r) as -> by naive_solver.
    induction IH as [|[k x] m Hx _ IH']; intros [|[j y] r']; try done.
    simpl in Hx. rewrite !andb_true_iff, String.eqb_eq, Hx, IH'. naive_solver.
Qed.

#[global] Instance Value_eq_dec : EqDecision Value.
Proof.
  intros a b. destruct (value_eqb a b) eqn:E.
  - left. by apply value_eqb_spec.
  - right. intros H%value_eqb_spec. congruence.
Defined.

(** ** Accessors *)

Definition as_object (v : Value) : option object :=
  match v with Object m => Some m | _ => None end.
Definition as_array (v : Value) : option (list Value) :=
  match v with Array l => Some l | _ => None end.
Definition as_str (v : Value) : option string :=
  match v with Str s => Some s | _ => None end.
Definition as_bool (v : Value) : option bool :=
  match v with Bool b => Some b | _ => None end.
Definition as_u64 (v : Value) : option N :=
  match v with Num (PosInt n) => Some n | _ => None end.
Definition is_object (v : Value) : bool :=
  match v with Object _ => true | _ => false end.
Definition is_null (v : Value) : bool :=
  match v with Null => true | _ => false end.

(** [Value::get(key)]: [None] on anything but an object. *)
Definition value_get (v : Value) (k : string) : option Value :=
  match v with Object m => map_get k m | _ => None end.

(** [v.get(k).and_then(Value::as_str)] and its siblings. *)
Definition get_str (v : Value) (k : string) : option string := value_get v k ≫= as_str.
Definition get_u64 (v : Value) (k : string) : option N := value_get v k ≫= as_u64.

(** [object.get(k).filter(|value| !value.is_null())]. *)
Definition get_non_null (m : object) (k : string) : option Value :=
  match map_get k m with
  | Some Null => None
  | o => o
  end.

(** The [json!({ ... })] literal. *)
Definition json_object (l : list (string * Value)) : Value := Object (map_of_list l).
Definition json_u64 (n : N) : Value := Num (PosInt n).
Definition json_opt_str (o : option string) : Value :=
  match o with Some s => Str s | None => Null end.

(** [FIELDS] checks of the strict readers: the object has exactly these keys. *)
Definition has_exactly (fields : list string) (m : object) : bool :=
  (map_len m =? N.of_nat (length fields))%N && forallb (fun f => map_contains_key f m) fields.
(** No key outside [fields]. *)
Definition only_fields (fields : list string) (m : object) : bool :=
  forallb (fun k => existsb (String.eqb k) fields) (map_keys m).

Lemma only_fields_spec fields (m : object) :
  only_fields fields m = true <-> forall k, k ∈ map_keys m -> k ∈ fields.
Proof.
  unfold only_fields. rewrite forallb_forall. split; intros H k Hk.
  - apply list_elem_of_In in Hk. apply H, existsb_exists in Hk as (f & Hf & ->%String.eqb_eq).
    by apply list_elem_of_In.
  - apply existsb_exists. exists k. split; [|apply String.eqb_refl].
    apply list_elem_of_In, H. by apply list_elem_of_In.
Qed.

(** [required_string], [required_u64] and [optional_string] of
    [runtime/state/validation.rs]. *)
Definition required_string (m : object) (field code : string) : result string :=
  ok_or (map_get field m ≫= as_str) code.
Definition required_u64 (m : object) (field code : string) : result N :=
  ok_or (map_get field m ≫= as_u64) code.
Definition optional_string (m : object) (field : string) : result (option string) :=
  match map_get field m with
  | None | Some Null => Ok None
  | Some (Str s) => Ok (Some s)
  | Some _ => Err "operation_kind_fields_invalid"
  end.
