(* ===== verification/Canonical.v ===== *)
(** * Canonical JSON, digests and JSON pointers

    [checkpoint/canonical.rs] and [checkpoint/canonical/json_pointer.rs]: the
    I-JSON check, the digests every durable identity is built from, the
    grammar checks of keys, namespaces and digests, and the RFC 6901 pointers
    the credential slots use.

    The canonical printer ([serde_json_canonicalizer]) and SHA-256 ([sha2])
    are third-party crates: the class [Digest] carries them as operations and
    [DigestLaws] states the documented shape of a hex digest. *)

From Stdlib Require Import Ascii String NArith ZArith Lia.
From stdpp Require Import base strings list.
From S2P Require Import Prelude Json.

Definition MAX_CHECKPOINT_KEY_BYTES : N := 512.
Definition MAX_EXTENSION_NAMESPACE_BYTES : N := 128.
Definition MAX_EXTENSION_ENTRY_BYTES : N := 65536.
Definition OPERATION_REQUEST_SCHEMA : string := "vv-agent.operation-request.v1".

(** The third-party operations. *)
Class Digest := {
  (** [serde_json_canonicalizer::to_vec]: [None] is its error. *)
  canonicalizer_to_vec : Value -> option string;
  (** [format!("{:x}", Sha256::digest(bytes))]. *)
  sha256_hex : string -> string
}.

(** ** Grammar checks *)

Definition sha256_char (b : N) : bool := is_ascii_hexdigit b && negb (is_ascii_uppercase b).

Definition validate_sha256 (value : string) : result unit :=
  fail_if (negb (str_len value =? 64)%N
           || existsb (fun b => negb (is_ascii_hexdigit b) || is_ascii_uppercase b) (str_bytes value))
  with "checkpoint_digest_invalid" ;;
  Ok tt.

(** A hex digest is 64 lowercase hexadecimal characters. *)
Class DigestLaws `{Digest} := {
  sha256_hex_valid : forall bytes, validate_sha256 (sha256_hex bytes) = Ok tt
}.

Definition validate_checkpoint_key (key : string) : result unit :=
  fail_if (trim_is_empty key || (MAX_CHECKPOINT_KEY_BYTES <? str_len key)%N)
  with "checkpoint_key_invalid" ;;
  Ok tt.

Definition is_ascii (b : N) : bool := (b <=? 127)%N.

Definition validate_extension_namespace (namespace : string) : result unit :=
  let bytes := str_bytes namespace in
  fail_if (str_is_empty namespace || negb (forallb is_ascii bytes))
  with "checkpoint_extension_namespace_invalid" ;;
  fail_if (MAX_EXTENSION_NAMESPACE_BYTES <? str_len namespace)%N
  with "checkpoint_extension_namespace_invalid" ;;
  match bytes with
  | [] => Err "unreachable"
  | first :: _ =>
      fail_if (negb (is_ascii_lowercase first) && negb (is_ascii_digit first))
      with "checkpoint_extension_namespace_invalid" ;;
      fail_if (negb (existsb (N.eqb 46) bytes)
               || existsb (fun b => negb (is_ascii_lowercase b || is_ascii_digit b
                                          || existsb (N.eqb b) [46; 95; 45]%N)) bytes)
      with "checkpoint_extension_namespace_invalid" ;;
      Ok tt
  end.

Record CapabilityRef := { cap_id : string; cap_version : string }.
#[global] Instance CapabilityRef_eq_dec : EqDecision CapabilityRef.
Proof. solve_decision. Defined.

Definition validate_capability_ref (reference : CapabilityRef) : result unit :=
  fail_if (trim_is_empty (cap_id reference) || trim_is_empty (cap_version reference))
  with "checkpoint_capability_ref_invalid" ;;
  Ok tt.

Definition validate_capability_slot (slot : string) : result unit :=
  fail_if (str_is_empty slot
           || negb (is_some_and (head (str_bytes slot)) is_ascii_lowercase)
           || existsb (fun b => negb (is_ascii_lowercase b || is_ascii_digit b
                                      || existsb (N.eqb b) [95; 46; 58; 45]%N)) (str_bytes slot))
  with "checkpoint_capability_ref_invalid" ;;
  Ok tt.

Definition require_non_empty (value : string) : result unit :=
  fail_if (trim_is_empty value) with "checkpoint_value_invalid" ;; Ok tt.

Definition require_positive (value : N) : result unit :=
  fail_if ((value =? 0)%N || (MAX_WIRE_INTEGER <? value)%N) with "checkpoint_integer_invalid" ;;
  Ok tt.

(** ** I-JSON *)

(** [number.as_u64()] answers for [PosInt], [as_i64()] for [NegInt]; a float
    of serde_json is always finite. *)
Definition validate_number (number : Number) : result unit :=
  match number with
  | PosInt n => fail_if (MAX_WIRE_INTEGER <? n)%N with "checkpoint_definition_not_i_json" ;; Ok tt
  | NegInt z =>
      fail_if (MAX_WIRE_INTEGER <? Z.abs_N z)%N with "checkpoint_definition_not_i_json" ;; Ok tt
  | Float _ => Ok tt
  end.

Fixpoint validate_i_json (value : Value) : result unit :=
  match value with
  | Null | Bool _ | Str _ => Ok tt
  | Num number => validate_number number
  | Array items => try_for_each validate_i_json items
  | Object m => try_for_each (fun '(_, item) => validate_i_json item) m
  end.

(** ** Digests *)

Section Digests.
Context `{Digest}.

Definition canonical_json_bytes (value : Value) : result string :=
  do? validate_i_json value ;;
  ok_or (canonicalizer_to_vec value) "checkpoint_canonicalization_invalid".

Definition sha256_canonical (value : Value) : result string :=
  let? bytes := canonical_json_bytes value in
  Ok (sha256_hex bytes).

Definition validate_json (value : Value) : result unit :=
  do? canonical_json_bytes value ;; Ok tt.

Definition event_payload_digest (event : Value) : result string :=
  fail_if (negb (is_object event)) with "event_payload_invalid" ;;
  sha256_canonical event.

Inductive OperationKind := Model | Tool.
#[global] Instance OperationKind_eq_dec : EqDecision OperationKind.
Proof. solve_decision. Defined.

Definition kind_str (kind : OperationKind) : string :=
  match kind with Model => "model" | Tool => "tool" end.

Definition request_fields (kind : OperationKind) : list string :=
  match kind with
  | Model => ["model"; "messages"; "settings"; "tools"; "output_schema"; "idempotency_key"]
  | Tool => ["tool_call_id"; "tool_name"; "arguments"; "idempotency_key"]
  end.

Definition operation_request_digest (kind : OperationKind) (request : Value) : result string :=
  let? m := ok_or (as_object request) "operation_request_invalid" in
  fail_if (negb (has_exactly ["schema_version"; "kind"; "request"] m))
  with "operation_request_invalid" ;;
  fail_if (negb (opt_is (map_get "schema_version" m ≫= as_str) OPERATION_REQUEST_SCHEMA))
  with "operation_request_schema_unsupported" ;;
  let? actual_kind := ok_or (map_get "kind" m ≫= as_str) "operation_request_invalid" in
  fail_if (negb (String.eqb actual_kind (kind_str kind))) with "operation_request_invalid" ;;
  let? payload := ok_or (map_get "request" m ≫= as_object) "operation_request_invalid" in
  fail_if (negb (has_exactly (request_fields kind) payload)) with "operation_request_invalid" ;;
  do? map_err (validate_i_json request) "operation_request_not_i_json" ;;
  sha256_canonical request.

Definition model_request_digest (request : Value) : result string :=
  operation_request_digest Model request.

(** The request object a tool call is digested as. *)
Definition tool_request_value (tool_call_id tool_name : string) (arguments : Value)
    (idempotency_key : option string) : Value :=
  json_object [
    ("schema_version", Str OPERATION_REQUEST_SCHEMA);
    ("kind", Str "tool");
    ("request", json_object [
      ("tool_call_id", Str tool_call_id);
      ("tool_name", Str tool_name);
      ("arguments", arguments);
      ("idempotency_key", json_opt_str idempotency_key)])].

Definition tool_request_digest (tool_call_id tool_name : string) (arguments : Value)
    (idempotency_key : option string) : result string :=
  do? require_non_empty tool_call_id ;;
  do? require_non_empty tool_name ;;
  fail_if (is_some_and idempotency_key str_is_empty) with "operation_request_invalid" ;;
  fail_if (negb (is_object arguments)) with "operation_request_invalid" ;;
  operation_request_digest Tool
    (tool_request_value tool_call_id tool_name arguments idempotency_key).
End Digests.

(** ** JSON pointers *)

Definition slash : ascii := "/"%char.
Definition tilde : ascii := "~"%char.

(** The [while index < bytes.len()] loop of [pointer_tokens]: [~0] and [~1]
    are the only escapes. *)
Fixpoint unescape (raw : list ascii) : result (list ascii) :=
  match raw with
  | [] => Ok []
  | c :: r =>
      if Ascii.eqb c tilde then
        match r with
        | [] => Err "checkpoint_credential_slots_invalid"
        | d :: r' =>
            if Ascii.eqb d "0"%char then let? t := unescape r' in Ok (tilde :: t)
            else if Ascii.eqb d "1"%char then let? t := unescape r' in Ok (slash :: t)
            else Err "checkpoint_credential_slots_invalid"
        end
      else let? t := unescape r in Ok (c :: t)
  end.

(** [str::split('/')]. *)
Fixpoint split_slash (s : list ascii) : list (list ascii) :=
  match s with
  | [] => [[]]
  | c :: r =>
      if Ascii.eqb c slash then [] :: split_slash r
      else match split_slash r with
           | seg :: segs => (c :: seg) :: segs
           | [] => [[c]]
           end
  end.

Fixpoint collect {A B} (f : A -> result B) (l : list A) : result (list B) :=
  match l with
  | [] => Ok []
  | x :: r => let? y := f x in let? ys := collect f r in Ok (y :: ys)
  end.

Definition pointer_tokens (pointer : string) : result (list string) :=
  match list_ascii_of_string pointer with
  | [] => Ok []
  | (c :: _) as bytes =>
      if Ascii.eqb c slash then
        collect (fun raw => let? t := unescape raw in Ok (string_of_list_ascii t))
                (drop 1 (split_slash bytes))
      else Err "checkpoint_credential_slots_invalid"
  end.

Definition validate_pointer (pointer : string) : result unit :=
  do? pointer_tokens pointer ;; Ok tt.

(** [str::parse::<usize>()]: an optional [+], at least one digit, no overflow. *)
Fixpoint parse_digits (acc : N) (s : list N) : option N :=
  match s with
  | [] => Some acc
  | b :: r =>
      if is_ascii_digit b then
        let acc' := (acc * 10 + (b - 48))%N in
        if (acc' <=? U64_MAX)%N then parse_digits acc' r else None
      else None
  end.

Definition parse_usize (token : string) : option N :=
  match str_bytes token with
  | [] => None
  | b :: r =>
      if (b =? 43)%N then match r with [] => None | _ => parse_digits 0 r end
      else parse_digits 0 (b :: r)
  end.

Definition unresolved : string := "checkpoint_credential_slot_unresolved".

(** One step of the walk: the child a token selects. *)
Definition pointer_child (current : Value) (token : string) : result Value :=
  match current with
  | Object m => ok_or (map_get token m) unresolved
  | Array l =>
      let? index := ok_or (parse_usize token) unresolved in
      ok_or (l !! N.to_nat index) unresolved
  | _ => Err unresolved
  end.

Definition resolve_json_pointer (value : Value) (pointer : string) : result Value :=
  let? tokens := pointer_tokens pointer in
  try_fold pointer_child value tokens.

(** The assignment through the reference the walk has reached. *)
Definition put_child (current : Value) (token : string) (child : Value) : result Value :=
  match current with
  | Object m =>
      fail_if (negb (map_contains_key token m)) with unresolved ;;
      Ok (Object (map_insert token child m))
  | Array l =>
      let? index := ok_or (parse_usize token) unresolved in
      match l !! N.to_nat index with
      | None => Err unresolved
      | Some _ => Ok (Array (<[N.to_nat index := child]> l))
      end
  | _ => Err unresolved
  end.

(** [get_mut] down to the last token, the assignment there, and the parents
    that own the changed child. *)
Fixpoint set_tokens (current : Value) (tokens : list string) (replacement : Value)
    : result Value :=
  match tokens with
  | [] => Ok replacement
  | [last] => put_child current last replacement
  | token :: rest =>
      let? child := pointer_child current token in
      let? child' := set_tokens child rest replacement in
      put_child current token child'
  end.

Definition set_json_pointer (value : Value) (pointer : string) (replacement : Value)
    : result Value :=
  let? tokens := pointer_tokens pointer in
  set_tokens value tokens replacement.

(** ** Facts about pointers *)

Lemma try_fold_app {A S} (f : S -> A -> result S) s l1 l2 :
  try_fold f s (l1 ++ l2) = let? s' := try_fold f s l1 in try_fold f s' l2.
Proof. revert s. induction l1 as [|x l1 IH]; intros s; simpl; [done|]. by destruct (f s x). Qed.

(** A child that can be read can be assigned, and nothing else can. *)
Lemma put_child_Ok cur tok r :
  is_ok (put_child cur tok r) = is_ok (pointer_child cur tok).
Proof.
  destruct cur as [| | | |l|m]; simpl; try done.
  - destruct (parse_usize tok) as [i|]; simpl; [|done].
    by destruct (l !! N.to_nat i).
  - unfold map_contains_key. by destruct (map_get tok m).
Qed.

Lemma put_child_Err cur tok r e : put_child cur tok r = Err e -> e = unresolved.
Proof.
  destruct cur as [| | | |l|m]; simpl; try congruence.
  - destruct (parse_usize tok) as [i|]; simpl; [|congruence].
    destruct (l !! N.to_nat i); congruence.
  - destruct (map_contains_key tok m); simpl; congruence.
Qed.

Lemma pointer_child_Err cur tok e : pointer_child cur tok = Err e -> e = unresolved.
Proof.
  destruct cur as [| | | |l|m]; simpl; try congruence.
  - destruct (parse_usize tok) as [i|]; simpl; [|congruence].
    destruct (l !! N.to_nat i); simpl; congruence.
  - destruct (map_get tok m); simpl; congruence.
Qed.

(** Reading the child that was just assigned. *)
Lemma pointer_child_put_eq cur cur' tok r :
  put_child cur tok r = Ok cur' -> pointer_child cur' tok = Ok r.
Proof.
  destruct cur as [| | | |l|m]; simpl; try done.
  - destruct (parse_usize tok) as [i|] eqn:Hp; simpl; [|done].
    destruct (l !! N.to_nat i) eqn:Hl; [|done]. intros; simplify_eq. simpl. rewrite Hp. simpl.
    rewrite list_lookup_insert_eq; [done|]. by apply lookup_lt_Some in Hl.
  - destruct (map_contains_key tok m); simpl; [|done]. intros; simplify_eq. simpl.
    by rewrite map_get_insert_eq.
Qed.

(** Two tokens that select the same child of a value. *)
Definition same_child (cur : Value) (tok tok' : string) : Prop :=
  match cur with
  | Array _ => parse_usize tok = parse_usize tok'
  | _ => tok = tok'
  end.

Lemma pointer_child_put_ne cur cur' tok tok' r :
  ~ same_child cur tok tok' ->
  put_child cur tok r = Ok cur' -> pointer_child cur' tok' = pointer_child cur tok'.
Proof.
  destruct cur as [| | | |l|m]; simpl; intros Hne; try done.
  - destruct (parse_usize tok) as [i|] eqn:Hp; simpl; [|done].
    destruct (l !! N.to_nat i) eqn:Hl; [|done]. intros; simplify_eq. simpl.
    destruct (parse_usize tok') as [j|]; simpl; [|done].
    rewrite list_lookup_insert_ne; [done|]. intros ?%N2Nat.inj. by subst.
  - destruct (map_contains_key tok m); simpl; [|done]. intros; simplify_eq. simpl.
    by rewrite map_get_insert_ne.
Qed.

(** One unfolding of [set_tokens] that treats the last token like the others. *)
Lemma set_tokens_cons cur tok rest r :
  set_tokens cur (tok :: rest) r =
  let? child := pointer_child cur tok in
  let? child' := set_tokens child rest r in
  put_child cur tok child'.
Proof.
  destruct rest as [|tok' rest]; [|done]. simpl.
  pose proof (put_child_Ok cur tok r) as Hok.
  destruct (pointer_child cur tok) as [c|e] eqn:Hc; [done|].
  destruct (put_child cur tok r) as [c'|e'] eqn:Hp; [done|].
  by rewrite (put_child_Err _ _ _ _ Hp), (pointer_child_Err _ _ _ Hc).
Qed.

Lemma set_tokens_resolve tokens : forall cur r cur',
  set_tokens cur tokens r = Ok cur' -> try_fold pointer_child cur' tokens = Ok r.
Proof.
  induction tokens as [|tok rest IH]; intros cur r cur'; [simpl; congruence|].
  rewrite set_tokens_cons. cbn [try_fold]. intros H. result_inv.
  rewrite (pointer_child_put_eq _ _ _ _ H). eauto.
Qed.

Lemma set_tokens_agrees tokens : forall cur r,
  match set_tokens cur tokens r, try_fold pointer_child cur tokens with
  | Ok _, Ok _ => True
  | Err e, Err e' => e = e'
  | _, _ => False
  end.
Proof.
  induction tokens as [|tok rest IH]; intros cur r; [done|].
  rewrite set_tokens_cons. cbn [try_fold].
  destruct (pointer_child cur tok) as [c|e] eqn:Hc; [|done].
  specialize (IH c r). destruct (set_tokens c rest r) as [c'|e'].
  - destruct (try_fold pointer_child c rest) as [w|]; [|done].
    pose proof (put_child_Ok cur tok c') as Hok. rewrite Hc in Hok.
    by destruct (put_child cur tok c').
  - by destruct (try_fold pointer_child c rest).
Qed.

(** Two pointers diverge in a value when, after a common walk, their next
    tokens select different children. *)
Inductive diverge : Value -> list string -> list string -> Prop :=
| diverge_here cur tok tok' p q :
    ~ same_child cur tok tok' -> diverge cur (tok :: p) (tok' :: q)
| diverge_below cur tok c p q :
    pointer_child cur tok = Ok c -> diverge c p q -> diverge cur (tok :: p) (tok :: q).

Lemma set_tokens_frame cur p q : diverge cur p q -> forall r cur',
  set_tokens cur p r = Ok cur' ->
  try_fold pointer_child cur' q = try_fold pointer_child cur q.
Proof.
  induction 1 as [cur tok tok' p q Hne|cur tok c p q Hc _ IH]; intros r cur';
    rewrite set_tokens_cons; cbn [try_fold]; intros Hset; result_inv.
  - by rewrite (pointer_child_put_ne _ _ _ _ _ Hne Hset).
  - rewrite (pointer_child_put_eq _ _ _ _ Hset). simplify_eq. eauto.
Qed.

(** *** Assignments in sequence *)

(** The second assignment of a child wins. *)
Lemma put_child_twice cur cur' tok tok' r r' :
  same_child cur tok tok' ->
  put_child cur tok r = Ok cur' -> put_child cur' tok' r' = put_child cur tok' r'.
Proof.
  destruct cur as [| | | |l|m]; simpl; try done.
  - intros Heq. rewrite <- Heq. destruct (parse_usize tok) as [i|]; simpl; [|done].
    destruct (l !! N.to_nat i) eqn:Hl; [|done]. intros; simplify_eq. simpl. rewrite <- Heq. simpl.
    assert (N.to_nat i < length l)%nat by (by eapply lookup_lt_Some).
    rewrite list_lookup_insert_eq by done. by rewrite list_insert_insert_eq.
  - intros <-. destruct (map_contains_key tok m) eqn:Hk; simpl; [|done]. intros; simplify_eq. simpl.
    unfold map_contains_key. rewrite map_get_insert_eq. by rewrite map_insert_twice.
Qed.

(** Assignments of different children commute. *)
Lemma put_child_comm cur c1 c2 tok tok' r r' :
  ~ same_child cur tok tok' ->
  put_child cur tok r = Ok c1 -> put_child cur tok' r' = Ok c2 ->
  put_child c1 tok' r' = put_child c2 tok r.
Proof.
  destruct cur as [| | | |l|m]; simpl; intros Hne; try done.
  - destruct (parse_usize tok) as [i|] eqn:Hi'; simpl; [|done].
    destruct (parse_usize tok') as [j|] eqn:Hj'; simpl; [|done].
    assert (N.to_nat i <> N.to_nat j) by (intros ?%N2Nat.inj; by subst).
    destruct (l !! N.to_nat i) eqn:Hi; [|done]. destruct (l !! N.to_nat j) eqn:Hj; [|done].
    intros; simplify_eq. simpl. rewrite Hi', Hj'. simpl. rewrite !list_lookup_insert_ne by done. rewrite Hi, Hj.
    by rewrite list_insert_insert_ne.
  - destruct (map_contains_key tok m) eqn:Hk; simpl; [|done].
    destruct (map_contains_key tok' m) eqn:Hk'; simpl; [|done]. intros; simplify_eq. simpl.
    unfold map_contains_key in *. rewrite !map_get_insert_ne by done. rewrite Hk, Hk'. simpl.
    by rewrite map_insert_comm.
Qed.

Lemma same_child_dec cur tok tok' : same_child cur tok tok' \/ ~ same_child cur tok tok'.
Proof.
  destruct cur; simpl; try (destruct (decide (tok = tok')); tauto).
  destruct (decide (parse_usize tok = parse_usize tok')); tauto.
Qed.
Lemma same_child_put cur cur' tok a b r :
  put_child cur tok r = Ok cur' -> same_child cur a b -> same_child cur' a b.
Proof. destruct cur; simpl; try done; intros; result_inv; done. Qed.
Lemma same_child_sym cur a b : same_child cur a b -> same_child cur b a.
Proof. destruct cur; simpl; done. Qed.
Lemma same_child_read cur a b : same_child cur a b -> pointer_child cur a = pointer_child cur b.
Proof. destruct cur; simpl; by intros ->. Qed.
Lemma put_same_child cur a b r : same_child cur a b -> put_child cur a r = put_child cur b r.
Proof. destruct cur; simpl; by intros ->. Qed.

Lemma same_child_refl cur a : same_child cur a a.
Proof. by destruct cur. Qed.

(** [set_tokens] on a non-empty pointer, as its two steps. *)
Lemma set_tokens_cons_inv cur tok rest r cur' :
  set_tokens cur (tok :: rest) r = Ok cur' <->
  exists c c', pointer_child cur tok = Ok c /\ set_tokens c rest r = Ok c' /\
               put_child cur tok c' = Ok cur'.
Proof.
  rewrite set_tokens_cons. split; [intros; result_inv; eauto|].
  intros (c & c' & -> & Hs & Hp). cbn iota beta. by rewrite Hs.
Qed.

(** Writing a secret at [p] and then redacting at [q]: either the redaction
    hides the secret, or the results still differ at most at [p]. *)
Lemma set_tokens_step p : forall q d d1 d' d1' x r,
  set_tokens d p x = Ok d1 -> set_tokens d q r = Ok d' -> set_tokens d1 q r = Ok d1' ->
  d' = d1' \/ exists x', set_tokens d' p x' = Ok d1'.
Proof.
  induction p as [|a p IH]; intros q d d1 d' d1' x r; [by right; exists d1'|].
  destruct q as [|b q]; [simpl; left; congruence|].
  intros (c & c1 & Ha & Hp & H1)%set_tokens_cons_inv (c0 & c' & Hb & Hq & H2)%set_tokens_cons_inv
    (c2 & c1' & Hb1 & Hq1 & H3)%set_tokens_cons_inv.
  destruct (same_child_dec d a b) as [Hs|Hs].
  - rewrite (put_same_child _ _ _ _ Hs) in H1. rewrite (pointer_child_put_eq _ _ _ _ H1) in Hb1.
    rewrite (same_child_read _ _ _ Hs), Hb in Ha. simplify_eq.
    rewrite (put_child_twice _ _ _ _ _ _ (same_child_refl _ _) H1) in H3.
    destruct (IH q _ _ _ _ _ _ Hp Hq Hq1) as [->|[x' Hx']]; [left; congruence|].
    right. exists x'. pose proof (same_child_put _ _ _ _ _ _ H2 Hs) as Hs'.
    apply set_tokens_cons_inv. exists c', c1'.
    rewrite (same_child_read _ _ _ Hs'), (put_same_child _ _ _ _ Hs').
    rewrite (put_child_twice _ _ _ _ _ _ (same_child_refl _ _) H2).
    by rewrite (pointer_child_put_eq _ _ _ _ H2).
  - rewrite (pointer_child_put_ne _ _ _ _ _ Hs H1), Hb in Hb1. simplify_eq.
    assert (Hs' : ~ same_child d b a) by (intros Hba; by apply Hs, same_child_sym).
    right. exists x. apply set_tokens_cons_inv. exists c, c1.
    rewrite (pointer_child_put_ne _ _ _ _ _ Hs' H2).
    rewrite Hq in Hq1. simplify_eq. by rewrite <- (put_child_comm _ _ _ _ _ _ _ Hs H1 H2).
Qed.

(** Redacting where the secret was written hides it. *)
Lemma set_tokens_hides p : forall d d1 x r,
  set_tokens d p x = Ok d1 -> set_tokens d1 p r = set_tokens d p r.
Proof.
  induction p as [|a p IH]; intros d d1 x r; [done|].
  intros (c & c1 & Ha & Hp & H1)%set_tokens_cons_inv. rewrite !set_tokens_cons.
  rewrite (pointer_child_put_eq _ _ _ _ H1), Ha. cbn iota beta. rewrite (IH _ _ _ _ Hp).
  destruct (set_tokens c p r) as [c'|]; [|done].
  by rewrite (put_child_twice _ _ _ _ _ _ (same_child_refl _ _) H1).
Qed.

(** RFC 6901 printing of a token list, the inverse of [pointer_tokens]. *)
Fixpoint escape (token : list ascii) : list ascii :=
  match token with
  | [] => []
  | c :: r =>
      if Ascii.eqb c tilde then tilde :: "0"%char :: escape r
      else if Ascii.eqb c slash then tilde :: "1"%char :: escape r
      else c :: escape r
  end.

Definition print_pointer (tokens : list string) : string :=
  string_of_list_ascii
    (concat (map (fun t => slash :: escape (list_ascii_of_string t)) tokens)).

Lemma escape_no_slash t : Forall (fun c => Ascii.eqb c slash = false) (escape t).
Proof.
  induction t as [|c t IH]; simpl; [constructor|].
  destruct (Ascii.eqb c tilde); [by repeat constructor|].
  destruct (Ascii.eqb c slash) eqn:E; by repeat constructor.
Qed.

Lemma unescape_escape t : unescape (escape t) = Ok t.
Proof.
  induction t as [|c t IH]; [done|]. cbn [escape].
  destruct (Ascii.eqb_spec c tilde) as [->|Ht].
  { cbn. by rewrite IH. }
  destruct (Ascii.eqb_spec c slash) as [->|Hs].
  { cbn. by rewrite IH. }
  cbn [unescape]. rewrite (proj2 (Ascii.eqb_neq c tilde) Ht). by rewrite IH.
Qed.

Lemma split_slash_segment seg r :
  Forall (fun c => Ascii.eqb c slash = false) seg ->
  split_slash (seg ++ slash :: r) = seg :: split_slash r.
Proof.
  induction 1 as [|c seg Hc _ IH]; [done|]. cbn [app split_slash]. by rewrite Hc, IH.
Qed.

Lemma split_slash_last seg :
  Forall (fun c => Ascii.eqb c slash = false) seg -> split_slash seg = [seg].
Proof. induction 1 as [|c seg Hc _ IH]; [done|]. cbn [split_slash]. by rewrite Hc, IH. Qed.

Lemma split_slash_print seg tokens :
  Forall (fun c => Ascii.eqb c slash = false) seg ->
  split_slash (seg ++ concat (map (fun t => slash :: escape (list_ascii_of_string t)) tokens))
  = seg :: map (fun t => escape (list_ascii_of_string t)) tokens.
Proof.
  revert seg. induction tokens as [|t tokens IH]; intros seg Hseg; simpl.
  { rewrite app_nil_r. by apply split_slash_last. }
  rewrite split_slash_segment by done. f_equal. apply IH, escape_no_slash.
Qed.

Lemma collect_unescape tokens :
  collect (fun raw => let? t := unescape raw in Ok (string_of_list_ascii t))
          (map (fun t => escape (list_ascii_of_string t)) tokens) = Ok tokens.
Proof.
  induction tokens as [|t tokens IH]; [done|]. cbn [map collect].
  by rewrite unescape_escape, string_of_list_ascii_of_string, IH.
Qed.

Lemma pointer_tokens_of_print (tokens : list string) :
  pointer_tokens (print_pointer tokens) = Ok tokens.
Proof.
  destruct tokens as [|t tokens]; [done|].
  unfold pointer_tokens, print_pointer.
  rewrite list_ascii_of_string_of_list_ascii. cbn [map concat app].
  change (Ascii.eqb slash slash) with true. cbv iota.
  match goal with |- context [split_slash (slash :: ?r)] =>
    change (split_slash (slash :: r)) with ([] :: split_slash r) end.
  cbn [drop]. rewrite split_slash_print by apply escape_no_slash.
  apply (collect_unescape (t :: tokens)).
Qed.

(** ** Properties *)

(** Every token list, whatever characters its tokens hold, survives
    printing as an RFC 6901 pointer and parsing by [pointer_tokens]. *)
Theorem pointer_tokens_print (tokens : list string) :
  pointer_tokens (print_pointer tokens) = Ok tokens.
Proof. apply pointer_tokens_of_print. Qed.

(** [set_json_pointer] succeeds exactly where [resolve_json_pointer] does
    and fails with the same error code; after a successful assignment the
    pointer resolves to the replacement. *)
Theorem set_json_pointer_resolves (v r : Value) (p : string) :
  match set_json_pointer v p r with
  | Ok v' => is_ok (resolve_json_pointer v p) = true /\ resolve_json_pointer v' p = Ok r
  | Err e => resolve_json_pointer v p = Err e
  end.
Proof.
  unfold set_json_pointer, resolve_json_pointer.
  destruct (pointer_tokens p) as [tokens|e]; [|done].
  pose proof (set_tokens_agrees tokens v r) as Hagree.
  destruct (set_tokens v tokens r) as [v'|e] eqn:Hs;
    destruct (try_fold pointer_child v tokens); try done; [|congruence].
  split; [done|]. by apply set_tokens_resolve in Hs.
Qed.

(** Redacting one credential slot leaves every slot whose pointer
    diverges from it as it was. *)
Theorem set_json_pointer_frame (v r v' : Value) (p q : list string) :
  diverge v p q ->
  set_json_pointer v (print_pointer p) r = Ok v' ->
  resolve_json_pointer v' (print_pointer q) = resolve_json_pointer v (print_pointer q).
Proof.
  unfold set_json_pointer, resolve_json_pointer. rewrite !pointer_tokens_of_print.
  intros Hd Hs. by eapply set_tokens_frame.
Qed.

Lemma set_json_pointer_frame_witness :
  let v := json_object [("api_key", Str "secret"); ("model", Str "m")] in
  exists v', set_json_pointer v (print_pointer ["api_key"]) Null = Ok v' /\
    resolve_json_pointer v' (print_pointer ["model"]) = Ok (Str "m").
Proof.
  intros v. eexists. split; [vm_compute; reflexivity|].
  refine (eq_trans (set_json_pointer_frame v Null _ ["api_key"] ["model"] _ _) _);
    [|vm_compute; reflexivity..].
  apply diverge_here. vm_compute. discriminate.
Defined.
