(* ===== verification/CheckpointTypes.v ===== *)
(** * Checkpoint values

    The language-neutral values of [checkpoint.rs]: the closed enums with
    their wire spellings, lease-renewal outcomes, resume observations,
    reconciliation decisions, event cursors, deferred tool handles, and the
    accepted-once in-memory event store. *)

From Stdlib Require Import Ascii String NArith ZArith Lia.
From stdpp Require Import base strings list gmap.
From S2P Require Import Prelude Json Canonical.

Definition CHECKPOINT_SCHEMA : string := "vv-agent.checkpoint.v12".
Definition RUN_DEFINITION_SCHEMA : string := "vv-agent.run-definition.v5".
Definition CHECKPOINT_RENEWAL_SCHEMA : string := "vv-agent.checkpoint-renewal.v1".
Definition EVENT_CURSOR_SCHEMA : string := "vv-agent.event-cursor.v1".
Definition DEFERRED_HANDLE_SCHEMA : string := "vv-agent.deferred-tool-handle.v2".

(** ** Closed enums *)

Inductive ResumePolicy := New | ResumeIfPresent | RequireExisting.
Inductive ToolIdempotency := Supported | Unsupported | UnknownSupport.
Inductive OperationState := Planned | Started | Deferred | Succeeded | Failed | Ambiguous.
Inductive ClaimMode := Continue | Recovery.

(** The variants of [CheckpointStatus]; a suffix keeps them apart from the
    operation states of the same name. *)
Inductive CheckpointStatus :=
| PendingS | RunningS | DeferredS | HostInteractionS | SuspendedS
| WaitUserS | CompletedS | FailedS | MaxCyclesS | ReconciliationRequiredS.

#[global] Instance ResumePolicy_eq_dec : EqDecision ResumePolicy.
Proof. solve_decision. Defined.
#[global] Instance ToolIdempotency_eq_dec : EqDecision ToolIdempotency.
Proof. solve_decision. Defined.
#[global] Instance OperationState_eq_dec : EqDecision OperationState.
Proof. solve_decision. Defined.
#[global] Instance ClaimMode_eq_dec : EqDecision ClaimMode.
Proof. solve_decision. Defined.
#[global] Instance CheckpointStatus_eq_dec : EqDecision CheckpointStatus.
Proof. solve_decision. Defined.

Definition status_as_str (s : CheckpointStatus) : string :=
  match s with
  | PendingS => "pending" | RunningS => "running" | DeferredS => "deferred"
  | HostInteractionS => "host_interaction" | SuspendedS => "suspended"
  | WaitUserS => "wait_user" | CompletedS => "completed" | FailedS => "failed"
  | MaxCyclesS => "max_cycles" | ReconciliationRequiredS => "reconciliation_required"
  end.

Definition is_terminal (s : CheckpointStatus) : bool :=
  match s with
  | WaitUserS | CompletedS | FailedS | MaxCyclesS => true
  | _ => false
  end.

(** ** serde

    What the [Deserialize] derive accepts from a [serde_json::Value]: a unit
    variant is its name or the one-entry object [{name: null}]; a struct is an
    object or the array of its fields in order. *)

Definition serde_unit_variant (v : Value) : option string :=
  match v with
  | Str s => Some s
  | Object [(s, Null)] => Some s
  | _ => None
  end.

(** [#[serde(deny_unknown_fields)]] structs: the value of every field, [None]
    when the object omits it. *)
Definition serde_strict_struct (fields : list string) (v : Value)
    : option (list (option Value)) :=
  match v with
  | Object m => if only_fields fields m then Some (map (fun f => map_get f m) fields) else None
  | Array l => if (length l =? length fields)%nat then Some (map Some l) else None
  | _ => None
  end.

(** The struct reader sees the literal the derived writer built. *)
Lemma serde_strict_struct_literal (l : list (string * Value)) :
  NoDup (map fst l) ->
  serde_strict_struct (map fst l) (json_object l) = Some (map (fun kv => Some kv.2) l).
Proof.
  intros Hnd. unfold serde_strict_struct, json_object.
  rewrite (proj2 (only_fields_spec _ _)); [|intros k; by rewrite map_of_list_keys].
  f_equal. rewrite map_map. apply map_ext_in. intros [k v] Hin.
  apply map_of_list_get; [done|]. by apply list_elem_of_In.
Qed.
Ltac strict_struct_literal :=
  rewrite serde_strict_struct_literal by (apply (bool_decide_eq_true_1 _); vm_compute; reflexivity).

(** A field of type [Option<T>] may be missing or [null]. *)
Definition serde_option {T} (decode : Value -> option T) (o : option Value)
    : option (option T) :=
  match o with
  | None | Some Null => Some None
  | Some v => Some <$> decode v
  end.

Definition kind_to_value (k : OperationKind) : Value := Str (kind_str k).
Definition kind_from_value (v : Value) : option OperationKind :=
  s ← serde_unit_variant v;
  if String.eqb s "model" then Some Model
  else if String.eqb s "tool" then Some Tool else None.

Definition state_str (s : OperationState) : string :=
  match s with
  | Planned => "planned" | Started => "started" | Deferred => "deferred"
  | Succeeded => "succeeded" | Failed => "failed" | Ambiguous => "ambiguous"
  end.
Definition state_to_value (s : OperationState) : Value := Str (state_str s).
Definition state_from_value (v : Value) : option OperationState :=
  s ← serde_unit_variant v;
  if String.eqb s "planned" then Some Planned
  else if String.eqb s "started" then Some Started
  else if String.eqb s "deferred" then Some Deferred
  else if String.eqb s "succeeded" then Some Succeeded
  else if String.eqb s "failed" then Some Failed
  else if String.eqb s "ambiguous" then Some Ambiguous else None.

Definition idempotency_str (s : ToolIdempotency) : string :=
  match s with
  | Supported => "supported" | Unsupported => "unsupported" | UnknownSupport => "unknown"
  end.
Definition idempotency_to_value (s : ToolIdempotency) : Value := Str (idempotency_str s).
Definition idempotency_from_value (v : Value) : option ToolIdempotency :=
  s ← serde_unit_variant v;
  if String.eqb s "supported" then Some Supported
  else if String.eqb s "unsupported" then Some Unsupported
  else if String.eqb s "unknown" then Some UnknownSupport else None.

Definition opt_to_value {T} (f : T -> Value) (o : option T) : Value :=
  match o with Some x => f x | None => Null end.

Lemma kind_roundtrip k : kind_from_value (kind_to_value k) = Some k.
Proof. by destruct k. Qed.
Lemma state_roundtrip s : state_from_value (state_to_value s) = Some s.
Proof. by destruct s. Qed.
Lemma idempotency_roundtrip s : idempotency_from_value (idempotency_to_value s) = Some s.
Proof. by destruct s. Qed.

(** ** Lease renewal *)

Inductive CheckpointRenewalOutcome :=
| Renewed (lease_expires_at_ms : N)
| CancelRequested (lease_expires_at_ms : N)
| ClaimLost (revision : N).

Definition renewal_to_value (o : CheckpointRenewalOutcome) : Value :=
  match o with
  | Renewed lease => json_object [
      ("schema_version", Str CHECKPOINT_RENEWAL_SCHEMA); ("outcome", Str "renewed");
      ("lease_expires_at_ms", json_u64 lease)]
  | CancelRequested lease => json_object [
      ("schema_version", Str CHECKPOINT_RENEWAL_SCHEMA); ("outcome", Str "cancel_requested");
      ("lease_expires_at_ms", json_u64 lease)]
  | ClaimLost revision => json_object [
      ("schema_version", Str CHECKPOINT_RENEWAL_SCHEMA); ("outcome", Str "claim_lost");
      ("revision", json_u64 revision)]
  end.

Definition renewal_integer (m : object) (field : string) : result N :=
  let? n := ok_or (map_get field m ≫= as_u64) "checkpoint_renewal_invalid" in
  fail_if (MAX_WIRE_INTEGER <? n)%N with "checkpoint_renewal_invalid" ;;
  Ok n.

Definition renewal_from_value (v : Value) : result CheckpointRenewalOutcome :=
  let? m := ok_or (as_object v) "checkpoint_renewal_invalid" in
  let? outcome := ok_or (map_get "outcome" m ≫= as_str) "checkpoint_renewal_invalid" in
  let? schema := ok_or (map_get "schema_version" m ≫= as_str) "checkpoint_renewal_invalid" in
  fail_if (negb (String.eqb schema CHECKPOINT_RENEWAL_SCHEMA))
  with "checkpoint_renewal_schema_unsupported" ;;
  let? expected_fields :=
    (if String.eqb outcome "renewed" || String.eqb outcome "cancel_requested"
     then Ok ["schema_version"; "outcome"; "lease_expires_at_ms"]
     else if String.eqb outcome "claim_lost" then Ok ["schema_version"; "outcome"; "revision"]
     else Err "checkpoint_renewal_invalid") in
  fail_if (negb (has_exactly expected_fields m)) with "checkpoint_renewal_invalid" ;;
  if String.eqb outcome "renewed" then
    let? n := renewal_integer m "lease_expires_at_ms" in Ok (Renewed n)
  else if String.eqb outcome "cancel_requested" then
    let? n := renewal_integer m "lease_expires_at_ms" in Ok (CancelRequested n)
  else let? n := renewal_integer m "revision" in Ok (ClaimLost n).

(** ** Resume observations *)

Record ResumeObservation := {
  obs_operation_id : string;
  obs_operation_kind : OperationKind;
  obs_cycle_index : N;
  obs_state : OperationState;
  obs_risk : string;
  obs_idempotency_support : option ToolIdempotency
}.
#[global] Instance ResumeObservation_eq_dec : EqDecision ResumeObservation.
Proof. solve_decision. Defined.

Definition observation_validate (o : ResumeObservation) : result unit :=
  do? require_non_empty (obs_operation_id o) ;;
  do? require_positive (obs_cycle_index o) ;;
  fail_if (obs_state o <>?? Ambiguous) with "checkpoint_resume_observation_invalid" ;;
  require_non_empty (obs_risk o).

Definition observation_fields : list string :=
  ["operation_id"; "operation_kind"; "cycle_index"; "state"; "risk"; "idempotency_support"].

Definition observation_to_value (o : ResumeObservation) : Value :=
  json_object [
    ("operation_id", Str (obs_operation_id o));
    ("operation_kind", kind_to_value (obs_operation_kind o));
    ("cycle_index", json_u64 (obs_cycle_index o));
    ("state", state_to_value (obs_state o));
    ("risk", Str (obs_risk o));
    ("idempotency_support", opt_to_value idempotency_to_value (obs_idempotency_support o))].

Definition observation_from_value (v : Value) : option ResumeObservation :=
  fields ← serde_strict_struct observation_fields v;
  match fields with
  | [a; b; c; d; e; f] =>
      id ← a ≫= as_str;
      kind ← b ≫= kind_from_value;
      cycle ← c ≫= as_u64;
      state ← d ≫= state_from_value;
      risk ← e ≫= as_str;
      idem ← serde_option idempotency_from_value f;
      Some {| obs_operation_id := id; obs_operation_kind := kind; obs_cycle_index := cycle;
              obs_state := state; obs_risk := risk; obs_idempotency_support := idem |}
  | _ => None
  end.

Lemma observation_roundtrip o : observation_from_value (observation_to_value o) = Some o.
Proof. by destruct o as [id [] cycle [] risk [[]|]]. Qed.

(** ** Deferred tool handles ([checkpoint/deferred.rs]) *)

Record DeferredToolHandle := {
  h_schema_version : string;
  h_checkpoint_key : string;
  h_operation_id : string;
  h_attempt : N;
  h_request_digest : string
}.
#[global] Instance DeferredToolHandle_eq_dec : EqDecision DeferredToolHandle.
Proof. solve_decision. Defined.

Definition handle_validate (h : DeferredToolHandle) : result unit :=
  fail_if (negb (String.eqb (h_schema_version h) DEFERRED_HANDLE_SCHEMA))
  with "deferred_handle_schema_unsupported" ;;
  fail_if (trim_is_empty (h_checkpoint_key h)) with "deferred_handle_invalid" ;;
  fail_if (trim_is_empty (h_operation_id h)) with "deferred_handle_invalid" ;;
  fail_if ((h_attempt h =? 0)%N || (MAX_WIRE_INTEGER <? h_attempt h)%N)
  with "deferred_handle_invalid" ;;
  validate_sha256 (h_request_digest h).

Definition handle_new (checkpoint_key operation_id : string) (attempt : N)
    (request_digest : string) : result DeferredToolHandle :=
  let handle := {| h_schema_version := DEFERRED_HANDLE_SCHEMA; h_checkpoint_key := checkpoint_key;
                   h_operation_id := operation_id; h_attempt := attempt;
                   h_request_digest := request_digest |} in
  do? handle_validate handle ;;
  Ok handle.

Definition handle_fields : list string :=
  ["schema_version"; "checkpoint_key"; "operation_id"; "attempt"; "request_digest"].

Definition handle_to_value (h : DeferredToolHandle) : Value :=
  json_object [
    ("schema_version", Str (h_schema_version h));
    ("checkpoint_key", Str (h_checkpoint_key h));
    ("operation_id", Str (h_operation_id h));
    ("attempt", json_u64 (h_attempt h));
    ("request_digest", Str (h_request_digest h))].

Definition handle_from_value (v : Value) : result DeferredToolHandle :=
  let? m := ok_or (as_object v) "deferred_handle_invalid" in
  fail_if (negb (opt_is (map_get "schema_version" m ≫= as_str) DEFERRED_HANDLE_SCHEMA))
  with "deferred_handle_schema_unsupported" ;;
  fail_if (negb (only_fields handle_fields m)) with "deferred_handle_unknown_field" ;;
  fail_if (existsb (fun f => negb (map_contains_key f m)) handle_fields)
  with "deferred_handle_invalid" ;;
  let? key := ok_or (map_get "checkpoint_key" m ≫= as_str) "deferred_handle_invalid" in
  let? operation := ok_or (map_get "operation_id" m ≫= as_str) "deferred_handle_invalid" in
  let? attempt := ok_or (map_get "attempt" m ≫= as_u64) "deferred_handle_invalid" in
  let? digest := ok_or (map_get "request_digest" m ≫= as_str) "deferred_handle_invalid" in
  let handle := {| h_schema_version := DEFERRED_HANDLE_SCHEMA; h_checkpoint_key := key;
                   h_operation_id := operation; h_attempt := attempt;
                   h_request_digest := digest |} in
  do? handle_validate handle ;;
  Ok handle.

Lemma handle_roundtrip h :
  handle_validate h = Ok tt -> handle_from_value (handle_to_value h) = Ok h.
Proof.
  intros Hv. destruct h as [schema key op att dig].
  assert (schema = DEFERRED_HANDLE_SCHEMA) as ->.
  { unfold handle_validate in Hv. by result_inv; bool_inv. }
  unfold handle_from_value, DEFERRED_HANDLE_SCHEMA in *. cbv -[handle_validate]. by rewrite Hv.
Qed.

Definition handle_key `{Digest} (h : DeferredToolHandle) : result string :=
  do? handle_validate h ;;
  sha256_canonical (handle_to_value h).

(** ** Reconciliation *)

Inductive ReconciliationDecisionKind :=
| Defer | AcceptDeferred | Retry | ReplaySuccess | RecordFailure | Abort.
#[global] Instance ReconciliationDecisionKind_eq_dec : EqDecision ReconciliationDecisionKind.
Proof. solve_decision. Defined.

Record ReconciliationError := { re_code : string; re_message : string; re_retryable : bool }.

Definition reconciliation_error_validate (e : ReconciliationError) : result unit :=
  do? require_non_empty (re_code e) ;;
  require_non_empty (re_message e).

Record ReconciliationDecision := {
  rd_kind : ReconciliationDecisionKind;
  rd_response : option Value;
  rd_result : option Value;
  rd_error : option ReconciliationError;
  rd_handle : option DeferredToolHandle
}.

Definition rd_payload_ok (d : ReconciliationDecision) : result unit :=
  match rd_kind d with
  | ReplaySuccess =>
      if xorb (is_some (rd_response d)) (is_some (rd_result d)) then Ok tt
      else Err "checkpoint_reconciliation_decision_invalid"
  | RecordFailure | Abort =>
      match rd_error d with
      | None => Err "checkpoint_reconciliation_decision_invalid"
      | Some error => reconciliation_error_validate error
      end
  | AcceptDeferred =>
      match rd_handle d with
      | Some handle =>
          fail_if (is_some (rd_response d) || is_some (rd_result d) || is_some (rd_error d))
          with "checkpoint_reconciliation_decision_invalid" ;;
          handle_validate handle
      | None => Err "checkpoint_reconciliation_decision_invalid"
      end
  | Defer | Retry =>
      if is_none (rd_response d) && is_none (rd_result d) && is_none (rd_error d)
         && is_none (rd_handle d)
      then Ok tt else Err "checkpoint_reconciliation_decision_invalid"
  end.

Definition decision_validate (d : ReconciliationDecision) : result unit :=
  do? rd_payload_ok d ;;
  do? match rd_response d with Some v => validate_i_json v | None => Ok tt end ;;
  match rd_result d with Some v => validate_i_json v | None => Ok tt end.

Definition decision (k : ReconciliationDecisionKind) (response result : option Value)
    (error : option ReconciliationError) (handle : option DeferredToolHandle)
    : ReconciliationDecision :=
  {| rd_kind := k; rd_response := response; rd_result := result; rd_error := error;
     rd_handle := handle |}.
Definition decision_defer := decision Defer None None None None.
Definition decision_retry := decision Retry None None None None.
Definition replay_response (response : Value) := decision ReplaySuccess (Some response) None None None.
Definition replay_result (result : Value) := decision ReplaySuccess None (Some result) None None.
Definition record_failure (e : ReconciliationError) := decision RecordFailure None None (Some e) None.
Definition decision_abort (e : ReconciliationError) := decision Abort None None (Some e) None.
Definition accept_deferred (h : DeferredToolHandle) := decision AcceptDeferred None None None (Some h).

(** ** Event cursors *)

Record EventCursor := {
  cur_schema_version : string;
  cur_store_ref : CapabilityRef;
  cur_value : Value;
  cur_last_event_id : option string
}.
#[global] Instance EventCursor_eq_dec : EqDecision EventCursor.
Proof. solve_decision. Defined.

Definition cursor_new (store_ref : CapabilityRef) (value : Value) (last_event_id : option string) :=
  {| cur_schema_version := EVENT_CURSOR_SCHEMA; cur_store_ref := store_ref; cur_value := value;
     cur_last_event_id := last_event_id |}.

Definition cursor_validate (c : EventCursor) : result unit :=
  fail_if (negb (String.eqb (cur_schema_version c) EVENT_CURSOR_SCHEMA))
  with "checkpoint_event_cursor_schema_unsupported" ;;
  do? validate_capability_ref (cur_store_ref c) ;;
  do? validate_i_json (cur_value c) ;;
  fail_if (is_some_and (cur_last_event_id c) trim_is_empty)
  with "checkpoint_event_cursor_invalid" ;;
  Ok tt.

Definition capability_to_value (c : CapabilityRef) : Value :=
  json_object [("id", Str (cap_id c)); ("version", Str (cap_version c))].

(** [serde_json::to_value(&cursor)]. *)
Definition cursor_to_value (c : EventCursor) : Value :=
  json_object [
    ("schema_version", Str (cur_schema_version c));
    ("store_ref", capability_to_value (cur_store_ref c));
    ("value", cur_value c);
    ("last_event_id", json_opt_str (cur_last_event_id c))].

(** [CapabilityRef::from_dict] on an object that has exactly its two fields. *)
Definition capability_from_dict (m : object) : result CapabilityRef :=
  let? id := ok_or (map_get "id" m ≫= as_str) "capability_ref_invalid" in
  let? version := ok_or (map_get "version" m ≫= as_str) "capability_ref_invalid" in
  fail_if (trim_is_empty id) with "capability_ref_invalid" ;;
  fail_if (trim_is_empty version) with "capability_ref_invalid" ;;
  Ok {| cap_id := id; cap_version := version |}.

Definition cursor_from_value (v : Value) : result EventCursor :=
  let e := "checkpoint_event_cursor_invalid" in
  let? m := ok_or (as_object v) e in
  fail_if (negb (has_exactly ["schema_version"; "store_ref"; "value"; "last_event_id"] m)) with e ;;
  let? schema := ok_or (map_get "schema_version" m ≫= as_str) e in
  let? ref := ok_or (map_get "store_ref" m ≫= as_object) e in
  fail_if (negb (has_exactly ["id"; "version"] ref)) with e ;;
  let? store_ref := map_err (capability_from_dict ref) e in
  let? last := match map_get "last_event_id" m with
               | Some Null => Ok None
               | Some (Str s) => Ok (Some s)
               | _ => Err e
               end in
  let? value := ok_or (map_get "value" m) e in
  let cursor := {| cur_schema_version := schema; cur_store_ref := store_ref;
                   cur_value := value; cur_last_event_id := last |} in
  do? cursor_validate cursor ;;
  Ok cursor.

(** ** The accepted-once event store ([InMemoryRunEventStore])

    Two mutex-guarded fields; a call holds the locks for its whole body, so a
    call is one state transition.  Lock poisoning is not modelled. *)

Record RunEventStore := {
  es_entries : gmap string (string * Value * Value);
  es_next_sequence : N
}.

Record AppendOnceResult := { ao_inserted : bool; ao_cursor : Value }.

Definition event_store_new : RunEventStore := {| es_entries := ∅; es_next_sequence := 0 |}.

Definition sequence_cursor (n : N) : Value := json_object [("sequence", json_u64 n)].

Definition append_once `{Digest} (st : RunEventStore) (event_id payload_digest : string)
    (event : Value) : result (AppendOnceResult * RunEventStore) :=
  do? require_non_empty event_id ;;
  do? validate_sha256 payload_digest ;;
  fail_if (negb (is_object event)) with "event_payload_invalid" ;;
  let? calculated := event_payload_digest event in
  fail_if (negb (String.eqb calculated payload_digest)) with "event_payload_digest_mismatch" ;;
  match es_entries st !! event_id with
  | Some (existing_digest, _, cursor) =>
      fail_if (negb (String.eqb existing_digest payload_digest)) with "event_identity_conflict" ;;
      Ok ({| ao_inserted := false; ao_cursor := cursor |}, st)
  | None =>
      let? next := ok_or (checked_add (es_next_sequence st) 1) "event_cursor_overflow" in
      let cursor := sequence_cursor next in
      Ok ({| ao_inserted := true; ao_cursor := cursor |},
          {| es_entries := <[event_id := (payload_digest, event, cursor)]> (es_entries st);
             es_next_sequence := next |})
  end.

(** Every retained cursor is a sequence number already handed out, and no two
    events share one. *)
Definition event_store_wf (st : RunEventStore) : Prop :=
  (forall id d e c, es_entries st !! id = Some (d, e, c) ->
     exists n, c = sequence_cursor n /\ (1 <= n <= es_next_sequence st)%N) /\
  (forall id id' d d' e e' c, es_entries st !! id = Some (d, e, c) ->
     es_entries st !! id' = Some (d', e', c) -> id = id').

Lemma sequence_cursor_inj n n' : sequence_cursor n = sequence_cursor n' -> n = n'.
Proof. cbv. congruence. Qed.

Lemma append_once_wf `{Digest} st id d ev r st' :
  event_store_wf st -> append_once st id d ev = Ok (r, st') -> event_store_wf st'.
Proof.
  intros [Hseq Huniq] Hok. unfold append_once in Hok. result_inv.
  { destruct p as [[? ?] ?]. by result_inv. }
  apply checked_add_Some in Hdo2 as [-> _]. split; simpl.
  - intros id' d' e c. rewrite lookup_insert. case_decide as Hid.
    + intros; simplify_eq. eexists. split; [done|lia].
    + intros (n & -> & Hn)%Hseq. exists n. split; [done|lia].
  - intros i j di dj ei ej c. rewrite !lookup_insert.
    case_decide as Hi; case_decide as Hj; intros H1 H2; simplify_eq; try done; eauto.
    + destruct (Hseq _ _ _ _ H2) as (n & Hc & Hn). apply sequence_cursor_inj in Hc. lia.
    + destruct (Hseq _ _ _ _ H1) as (n & Hc & Hn). apply sequence_cursor_inj in Hc. lia.
Qed.

(** ** Properties *)

(** A lease-renewal outcome whose integer is JSON-safe survives its wire
    encoding, whichever of the three variants it is. *)
Theorem renewal_roundtrip (o : CheckpointRenewalOutcome) :
  (match o with Renewed n | CancelRequested n | ClaimLost n => n end <= MAX_WIRE_INTEGER)%N ->
  renewal_from_value (renewal_to_value o) = Ok o.
Proof.
  intros Hn. destruct o as [n|n|n]; simpl in Hn; apply N.ltb_ge in Hn;
    unfold renewal_from_value, renewal_integer; cbv -[N.ltb MAX_WIRE_INTEGER]; by rewrite Hn.
Qed.

Lemma renewal_roundtrip_witness : renewal_from_value (renewal_to_value (ClaimLost 7)) = Ok (ClaimLost 7).
Proof. apply (renewal_roundtrip (ClaimLost 7)). vm_compute. discriminate. Defined.

(** A validated event cursor survives its wire encoding. *)
Theorem cursor_roundtrip (c : EventCursor) :
  cursor_validate c = Ok tt -> cursor_from_value (cursor_to_value c) = Ok c.
Proof.
  intros Hv. pose proof Hv as Hv'. destruct c as [schema [id version] value last].
  unfold cursor_validate, validate_capability_ref in Hv'. cbn in Hv'. result_inv. bool_inv.
  destruct last as [last|]; unfold cursor_from_value;
    cbv -[cursor_validate trim_is_empty];
    repeat match goal with H : trim_is_empty _ = false |- _ => rewrite H end; by rewrite Hv.
Qed.

(** A concrete digest: the bytes folded into 64 bits, in 64 hex digits, over
    a printer that lists the value's scalars.  Witnesses evaluate with it. *)
Definition hex_digit (n : N) : ascii := ascii_of_N (if (n <? 10)%N then 48 + n else 87 + n)%N.
Fixpoint hex_digits (k : nat) (n : N) (acc : string) : string :=
  match k with
  | O => acc
  | S k' => hex_digits k' (n / 16)%N (String (hex_digit (n mod 16)%N) acc)
  end.
Definition toy_sha256 (s : string) : string :=
  hex_digits 64 (foldl (fun h b => N.land (h * 257 + b + 1) U64_MAX) 7%N (str_bytes s)) "".
Fixpoint toy_print (v : Value) : string :=
  match v with
  | Null => "n" | Bool true => "t" | Bool false => "f"
  | Num (PosInt n) => "#" +:+ hex_digits 16 n ""
  | Num (NegInt z) => "-" +:+ hex_digits 16 (Z.abs_N z) ""
  | Num (Float b) => "." +:+ hex_digits 16 (Z.abs_N b) ""
  | Str s => "'" +:+ s
  | Array l => "[" +:+ (fix go l := match l with [] => "]" | x :: r => toy_print x +:+ "," +:+ go r end) l
  | Object m => "{" +:+ (fix go (m : object) :=
      match m with [] => "}" | (k, x) :: r => k +:+ ":" +:+ toy_print x +:+ "," +:+ go r end) m
  end.
Definition toy_digest : Digest :=
  {| canonicalizer_to_vec := fun v => Some (toy_print v); sha256_hex := toy_sha256 |}.

Definition bad_digit (b : N) : bool := negb (is_ascii_hexdigit b) || is_ascii_uppercase b.
Lemma hex_digit_ok n : (n < 16)%N -> bad_digit (N_of_ascii (hex_digit n)) = false.
Proof.
  intros Hn. assert (n ∈ map N.of_nat (seq 0 16)) as Hin.
  { apply list_elem_of_fmap. exists (N.to_nat n). split; [lia|]. apply elem_of_seq. lia. }
  revert Hin. clear Hn. cbn. intros Hin.
  repeat (apply elem_of_cons in Hin as [->|Hin]; [reflexivity|]). by apply elem_of_nil in Hin.
Qed.
Lemma hex_digits_ok k n acc :
  String.length (hex_digits k n acc) = (k + String.length acc)%nat /\
  (existsb bad_digit (str_bytes acc) = false ->
   existsb bad_digit (str_bytes (hex_digits k n acc)) = false).
Proof.
  revert n acc. induction k as [|k IH]; intros n acc; cbn [hex_digits]; [done|].
  destruct (IH (n / 16)%N (String (hex_digit (n mod 16)%N) acc)) as [Hl He].
  split; [rewrite Hl; cbn; lia|]. intros Ha. apply He. cbn [str_bytes list_ascii_of_string map existsb].
  rewrite hex_digit_ok by (apply N.mod_lt; done). done.
Qed.
Lemma toy_digest_laws : @DigestLaws toy_digest.
Proof.
  constructor. intros bytes. unfold validate_sha256, str_len. cbn [sha256_hex toy_digest].
  unfold toy_sha256. destruct (hex_digits_ok 64
    (foldl (fun h b => N.land (h * 257 + b + 1) U64_MAX) 7%N (str_bytes bytes)) "") as [Hl He].
  rewrite Hl. fold bad_digit. change (fun b => negb (is_ascii_hexdigit b) || is_ascii_uppercase b)
    with bad_digit. by rewrite He.
Qed.

Lemma cursor_roundtrip_witness :
  let c := cursor_new {| cap_id := "events"; cap_version := "1" |} (json_u64 3) (Some "evt_1") in
  cursor_from_value (cursor_to_value c) = Ok c.
Proof. intros c. apply (cursor_roundtrip c). reflexivity. Defined.

(** Accepted once: when [append_once] succeeds, repeating the call with
    the same event id and digest changes nothing and returns the same cursor,
    a different digest under that id is an [event_identity_conflict], and an
    inserted event gets a sequence number above every earlier one. *)
Theorem append_once_accepted_once `{Digest} st id d ev r st' :
  event_store_wf st ->
  append_once st id d ev = Ok (r, st') ->
  append_once st' id d ev = Ok ({| ao_inserted := false; ao_cursor := ao_cursor r |}, st') /\
  (forall d' ev', event_payload_digest ev' = Ok d' -> validate_sha256 d' = Ok tt -> d' <> d ->
     append_once st' id d' ev' = Err "event_identity_conflict") /\
  (ao_inserted r = true ->
     es_next_sequence st' = (es_next_sequence st + 1)%N /\
     ao_cursor r = sequence_cursor (es_next_sequence st')) /\
  event_store_wf st'.
Proof.
  intros Hwf Hok. pose proof (append_once_wf _ _ _ _ _ _ Hwf Hok) as Hwf'.
  assert (exists e, es_entries st' !! id = Some (d, e, ao_cursor r)) as [e He].
  { unfold append_once in Hok. result_inv.
    - destruct p as [[? ?] ?]. result_inv. bool_inv. subst. eauto.
    - simpl. rewrite lookup_insert_eq. eauto. }
  assert (require_non_empty id = Ok tt) as Hid.
  { unfold append_once in Hok. destruct (require_non_empty id) as [[]|]; done. }
  split; [|split; [|split; [|done]]].
  - unfold append_once in Hok |- *. result_inv; rewrite He, String.eqb_refl; done.
  - intros d' ev' Hd' Hv Hne. unfold append_once. rewrite Hid, Hv.
    assert (is_object ev' = true) as ->.
    { unfold event_payload_digest in Hd'. destruct (is_object ev'); done. }
    simpl. rewrite Hd', String.eqb_refl, He. simpl.
    by rewrite (proj2 (String.eqb_neq d d')).
  - intros Hins. unfold append_once in Hok. result_inv.
    { destruct p as [[? ?] ?]. by result_inv. }
    by apply checked_add_Some in Hdo2 as [-> _].
Qed.

Lemma append_once_accepted_once_witness :
  let ev := json_object [("type", Str "x")] in
  let d := toy_sha256 (toy_print ev) in
  exists r st', @append_once toy_digest event_store_new "evt" d ev = Ok (r, st') /\
    @append_once toy_digest st' "evt" d ev
    = Ok ({| ao_inserted := false; ao_cursor := ao_cursor r |}, st').
Proof.
  intros ev d.
  destruct (@append_once toy_digest event_store_new "evt" d ev) as [[r st']|] eqn:E;
    [|exfalso; revert E; vm_compute; discriminate].
  exists r, st'. split; [done|].
  refine (proj1 (@append_once_accepted_once toy_digest event_store_new "evt" d ev r st' _ E)).
  split; intros; simplify_map_eq.
Defined.
