(* ===== verification/ToolResult.v ===== *)
(** * Tool execution results

    [types/tool_calls.rs] and [types/dict/tools.rs]: the result a tool handler
    returns, its validation, its canonical wire form and the strict reader,
    and the classification of definitive and ambiguous outcomes of
    [checkpoint/deferred.rs]. *)

From Stdlib Require Import Ascii String NArith Lia.
From stdpp Require Import base strings list sets.
From S2P Require Import Prelude Json Canonical CheckpointTypes.

Inductive ToolDirective := DContinue | DWaitUser | DFinish.
Inductive ToolResultStatus := Success | Error | WaitResponse | RunningR | PendingCompress.
Inductive ToolTruncationReason := OutputLimit | ReadLimit.

#[global] Instance ToolDirective_eq_dec : EqDecision ToolDirective.
Proof. solve_decision. Defined.
#[global] Instance ToolResultStatus_eq_dec : EqDecision ToolResultStatus.
Proof. solve_decision. Defined.
#[global] Instance ToolTruncationReason_eq_dec : EqDecision ToolTruncationReason.
Proof. solve_decision. Defined.

Record ToolArtifactRef := {
  art_path : string; art_media_type : string; art_encoding : string;
  art_size_bytes : N; art_sha256 : string
}.
Record ToolResultCursor := {
  rc_kind : string; rc_path : string; rc_offset_chars : N; rc_sha256 : string
}.
#[global] Instance ToolArtifactRef_eq_dec : EqDecision ToolArtifactRef.
Proof. solve_decision. Defined.
#[global] Instance ToolResultCursor_eq_dec : EqDecision ToolResultCursor.
Proof. solve_decision. Defined.

Record ToolExecutionResult := {
  tr_tool_call_id : string;
  tr_content : string;
  tr_status : ToolResultStatus;
  tr_directive : ToolDirective;
  tr_error_code : option string;
  tr_metadata : object;
  tr_image_url : option string;
  tr_image_path : option string;
  tr_truncated : bool;
  tr_truncation_reason : option ToolTruncationReason;
  tr_original_bytes : option N;
  tr_visible_bytes : option N;
  tr_artifact : option ToolArtifactRef;
  tr_cursor : option ToolResultCursor
}.
#[global] Instance ToolExecutionResult_eq_dec : EqDecision ToolExecutionResult.
Proof. solve_decision. Defined.

(** ** Validation *)

Definition valid_sha256 (value : string) : bool :=
  (str_len value =? 64)%N && forallb sha256_char (str_bytes value).

Definition ARTIFACT_PREFIX : string := ".vv-agent/artifacts/".

Definition valid_segment (segment : list ascii) : bool :=
  let bytes := map N_of_ascii segment in
  (length segment <=? 128)%nat
  && is_some_and (head bytes) is_ascii_alphanumeric
  && forallb (fun b => is_ascii_alphanumeric b || existsb (N.eqb b) [46; 95; 45]%N) bytes.

(** [path.contains(['\\', '\0'])]. *)
Definition has_forbidden_char (path : string) : bool :=
  existsb (fun b => (b =? 92)%N || (b =? 0)%N) (str_bytes path).

Definition valid_artifact_path (path : string) : bool :=
  if (512 <? str_len path)%N || negb (String.prefix ARTIFACT_PREFIX path)
     || has_forbidden_char path
  then false
  else forallb valid_segment
         (split_slash (drop (String.length ARTIFACT_PREFIX) (list_ascii_of_string path))).

Definition tool_result_invalid : string := "tool_result_invalid".

Definition artifact_validate (a : ToolArtifactRef) : result unit :=
  fail_if (negb (valid_artifact_path (art_path a))) with "artifact_path_invalid" ;;
  fail_if (negb (String.eqb (art_media_type a) "text/plain")
           || negb (String.eqb (art_encoding a) "utf-8")) with tool_result_invalid ;;
  fail_if (negb (valid_sha256 (art_sha256 a))) with tool_result_invalid ;;
  Ok tt.

Definition cursor_ref_validate (c : ToolResultCursor) : result unit :=
  fail_if (negb (String.eqb (rc_kind c) "read_file")
           || trim_is_empty (rc_path c)
           || has_forbidden_char (rc_path c)
           || (MAX_WIRE_INTEGER <? rc_offset_chars c)%N
           || negb (valid_sha256 (rc_sha256 c)))
  with tool_result_invalid ;;
  Ok tt.

Definition forbidden_metadata : list string :=
  ["content"; "instructions"; "output"; "stderr"; "stdout"].

Definition validate_truncation (r : ToolExecutionResult) : result unit :=
  let? reason := ok_or (tr_truncation_reason r) tool_result_invalid in
  let? original_bytes := ok_or (tr_original_bytes r) tool_result_invalid in
  let? visible_bytes := ok_or (tr_visible_bytes r) tool_result_invalid in
  fail_if (negb (visible_bytes =? str_len (tr_content r))%N || (original_bytes <? visible_bytes)%N)
  with tool_result_invalid ;;
  match reason with
  | OutputLimit =>
      let? artifact := ok_or (tr_artifact r) tool_result_invalid in
      fail_if (is_some (tr_cursor r)) with tool_result_invalid ;;
      artifact_validate artifact
  | ReadLimit =>
      let? cursor := ok_or (tr_cursor r) tool_result_invalid in
      fail_if (is_some (tr_artifact r)) with tool_result_invalid ;;
      cursor_ref_validate cursor
  end.

Definition tool_result_validate (r : ToolExecutionResult) : result unit :=
  fail_if ((tr_status r =?? Success) && is_some (tr_error_code r)) with tool_result_invalid ;;
  fail_if (existsb (fun k => map_contains_key k (tr_metadata r)) forbidden_metadata)
  with tool_result_invalid ;;
  if negb (tr_truncated r) then
    fail_if (is_some (tr_truncation_reason r) || is_some (tr_original_bytes r)
             || is_some (tr_visible_bytes r) || is_some (tr_artifact r) || is_some (tr_cursor r))
    with tool_result_invalid ;;
    Ok tt
  else validate_truncation r.

(** ** Wire form *)

Definition tool_directive_value (d : ToolDirective) : string :=
  match d with DContinue => "continue" | DWaitUser => "wait_user" | DFinish => "finish" end.
Definition parse_tool_directive (s : string) : result ToolDirective :=
  if String.eqb s "continue" then Ok DContinue
  else if String.eqb s "wait_user" then Ok DWaitUser
  else if String.eqb s "finish" then Ok DFinish
  else Err ("unknown tool directive: " +:+ s).

Definition tool_result_status_value (s : ToolResultStatus) : string :=
  match s with
  | Success => "SUCCESS" | Error => "ERROR" | WaitResponse => "WAIT_RESPONSE"
  | RunningR => "RUNNING" | PendingCompress => "PENDING_COMPRESS"
  end.
Definition parse_tool_result_status (s : string) : result ToolResultStatus :=
  if String.eqb s "SUCCESS" then Ok Success
  else if String.eqb s "ERROR" then Ok Error
  else if String.eqb s "WAIT_RESPONSE" then Ok WaitResponse
  else if String.eqb s "RUNNING" then Ok RunningR
  else if String.eqb s "PENDING_COMPRESS" then Ok PendingCompress
  else Err ("unknown tool result status: " +:+ s).

Definition truncation_reason_value (t : ToolTruncationReason) : string :=
  match t with OutputLimit => "output_limit" | ReadLimit => "read_limit" end.
Definition parse_truncation_reason (o : option string) : result (option ToolTruncationReason) :=
  match o with
  | None => Ok None
  | Some s =>
      if String.eqb s "output_limit" then Ok (Some OutputLimit)
      else if String.eqb s "read_limit" then Ok (Some ReadLimit)
      else Err tool_result_invalid
  end.

(** [if let Some(x) = o { payload.insert(k, f(x)) }]. *)
Definition insert_opt {A} (k : string) (f : A -> Value) (o : option A) (m : object) : object :=
  match o with Some x => map_insert k (f x) m | None => m end.

(** The metadata entry is written when there is metadata, the truncation flag
    when it is set. *)
Definition insert_metadata (metadata m : object) : object :=
  match metadata with [] => m | _ :: _ => map_insert "metadata" (Object metadata) m end.
Definition insert_truncated (b : bool) (m : object) : object :=
  if b then map_insert "truncated" (Bool true) m else m.

Definition artifact_to_value (a : ToolArtifactRef) : Value :=
  json_object [("path", Str (art_path a)); ("media_type", Str (art_media_type a));
               ("encoding", Str (art_encoding a)); ("size_bytes", json_u64 (art_size_bytes a));
               ("sha256", Str (art_sha256 a))].
Definition cursor_ref_to_value (c : ToolResultCursor) : Value :=
  json_object [("kind", Str (rc_kind c)); ("path", Str (rc_path c));
               ("offset_chars", json_u64 (rc_offset_chars c)); ("sha256", Str (rc_sha256 c))].

Definition artifact_from_value (v : Value) : option ToolArtifactRef :=
  fields ← serde_strict_struct ["path"; "media_type"; "encoding"; "size_bytes"; "sha256"] v;
  match fields with
  | [a; b; c; d; e] =>
      path ← a ≫= as_str; media ← b ≫= as_str; enc ← c ≫= as_str;
      size ← d ≫= as_u64; sha ← e ≫= as_str;
      Some {| art_path := path; art_media_type := media; art_encoding := enc;
              art_size_bytes := size; art_sha256 := sha |}
  | _ => None
  end.
Definition cursor_ref_from_value (v : Value) : option ToolResultCursor :=
  fields ← serde_strict_struct ["kind"; "path"; "offset_chars"; "sha256"] v;
  match fields with
  | [a; b; c; d] =>
      kind ← a ≫= as_str; path ← b ≫= as_str; off ← c ≫= as_u64; sha ← d ≫= as_str;
      Some {| rc_kind := kind; rc_path := path; rc_offset_chars := off; rc_sha256 := sha |}
  | _ => None
  end.

Definition to_dict_map (r : ToolExecutionResult) : object :=
  let payload := map_of_list [
    ("tool_call_id", Str (tr_tool_call_id r));
    ("content", Str (tr_content r));
    ("directive", Str (tool_directive_value (tr_directive r)));
    ("status_code", Str (tool_result_status_value (tr_status r)))] in
  let payload := insert_opt "error_code" Str (tr_error_code r) payload in
  let payload := insert_metadata (tr_metadata r) payload in
  let payload := insert_opt "image_url" Str (tr_image_url r) payload in
  let payload := insert_opt "image_path" Str (tr_image_path r) payload in
  let payload := insert_truncated (tr_truncated r) payload in
  let payload := insert_opt "truncation_reason" (fun t => Str (truncation_reason_value t))
                   (tr_truncation_reason r) payload in
  let payload := insert_opt "original_bytes" json_u64 (tr_original_bytes r) payload in
  let payload := insert_opt "visible_bytes" json_u64 (tr_visible_bytes r) payload in
  let payload := insert_opt "artifact" artifact_to_value (tr_artifact r) payload in
  insert_opt "cursor" cursor_ref_to_value (tr_cursor r) payload.

Definition to_dict (r : ToolExecutionResult) : Value := Object (to_dict_map r).

Definition read_required_string (m : object) (key : string) : result string :=
  ok_or (map_get key m ≫= as_str) ("missing required string field " +:+ key).
Definition strict_optional_string (m : object) (key : string) : result (option string) :=
  match map_get key m with
  | None => Ok None
  | Some (Str s) => Ok (Some s)
  | Some _ => Err ("ToolExecutionResult " +:+ key +:+ " must be a string")
  end.
Definition strict_optional_u64 (m : object) (key : string) : result (option N) :=
  let e := "ToolExecutionResult " +:+ key +:+ " must be a JSON-safe unsigned integer" in
  match map_get key m with
  | None => Ok None
  | Some (Num (PosInt n)) => if (n <=? MAX_WIRE_INTEGER)%N then Ok (Some n) else Err e
  | Some _ => Err e
  end.
Definition strict_optional_object {T} (decode : Value -> option T) (m : object) (key : string)
    : result (option T) :=
  match map_get key m with
  | None => Ok None
  | Some (Object o) => let? t := ok_or (decode (Object o)) tool_result_invalid in Ok (Some t)
  | Some _ => Err ("ToolExecutionResult " +:+ key +:+ " must be an object")
  end.

Definition tool_result_required : list string :=
  ["tool_call_id"; "content"; "status_code"; "directive"].
Definition tool_result_allowed : list string :=
  ["tool_call_id"; "content"; "status_code"; "directive"; "error_code"; "metadata"; "image_url";
   "image_path"; "truncated"; "truncation_reason"; "original_bytes"; "visible_bytes";
   "artifact"; "cursor"].

Definition from_dict (data : Value) : result ToolExecutionResult :=
  let? m := ok_or (as_object data) "ToolExecutionResult payload must be an object" in
  fail_if (existsb (fun f => negb (map_contains_key f m)) tool_result_required
           || negb (only_fields tool_result_allowed m)) with tool_result_invalid ;;
  let? metadata := match map_get "metadata" m with
                   | None => Ok []
                   | Some (Object o) => Ok o
                   | Some _ => Err "ToolExecutionResult metadata must be an object"
                   end in
  let? truncated := match map_get "truncated" m with
                    | None => Ok false
                    | Some (Bool true) => Ok true
                    | Some _ => Err tool_result_invalid
                    end in
  let? reason := strict_optional_string m "truncation_reason" in
  let? truncation_reason := parse_truncation_reason reason in
  let? tool_call_id := read_required_string m "tool_call_id" in
  let? content := read_required_string m "content" in
  let? status_code := read_required_string m "status_code" in
  let? status := parse_tool_result_status status_code in
  let? directive_str := read_required_string m "directive" in
  let? directive := parse_tool_directive directive_str in
  let? error_code := strict_optional_string m "error_code" in
  let? image_url := strict_optional_string m "image_url" in
  let? image_path := strict_optional_string m "image_path" in
  let? original_bytes := strict_optional_u64 m "original_bytes" in
  let? visible_bytes := strict_optional_u64 m "visible_bytes" in
  let? artifact := strict_optional_object artifact_from_value m "artifact" in
  let? cursor := strict_optional_object cursor_ref_from_value m "cursor" in
  let r := {| tr_tool_call_id := tool_call_id; tr_content := content; tr_status := status;
              tr_directive := directive; tr_error_code := error_code; tr_metadata := metadata;
              tr_image_url := image_url; tr_image_path := image_path; tr_truncated := truncated;
              tr_truncation_reason := truncation_reason; tr_original_bytes := original_bytes;
              tr_visible_bytes := visible_bytes; tr_artifact := artifact; tr_cursor := cursor |} in
  do? tool_result_validate r ;;
  Ok r.

(** ** Definitive and ambiguous outcomes *)

Definition is_ambiguous_tool_result (r : ToolExecutionResult) : bool :=
  if tr_status r <>?? Error then false
  else
    let definitive := unwrap_or (map_get "definitive_outcome" (tr_metadata r) ≫= as_bool) false in
    let ambiguous_code := is_some_and (tr_error_code r) (fun code =>
      existsb (String.eqb code)
        ["tool_timeout"; "tool_cancelled"; "tool_connection_lost"; "tool_execution_failed";
         "tool_orchestrator_error"]) in
    ambiguous_code && negb definitive.

Definition validate_definitive_result (r : ToolExecutionResult) : result unit :=
  fail_if ((tr_status r =?? Success) && is_some (tr_error_code r)) with tool_result_invalid ;;
  do? map_err (tool_result_validate r) "deferred_resolution_result_invalid" ;;
  fail_if (negb ((tr_status r =?? Success) || (tr_status r =?? Error)))
  with "deferred_resolution_result_invalid" ;;
  fail_if (is_ambiguous_tool_result r) with "deferred_resolution_result_invalid" ;;
  Ok tt.

Section ToolDigests.
Context `{Digest}.

Definition tool_result_digest (r : ToolExecutionResult) : result string :=
  do? map_err (tool_result_validate r) tool_result_invalid ;;
  sha256_canonical (to_dict r).

(** [result_digest] of [checkpoint/deferred.rs]: the [Serialize] impl
    validates before it prints. *)
Definition result_digest (r : ToolExecutionResult) : result string :=
  do? map_err (tool_result_validate r) "deferred_receipt_invalid" ;;
  sha256_canonical (to_dict r).

Definition tool_receipt_identity_value (checkpoint_key operation_id : string) (attempt : N)
    (tool_call_id request_digest : string) : Value :=
  json_object [
    ("attempt", json_u64 attempt);
    ("checkpoint_key", Str checkpoint_key);
    ("operation_id", Str operation_id);
    ("request_digest", Str request_digest);
    ("tool_call_id", Str tool_call_id)].

Definition tool_receipt_identity_key (checkpoint_key operation_id : string) (attempt : N)
    (tool_call_id request_digest : string) : result string :=
  sha256_canonical
    (tool_receipt_identity_value checkpoint_key operation_id attempt tool_call_id request_digest).
End ToolDigests.

(** ** Facts about the wire form *)

Lemma map_get_insert_opt {A} k k' (f : A -> Value) o m :
  map_get k (insert_opt k' f o m)
  = if String.eqb k k' then (match o with Some x => Some (f x) | None => map_get k m end)
    else map_get k m.
Proof.
  destruct o as [x|]; simpl; [apply map_get_insert|]. by destruct (String.eqb k k').
Qed.

Lemma map_keys_insert_opt {A} k (f : A -> Value) o m j :
  j ∈ map_keys (insert_opt k f o m) -> j = k \/ j ∈ map_keys m.
Proof. destruct o; simpl; [by rewrite map_keys_insert|auto]. Qed.

Lemma map_get_insert_metadata k meta m :
  map_get k (insert_metadata meta m)
  = if String.eqb k "metadata"
    then (match meta with [] => map_get k m | _ :: _ => Some (Object meta) end)
    else map_get k m.
Proof. destruct meta; [by destruct (String.eqb k "metadata")|apply map_get_insert]. Qed.

Lemma map_get_insert_truncated k b m :
  map_get k (insert_truncated b m)
  = if String.eqb k "truncated" then (if b then Some (Bool true) else map_get k m)
    else map_get k m.
Proof. destruct b; [apply map_get_insert|by destruct (String.eqb k "truncated")]. Qed.

Lemma map_keys_insert_metadata meta m j :
  j ∈ map_keys (insert_metadata meta m) -> j = "metadata" \/ j ∈ map_keys m.
Proof. destruct meta; [auto|simpl; by rewrite map_keys_insert]. Qed.
Lemma map_keys_insert_truncated b m j :
  j ∈ map_keys (insert_truncated b m) -> j = "truncated" \/ j ∈ map_keys m.
Proof. destruct b; [simpl; by rewrite map_keys_insert|auto]. Qed.

Ltac dict_get :=
  unfold to_dict_map; cbv zeta;
  repeat (first [rewrite map_get_insert_opt | rewrite map_get_insert_metadata
                | rewrite map_get_insert_truncated]; cbn [String.eqb Ascii.eqb Bool.eqb]).

Lemma to_dict_optional (r : ToolExecutionResult) :
  map_get "error_code" (to_dict_map r) = Str <$> tr_error_code r /\
  map_get "image_url" (to_dict_map r) = Str <$> tr_image_url r /\
  map_get "image_path" (to_dict_map r) = Str <$> tr_image_path r /\
  map_get "truncated" (to_dict_map r) = (if tr_truncated r then Some (Bool true) else None) /\
  map_get "truncation_reason" (to_dict_map r)
    = (fun t => Str (truncation_reason_value t)) <$> tr_truncation_reason r /\
  map_get "original_bytes" (to_dict_map r) = json_u64 <$> tr_original_bytes r /\
  map_get "visible_bytes" (to_dict_map r) = json_u64 <$> tr_visible_bytes r /\
  map_get "artifact" (to_dict_map r) = artifact_to_value <$> tr_artifact r /\
  map_get "cursor" (to_dict_map r) = cursor_ref_to_value <$> tr_cursor r /\
  map_get "metadata" (to_dict_map r)
    = match tr_metadata r with [] => None | m => Some (Object m) end.
Proof.
  repeat split; dict_get;
    match goal with
    | |- context [match ?x with Some _ => _ | None => _ end] => by destruct x
    | |- context [if ?x then _ else _] => by destruct x
    | |- context [match ?x with [] => _ | _ => _ end] => by destruct x
    end.
Qed.

Lemma to_dict_required (r : ToolExecutionResult) :
  map_get "tool_call_id" (to_dict_map r) = Some (Str (tr_tool_call_id r)) /\
  map_get "content" (to_dict_map r) = Some (Str (tr_content r)) /\
  map_get "directive" (to_dict_map r) = Some (Str (tool_directive_value (tr_directive r))) /\
  map_get "status_code" (to_dict_map r) = Some (Str (tool_result_status_value (tr_status r))).
Proof. repeat split; dict_get; reflexivity. Qed.

Lemma to_dict_only_allowed r : only_fields tool_result_allowed (to_dict_map r) = true.
Proof.
  apply only_fields_spec. intros k Hk. unfold to_dict_map in Hk. cbv zeta in Hk.
  repeat match type of Hk with
  | _ ∈ map_keys (insert_opt _ _ _ _) => apply map_keys_insert_opt in Hk as [->|Hk]
  | _ ∈ map_keys (insert_truncated _ _) => apply map_keys_insert_truncated in Hk as [->|Hk]
  | _ ∈ map_keys (insert_metadata _ _) => apply map_keys_insert_metadata in Hk as [->|Hk]
  end; unfold tool_result_allowed; [set_solver..|]. cbv in Hk. set_solver.
Qed.

Lemma parse_status_value s : parse_tool_result_status (tool_result_status_value s) = Ok s.
Proof. by destruct s. Qed.
Lemma parse_directive_value d : parse_tool_directive (tool_directive_value d) = Ok d.
Proof. by destruct d. Qed.
Lemma artifact_roundtrip a : artifact_from_value (artifact_to_value a) = Some a.
Proof. by destruct a. Qed.
Lemma cursor_ref_roundtrip c : cursor_ref_from_value (cursor_ref_to_value c) = Some c.
Proof. by destruct c. Qed.

Lemma strict_optional_string_get m k o :
  map_get k m = Str <$> o -> strict_optional_string m k = Ok o.
Proof. unfold strict_optional_string. intros ->. by destruct o. Qed.
Lemma strict_optional_u64_get m k o :
  map_get k m = json_u64 <$> o -> (unwrap_or o 0 <= MAX_WIRE_INTEGER)%N ->
  strict_optional_u64 m k = Ok o.
Proof.
  unfold strict_optional_u64. intros -> Hle. destruct o as [n|]; [|done]. simpl in *.
  by rewrite (proj2 (N.leb_le _ _) Hle).
Qed.
Lemma strict_optional_object_get {T} (enc : T -> Value) dec m k o :
  (forall t, dec (enc t) = Some t) -> (forall t, is_object (enc t) = true) ->
  map_get k m = enc <$> o -> strict_optional_object dec m k = Ok o.
Proof.
  unfold strict_optional_object. intros Hdec Hobj ->. destruct o as [t|]; [|done]. simpl.
  specialize (Hdec t). specialize (Hobj t). destruct (enc t); try done. by rewrite Hdec.
Qed.
Lemma read_required_string_get m k s :
  map_get k m = Some (Str s) -> read_required_string m k = Ok s.
Proof. unfold read_required_string. by intros ->. Qed.

(** The JSON-safe bound the reader puts on the byte counts. *)
Definition byte_counts_wire_safe (r : ToolExecutionResult) : Prop :=
  (unwrap_or (tr_original_bytes r) 0 <= MAX_WIRE_INTEGER)%N /\
  (unwrap_or (tr_visible_bytes r) 0 <= MAX_WIRE_INTEGER)%N.

Lemma from_dict_to_dict (r : ToolExecutionResult) :
  tool_result_validate r = Ok tt -> byte_counts_wire_safe r ->
  from_dict (to_dict r) = Ok r.
Proof.
  intros Hv [Ho Hvis].
  destruct (to_dict_optional r) as (E1 & E2 & E3 & E4 & E5 & E6 & E7 & E8 & E9 & E10).
  destruct (to_dict_required r) as (R1 & R2 & R3 & R4).
  unfold from_dict, to_dict. cbn [as_object ok_or].
  rewrite to_dict_only_allowed. unfold tool_result_required, map_contains_key. cbn [existsb].
  rewrite R1, R2, R3, R4, E4, E10. cbn [is_some negb orb].
  assert (strict_optional_string (to_dict_map r) "truncation_reason"
          = Ok (truncation_reason_value <$> tr_truncation_reason r)) as ->.
  { apply strict_optional_string_get. rewrite E5. by destruct (tr_truncation_reason r). }
  rewrite (read_required_string_get _ _ _ R1), (read_required_string_get _ _ _ R2),
    (read_required_string_get _ _ _ R3), (read_required_string_get _ _ _ R4),
    parse_status_value, parse_directive_value,
    (strict_optional_string_get _ _ _ E1), (strict_optional_string_get _ _ _ E2),
    (strict_optional_string_get _ _ _ E3), (strict_optional_u64_get _ _ _ E6 Ho),
    (strict_optional_u64_get _ _ _ E7 Hvis),
    (strict_optional_object_get _ _ _ _ _ artifact_roundtrip (fun _ => eq_refl) E8),
    (strict_optional_object_get _ _ _ _ _ cursor_ref_roundtrip (fun _ => eq_refl) E9).
  assert (parse_truncation_reason (truncation_reason_value <$> tr_truncation_reason r)
          = Ok (tr_truncation_reason r)) as -> by by destruct (tr_truncation_reason r) as [[]|].
  destruct r as [id content status directive err meta url path trunc reason orig vis art cur].
  cbn [tr_metadata tr_truncated]. destruct meta, trunc; cbn in *; by rewrite Hv.
Qed.

Lemma strict_optional_u64_safe m k o n :
  map_get k m = json_u64 <$> o -> strict_optional_u64 m k = Ok n ->
  (unwrap_or o 0 <= MAX_WIRE_INTEGER)%N.
Proof.
  unfold strict_optional_u64. intros ->. destruct o as [x|]; simpl; [|lia].
  destruct (N.leb_spec x MAX_WIRE_INTEGER); [lia|done].
Qed.

Lemma from_dict_validates v r : from_dict v = Ok r -> tool_result_validate r = Ok tt.
Proof.
  unfold from_dict. intros H. result_inv;
    match goal with H : tool_result_validate _ = Ok ?u |- _ => by destruct u end.
Qed.

Lemma from_dict_safe (r r' : ToolExecutionResult) :
  from_dict (to_dict r) = Ok r' -> byte_counts_wire_safe r.
Proof.
  destruct (to_dict_optional r) as (_ & _ & _ & _ & _ & E6 & E7 & _).
  unfold from_dict, to_dict. cbn [as_object ok_or]. intros H. result_inv;
    split; eapply strict_optional_u64_safe; eauto.
Qed.

(** ** Properties *)

(** The canonical wire form of a valid tool result reads back as the same
    result exactly when its byte counts are JSON-safe, and whatever the strict
    reader accepts satisfies [validate]. *)
Theorem tool_result_roundtrip (r : ToolExecutionResult) :
  tool_result_validate r = Ok tt ->
  (from_dict (to_dict r) = Ok r <-> byte_counts_wire_safe r) /\
  (forall v r', from_dict v = Ok r' -> tool_result_validate r' = Ok tt).
Proof.
  intros Hv. split; [|apply from_dict_validates].
  split; [apply from_dict_safe|by apply from_dict_to_dict].
Qed.

Definition sample_result : ToolExecutionResult :=
  {| tr_tool_call_id := "call_1"; tr_content := "boom"; tr_status := Error;
     tr_directive := DContinue; tr_error_code := Some "bad_path";
     tr_metadata := map_of_list [("retryable", Bool true)]; tr_image_url := None;
     tr_image_path := None; tr_truncated := false; tr_truncation_reason := None;
     tr_original_bytes := None; tr_visible_bytes := None; tr_artifact := None; tr_cursor := None |}.

Lemma tool_result_roundtrip_witness : from_dict (to_dict sample_result) = Ok sample_result.
Proof.
  apply (proj1 (tool_result_roundtrip sample_result eq_refl)).
  split; vm_compute; discriminate.
Defined.

(** [validate_definitive_result] lets through exactly the valid results
    that are [SUCCESS] without an error code, or [ERROR] with a code outside
    the ambiguous set unless the handler vouches for the outcome. *)
Theorem definitive_result_spec (r : ToolExecutionResult) :
  validate_definitive_result r = Ok tt <->
  tool_result_validate r = Ok tt /\
  (tr_status r = Success \/
   tr_status r = Error /\
   ((forall c, tr_error_code r = Some c ->
       c ∉ ["tool_timeout"; "tool_cancelled"; "tool_connection_lost"; "tool_execution_failed";
            "tool_orchestrator_error"]) \/
    map_get "definitive_outcome" (tr_metadata r) = Some (Bool true))).
Proof.
  unfold validate_definitive_result, is_ambiguous_tool_result.
  assert (tr_status r = Success -> tool_result_validate r = Ok tt -> tr_error_code r = None) as Hs.
  { unfold tool_result_validate. intros ->. simpl. by destruct (tr_error_code r). }
  destruct (tool_result_validate r) as [[]|e] eqn:Hv; simpl; cycle 1.
  { destruct (bool_decide (tr_status r = Success) && is_some (tr_error_code r)); naive_solver. }
  destruct (tr_status r) eqn:Est; simpl; try naive_solver.
  { rewrite Hs by done. naive_solver. }
  destruct (tr_error_code r) as [c|]; simpl; [|naive_solver].
  assert ((map_get "definitive_outcome" (tr_metadata r) ≫= as_bool) = Some true <->
          map_get "definitive_outcome" (tr_metadata r) = Some (Bool true)) as Hdef.
  { destruct (map_get _ _) as [[| | | | |]|]; naive_solver. }
  set (codes := ["tool_timeout"; _; _; _; _]).
  assert (existsb (String.eqb c) codes = true <-> c ∈ codes) as Hcode.
  { rewrite existsb_exists. setoid_rewrite <- list_elem_of_In. setoid_rewrite String.eqb_eq.
    naive_solver. }
  change (String.eqb c "tool_timeout" || _) with (existsb (String.eqb c) codes).
  assert ((forall c0, Some c = Some c0 -> c0 ∉ codes) <-> c ∉ codes) as -> by naive_solver.
  rewrite <- Hcode, <- Hdef.
  destruct (map_get _ _ ≫= as_bool) as [[]|], (existsb (String.eqb c) codes); simpl;
    intuition (done || congruence).
Qed.
