(* ===== verification/Journal.v ===== *)
(** * Operation journal

    [OperationError] of [runtime/state.rs] and [OperationJournalEntry] of
    [runtime/state/journal.rs]: the durable record of one model or tool
    operation, its validation, its state machine and its wire form. *)

From Stdlib Require Import Ascii String NArith Lia.
From stdpp Require Import base strings list sets pretty relations.
From S2P Require Import Prelude Json Canonical CheckpointTypes ToolResult.

(** ** Typed errors *)

Record OperationError := { oe_code : string; oe_message : string; oe_retryable : bool }.
#[global] Instance OperationError_eq_dec : EqDecision OperationError.
Proof. solve_decision. Defined.

Definition operation_error_invalid : string := "operation_error_invalid".

Definition operation_error_validate (e : OperationError) : result unit :=
  fail_if (trim_is_empty (oe_code e) || trim_is_empty (oe_message e))
  with operation_error_invalid ;;
  Ok tt.

Definition operation_error_to_value (e : OperationError) : Value :=
  json_object [("code", Str (oe_code e)); ("message", Str (oe_message e));
               ("retryable", Bool (oe_retryable e))].

Definition operation_error_from_value (v : Value) : result OperationError :=
  let? m := ok_or (as_object v) operation_error_invalid in
  fail_if (negb (only_fields ["code"; "message"; "retryable"] m)) with operation_error_invalid ;;
  let? code := required_string m "code" operation_error_invalid in
  let? message := required_string m "message" operation_error_invalid in
  let? retryable := ok_or (map_get "retryable" m ≫= as_bool) operation_error_invalid in
  let e := {| oe_code := code; oe_message := message; oe_retryable := retryable |} in
  do? operation_error_validate e ;;
  Ok e.

(** [operation_error_from_tool_result] of [runtime/state/transitions.rs]. *)
Definition operation_error_from_tool_result (r : ToolExecutionResult) : OperationError :=
  {| oe_code := match tr_error_code r with
                | Some code => if str_is_empty code then "tool_operation_failed" else code
                | None => "tool_operation_failed"
                end;
     oe_message := if str_is_empty (tr_content r) then "tool operation failed" else tr_content r;
     oe_retryable := unwrap_or (map_get "retryable" (tr_metadata r) ≫= as_bool) false |}.

(** ** Journal entries *)

Inductive ModelCallOperation := AgentCycle | SessionMemory | MemoryCompaction.
#[global] Instance ModelCallOperation_eq_dec : EqDecision ModelCallOperation.
Proof. solve_decision. Defined.

Definition model_operation_to_value (o : ModelCallOperation) : Value :=
  Str match o with
      | AgentCycle => "agent_cycle" | SessionMemory => "session_memory"
      | MemoryCompaction => "memory_compaction"
      end.
Definition model_operation_from_value (v : Value) : option ModelCallOperation :=
  s ← serde_unit_variant v;
  if String.eqb s "agent_cycle" then Some AgentCycle
  else if String.eqb s "session_memory" then Some SessionMemory
  else if String.eqb s "memory_compaction" then Some MemoryCompaction else None.

Record OperationJournalEntry := {
  j_kind : OperationKind;
  j_operation_id : string;
  j_cycle_index : N;
  j_attempt : N;
  j_state : OperationState;
  j_request_digest : string;
  j_idempotency_key : option string;
  j_identity_key : option string;
  j_result_digest : option string;
  j_response : option Value;
  j_error : option OperationError;
  j_tool_call_id : option string;
  j_tool_name : option string;
  j_arguments : option object;
  j_idempotency_support : option ToolIdempotency;
  j_result : option Value;
  j_deferred_handle : option DeferredToolHandle;
  j_resume_observation : option ResumeObservation;
  j_model_operation : option ModelCallOperation;
  j_backend : option string;
  j_model : option string;
  j_call_id : option string
}.
#[global] Instance OperationJournalEntry_eq_dec : EqDecision OperationJournalEntry.
Proof. solve_decision. Defined.

(** [OperationJournalEntry::model] and [OperationJournalEntry::tool]. *)
Definition model_entry (operation_id : string) (cycle_index attempt : N) (request_digest : string)
    (operation : ModelCallOperation) (backend model call_id : string) : OperationJournalEntry :=
  {| j_kind := Model; j_operation_id := operation_id; j_cycle_index := cycle_index;
     j_attempt := attempt; j_state := Planned; j_request_digest := request_digest;
     j_idempotency_key := None; j_identity_key := None; j_result_digest := None;
     j_response := None; j_error := None; j_tool_call_id := None; j_tool_name := None;
     j_arguments := None; j_idempotency_support := None; j_result := None;
     j_deferred_handle := None; j_resume_observation := None;
     j_model_operation := Some operation; j_backend := Some backend; j_model := Some model;
     j_call_id := Some call_id |}.

Definition tool_entry (operation_id : string) (cycle_index attempt : N) (request_digest : string)
    (tool_call_id tool_name : string) (arguments : object) (idempotency_key : option string)
    (support : ToolIdempotency) : OperationJournalEntry :=
  {| j_kind := Tool; j_operation_id := operation_id; j_cycle_index := cycle_index;
     j_attempt := attempt; j_state := Planned; j_request_digest := request_digest;
     j_idempotency_key := idempotency_key; j_identity_key := None; j_result_digest := None;
     j_response := None; j_error := None; j_tool_call_id := Some tool_call_id;
     j_tool_name := Some tool_name; j_arguments := Some arguments;
     j_idempotency_support := Some support; j_result := None; j_deferred_handle := None;
     j_resume_observation := None; j_model_operation := None; j_backend := None; j_model := None;
     j_call_id := None |}.

(** Field assignments. *)
Definition set_state (s : OperationState) (e : OperationJournalEntry) : OperationJournalEntry :=
  {| j_kind := j_kind e; j_operation_id := j_operation_id e; j_cycle_index := j_cycle_index e;
     j_attempt := j_attempt e; j_state := s; j_request_digest := j_request_digest e;
     j_idempotency_key := j_idempotency_key e; j_identity_key := j_identity_key e;
     j_result_digest := j_result_digest e; j_response := j_response e; j_error := j_error e;
     j_tool_call_id := j_tool_call_id e; j_tool_name := j_tool_name e;
     j_arguments := j_arguments e; j_idempotency_support := j_idempotency_support e;
     j_result := j_result e; j_deferred_handle := j_deferred_handle e;
     j_resume_observation := j_resume_observation e; j_model_operation := j_model_operation e;
     j_backend := j_backend e; j_model := j_model e; j_call_id := j_call_id e |}.

Definition set_attempt_call (attempt : N) (call_id : option string) (s : OperationState)
    (e : OperationJournalEntry) : OperationJournalEntry :=
  {| j_kind := j_kind e; j_operation_id := j_operation_id e; j_cycle_index := j_cycle_index e;
     j_attempt := attempt; j_state := s; j_request_digest := j_request_digest e;
     j_idempotency_key := j_idempotency_key e; j_identity_key := j_identity_key e;
     j_result_digest := j_result_digest e; j_response := j_response e; j_error := j_error e;
     j_tool_call_id := j_tool_call_id e; j_tool_name := j_tool_name e;
     j_arguments := j_arguments e; j_idempotency_support := j_idempotency_support e;
     j_result := j_result e; j_deferred_handle := j_deferred_handle e;
     j_resume_observation := j_resume_observation e; j_model_operation := j_model_operation e;
     j_backend := j_backend e; j_model := j_model e; j_call_id := call_id |}.

(** The receipt fields a tool outcome writes. *)
Definition set_receipt (s : OperationState) (identity_key result_digest : option string)
    (result : option Value) (error : option OperationError)
    (handle : option DeferredToolHandle) (observation : option ResumeObservation)
    (e : OperationJournalEntry) : OperationJournalEntry :=
  {| j_kind := j_kind e; j_operation_id := j_operation_id e; j_cycle_index := j_cycle_index e;
     j_attempt := j_attempt e; j_state := s; j_request_digest := j_request_digest e;
     j_idempotency_key := j_idempotency_key e; j_identity_key := identity_key;
     j_result_digest := result_digest; j_response := j_response e; j_error := error;
     j_tool_call_id := j_tool_call_id e; j_tool_name := j_tool_name e;
     j_arguments := j_arguments e; j_idempotency_support := j_idempotency_support e;
     j_result := result; j_deferred_handle := handle; j_resume_observation := observation;
     j_model_operation := j_model_operation e; j_backend := j_backend e; j_model := j_model e;
     j_call_id := j_call_id e |}.

(** ** Validation *)

Section Validation.
Context `{Digest}.

Definition validate_entry_identity (e : OperationJournalEntry) : result unit :=
  fail_if (trim_is_empty (j_operation_id e)) with "operation_id_invalid" ;;
  fail_if ((j_cycle_index e =? 0)%N || (MAX_WIRE_INTEGER <? j_cycle_index e)%N)
  with "operation_cycle_invalid" ;;
  fail_if ((j_attempt e =? 0)%N || (MAX_WIRE_INTEGER <? j_attempt e)%N)
  with "operation_attempt_invalid" ;;
  map_err (validate_sha256 (j_request_digest e)) "operation_request_digest_invalid".

Definition validate_entry_payloads (e : OperationJournalEntry) : result unit :=
  do? check_opt validate_json (j_response e) ;;
  do? check_opt validate_json (j_result e) ;;
  do? check_opt validate_sha256 (j_identity_key e) ;;
  do? check_opt validate_sha256 (j_result_digest e) ;;
  do? check_opt observation_validate (j_resume_observation e) ;;
  do? check_opt (fun handle =>
        do? handle_validate handle ;;
        fail_if (j_kind e <>?? Tool) with "operation_kind_fields_invalid" ;; Ok tt)
      (j_deferred_handle e) ;;
  check_opt operation_error_validate (j_error e).

Definition kind_fields_invalid : string := "operation_kind_fields_invalid".

Definition validate_model_fields (e : OperationJournalEntry) : result unit :=
  fail_if (is_some (j_identity_key e) || is_some (j_result_digest e)
           || is_some (j_resume_observation e)) with kind_fields_invalid ;;
  fail_if (is_some (j_tool_call_id e) || is_some (j_tool_name e) || is_some (j_arguments e)
           || is_some (j_idempotency_support e) || is_some (j_result e)
           || is_some (j_deferred_handle e)) with kind_fields_invalid ;;
  fail_if (is_none (j_model_operation e) || is_none_or (j_backend e) trim_is_empty
           || is_none_or (j_model e) trim_is_empty || is_none_or (j_call_id e) trim_is_empty)
  with "model_identity_invalid" ;;
  Ok tt.

Definition validate_idempotency (support : ToolIdempotency) (key : option string) : result unit :=
  match support with
  | Unsupported => fail_if (is_some key) with "tool_idempotency_key_invalid" ;; Ok tt
  | Supported | UnknownSupport =>
      fail_if (is_none_or key str_is_empty) with "tool_idempotency_key_required" ;; Ok tt
  end.

Definition validate_tool_fields (e : OperationJournalEntry) : result unit :=
  fail_if (is_some (j_model_operation e) || is_some (j_backend e) || is_some (j_model e)
           || is_some (j_call_id e)) with kind_fields_invalid ;;
  fail_if (is_none_or (j_tool_call_id e) str_is_empty || is_none_or (j_tool_name e) str_is_empty)
  with "tool_idempotency_key_required" ;;
  let? arguments := ok_or (j_arguments e) "tool_idempotency_key_required" in
  let? support := ok_or (j_idempotency_support e) "tool_idempotency_key_required" in
  do? validate_idempotency support (j_idempotency_key e) ;;
  fail_if (is_some (j_response e)) with kind_fields_invalid ;;
  fail_if ((j_state e =?? Deferred) && is_none (j_deferred_handle e))
  with "operation_deferred_handle_required" ;;
  fail_if ((j_state e <>?? Deferred) && is_some (j_deferred_handle e))
  with "operation_deferred_handle_invalid" ;;
  validate_json (Object arguments).

Definition validate_entry_kind (e : OperationJournalEntry) : result unit :=
  match j_kind e with
  | Model => validate_model_fields e
  | Tool => validate_tool_fields e
  end.

(** A succeeded tool retains its result in canonical wire form, with the
    digest of that form. *)
Definition validate_success_receipt (e : OperationJournalEntry) : result unit :=
  let receipt := match j_kind e with
                 | Model => is_some (j_response e)
                 | Tool => is_some (j_result e)
                 end in
  fail_if (negb receipt || is_some (j_error e)) with "operation_receipt_required" ;;
  match j_kind e, j_result e with
  | Tool, Some result =>
      fail_if (is_none (j_identity_key e) || is_none (j_result_digest e))
      with "operation_receipt_identity_required" ;;
      let? r := map_err (from_dict result) "operation_receipt_invalid" in
      fail_if (to_dict r <>?? result) with "operation_receipt_invalid" ;;
      let? expected := tool_result_digest r in
      fail_if (negb (opt_is (j_result_digest e) expected)) with "tool_receipt_digest_invalid" ;;
      Ok tt
  | _, _ => Ok tt
  end.

(** A failed tool either is a synthetic [tool_cancelled] closure without a
    result, or retains the canonical [ERROR] result it failed with. *)
Definition validate_failed_tool (e : OperationJournalEntry) (error : OperationError)
    : result unit :=
  fail_if (is_none (j_identity_key e)) with "operation_receipt_identity_required" ;;
  let synthetic_closure := String.eqb (oe_code error) "tool_cancelled" && is_none (j_result e) in
  if synthetic_closure then
    fail_if (is_some (j_result_digest e)) with "operation_closure_receipt_forbidden" ;;
    fail_if (is_none (j_resume_observation e)) with "operation_resume_observation_required" ;;
    Ok tt
  else
    let? result_value := ok_or (j_result e) "operation_result_required" in
    fail_if (negb (opt_is (get_str result_value "status_code") "ERROR"))
    with "operation_failed_result_status_invalid" ;;
    let? r := map_err (from_dict result_value) "operation_result_invalid" in
    fail_if (to_dict r <>?? result_value) with "operation_result_invalid" ;;
    let? digest := ok_or (j_result_digest e) "operation_result_digest_required" in
    let? expected_digest := tool_result_digest r in
    fail_if (negb (String.eqb digest expected_digest)) with "operation_result_digest_mismatch" ;;
    fail_if (j_error e <>?? Some (operation_error_from_tool_result r))
    with "operation_error_projection_mismatch" ;;
    if String.eqb (oe_code error) "tool_outcome_unknown" then
      fail_if (is_none (j_resume_observation e)) with "operation_resume_observation_required" ;;
      Ok tt
    else
      fail_if (is_some (j_resume_observation e)) with "operation_resume_observation_forbidden" ;;
      Ok tt.

Definition validate_entry_state (e : OperationJournalEntry) : result unit :=
  match j_state e with
  | Succeeded => validate_success_receipt e
  | Failed =>
      match j_error e with
      | None => Err "operation_error_required"
      | Some error =>
          fail_if (is_some (j_response e)) with "operation_error_required" ;;
          match j_kind e with
          | Tool => validate_failed_tool e error
          | Model => Ok tt
          end
      end
  | Planned | Started | Ambiguous =>
      fail_if (is_some (j_response e) || is_some (j_result e) || is_some (j_error e)
               || is_some (j_identity_key e) || is_some (j_result_digest e)
               || is_some (j_resume_observation e)) with "operation_receipt_unexpected" ;;
      Ok tt
  | Deferred =>
      fail_if (is_some (j_result e) || is_some (j_error e) || is_none (j_deferred_handle e)
               || is_some (j_identity_key e) || is_some (j_result_digest e)
               || is_some (j_resume_observation e)) with "operation_deferred_invalid" ;;
      Ok tt
  end.

Definition entry_validate (e : OperationJournalEntry) : result unit :=
  do? validate_entry_identity e ;;
  do? validate_entry_payloads e ;;
  do? validate_entry_kind e ;;
  validate_entry_state e.

(** ** The operation state machine *)

Definition allowed (from next : OperationState) : bool :=
  match from, next with
  | Planned, Failed | Planned, Started
  | Started, Succeeded | Started, Failed | Started, Ambiguous | Started, Deferred
  | Ambiguous, Planned | Ambiguous, Succeeded | Ambiguous, Failed | Ambiguous, Deferred
  | Deferred, Succeeded | Deferred, Failed => true
  | _, _ => false
  end.

(** The methods take [&mut self]: they return the entry they leave behind next
    to their result. *)
Definition transition_to (e : OperationJournalEntry) (next : OperationState)
    : OperationJournalEntry * result unit :=
  if negb (allowed (j_state e) next) then (e, Err "operation_transition_invalid")
  else let e' := set_state next e in (e', entry_validate e').

Definition retry (e : OperationJournalEntry) : OperationJournalEntry * result unit :=
  if j_state e <>?? Ambiguous then (e, Err "operation_transition_invalid")
  else match checked_add (j_attempt e) 1 with
  | None => (e, Err "operation_attempt_invalid")
  | Some attempt =>
      let call_id := match j_kind e with
                     | Model => Some (j_operation_id e +:+ ":attempt:" +:+ pretty attempt)
                     | Tool => j_call_id e
                     end in
      let e' := set_attempt_call attempt call_id Planned e in
      (e', entry_validate e')
  end.

Definition mark_ambiguous (e : OperationJournalEntry) : OperationJournalEntry * result unit :=
  transition_to e Ambiguous.

Definition verify_request (e : OperationJournalEntry) (request : Value) : result unit :=
  let? digest := operation_request_digest (j_kind e) request in
  fail_if (negb (String.eqb digest (j_request_digest e)))
  with "checkpoint_journal_integrity_mismatch" ;;
  Ok tt.
End Validation.

(** ** Wire form *)

Definition entry_to_map (e : OperationJournalEntry) : object :=
  let m := map_of_list [
    ("kind", kind_to_value (j_kind e));
    ("operation_id", Str (j_operation_id e));
    ("cycle_index", json_u64 (j_cycle_index e));
    ("attempt", json_u64 (j_attempt e));
    ("state", state_to_value (j_state e));
    ("request_digest", Str (j_request_digest e));
    ("idempotency_key", json_opt_str (j_idempotency_key e))] in
  let m := insert_opt "identity_key" Str (j_identity_key e) m in
  let m := insert_opt "result_digest" Str (j_result_digest e) m in
  let m := match j_kind e with
    | Model =>
        let m := map_insert "response" (unwrap_or (j_response e) Null) m in
        let m := map_insert "model_operation"
                   (opt_to_value model_operation_to_value (j_model_operation e)) m in
        let m := map_insert "backend" (json_opt_str (j_backend e)) m in
        let m := map_insert "model" (json_opt_str (j_model e)) m in
        map_insert "call_id" (json_opt_str (j_call_id e)) m
    | Tool =>
        let m := map_insert "tool_call_id" (json_opt_str (j_tool_call_id e)) m in
        let m := map_insert "tool_name" (json_opt_str (j_tool_name e)) m in
        let m := map_insert "arguments" (opt_to_value Object (j_arguments e)) m in
        let m := map_insert "idempotency_support"
                   (opt_to_value idempotency_to_value (j_idempotency_support e)) m in
        let m := map_insert "result" (unwrap_or (j_result e) Null) m in
        let m := insert_opt "deferred_handle" handle_to_value (j_deferred_handle e) m in
        insert_opt "resume_observation" observation_to_value (j_resume_observation e) m
    end in
  map_insert "error" (opt_to_value operation_error_to_value (j_error e)) m.

(** [to_value] calls [expect] on the [model_operation] of a model entry, which
    [entry_validate] guarantees; the panic of an unvalidated entry is not
    modelled. *)
Definition entry_to_value (e : OperationJournalEntry) : Value := Object (entry_to_map e).

Definition entry_fields : list string :=
  ["kind"; "operation_id"; "cycle_index"; "attempt"; "request_digest"; "tool_call_id"; "tool_name";
   "arguments"; "idempotency_key"; "identity_key"; "result_digest"; "idempotency_support"; "state";
   "response"; "result"; "error"; "deferred_handle"; "resume_observation"; "model_operation";
   "backend"; "model"; "call_id"].

(** [object.get(k).filter(non-null).map(f).transpose()]. *)
Definition optional_field {T} (m : object) (k : string) (f : Value -> result T)
    : result (option T) :=
  transpose (f <$> get_non_null m k).

Definition decode_arguments (v : Value) : result object := ok_or (as_object v) kind_fields_invalid.
Definition decode_idempotency (v : Value) : result ToolIdempotency :=
  ok_or (idempotency_from_value v) kind_fields_invalid.
Definition decode_handle (v : Value) : result DeferredToolHandle :=
  map_err (handle_from_value v) "operation_deferred_handle_invalid".
Definition decode_observation (v : Value) : result ResumeObservation :=
  ok_or (observation_from_value v) "operation_resume_observation_invalid".
Definition decode_model_operation (v : Value) : result ModelCallOperation :=
  ok_or (model_operation_from_value v) "model_identity_invalid".

Definition entry_from_value `{Digest} (v : Value) : result OperationJournalEntry :=
  let? m := ok_or (as_object v) "operation_journal_invalid" in
  fail_if (negb (only_fields entry_fields m)) with "operation_entry_unknown_field" ;;
  let? kind := ok_or (map_get "kind" m ≫= kind_from_value) "operation_journal_invalid" in
  let? state := ok_or (map_get "state" m ≫= state_from_value) "operation_journal_invalid" in
  let? operation_id := required_string m "operation_id" "operation_journal_invalid" in
  let? cycle_index := required_u64 m "cycle_index" "operation_cycle_invalid" in
  let? attempt := required_u64 m "attempt" "operation_attempt_invalid" in
  let? request_digest := required_string m "request_digest" "operation_request_digest_invalid" in
  let? idempotency_key := optional_string m "idempotency_key" in
  let? identity_key := optional_string m "identity_key" in
  let? result_digest := optional_string m "result_digest" in
  let? error := optional_field m "error" operation_error_from_value in
  let? tool_call_id := optional_string m "tool_call_id" in
  let? tool_name := optional_string m "tool_name" in
  let? arguments := optional_field m "arguments" decode_arguments in
  let? idempotency_support := optional_field m "idempotency_support" decode_idempotency in
  let? deferred_handle := optional_field m "deferred_handle" decode_handle in
  let? resume_observation := optional_field m "resume_observation" decode_observation in
  let? model_operation := optional_field m "model_operation" decode_model_operation in
  let? backend := optional_string m "backend" in
  let? model := optional_string m "model" in
  let? call_id := optional_string m "call_id" in
  let e := {| j_kind := kind; j_operation_id := operation_id; j_cycle_index := cycle_index;
              j_attempt := attempt; j_state := state; j_request_digest := request_digest;
              j_idempotency_key := idempotency_key; j_identity_key := identity_key;
              j_result_digest := result_digest; j_response := get_non_null m "response";
              j_error := error; j_tool_call_id := tool_call_id; j_tool_name := tool_name;
              j_arguments := arguments; j_idempotency_support := idempotency_support;
              j_result := get_non_null m "result"; j_deferred_handle := deferred_handle;
              j_resume_observation := resume_observation; j_model_operation := model_operation;
              j_backend := backend; j_model := model; j_call_id := call_id |} in
  do? entry_validate e ;;
  Ok e.

(** ** Facts about the state machine *)

Definition closed (s : OperationState) : bool :=
  match s with Succeeded | Failed => true | _ => false end.

Section StateMachine.
Context `{Digest}.

(** A successful call of one of the entry's mutators. *)
Inductive entry_step : OperationJournalEntry -> OperationJournalEntry -> Prop :=
| step_transition e e' next : transition_to e next = (e', Ok tt) -> entry_step e e'
| step_retry e e' : retry e = (e', Ok tt) -> entry_step e e'.

Lemma entry_step_validates e e' : entry_step e e' -> entry_validate e' = Ok tt.
Proof.
  destruct 1 as [e e' next Hs|e e' Hs].
  - unfold transition_to in Hs. destruct (allowed _ _); naive_solver.
  - unfold retry in Hs. destruct (bool_decide _); [|done]. simpl in Hs.
    destruct (checked_add _ _); naive_solver.
Qed.

Lemma entry_step_state e e' :
  entry_step e e' ->
  closed (j_state e) = false /\
  j_kind e' = j_kind e /\ j_operation_id e' = j_operation_id e /\
  j_cycle_index e' = j_cycle_index e /\ j_request_digest e' = j_request_digest e /\
  (j_attempt e' = j_attempt e \/
   j_attempt e' = (j_attempt e + 1)%N /\ j_state e = Ambiguous /\ j_state e' = Planned) /\
  allowed (j_state e) (j_state e') = true.
Proof.
  destruct 1 as [e e' next Hs|e e' Hs].
  - unfold transition_to in Hs. destruct (allowed (j_state e) next) eqn:Ha; [|done].
    simpl in Hs. injection Hs as <- _. cbn. rewrite Ha.
    by destruct (j_state e), next; repeat split; auto.
  - unfold retry in Hs. destruct (bool_decide_reflect (j_state e = Ambiguous)) as [Hst|]; [|done].
    simpl in Hs. destruct (checked_add _ _) as [n|] eqn:Hn; [|done].
    injection Hs as <- _. apply checked_add_Some in Hn as [-> _]. cbn. rewrite Hst.
    repeat split; auto.
Qed.

Lemma retry_call_id e e' :
  retry e = (e', Ok tt) -> j_kind e = Model ->
  j_call_id e' = Some (j_operation_id e +:+ ":attempt:" +:+ pretty (j_attempt e')).
Proof.
  unfold retry. intros Hr Hk. destruct (bool_decide _); [|done]. simpl in Hr.
  destruct (checked_add _ _); [|done]. injection Hr as <- _. cbn. by rewrite Hk.
Qed.
End StateMachine.

(** ** Facts about the wire form *)

Lemma operation_error_roundtrip e :
  operation_error_validate e = Ok tt ->
  operation_error_from_value (operation_error_to_value e) = Ok e.
Proof.
  intros Hv. destruct e as [code message []]; unfold operation_error_from_value;
    cbv -[operation_error_validate]; by rewrite Hv.
Qed.
Lemma model_operation_roundtrip o : model_operation_from_value (model_operation_to_value o) = Some o.
Proof. by destruct o. Qed.

Section FieldReaders.
Context (m : object) (k : string).

Lemma optional_string_json o : map_get k m = Some (json_opt_str o) -> optional_string m k = Ok o.
Proof. unfold optional_string. intros ->. by destruct o. Qed.
Lemma optional_string_opt o : map_get k m = Str <$> o -> optional_string m k = Ok o.
Proof. unfold optional_string. intros ->. by destruct o. Qed.

Context {T : Type} (enc : T -> Value) (dec : Value -> result T).

Lemma optional_field_opt o :
  (forall t, o = Some t -> dec (enc t) = Ok t /\ enc t <> Null) ->
  map_get k m = enc <$> o -> optional_field m k dec = Ok o.
Proof.
  unfold optional_field, get_non_null. intros Hd ->. destruct o as [t|]; [|done].
  destruct (Hd t eq_refl) as [Ht Hn]. simpl. destruct (enc t); try done; simpl; by rewrite Ht.
Qed.
Lemma optional_field_json o :
  (forall t, o = Some t -> dec (enc t) = Ok t /\ enc t <> Null) ->
  map_get k m = Some (opt_to_value enc o) -> optional_field m k dec = Ok o.
Proof.
  unfold optional_field, get_non_null. intros Hd ->. destruct o as [t|]; [|done].
  destruct (Hd t eq_refl) as [Ht Hn]. simpl. destruct (enc t); try done; simpl; by rewrite Ht.
Qed.
Lemma optional_field_absent : map_get k m = None -> optional_field m k dec = Ok None.
Proof. unfold optional_field, get_non_null. by intros ->. Qed.
End FieldReaders.

Lemma get_non_null_unwrap m k o :
  map_get k m = Some (unwrap_or o Null) -> o <> Some Null -> get_non_null m k = o.
Proof. unfold get_non_null. intros -> Hn. by destruct o as [[]|]. Qed.
Lemma get_non_null_absent m k : map_get k m = None -> get_non_null m k = None.
Proof. unfold get_non_null. by intros ->. Qed.

Lemma optional_string_absent m k : map_get k m = None -> optional_string m k = Ok None.
Proof. unfold optional_string. by intros ->. Qed.

(** Look a literal key up in [entry_to_map e]. *)
Ltac entry_get :=
  unfold entry_to_map; cbv zeta;
  repeat match goal with H : j_kind _ = _ |- _ => rewrite H end;
  repeat (first [rewrite map_get_insert | rewrite map_get_insert_opt];
          cbn [String.eqb Ascii.eqb Bool.eqb]);
  reflexivity.

Lemma entry_to_map_only_fields e : only_fields entry_fields (entry_to_map e) = true.
Proof.
  apply only_fields_spec. intros k Hk. unfold entry_to_map in Hk. cbv zeta in Hk.
  destruct (j_kind e);
  repeat match type of Hk with
  | _ ∈ map_keys (map_insert _ _ (map_of_list _)) => fail 1
  | _ ∈ map_keys (map_insert _ _ _) => apply map_keys_insert in Hk as [->|Hk]
  | _ ∈ map_keys (insert_opt _ _ _ _) => apply map_keys_insert_opt in Hk as [->|Hk]
  end; unfold entry_fields; try set_solver; cbv in Hk; set_solver.
Qed.

Section RoundTrip.
Context `{Digest}.

Lemma checked_error e :
  entry_validate e = Ok tt ->
  forall err, j_error e = Some err ->
  operation_error_from_value (operation_error_to_value err) = Ok err /\
  operation_error_to_value err <> Null.
Proof.
  unfold entry_validate, validate_entry_payloads. intros Hv err He. rewrite He in Hv.
  result_inv. split; [|done]. apply operation_error_roundtrip.
  simpl in *. by match goal with H : operation_error_validate _ = Ok ?u |- _ => destruct u end.
Qed.

Lemma checked_handle e :
  entry_validate e = Ok tt ->
  forall h, j_deferred_handle e = Some h ->
  decode_handle (handle_to_value h) = Ok h /\ handle_to_value h <> Null.
Proof.
  unfold entry_validate, validate_entry_payloads. intros Hv h Hh. rewrite Hh in Hv.
  cbn [check_opt] in Hv. result_inv. split; [|done]. unfold decode_handle.
  match goal with H : handle_validate _ = Ok ?u |- _ => destruct u end.
  by rewrite handle_roundtrip.
Qed.

Lemma from_dict_not_null r : from_dict Null <> Ok r.
Proof. done. Qed.

(** The result of a valid entry is never the JSON [null]. *)
Lemma checked_result e : entry_validate e = Ok tt -> j_result e <> Some Null.
Proof.
  unfold entry_validate. intros Hv Hr. result_inv.
  unfold validate_entry_state, validate_success_receipt, validate_failed_tool,
    validate_entry_kind, validate_model_fields in *.
  destruct (j_kind e); [rewrite Hr in *; by result_inv; bool_inv|].
  destruct (j_state e); rewrite Hr in *; cbn in Hv; try done; result_inv; bool_inv; done.
Qed.

(** Every reader of [entry_from_value] sees the field it is meant to see. *)
Definition reads (m : object) (e : OperationJournalEntry) : Prop :=
  (map_get "kind" m = Some (kind_to_value (j_kind e)) /\
   map_get "state" m = Some (state_to_value (j_state e)) /\
   map_get "operation_id" m = Some (Str (j_operation_id e)) /\
   map_get "cycle_index" m = Some (json_u64 (j_cycle_index e)) /\
   map_get "attempt" m = Some (json_u64 (j_attempt e)) /\
   map_get "request_digest" m = Some (Str (j_request_digest e))) /\
  (optional_string m "idempotency_key" = Ok (j_idempotency_key e) /\
   optional_string m "identity_key" = Ok (j_identity_key e) /\
   optional_string m "result_digest" = Ok (j_result_digest e) /\
   optional_field m "error" operation_error_from_value = Ok (j_error e)) /\
  (get_non_null m "response" = j_response e /\
   optional_field m "model_operation" decode_model_operation = Ok (j_model_operation e) /\
   optional_string m "backend" = Ok (j_backend e) /\
   optional_string m "model" = Ok (j_model e) /\
   optional_string m "call_id" = Ok (j_call_id e)) /\
  (optional_string m "tool_call_id" = Ok (j_tool_call_id e) /\
   optional_string m "tool_name" = Ok (j_tool_name e) /\
   optional_field m "arguments" decode_arguments = Ok (j_arguments e) /\
   optional_field m "idempotency_support" decode_idempotency = Ok (j_idempotency_support e) /\
   get_non_null m "result" = j_result e /\
   optional_field m "deferred_handle" decode_handle = Ok (j_deferred_handle e) /\
   optional_field m "resume_observation" decode_observation = Ok (j_resume_observation e)).

Lemma reads_decodes m e :
  only_fields entry_fields m = true -> reads m e -> entry_validate e = Ok tt ->
  entry_from_value (Object m) = Ok e.
Proof.
  intros Hof ((K & S & O & C & A & R) & (I1 & I2 & I3 & Er) & (Rs & Mo & B & M & Ci) &
              (Tc & Tn & Ar & Su & Re & Dh & Ob)) Hv.
  unfold entry_from_value. cbn [as_object ok_or]. rewrite Hof, K, S. cbn [negb mbind option_bind].
  rewrite kind_roundtrip, state_roundtrip. cbn [ok_or].
  unfold required_string, required_u64. rewrite O, C, A, R.
  cbn [mbind option_bind as_str as_u64 json_u64 ok_or].
  rewrite I1, I2, I3, Er, Rs, Mo, B, M, Ci, Tc, Tn, Ar, Su, Re, Dh, Ob.
  destruct e. cbn in *. by rewrite Hv.
Qed.

Lemma entry_reads_common e :
  entry_validate e = Ok tt ->
  (map_get "kind" (entry_to_map e) = Some (kind_to_value (j_kind e)) /\
   map_get "state" (entry_to_map e) = Some (state_to_value (j_state e)) /\
   map_get "operation_id" (entry_to_map e) = Some (Str (j_operation_id e)) /\
   map_get "cycle_index" (entry_to_map e) = Some (json_u64 (j_cycle_index e)) /\
   map_get "attempt" (entry_to_map e) = Some (json_u64 (j_attempt e)) /\
   map_get "request_digest" (entry_to_map e) = Some (Str (j_request_digest e))) /\
  (optional_string (entry_to_map e) "idempotency_key" = Ok (j_idempotency_key e) /\
   optional_string (entry_to_map e) "identity_key" = Ok (j_identity_key e) /\
   optional_string (entry_to_map e) "result_digest" = Ok (j_result_digest e) /\
   optional_field (entry_to_map e) "error" operation_error_from_value = Ok (j_error e)).
Proof.
  intros Hv. destruct (j_kind e) eqn:Hk.
  all: split; [repeat split; entry_get|].
  all: repeat split; [apply optional_string_json|apply optional_string_opt|
                      apply optional_string_opt|
                      eapply optional_field_json; [by apply checked_error|]]; entry_get.
Qed.

Lemma model_fields_absent e :
  j_kind e = Model -> entry_validate e = Ok tt ->
  j_identity_key e = None /\ j_result_digest e = None /\ j_resume_observation e = None /\
  j_tool_call_id e = None /\ j_tool_name e = None /\ j_arguments e = None /\
  j_idempotency_support e = None /\ j_result e = None /\ j_deferred_handle e = None.
Proof.
  intros Hk. unfold entry_validate, validate_entry_kind, validate_model_fields. rewrite Hk.
  intros Hv. result_inv. bool_inv. done.
Qed.

Lemma tool_fields_absent e :
  j_kind e = Tool -> entry_validate e = Ok tt ->
  j_model_operation e = None /\ j_backend e = None /\ j_model e = None /\
  j_call_id e = None /\ j_response e = None.
Proof.
  intros Hk. unfold entry_validate, validate_entry_kind, validate_tool_fields. rewrite Hk.
  intros Hv. result_inv. bool_inv. done.
Qed.

Lemma model_entry_reads e :
  j_kind e = Model -> entry_validate e = Ok tt -> j_response e <> Some Null ->
  reads (entry_to_map e) e.
Proof.
  intros Hk Hv Hn. destruct (entry_reads_common e Hv) as [Hc1 Hc2].
  destruct (model_fields_absent e Hk Hv) as (E1 & E2 & E3 & E4 & E5 & E6 & E7 & E8 & E9).
  split; [done|]. split; [done|]. rewrite E3, E4, E5, E6, E7, E8, E9. split; repeat split.
  - apply get_non_null_unwrap; [entry_get|done].
  - eapply optional_field_json with (enc := model_operation_to_value); [|entry_get].
    intros t _. unfold decode_model_operation. rewrite model_operation_roundtrip. by destruct t.
  - apply optional_string_json. entry_get.
  - apply optional_string_json. entry_get.
  - apply optional_string_json. entry_get.
  - apply optional_string_absent. entry_get.
  - apply optional_string_absent. entry_get.
  - apply optional_field_absent. entry_get.
  - apply optional_field_absent. entry_get.
  - apply get_non_null_absent. entry_get.
  - apply optional_field_absent. entry_get.
  - apply optional_field_absent. entry_get.
Qed.

Lemma tool_entry_reads e :
  j_kind e = Tool -> entry_validate e = Ok tt -> reads (entry_to_map e) e.
Proof.
  intros Hk Hv. destruct (entry_reads_common e Hv) as [Hc1 Hc2].
  destruct (tool_fields_absent e Hk Hv) as (E1 & E2 & E3 & E4 & E5).
  split; [done|]. split; [done|]. rewrite E1, E2, E3, E4, E5. split; repeat split.
  - apply get_non_null_absent. entry_get.
  - apply optional_field_absent. entry_get.
  - apply optional_string_absent. entry_get.
  - apply optional_string_absent. entry_get.
  - apply optional_string_absent. entry_get.
  - apply optional_string_json. entry_get.
  - apply optional_string_json. entry_get.
  - eapply optional_field_json with (enc := Object); [done|entry_get].
  - eapply optional_field_json with (enc := idempotency_to_value); [|entry_get].
    intros t _. unfold decode_idempotency. by rewrite idempotency_roundtrip.
  - apply get_non_null_unwrap; [entry_get|by apply checked_result].
  - eapply optional_field_opt; [by apply checked_handle|entry_get].
  - eapply optional_field_opt with (enc := observation_to_value); [|entry_get].
    intros t _. unfold decode_observation. by rewrite observation_roundtrip.
Qed.

Lemma entry_wire_roundtrip e :
  entry_validate e = Ok tt -> j_response e <> Some Null ->
  entry_from_value (entry_to_value e) = Ok e.
Proof.
  intros Hv Hn. apply reads_decodes; [apply entry_to_map_only_fields| |done].
  destruct (j_kind e) eqn:Hk; [by apply model_entry_reads|by apply tool_entry_reads].
Qed.
End RoundTrip.

(** ** Facts about receipts *)

Section Receipts.
Context `{Digest}.

Lemma entry_state_checked e : entry_validate e = Ok tt -> validate_entry_state e = Ok tt.
Proof. unfold entry_validate. intros Hv. by result_inv. Qed.

(** What a closed tool entry retains: the result it closed with, in canonical
    form and under its digest, or the synthetic cancellation closure. *)
Definition tool_receipt_intact (e : OperationJournalEntry) : Prop :=
  is_some (j_identity_key e) = true /\
  ((exists r d, j_result e = Some (to_dict r) /\ from_dict (to_dict r) = Ok r /\
      j_result_digest e = Some d /\ tool_result_digest r = Ok d /\
      (j_state e = Succeeded -> j_error e = None) /\
      (j_state e = Failed -> tr_status r = Error /\
         j_error e = Some (operation_error_from_tool_result r)))
   \/ (j_state e = Failed /\ j_result e = None /\ j_result_digest e = None /\
       is_some (j_resume_observation e) = true /\
       exists err, j_error e = Some err /\ oe_code err = "tool_cancelled")).

Lemma to_dict_status r : get_str (to_dict r) "status_code" = Some (tool_result_status_value (tr_status r)).
Proof.
  unfold get_str, to_dict, value_get. destruct (to_dict_required r) as (_ & _ & _ & ->). done.
Qed.

Lemma success_receipt_intact e :
  j_kind e = Tool -> j_state e = Succeeded ->
  validate_success_receipt e = Ok tt -> tool_receipt_intact e.
Proof.
  intros Hk Hs Hv. unfold validate_success_receipt in Hv. rewrite Hk in Hv.
  destruct (j_result e) as [result|] eqn:Hr; [|done].
  destruct (j_error e) eqn:He; [done|]. result_inv. bool_inv. subst.
  split; [done|]. left. exists a, a0. repeat split; try done; congruence.
Qed.

Lemma failed_receipt_intact e err :
  j_kind e = Tool -> j_state e = Failed -> j_error e = Some err ->
  validate_failed_tool e err = Ok tt -> tool_receipt_intact e.
Proof.
  intros Hk Hs He Hv. unfold validate_failed_tool in Hv. result_inv; bool_inv; subst;
    (split; [done|]).
  { right. repeat split; try done. by exists err. }
  all: left; eexists _, _; repeat split; try done.
  all: try congruence.
  all: match goal with H : get_str _ _ = Some _ |- _ =>
         rewrite to_dict_status in H; by destruct (tr_status _) end.
Qed.

Lemma closed_tool_receipt_intact e :
  entry_validate e = Ok tt -> j_kind e = Tool -> closed (j_state e) = true ->
  tool_receipt_intact e.
Proof.
  intros Hv%entry_state_checked Hk Hc. unfold validate_entry_state in Hv.
  destruct (j_state e) eqn:Hs; try done; [by apply success_receipt_intact|].
  destruct (j_error e) as [err|] eqn:He; [|done]. rewrite Hk in Hv. result_inv.
  by eapply failed_receipt_intact.
Qed.
End Receipts.

(** ** Properties *)

(** A valid journal entry, of either kind and in any state, is read back
    from its wire form as the same entry exactly when its response is not the
    JSON [null]; whatever the reader returns is valid. *)
Theorem journal_entry_roundtrip `{Digest} (e : OperationJournalEntry) :
  entry_validate e = Ok tt ->
  (entry_from_value (entry_to_value e) = Ok e <-> j_response e <> Some Null) /\
  (forall v e', entry_from_value v = Ok e' -> entry_validate e' = Ok tt).
Proof.
  intros Hv. split; [split; [|by apply entry_wire_roundtrip]|].
  - unfold entry_from_value. intros He. result_inv. cbn. unfold get_non_null.
    by destruct (map_get "response" _) as [[]|].
  - unfold entry_from_value. intros v e' He. result_inv.
    by match goal with H : entry_validate _ = Ok ?u |- _ => destruct u end.
Qed.

Definition sample_digest : string := toy_sha256 "request".
Definition sample_tool_entry : OperationJournalEntry :=
  set_receipt Failed (Some (toy_sha256 "identity"))
    (match @tool_result_digest toy_digest sample_result with Ok d => Some d | Err _ => None end)
    (Some (to_dict sample_result)) (Some (operation_error_from_tool_result sample_result)) None None
    (tool_entry "op_1" 2 1 sample_digest "call_1" "read_file" [("path", Str "a")] (Some "idem")
       UnknownSupport).

Lemma journal_entry_roundtrip_witness :
  @entry_from_value toy_digest (entry_to_value sample_tool_entry) = Ok sample_tool_entry.
Proof.
  apply (proj1 (@journal_entry_roundtrip toy_digest sample_tool_entry
                  ltac:(vm_compute; reflexivity))).
  discriminate.
Defined.

(** The operation state machine: along every sequence of successful
    transitions and retries the identity of the entry is fixed, the attempt
    never decreases, the entry stays valid, and an entry that has succeeded or
    failed never changes again. *)
Theorem journal_entry_reachable `{Digest} (e e' : OperationJournalEntry) :
  entry_validate e = Ok tt -> rtc entry_step e e' ->
  entry_validate e' = Ok tt /\
  j_kind e' = j_kind e /\ j_operation_id e' = j_operation_id e /\
  j_cycle_index e' = j_cycle_index e /\ j_request_digest e' = j_request_digest e /\
  (j_attempt e <= j_attempt e')%N /\
  (closed (j_state e) = true -> e' = e).
Proof.
  intros Hv Hsteps. revert Hv. induction Hsteps as [e|e e1 e' Hstep _ IH]; intros Hv.
  { repeat split; auto. }
  destruct (entry_step_state _ _ Hstep) as (Hc & Hk & Ho & Hi & Hr & Ha & _).
  destruct (IH (entry_step_validates _ _ Hstep)) as (V & K & O & C & R & A & _).
  repeat split; try congruence. destruct Ha as [Ha|[Ha _]]; lia.
Qed.

Lemma journal_entry_reachable_witness :
  let e := tool_entry "op_1" 2 1 sample_digest "call_1" "read_file" [] (Some "idem") Supported in
  let e' := fst (@transition_to toy_digest e Started) in
  (j_attempt e <= j_attempt e')%N.
Proof.
  intros e e'.
  refine (proj1 (proj2 (proj2 (proj2 (proj2 (proj2
    (@journal_entry_reachable toy_digest e e' ltac:(vm_compute; reflexivity) _))))))).
  apply rtc_once. apply (@step_transition toy_digest e e' Started). vm_compute. reflexivity.
Defined.

(** Receipt integrity: a valid tool entry that has succeeded or failed
    retains its identity key and either the canonical result with its digest
    and the error derived from that result, or the synthetic cancellation
    closure with its resume observation; an open entry retains no receipt. *)
Theorem journal_receipt_integrity `{Digest} (e : OperationJournalEntry) :
  entry_validate e = Ok tt -> j_kind e = Tool ->
  if closed (j_state e) then tool_receipt_intact e
  else j_result e = None /\ j_error e = None /\ j_identity_key e = None /\
       j_result_digest e = None /\ j_resume_observation e = None /\
       (is_some (j_deferred_handle e) = bool_decide (j_state e = Deferred)).
Proof.
  intros Hv Hk. destruct (closed (j_state e)) eqn:Hc; [by apply closed_tool_receipt_intact|].
  pose proof (entry_state_checked e Hv) as Hst.
  unfold entry_validate, validate_entry_kind, validate_tool_fields in Hv. rewrite Hk in Hv.
  unfold validate_entry_state in Hst.
  destruct (j_state e) eqn:Hs; try done; result_inv; bool_inv; repeat split; try done;
    by destruct (j_deferred_handle e).
Qed.

Lemma journal_receipt_integrity_witness : @tool_receipt_intact toy_digest sample_tool_entry.
Proof.
  exact (@journal_receipt_integrity toy_digest sample_tool_entry
           ltac:(vm_compute; reflexivity) eq_refl).
Defined.
