(* ===== verification/TokenUsage.v ===== *)
(** * Token accounting

    [types/token_usage.rs] and [runtime/token_usage.rs]: the provider usage of
    one model call, its normalisation from a raw provider payload, the task
    ledger that recomputes its aggregate from every record, and the running
    totals ([TaskTokenUsageTotals::append]) the archived history keeps
    instead of the records. *)

From Stdlib Require Import Ascii String NArith ZArith Lia.
From stdpp Require Import base strings list sets.
From S2P Require Import Prelude Json Canonical CheckpointTypes Journal.

Inductive UsageSource := ProviderReportedU | Estimated | AccountingMissingU.
Inductive CacheUsageStatus := ProviderReported | AccountingMissing | UnsupportedCache.
#[global] Instance UsageSource_eq_dec : EqDecision UsageSource.
Proof. solve_decision. Defined.
#[global] Instance CacheUsageStatus_eq_dec : EqDecision CacheUsageStatus.
Proof. solve_decision. Defined.

Record CacheUsage := {
  cu_status : CacheUsageStatus;
  cu_read_input_tokens : option N;
  cu_write_input_tokens : option N;
  cu_uncached_input_tokens : option N;
  cu_source : option string
}.
#[global] Instance CacheUsage_eq_dec : EqDecision CacheUsage.
Proof. solve_decision. Defined.

Definition cache_usage_default : CacheUsage :=
  {| cu_status := AccountingMissing; cu_read_input_tokens := None; cu_write_input_tokens := None;
     cu_uncached_input_tokens := None; cu_source := None |}.

Record TokenUsage := {
  tu_input_tokens : option N;
  tu_output_tokens : option N;
  tu_total_tokens : option N;
  tu_reasoning_tokens : option N;
  tu_usage_source : UsageSource;
  tu_cache_usage : CacheUsage;
  tu_provider_usage : object
}.
#[global] Instance TokenUsage_eq_dec : EqDecision TokenUsage.
Proof. solve_decision. Defined.

Definition token_usage_default : TokenUsage :=
  {| tu_input_tokens := None; tu_output_tokens := None; tu_total_tokens := None;
     tu_reasoning_tokens := None; tu_usage_source := AccountingMissingU;
     tu_cache_usage := cache_usage_default; tu_provider_usage := [] |}.

Definition has_usage (u : TokenUsage) : bool :=
  is_some (tu_input_tokens u) || is_some (tu_output_tokens u) || is_some (tu_total_tokens u)
  || is_some (tu_reasoning_tokens u) || (tu_usage_source u <>?? AccountingMissingU)
  || (cu_status (tu_cache_usage u) <>?? AccountingMissing).

Inductive ModelCallStatus := CompletedC | FailedC | AmbiguousC.
#[global] Instance ModelCallStatus_eq_dec : EqDecision ModelCallStatus.
Proof. solve_decision. Defined.

Record ModelCallRecord := {
  mc_call_id : string;
  mc_operation_id : string;
  mc_attempt : N;
  mc_operation : ModelCallOperation;
  mc_cycle_index : N;
  mc_backend : string;
  mc_model : string;
  mc_status : ModelCallStatus;
  mc_usage : TokenUsage;
  mc_error_code : option string
}.
#[global] Instance ModelCallRecord_eq_dec : EqDecision ModelCallRecord.
Proof. solve_decision. Defined.

(** [TryFrom<ModelCallRecordWire>]: the checks of the strict reader. *)
Definition model_call_record_check (r : ModelCallRecord) : result unit :=
  fail_if (trim_is_empty (mc_call_id r)) with "call_id must be a non-empty string" ;;
  fail_if (trim_is_empty (mc_operation_id r)) with "operation_id must be a non-empty string" ;;
  fail_if (trim_is_empty (mc_backend r)) with "backend must be a non-empty string" ;;
  fail_if (trim_is_empty (mc_model r)) with "model must be a non-empty string" ;;
  fail_if (mc_attempt r =? 0)%N with "attempt must be positive" ;;
  fail_if (mc_cycle_index r =? 0)%N with "cycle_index must be positive" ;;
  match mc_status r with
  | CompletedC =>
      fail_if (is_some (mc_error_code r)) with "completed model calls require error_code=null" ;;
      Ok tt
  | FailedC | AmbiguousC =>
      fail_if (is_none_or (mc_error_code r) trim_is_empty)
      with "failed or ambiguous model calls require an error_code" ;;
      Ok tt
  end.

(** ** The ledger *)

Record TaskTokenUsage := {
  tt_input_tokens : option N;
  tt_output_tokens : option N;
  tt_total_tokens : option N;
  tt_reasoning_tokens : option N;
  tt_cache_usage : CacheUsage;
  tt_model_calls : list ModelCallRecord
}.
#[global] Instance TaskTokenUsage_eq_dec : EqDecision TaskTokenUsage.
Proof. solve_decision. Defined.

Definition aggregate_default : CacheUsage :=
  {| cu_status := AccountingMissing; cu_read_input_tokens := None; cu_write_input_tokens := None;
     cu_uncached_input_tokens := None; cu_source := Some "aggregate" |}.

Definition task_usage_default : TaskTokenUsage :=
  {| tt_input_tokens := Some 0%N; tt_output_tokens := Some 0%N; tt_total_tokens := Some 0%N;
     tt_reasoning_tokens := Some 0%N; tt_cache_usage := aggregate_default; tt_model_calls := [] |}.

(** [try_fold(0, |total, call| total.checked_add(read(call)?))]. *)
Fixpoint sum_from (total : N) (l : list (option N)) : option N :=
  match l with
  | [] => Some total
  | None :: _ => None
  | Some n :: r => match checked_add total n with Some t => sum_from t r | None => None end
  end.

Definition complete_sum (calls : list ModelCallRecord) (read : TokenUsage -> option N) : option N :=
  match calls with
  | [] => Some 0%N
  | _ => sum_from 0 (map (fun c => read (mc_usage c)) calls)
  end.

Definition call_cache (c : ModelCallRecord) : CacheUsage := tu_cache_usage (mc_usage c).

Definition aggregate_status (calls : list ModelCallRecord) : CacheUsageStatus :=
  if forallb (fun c => cu_status (call_cache c) =?? ProviderReported) calls then ProviderReported
  else if forallb (fun c => cu_status (call_cache c) =?? UnsupportedCache) calls
  then UnsupportedCache
  else AccountingMissing.

Definition complete_cache_sum (status : CacheUsageStatus) (calls : list ModelCallRecord)
    (read : CacheUsage -> option N) : option N :=
  if status <>?? ProviderReported then None
  else sum_from 0 (map (fun c => read (call_cache c)) calls).

Definition aggregate_cache_usage (calls : list ModelCallRecord) : CacheUsage :=
  match calls with
  | [] => aggregate_default
  | _ =>
      let status := aggregate_status calls in
      {| cu_status := status;
         cu_read_input_tokens := complete_cache_sum status calls cu_read_input_tokens;
         cu_write_input_tokens := complete_cache_sum status calls cu_write_input_tokens;
         cu_uncached_input_tokens := complete_cache_sum status calls cu_uncached_input_tokens;
         cu_source := Some "aggregate" |}
  end.

Definition add_model_call (t : TaskTokenUsage) (c : ModelCallRecord) : result TaskTokenUsage :=
  fail_if (existsb (fun existing => String.eqb (mc_call_id existing) (mc_call_id c))
                   (tt_model_calls t)) with "model_call_id_duplicate" ;;
  let calls := tt_model_calls t ++ [c] in
  Ok {| tt_input_tokens := complete_sum calls tu_input_tokens;
        tt_output_tokens := complete_sum calls tu_output_tokens;
        tt_total_tokens := complete_sum calls tu_total_tokens;
        tt_reasoning_tokens := complete_sum calls tu_reasoning_tokens;
        tt_cache_usage := aggregate_cache_usage calls;
        tt_model_calls := calls |}.

(** [summarize_task_token_usage]; the [Err] is the panic of its [expect]. *)
Definition summarize_task_token_usage (calls : list ModelCallRecord) : result TaskTokenUsage :=
  try_fold add_model_call task_usage_default calls.

(** ** Running totals *)

Record TaskTokenUsageTotals := {
  to_input_tokens : option N;
  to_output_tokens : option N;
  to_total_tokens : option N;
  to_reasoning_tokens : option N;
  to_cache_usage : CacheUsage
}.
#[global] Instance TaskTokenUsageTotals_eq_dec : EqDecision TaskTokenUsageTotals.
Proof. solve_decision. Defined.

(** The totals of a ledger summary; [TaskTokenUsageTotals::default] takes them
    of the default summary. *)
Definition totals_of (t : TaskTokenUsage) : TaskTokenUsageTotals :=
  {| to_input_tokens := tt_input_tokens t; to_output_tokens := tt_output_tokens t;
     to_total_tokens := tt_total_tokens t; to_reasoning_tokens := tt_reasoning_tokens t;
     to_cache_usage := tt_cache_usage t |}.
Definition totals_default : TaskTokenUsageTotals := totals_of task_usage_default.

(** [left?.checked_add(right?)]. *)
Definition add (left right : option N) : option N :=
  match left, right with Some l, Some r => checked_add l r | _, _ => None end.

Definition append_cache (total cache : CacheUsage) (first : bool) : CacheUsage :=
  if first then
    {| cu_status := cu_status cache; cu_read_input_tokens := cu_read_input_tokens cache;
       cu_write_input_tokens := cu_write_input_tokens cache;
       cu_uncached_input_tokens := cu_uncached_input_tokens cache; cu_source := Some "aggregate" |}
  else if (cu_status total =?? ProviderReported) && (cu_status cache =?? ProviderReported) then
    {| cu_status := cu_status total;
       cu_read_input_tokens := add (cu_read_input_tokens total) (cu_read_input_tokens cache);
       cu_write_input_tokens := add (cu_write_input_tokens total) (cu_write_input_tokens cache);
       cu_uncached_input_tokens := add (cu_uncached_input_tokens total) (cu_uncached_input_tokens cache);
       cu_source := cu_source total |}
  else
    {| cu_status := if (cu_status total <>?? UnsupportedCache) || (cu_status cache <>?? UnsupportedCache)
                    then AccountingMissing else cu_status total;
       cu_read_input_tokens := None; cu_write_input_tokens := None;
       cu_uncached_input_tokens := None; cu_source := cu_source total |}.

Definition totals_append (t : TaskTokenUsageTotals) (record : ModelCallRecord) (first : bool)
    : TaskTokenUsageTotals :=
  let u := mc_usage record in
  {| to_input_tokens := add (to_input_tokens t) (tu_input_tokens u);
     to_output_tokens := add (to_output_tokens t) (tu_output_tokens u);
     to_total_tokens := add (to_total_tokens t) (tu_total_tokens u);
     to_reasoning_tokens := add (to_reasoning_tokens t) (tu_reasoning_tokens u);
     to_cache_usage := append_cache (to_cache_usage t) (tu_cache_usage u) first |}.

(** The archiving loop: [first] is [model_call_count == 0]. *)
Fixpoint totals_fold (t : TaskTokenUsageTotals) (count : N) (records : list ModelCallRecord)
    : TaskTokenUsageTotals :=
  match records with
  | [] => t
  | r :: rest => totals_fold (totals_append t r (count =? 0)%N) (count + 1)%N rest
  end.

(** ** Wire form

    The derived and hand-written serde implementations.  Every optional field
    goes through [required_option]: it may be [null] but not missing. *)

Definition TOKEN_USAGE_SCHEMA_VERSION : string := "vv-agent.token-usage.v1".
Definition TASK_TOKEN_USAGE_SCHEMA_VERSION : string := "vv-agent.task-token-usage.v2".

Definition usage_source_str (s : UsageSource) : string :=
  match s with
  | ProviderReportedU => "provider_reported" | Estimated => "estimated"
  | AccountingMissingU => "accounting_missing"
  end.
Definition usage_source_from_value (v : Value) : option UsageSource :=
  s ← serde_unit_variant v;
  if String.eqb s "provider_reported" then Some ProviderReportedU
  else if String.eqb s "estimated" then Some Estimated
  else if String.eqb s "accounting_missing" then Some AccountingMissingU else None.

Definition cache_status_str (s : CacheUsageStatus) : string :=
  match s with
  | ProviderReported => "provider_reported" | AccountingMissing => "accounting_missing"
  | UnsupportedCache => "unsupported"
  end.
Definition cache_status_from_value (v : Value) : option CacheUsageStatus :=
  s ← serde_unit_variant v;
  if String.eqb s "provider_reported" then Some ProviderReported
  else if String.eqb s "accounting_missing" then Some AccountingMissing
  else if String.eqb s "unsupported" then Some UnsupportedCache else None.

Definition call_status_str (s : ModelCallStatus) : string :=
  match s with CompletedC => "completed" | FailedC => "failed" | AmbiguousC => "ambiguous" end.
Definition call_status_from_value (v : Value) : option ModelCallStatus :=
  s ← serde_unit_variant v;
  if String.eqb s "completed" then Some CompletedC
  else if String.eqb s "failed" then Some FailedC
  else if String.eqb s "ambiguous" then Some AmbiguousC else None.

(** [required_option]. *)
Definition required_option {T} (decode : Value -> option T) (o : option Value) : option (option T) :=
  v ← o; serde_option decode (Some v).

Definition json_opt_u64 (o : option N) : Value := opt_to_value json_u64 o.
(** A [u32] field of a derived reader. *)
Definition as_u32_value (v : Value) : option N := as_u64 v ≫= u32_try_from.

Definition cache_usage_fields : list string :=
  ["status"; "read_input_tokens"; "write_input_tokens"; "uncached_input_tokens"; "source"].
Definition cache_usage_to_value (c : CacheUsage) : Value :=
  json_object [
    ("status", Str (cache_status_str (cu_status c)));
    ("read_input_tokens", json_opt_u64 (cu_read_input_tokens c));
    ("write_input_tokens", json_opt_u64 (cu_write_input_tokens c));
    ("uncached_input_tokens", json_opt_u64 (cu_uncached_input_tokens c));
    ("source", json_opt_str (cu_source c))].
Definition cache_usage_from_value (v : Value) : option CacheUsage :=
  fields ← serde_strict_struct cache_usage_fields v;
  match fields with
  | [a; b; c; d; e] =>
      status ← a ≫= cache_status_from_value;
      read ← required_option as_u64 b;
      write ← required_option as_u64 c;
      uncached ← required_option as_u64 d;
      source ← required_option as_str e;
      Some {| cu_status := status; cu_read_input_tokens := read; cu_write_input_tokens := write;
              cu_uncached_input_tokens := uncached; cu_source := source |}
  | _ => None
  end.

Definition token_usage_fields : list string :=
  ["schema_version"; "input_tokens"; "output_tokens"; "total_tokens"; "reasoning_tokens";
   "usage_source"; "cache_usage"; "provider_usage"].
Definition token_usage_to_value (u : TokenUsage) : Value :=
  json_object [
    ("schema_version", Str TOKEN_USAGE_SCHEMA_VERSION);
    ("input_tokens", json_opt_u64 (tu_input_tokens u));
    ("output_tokens", json_opt_u64 (tu_output_tokens u));
    ("total_tokens", json_opt_u64 (tu_total_tokens u));
    ("reasoning_tokens", json_opt_u64 (tu_reasoning_tokens u));
    ("usage_source", Str (usage_source_str (tu_usage_source u)));
    ("cache_usage", cache_usage_to_value (tu_cache_usage u));
    ("provider_usage", Object (tu_provider_usage u))].
Definition token_usage_from_value (v : Value) : option TokenUsage :=
  fields ← serde_strict_struct token_usage_fields v;
  match fields with
  | [a; b; c; d; e; f; g; h] =>
      schema ← a ≫= as_str;
      input ← required_option as_u64 b;
      output ← required_option as_u64 c;
      total ← required_option as_u64 d;
      reasoning ← required_option as_u64 e;
      source ← f ≫= usage_source_from_value;
      cache ← g ≫= cache_usage_from_value;
      provider ← h ≫= as_object;
      if String.eqb schema TOKEN_USAGE_SCHEMA_VERSION then
        Some {| tu_input_tokens := input; tu_output_tokens := output; tu_total_tokens := total;
                tu_reasoning_tokens := reasoning; tu_usage_source := source;
                tu_cache_usage := cache; tu_provider_usage := provider |}
      else None
  | _ => None
  end.

Definition model_call_fields : list string :=
  ["call_id"; "operation_id"; "attempt"; "operation"; "cycle_index"; "backend"; "model";
   "status"; "usage"; "error_code"].
Definition model_call_to_value (r : ModelCallRecord) : Value :=
  json_object [
    ("call_id", Str (mc_call_id r));
    ("operation_id", Str (mc_operation_id r));
    ("attempt", json_u64 (mc_attempt r));
    ("operation", model_operation_to_value (mc_operation r));
    ("cycle_index", json_u64 (mc_cycle_index r));
    ("backend", Str (mc_backend r));
    ("model", Str (mc_model r));
    ("status", Str (call_status_str (mc_status r)));
    ("usage", token_usage_to_value (mc_usage r));
    ("error_code", json_opt_str (mc_error_code r))].
Definition model_call_from_value (v : Value) : option ModelCallRecord :=
  fields ← serde_strict_struct model_call_fields v;
  match fields with
  | [a; b; c; d; e; f; g; h; i; j] =>
      call_id ← a ≫= as_str;
      operation_id ← b ≫= as_str;
      attempt ← c ≫= as_u32_value;
      operation ← d ≫= model_operation_from_value;
      cycle ← e ≫= as_u32_value;
      backend ← f ≫= as_str;
      model ← g ≫= as_str;
      status ← h ≫= call_status_from_value;
      usage ← i ≫= token_usage_from_value;
      error_code ← required_option as_str j;
      let record := {| mc_call_id := call_id; mc_operation_id := operation_id;
                       mc_attempt := attempt; mc_operation := operation;
                       mc_cycle_index := cycle; mc_backend := backend; mc_model := model;
                       mc_status := status; mc_usage := usage; mc_error_code := error_code |} in
      if is_ok (model_call_record_check record) then Some record else None
  | _ => None
  end.

Definition task_usage_fields : list string :=
  ["schema_version"; "input_tokens"; "output_tokens"; "total_tokens"; "reasoning_tokens";
   "cache_usage"; "model_calls"].
Definition task_usage_to_value (t : TaskTokenUsage) : Value :=
  json_object [
    ("schema_version", Str TASK_TOKEN_USAGE_SCHEMA_VERSION);
    ("input_tokens", json_opt_u64 (tt_input_tokens t));
    ("output_tokens", json_opt_u64 (tt_output_tokens t));
    ("total_tokens", json_opt_u64 (tt_total_tokens t));
    ("reasoning_tokens", json_opt_u64 (tt_reasoning_tokens t));
    ("cache_usage", cache_usage_to_value (tt_cache_usage t));
    ("model_calls", Array (map model_call_to_value (tt_model_calls t)))].

(** The reader recomputes the aggregate and refuses a ledger whose stored
    totals differ from it. *)
Definition task_usage_from_value (v : Value) : option TaskTokenUsage :=
  fields ← serde_strict_struct task_usage_fields v;
  match fields with
  | [a; b; c; d; e; f; g] =>
      schema ← a ≫= as_str;
      input ← required_option as_u64 b;
      output ← required_option as_u64 c;
      total ← required_option as_u64 d;
      reasoning ← required_option as_u64 e;
      cache ← f ≫= cache_usage_from_value;
      items ← g ≫= as_array;
      calls ← mapM model_call_from_value items;
      if negb (String.eqb schema TASK_TOKEN_USAGE_SCHEMA_VERSION) then None
      else match try_fold add_model_call task_usage_default calls with
      | Err _ => None
      | Ok expected =>
          if (input <>?? tt_input_tokens expected) || (output <>?? tt_output_tokens expected)
             || (total <>?? tt_total_tokens expected)
             || (reasoning <>?? tt_reasoning_tokens expected)
             || (cache <>?? tt_cache_usage expected)
          then None else Some expected
      end
  | _ => None
  end.

(** ** Normalising a provider payload *)

(** [value.is_finite() && value >= 0.0 && value.fract() == 0.0] and the
    saturating [value as u64], on the IEEE-754 bits. *)
Definition f64_to_count (bits : Z) : option N :=
  let sign := Z.shiftr bits 63 in
  let e := Z.land (Z.shiftr bits 52) 2047 in
  let m := Z.land bits 4503599627370495 in
  if Z.eqb e 2047 then None
  else if Z.eqb e 0 then (if Z.eqb m 0 then Some 0%N else None)
  else if negb (Z.eqb sign 0) then None
  else
    let mant := (4503599627370496 + m)%Z in
    if Z.leb 1075 e then Some (N.min (Z.to_N (Z.shiftl mant (e - 1075))) U64_MAX)
    else if Z.eqb (mant mod 2 ^ (1075 - e))%Z 0 then Some (Z.to_N (Z.shiftr mant (1075 - e)))
    else None.

(** [str::trim] on the bytes. *)
Fixpoint trim_start (fuel : nat) (s : list N) : list N :=
  match fuel with
  | O => s
  | S f => match ws_prefix s with O => s | n => trim_start f (drop n s) end
  end.
Fixpoint trim_end (s : list N) : list N :=
  if bytes_blank (length s) s then []
  else match s with [] => [] | b :: r => b :: trim_end r end.
Definition trim (s : list N) : list N := trim_end (trim_start (length s) s).

(** [str::parse::<u64>]: an optional [+] and decimal digits without overflow. *)
Fixpoint parse_digits (acc : N) (s : list N) : option N :=
  match s with
  | [] => Some acc
  | b :: r =>
      if is_ascii_digit b then
        let acc' := (acc * 10 + (b - 48))%N in
        if (acc' <=? U64_MAX)%N then parse_digits acc' r else None
      else None
  end.
Definition parse_u64 (s : list N) : option N :=
  match s with
  | [] => None
  | b :: r => if (b =? 43)%N then match r with [] => None | _ => parse_digits 0 r end
              else parse_digits 0 s
  end.

Definition read_count (o : option Value) : option N :=
  v ← o;
  match v with
  | Num (PosInt n) => Some n
  | Num (NegInt _) => None
  | Num (Float bits) => f64_to_count bits
  | Str s => parse_u64 (trim (str_bytes s))
  | _ => None
  end.

Fixpoint nested_value (source : Value) (path : list string) : option Value :=
  match path with
  | [] => Some source
  | k :: r => v ← value_get source k; nested_value v r
  end.

Fixpoint read_nested_count (source : Value) (path_options : list (list string)) : option N :=
  match path_options with
  | [] => None
  | path :: r => or_else (v ← nested_value source path; read_count (Some v))
                         (read_nested_count source r)
  end.

Definition has_any_key (source : Value) (keys : list string) : bool :=
  is_some_and (as_object source) (fun m => existsb (fun k => map_contains_key k m) keys).

Definition infer_usage_source (raw : Value) : UsageSource :=
  match as_object raw with
  | None => AccountingMissingU
  | Some m =>
      if existsb (fun k => map_contains_key k m && is_some (read_count (map_get k m)))
           ["prompt_tokens"; "completion_tokens"; "total_tokens"; "input_tokens"; "output_tokens"]
      then ProviderReportedU else AccountingMissingU
  end.

Definition cache_read_paths : list (list string) :=
  [["cache_read_input_tokens"]; ["cache_read_tokens"];
   ["prompt_tokens_details"; "cached_tokens"]; ["input_tokens_details"; "cached_tokens"]].
Definition reasoning_paths : list (list string) :=
  [["completion_tokens_details"; "reasoning_tokens"];
   ["output_tokens_details"; "reasoning_tokens"]; ["reasoning_tokens"]].
Definition cache_write_paths : list (list string) :=
  [["cache_write_input_tokens"]; ["cache_creation_input_tokens"]; ["cache_write_tokens"];
   ["input_tokens_details"; "cache_creation_tokens"];
   ["prompt_tokens_details"; "cache_creation_tokens"]].

(** The branch for a payload that is not an object. *)
Definition normalize_non_object (usage_source : option UsageSource)
    (cache_status : option CacheUsageStatus) : TokenUsage :=
  let status := unwrap_or cache_status AccountingMissing in
  {| tu_input_tokens := None; tu_output_tokens := None; tu_total_tokens := None;
     tu_reasoning_tokens := None; tu_usage_source := unwrap_or usage_source AccountingMissingU;
     tu_cache_usage :=
       {| cu_status := status; cu_read_input_tokens := None; cu_write_input_tokens := None;
          cu_uncached_input_tokens := None;
          cu_source := if status =?? UnsupportedCache then Some "adapter_capability" else None |};
     tu_provider_usage := [] |}.

(** The cache block of the normalised usage. *)
Definition normalize_cache (status : CacheUsageStatus) (read write uncached : option N)
    : CacheUsage :=
  let reported o := if status =?? ProviderReported then o else None in
  {| cu_status := status;
     cu_read_input_tokens := reported read;
     cu_write_input_tokens := reported write;
     cu_uncached_input_tokens := reported uncached;
     cu_source := match status with
                  | ProviderReported => Some "provider_usage"
                  | UnsupportedCache => Some "adapter_capability"
                  | AccountingMissing => None
                  end |}.

Definition normalize_token_usage_with_hints (raw_usage : Value)
    (usage_source : option UsageSource) (cache_status : option CacheUsageStatus) : TokenUsage :=
  match as_object raw_usage with
  | None => normalize_non_object usage_source cache_status
  | Some raw =>
      let prompt := read_count (map_get "prompt_tokens" raw) in
      let completion := read_count (map_get "completion_tokens" raw) in
      let native := or_else (read_count (map_get "input_tokens" raw)) prompt in
      let output := or_else (read_count (map_get "output_tokens" raw)) completion in
      let cache_read := read_nested_count raw_usage cache_read_paths in
      let reasoning := read_nested_count raw_usage reasoning_paths in
      let cache_write := read_nested_count raw_usage cache_write_paths in
      let uncached := read_nested_count raw_usage [["uncached_input_tokens"]] in
      let anthropic_native :=
        is_none prompt && negb (map_contains_key "total_tokens" raw) && is_none uncached
        && has_any_key raw_usage ["cache_read_input_tokens"; "cache_creation_input_tokens"] in
      let input :=
        if anthropic_native then
          n ← native;
          r ← checked_add n (unwrap_or cache_read 0%N);
          checked_add r (unwrap_or cache_write 0%N)
        else native in
      let total := or_else (read_count (map_get "total_tokens" raw))
                           (i ← input; o ← output; checked_add i o) in
      let observed := is_some cache_read || is_some cache_write || is_some uncached in
      let status := if observed then ProviderReported
                    else unwrap_or cache_status AccountingMissing in
      let uncached' :=
        if (status =?? ProviderReported) && is_none uncached then
          if anthropic_native then n ← native; checked_add n (unwrap_or cache_write 0%N)
          else match input, cache_read with
               | Some i, Some r => Some (saturating_sub i r)
               | _, _ => uncached
               end
        else uncached in
      {| tu_input_tokens := input; tu_output_tokens := output; tu_total_tokens := total;
         tu_reasoning_tokens := reasoning;
         tu_usage_source := match usage_source with
                            | Some s => s | None => infer_usage_source raw_usage end;
         tu_cache_usage := normalize_cache status cache_read cache_write uncached';
         tu_provider_usage := raw |}
  end.
Definition normalize_token_usage (raw_usage : Value) : TokenUsage :=
  normalize_token_usage_with_hints raw_usage None None.

Example read_count_string : read_count (Some (Str " +42 ")) = Some 42%N.
Proof. reflexivity. Qed.
Example read_count_float : read_count (Some (Num (Float 4636737291354636288))) = Some 100%N.
Proof. reflexivity. Qed.

(** ** Lemmas *)

Lemma usage_source_roundtrip s : usage_source_from_value (Str (usage_source_str s)) = Some s.
Proof. by destruct s. Qed.
Lemma call_status_roundtrip s : call_status_from_value (Str (call_status_str s)) = Some s.
Proof. by destruct s. Qed.

Lemma cache_usage_wire c : cache_usage_from_value (cache_usage_to_value c) = Some c.
Proof. by destruct c as [[] [] [] [] []]. Qed.

(** The struct reader sees, field by field, the literal the writer built. *)
Lemma token_usage_wire u : token_usage_from_value (token_usage_to_value u) = Some u.
Proof.
  destruct u as [i o t r s c p]. unfold token_usage_from_value, token_usage_to_value.
  change token_usage_fields with (map fst [
    ("schema_version", Str TOKEN_USAGE_SCHEMA_VERSION); ("input_tokens", json_opt_u64 i);
    ("output_tokens", json_opt_u64 o); ("total_tokens", json_opt_u64 t);
    ("reasoning_tokens", json_opt_u64 r); ("usage_source", Str (usage_source_str s));
    ("cache_usage", cache_usage_to_value c); ("provider_usage", Object p)]).
  strict_struct_literal. cbn -[usage_source_from_value cache_usage_from_value].
  rewrite usage_source_roundtrip, cache_usage_wire. by destruct i, o, t, r.
Qed.

Lemma as_u32_value_json n : (n <= U32_MAX)%N -> as_u32_value (json_u64 n) = Some n.
Proof.
  intros H%N.leb_le. unfold as_u32_value, u32_try_from. cbn. by rewrite H.
Qed.
Lemma required_opt_str o : required_option as_str (Some (json_opt_str o)) = Some o.
Proof. by destruct o. Qed.

Lemma model_call_wire r :
  model_call_record_check r = Ok tt ->
  (mc_attempt r <= U32_MAX)%N -> (mc_cycle_index r <= U32_MAX)%N ->
  model_call_from_value (model_call_to_value r) = Some r.
Proof.
  intros Hv Ha Hc. unfold model_call_from_value, model_call_to_value.
  match goal with |- context [serde_strict_struct _ (json_object ?l)] =>
    change model_call_fields with (map fst l) end.
  strict_struct_literal. cbn [map snd mbind option_bind as_str].
  rewrite !as_u32_value_json, model_operation_roundtrip by done. cbn [mbind option_bind].
  rewrite call_status_roundtrip. cbn [mbind option_bind].
  rewrite token_usage_wire, required_opt_str. cbn [mbind option_bind].
  destruct r. cbn -[model_call_record_check]. by rewrite Hv.
Qed.

(** *** Sums *)

Lemma sum_from_snoc t l x : sum_from t (l ++ [x]) = add (sum_from t l) x.
Proof.
  revert t. induction l as [|[n|] l IH]; intros t; simpl.
  - destruct x as [n|]; simpl; [|done]. by destruct (checked_add t n).
  - by destruct (checked_add t n).
  - done.
Qed.

Lemma complete_sum_sum_from calls read :
  complete_sum calls read = sum_from 0 (map (fun c => read (mc_usage c)) calls).
Proof. by destruct calls. Qed.

Lemma complete_sum_snoc calls c read :
  complete_sum (calls ++ [c]) read = add (complete_sum calls read) (read (mc_usage c)).
Proof. rewrite !complete_sum_sum_from, map_app. apply sum_from_snoc. Qed.

Lemma forallb_status_neq (s s' : CacheUsageStatus) calls :
  s <> s' -> calls <> [] ->
  forallb (fun c => cu_status (call_cache c) =?? s) calls = true ->
  forallb (fun c => cu_status (call_cache c) =?? s') calls = false.
Proof.
  intros Hne Hnil Hs. destruct calls as [|c calls]; [done|]. cbn [forallb] in *.
  apply andb_true_iff in Hs as [Hs%bool_decide_eq_true _]. rewrite Hs.
  by rewrite (bool_decide_eq_false_2 _ Hne).
Qed.

Lemma aggregate_status_reported calls :
  aggregate_status calls = ProviderReported <->
  forallb (fun c => cu_status (call_cache c) =?? ProviderReported) calls = true.
Proof.
  unfold aggregate_status.
  destruct (forallb (fun c => cu_status (call_cache c) =?? ProviderReported) calls); [done|].
  by destruct (forallb _ calls).
Qed.

Lemma aggregate_status_unsupported calls :
  calls <> [] ->
  aggregate_status calls = UnsupportedCache <->
  forallb (fun c => cu_status (call_cache c) =?? UnsupportedCache) calls = true.
Proof.
  intros Hnil. unfold aggregate_status.
  destruct (forallb (fun c => cu_status (call_cache c) =?? ProviderReported) calls) eqn:HP.
  - rewrite (forallb_status_neq ProviderReported UnsupportedCache calls) by done.
    split; congruence.
  - clear HP. by destruct (forallb _ calls).
Qed.

(** The status of a ledger extended by one call. *)
Lemma aggregate_status_snoc calls c :
  calls <> [] ->
  aggregate_status (calls ++ [c]) =
    if (aggregate_status calls =?? ProviderReported)
       && (cu_status (call_cache c) =?? ProviderReported) then ProviderReported
    else if (aggregate_status calls =?? UnsupportedCache)
            && (cu_status (call_cache c) =?? UnsupportedCache) then UnsupportedCache
    else AccountingMissing.
Proof.
  intros Hnil.
  assert (HP : bool_decide (aggregate_status calls = ProviderReported) =
               forallb (fun c => cu_status (call_cache c) =?? ProviderReported) calls).
  { apply Bool.eq_iff_eq_true. rewrite bool_decide_eq_true. apply aggregate_status_reported. }
  assert (HU : bool_decide (aggregate_status calls = UnsupportedCache) =
               forallb (fun c => cu_status (call_cache c) =?? UnsupportedCache) calls).
  { apply Bool.eq_iff_eq_true. rewrite bool_decide_eq_true. by apply aggregate_status_unsupported. }
  rewrite HP, HU. unfold aggregate_status at 1. rewrite !forallb_app. cbn [forallb].
  by rewrite !andb_true_r.
Qed.

Lemma complete_cache_sum_snoc calls c read :
  complete_cache_sum ProviderReported (calls ++ [c]) read =
  add (complete_cache_sum ProviderReported calls read) (read (call_cache c)).
Proof. unfold complete_cache_sum. cbn. rewrite map_app. apply sum_from_snoc. Qed.

(** Appending a record to the totals of a non-empty ledger is recomputing
    them. *)
Lemma append_cache_snoc calls c :
  calls <> [] ->
  append_cache (aggregate_cache_usage calls) (call_cache c) false =
  aggregate_cache_usage (calls ++ [c]).
Proof.
  intros Hnil. pose proof (aggregate_status_snoc calls c Hnil) as Hst.
  assert (aggregate_cache_usage (calls ++ [c]) = let status := aggregate_status (calls ++ [c]) in
    {| cu_status := status;
       cu_read_input_tokens := complete_cache_sum status (calls ++ [c]) cu_read_input_tokens;
       cu_write_input_tokens := complete_cache_sum status (calls ++ [c]) cu_write_input_tokens;
       cu_uncached_input_tokens := complete_cache_sum status (calls ++ [c]) cu_uncached_input_tokens;
       cu_source := Some "aggregate" |}) as -> by by destruct calls.
  destruct calls as [|c0 calls]; [done|]. set (l := c0 :: calls) in *.
  change (aggregate_cache_usage l) with
    {| cu_status := aggregate_status l;
       cu_read_input_tokens := complete_cache_sum (aggregate_status l) l cu_read_input_tokens;
       cu_write_input_tokens := complete_cache_sum (aggregate_status l) l cu_write_input_tokens;
       cu_uncached_input_tokens := complete_cache_sum (aggregate_status l) l cu_uncached_input_tokens;
       cu_source := Some "aggregate" |}.
  unfold append_cache. cbn [cu_status cu_read_input_tokens cu_write_input_tokens
                            cu_uncached_input_tokens cu_source].
  rewrite Hst. clearbody l.
  destruct (aggregate_status l) eqn:Hl, (cu_status (call_cache c)) eqn:Hc; cbn;
    rewrite ?complete_cache_sum_snoc; done.
Qed.

(** A usage counts cache tokens only under a provider report, and every count
    is a [u64]. *)
Definition cache_wf (c : CacheUsage) : Prop :=
  (cu_status c <> ProviderReported ->
   cu_read_input_tokens c = None /\ cu_write_input_tokens c = None /\
   cu_uncached_input_tokens c = None).
Definition count_in_range (o : option N) : Prop := forall n, o = Some n -> (n <= U64_MAX)%N.
Definition cache_in_range (c : CacheUsage) : Prop :=
  count_in_range (cu_read_input_tokens c) /\ count_in_range (cu_write_input_tokens c) /\
  count_in_range (cu_uncached_input_tokens c).

Lemma sum_from_single o : count_in_range o -> sum_from 0 [o] = o.
Proof.
  intros Hr. destruct o as [n|]; [|done]. simpl. unfold checked_add. rewrite N.add_0_l.
  by rewrite (proj2 (N.leb_le _ _) (Hr n eq_refl)).
Qed.

Lemma append_cache_first c total :
  cache_wf (call_cache c) -> cache_in_range (call_cache c) ->
  append_cache total (call_cache c) true = aggregate_cache_usage [c].
Proof.
  intros Hwf (H1 & H2 & H3). unfold append_cache, aggregate_cache_usage, aggregate_status,
    complete_cache_sum. cbn [forallb map].
  rewrite !sum_from_single by done. destruct (call_cache c) as [[] r w u s]; cbn; [done| |].
  all: destruct Hwf as (Hr & Hw & Hu); [done|]; cbn in *; by subst.
Qed.

Lemma try_fold_snoc {A S} (f : S -> A -> result S) s l x :
  try_fold f s (l ++ [x]) = (let? s' := try_fold f s l in f s' x).
Proof.
  revert s. induction l as [|y l IH]; intros s; simpl; [by destruct (f s x)|].
  by destruct (f s y).
Qed.

Lemma totals_fold_snoc t n l r :
  totals_fold t n (l ++ [r]) =
  totals_append (totals_fold t n l) r (n + N.of_nat (length l) =? 0)%N.
Proof.
  revert t n. induction l as [|x l IH]; intros t n; simpl; [by rewrite N.add_0_r|].
  rewrite IH. f_equal. f_equal. lia.
Qed.

(** The ledger of distinct calls: no error, the calls in order, and every
    aggregate recomputed over all of them. *)
Lemma summarize_distinct calls :
  NoDup (map mc_call_id calls) ->
  summarize_task_token_usage calls = Ok
    {| tt_input_tokens := complete_sum calls tu_input_tokens;
       tt_output_tokens := complete_sum calls tu_output_tokens;
       tt_total_tokens := complete_sum calls tu_total_tokens;
       tt_reasoning_tokens := complete_sum calls tu_reasoning_tokens;
       tt_cache_usage := aggregate_cache_usage calls; tt_model_calls := calls |}.
Proof.
  induction calls as [|c calls IH] using rev_ind; [done|].
  rewrite map_app, NoDup_app. intros (Hnd & Hdis & _).
  unfold summarize_task_token_usage in *. rewrite try_fold_snoc, (IH Hnd).
  unfold add_model_call. cbn [tt_model_calls].
  destruct (existsb _ calls) eqn:Hex; [|done].
  apply existsb_exists in Hex as (x & Hx & Heq%String.eqb_eq). exfalso.
  apply (Hdis (mc_call_id x)); [|rewrite Heq; set_solver].
  apply list_elem_of_fmap. exists x. split; [done|]. by apply list_elem_of_In.
Qed.

Lemma totals_fold_cache calls :
  Forall (fun c => cache_wf (call_cache c)) calls ->
  Forall (fun c => cache_in_range (call_cache c)) calls ->
  totals_fold totals_default 0 calls =
  {| to_input_tokens := complete_sum calls tu_input_tokens;
     to_output_tokens := complete_sum calls tu_output_tokens;
     to_total_tokens := complete_sum calls tu_total_tokens;
     to_reasoning_tokens := complete_sum calls tu_reasoning_tokens;
     to_cache_usage := aggregate_cache_usage calls |}.
Proof.
  induction calls as [|c calls IH] using rev_ind; [done|].
  rewrite !Forall_app, !Forall_singleton. intros [Hw Hc] [Hr Hrc].
  rewrite totals_fold_snoc, (IH Hw Hr). unfold totals_append. cbn [to_input_tokens
    to_output_tokens to_total_tokens to_reasoning_tokens to_cache_usage].
  rewrite !complete_sum_snoc. f_equal. change (tu_cache_usage (mc_usage c)) with (call_cache c).
  destruct calls as [|c0 calls]; [by apply append_cache_first|].
  replace (0 + N.of_nat (length (c0 :: calls)) =? 0)%N with false
    by (symmetry; apply N.eqb_neq; cbn; lia).
  by apply append_cache_snoc.
Qed.

(** Whatever the payload and the hints, normalisation counts cache tokens only
    under a provider report. *)
Lemma normalize_cache_wf raw hint1 hint2 :
  cache_wf (tu_cache_usage (normalize_token_usage_with_hints raw hint1 hint2)).
Proof.
  unfold normalize_token_usage_with_hints. destruct (as_object raw) as [m|]; [|by intros _].
  unfold cache_wf, normalize_cache. cbn [tu_cache_usage cu_status cu_read_input_tokens
    cu_write_input_tokens cu_uncached_input_tokens].
  intros Hne. by rewrite (bool_decide_eq_false_2 _ Hne).
Qed.

(** ** Properties *)

(** The running totals the archive keeps are the totals of the ledger:
    for calls with distinct ids whose usage was normalised from any provider
    payload under any hints (counts being [u64]), summarising never fails and
    appending the calls one by one gives the totals recomputed from scratch. *)
Theorem totals_incremental (calls : list ModelCallRecord) :
  NoDup (map mc_call_id calls) ->
  Forall (fun c => exists raw s k, mc_usage c = normalize_token_usage_with_hints raw s k) calls ->
  Forall (fun c => cache_in_range (call_cache c)) calls ->
  exists summary, summarize_task_token_usage calls = Ok summary /\
    tt_model_calls summary = calls /\
    totals_fold totals_default 0 calls = totals_of summary.
Proof.
  intros Hnd Hnorm Hrange. eexists. split; [by apply summarize_distinct|]. split; [done|].
  rewrite totals_fold_cache; [done| |done].
  eapply Forall_impl; [exact Hnorm|]. intros c (raw & s & k & Hc). unfold call_cache.
  rewrite Hc. apply normalize_cache_wf.
Qed.

Definition sample_call (id : string) (raw : Value) : ModelCallRecord :=
  {| mc_call_id := id; mc_operation_id := "op"; mc_attempt := 1; mc_operation := AgentCycle;
     mc_cycle_index := 1; mc_backend := "b"; mc_model := "m"; mc_status := CompletedC;
     mc_usage := normalize_token_usage raw; mc_error_code := None |}.
Definition sample_usage : Value :=
  json_object [("prompt_tokens", json_u64 10); ("completion_tokens", json_u64 5);
               ("prompt_tokens_details", json_object [("cached_tokens", json_u64 4)])].
Definition sample_calls : list ModelCallRecord :=
  [sample_call "a" sample_usage; sample_call "b" sample_usage].

Lemma totals_incremental_witness :
  to_total_tokens (totals_fold totals_default 0 sample_calls) = Some 30%N /\
  exists summary, summarize_task_token_usage sample_calls = Ok summary /\
    tt_model_calls summary = sample_calls /\
    totals_fold totals_default 0 sample_calls = totals_of summary.
Proof.
  split; [reflexivity|]. apply totals_incremental.
  - apply (bool_decide_eq_true_1 _). vm_compute. reflexivity.
  - repeat constructor; by exists sample_usage, None, None.
  - repeat constructor; intros n Hn; vm_compute in Hn; simplify_eq; by vm_compute.
Defined.

(** A model-call record that passes its own checks and whose [u32]
    fields fit is read back from its wire form unchanged, and every record the
    strict reader returns passes the checks. *)
Theorem model_call_roundtrip (r : ModelCallRecord) :
  model_call_record_check r = Ok tt ->
  (mc_attempt r <= U32_MAX)%N -> (mc_cycle_index r <= U32_MAX)%N ->
  model_call_from_value (model_call_to_value r) = Some r /\
  (forall v r', model_call_from_value v = Some r' -> is_ok (model_call_record_check r') = true).
Proof.
  intros Hv Ha Hc. split; [by apply model_call_wire|].
  unfold model_call_from_value. intros v r' Hr. option_inv.
  destruct (is_ok _) eqn:Hok; by simplify_eq.
Qed.

Lemma model_call_roundtrip_witness :
  model_call_from_value (model_call_to_value (sample_call "a" sample_usage))
  = Some (sample_call "a" sample_usage).
Proof.
  refine (proj1 (model_call_roundtrip (sample_call "a" sample_usage) _ _ _));
    vm_compute; [reflexivity|discriminate..].
Defined.
