(* ===== verification/Budget.v ===== *)
(** * Run budgets

    [budget.rs]: the limits of a run, the usage snapshot persisted with the
    checkpoint and the [BudgetEvaluator] that meters a run at its enforcement
    boundaries.  The evaluator reads the monotonic clock and the host's cost
    meter; what they return at a boundary is the [Reading] argument of the
    operation. *)

From Stdlib Require Import Ascii String NArith ZArith Sorted Lia.
From stdpp Require Import base strings list sets.
From S2P Require Import Prelude Json Canonical CheckpointTypes Journal TokenUsage.

Inductive UnavailableMetricPolicy := ContinueAndMark | Stop.
Inductive BudgetDimension :=
| TotalTokens | UncachedInputTokens | ToolCalls | ToolCallsByName | WallTime | HostCostD.
Inductive BudgetEnforcementBoundary :=
| RunStart | CycleStart | ModelCallComplete | ToolBatchPreflight | ToolBatchComplete | Terminal.
Inductive BudgetExhaustionReason := LimitReached | LimitExceeded | MetricUnavailable.
Inductive BudgetUnavailableReason :=
| AccountingMissingB | UsageMissing | MeterMissing | MeterUnavailable | MeterError
| UnitMismatch | CurrencyMismatch | NonMonotonic | IntegerOverflow.
#[global] Instance policy_eq_dec : EqDecision UnavailableMetricPolicy.
Proof. solve_decision. Defined.
#[global] Instance BudgetDimension_eq_dec : EqDecision BudgetDimension.
Proof. solve_decision. Defined.
#[global] Instance boundary_eq_dec : EqDecision BudgetEnforcementBoundary.
Proof. solve_decision. Defined.
#[global] Instance exhaustion_reason_eq_dec : EqDecision BudgetExhaustionReason.
Proof. solve_decision. Defined.
#[global] Instance unavailable_reason_eq_dec : EqDecision BudgetUnavailableReason.
Proof. solve_decision. Defined.

Definition validate_wire_integer (value : N) : result unit :=
  if (value <=? MAX_WIRE_INTEGER)%N then Ok tt else Err "wire_integer".
Definition validate_non_empty (value : string) : result unit :=
  if trim_is_empty value then Err "non_empty" else Ok tt.

Record HostCost := {
  hc_unit : string;
  hc_currency : option string;
  hc_amount_microunits : N
}.
#[global] Instance HostCost_eq_dec : EqDecision HostCost.
Proof. solve_decision. Defined.

Definition host_cost_validate (c : HostCost) : result unit :=
  do? validate_non_empty (hc_unit c) ;;
  do? check_opt validate_non_empty (hc_currency c) ;;
  validate_wire_integer (hc_amount_microunits c).

Record BudgetUnavailableDimension := {
  ud_dimension : BudgetDimension;
  ud_reason : BudgetUnavailableReason;
  ud_expected_unit : option string;
  ud_observed_unit : option string;
  ud_expected_currency : option string;
  ud_observed_currency : option string
}.
#[global] Instance unavailable_eq_dec : EqDecision BudgetUnavailableDimension.
Proof. solve_decision. Defined.

Definition unavailable_validate (u : BudgetUnavailableDimension) : result unit :=
  try_for_each (check_opt validate_non_empty)
    [ud_expected_unit u; ud_observed_unit u; ud_expected_currency u; ud_observed_currency u].

Record RunBudgetLimits := {
  max_total_tokens : option N;
  max_uncached_input_tokens : option N;
  max_tool_calls : option N;
  max_tool_calls_by_name : list (string * N);
  max_wall_time_ms : option N;
  max_host_cost : option HostCost;
  unavailable_metric_policy : UnavailableMetricPolicy
}.

Definition has_limits (l : RunBudgetLimits) : bool :=
  is_some (max_total_tokens l) || is_some (max_uncached_input_tokens l)
  || is_some (max_tool_calls l) || negb (bool_decide (max_tool_calls_by_name l = []))
  || is_some (max_wall_time_ms l) || is_some (max_host_cost l).

Definition validate_named_count (kv : string * N) : result unit :=
  do? validate_non_empty kv.1 ;; validate_wire_integer kv.2.

Definition limits_validate (l : RunBudgetLimits) : result unit :=
  do? try_for_each (check_opt validate_wire_integer)
        [max_total_tokens l; max_uncached_input_tokens l; max_tool_calls l; max_wall_time_ms l] ;;
  do? try_for_each validate_named_count (max_tool_calls_by_name l) ;;
  check_opt host_cost_validate (max_host_cost l).

Record BudgetUsageSnapshot := {
  us_cycles : N;
  us_total_tokens : option N;
  us_uncached_input_tokens : option N;
  us_tool_calls : N;
  us_tool_calls_by_name : list (string * N);
  us_elapsed_ms : N;
  us_host_cost : option HostCost;
  us_unavailable_dimensions : list BudgetUnavailableDimension
}.
#[global] Instance BudgetUsageSnapshot_eq_dec : EqDecision BudgetUsageSnapshot.
Proof. solve_decision. Defined.

Definition usage_default : BudgetUsageSnapshot :=
  {| us_cycles := 0; us_total_tokens := Some 0%N; us_uncached_input_tokens := Some 0%N;
     us_tool_calls := 0; us_tool_calls_by_name := []; us_elapsed_ms := 0; us_host_cost := None;
     us_unavailable_dimensions := [] |}.

(** The derived order of the enum. *)
Definition dimension_rank (d : BudgetDimension) : nat :=
  match d with
  | TotalTokens => 0 | UncachedInputTokens => 1 | ToolCalls => 2 | ToolCallsByName => 3
  | WallTime => 4 | HostCostD => 5
  end.
(** [Vec::dedup]: consecutive repetitions. *)
Fixpoint dedup_dimensions (l : list BudgetDimension) : list BudgetDimension :=
  match l with
  | x :: ((y :: _) as r) => if x =?? y then dedup_dimensions r else x :: dedup_dimensions r
  | _ => l
  end.

Definition usage_validate (u : BudgetUsageSnapshot) : result unit :=
  do? validate_wire_integer (us_cycles u) ;;
  do? check_opt validate_wire_integer (us_total_tokens u) ;;
  do? check_opt validate_wire_integer (us_uncached_input_tokens u) ;;
  do? validate_wire_integer (us_tool_calls u) ;;
  do? validate_wire_integer (us_elapsed_ms u) ;;
  do? try_for_each validate_named_count (us_tool_calls_by_name u) ;;
  do? check_opt host_cost_validate (us_host_cost u) ;;
  let dimensions := dedup_dimensions
    (stable_sort (fun a b => dimension_rank a <=? dimension_rank b)%nat
       (map ud_dimension (us_unavailable_dimensions u))) in
  fail_if (negb (length dimensions =? length (us_unavailable_dimensions u))%nat)
  with "budget unavailable dimensions must be unique" ;;
  try_for_each unavailable_validate (us_unavailable_dimensions u).

Record BudgetExhaustion := {
  ex_dimension : BudgetDimension;
  ex_tool_name : option string;
  ex_reason : BudgetExhaustionReason;
  ex_limit : N;
  ex_observed : option N;
  ex_attempted_increment : option N;
  ex_overshoot : option N;
  ex_unit : string;
  ex_currency : option string;
  ex_enforcement_boundary : BudgetEnforcementBoundary;
  ex_unavailable_reason : option BudgetUnavailableReason
}.

Definition exhaustion_validate (e : BudgetExhaustion) : result unit :=
  do? validate_wire_integer (ex_limit e) ;;
  do? try_for_each (check_opt validate_wire_integer)
        [ex_observed e; ex_attempted_increment e; ex_overshoot e] ;;
  do? validate_non_empty (ex_unit e) ;;
  do? check_opt validate_non_empty (ex_tool_name e) ;;
  check_opt validate_non_empty (ex_currency e).

(** ** The evaluator *)

(** [BTreeMap<BudgetDimension, _>]: entries in the order of the key. *)
Abbreviation unavailable_map := (list BudgetUnavailableDimension).
Fixpoint unavailable_get (d : BudgetDimension) (m : unavailable_map)
    : option BudgetUnavailableDimension :=
  match m with
  | [] => None
  | u :: r => if ud_dimension u =?? d then Some u else unavailable_get d r
  end.
Fixpoint unavailable_insert (u : BudgetUnavailableDimension) (m : unavailable_map) : unavailable_map :=
  match m with
  | [] => [u]
  | u' :: r =>
      match Nat.compare (dimension_rank (ud_dimension u)) (dimension_rank (ud_dimension u')) with
      | Lt => u :: m
      | Eq => u :: r
      | Gt => u' :: unavailable_insert u r
      end
  end.

Record BudgetEvaluator := {
  be_limits : RunBudgetLimits;
  be_has_meter : bool;
  be_started_ns : N;
  be_cycles : N;
  be_total_tokens : option N;
  be_uncached_input_tokens : option N;
  be_tool_calls : N;
  be_tool_calls_by_name : list (string * N);
  be_base_elapsed_ms : N;
  be_elapsed_ms : N;
  be_host_cost : option HostCost;
  be_unavailable : unavailable_map
}.

Definition evaluator_eta (e : BudgetEvaluator) : BudgetEvaluator :=
  {| be_limits := be_limits e; be_has_meter := be_has_meter e; be_started_ns := be_started_ns e;
     be_cycles := be_cycles e; be_total_tokens := be_total_tokens e;
     be_uncached_input_tokens := be_uncached_input_tokens e; be_tool_calls := be_tool_calls e;
     be_tool_calls_by_name := be_tool_calls_by_name e; be_base_elapsed_ms := be_base_elapsed_ms e;
     be_elapsed_ms := be_elapsed_ms e; be_host_cost := be_host_cost e;
     be_unavailable := be_unavailable e |}.
Definition set_cycles (e : BudgetEvaluator) (v : N) : BudgetEvaluator :=
  ltac:(set_field evaluator_eta be_cycles e v).
Definition set_total_tokens (e : BudgetEvaluator) (v : option N) : BudgetEvaluator :=
  ltac:(set_field evaluator_eta be_total_tokens e v).
Definition set_uncached (e : BudgetEvaluator) (v : option N) : BudgetEvaluator :=
  ltac:(set_field evaluator_eta be_uncached_input_tokens e v).
Definition set_tool_calls (e : BudgetEvaluator) (v : N) : BudgetEvaluator :=
  ltac:(set_field evaluator_eta be_tool_calls e v).
Definition set_tool_calls_by_name (e : BudgetEvaluator) (v : list (string * N)) : BudgetEvaluator :=
  ltac:(set_field evaluator_eta be_tool_calls_by_name e v).
Definition set_elapsed_ms (e : BudgetEvaluator) (v : N) : BudgetEvaluator :=
  ltac:(set_field evaluator_eta be_elapsed_ms e v).
Definition set_host_cost (e : BudgetEvaluator) (v : option HostCost) : BudgetEvaluator :=
  ltac:(set_field evaluator_eta be_host_cost e v).
Definition set_unavailable (e : BudgetEvaluator) (v : unavailable_map) : BudgetEvaluator :=
  ltac:(set_field evaluator_eta be_unavailable e v).

(** What the clock and the meter return when the evaluator consults them. *)
Record Reading := { rd_now_ns : N; rd_meter : result (option HostCost) }.

Definition with_clock (limits : RunBudgetLimits) (has_meter : bool)
    (initial_usage : option BudgetUsageSnapshot) (now_ns : N) : result BudgetEvaluator :=
  do? limits_validate limits ;;
  fail_if (negb (has_limits limits)) with "BudgetEvaluator requires at least one configured limit" ;;
  let usage := unwrap_or initial_usage usage_default in
  do? usage_validate usage ;;
  Ok {| be_limits := limits; be_has_meter := has_meter; be_started_ns := now_ns;
        be_cycles := us_cycles usage; be_total_tokens := us_total_tokens usage;
        be_uncached_input_tokens := us_uncached_input_tokens usage;
        be_tool_calls := us_tool_calls usage;
        be_tool_calls_by_name := us_tool_calls_by_name usage;
        be_base_elapsed_ms := us_elapsed_ms usage; be_elapsed_ms := us_elapsed_ms usage;
        be_host_cost := us_host_cost usage;
        be_unavailable := foldl (fun m u => unavailable_insert u m) []
                                (us_unavailable_dimensions usage) |}.

Definition DIMENSION_PRECEDENCE : list BudgetDimension :=
  [WallTime; TotalTokens; UncachedInputTokens; HostCostD; ToolCalls; ToolCallsByName].
(** The [expect] never fires: every dimension is listed. *)
Definition dimension_precedence (d : BudgetDimension) : nat :=
  unwrap_or (position (fun candidate => candidate =?? d) DIMENSION_PRECEDENCE) 0%nat.

Definition snapshot (e : BudgetEvaluator) : BudgetUsageSnapshot :=
  {| us_cycles := be_cycles e; us_total_tokens := be_total_tokens e;
     us_uncached_input_tokens := be_uncached_input_tokens e; us_tool_calls := be_tool_calls e;
     us_tool_calls_by_name := be_tool_calls_by_name e; us_elapsed_ms := be_elapsed_ms e;
     us_host_cost := be_host_cost e;
     us_unavailable_dimensions :=
       stable_sort (fun a b => (dimension_precedence (ud_dimension a)
                                <=? dimension_precedence (ud_dimension b))%nat)
                   (be_unavailable e) |}.

(** [entry(dimension).or_insert_with(..)]: the first reason is kept. *)
Definition latch_unavailable (e : BudgetEvaluator) (dimension : BudgetDimension)
    (reason : BudgetUnavailableReason)
    (expected_unit observed_unit expected_currency observed_currency : option string)
    : BudgetEvaluator :=
  match unavailable_get dimension (be_unavailable e) with
  | Some _ => e
  | None =>
      set_unavailable e (unavailable_insert
        {| ud_dimension := dimension; ud_reason := reason; ud_expected_unit := expected_unit;
           ud_observed_unit := observed_unit; ud_expected_currency := expected_currency;
           ud_observed_currency := observed_currency |} (be_unavailable e))
  end.

Definition latch_host_unavailable (e : BudgetEvaluator) (limit : HostCost)
    (reason : BudgetUnavailableReason) (reading : option HostCost) : BudgetEvaluator :=
  latch_unavailable e HostCostD reason (Some (hc_unit limit)) (hc_unit <$> reading)
    (hc_currency limit) (r ← reading; hc_currency r).

Definition is_unavailable (e : BudgetEvaluator) (d : BudgetDimension) : bool :=
  is_some (unavailable_get d (be_unavailable e)).

Definition observe_elapsed (e : BudgetEvaluator) (now_ns : N) : BudgetEvaluator :=
  if is_unavailable e WallTime then e
  else
    let delta_ns := saturating_sub now_ns (be_started_ns e) in
    let elapsed_ms := (be_base_elapsed_ms e + delta_ns / 1000000)%N in
    if (MAX_WIRE_INTEGER <? elapsed_ms)%N then
      latch_unavailable e WallTime IntegerOverflow (Some "milliseconds") None None None
    else set_elapsed_ms e (N.max (be_elapsed_ms e) elapsed_ms).

Definition observe_host_cost (e : BudgetEvaluator) (meter : result (option HostCost))
    : BudgetEvaluator :=
  match max_host_cost (be_limits e) with
  | None => e
  | Some limit =>
      if is_unavailable e HostCostD then e
      else if negb (be_has_meter e) then latch_host_unavailable e limit MeterMissing None
      else match meter with
      | Ok None => latch_host_unavailable e limit MeterUnavailable None
      | Err _ => latch_host_unavailable e limit MeterError None
      | Ok (Some reading) =>
          if negb (is_ok (host_cost_validate reading)) then
            latch_host_unavailable e limit MeterError None
          else if negb (String.eqb (hc_unit reading) (hc_unit limit)) then
            latch_host_unavailable e limit UnitMismatch (Some reading)
          else if hc_currency reading <>?? hc_currency limit then
            latch_host_unavailable e limit CurrencyMismatch (Some reading)
          else if is_some_and (be_host_cost e) (fun previous =>
                    (hc_amount_microunits reading <? hc_amount_microunits previous)%N) then
            latch_host_unavailable (set_host_cost e None) limit NonMonotonic (Some reading)
          else set_host_cost e (Some reading)
      end
  end.

Definition observe_boundary (e : BudgetEvaluator) (r : Reading) : BudgetEvaluator :=
  observe_host_cost (observe_elapsed e (rd_now_ns r)) (rd_meter r).

Definition safe_add_or_latch (e : BudgetEvaluator) (dimension : BudgetDimension)
    (current increment : N) (expected_unit : string) : BudgetEvaluator * option N :=
  match checked_add current increment with
  | Some total =>
      if (total <=? MAX_WIRE_INTEGER)%N then (e, Some total)
      else (latch_unavailable e dimension IntegerOverflow (Some expected_unit) None None None, None)
  | None => (latch_unavailable e dimension IntegerOverflow (Some expected_unit) None None None, None)
  end.

Definition observe_total (e : BudgetEvaluator) (usage : TokenUsage) : BudgetEvaluator :=
  let reported := match tu_usage_source usage with
                  | ProviderReportedU | Estimated => true | AccountingMissingU => false end in
  if negb reported || is_none (tu_total_tokens usage) then
    latch_unavailable (set_total_tokens e None) TotalTokens UsageMissing (Some "tokens") None None None
  else match be_total_tokens e, tu_total_tokens usage with
  | Some current, Some increment =>
      let (e', total) := safe_add_or_latch e TotalTokens current increment "tokens" in
      set_total_tokens e' total
  | _, _ => e
  end.

Definition observe_uncached (e : BudgetEvaluator) (usage : TokenUsage) : BudgetEvaluator :=
  let uncached := if cu_status (tu_cache_usage usage) =?? ProviderReported
                  then cu_uncached_input_tokens (tu_cache_usage usage) else None in
  match uncached with
  | Some increment =>
      match be_uncached_input_tokens e with
      | Some current =>
          let (e', total) := safe_add_or_latch e UncachedInputTokens current increment "tokens" in
          set_uncached e' total
      | None => e
      end
  | None =>
      latch_unavailable (set_uncached e None) UncachedInputTokens UsageMissing (Some "tokens")
        None None None
  end.

Definition observe_token_usage (e : BudgetEvaluator) (usage : TokenUsage) : BudgetEvaluator :=
  observe_uncached (observe_total e usage) usage.

Definition limit_descriptor (e : BudgetEvaluator) (d : BudgetDimension)
    : option (N * string * option string) :=
  let l := be_limits e in
  match d with
  | TotalTokens => (fun limit => (limit, "tokens", None)) <$> max_total_tokens l
  | UncachedInputTokens => (fun limit => (limit, "tokens", None)) <$> max_uncached_input_tokens l
  | ToolCalls => (fun limit => (limit, "calls", None)) <$> max_tool_calls l
  | WallTime => (fun limit => (limit, "milliseconds", None)) <$> max_wall_time_ms l
  | HostCostD =>
      (fun cost => (hc_amount_microunits cost, hc_unit cost, hc_currency cost)) <$> max_host_cost l
  | ToolCallsByName => None
  end.

Definition observed_value (e : BudgetEvaluator) (d : BudgetDimension) : option N :=
  match d with
  | TotalTokens => be_total_tokens e
  | UncachedInputTokens => be_uncached_input_tokens e
  | ToolCalls => Some (be_tool_calls e)
  | WallTime => Some (be_elapsed_ms e)
  | HostCostD => hc_amount_microunits <$> be_host_cost e
  | ToolCallsByName => None
  end.

Definition strict_unavailable (e : BudgetEvaluator) (boundary : BudgetEnforcementBoundary)
    : option BudgetExhaustion :=
  if unavailable_metric_policy (be_limits e) <>?? Stop then None
  else find_map (fun dimension =>
    unavailable ← unavailable_get dimension (be_unavailable e);
    '(limit, unit, currency) ← limit_descriptor e dimension;
    Some {| ex_dimension := dimension; ex_tool_name := None; ex_reason := MetricUnavailable;
            ex_limit := limit; ex_observed := None; ex_attempted_increment := None;
            ex_overshoot := None; ex_unit := unit; ex_currency := currency;
            ex_enforcement_boundary := boundary;
            ex_unavailable_reason := Some (ud_reason unavailable) |}) DIMENSION_PRECEDENCE.

Definition contains (l : list BudgetDimension) (d : BudgetDimension) : bool :=
  existsb (fun x => x =?? d) l.

Definition check_admission_limits (e : BudgetEvaluator) (boundary : BudgetEnforcementBoundary)
    (dimensions : list BudgetDimension) : option BudgetExhaustion :=
  find_map (fun dimension =>
    if negb (contains dimensions dimension) || is_unavailable e dimension then None
    else
      '(limit, unit, currency) ← limit_descriptor e dimension;
      observed ← observed_value e dimension;
      if (limit <=? observed)%N then
        Some {| ex_dimension := dimension; ex_tool_name := None; ex_reason := LimitReached;
                ex_limit := limit; ex_observed := Some observed; ex_attempted_increment := None;
                ex_overshoot := Some (saturating_sub observed limit); ex_unit := unit;
                ex_currency := currency; ex_enforcement_boundary := boundary;
                ex_unavailable_reason := None |}
      else None) DIMENSION_PRECEDENCE.

Definition check_exceeded_limits (e : BudgetEvaluator) (boundary : BudgetEnforcementBoundary)
    (dimensions : list BudgetDimension) : option BudgetExhaustion :=
  find_map (fun dimension =>
    if negb (contains dimensions dimension) || is_unavailable e dimension then None
    else
      '(limit, unit, currency) ← limit_descriptor e dimension;
      observed ← observed_value e dimension;
      if (limit <? observed)%N then
        Some {| ex_dimension := dimension; ex_tool_name := None; ex_reason := LimitExceeded;
                ex_limit := limit; ex_observed := Some observed; ex_attempted_increment := None;
                ex_overshoot := Some (observed - limit)%N; ex_unit := unit;
                ex_currency := currency; ex_enforcement_boundary := boundary;
                ex_unavailable_reason := None |}
      else None) DIMENSION_PRECEDENCE.

(** ** Boundaries: each returns the evaluator and the exhaustion it reports *)

Definition run_start (e : BudgetEvaluator) (r : Reading) : BudgetEvaluator * option BudgetExhaustion :=
  let e := observe_boundary e r in
  (e, or_else (strict_unavailable e RunStart)
              (check_admission_limits e RunStart [WallTime; HostCostD])).

Definition model_call_start (e : BudgetEvaluator) (r : Reading)
    : BudgetEvaluator * option BudgetExhaustion :=
  let e := observe_boundary e r in
  (e, or_else (strict_unavailable e CycleStart)
              (check_admission_limits e CycleStart
                 [WallTime; TotalTokens; UncachedInputTokens; HostCostD])).

Definition cycle_start (e : BudgetEvaluator) (r : Reading)
    : BudgetEvaluator * option BudgetExhaustion :=
  let (e, exhaustion) := model_call_start e r in
  (if is_none exhaustion then set_cycles e (saturating_add (be_cycles e) 1) else e, exhaustion).

Definition model_call_complete (e : BudgetEvaluator) (usage : TokenUsage) (r : Reading)
    : BudgetEvaluator * option BudgetExhaustion :=
  let e := observe_boundary (observe_token_usage e usage) r in
  (e, or_else (strict_unavailable e ModelCallComplete)
              (check_exceeded_limits e ModelCallComplete
                 [WallTime; TotalTokens; UncachedInputTokens; HostCostD])).

Definition count_preflight_exhaustion (dimension : BudgetDimension) (tool_name : option string)
    (limit observed attempted_increment : N) (boundary : BudgetEnforcementBoundary)
    : BudgetExhaustion :=
  {| ex_dimension := dimension; ex_tool_name := tool_name; ex_reason := LimitReached;
     ex_limit := limit; ex_observed := Some observed;
     ex_attempted_increment := Some attempted_increment;
     ex_overshoot := Some (saturating_sub (saturating_add observed attempted_increment) limit);
     ex_unit := "calls"; ex_currency := None; ex_enforcement_boundary := boundary;
     ex_unavailable_reason := None |}.

Definition count_of (name : string) (m : list (string * N)) : N := unwrap_or (map_get name m) 0%N.

(** [*batch_by_name.entry(name).or_default() += 1]. *)
Definition batch_by_name (tool_names : list string) : list (string * N) :=
  foldl (fun m name => map_insert name (count_of name m + 1)%N m) [] tool_names.

(** The per-name check, in the order of the limit map. *)
Definition named_exhaustion (e : BudgetEvaluator) (batch : list (string * N))
    : option BudgetExhaustion :=
  find_map (fun '(name, limit) =>
    let increment := count_of name batch in
    if (increment =? 0)%N then None
    else
      let observed := count_of name (be_tool_calls_by_name e) in
      if (limit <? saturating_add observed increment)%N then
        Some (count_preflight_exhaustion ToolCallsByName (Some name) limit observed increment
                ToolBatchPreflight)
      else None) (max_tool_calls_by_name (be_limits e)).

Definition total_exhaustion (e : BudgetEvaluator) (increment : N) : option BudgetExhaustion :=
  limit ← max_tool_calls (be_limits e);
  if (limit <? saturating_add (be_tool_calls e) increment)%N then
    Some (count_preflight_exhaustion ToolCalls None limit (be_tool_calls e) increment
            ToolBatchPreflight)
  else None.

Definition add_batch (counts batch : list (string * N)) : list (string * N) :=
  foldl (fun m '(name, increment) =>
           map_insert name (saturating_add (count_of name m) increment) m) counts batch.

Definition preflight_tools (e : BudgetEvaluator) (tool_names : list string) (r : Reading)
    : BudgetEvaluator * option BudgetExhaustion :=
  let e := observe_boundary e r in
  match or_else (strict_unavailable e ToolBatchPreflight)
                (check_admission_limits e ToolBatchPreflight [WallTime; HostCostD]) with
  | Some exhaustion => (e, Some exhaustion)
  | None =>
      let increment := N.of_nat (length tool_names) in
      match total_exhaustion e increment with
      | Some exhaustion => (e, Some exhaustion)
      | None =>
          let batch := batch_by_name tool_names in
          match named_exhaustion e batch with
          | Some exhaustion => (e, Some exhaustion)
          | None =>
              let e := set_tool_calls e (saturating_add (be_tool_calls e) increment) in
              (set_tool_calls_by_name e (add_batch (be_tool_calls_by_name e) batch), None)
          end
      end
  end.

Definition tool_batch_complete (e : BudgetEvaluator) (operation_failed : bool) (r : Reading)
    : BudgetEvaluator * option BudgetExhaustion :=
  let e := observe_boundary e r in
  if operation_failed then (e, None)
  else (e, or_else (strict_unavailable e ToolBatchComplete)
                   (check_exceeded_limits e ToolBatchComplete [WallTime; HostCostD])).

Definition terminal (e : BudgetEvaluator) (r : Reading)
    : BudgetEvaluator * option BudgetExhaustion :=
  let e := observe_boundary e r in
  (e, or_else (strict_unavailable e Terminal)
              (check_exceeded_limits e Terminal DIMENSION_PRECEDENCE)).

(** ** The run as a state machine

    A metered run is a sequence of boundaries, each with the readings it
    observes; [budget_step e op x e'] is one of them, [x] being the exhaustion
    it reports. *)
Inductive BudgetOp :=
| OpRunStart | OpModelCallStart | OpCycleStart | OpModelCallComplete (usage : TokenUsage)
| OpPreflight (tool_names : list string) | OpToolBatchComplete (operation_failed : bool)
| OpTerminal.

Definition apply_op (e : BudgetEvaluator) (op : BudgetOp) (r : Reading)
    : BudgetEvaluator * option BudgetExhaustion :=
  match op with
  | OpRunStart => run_start e r
  | OpModelCallStart => model_call_start e r
  | OpCycleStart => cycle_start e r
  | OpModelCallComplete usage => model_call_complete e usage r
  | OpPreflight names => preflight_tools e names r
  | OpToolBatchComplete failed => tool_batch_complete e failed r
  | OpTerminal => terminal e r
  end.

Inductive budget_step (e : BudgetEvaluator)
    : BudgetOp -> option BudgetExhaustion -> BudgetEvaluator -> Prop :=
| step_op op r : budget_step e op (apply_op e op r).2 (apply_op e op r).1.

Inductive budget_run (e : BudgetEvaluator) : BudgetEvaluator -> Prop :=
| run_nil : budget_run e e
| run_snoc op x e1 e2 : budget_run e e1 -> budget_step e1 op x e2 -> budget_run e e2.

(** *** What an observation may change *)

(** Everything but the metered quantities an observation refreshes. *)
Definition counters_eq (e e' : BudgetEvaluator) : Prop :=
  be_limits e' = be_limits e /\ be_has_meter e' = be_has_meter e /\
  be_tool_calls e' = be_tool_calls e /\ be_tool_calls_by_name e' = be_tool_calls_by_name e /\
  be_cycles e' = be_cycles e.

#[global] Instance counters_eq_refl : Reflexive counters_eq.
Proof. done. Qed.
#[global] Instance counters_eq_trans : Transitive counters_eq.
Proof. unfold counters_eq. intros a b c. naive_solver congruence. Qed.

Lemma latch_counters e d r a b c x : counters_eq e (latch_unavailable e d r a b c x).
Proof. unfold latch_unavailable. by destruct (unavailable_get _ _). Qed.
#[export] Hint Resolve latch_counters : vv.

Lemma observe_elapsed_counters e now : counters_eq e (observe_elapsed e now).
Proof.
  unfold observe_elapsed. destruct (is_unavailable _ _); [done|].
  destruct (_ <? _)%N; [apply latch_counters|done].
Qed.

Lemma observe_host_cost_counters e m : counters_eq e (observe_host_cost e m).
Proof.
  unfold observe_host_cost, latch_host_unavailable.
  destruct (max_host_cost _); [|done]. destruct (is_unavailable _ _); [done|].
  destruct (negb _); [apply latch_counters|].
  destruct m as [[reading|]|]; try apply latch_counters.
  repeat (case_match; try apply latch_counters); try done.
  by transitivity (set_host_cost e None); [|apply latch_counters].
Qed.

Lemma observe_boundary_counters e r : counters_eq e (observe_boundary e r).
Proof.
  unfold observe_boundary. etransitivity; [apply observe_elapsed_counters|].
  apply observe_host_cost_counters.
Qed.

Lemma safe_add_counters e d c i u : counters_eq e (safe_add_or_latch e d c i u).1.
Proof.
  unfold safe_add_or_latch. destruct (checked_add c i); [|apply latch_counters].
  destruct (_ <=? _)%N; [done|apply latch_counters].
Qed.

Lemma observe_token_usage_counters e u : counters_eq e (observe_token_usage e u).
Proof.
  unfold observe_token_usage. transitivity (observe_total e u).
  - unfold observe_total. destruct (_ || _).
    + by transitivity (set_total_tokens e None); [|apply latch_counters].
    + destruct (be_total_tokens e), (tu_total_tokens u); try done.
      pose proof (safe_add_counters e TotalTokens n n0 "tokens") as Hc.
      by destruct (safe_add_or_latch _ _ _ _ _).
  - generalize (observe_total e u). intros e'. unfold observe_uncached.
    destruct (if _ =?? _ then _ else _).
    + destruct (be_uncached_input_tokens e') as [m|]; [|done].
      pose proof (safe_add_counters e' UncachedInputTokens m n "tokens") as Hc.
      by destruct (safe_add_or_latch _ _ _ _ _).
    + by transitivity (set_uncached e' None); [|apply latch_counters].
Qed.

(** *** Counting tools *)

Definition occurrences (name : string) (l : list string) : N :=
  N.of_nat (length (filter (fun x => x = name) l)).

Lemma batch_snoc l x :
  batch_by_name (l ++ [x]) =
  map_insert x (count_of x (batch_by_name l) + 1)%N (batch_by_name l).
Proof. unfold batch_by_name. by rewrite foldl_app. Qed.

Lemma batch_count name l : count_of name (batch_by_name l) = occurrences name l.
Proof.
  unfold occurrences. induction l as [|x l IH] using rev_ind; [done|].
  rewrite batch_snoc. unfold count_of at 1. rewrite map_get_insert, filter_app, length_app.
  destruct (String.eqb_spec name x) as [->|Hne].
  - rewrite IH, filter_cons_True by done. cbn. lia.
  - rewrite filter_cons_False by congruence. cbn. fold (count_of name (batch_by_name l)). lia.
Qed.

Lemma batch_wf l : map_wf (batch_by_name l).
Proof.
  induction l as [|x l IH] using rev_ind; [constructor|].
  rewrite batch_snoc. by apply map_insert_wf.
Qed.

Lemma batch_keys name l : map_contains_key name (batch_by_name l) = true <-> name ∈ l.
Proof.
  rewrite map_contains_key_spec. induction l as [|x l IH] using rev_ind; [done|].
  rewrite batch_snoc, map_keys_insert, IH. set_solver.
Qed.

Lemma add_batch_count name counts batch :
  NoDup (map_keys batch) ->
  count_of name (add_batch counts batch) =
    match map_get name batch with
    | Some n => saturating_add (count_of name counts) n
    | None => count_of name counts
    end.
Proof.
  unfold add_batch. revert counts. induction batch as [|[k n] batch IH]; intros counts Hnd; [done|].
  inversion Hnd as [|? ? Hnotin Hnd']; subst. simpl. rewrite IH by done.
  assert (Hk : map_get k batch = None).
  { destruct (map_get k batch) eqn:Hv; [|done]. exfalso. apply Hnotin, map_contains_key_spec.
    unfold map_contains_key. by rewrite Hv. }
  unfold count_of. rewrite !map_get_insert. destruct (String.eqb_spec name k) as [->|]; [|done].
  by rewrite Hk.
Qed.

(** *** The tool budget *)

Definition within_tool_limits (e : BudgetEvaluator) : Prop :=
  (forall limit, max_tool_calls (be_limits e) = Some limit -> (be_tool_calls e <= limit)%N) /\
  (forall name limit, (name, limit) ∈ max_tool_calls_by_name (be_limits e) ->
     (count_of name (be_tool_calls_by_name e) <= limit)%N).

Lemma within_counters e e' : counters_eq e e' -> within_tool_limits e -> within_tool_limits e'.
Proof.
  intros (Hl & _ & Ht & Hn & _) [H1 H2]. split; rewrite Hl, ?Ht, ?Hn; done.
Qed.

(** What a preflight that admits the batch does to the counters. *)
Lemma preflight_admitted e names r :
  (preflight_tools e names r).2 = None ->
  let e' := (preflight_tools e names r).1 in
  be_limits e' = be_limits e /\
  be_tool_calls e' = saturating_add (be_tool_calls e) (N.of_nat (length names)) /\
  be_tool_calls_by_name e' = add_batch (be_tool_calls_by_name e) (batch_by_name names) /\
  total_exhaustion (observe_boundary e r) (N.of_nat (length names)) = None /\
  named_exhaustion (observe_boundary e r) (batch_by_name names) = None.
Proof.
  unfold preflight_tools.
  destruct (observe_boundary_counters e r) as (Hl & _ & Ht & Hn & _).
  destruct (or_else _ _); [done|].
  destruct (total_exhaustion _ _) eqn:Htot; [done|].
  destruct (named_exhaustion _ _) eqn:Hnam; [done|]. cbn. by rewrite Ht, Hn.
Qed.

Lemma preflight_rejected e names r x :
  (preflight_tools e names r).2 = Some x -> counters_eq e (preflight_tools e names r).1.
Proof.
  unfold preflight_tools. pose proof (observe_boundary_counters e r) as Hc.
  destruct (or_else _ _); [done|]. destruct (total_exhaustion _ _); [done|].
  by destruct (named_exhaustion _ _).
Qed.

Lemma total_exhaustion_None e n limit :
  total_exhaustion e n = None -> max_tool_calls (be_limits e) = Some limit ->
  (saturating_add (be_tool_calls e) n <= limit)%N.
Proof.
  unfold total_exhaustion. intros H Hl. rewrite Hl in H. cbn in H.
  destruct (N.ltb_spec limit (saturating_add (be_tool_calls e) n)); [done|lia].
Qed.

Lemma named_exhaustion_None e batch name limit :
  named_exhaustion e batch = None ->
  (name, limit) ∈ max_tool_calls_by_name (be_limits e) ->
  count_of name batch <> 0%N ->
  (saturating_add (count_of name (be_tool_calls_by_name e)) (count_of name batch) <= limit)%N.
Proof.
  unfold named_exhaustion. rewrite find_map_None. intros H Hin Hne. specialize (H _ Hin).
  cbn in H. destruct (N.eqb_spec (count_of name batch) 0); [done|].
  destruct (N.ltb_spec limit (saturating_add (count_of name (be_tool_calls_by_name e))
                                             (count_of name batch))); [done|lia].
Qed.

Lemma preflight_within e names r :
  within_tool_limits e -> within_tool_limits (preflight_tools e names r).1.
Proof.
  intros Hw. destruct (preflight_tools e names r).2 as [x|] eqn:Hx.
  { eapply within_counters; [by eapply preflight_rejected|done]. }
  destruct (preflight_admitted e names r Hx) as (Hl & Ht & Hn & Htot & Hnam).
  destruct (observe_boundary_counters e r) as (Hl' & _ & Ht' & Hn' & _).
  split; rewrite Hl; intros; [rewrite Ht|rewrite Hn].
  - rewrite <- Ht'. eapply total_exhaustion_None; [done|by rewrite Hl'].
  - rewrite add_batch_count by apply map_wf_NoDup, batch_wf.
    destruct (map_get name _) as [n|] eqn:Hg; [|by apply Hw].
    assert (Hc : count_of name (batch_by_name names) = n) by (unfold count_of; by rewrite Hg).
    destruct (N.eq_dec n 0%N) as [->|Hne].
    + unfold saturating_add. rewrite N.add_0_r. etransitivity; [apply N.le_min_l|by apply Hw].
    + rewrite <- Hc, <- Hn'. eapply named_exhaustion_None; [done|by rewrite Hl'|congruence].
Qed.

Lemma cycle_start_fields e r :
  be_limits (cycle_start e r).1 = be_limits e /\
  be_tool_calls (cycle_start e r).1 = be_tool_calls e /\
  be_tool_calls_by_name (cycle_start e r).1 = be_tool_calls_by_name e.
Proof.
  unfold cycle_start, model_call_start.
  destruct (observe_boundary_counters e r) as (Hl & _ & Ht & Hn & _).
  by destruct (is_none _).
Qed.

Lemma step_limits e op x e' : budget_step e op x e' -> be_limits e' = be_limits e.
Proof.
  intros [[| | |u|names|f|] r]; cbn [apply_op]; try apply observe_boundary_counters.
  - apply cycle_start_fields.
  - unfold model_call_complete. cbn. destruct (observe_boundary_counters (observe_token_usage e u) r)
      as [-> _]. apply observe_token_usage_counters.
  - destruct (preflight_tools e names r).2 as [y|] eqn:Hy.
    + by destruct (preflight_rejected _ _ _ _ Hy).
    + by destruct (preflight_admitted _ _ _ Hy).
  - unfold tool_batch_complete. destruct f; apply observe_boundary_counters.
Qed.

Lemma step_within e op x e' : budget_step e op x e' -> within_tool_limits e -> within_tool_limits e'.
Proof.
  intros [[| | |u|names|f|] r] Hw; cbn [apply_op].
  - eapply within_counters; [apply observe_boundary_counters|done].
  - eapply within_counters; [apply observe_boundary_counters|done].
  - destruct (cycle_start_fields e r) as (Hl & Ht & Hn). unfold within_tool_limits.
    by rewrite Hl, Ht, Hn.
  - eapply within_counters; [|done]. etransitivity; [apply observe_token_usage_counters|].
    apply observe_boundary_counters.
  - by apply preflight_within.
  - unfold tool_batch_complete. eapply within_counters; [|done].
    destruct f; apply observe_boundary_counters.
  - eapply within_counters; [apply observe_boundary_counters|done].
Qed.

Lemma run_invariant (P : BudgetEvaluator -> Prop) e e' :
  (forall a op x b, budget_step a op x b -> P a -> P b) -> P e -> budget_run e e' -> P e'.
Proof. intros Hstep He Hrun. induction Hrun; eauto. Qed.

(** *** Unavailable metrics *)

Lemma dimension_rank_inj d d' : dimension_rank d = dimension_rank d' -> d = d'.
Proof. by destruct d, d'. Qed.

Lemma unavailable_insert_perm u m :
  unavailable_get (ud_dimension u) m = None -> unavailable_insert u m ≡ₚ u :: m.
Proof.
  induction m as [|u' m IH]; simpl; [done|].
  destruct (bool_decide (ud_dimension u' = ud_dimension u)) eqn:E; [done|]. intros Hg.
  apply bool_decide_eq_false in E.
  destruct (Nat.compare_spec (dimension_rank (ud_dimension u)) (dimension_rank (ud_dimension u')))
    as [Heq|Hlt|Hgt]; [by apply dimension_rank_inj in Heq|done|].
  rewrite (IH Hg). apply Permutation_swap.
Qed.

Lemma unavailable_get_None d m : unavailable_get d m = None <-> d ∉ map ud_dimension m.
Proof.
  induction m as [|u m IH]; simpl; [set_solver|].
  destruct (bool_decide (ud_dimension u = d)) eqn:E;
    [apply bool_decide_eq_true in E|apply bool_decide_eq_false in E]; set_solver.
Qed.

Lemma unavailable_get_insert u m d :
  d <> ud_dimension u -> unavailable_get d (unavailable_insert u m) = unavailable_get d m.
Proof.
  intros Hne. induction m as [|u' m IH]; simpl.
  { by rewrite bool_decide_eq_false_2. }
  destruct (Nat.compare_spec (dimension_rank (ud_dimension u)) (dimension_rank (ud_dimension u')))
    as [Heq|Hlt|Hgt]; simpl.
  - apply dimension_rank_inj in Heq. by rewrite !bool_decide_eq_false_2 by congruence.
  - by rewrite (bool_decide_eq_false_2 (ud_dimension u = d)) by done.
  - by rewrite IH.
Qed.

(** A latched dimension keeps its first reason. *)
Definition latched_in (e e' : BudgetEvaluator) : Prop :=
  forall d u, unavailable_get d (be_unavailable e) = Some u ->
              unavailable_get d (be_unavailable e') = Some u.

#[global] Instance latched_refl : Reflexive latched_in.
Proof. by intros e d u. Qed.
#[global] Instance latched_trans : Transitive latched_in.
Proof. intros a b c H1 H2 d u Hu. by apply H2, H1. Qed.

Lemma latch_latched e d r a b c x : latched_in e (latch_unavailable e d r a b c x).
Proof.
  unfold latch_unavailable. destruct (unavailable_get d _) eqn:Hg; [done|].
  intros d' u Hu. cbn. rewrite unavailable_get_insert; [done|]. cbn. congruence.
Qed.

Lemma latched_same e e' : be_unavailable e' = be_unavailable e -> latched_in e e'.
Proof. intros He d u. by rewrite He. Qed.
Lemma latch_latched_set e e' d r a b c x :
  be_unavailable e' = be_unavailable e -> latched_in e (latch_unavailable e' d r a b c x).
Proof. intros He. transitivity e'; [by apply latched_same|apply latch_latched]. Qed.

Lemma safe_add_latched e d c i u : latched_in e (safe_add_or_latch e d c i u).1.
Proof. unfold safe_add_or_latch. repeat case_match; try apply latch_latched; done. Qed.

Lemma safe_add_latched_set e d c i u e' o e'' :
  safe_add_or_latch e d c i u = (e', o) -> be_unavailable e'' = be_unavailable e' ->
  latched_in e e''.
Proof.
  intros H He. pose proof (safe_add_latched e d c i u) as Hl. rewrite H in Hl.
  transitivity e'; [done|by apply latched_same].
Qed.
Ltac latched :=
  solve [by apply latched_same | by apply latch_latched_set | by eapply safe_add_latched_set].

Lemma observe_boundary_latched e r : latched_in e (observe_boundary e r).
Proof.
  unfold observe_boundary. transitivity (observe_elapsed e (rd_now_ns r)).
  - unfold observe_elapsed. repeat case_match; latched.
  - generalize (observe_elapsed e (rd_now_ns r)) (rd_meter r). clear e r. intros e m.
    unfold observe_host_cost, latch_host_unavailable. repeat case_match; latched.
Qed.

Lemma observe_token_usage_latched e u : latched_in e (observe_token_usage e u).
Proof.
  unfold observe_token_usage. transitivity (observe_total e u).
  - unfold observe_total. repeat case_match; latched.
  - generalize (observe_total e u). intros e'. unfold observe_uncached. repeat case_match; latched.
Qed.

Lemma step_latched e op x e' : budget_step e op x e' -> latched_in e e'.
Proof.
  intros [[| | |u|names|f|] r]; cbn [apply_op]; try apply observe_boundary_latched.
  - unfold cycle_start, model_call_start.
    pose proof (observe_boundary_latched e r) as H. destruct (is_none _); exact H.
  - unfold model_call_complete. cbn.
    etransitivity; [apply observe_token_usage_latched|apply observe_boundary_latched].
  - unfold preflight_tools. pose proof (observe_boundary_latched e r) as H.
    destruct (or_else _ _); [done|]. destruct (total_exhaustion _ _); [done|].
    destruct (named_exhaustion _ _); exact H.
  - unfold tool_batch_complete. destruct f; apply observe_boundary_latched.
Qed.

(** *** The persisted snapshot *)

Definition opt_wire (o : option N) : Prop := check_opt validate_wire_integer o = Ok tt.

(** The metered quantities stay valid wire data whatever is observed. *)
Definition metered_ok (e : BudgetEvaluator) : Prop :=
  opt_wire (be_total_tokens e) /\ opt_wire (be_uncached_input_tokens e) /\
  (be_elapsed_ms e <= MAX_WIRE_INTEGER)%N /\
  check_opt host_cost_validate (be_host_cost e) = Ok tt /\
  NoDup (map ud_dimension (be_unavailable e)) /\
  Forall (fun u => unavailable_validate u = Ok tt) (be_unavailable e) /\
  limits_validate (be_limits e) = Ok tt.

Lemma result_tt (r : result unit) : is_ok r = true <-> r = Ok tt.
Proof. by destruct r as [[]|]. Qed.

Lemma latch_metered e d r a b c x :
  metered_ok e ->
  try_for_each (check_opt validate_non_empty) [a; b; c; x] = Ok tt ->
  metered_ok (latch_unavailable e d r a b c x).
Proof.
  intros (H1 & H2 & H3 & H4 & H5 & H6 & H7) Hv. unfold latch_unavailable.
  destruct (unavailable_get d _) eqn:Hg; [done|].
  set (u := {| ud_dimension := d |}).
  pose proof (unavailable_insert_perm u (be_unavailable e) Hg) as Hperm.
  repeat split; try done; cbn.
  - rewrite Hperm. constructor; [by apply unavailable_get_None|done].
  - rewrite Hperm. by constructor.
Qed.

Lemma host_cost_units (c : HostCost) :
  host_cost_validate c = Ok tt ->
  validate_non_empty (hc_unit c) = Ok tt /\ check_opt validate_non_empty (hc_currency c) = Ok tt.
Proof.
  unfold host_cost_validate. intros H. result_inv.
  repeat match goal with u : unit |- _ => destruct u end. done.
Qed.

Lemma latch_host_metered e limit reason reading :
  metered_ok e -> max_host_cost (be_limits e) = Some limit ->
  (forall r, reading = Some r -> host_cost_validate r = Ok tt) ->
  metered_ok (latch_host_unavailable e limit reason reading).
Proof.
  intros Hm Hl Hr. unfold latch_host_unavailable. apply latch_metered; [done|].
  assert (Hlim : host_cost_validate limit = Ok tt).
  { destruct Hm as (_ & _ & _ & _ & _ & _ & Hv). unfold limits_validate in Hv.
    result_inv. by rewrite Hl in Hv. }
  destruct (host_cost_units _ Hlim) as [Hu Hc]. apply try_for_each_Ok.
  destruct reading as [r|]; cbn.
  - destruct (host_cost_units r) as [Hu' Hc']; [by apply Hr|]. by repeat constructor.
  - by repeat constructor.
Qed.

Lemma observe_elapsed_metered e now : metered_ok e -> metered_ok (observe_elapsed e now).
Proof.
  intros Hm. unfold observe_elapsed. destruct (is_unavailable _ _); [done|].
  destruct (_ <? _)%N eqn:Hlt; [by apply latch_metered|]. apply N.ltb_ge in Hlt.
  destruct Hm as (H1 & H2 & H3 & H4 & H5 & H6 & H7). repeat split; try done. cbn. lia.
Qed.

Lemma observe_host_cost_metered e m : metered_ok e -> metered_ok (observe_host_cost e m).
Proof.
  intros Hm. unfold observe_host_cost. destruct (max_host_cost _) as [limit|] eqn:Hl; [|done].
  destruct (is_unavailable _ _); [done|].
  destruct (negb _); [by apply latch_host_metered|].
  destruct m as [[reading|]|]; try by apply latch_host_metered.
  destruct (negb (is_ok (host_cost_validate reading))) eqn:Hok; [by apply latch_host_metered|].
  apply negb_false_iff, result_tt in Hok.
  assert (Hsome : forall r, Some reading = Some r -> host_cost_validate r = Ok tt)
    by (intros; by simplify_eq).
  destruct (negb _); [by apply latch_host_metered|].
  destruct (negb _); [by apply latch_host_metered|].
  destruct Hm as (H1 & H2 & H3 & H4 & H5 & H6 & H7).
  destruct (is_some_and _ _); [apply latch_host_metered; [|done..]|]; repeat split; done.
Qed.

Lemma observe_boundary_metered e r : metered_ok e -> metered_ok (observe_boundary e r).
Proof. intros. by apply observe_host_cost_metered, observe_elapsed_metered. Qed.

Lemma safe_add_metered e d c i u :
  metered_ok e -> validate_non_empty u = Ok tt ->
  metered_ok (safe_add_or_latch e d c i u).1 /\ opt_wire (safe_add_or_latch e d c i u).2.
Proof.
  intros Hm Hu. assert (Hl : metered_ok (latch_unavailable e d IntegerOverflow (Some u) None None None)).
  { apply latch_metered; [done|]. cbn. by rewrite Hu. }
  unfold safe_add_or_latch. destruct (checked_add c i); [|done].
  destruct (_ <=? _)%N eqn:E; [|done]. split; [done|]. unfold opt_wire, validate_wire_integer.
  cbn. by rewrite E.
Qed.

Lemma observe_token_usage_metered e u : metered_ok e -> metered_ok (observe_token_usage e u).
Proof.
  assert (Hset : forall e o, metered_ok e -> opt_wire o -> metered_ok (set_total_tokens e o)).
  { intros e' o (H1 & H2 & H3 & H4 & H5 & H6 & H7) Ho. by repeat split. }
  assert (Hset' : forall e o, metered_ok e -> opt_wire o -> metered_ok (set_uncached e o)).
  { intros e' o (H1 & H2 & H3 & H4 & H5 & H6 & H7) Ho. by repeat split. }
  intros Hm. unfold observe_token_usage. enough (Ht : metered_ok (observe_total e u)).
  - revert Ht. generalize (observe_total e u). clear e Hm. intros e Hm. unfold observe_uncached.
    destruct (if _ =?? _ then _ else _); [|by apply latch_metered; [apply Hset'|]].
    destruct (be_uncached_input_tokens e) as [m|]; [|done].
    destruct (safe_add_metered e UncachedInputTokens m n "tokens" Hm eq_refl) as [Ha Hb].
    destruct (safe_add_or_latch _ _ _ _ _). by apply Hset'.
  - unfold observe_total. destruct (_ || _); [by apply latch_metered; [apply Hset|]|].
    destruct (be_total_tokens e), (tu_total_tokens u); try done.
    destruct (safe_add_metered e TotalTokens n n0 "tokens" Hm eq_refl) as [Ha Hb].
    destruct (safe_add_or_latch _ _ _ _ _). by apply Hset.
Qed.

Lemma step_metered e op x e' : budget_step e op x e' -> metered_ok e -> metered_ok e'.
Proof.
  intros [[| | |u|names|f|] r] Hm; cbn [apply_op]; try by apply observe_boundary_metered.
  - unfold cycle_start, model_call_start. apply (observe_boundary_metered e r) in Hm.
    destruct (is_none _); exact Hm.
  - unfold model_call_complete. cbn. by apply observe_boundary_metered, observe_token_usage_metered.
  - unfold preflight_tools. apply (observe_boundary_metered e r) in Hm.
    destruct (or_else _ _); [done|]. destruct (total_exhaustion _ _); [done|].
    destruct (named_exhaustion _ _); exact Hm.
  - unfold tool_batch_complete. destruct f; by apply observe_boundary_metered.
Qed.

Lemma dedup_NoDup l : NoDup l -> dedup_dimensions l = l.
Proof.
  induction l as [|x l IH]; [done|]. intros Hnd. inversion Hnd as [|? ? Hni Hnd']; subst.
  specialize (IH Hnd'). destruct l as [|y l]; [done|].
  change (dedup_dimensions (x :: y :: l)) with
    (if x =?? y then dedup_dimensions (y :: l) else x :: dedup_dimensions (y :: l)).
  rewrite bool_decide_eq_false_2 by set_solver. by rewrite IH.
Qed.
Lemma dedup_length l : (length (dedup_dimensions l) <= length l)%nat.
Proof.
  induction l as [|x l IH]; [done|]. destruct l as [|y l]; [done|].
  change (dedup_dimensions (x :: y :: l)) with
    (if x =?? y then dedup_dimensions (y :: l) else x :: dedup_dimensions (y :: l)).
  destruct (bool_decide _); simpl in *; lia.
Qed.

Definition dimension_leb (a b : BudgetDimension) : bool :=
  (dimension_rank a <=? dimension_rank b)%nat.

Lemma sorted_dedup_NoDup l :
  StronglySorted (fun x y => dimension_leb x y = true) l ->
  length (dedup_dimensions l) = length l -> NoDup l.
Proof.
  induction l as [|x l IH]; intros Hs Hlen; [constructor|].
  inversion Hs as [|? ? Hs' Hall]; subst. destruct l as [|y l].
  { constructor; [set_solver|constructor]. }
  change (dedup_dimensions (x :: y :: l)) with
    (if x =?? y then dedup_dimensions (y :: l) else x :: dedup_dimensions (y :: l)) in Hlen.
  pose proof (dedup_length (y :: l)) as Hle.
  destruct (bool_decide (x = y)) eqn:E; [simpl in *; lia|]. apply bool_decide_eq_false in E.
  simpl length in Hlen. injection Hlen as Hlen.
  constructor; [|by apply IH]. intros Hin.
  inversion Hs' as [|? ? _ Hall']; subst. rewrite Forall_forall in Hall, Hall'.
  assert (Hxy : dimension_leb x y = true) by (apply Hall; set_solver).
  apply Nat.leb_le in Hxy. apply elem_of_cons in Hin as [->|Hin]; [done|].
  specialize (Hall' x Hin). apply Nat.leb_le in Hall'.
  apply E, dimension_rank_inj. lia.
Qed.

Lemma dimension_sort_sorted l :
  StronglySorted (fun x y => dimension_leb x y = true) (stable_sort dimension_leb l).
Proof.
  apply stable_sort_sorted; unfold dimension_leb; intros *;
    rewrite ?Nat.leb_le, ?Nat.leb_gt; lia.
Qed.

(** The uniqueness test of [BudgetUsageSnapshot::validate] decides exactly
    that no dimension is listed twice. *)
Lemma unique_dimensions l :
  length (dedup_dimensions (stable_sort dimension_leb l)) = length l <-> NoDup l.
Proof.
  pose proof (stable_sort_perm dimension_leb l) as Hp. split; intros H.
  - rewrite <- Hp. apply sorted_dedup_NoDup; [apply dimension_sort_sorted|].
    by rewrite H, Hp.
  - rewrite dedup_NoDup by by rewrite Hp. by rewrite Hp.
Qed.

Lemma unavailable_get_Some d m u :
  NoDup (map ud_dimension m) ->
  unavailable_get d m = Some u <-> u ∈ m /\ ud_dimension u = d.
Proof.
  induction m as [|x m IH]; simpl; intros Hnd; [set_solver|].
  inversion Hnd as [|? ? Hni Hnd']; subst.
  destruct (bool_decide (ud_dimension x = d)) eqn:E.
  - apply bool_decide_eq_true in E. split; [intros; simplify_eq; set_solver|].
    intros [[->|Hin]%elem_of_cons Hd]; [done|]. exfalso. apply Hni.
    rewrite E, <- Hd. apply list_elem_of_fmap. eauto.
  - apply bool_decide_eq_false in E. rewrite IH by done. set_solver.
Qed.

Lemma unavailable_get_perm d m m' :
  m ≡ₚ m' -> NoDup (map ud_dimension m) -> unavailable_get d m = unavailable_get d m'.
Proof.
  intros Hp Hnd. apply option_eq. intros u.
  rewrite !unavailable_get_Some; [by rewrite Hp| |done]. by rewrite <- Hp.
Qed.

Lemma unavailable_fold_perm l m :
  NoDup (map ud_dimension (l ++ m)) ->
  foldl (fun m u => unavailable_insert u m) m l ≡ₚ l ++ m.
Proof.
  revert m. induction l as [|u l IH]; intros m Hnd; [done|]. simpl in *.
  inversion Hnd as [|? ? Hni Hnd']; subst.
  assert (Hp : unavailable_insert u m ≡ₚ u :: m).
  { apply unavailable_insert_perm, unavailable_get_None. rewrite map_app in Hni. set_solver. }
  rewrite IH; [by rewrite Hp, Permutation_middle|].
  rewrite Hp, <- Permutation_middle. done.
Qed.

Lemma usage_validate_spec u :
  usage_validate u = Ok tt <->
  validate_wire_integer (us_cycles u) = Ok tt /\ opt_wire (us_total_tokens u) /\
  opt_wire (us_uncached_input_tokens u) /\ validate_wire_integer (us_tool_calls u) = Ok tt /\
  validate_wire_integer (us_elapsed_ms u) = Ok tt /\
  Forall (fun kv => validate_named_count kv = Ok tt) (us_tool_calls_by_name u) /\
  check_opt host_cost_validate (us_host_cost u) = Ok tt /\
  NoDup (map ud_dimension (us_unavailable_dimensions u)) /\
  Forall (fun d => unavailable_validate d = Ok tt) (us_unavailable_dimensions u).
Proof.
  unfold usage_validate, opt_wire. rewrite <- unique_dimensions, <- !try_for_each_Ok, length_map.
  split.
  - intros H. result_inv. repeat match goal with u : unit |- _ => destruct u end.
    apply negb_false_iff, Nat.eqb_eq in Hif. done.
  - intros (-> & -> & -> & -> & -> & -> & -> & Hlen & Hd). fold dimension_leb.
    change (fun a b => (dimension_rank a <=? dimension_rank b)%nat) with dimension_leb.
    by rewrite Hlen, Nat.eqb_refl.
Qed.

Lemma wire_integer_le n : validate_wire_integer n = Ok tt <-> (n <= MAX_WIRE_INTEGER)%N.
Proof. unfold validate_wire_integer. destruct (N.leb_spec n MAX_WIRE_INTEGER); split; done || lia. Qed.

Lemma with_clock_metered limits m usage now e :
  with_clock limits m usage now = Ok e -> metered_ok e.
Proof.
  unfold with_clock. intros H. result_inv. repeat match goal with u : unit |- _ => destruct u end.
  apply usage_validate_spec in Hdo0 as (_ & H1 & H2 & _ & H3 & _ & H4 & H5 & H6).
  pose proof (unavailable_fold_perm (us_unavailable_dimensions (unwrap_or usage usage_default)) [])
    as Hp. rewrite app_nil_r in Hp. specialize (Hp H5).
  repeat split; cbn; try done; [by apply wire_integer_le|by rewrite Hp..].
Qed.

Lemma snapshot_valid_iff e :
  metered_ok e ->
  usage_validate (snapshot e) = Ok tt <->
  (be_cycles e <= MAX_WIRE_INTEGER)%N /\ (be_tool_calls e <= MAX_WIRE_INTEGER)%N /\
  Forall (fun kv => validate_named_count kv = Ok tt) (be_tool_calls_by_name e).
Proof.
  intros (H1 & H2 & H3 & H4 & H5 & H6 & H7). rewrite usage_validate_spec. cbn.
  rewrite !wire_integer_le, stable_sort_perm. naive_solver.
Qed.

(** ** Properties *)


Definition sample_limits : RunBudgetLimits :=
  {| max_total_tokens := Some 100%N; max_uncached_input_tokens := None; max_tool_calls := Some 3%N;
     max_tool_calls_by_name := [("bash", 1%N)]; max_wall_time_ms := None; max_host_cost := None;
     unavailable_metric_policy := Stop |}.
Definition sample_evaluator : BudgetEvaluator :=
  match with_clock sample_limits false None 0 with
  | Ok e => e
  | Err _ => {| be_limits := sample_limits; be_has_meter := false; be_started_ns := 0; be_cycles := 0;
                be_total_tokens := None; be_uncached_input_tokens := None; be_tool_calls := 0;
                be_tool_calls_by_name := []; be_base_elapsed_ms := 0; be_elapsed_ms := 0;
                be_host_cost := None; be_unavailable := [] |}
  end.
Definition sample_reading : Reading := {| rd_now_ns := 5000000; rd_meter := Ok None |}.


(** A tool preflight is all or nothing: when it reports an exhaustion no
    counter changes, and when it admits the batch the total grows by the size
    of the batch and every tool's count by its number of occurrences in it
    (saturating at [u64::MAX]). *)
Theorem preflight_exact (e : BudgetEvaluator) (names : list string) (r : Reading) :
  let (e', x) := preflight_tools e names r in
  match x with
  | Some _ => be_tool_calls e' = be_tool_calls e /\
              be_tool_calls_by_name e' = be_tool_calls_by_name e
  | None =>
      be_tool_calls e' = saturating_add (be_tool_calls e) (N.of_nat (length names)) /\
      forall name, count_of name (be_tool_calls_by_name e') =
        if decide (name ∈ names)
        then saturating_add (count_of name (be_tool_calls_by_name e)) (occurrences name names)
        else count_of name (be_tool_calls_by_name e)
  end.
Proof.
  pose proof (preflight_rejected e names r) as Hrej. pose proof (preflight_admitted e names r) as Hadm.
  destruct (preflight_tools e names r) as [e' [x|]].
  { destruct (Hrej x eq_refl) as (_ & _ & Ht & Hn & _). done. }
  destruct (Hadm eq_refl) as (_ & Ht & Hn & _). split; [done|]. intros name.
  cbn in Hn. rewrite Hn, add_batch_count by apply map_wf_NoDup, batch_wf.
  pose proof (batch_count name names) as Hc. pose proof (batch_keys name names) as Hk.
  unfold count_of at 1 in Hc. unfold map_contains_key in Hk.
  destruct (map_get name (batch_by_name names)) as [n|]; cbn in *; destruct (decide _) as [Hin|Hin].
  - by rewrite Hc.
  - by destruct Hin; apply Hk.
  - by apply Hk in Hin.
  - done.
Qed.

(** The snapshot of a running evaluator is valid wire data exactly when
    its unmetered counters are, and an evaluator resumed from a valid snapshot
    continues with the same counters, token totals and latched metrics. *)
Theorem snapshot_resume (limits : RunBudgetLimits) (meter : bool)
    (usage : option BudgetUsageSnapshot) (now now' : N) (e0 e : BudgetEvaluator) :
  with_clock limits meter usage now = Ok e0 -> budget_run e0 e ->
  (usage_validate (snapshot e) = Ok tt <->
     (be_cycles e <= MAX_WIRE_INTEGER)%N /\ (be_tool_calls e <= MAX_WIRE_INTEGER)%N /\
     Forall (fun kv => validate_named_count kv = Ok tt) (be_tool_calls_by_name e)) /\
  (usage_validate (snapshot e) = Ok tt ->
   exists e', with_clock limits meter (Some (snapshot e)) now' = Ok e' /\
     be_cycles e' = be_cycles e /\ be_tool_calls e' = be_tool_calls e /\
     be_tool_calls_by_name e' = be_tool_calls_by_name e /\
     be_total_tokens e' = be_total_tokens e /\
     be_uncached_input_tokens e' = be_uncached_input_tokens e /\
     be_host_cost e' = be_host_cost e /\ be_elapsed_ms e' = be_elapsed_ms e /\
     forall d, unavailable_get d (be_unavailable e') = unavailable_get d (be_unavailable e)).
Proof.
  intros Hc Hrun.
  assert (Hm : metered_ok e).
  { apply (run_invariant metered_ok e0); [|by eapply with_clock_metered|done].
    intros a op x b Hs. by eapply step_metered. }
  split; [by apply snapshot_valid_iff|]. intros Hv.
  assert (Hl : limits_validate limits = Ok tt /\ has_limits limits = true).
  { unfold with_clock in Hc. result_inv. apply negb_false_iff in Hif. by destruct a. }
  destruct Hl as [Hl Hh]. unfold with_clock. rewrite Hl, Hh. cbn [negb unwrap_or]. rewrite Hv.
  eexists. split; [done|]. cbn. repeat split. intros d.
  destruct Hm as (_ & _ & _ & _ & Hnd & _).
  assert (Hs : NoDup (map ud_dimension (us_unavailable_dimensions (snapshot e)))).
  { cbn. by rewrite stable_sort_perm. }
  pose proof (unavailable_fold_perm (us_unavailable_dimensions (snapshot e)) []) as Hp.
  rewrite app_nil_r in Hp. specialize (Hp Hs).
  etransitivity; [eapply unavailable_get_perm; [exact Hp|by rewrite Hp]|].
  apply unavailable_get_perm; [apply stable_sort_perm|done].
Qed.

Lemma snapshot_resume_witness :
  let e := (preflight_tools sample_evaluator ["bash"; "read"] sample_reading).1 in
  usage_validate (snapshot e) = Ok tt /\
  exists e', with_clock sample_limits false (Some (snapshot e)) 7 = Ok e' /\ be_tool_calls e' = 2%N.
Proof.
  intros e. split; [vm_compute; reflexivity|].
  destruct (proj2 (snapshot_resume sample_limits false None 0 7 sample_evaluator e
              ltac:(vm_compute; reflexivity)
              ltac:(eapply run_snoc; [constructor|apply (step_op _ (OpPreflight _))]))
              ltac:(vm_compute; reflexivity)) as (e' & He & _ & Ht & _).
  exists e'. split; [exact He|]. rewrite Ht. reflexivity.
Defined.

(** *** Verdicts *)

Lemma precedence_complete d : d ∈ DIMENSION_PRECEDENCE.
Proof. destruct d; repeat constructor. Qed.

Definition starved (e : BudgetEvaluator) (d : BudgetDimension) : Prop :=
  is_unavailable e d = true /\ is_some (limit_descriptor e d) = true.

Lemma strict_unavailable_None e boundary :
  strict_unavailable e boundary = None <->
  (unavailable_metric_policy (be_limits e) = Stop -> forall d, ~ starved e d).
Proof.
  unfold strict_unavailable, starved, is_unavailable.
  destruct (unavailable_metric_policy (be_limits e)); [done|].
  rewrite bool_decide_eq_true_2 by done. cbn [negb]. rewrite find_map_None. split.
  - intros H _ d [Hu Hl]. specialize (H d (precedence_complete d)).
    destruct (unavailable_get d _); [|done]. cbn in H.
    destruct (limit_descriptor e d) as [[[l u] c]|]; done.
  - intros H d _. specialize (H eq_refl d).
    destruct (unavailable_get d _) as [u|]; [|done]. cbn.
    destruct (limit_descriptor e d) as [[[l un] c]|]; [|done]. by destruct H.
Qed.

(** A limit an available metric has gone over. *)
Definition overspent (e : BudgetEvaluator) (d : BudgetDimension) : Prop :=
  is_unavailable e d = false /\
  exists limit unit currency observed,
    limit_descriptor e d = Some (limit, unit, currency) /\
    observed_value e d = Some observed /\ (limit < observed)%N.

Lemma check_exceeded_None e boundary dims :
  check_exceeded_limits e boundary dims = None <->
  forall d, contains dims d = true -> ~ overspent e d.
Proof.
  unfold check_exceeded_limits, overspent. rewrite find_map_None. split.
  - intros H d Hd (Hu & l & u & c & o & Hl & Ho & Hlt).
    specialize (H d (precedence_complete d)). rewrite Hd, Hu, Hl in H. cbn in H.
    rewrite Ho in H. cbn in H. apply N.ltb_lt in Hlt. by rewrite Hlt in H.
  - intros H d _. destruct (contains dims d) eqn:Hd; [|done]. cbn.
    destruct (is_unavailable e d) eqn:Hu; [done|].
    destruct (limit_descriptor e d) as [[[l u] c]|] eqn:Hl; [|done]. cbn.
    destruct (observed_value e d) as [o|] eqn:Ho; [|done]. cbn.
    destruct (N.ltb_spec l o); [|done]. exfalso. apply (H d Hd). eauto 10.
Qed.

Lemma or_else_None {A} (a b : option A) : or_else a b = None <-> a = None /\ b = None.
Proof. destruct a; naive_solver. Qed.

Lemma step_strict e op x e' d :
  budget_step e op x e' -> op <> OpToolBatchComplete true ->
  unavailable_metric_policy (be_limits e') = Stop -> starved e' d -> x <> None.
Proof.
  assert (Hs : forall a b, unavailable_metric_policy (be_limits a) = Stop -> starved a d ->
    strict_unavailable a b <> None).
  { intros a b Hp Hst Hn. rewrite strict_unavailable_None in Hn. by apply (Hn Hp d). }
  intros [[| | |u|names|f|] r] Hf Hp Hst; cbn [apply_op] in *;
    unfold run_start, model_call_start, model_call_complete, tool_batch_complete, terminal in *;
    cbn [fst snd] in *.
  - rewrite or_else_None. intros [Hn _]. by apply (Hs _ _ Hp Hst) in Hn.
  - rewrite or_else_None. intros [Hn _]. by apply (Hs _ _ Hp Hst) in Hn.
  - unfold cycle_start, model_call_start in *. cbn in *. intros Hn. rewrite Hn in *. cbn in *.
    apply or_else_None in Hn as [Hn _]. by apply (Hs (observe_boundary e r) _ Hp Hst) in Hn.
  - rewrite or_else_None. intros [Hn _]. by apply (Hs _ _ Hp Hst) in Hn.
  - unfold preflight_tools in *. destruct (or_else _ _) eqn:Ho; [done|].
    apply or_else_None in Ho as [Hn _].
    destruct (total_exhaustion _ _); [done|]. destruct (named_exhaustion _ _); [done|].
    by apply (Hs (observe_boundary e r) _ Hp Hst) in Hn.
  - destruct f; [done|]. cbn in *.
    rewrite or_else_None. intros [Hn _]. by apply (Hs _ _ Hp Hst) in Hn.
  - rewrite or_else_None. intros [Hn _]. by apply (Hs _ _ Hp Hst) in Hn.
Qed.

(** The terminal verdict: the last boundary reports no exhaustion
    exactly when no available metric is over its limit and, under the [stop]
    policy, no limited metric is unavailable. *)
Theorem terminal_verdict (e : BudgetEvaluator) (r : Reading) :
  (terminal e r).2 = None <->
  (forall d, ~ overspent (terminal e r).1 d) /\
  (unavailable_metric_policy (be_limits (terminal e r).1) = Stop ->
   forall d, ~ starved (terminal e r).1 d).
Proof.
  unfold terminal. cbn [fst snd].
  rewrite or_else_None, strict_unavailable_None, check_exceeded_None.
  split; [|naive_solver]. intros [H1 H2]. split; [|done]. intros d. apply H2.
  by destruct d.
Qed.

(** An unavailable metric stays unavailable, with its first reason, for
    the rest of the run; under the [stop] policy a limited metric that is
    unavailable makes every later boundary report an exhaustion, the
    completion of a failed tool batch excepted. *)
Theorem unavailable_latched (e e1 e2 : BudgetEvaluator) (op : BudgetOp)
    (x : option BudgetExhaustion) (d : BudgetDimension) (u : BudgetUnavailableDimension) :
  unavailable_get d (be_unavailable e) = Some u -> budget_run e e1 -> budget_step e1 op x e2 ->
  unavailable_get d (be_unavailable e2) = Some u /\
  (unavailable_metric_policy (be_limits e) = Stop -> is_some (limit_descriptor e d) = true ->
   op <> OpToolBatchComplete true -> x <> None).
Proof.
  intros Hu Hrun Hstep.
  assert (Hinv : be_limits e1 = be_limits e /\ latched_in e e1).
  { apply (run_invariant (fun a => be_limits a = be_limits e /\ latched_in e a) e); [|done..].
    intros a o y b Hs [<- Hl]. split; [by eapply step_limits|].
    etransitivity; [done|by eapply step_latched]. }
  destruct Hinv as [Hl Hlat]. pose proof (step_limits _ _ _ _ Hstep) as Hl2.
  assert (Hu2 : unavailable_get d (be_unavailable e2) = Some u)
    by (eapply step_latched; [done|by apply Hlat]).
  split; [done|]. intros Hp Hd Hf. eapply (step_strict _ _ _ _ d); [done..| |].
  - by rewrite Hl2, Hl.
  - split; [unfold is_unavailable; by rewrite Hu2|].
    unfold limit_descriptor in *. by rewrite Hl2, Hl.
Qed.

Lemma unavailable_latched_witness :
  let e := (model_call_complete sample_evaluator token_usage_default sample_reading).1 in
  (cycle_start e sample_reading).2 <> None.
Proof.
  intros e.
  refine (proj2 (unavailable_latched e e (cycle_start e sample_reading).1 OpCycleStart
    (cycle_start e sample_reading).2 TotalTokens
    {| ud_dimension := TotalTokens; ud_reason := UsageMissing; ud_expected_unit := Some "tokens";
       ud_observed_unit := None; ud_expected_currency := None; ud_observed_currency := None |}
    ltac:(vm_compute; reflexivity) (run_nil e) (step_op e OpCycleStart sample_reading)) _ _ _).
  - vm_compute. reflexivity.
  - vm_compute. reflexivity.
  - discriminate.
Defined.
