(* ===== verification/BudgetWire.v ===== *)
(** * The wire form of budgets

    [budget/wire.rs] and the derived serialisers of [budget.rs]: limits, usage
    snapshots, exhaustion verdicts and unavailable metrics as JSON, with the
    checking readers. *)

From Stdlib Require Import String NArith Sorted Lia.
From stdpp Require Import base strings list sets sorting.
From S2P Require Import Prelude Json Canonical CheckpointTypes ToolResult Journal TokenUsage Budget.

(** A struct some of whose trailing fields have [#[serde(default)]]: the array
    form may leave them out. *)
Definition serde_default_struct (fields : list string) (v : Value)
    : option (list (option Value)) :=
  match v with
  | Object m => if only_fields fields m then Some (map (fun f => map_get f m) fields) else None
  | Array l => if (length l <=? length fields)%nat
               then Some (map Some l ++ replicate (length fields - length l) None) else None
  | _ => None
  end.
Lemma serde_default_struct_literal (l : list (string * Value)) :
  NoDup (map fst l) ->
  serde_default_struct (map fst l) (json_object l) = Some (map (fun kv => Some kv.2) l).
Proof. apply serde_strict_struct_literal. Qed.

(** A field with [#[serde(default)]] that is not an [Option]. *)
Definition serde_or_default {T} (decode : Value -> option T) (default : T) (o : option Value)
    : option T :=
  match o with None => Some default | Some v => decode v end.
(** [validate().map_err(serde::de::Error::custom)]. *)
Definition serde_checked {T} (check : T -> result unit) (x : T) : option T :=
  if is_ok (check x) then Some x else None.

(** ** Enumerations *)

Definition policy_str (p : UnavailableMetricPolicy) : string :=
  match p with ContinueAndMark => "continue_and_mark" | Stop => "stop" end.
Definition policy_from_value (v : Value) : option UnavailableMetricPolicy :=
  s ← serde_unit_variant v;
  if String.eqb s "continue_and_mark" then Some ContinueAndMark
  else if String.eqb s "stop" then Some Stop else None.

Definition dimension_str (d : BudgetDimension) : string :=
  match d with
  | TotalTokens => "total_tokens" | UncachedInputTokens => "uncached_input_tokens"
  | ToolCalls => "tool_calls" | ToolCallsByName => "tool_calls_by_name"
  | WallTime => "wall_time" | HostCostD => "host_cost"
  end.
Definition dimension_from_value (v : Value) : option BudgetDimension :=
  s ← serde_unit_variant v;
  if String.eqb s "total_tokens" then Some TotalTokens
  else if String.eqb s "uncached_input_tokens" then Some UncachedInputTokens
  else if String.eqb s "tool_calls" then Some ToolCalls
  else if String.eqb s "tool_calls_by_name" then Some ToolCallsByName
  else if String.eqb s "wall_time" then Some WallTime
  else if String.eqb s "host_cost" then Some HostCostD else None.

Definition enforcement_str (b : BudgetEnforcementBoundary) : string :=
  match b with
  | RunStart => "run_start" | CycleStart => "cycle_start"
  | ModelCallComplete => "model_call_complete" | ToolBatchPreflight => "tool_batch_preflight"
  | ToolBatchComplete => "tool_batch_complete" | Terminal => "terminal"
  end.
Definition enforcement_from_value (v : Value) : option BudgetEnforcementBoundary :=
  s ← serde_unit_variant v;
  if String.eqb s "run_start" then Some RunStart
  else if String.eqb s "cycle_start" then Some CycleStart
  else if String.eqb s "model_call_complete" then Some ModelCallComplete
  else if String.eqb s "tool_batch_preflight" then Some ToolBatchPreflight
  else if String.eqb s "tool_batch_complete" then Some ToolBatchComplete
  else if String.eqb s "terminal" then Some Terminal else None.

Definition exhaustion_reason_str (r : BudgetExhaustionReason) : string :=
  match r with
  | LimitReached => "limit_reached" | LimitExceeded => "limit_exceeded"
  | MetricUnavailable => "metric_unavailable"
  end.
Definition exhaustion_reason_from_value (v : Value) : option BudgetExhaustionReason :=
  s ← serde_unit_variant v;
  if String.eqb s "limit_reached" then Some LimitReached
  else if String.eqb s "limit_exceeded" then Some LimitExceeded
  else if String.eqb s "metric_unavailable" then Some MetricUnavailable else None.

Definition unavailable_reason_str (r : BudgetUnavailableReason) : string :=
  match r with
  | AccountingMissingB => "accounting_missing" | UsageMissing => "usage_missing"
  | MeterMissing => "meter_missing" | MeterUnavailable => "meter_unavailable"
  | MeterError => "meter_error" | UnitMismatch => "unit_mismatch"
  | CurrencyMismatch => "currency_mismatch" | NonMonotonic => "non_monotonic"
  | IntegerOverflow => "integer_overflow"
  end.
Definition unavailable_reason_from_value (v : Value) : option BudgetUnavailableReason :=
  s ← serde_unit_variant v;
  if String.eqb s "accounting_missing" then Some AccountingMissingB
  else if String.eqb s "usage_missing" then Some UsageMissing
  else if String.eqb s "meter_missing" then Some MeterMissing
  else if String.eqb s "meter_unavailable" then Some MeterUnavailable
  else if String.eqb s "meter_error" then Some MeterError
  else if String.eqb s "unit_mismatch" then Some UnitMismatch
  else if String.eqb s "currency_mismatch" then Some CurrencyMismatch
  else if String.eqb s "non_monotonic" then Some NonMonotonic
  else if String.eqb s "integer_overflow" then Some IntegerOverflow else None.

(** ** Structs *)

(** [BTreeMap<String, u64>]. *)
Definition counts_to_value (m : list (string * N)) : Value :=
  Object (map (fun '(k, n) => (k, json_u64 n)) m).
Definition counts_from_value (v : Value) : option (list (string * N)) :=
  m ← as_object v; mapM (fun '(k, x) => n ← as_u64 x; Some (k, n)) m.

Definition host_cost_to_value (c : HostCost) : Value :=
  json_object [
    ("unit", Str (hc_unit c)); ("currency", json_opt_str (hc_currency c));
    ("amount_microunits", json_u64 (hc_amount_microunits c))].
Definition host_cost_from_value (v : Value) : option HostCost :=
  fields ← serde_default_struct ["unit"; "currency"; "amount_microunits"] v;
  match fields with
  | [a; b; c] =>
      unit ← a ≫= as_str;
      currency ← serde_option as_str b;
      amount ← c ≫= as_u64;
      serde_checked host_cost_validate
        {| hc_unit := unit; hc_currency := currency; hc_amount_microunits := amount |}
  | _ => None
  end.

(** A [UsageMissing] mark lists all its fields, the others only those set. *)
Definition unavailable_to_value (u : BudgetUnavailableDimension) : Value :=
  let include_all := ud_reason u =?? UsageMissing in
  let field k (o : option string) :=
    if include_all || is_some o then [(k, json_opt_str o)] else [] in
  json_object (
    [("dimension", Str (dimension_str (ud_dimension u)));
     ("reason", Str (unavailable_reason_str (ud_reason u)))]
    ++ field "expected_unit" (ud_expected_unit u)
    ++ field "observed_unit" (ud_observed_unit u)
    ++ field "expected_currency" (ud_expected_currency u)
    ++ field "observed_currency" (ud_observed_currency u)).
Definition unavailable_fields : list string :=
  ["dimension"; "reason"; "expected_unit"; "observed_unit"; "expected_currency";
   "observed_currency"].
Definition unavailable_from_value (v : Value) : option BudgetUnavailableDimension :=
  fields ← serde_default_struct unavailable_fields v;
  match fields with
  | [a; b; c; d; e; f] =>
      dimension ← a ≫= dimension_from_value;
      reason ← b ≫= unavailable_reason_from_value;
      expected_unit ← serde_option as_str c;
      observed_unit ← serde_option as_str d;
      expected_currency ← serde_option as_str e;
      observed_currency ← serde_option as_str f;
      serde_checked unavailable_validate
        {| ud_dimension := dimension; ud_reason := reason; ud_expected_unit := expected_unit;
           ud_observed_unit := observed_unit; ud_expected_currency := expected_currency;
           ud_observed_currency := observed_currency |}
  | _ => None
  end.

Definition limits_fields : list string :=
  ["max_total_tokens"; "max_uncached_input_tokens"; "max_tool_calls"; "max_tool_calls_by_name";
   "max_wall_time_ms"; "max_host_cost"; "unavailable_metric_policy"].
Definition limits_to_value (l : RunBudgetLimits) : Value :=
  json_object [
    ("max_total_tokens", json_opt_u64 (max_total_tokens l));
    ("max_uncached_input_tokens", json_opt_u64 (max_uncached_input_tokens l));
    ("max_tool_calls", json_opt_u64 (max_tool_calls l));
    ("max_tool_calls_by_name", counts_to_value (max_tool_calls_by_name l));
    ("max_wall_time_ms", json_opt_u64 (max_wall_time_ms l));
    ("max_host_cost", opt_to_value host_cost_to_value (max_host_cost l));
    ("unavailable_metric_policy", Str (policy_str (unavailable_metric_policy l)))].
Definition limits_from_value (v : Value) : option RunBudgetLimits :=
  fields ← serde_default_struct limits_fields v;
  match fields with
  | [a; b; c; d; e; f; g] =>
      total ← serde_option as_u64 a;
      uncached ← serde_option as_u64 b;
      calls ← serde_option as_u64 c;
      by_name ← serde_or_default counts_from_value [] d;
      wall ← serde_option as_u64 e;
      cost ← serde_option host_cost_from_value f;
      policy ← serde_or_default policy_from_value ContinueAndMark g;
      serde_checked limits_validate
        {| max_total_tokens := total; max_uncached_input_tokens := uncached;
           max_tool_calls := calls; max_tool_calls_by_name := by_name; max_wall_time_ms := wall;
           max_host_cost := cost; unavailable_metric_policy := policy |}
  | _ => None
  end.

Definition usage_fields : list string :=
  ["cycles"; "total_tokens"; "uncached_input_tokens"; "tool_calls"; "tool_calls_by_name";
   "elapsed_ms"; "host_cost"; "unavailable_dimensions"].
Definition usage_to_value (u : BudgetUsageSnapshot) : Value :=
  json_object [
    ("cycles", json_u64 (us_cycles u)); ("total_tokens", json_opt_u64 (us_total_tokens u));
    ("uncached_input_tokens", json_opt_u64 (us_uncached_input_tokens u));
    ("tool_calls", json_u64 (us_tool_calls u));
    ("tool_calls_by_name", counts_to_value (us_tool_calls_by_name u));
    ("elapsed_ms", json_u64 (us_elapsed_ms u));
    ("host_cost", opt_to_value host_cost_to_value (us_host_cost u));
    ("unavailable_dimensions", Array (map unavailable_to_value (us_unavailable_dimensions u)))].
(** The reader puts the unavailable metrics into precedence order. *)
Definition sort_unavailable (l : list BudgetUnavailableDimension) : list BudgetUnavailableDimension :=
  stable_sort (fun a b => (dimension_precedence (ud_dimension a)
                             <=? dimension_precedence (ud_dimension b))%nat) l.
Definition usage_from_value (v : Value) : option BudgetUsageSnapshot :=
  fields ← serde_strict_struct usage_fields v;
  match fields with
  | [a; b; c; d; e; f; g; h] =>
      cycles ← a ≫= as_u64;
      total ← serde_option as_u64 b;
      uncached ← serde_option as_u64 c;
      calls ← d ≫= as_u64;
      by_name ← e ≫= counts_from_value;
      elapsed ← f ≫= as_u64;
      cost ← serde_option host_cost_from_value g;
      items ← h ≫= as_array;
      unavailable ← mapM unavailable_from_value items;
      serde_checked usage_validate
        {| us_cycles := cycles; us_total_tokens := total; us_uncached_input_tokens := uncached;
           us_tool_calls := calls; us_tool_calls_by_name := by_name; us_elapsed_ms := elapsed;
           us_host_cost := cost; us_unavailable_dimensions := sort_unavailable unavailable |}
  | _ => None
  end.

Definition exhaustion_fields : list string :=
  ["dimension"; "tool_name"; "reason"; "limit"; "observed"; "attempted_increment"; "overshoot";
   "unit"; "currency"; "enforcement_boundary"; "unavailable_reason"].
Definition exhaustion_to_value (e : BudgetExhaustion) : Value :=
  json_object [
    ("dimension", Str (dimension_str (ex_dimension e)));
    ("tool_name", json_opt_str (ex_tool_name e));
    ("reason", Str (exhaustion_reason_str (ex_reason e))); ("limit", json_u64 (ex_limit e));
    ("observed", json_opt_u64 (ex_observed e));
    ("attempted_increment", json_opt_u64 (ex_attempted_increment e));
    ("overshoot", json_opt_u64 (ex_overshoot e)); ("unit", Str (ex_unit e));
    ("currency", json_opt_str (ex_currency e));
    ("enforcement_boundary", Str (enforcement_str (ex_enforcement_boundary e)));
    ("unavailable_reason", opt_to_value (fun r => Str (unavailable_reason_str r))
                             (ex_unavailable_reason e))].
Definition exhaustion_from_value (v : Value) : option BudgetExhaustion :=
  fields ← serde_default_struct exhaustion_fields v;
  match fields with
  | [a; b; c; d; e; f; g; h; i; j; k] =>
      dimension ← a ≫= dimension_from_value;
      tool ← serde_option as_str b;
      reason ← c ≫= exhaustion_reason_from_value;
      limit ← d ≫= as_u64;
      observed ← serde_option as_u64 e;
      attempted ← serde_option as_u64 f;
      overshoot ← serde_option as_u64 g;
      unit ← h ≫= as_str;
      currency ← serde_option as_str i;
      boundary ← j ≫= enforcement_from_value;
      unavailable ← serde_option unavailable_reason_from_value k;
      serde_checked exhaustion_validate
        {| ex_dimension := dimension; ex_tool_name := tool; ex_reason := reason; ex_limit := limit;
           ex_observed := observed; ex_attempted_increment := attempted;
           ex_overshoot := overshoot; ex_unit := unit; ex_currency := currency;
           ex_enforcement_boundary := boundary; ex_unavailable_reason := unavailable |}
  | _ => None
  end.

(** ** Lemmas *)

Lemma serde_option_u64 o : serde_option as_u64 (Some (json_opt_u64 o)) = Some o.
Proof. by destruct o. Qed.
Lemma serde_option_str o : serde_option as_str (Some (json_opt_str o)) = Some o.
Proof. by destruct o. Qed.
Lemma serde_checked_Ok {T} (check : T -> result unit) x :
  check x = Ok tt -> serde_checked check x = Some x.
Proof. unfold serde_checked. by intros ->. Qed.

Lemma counts_wire m : counts_from_value (counts_to_value m) = Some m.
Proof.
  unfold counts_from_value, counts_to_value. cbn [as_object mbind option_bind].
  induction m as [|[k n] m IH]; [done|]. cbn [map mapM]. cbn [as_u64 json_u64 mbind option_bind].
  by rewrite IH.
Qed.
Lemma policy_wire p : policy_from_value (Str (policy_str p)) = Some p.
Proof. by destruct p. Qed.
Lemma dimension_wire d : dimension_from_value (Str (dimension_str d)) = Some d.
Proof. by destruct d. Qed.
Lemma enforcement_wire b : enforcement_from_value (Str (enforcement_str b)) = Some b.
Proof. by destruct b. Qed.
Lemma exhaustion_reason_wire r :
  exhaustion_reason_from_value (Str (exhaustion_reason_str r)) = Some r.
Proof. by destruct r. Qed.
Lemma unavailable_reason_wire r :
  unavailable_reason_from_value (Str (unavailable_reason_str r)) = Some r.
Proof. by destruct r. Qed.

Create Rewrite HintDb budget_wire.
#[local] Hint Rewrite serde_option_u64 serde_option_str counts_wire policy_wire dimension_wire
  enforcement_wire exhaustion_reason_wire unavailable_reason_wire : budget_wire.
(** [struct_wire] reads a derived struct literal field by field. *)
Ltac default_struct_literal :=
  rewrite serde_default_struct_literal
    by (apply (bool_decide_eq_true_1 _); vm_compute; reflexivity).
Ltac wire_fields :=
  repeat (cbn [map snd mbind option_bind as_u64 as_str json_u64 serde_or_default];
          autorewrite with budget_wire).

Lemma host_cost_wire c :
  host_cost_validate c = Ok tt -> host_cost_from_value (host_cost_to_value c) = Some c.
Proof.
  intros Hv. unfold host_cost_from_value, host_cost_to_value.
  change ["unit"; "currency"; "amount_microunits"] with
    (map fst [("unit", Str (hc_unit c)); ("currency", json_opt_str (hc_currency c));
              ("amount_microunits", json_u64 (hc_amount_microunits c))]).
  default_struct_literal. wire_fields. destruct c. by apply serde_checked_Ok.
Qed.
Lemma opt_host_cost_wire o :
  check_opt host_cost_validate o = Ok tt ->
  serde_option host_cost_from_value (Some (opt_to_value host_cost_to_value o)) = Some o.
Proof.
  destruct o as [c|]; [|done]. cbn [check_opt opt_to_value]. intros Hv%host_cost_wire.
  change (serde_option host_cost_from_value (Some (host_cost_to_value c)))
    with (Some <$> host_cost_from_value (host_cost_to_value c)). by rewrite Hv.
Qed.

(** The object a mark is written as, read by field. *)
Lemma unavailable_read u :
  serde_default_struct unavailable_fields (unavailable_to_value u) =
  Some ([Some (Str (dimension_str (ud_dimension u)));
         Some (Str (unavailable_reason_str (ud_reason u)))]
        ++ map (fun o => if (ud_reason u =?? UsageMissing) || is_some o
                         then Some (json_opt_str o) else None)
             [ud_expected_unit u; ud_observed_unit u; ud_expected_currency u;
              ud_observed_currency u]).
Proof.
  destruct u as [d r a b c e]. unfold unavailable_to_value.
  cbn [ud_dimension ud_reason ud_expected_unit ud_observed_unit ud_expected_currency
    ud_observed_currency].
  destruct (r =?? UsageMissing), a, b, c, e; reflexivity.
Qed.
Lemma mark_field_wire (all : bool) o :
  serde_option as_str (if all || is_some o then Some (json_opt_str o) else None) = Some o.
Proof. by destruct all, o. Qed.

Lemma unavailable_wire u :
  unavailable_validate u = Ok tt -> unavailable_from_value (unavailable_to_value u) = Some u.
Proof.
  intros Hv. unfold unavailable_from_value. rewrite unavailable_read.
  cbn [mbind option_bind app map]. rewrite dimension_wire, unavailable_reason_wire.
  cbn [mbind option_bind]. rewrite !mark_field_wire. cbn [mbind option_bind].
  destruct u. by apply serde_checked_Ok.
Qed.
Lemma unavailables_wire l :
  Forall (fun u => unavailable_validate u = Ok tt) l ->
  mapM unavailable_from_value (map unavailable_to_value l) = Some l.
Proof.
  induction 1 as [|u l Hu _ IH]; [done|]. cbn [map mapM]. by rewrite unavailable_wire, IH.
Qed.

Lemma limits_wire l :
  limits_validate l = Ok tt -> limits_from_value (limits_to_value l) = Some l.
Proof.
  intros Hv. pose proof Hv as Hc. unfold limits_validate in Hc. result_inv. unit_inv.
  unfold limits_from_value, limits_to_value.
  match goal with |- context [json_object ?x] => change limits_fields with (map fst x) end.
  default_struct_literal. wire_fields. rewrite opt_host_cost_wire by done. wire_fields.
  destruct l. by apply serde_checked_Ok.
Qed.

Lemma exhaustion_wire e :
  exhaustion_validate e = Ok tt -> exhaustion_from_value (exhaustion_to_value e) = Some e.
Proof.
  intros Hv. unfold exhaustion_from_value, exhaustion_to_value.
  match goal with |- context [json_object ?x] => change exhaustion_fields with (map fst x) end.
  default_struct_literal. wire_fields.
  assert (Hr : serde_option unavailable_reason_from_value
                 (Some (opt_to_value (fun r => Str (unavailable_reason_str r)) (ex_unavailable_reason e)))
               = Some (ex_unavailable_reason e)) by (by destruct (ex_unavailable_reason e) as [[]|]).
  rewrite Hr. wire_fields. destruct e. by apply serde_checked_Ok.
Qed.

(** *** Usage snapshots *)

Definition with_unavailable (u : BudgetUsageSnapshot) (l : list BudgetUnavailableDimension) :=
  {| us_cycles := us_cycles u; us_total_tokens := us_total_tokens u;
     us_uncached_input_tokens := us_uncached_input_tokens u; us_tool_calls := us_tool_calls u;
     us_tool_calls_by_name := us_tool_calls_by_name u; us_elapsed_ms := us_elapsed_ms u;
     us_host_cost := us_host_cost u; us_unavailable_dimensions := l |}.

(** Sorting by rank does not depend on the order of the marks. *)
Lemma rank_sort_perm (l l' : list BudgetDimension) :
  l ≡ₚ l' ->
  stable_sort (fun a b => dimension_rank a <=? dimension_rank b)%nat l
  = stable_sort (fun a b => dimension_rank a <=? dimension_rank b)%nat l'.
Proof.
  intros Hp. set (R := fun a b : BudgetDimension => (dimension_rank a <=? dimension_rank b)%nat = true).
  assert (Hs : forall l, StronglySorted R (stable_sort (fun a b => dimension_rank a <=? dimension_rank b)%nat l)).
  { intros x. apply stable_sort_sorted.
    - intros a b. rewrite Nat.leb_gt, Nat.leb_le. lia.
    - intros a b c. rewrite !Nat.leb_le. lia. }
  apply (StronglySorted_unique_strong R); [|apply Hs..|by rewrite !stable_sort_perm].
  intros a b _ _ Hab Hba. unfold R in *. rewrite Nat.leb_le in *. apply dimension_rank_inj. lia.
Qed.

Lemma usage_validate_perm u l :
  l ≡ₚ us_unavailable_dimensions u -> usage_validate u = Ok tt ->
  usage_validate (with_unavailable u l) = Ok tt.
Proof.
  intros Hp. unfold usage_validate. cbn [us_cycles us_total_tokens us_uncached_input_tokens
    us_tool_calls us_tool_calls_by_name us_elapsed_ms us_host_cost us_unavailable_dimensions
    with_unavailable].
  rewrite (rank_sort_perm (map ud_dimension l) (map ud_dimension (us_unavailable_dimensions u)))
    by (by rewrite Hp).
  rewrite (Permutation_length Hp). intros Hv. result_inv. unit_inv.
  apply try_for_each_Ok. rewrite Hp. by apply try_for_each_Ok.
Qed.

Lemma usage_wire u :
  usage_validate u = Ok tt ->
  usage_from_value (usage_to_value u)
  = Some (with_unavailable u (sort_unavailable (us_unavailable_dimensions u))).
Proof.
  intros Hv. pose proof Hv as Hc. unfold usage_validate in Hc. result_inv. unit_inv.
  apply try_for_each_Ok in Hc. unfold usage_from_value, usage_to_value.
  match goal with |- context [json_object ?x] => change usage_fields with (map fst x) end.
  strict_struct_literal. wire_fields. rewrite opt_host_cost_wire by done.
  cbn [mbind option_bind as_array]. rewrite unavailables_wire by done. cbn [mbind option_bind].
  apply serde_checked_Ok. apply usage_validate_perm; [apply stable_sort_perm|done].
Qed.

Lemma stable_sort_id {A} (leb : A -> A -> bool) l :
  StronglySorted (fun x y => leb x y = true) l -> stable_sort leb l = l.
Proof.
  induction 1 as [|x l Hs IH Hall]; [done|]. cbn [stable_sort foldr].
  unfold stable_sort in IH. rewrite IH. destruct Hall as [|y l Hxy _]; [done|]. cbn. by rewrite Hxy.
Qed.
Lemma sort_unavailable_idem l : sort_unavailable (sort_unavailable l) = sort_unavailable l.
Proof.
  apply stable_sort_id, stable_sort_sorted.
  - intros a b. rewrite Nat.leb_gt, Nat.leb_le. lia.
  - intros a b c. rewrite !Nat.leb_le. lia.
Qed.

(** ** Properties *)

(** Budgets survive their wire form.  Valid limits, exhaustion verdicts
    and unavailable marks are read back unchanged; a valid usage snapshot is
    read back with its marks in precedence order, and so a snapshot taken by
    an evaluator, which is in that order already, unchanged. *)
Theorem budget_wire_roundtrip :
  (forall l, limits_validate l = Ok tt -> limits_from_value (limits_to_value l) = Some l) /\
  (forall e, exhaustion_validate e = Ok tt ->
     exhaustion_from_value (exhaustion_to_value e) = Some e) /\
  (forall u, usage_validate u = Ok tt ->
     usage_from_value (usage_to_value u)
     = Some (with_unavailable u (sort_unavailable (us_unavailable_dimensions u)))) /\
  (forall e, usage_validate (snapshot e) = Ok tt ->
     usage_from_value (usage_to_value (snapshot e)) = Some (snapshot e)).
Proof.
  split; [exact limits_wire|]. split; [exact exhaustion_wire|]. split; [exact usage_wire|].
  intros e Hv. rewrite (usage_wire _ Hv). f_equal. unfold snapshot, with_unavailable. cbn. f_equal.
  apply sort_unavailable_idem.
Qed.
