(* ===== verification/Records.v ===== *)
(** * Run records

    [types/messages.rs], [types/records.rs], [types/compaction.rs] and their
    [types/dict] codecs: tool calls, conversation messages, cycle records and
    the agent result a checkpoint ends with. *)

From Stdlib Require Import Ascii String NArith Lia.
From stdpp Require Import base strings list sets.
From S2P Require Import Prelude Json Canonical CheckpointTypes ToolResult Journal TokenUsage.
From S2P Require Import Budget.

(** ** Tool calls and messages *)

Record ToolCall := {
  tc_id : string;
  tc_name : string;
  tc_arguments : object;
  tc_extra_content : option Value
}.
#[global] Instance ToolCall_eq_dec : EqDecision ToolCall.
Proof. solve_decision. Defined.

Definition tool_call_to_map (c : ToolCall) : object :=
  insert_opt "extra_content" (fun v => v) (tc_extra_content c)
    (map_of_list [("id", Str (tc_id c)); ("name", Str (tc_name c));
                  ("arguments", Object (tc_arguments c))]).
Definition tool_call_to_dict (c : ToolCall) : Value := Object (tool_call_to_map c).

Definition tool_call_fields : list string := ["id"; "name"; "arguments"; "extra_content"].

Definition strict_tool_call (data : Value) : result ToolCall :=
  let? m := ok_or (as_object data) "ToolCall payload must be an object" in
  fail_if (negb (only_fields tool_call_fields m)) with "ToolCall contains unknown field" ;;
  let? id := read_required_string m "id" in
  let? name := read_required_string m "name" in
  let? arguments := ok_or (map_get "arguments" m ≫= as_object)
                          "ToolCall arguments must be an object" in
  let? extra_content :=
    match map_get "extra_content" m with
    | None => Ok None
    | Some (Object v) => Ok (Some (Object v))
    | Some _ => Err "ToolCall extra_content must be an object"
    end in
  Ok {| tc_id := id; tc_name := name; tc_arguments := arguments;
        tc_extra_content := extra_content |}.

Inductive MessageRole := RSystem | RUser | RAssistant | RTool.
#[global] Instance MessageRole_eq_dec : EqDecision MessageRole.
Proof. solve_decision. Defined.

Record Message := {
  m_role : MessageRole;
  m_content : string;
  m_name : option string;
  m_tool_call_id : option string;
  m_tool_calls : list ToolCall;
  m_reasoning_content : option string;
  m_image_url : option string;
  m_metadata : object;
  m_artifact_ref : option ToolArtifactRef
}.
#[global] Instance Message_eq_dec : EqDecision Message.
Proof. solve_decision. Defined.

Definition message_new (role : MessageRole) (content : string) : Message :=
  {| m_role := role; m_content := content; m_name := None; m_tool_call_id := None;
     m_tool_calls := []; m_reasoning_content := None; m_image_url := None; m_metadata := [];
     m_artifact_ref := None |}.
Definition message_user (content : string) : Message := message_new RUser content.
Definition message_tool (content tool_call_id : string) : Message :=
  let m := message_new RTool content in
  {| m_role := m_role m; m_content := m_content m; m_name := m_name m;
     m_tool_call_id := Some tool_call_id; m_tool_calls := m_tool_calls m;
     m_reasoning_content := m_reasoning_content m; m_image_url := m_image_url m;
     m_metadata := m_metadata m; m_artifact_ref := m_artifact_ref m |}.

(** ** Compaction evidence *)

(** The text side of serde_json. *)
Class JsonText := {
  (** [serde_json::from_str]. *)
  json_from_str : string -> option Value;
  (** The message of the error [from_str] returns. *)
  json_error_text : string -> string;
  (** [Value::to_string]. *)
  json_to_string : Value -> string
}.

Definition COMPACTION_METADATA_KEY : string := "_vv_agent_compaction".

Section Compaction.
Context `{Digest} `{JsonText}.

Definition validate_compaction_record (key pointer : string) (v : Value) : result unit :=
  let? record := ok_or (as_object v) "invalid compaction evidence record" in
  fail_if (negb (map_len record =? 4)%N
           || negb (forallb (fun k => map_contains_key k record)
                      ["tool_call_id"; "tool_name"; "arguments"; pointer]))
  with "invalid compaction evidence record fields" ;;
  do? try_for_each (fun k =>
        fail_if (is_none_or (map_get k record ≫= as_str) str_is_empty)
        with "invalid compaction evidence identity" ;; Ok tt) ["tool_call_id"; "tool_name"] ;;
  let? raw := ok_or (map_get "arguments" record ≫= as_str)
                    "invalid compaction evidence arguments" in
  let? arguments := ok_or (json_from_str raw) "arguments" in
  (** [!arguments.is_object() || to_string(..)? != raw]: a value that is not
      an object is rejected before it is printed. *)
  fail_if (negb (is_object arguments))
  with "compaction evidence arguments must be canonical object JSON" ;;
  let? canonical := ok_or (canonicalizer_to_vec arguments) "arguments" in
  fail_if (negb (String.eqb canonical raw))
  with "compaction evidence arguments must be canonical object JSON" ;;
  if String.eqb key "artifacts" then
    let? artifact := ok_or (map_get pointer record ≫= artifact_from_value) "artifact_ref" in
    artifact_validate artifact
  else
    let? cursor := ok_or (map_get pointer record ≫= cursor_ref_from_value) "cursor" in
    cursor_ref_validate cursor.

Definition validate_compaction_metadata (metadata : object) : result unit :=
  match map_get COMPACTION_METADATA_KEY metadata with
  | None => Ok tt
  | Some manifest =>
      let? m := ok_or (as_object manifest) "invalid compaction evidence manifest" in
      fail_if (negb (map_len m =? 2)%N || negb (map_contains_key "artifacts" m)
               || negb (map_contains_key "cursors" m))
      with "invalid compaction evidence manifest fields" ;;
      try_for_each (fun '(key, pointer) =>
        let? records := ok_or (map_get key m ≫= as_array) "compaction evidence must be arrays" in
        try_for_each (validate_compaction_record key pointer) records)
        [("artifacts", "artifact_ref"); ("cursors", "cursor")]
  end.
End Compaction.

(** ** Cycle records *)

Record CycleRecord := {
  cr_index : N;
  cr_assistant_message : string;
  cr_tool_calls : list ToolCall;
  cr_tool_results : list ToolExecutionResult;
  cr_memory_compacted : bool
}.
#[global] Instance CycleRecord_eq_dec : EqDecision CycleRecord.
Proof. solve_decision. Defined.

Definition cycle_to_dict (c : CycleRecord) : Value :=
  json_object [
    ("index", json_u64 (cr_index c));
    ("assistant_message", Str (cr_assistant_message c));
    ("tool_calls", Array (map tool_call_to_dict (cr_tool_calls c)));
    ("tool_results", Array (map to_dict (cr_tool_results c)));
    ("memory_compacted", Bool (cr_memory_compacted c))].

Definition cycle_fields : list string :=
  ["index"; "assistant_message"; "tool_calls"; "tool_results"; "memory_compacted"].

(** [iter().map(f).collect::<Result<Vec<_>, _>>()]. *)
Fixpoint collect {A B} (f : A -> result B) (l : list A) : result (list B) :=
  match l with
  | [] => Ok []
  | x :: r => let? y := f x in let? ys := collect f r in Ok (y :: ys)
  end.

Definition cycle_from_dict (data : Value) : result CycleRecord :=
  let? m := ok_or (as_object data) "CycleRecord payload must be an object" in
  fail_if (negb (only_fields cycle_fields m)) with "CycleRecord contains unknown field" ;;
  let? index := ok_or (map_get "index" m ≫= as_u64)
                      "CycleRecord index must be an unsigned integer" in
  let? index := ok_or (u32_try_from index)
                      "CycleRecord index must fit in an unsigned 32-bit integer" in
  let? assistant_message := ok_or (map_get "assistant_message" m ≫= as_str)
                                  "CycleRecord assistant_message must be a string" in
  let? calls := ok_or (map_get "tool_calls" m ≫= as_array)
                      "CycleRecord tool_calls must be an array" in
  let? tool_calls := collect strict_tool_call calls in
  let? results := ok_or (map_get "tool_results" m ≫= as_array)
                        "CycleRecord tool_results must be an array" in
  let? tool_results := collect from_dict results in
  let? memory_compacted := ok_or (map_get "memory_compacted" m ≫= as_bool)
                                 "CycleRecord memory_compacted must be a boolean" in
  Ok {| cr_index := index; cr_assistant_message := assistant_message;
        cr_tool_calls := tool_calls; cr_tool_results := tool_results;
        cr_memory_compacted := memory_compacted |}.

(** ** Agent results *)

Inductive AgentStatus :=
| PendingA | RunningA | DeferredA | HostInteractionA | WaitUserA | CompletedA | FailedA
| MaxCyclesA | ReconciliationRequiredA.
#[global] Instance AgentStatus_eq_dec : EqDecision AgentStatus.
Proof. solve_decision. Defined.

Inductive CompletionReason :=
| ToolFinish | NoToolFinish | StopOnFirstTool | StopAtToolName | WaitUserR | MaxCyclesR
| CancelledR | FailedR | BudgetExhaustedR.

Definition agent_status_value (s : AgentStatus) : string :=
  match s with
  | PendingA => "pending" | RunningA => "running" | DeferredA => "deferred"
  | HostInteractionA => "host_interaction" | WaitUserA => "wait_user"
  | CompletedA => "completed" | FailedA => "failed" | MaxCyclesA => "max_cycles"
  | ReconciliationRequiredA => "reconciliation_required"
  end.

Record AgentResultError := { ae_code : string; ae_message : string; ae_retryable : bool }.

Record AgentResult := {
  ar_status : AgentStatus;
  ar_messages : list Message;
  ar_cycles : list CycleRecord;
  ar_completion_reason : option CompletionReason;
  ar_completion_tool_name : option string;
  ar_partial_output : option string;
  ar_budget_usage : option BudgetUsageSnapshot;
  ar_budget_exhaustion : option BudgetExhaustion;
  ar_checkpoint_key : option string;
  ar_resume_observations : list ResumeObservation;
  ar_final_answer : option string;
  ar_wait_reason : option string;
  ar_error : option AgentResultError;
  ar_error_code : option string;
  ar_shared_state : object;
  ar_token_usage : TaskTokenUsage
}.

(** ** Lemmas *)

Lemma collect_Ok {A B} (f : A -> result B) (g : B -> A) l :
  Forall (fun b => f (g b) = Ok b) l -> collect f (map g l) = Ok l.
Proof.
  induction 1 as [|b l Hb _ IH]; simpl; [done|]. by rewrite Hb, IH.
Qed.

Lemma collect_inv {A B} (f : A -> result B) l ys :
  collect f l = Ok ys -> Forall2 (fun x y => f x = Ok y) l ys.
Proof.
  revert ys. induction l as [|x l IH]; simpl; intros ys Hc; result_inv; [constructor|].
  constructor; [done|]. by apply IH.
Qed.

Lemma tool_call_wire c :
  (forall v, tc_extra_content c = Some v -> is_object v = true) ->
  strict_tool_call (tool_call_to_dict c) = Ok c.
Proof.
  intros Hx. destruct c as [id name args extra]. cbn in Hx. unfold strict_tool_call, tool_call_to_dict.
  cbn [as_object ok_or].
  assert (Hof : only_fields tool_call_fields
                  (tool_call_to_map {| tc_id := id; tc_name := name; tc_arguments := args;
                                       tc_extra_content := extra |}) = true).
  { apply only_fields_spec. intros k [->|Hk]%map_keys_insert_opt; [set_solver|].
    apply (proj1 (map_of_list_keys _ _)) in Hk. cbn in Hk. set_solver. }
  rewrite Hof. cbn [negb]. unfold tool_call_to_map, read_required_string.
  rewrite !map_get_insert_opt.
  destruct extra as [x|]; [|done]. specialize (Hx x eq_refl). by destruct x.
Qed.

Lemma strict_tool_call_object v c :
  strict_tool_call v = Ok c -> forall x, tc_extra_content c = Some x -> is_object x = true.
Proof.
  unfold strict_tool_call. intros Hc x Hx. result_inv; cbn [tc_extra_content] in *;
    repeat case_match; by simplify_eq.
Qed.

Definition cycle_wire_ok (c : CycleRecord) : Prop :=
  (cr_index c <= U32_MAX)%N /\
  Forall (fun t => forall v, tc_extra_content t = Some v -> is_object v = true) (cr_tool_calls c) /\
  Forall (fun r => tool_result_validate r = Ok tt /\ byte_counts_wire_safe r) (cr_tool_results c).

(** Reading back the wire form runs the two element readers and the [u32]
    check; everything else is decided. *)
Lemma cycle_from_dict_to_dict c :
  cycle_from_dict (cycle_to_dict c) =
  (let? index := ok_or (u32_try_from (cr_index c))
                       "CycleRecord index must fit in an unsigned 32-bit integer" in
   let? calls := collect strict_tool_call (map tool_call_to_dict (cr_tool_calls c)) in
   let? results := collect from_dict (map to_dict (cr_tool_results c)) in
   Ok {| cr_index := index; cr_assistant_message := cr_assistant_message c;
         cr_tool_calls := calls; cr_tool_results := results;
         cr_memory_compacted := cr_memory_compacted c |}).
Proof.
  destruct c as [i msg calls results b]. unfold cycle_from_dict, cycle_to_dict, json_object.
  cbn [as_object ok_or].
  match goal with |- context [only_fields cycle_fields (map_of_list ?l)] =>
    assert (only_fields cycle_fields (map_of_list l) = true) as -> by
      (apply only_fields_spec; intros k Hk; apply (proj1 (map_of_list_keys _ _)) in Hk; exact Hk)
  end.
  reflexivity.
Qed.

Lemma collect_map_Ok {A B} (f : A -> result B) (g : B -> A) (P : B -> Prop) l :
  (forall b, f (g b) = Ok b <-> P b) ->
  collect f (map g l) = Ok l <-> Forall P l.
Proof.
  intros Hfg. split.
  - intros Hc%collect_inv. induction l as [|x l IH]; [constructor|].
    simpl in Hc. apply Forall2_cons in Hc as [Hx Hl]. constructor; [by apply Hfg|by apply IH].
  - intros Hf. apply collect_Ok. eapply Forall_impl; [exact Hf|]. intros b. apply Hfg.
Qed.

Lemma tool_call_wire_iff c :
  strict_tool_call (tool_call_to_dict c) = Ok c <->
  (forall v, tc_extra_content c = Some v -> is_object v = true).
Proof. split; [apply strict_tool_call_object|apply tool_call_wire]. Qed.

Lemma tool_result_wire_iff r :
  from_dict (to_dict r) = Ok r <-> tool_result_validate r = Ok tt /\ byte_counts_wire_safe r.
Proof.
  split; [|intros []; by apply from_dict_to_dict].
  intros H. split; [by eapply from_dict_validates|by eapply from_dict_safe].
Qed.

Lemma cycle_wire_iff c : cycle_from_dict (cycle_to_dict c) = Ok c <-> cycle_wire_ok c.
Proof.
  rewrite cycle_from_dict_to_dict. unfold cycle_wire_ok, u32_try_from.
  rewrite <- (collect_map_Ok strict_tool_call tool_call_to_dict _ _ tool_call_wire_iff).
  rewrite <- (collect_map_Ok from_dict to_dict _ _ tool_result_wire_iff).
  destruct c as [i msg calls results b].
  cbn [cr_index cr_tool_calls cr_tool_results cr_assistant_message cr_memory_compacted].
  destruct (N.leb_spec i U32_MAX) as [Hi|Hi]; cbn [ok_or].
  - split.
    + intros Hc. result_inv. done.
    + intros (_ & -> & ->). done.
  - split; [done|lia].
Qed.

(** ** Properties *)

(** A cycle record is read back from its wire form as the same record
    exactly when its index is a [u32], the extra content of its tool calls is
    an object and its tool results are valid with JSON-safe byte counts. *)
Theorem cycle_record_roundtrip (c : CycleRecord) :
  cycle_from_dict (cycle_to_dict c) = Ok c <->
  (cr_index c <= U32_MAX)%N /\
  Forall (fun t => forall v, tc_extra_content t = Some v -> is_object v = true) (cr_tool_calls c) /\
  Forall (fun r => tool_result_validate r = Ok tt /\ byte_counts_wire_safe r) (cr_tool_results c).
Proof. apply cycle_wire_iff. Qed.
