(* ===== verification/ResultCodec.v ===== *)
(** * Messages and results on the wire

    [types/dict/messages.rs], [types/dict/records/result.rs],
    [types/dict/common] and the argument parsing of [types/tool_calls.rs]: the
    dictionary form of conversation messages and of the agent result, which a
    finished checkpoint stores. *)

From Stdlib Require Import Ascii String NArith Sorted Lia.
From stdpp Require Import base strings list sets sorting.
From S2P Require Import Prelude Json Canonical CheckpointTypes ToolResult Journal TokenUsage.
From S2P Require Import Budget BudgetWire Records.

(** ** [str::trim] *)

(** White space at the start, then the longest blank suffix. *)
Fixpoint trim_start (fuel : nat) (s : list N) : list N :=
  match fuel, ws_prefix s with
  | S f, S n => trim_start f (drop (S n) s)
  | _, _ => s
  end.
Fixpoint trim_end (s : list N) : list N :=
  match s with
  | [] => []
  | b :: r => if bytes_blank (length s) s then [] else b :: trim_end r
  end.
Definition string_of_bytes (l : list N) : string := string_of_list_ascii (map ascii_of_N l).
Definition str_trim (s : string) : string :=
  string_of_bytes (trim_end (trim_start (String.length s) (str_bytes s))).

(** ** Enumerations *)

Definition message_role_value (r : MessageRole) : string :=
  match r with
  | RSystem => "system" | RUser => "user" | RAssistant => "assistant" | RTool => "tool"
  end.
Definition parse_message_role (s : string) : result MessageRole :=
  if String.eqb s "system" then Ok RSystem
  else if String.eqb s "user" then Ok RUser
  else if String.eqb s "assistant" then Ok RAssistant
  else if String.eqb s "tool" then Ok RTool else Err "unknown message role".

Definition parse_agent_status (s : string) : result AgentStatus :=
  if String.eqb s "pending" then Ok PendingA
  else if String.eqb s "running" then Ok RunningA
  else if String.eqb s "deferred" then Ok DeferredA
  else if String.eqb s "host_interaction" then Ok HostInteractionA
  else if String.eqb s "wait_user" then Ok WaitUserA
  else if String.eqb s "completed" then Ok CompletedA
  else if String.eqb s "failed" then Ok FailedA
  else if String.eqb s "max_cycles" then Ok MaxCyclesA
  else if String.eqb s "reconciliation_required" then Ok ReconciliationRequiredA
  else Err "unknown agent status".

Definition completion_reason_value (r : CompletionReason) : string :=
  match r with
  | ToolFinish => "tool_finish" | NoToolFinish => "no_tool_finish"
  | StopOnFirstTool => "stop_on_first_tool" | StopAtToolName => "stop_at_tool_name"
  | WaitUserR => "wait_user" | MaxCyclesR => "max_cycles" | CancelledR => "cancelled"
  | FailedR => "failed" | BudgetExhaustedR => "budget_exhausted"
  end.
Definition parse_completion_reason (s : string) : result CompletionReason :=
  if String.eqb s "tool_finish" then Ok ToolFinish
  else if String.eqb s "no_tool_finish" then Ok NoToolFinish
  else if String.eqb s "stop_on_first_tool" then Ok StopOnFirstTool
  else if String.eqb s "stop_at_tool_name" then Ok StopAtToolName
  else if String.eqb s "wait_user" then Ok WaitUserR
  else if String.eqb s "max_cycles" then Ok MaxCyclesR
  else if String.eqb s "cancelled" then Ok CancelledR
  else if String.eqb s "failed" then Ok FailedR
  else if String.eqb s "budget_exhausted" then Ok BudgetExhaustedR
  else Err "unknown completion reason".

(** ** Field readers of [types/dict/common/fields.rs] *)

Definition read_optional_string (m : object) (k : string) : option string :=
  get_non_null m k ≫= as_str.
Definition read_array (m : object) (k : string) : option (list Value) := map_get k m ≫= as_array.
Definition read_metadata (m : object) (k : string) : result object :=
  match map_get k m with
  | Some (Object entries) => Ok entries
  | Some Null | None => Ok []
  | Some _ => Err "must be an object"
  end.

(** ** Tool calls *)

Section Codec.
Context `{Digest} `{JsonText}.

Definition json_type_name (v : Value) : string :=
  match v with
  | Null => "null" | Bool _ => "bool" | Num _ => "number" | Str _ => "string"
  | Array _ => "array" | Object _ => "object"
  end.

(** The error is a code and a text. *)
Definition parse_raw_tool_arguments (raw : Value) : object + (string * string) :=
  match raw with
  | Null => inl []
  | Object m => inl m
  | Str s =>
      let stripped := str_trim s in
      if str_is_empty stripped then inl []
      else match json_from_str stripped with
      | None => inr ("invalid_arguments_json",
                     "Invalid tool arguments JSON: " +:+ json_error_text stripped)
      | Some (Object m) => inl m
      | Some _ => inr ("invalid_arguments_payload", "Tool arguments must decode to an object")
      end
  | other => inr ("invalid_arguments_type",
                  "Unsupported tool argument type: " +:+ json_type_name other)
  end.

Definition from_raw_arguments (id name : string) (raw : Value) : ToolCall :=
  match parse_raw_tool_arguments raw with
  | inl arguments => {| tc_id := id; tc_name := name; tc_arguments := arguments;
                        tc_extra_content := None |}
  | inr (code, error) =>
      {| tc_id := id; tc_name := name; tc_arguments := [];
         tc_extra_content := Some (json_object [
           ("raw_arguments", raw); ("argument_error_code", Str code);
           ("argument_error", Str error)]) |}
  end.

Definition object_only (o : option Value) : option Value :=
  match o with Some (Object m) => Some (Object m) | _ => None end.

Definition tool_call_from_dict (data : Value) : result ToolCall :=
  let? m := ok_or (as_object data) "ToolCall payload must be an object" in
  match map_get "function" m ≫= as_object with
  | Some function =>
      let? id := read_required_string m "id" in
      let? name := read_required_string function "name" in
      let raw := unwrap_or (map_get "arguments" function) (Str "{}") in
      let call := from_raw_arguments id name raw in
      Ok {| tc_id := tc_id call; tc_name := tc_name call; tc_arguments := tc_arguments call;
            tc_extra_content := object_only (map_get "extra_content" m) |}
  | None =>
      let? id := read_required_string m "id" in
      let? name := read_required_string m "name" in
      let? arguments := read_metadata m "arguments" in
      Ok {| tc_id := id; tc_name := name; tc_arguments := arguments;
            tc_extra_content := object_only (map_get "extra_content" m) |}
  end.

Definition tool_call_to_openai (c : ToolCall) : Value :=
  Object (insert_opt "extra_content" (fun v => v) (tc_extra_content c)
    (map_of_list [
      ("id", Str (tc_id c)); ("type", Str "function");
      ("function", json_object [
         ("name", Str (tc_name c));
         ("arguments", Str (json_to_string (Object (tc_arguments c))))])])).

(** ** Messages *)

(** [insert_optional_string] is [insert_opt k Str]. *)
Definition message_to_map (m : Message) : object :=
  let payload := map_of_list [("role", Str (message_role_value (m_role m)));
                              ("content", Str (m_content m))] in
  let payload := insert_opt "name" Str (m_name m) payload in
  let payload := insert_opt "tool_call_id" Str (m_tool_call_id m) payload in
  let payload := match m_tool_calls m with
                 | [] => payload
                 | calls => map_insert "tool_calls" (Array (map tool_call_to_openai calls)) payload
                 end in
  let payload := insert_opt "reasoning_content" Str (m_reasoning_content m) payload in
  let payload := insert_opt "image_url" Str (m_image_url m) payload in
  let payload := insert_metadata (m_metadata m) payload in
  insert_opt "artifact_ref" artifact_to_value (m_artifact_ref m) payload.
Definition message_to_dict (m : Message) : Value := Object (message_to_map m).

Definition message_allowed : list string :=
  ["role"; "content"; "name"; "tool_call_id"; "tool_calls"; "reasoning_content"; "image_url";
   "metadata"; "artifact_ref"].

Definition message_from_dict (data : Value) : result Message :=
  let? m := ok_or (as_object data) "Message payload must be an object" in
  fail_if (negb (only_fields message_allowed m)) with "Message contains unknown fields" ;;
  let? role := read_required_string m "role" in
  let? role := parse_message_role role in
  let? content := read_required_string m "content" in
  let? tool_calls := collect tool_call_from_dict (unwrap_or (read_array m "tool_calls") []) in
  do? try_for_each (fun field =>
        fail_if (is_some_and (map_get field m)
                   (fun v => negb (is_null v) && is_none (as_str v)))
        with "Message field must be a string or null" ;; Ok tt)
        ["name"; "tool_call_id"; "reasoning_content"; "image_url"] ;;
  let? artifact :=
    match map_get "artifact_ref" m with
    | None => Ok None
    | Some value =>
        fail_if (negb (is_object value)) with "artifact_ref must be an object" ;;
        let? artifact := ok_or (artifact_from_value value) "artifact_ref" in
        do? artifact_validate artifact ;;
        Ok (Some artifact)
    end in
  let? metadata := read_metadata m "metadata" in
  do? validate_compaction_metadata metadata ;;
  Ok {| m_role := role; m_content := content; m_name := read_optional_string m "name";
        m_tool_call_id := read_optional_string m "tool_call_id"; m_tool_calls := tool_calls;
        m_reasoning_content := read_optional_string m "reasoning_content";
        m_image_url := read_optional_string m "image_url"; m_metadata := metadata;
        m_artifact_ref := artifact |}.

(** ** Agent results *)

Definition result_error_validate (e : AgentResultError) : result unit :=
  fail_if (trim_is_empty (ae_code e) || trim_is_empty (ae_message e))
  with "AgentResult error code and message must be non-empty" ;;
  Ok tt.
Definition result_error_to_value (e : AgentResultError) : Value :=
  json_object [("code", Str (ae_code e)); ("message", Str (ae_message e));
               ("retryable", Bool (ae_retryable e))].
Definition result_error_from_value (v : Value) : option AgentResultError :=
  fields ← serde_strict_struct ["code"; "message"; "retryable"] v;
  match fields with
  | [a; b; c] =>
      code ← a ≫= as_str;
      message ← b ≫= as_str;
      retryable ← c ≫= as_bool;
      Some {| ae_code := code; ae_message := message; ae_retryable := retryable |}
  | _ => None
  end.

Definition result_required : list string :=
  ["status"; "completion_reason"; "completion_tool_name"; "partial_output"; "messages"; "cycles";
   "final_answer"; "wait_reason"; "error"; "shared_state"; "token_usage"; "checkpoint_key";
   "resume_observations"].
Definition result_optional : list string := ["budget_usage"; "budget_exhaustion"; "error_code"].

(** [AgentResult::to_dict].  Its [expect] fires only on an error with an empty
    code or message, which no caller of the kernel builds. *)
Definition agent_result_to_map (r : AgentResult) : object :=
  let payload := map_of_list [
    ("status", Str (agent_status_value (ar_status r)));
    ("completion_reason", opt_to_value (fun x => Str (completion_reason_value x))
                            (ar_completion_reason r));
    ("completion_tool_name", json_opt_str (ar_completion_tool_name r));
    ("partial_output", json_opt_str (ar_partial_output r));
    ("checkpoint_key", json_opt_str (ar_checkpoint_key r));
    ("resume_observations", Array (map observation_to_value (ar_resume_observations r)));
    ("messages", Array (map message_to_dict (ar_messages r)));
    ("cycles", Array (map cycle_to_dict (ar_cycles r)));
    ("final_answer", json_opt_str (ar_final_answer r));
    ("wait_reason", json_opt_str (ar_wait_reason r));
    ("error", opt_to_value result_error_to_value (ar_error r));
    ("shared_state", Object (ar_shared_state r));
    ("token_usage", task_usage_to_value (ar_token_usage r))] in
  let payload := insert_opt "budget_usage" usage_to_value (ar_budget_usage r) payload in
  let payload := insert_opt "budget_exhaustion" exhaustion_to_value (ar_budget_exhaustion r) payload in
  insert_opt "error_code" Str (ar_error_code r) payload.
Definition agent_result_to_dict (r : AgentResult) : Value := Object (agent_result_to_map r).

(** [strict_optional_string] of [result.rs]. *)
Definition result_optional_string (m : object) (k : string) : result (option string) :=
  match map_get k m with
  | None | Some Null => Ok None
  | Some (Str s) => Ok (Some s)
  | Some _ => Err "AgentResult field must be a string or null"
  end.
Definition optional_completion_reason (m : object) : result (option CompletionReason) :=
  let? s := result_optional_string m "completion_reason" in
  transpose (parse_completion_reason <$> s).

(** Sorted and unique by operation id, kind and cycle. *)
Definition observation_rank (o : ResumeObservation) : string * N * N :=
  (obs_operation_id o, match obs_operation_kind o with Model => 0%N | Tool => 1%N end,
   obs_cycle_index o).
Definition rank_lt (a b : string * N * N) : bool :=
  match String.compare a.1.1 b.1.1 with
  | Lt => true
  | Gt => false
  | Eq => (a.1.2 <? b.1.2)%N || ((a.1.2 =? b.1.2)%N && (a.2 <? b.2)%N)
  end.
Fixpoint validate_resume_observations (previous : option (string * N * N))
    (l : list ResumeObservation) : result unit :=
  match l with
  | [] => Ok tt
  | o :: rest =>
      do? map_err (observation_validate o) "invalid resume observation" ;;
      let key := observation_rank o in
      fail_if (is_some_and previous (fun p => negb (rank_lt p key)))
      with "AgentResult resume_observations must be sorted and unique by operation identity" ;;
      validate_resume_observations (Some key) rest
  end.

Definition serde_required {T} (decode : Value -> option T) (v : Value) : result T :=
  ok_or (decode v) "AgentResult field must be a valid object".

Definition agent_result_from_dict (data : Value) : result AgentResult :=
  let? m := ok_or (as_object data) "AgentResult payload must be an object" in
  fail_if (existsb (fun f => negb (map_contains_key f m)) result_required
           || negb (only_fields (result_required ++ result_optional) m))
  with "AgentResult must contain exactly the current wire fields" ;;
  fail_if (existsb (fun f => is_some_and (map_get f m) is_null) result_optional)
  with "AgentResult optional field must be omitted when absent" ;;
  let? messages := ok_or (read_array m "messages") "messages must be an array" in
  let? messages := collect message_from_dict messages in
  let? cycles := ok_or (read_array m "cycles") "cycles must be an array" in
  let? cycles := collect cycle_from_dict cycles in
  let? status := read_required_string m "status" in
  let? status := parse_agent_status status in
  let? reason := optional_completion_reason m in
  let? tool_name := result_optional_string m "completion_tool_name" in
  let? partial_output := result_optional_string m "partial_output" in
  let? budget_usage := transpose (serde_required usage_from_value <$> map_get "budget_usage" m) in
  let? exhaustion :=
    transpose (serde_required exhaustion_from_value <$> map_get "budget_exhaustion" m) in
  let? checkpoint_key := result_optional_string m "checkpoint_key" in
  let? observations := ok_or (map_get "resume_observations" m ≫= as_array)
                             "resume_observations must be an array" in
  let? observations := collect (serde_required observation_from_value) observations in
  let? final_answer := result_optional_string m "final_answer" in
  let? wait_reason := result_optional_string m "wait_reason" in
  let? error := transpose ((fun v => let? e := serde_required result_error_from_value v in
                                     do? result_error_validate e ;; Ok e)
                           <$> get_non_null m "error") in
  let? error_code := result_optional_string m "error_code" in
  let? shared_state := read_metadata m "shared_state" in
  let? token_usage := ok_or (map_get "token_usage" m ≫= task_usage_from_value)
                            "invalid TaskTokenUsage" in
  let result :=
    {| ar_status := status; ar_messages := messages; ar_cycles := cycles;
       ar_completion_reason := reason; ar_completion_tool_name := tool_name;
       ar_partial_output := partial_output; ar_budget_usage := budget_usage;
       ar_budget_exhaustion := exhaustion; ar_checkpoint_key := checkpoint_key;
       ar_resume_observations := observations; ar_final_answer := final_answer;
       ar_wait_reason := wait_reason; ar_error := error; ar_error_code := error_code;
       ar_shared_state := shared_state; ar_token_usage := token_usage |} in
  do? validate_resume_observations None observations ;;
  fail_if (negb (value_eqb (agent_result_to_dict result) data))
  with "AgentResult must use the canonical current wire shape" ;;
  Ok result.

(** [AgentResult::failed_with_code]. *)
Definition failed_with_code (code error : string) (retryable : bool) : AgentResult :=
  {| ar_status := FailedA; ar_messages := []; ar_cycles := [];
     ar_completion_reason := Some FailedR; ar_completion_tool_name := None;
     ar_partial_output := None; ar_budget_usage := None; ar_budget_exhaustion := None;
     ar_checkpoint_key := None; ar_resume_observations := []; ar_final_answer := None;
     ar_wait_reason := None;
     ar_error := Some {| ae_code := code; ae_message := error; ae_retryable := retryable |};
     ar_error_code := None; ar_shared_state := []; ar_token_usage := task_usage_default |}.
End Codec.

(** ** Lemmas *)

Lemma role_wire r : parse_message_role (message_role_value r) = Ok r.
Proof. by destruct r. Qed.
Lemma status_wire s : parse_agent_status (agent_status_value s) = Ok s.
Proof. by destruct s. Qed.
Lemma reason_wire r : parse_completion_reason (completion_reason_value r) = Ok r.
Proof. by destruct r. Qed.
Lemma result_error_wire e : result_error_from_value (result_error_to_value e) = Some e.
Proof. by destruct e. Qed.

(** *** Token usage *)

Definition model_call_wire_ok (c : ModelCallRecord) : Prop :=
  model_call_record_check c = Ok tt /\ (mc_attempt c <= U32_MAX)%N
  /\ (mc_cycle_index c <= U32_MAX)%N.
(** The totals are those of the calls. *)
Definition task_usage_wire_ok (t : TaskTokenUsage) : Prop :=
  Forall model_call_wire_ok (tt_model_calls t)
  /\ try_fold add_model_call task_usage_default (tt_model_calls t) = Ok t.

Lemma model_calls_wire l :
  Forall model_call_wire_ok l -> mapM model_call_from_value (map model_call_to_value l) = Some l.
Proof.
  induction 1 as [|c l (Hv & Ha & Hc) _ IH]; [done|]. cbn [map mapM].
  by rewrite (model_call_wire c Hv Ha Hc), IH.
Qed.
Lemma task_usage_wire t :
  task_usage_wire_ok t -> task_usage_from_value (task_usage_to_value t) = Some t.
Proof.
  intros [Hc Ht]. unfold task_usage_from_value, task_usage_to_value.
  match goal with |- context [json_object ?x] => change task_usage_fields with (map fst x) end.
  strict_struct_literal. cbn [map snd mbind option_bind as_str].
  assert (Hu : forall o, required_option as_u64 (Some (json_opt_u64 o)) = Some o) by (by intros []).
  rewrite !Hu. cbn [mbind option_bind]. rewrite cache_usage_wire. cbn [mbind option_bind as_array].
  rewrite (model_calls_wire _ Hc). cbn [mbind option_bind]. rewrite Ht.
  replace (negb (String.eqb TASK_TOKEN_USAGE_SCHEMA_VERSION TASK_TOKEN_USAGE_SCHEMA_VERSION))
    with false by (by rewrite String.eqb_refl).
  rewrite !bool_decide_eq_true_2 by done. done.
Qed.

Section CodecLemmas.
Context `{Digest} `{JsonText}.

(** *** Tool calls and messages *)

(** The arguments are printed, trimmed and parsed again; extra content is an
    object. *)
Definition openai_call_ok (c : ToolCall) : Prop :=
  let text := str_trim (json_to_string (Object (tc_arguments c))) in
  text <> "" /\ json_from_str text = Some (Object (tc_arguments c))
  /\ forall v, tc_extra_content c = Some v -> is_object v = true.

Lemma openai_call_wire c : openai_call_ok c -> tool_call_from_dict (tool_call_to_openai c) = Ok c.
Proof.
  destruct c as [id name args extra]. intros (Hne & Hp & Hx).
  cbn [tc_arguments tc_extra_content] in *.
  assert (Hr : from_raw_arguments id name (Str (json_to_string (Object args)))
               = {| tc_id := id; tc_name := name; tc_arguments := args; tc_extra_content := None |}).
  { unfold from_raw_arguments, parse_raw_tool_arguments. rewrite Hp.
    by destruct (str_trim _). }
  unfold tool_call_from_dict, tool_call_to_openai, read_required_string.
  cbn [as_object ok_or tc_id tc_name tc_arguments tc_extra_content]. rewrite !map_get_insert_opt.
  set (m := map_of_list _). cbn [String.eqb Ascii.eqb Bool.eqb].
  change (map_get "id" m) with (Some (Str id)).
  change (map_get "function" m) with
    (Some (Object [("arguments", Str (json_to_string (Object args))); ("name", Str name)])).
  change (map_get "extra_content" m) with (@None Value).
  cbn -[from_raw_arguments]. rewrite Hr. cbn [tc_id tc_name tc_arguments].
  destruct extra as [x|]; [|done]. specialize (Hx x eq_refl). by destruct x.
Qed.

Definition message_wire_ok (m : Message) : Prop :=
  Forall openai_call_ok (m_tool_calls m)
  /\ check_opt artifact_validate (m_artifact_ref m) = Ok tt
  /\ validate_compaction_metadata (m_metadata m) = Ok tt.

Definition insert_tool_calls (calls : list ToolCall) (payload : object) : object :=
  match calls with
  | [] => payload
  | _ :: _ => map_insert "tool_calls" (Array (map tool_call_to_openai calls)) payload
  end.
Lemma map_get_insert_calls k calls m :
  map_get k (insert_tool_calls calls m)
  = if String.eqb k "tool_calls"
    then (match calls with [] => map_get k m
          | _ :: _ => Some (Array (map tool_call_to_openai calls)) end)
    else map_get k m.
Proof. destruct calls; [by destruct (String.eqb k "tool_calls")|apply map_get_insert]. Qed.

Lemma message_map_eq m :
  message_to_map m =
  insert_opt "artifact_ref" artifact_to_value (m_artifact_ref m)
    (insert_metadata (m_metadata m)
      (insert_opt "image_url" Str (m_image_url m)
        (insert_opt "reasoning_content" Str (m_reasoning_content m)
          (insert_tool_calls (m_tool_calls m)
            (insert_opt "tool_call_id" Str (m_tool_call_id m)
              (insert_opt "name" Str (m_name m)
                (map_of_list [("role", Str (message_role_value (m_role m)));
                              ("content", Str (m_content m))]))))))).
Proof. unfold message_to_map. by destruct (m_tool_calls m). Qed.

(** The key is the one a lookup is at, or the lookup goes on. *)
Lemma message_get m :
  map_get "role" (message_to_map m) = Some (Str (message_role_value (m_role m))) /\
  map_get "content" (message_to_map m) = Some (Str (m_content m)) /\
  map_get "name" (message_to_map m) = Str <$> m_name m /\
  map_get "tool_call_id" (message_to_map m) = Str <$> m_tool_call_id m /\
  map_get "reasoning_content" (message_to_map m) = Str <$> m_reasoning_content m /\
  map_get "image_url" (message_to_map m) = Str <$> m_image_url m /\
  map_get "tool_calls" (message_to_map m)
    = match m_tool_calls m with [] => None
      | _ :: _ => Some (Array (map tool_call_to_openai (m_tool_calls m))) end /\
  map_get "metadata" (message_to_map m)
    = match m_metadata m with [] => None | _ :: _ => Some (Object (m_metadata m)) end /\
  map_get "artifact_ref" (message_to_map m) = artifact_to_value <$> m_artifact_ref m.
Proof.
  rewrite message_map_eq.
  repeat split;
    repeat (first [rewrite map_get_insert_opt | rewrite map_get_insert_metadata
                  | rewrite map_get_insert_calls]; cbn [String.eqb Ascii.eqb Bool.eqb]);
    repeat case_match; by simplify_eq.
Qed.

Lemma insert_calls_keys calls m k :
  k ∈ map_keys (insert_tool_calls calls m) -> k = "tool_calls" \/ k ∈ map_keys m.
Proof. destruct calls; [auto|simpl; by rewrite map_keys_insert]. Qed.
Lemma message_only_fields m : only_fields message_allowed (message_to_map m) = true.
Proof.
  apply only_fields_spec. rewrite message_map_eq. intros k Hk.
  repeat match type of Hk with
  | _ ∈ map_keys (insert_opt _ _ _ _) => apply map_keys_insert_opt in Hk as [->|Hk]; [set_solver|]
  | _ ∈ map_keys (insert_metadata _ _) =>
      apply map_keys_insert_metadata in Hk as [->|Hk]; [set_solver|]
  | _ ∈ map_keys (insert_tool_calls _ _) => apply insert_calls_keys in Hk as [->|Hk]; [set_solver|]
  end.
  cbn in Hk. set_solver.
Qed.

Lemma message_wire_dict m : message_wire_ok m -> message_from_dict (message_to_dict m) = Ok m.
Proof.
  intros (Hc & Ha & Hm). unfold message_from_dict, message_to_dict. cbn [as_object ok_or].
  rewrite message_only_fields. cbn [negb].
  destruct (message_get m) as (Er & Ec & En & Ei & Eq & Eu & Et & Ed & Ef).
  unfold read_required_string, read_array, read_metadata, read_optional_string, get_non_null.
  rewrite Er, Ec, Et, Ef, Ed. cbn [mbind option_bind as_str ok_or]. rewrite role_wire.
  cbn [try_for_each]. rewrite En, Ei, Eq, Eu.
  assert (Ecalls : collect tool_call_from_dict
      (unwrap_or (match m_tool_calls m with [] => None
         | _ :: _ => Some (Array (map tool_call_to_openai (m_tool_calls m))) end ≫= as_array) [])
      = Ok (m_tool_calls m)).
  { destruct (m_tool_calls m) as [|c l] eqn:E; [done|]. cbn [mbind option_bind as_array unwrap_or].
    apply collect_Ok. eapply Forall_impl; [exact Hc|]. apply openai_call_wire. }
  rewrite Ecalls. destruct m as [role content name call calls reasoning image meta art].
  cbn [m_name m_tool_call_id m_reasoning_content m_image_url m_artifact_ref m_metadata m_role
    m_content m_tool_calls] in *.
  assert (Emeta : match match meta with [] => None | _ :: _ => Some (Object meta) end with
                  | Some (Object entries) => Ok entries
                  | Some Null | None => Ok []
                  | Some _ => Err "must be an object"
                  end = Ok meta) by (by destruct meta).
  rewrite Emeta.
  assert (Eart : match artifact_to_value <$> art with
                 | None => Ok None
                 | Some value =>
                     fail_if (negb (is_object value)) with "artifact_ref must be an object" ;;
                     let? artifact := ok_or (artifact_from_value value) "artifact_ref" in
                     do? artifact_validate artifact ;;
                     Ok (Some artifact)
                 end = Ok art).
  { destruct art as [a|]; [|done]. cbn [fmap option_fmap option_map]. rewrite artifact_roundtrip.
    cbn in Ha. cbn [ok_or]. by rewrite Ha. }
  rewrite Eart, Hm. by destruct name, call, reasoning, image.
Qed.

(** *** Resume observations *)

Lemma rank_lt_trans a b c : rank_lt a b = true -> rank_lt b c = true -> rank_lt a c = true.
Proof.
  unfold rank_lt. destruct a as [[sa ka] ia], b as [[sb kb] ib], c as [[sc kc] ic]. cbn [fst snd].
  destruct (String.compare sa sb) eqn:Eab; [apply string_compare_eq in Eab as ->| |done].
  - destruct (String.compare sb sc); [|done|done].
    rewrite !orb_true_iff, !andb_true_iff, !N.ltb_lt, !N.eqb_eq. lia.
  - intros _. destruct (String.compare sb sc) eqn:Ebc; [apply string_compare_eq in Ebc as ->| |done].
    + by rewrite Eab.
    + by rewrite (str_lt_trans _ _ _ Eab Ebc).
Qed.

Definition ranked (previous : option (string * N * N)) (l : list ResumeObservation) : Prop :=
  StronglySorted (fun a b => rank_lt a b = true) (option_list previous ++ map observation_rank l).

Lemma validate_resume_observations_spec previous l :
  validate_resume_observations previous l = Ok tt <->
  Forall (fun o => observation_validate o = Ok tt) l /\ ranked previous l.
Proof.
  unfold ranked. revert previous. induction l as [|o l IH]; intros previous; cbn [validate_resume_observations map].
  { split; [intros _|done]. split; [constructor|]. destruct previous; repeat constructor. }
  rewrite Forall_cons. destruct (observation_validate o) as [[]|e] eqn:Ev; cbn [map_err];
    [|split; [done|by intros [[] _]]].
  destruct previous as [p|]; cbn [is_some_and option_list app].
  - destruct (rank_lt p (observation_rank o)) eqn:Er; cbn [negb].
    + rewrite IH. cbn [option_list app]. split; intros [Hf Hs].
      * split; [done|]. constructor; [done|]. constructor; [done|].
        apply StronglySorted_inv in Hs as [_ Hs]. eapply Forall_impl; [exact Hs|].
        intros q. by apply rank_lt_trans.
      * destruct Hf. split; [done|]. by apply StronglySorted_inv in Hs as [? _].
    + split; [done|]. intros [_ Hs]. apply StronglySorted_inv in Hs as [_ Hs].
      apply Forall_cons in Hs as [Hs _]. congruence.
  - rewrite IH. cbn [option_list app]. tauto.
Qed.

(** *** Results *)

Definition result_wire_ok (r : AgentResult) : Prop :=
  Forall message_wire_ok (ar_messages r) /\ Forall cycle_wire_ok (ar_cycles r)
  /\ task_usage_wire_ok (ar_token_usage r)
  /\ (forall u, ar_budget_usage r = Some u ->
        usage_validate u = Ok tt
        /\ sort_unavailable (us_unavailable_dimensions u) = us_unavailable_dimensions u)
  /\ check_opt exhaustion_validate (ar_budget_exhaustion r) = Ok tt
  /\ check_opt result_error_validate (ar_error r) = Ok tt
  /\ Forall (fun o => observation_validate o = Ok tt) (ar_resume_observations r)
  /\ StronglySorted (fun a b => rank_lt a b = true) (map observation_rank (ar_resume_observations r)).

Definition result_base (r : AgentResult) : object :=
  map_of_list [
    ("status", Str (agent_status_value (ar_status r)));
    ("completion_reason", opt_to_value (fun x => Str (completion_reason_value x))
                            (ar_completion_reason r));
    ("completion_tool_name", json_opt_str (ar_completion_tool_name r));
    ("partial_output", json_opt_str (ar_partial_output r));
    ("checkpoint_key", json_opt_str (ar_checkpoint_key r));
    ("resume_observations", Array (map observation_to_value (ar_resume_observations r)));
    ("messages", Array (map message_to_dict (ar_messages r)));
    ("cycles", Array (map cycle_to_dict (ar_cycles r)));
    ("final_answer", json_opt_str (ar_final_answer r));
    ("wait_reason", json_opt_str (ar_wait_reason r));
    ("error", opt_to_value result_error_to_value (ar_error r));
    ("shared_state", Object (ar_shared_state r));
    ("token_usage", task_usage_to_value (ar_token_usage r))].

(** A key that is always written. *)
Lemma result_get r k v :
  k ∉ result_optional -> map_get k (result_base r) = v -> map_get k (agent_result_to_map r) = v.
Proof.
  intros Hk Hb. unfold agent_result_to_map. fold (result_base r). cbv zeta.
  rewrite !map_get_insert_opt.
  assert (Hn : forall k', k' ∈ result_optional -> String.eqb k k' = false)
    by (intros k' Hk'; apply String.eqb_neq; intros ->; done).
  by rewrite !Hn by set_solver.
Qed.
Lemma result_get_optional r :
  map_get "budget_usage" (agent_result_to_map r) = usage_to_value <$> ar_budget_usage r /\
  map_get "budget_exhaustion" (agent_result_to_map r)
    = exhaustion_to_value <$> ar_budget_exhaustion r /\
  map_get "error_code" (agent_result_to_map r) = Str <$> ar_error_code r.
Proof.
  unfold agent_result_to_map. fold (result_base r). cbv zeta. rewrite !map_get_insert_opt.
  cbn [String.eqb Ascii.eqb Bool.eqb].
  change (map_get "budget_usage" (result_base r)) with (@None Value).
  change (map_get "budget_exhaustion" (result_base r)) with (@None Value).
  change (map_get "error_code" (result_base r)) with (@None Value).
  repeat split; by repeat case_match.
Qed.

Lemma result_keys r k :
  k ∈ map_keys (agent_result_to_map r) -> k ∈ result_required ++ result_optional.
Proof.
  unfold agent_result_to_map. fold (result_base r). cbv zeta. intros Hk.
  repeat (apply map_keys_insert_opt in Hk as [->|Hk]; [set_solver|]).
  apply (proj1 (map_of_list_keys _ _)) in Hk. cbn in Hk. set_solver.
Qed.
Lemma result_required_keys r f : f ∈ result_required -> map_contains_key f (agent_result_to_map r) = true.
Proof.
  intros Hf. unfold map_contains_key. unfold result_required in Hf.
  repeat (apply elem_of_cons in Hf as [->|Hf];
    [erewrite result_get; [|set_solver|reflexivity]; reflexivity|]).
  by apply elem_of_nil in Hf.
Qed.

Lemma result_optional_string_get m k o :
  map_get k m = Some (json_opt_str o) -> result_optional_string m k = Ok o.
Proof. unfold result_optional_string. intros ->. by destruct o. Qed.
Lemma optional_reason_get m o :
  map_get "completion_reason" m = Some (opt_to_value (fun x => Str (completion_reason_value x)) o) ->
  optional_completion_reason m = Ok o.
Proof.
  unfold optional_completion_reason, result_optional_string. intros ->.
  destruct o as [r|]; [|done]. cbn. by rewrite reason_wire.
Qed.
Lemma serde_required_Some {T} (decode : Value -> option T) v x :
  decode v = Some x -> serde_required decode v = Ok x.
Proof. unfold serde_required. by intros ->. Qed.
Lemma collect_required {T} (decode : Value -> option T) encode l :
  (forall x, decode (encode x) = Some x) -> collect (serde_required decode) (map encode l) = Ok l.
Proof.
  intros Hd. apply collect_Ok. apply Forall_forall. intros x _. by apply serde_required_Some.
Qed.
Lemma transpose_required {T} (decode : Value -> option T) encode (o : option T) :
  (forall x, o = Some x -> decode (encode x) = Some x) ->
  transpose (serde_required decode <$> (encode <$> o)) = Ok o.
Proof.
  destruct o as [x|]; [|done]. intros Hd. cbn. by rewrite (serde_required_Some _ _ _ (Hd x eq_refl)).
Qed.

Lemma result_shape r :
  existsb (fun f => negb (map_contains_key f (agent_result_to_map r))) result_required
  || negb (only_fields (result_required ++ result_optional) (agent_result_to_map r)) = false.
Proof.
  apply orb_false_iff. split.
  - apply Bool.not_true_iff_false. rewrite existsb_exists. intros (f & Hf & Hn).
    apply list_elem_of_In in Hf. by rewrite (result_required_keys r f Hf) in Hn.
  - apply negb_false_iff, only_fields_spec. apply result_keys.
Qed.
Lemma result_optional_set r :
  existsb (fun f => is_some_and (map_get f (agent_result_to_map r)) is_null) result_optional = false.
Proof.
  destruct (result_get_optional r) as (E1 & E2 & E3). cbn [existsb result_optional].
  rewrite E1, E2, E3. by destruct (ar_budget_usage r), (ar_budget_exhaustion r), (ar_error_code r).
Qed.
Lemma error_read r :
  check_opt result_error_validate (ar_error r) = Ok tt ->
  transpose ((fun v => let? e := serde_required result_error_from_value v in
                       do? result_error_validate e ;; Ok e)
             <$> get_non_null (agent_result_to_map r) "error") = Ok (ar_error r).
Proof.
  intros He. unfold get_non_null.
  rewrite (result_get r "error" (Some (opt_to_value result_error_to_value (ar_error r)))
             ltac:(set_solver) eq_refl).
  destruct (ar_error r) as [e|]; [|done]. cbn [check_opt] in He. cbn [opt_to_value].
  assert (Hr : (let? e' := serde_required result_error_from_value (result_error_to_value e) in
                do? result_error_validate e' ;; Ok e') = Ok e).
  { rewrite (serde_required_Some _ _ _ (result_error_wire e)). by rewrite He. }
  unfold result_error_to_value in *. unfold json_object in *. cbn [fmap option_fmap option_map transpose].
  by rewrite Hr.
Qed.

Lemma agent_result_wire_ok r :
  result_wire_ok r -> agent_result_from_dict (agent_result_to_dict r) = Ok r.
Proof.
  intros (Hm & Hc & Ht & Hu & Hx & He & Ho & Hs).
  assert (Hobs : validate_resume_observations None (ar_resume_observations r) = Ok tt)
    by (by apply validate_resume_observations_spec).
  unfold agent_result_from_dict. change (as_object (agent_result_to_dict r)) with (Some (agent_result_to_map r)).
  cbn [ok_or]. rewrite result_shape, result_optional_set.
  unfold read_array, read_required_string, read_metadata.
  rewrite (result_get r "messages" (Some (Array (map message_to_dict (ar_messages r))))
             ltac:(set_solver) eq_refl),
    (result_get r "cycles" (Some (Array (map cycle_to_dict (ar_cycles r)))) ltac:(set_solver) eq_refl),
    (result_get r "status" (Some (Str (agent_status_value (ar_status r)))) ltac:(set_solver) eq_refl),
    (result_get r "resume_observations"
       (Some (Array (map observation_to_value (ar_resume_observations r)))) ltac:(set_solver) eq_refl),
    (result_get r "shared_state" (Some (Object (ar_shared_state r))) ltac:(set_solver) eq_refl),
    (result_get r "token_usage" (Some (task_usage_to_value (ar_token_usage r)))
       ltac:(set_solver) eq_refl).
  cbn [mbind option_bind as_array as_str ok_or].
  rewrite (collect_Ok message_from_dict message_to_dict)
    by (eapply Forall_impl; [exact Hm|apply message_wire_dict]).
  rewrite (collect_Ok cycle_from_dict cycle_to_dict)
    by (eapply Forall_impl; [exact Hc|apply cycle_wire_iff]).
  rewrite status_wire, optional_reason_get with (o := ar_completion_reason r)
    by (apply result_get; [set_solver|reflexivity]).
  rewrite (result_optional_string_get _ "completion_tool_name" (ar_completion_tool_name r))
    by (apply result_get; [set_solver|reflexivity]).
  rewrite (result_optional_string_get _ "partial_output" (ar_partial_output r))
    by (apply result_get; [set_solver|reflexivity]).
  rewrite (result_optional_string_get _ "checkpoint_key" (ar_checkpoint_key r))
    by (apply result_get; [set_solver|reflexivity]).
  rewrite (result_optional_string_get _ "final_answer" (ar_final_answer r))
    by (apply result_get; [set_solver|reflexivity]).
  rewrite (result_optional_string_get _ "wait_reason" (ar_wait_reason r))
    by (apply result_get; [set_solver|reflexivity]).
  rewrite (error_read r He).
  destruct (result_get_optional r) as (E1 & E2 & E3). rewrite E1, E2.
  assert (E4 : result_optional_string (agent_result_to_map r) "error_code" = Ok (ar_error_code r))
    by (unfold result_optional_string; rewrite E3; by destruct (ar_error_code r)).
  rewrite E4, transpose_required with (o := ar_budget_usage r);
    [|intros u Eu; destruct (Hu u Eu) as [Hv Hsort]; rewrite (usage_wire _ Hv), Hsort; by destruct u].
  rewrite transpose_required with (o := ar_budget_exhaustion r);
    [|intros x Ex; rewrite Ex in Hx; by apply exhaustion_wire].
  rewrite (collect_required observation_from_value observation_to_value)
    by apply observation_roundtrip.
  rewrite (task_usage_wire _ Ht), Hobs. cbv zeta. cbn [ok_or].
  match goal with |- context [agent_result_to_dict ?x] => replace x with r by (by destruct r) end.
  by rewrite (proj2 (value_eqb_spec _ _) eq_refl).
Qed.

(** ** Properties *)

(** The stored result of a finished run has exactly one wire form.  A
    result whose messages, cycles, usage, budgets, error and observations are
    well-formed is read back unchanged; whatever document the reader accepts
    is the one the writer produces for the result it returns, so two documents
    of the same result are equal, and its observations are valid and strictly
    sorted by operation identity. *)
Theorem agent_result_wire (r : AgentResult) (v v' : Value) :
  (result_wire_ok r -> agent_result_from_dict (agent_result_to_dict r) = Ok r) /\
  (agent_result_from_dict v = Ok r ->
     agent_result_to_dict r = v
     /\ Forall (fun o => observation_validate o = Ok tt) (ar_resume_observations r)
     /\ StronglySorted (fun a b => rank_lt a b = true)
          (map observation_rank (ar_resume_observations r))) /\
  (agent_result_from_dict v = Ok r -> agent_result_from_dict v' = Ok r -> v = v').
Proof.
  assert (Hcan : forall w, agent_result_from_dict w = Ok r ->
    agent_result_to_dict r = w /\ validate_resume_observations None (ar_resume_observations r) = Ok tt).
  { intros w Hw. unfold agent_result_from_dict in Hw. result_inv. unit_inv. bool_inv.
    split; [by apply value_eqb_spec|eassumption]. }
  split; [apply agent_result_wire_ok|]. split.
  - intros [Hw Ho]%Hcan. split; [done|]. by apply validate_resume_observations_spec in Ho.
  - intros [Hv _]%Hcan [Hv' _]%Hcan. congruence.
Qed.
End CodecLemmas.
