(* ===== verification/ToolPolicy.v ===== *)
(** * Tool metadata and tool policies

    [tools/metadata.rs] and [tools/policy.rs]: what a tool declares about
    itself, the labels it may carry, and the policy an agent, a runner and a
    run each state and [runner/support.rs] merges.  Labels are kept in UTF-16
    order, the order of the canonical JSON form, without repetitions. *)

From Stdlib Require Import Ascii String NArith ZArith Sorted Lia.
From stdpp Require Import base strings list sets.
From S2P Require Import Prelude Json Canonical CheckpointTypes ToolResult Journal TokenUsage Budget.
From S2P Require Import BudgetWire Records.

(** ** Text *)

Section Utf16.
Local Open Scope N_scope.

(** [str::encode_utf16] on UTF-8 bytes: a character of up to three bytes is one
    unit, a longer one a surrogate pair. *)
Fixpoint utf16_units (s : list N) : list N :=
  match s with
  | [] => []
  | b :: r =>
      if b <? 128 then b :: utf16_units r
      else if b <? 224 then
        match r with
        | c :: r' => ((b - 192) * 64 + (c - 128)) :: utf16_units r'
        | [] => []
        end
      else if b <? 240 then
        match r with
        | c :: d :: r' => ((b - 224) * 4096 + (c - 128) * 64 + (d - 128)) :: utf16_units r'
        | _ => []
        end
      else
        match r with
        | c :: d :: e :: r' =>
            let point := (b - 240) * 262144 + (c - 128) * 4096 + (d - 128) * 64 + (e - 128) - 65536 in
            (55296 + point / 1024) :: (56320 + point mod 1024) :: utf16_units r'
        | _ => []
        end
  end.
End Utf16.

(** [Iterator::cmp] on code units. *)
Fixpoint units_cmp (a b : list N) : comparison :=
  match a, b with
  | [], [] => Eq
  | [], _ :: _ => Lt
  | _ :: _, [] => Gt
  | x :: a', y :: b' => match N.compare x y with Eq => units_cmp a' b' | c => c end
  end.
Definition utf16_cmp (left right : string) : comparison :=
  units_cmp (utf16_units (str_bytes left)) (utf16_units (str_bytes right)).
Definition utf16_leb (left right : string) : bool :=
  match utf16_cmp left right with Gt => false | _ => true end.

(** [s.chars().count()]: the bytes that are not continuation bytes. *)
Definition char_count (s : string) : N :=
  N.of_nat (length (List.filter (fun b => (b <? 128)%N || (192 <=? b)%N) (str_bytes s))).

(** [str::trim_matches] for a set of ASCII characters. *)
Fixpoint trim_start (p : N -> bool) (s : string) : string :=
  match s with
  | String c r => if p (N_of_ascii c) then trim_start p r else s
  | EmptyString => EmptyString
  end.
Fixpoint trim_end (p : N -> bool) (s : string) : string :=
  match s with
  | EmptyString => EmptyString
  | String c r =>
      match trim_end p r with
      | EmptyString => if p (N_of_ascii c) then EmptyString else String c EmptyString
      | r' => String c r'
      end
  end.
Definition trim_matches (p : N -> bool) (s : string) : string := trim_end p (trim_start p s).
(** [str::to_ascii_lowercase]. *)
Fixpoint to_ascii_lowercase (s : string) : string :=
  match s with
  | EmptyString => EmptyString
  | String c r =>
      let b := N_of_ascii c in
      String (if is_ascii_uppercase b then ascii_of_N (b + 32) else c) (to_ascii_lowercase r)
  end.

(** [Vec::dedup]: of consecutive equal elements one stays. *)
Section Dedup.
Context {A : Type} `{EqDecision A}.
Fixpoint dedup (l : list A) : list A :=
  match l with
  | x :: ((y :: _) as r) => if bool_decide (x = y) then dedup r else x :: dedup r
  | _ => l
  end.
End Dedup.

(** ** Metadata *)

Definition MAX_TOOL_METADATA_LABELS : nat := 32.
Definition MAX_TOOL_METADATA_LABEL_CODE_POINTS : N := 128.

Inductive ToolSideEffect :=
| UnknownEffect | NoEffect | ReadEffect | WriteEffect | ExecuteEffect | NetworkEffect
| ExternalEffect.
#[global] Instance ToolSideEffect_eq_dec : EqDecision ToolSideEffect.
Proof. solve_decision. Defined.
Inductive ToolResultRetention := ArchiveResult | PreserveResult.
#[global] Instance ToolResultRetention_eq_dec : EqDecision ToolResultRetention.
Proof. solve_decision. Defined.

Definition side_effect_str (e : ToolSideEffect) : string :=
  match e with
  | UnknownEffect => "unknown" | NoEffect => "none" | ReadEffect => "read"
  | WriteEffect => "write" | ExecuteEffect => "execute" | NetworkEffect => "network"
  | ExternalEffect => "external"
  end.
Definition side_effect_from_value (v : Value) : option ToolSideEffect :=
  s ← serde_unit_variant v;
  if String.eqb s "unknown" then Some UnknownEffect
  else if String.eqb s "none" then Some NoEffect
  else if String.eqb s "read" then Some ReadEffect
  else if String.eqb s "write" then Some WriteEffect
  else if String.eqb s "execute" then Some ExecuteEffect
  else if String.eqb s "network" then Some NetworkEffect
  else if String.eqb s "external" then Some ExternalEffect else None.
Definition retention_str (r : ToolResultRetention) : string :=
  match r with ArchiveResult => "archive" | PreserveResult => "preserve" end.
Definition retention_from_value (v : Value) : option ToolResultRetention :=
  s ← serde_unit_variant v;
  if String.eqb s "archive" then Some ArchiveResult
  else if String.eqb s "preserve" then Some PreserveResult else None.

Record ToolMetadata := {
  tm_side_effect : ToolSideEffect;
  tm_idempotency : ToolIdempotency;
  tm_terminal : bool;
  tm_result_retention : ToolResultRetention;
  tm_capability_tags : list string;
  tm_cost_dimensions : list string
}.
#[global] Instance ToolMetadata_eq_dec : EqDecision ToolMetadata.
Proof. solve_decision. Defined.

Definition metadata_invalid : string := "tool_metadata_invalid".

Definition metadata_space (b : N) : bool := (b =? 9)%N || (b =? 10)%N || (b =? 13)%N || (b =? 32)%N.
Definition trim_metadata_whitespace (value : string) : string := trim_matches metadata_space value.

Definition normalize_label (value : string) : result string :=
  let value := trim_metadata_whitespace value in
  fail_if (str_is_empty value) with metadata_invalid ;;
  fail_if (MAX_TOOL_METADATA_LABEL_CODE_POINTS <? char_count value)%N with metadata_invalid ;;
  Ok value.
Definition normalize_tool_metadata_labels (values : list string) : result (list string) :=
  let? normalized := collect normalize_label values in
  let normalized := dedup (stable_sort utf16_leb normalized) in
  fail_if (MAX_TOOL_METADATA_LABELS <? length normalized)%nat with metadata_invalid ;;
  Ok normalized.

Definition metadata_normalized (m : ToolMetadata) : result ToolMetadata :=
  let? tags := normalize_tool_metadata_labels (tm_capability_tags m) in
  let? costs := normalize_tool_metadata_labels (tm_cost_dimensions m) in
  Ok {| tm_side_effect := tm_side_effect m; tm_idempotency := tm_idempotency m;
        tm_terminal := tm_terminal m; tm_result_retention := tm_result_retention m;
        tm_capability_tags := tags; tm_cost_dimensions := costs |}.

(** [Vec<String>] and [Vec<ToolSideEffect>] as serde reads them. *)
Definition strings_from_value (v : Value) : option (list string) := l ← as_array v; mapM as_str l.
Definition side_effects_from_value (v : Value) : option (list ToolSideEffect) :=
  l ← as_array v; mapM side_effect_from_value l.
Definition strings_to_value (l : list string) : Value := Array (map Str l).
Definition side_effects_to_value (l : list ToolSideEffect) : Value :=
  Array (map (fun e => Str (side_effect_str e)) l).

Definition metadata_fields : list string :=
  ["side_effect"; "idempotency"; "terminal"; "result_retention"; "capability_tags";
   "cost_dimensions"].
Definition metadata_to_value (m : ToolMetadata) : Value :=
  json_object [
    ("side_effect", Str (side_effect_str (tm_side_effect m)));
    ("idempotency", idempotency_to_value (tm_idempotency m));
    ("terminal", Bool (tm_terminal m));
    ("result_retention", Str (retention_str (tm_result_retention m)));
    ("capability_tags", strings_to_value (tm_capability_tags m));
    ("cost_dimensions", strings_to_value (tm_cost_dimensions m))].
Definition metadata_from_value (v : Value) : option ToolMetadata :=
  fields ← serde_default_struct metadata_fields v;
  match fields with
  | [a; b; c; d; e; f] =>
      effect ← serde_or_default side_effect_from_value UnknownEffect a;
      idempotency ← serde_or_default idempotency_from_value UnknownSupport b;
      terminal ← serde_or_default as_bool false c;
      retention ← serde_or_default retention_from_value ArchiveResult d;
      tags ← serde_or_default strings_from_value [] e;
      costs ← serde_or_default strings_from_value [] f;
      match metadata_normalized
              {| tm_side_effect := effect; tm_idempotency := idempotency; tm_terminal := terminal;
                 tm_result_retention := retention; tm_capability_tags := tags;
                 tm_cost_dimensions := costs |} with
      | Ok m => Some m
      | Err _ => None
      end
  | _ => None
  end.

(** ** Policies *)

Inductive ApprovalPolicy := DefaultApproval | NeverApproval | AlwaysApproval | OnRequestApproval.
#[global] Instance ApprovalPolicy_eq_dec : EqDecision ApprovalPolicy.
Proof. solve_decision. Defined.

(** A [CanUseToolPredicate] is host code: a function of the name and the
    arguments. *)
Definition CanUseToolPredicate : Type := string -> object -> bool.

Record ToolPolicy := {
  tp_allowed_tools : option (list string);
  tp_disallowed_tools : list string;
  tp_approval : ApprovalPolicy;
  tp_can_use_tool : option CanUseToolPredicate;
  tp_denied_side_effects : list ToolSideEffect;
  tp_denied_capability_tags : list string;
  tp_deny_terminal_tools : bool;
  tp_denied_cost_dimensions : list string
}.

Definition policy_default : ToolPolicy :=
  {| tp_allowed_tools := None; tp_disallowed_tools := []; tp_approval := DefaultApproval;
     tp_can_use_tool := None; tp_denied_side_effects := []; tp_denied_capability_tags := [];
     tp_deny_terminal_tools := false; tp_denied_cost_dimensions := [] |}.
Definition with_denials (p : ToolPolicy) (effects : list ToolSideEffect) (tags : list string)
    (terminal : bool) (costs : list string) : ToolPolicy :=
  {| tp_allowed_tools := tp_allowed_tools p; tp_disallowed_tools := tp_disallowed_tools p;
     tp_approval := tp_approval p; tp_can_use_tool := tp_can_use_tool p;
     tp_denied_side_effects := effects; tp_denied_capability_tags := tags;
     tp_deny_terminal_tools := terminal; tp_denied_cost_dimensions := costs |}.

Definition normalize_side_effects (l : list ToolSideEffect) : list ToolSideEffect :=
  dedup (stable_sort (fun a b => utf16_leb (side_effect_str a) (side_effect_str b)) l).

(** [normalize_metadata_denials_in_place]: the effects are sorted before a
    label can fail, so the error leaves the policy partly normalised. *)
Definition normalize_metadata_denials_in_place (p : ToolPolicy) : ToolPolicy * result unit :=
  let p1 := with_denials p (normalize_side_effects (tp_denied_side_effects p))
              (tp_denied_capability_tags p) (tp_deny_terminal_tools p)
              (tp_denied_cost_dimensions p) in
  match normalize_tool_metadata_labels (tp_denied_capability_tags p1) with
  | Err e => (p1, Err e)
  | Ok tags =>
      let p2 := with_denials p1 (tp_denied_side_effects p1) tags (tp_deny_terminal_tools p1)
                  (tp_denied_cost_dimensions p1) in
      match normalize_tool_metadata_labels (tp_denied_cost_dimensions p2) with
      | Err e => (p2, Err e)
      | Ok costs =>
          (with_denials p2 (tp_denied_side_effects p2) (tp_denied_capability_tags p2)
             (tp_deny_terminal_tools p2) costs, Ok tt)
      end
  end.
Definition policy_normalized (p : ToolPolicy) : result ToolPolicy :=
  match normalize_metadata_denials_in_place p with
  | (p', Ok _) => Ok p'
  | (_, Err e) => Err e
  end.

Definition allow_only (p : ToolPolicy) (tools : list string) : ToolPolicy :=
  {| tp_allowed_tools := Some tools; tp_disallowed_tools := tp_disallowed_tools p;
     tp_approval := tp_approval p; tp_can_use_tool := tp_can_use_tool p;
     tp_denied_side_effects := tp_denied_side_effects p;
     tp_denied_capability_tags := tp_denied_capability_tags p;
     tp_deny_terminal_tools := tp_deny_terminal_tools p;
     tp_denied_cost_dimensions := tp_denied_cost_dimensions p |}.
Definition disallow (p : ToolPolicy) (tool : string) : ToolPolicy :=
  {| tp_allowed_tools := tp_allowed_tools p; tp_disallowed_tools := tp_disallowed_tools p ++ [tool];
     tp_approval := tp_approval p; tp_can_use_tool := tp_can_use_tool p;
     tp_denied_side_effects := tp_denied_side_effects p;
     tp_denied_capability_tags := tp_denied_capability_tags p;
     tp_deny_terminal_tools := tp_deny_terminal_tools p;
     tp_denied_cost_dimensions := tp_denied_cost_dimensions p |}.

(** An [expect] that fails is a panic. *)
Definition expect {A} (r : result A) : result A := map_err r "panic".

Definition deny_side_effect (p : ToolPolicy) (e : ToolSideEffect) : result ToolPolicy :=
  expect (policy_normalized
    (with_denials p (tp_denied_side_effects p ++ [e]) (tp_denied_capability_tags p)
       (tp_deny_terminal_tools p) (tp_denied_cost_dimensions p))).
Definition deny_capability_tag (p : ToolPolicy) (tag : string) : result ToolPolicy :=
  policy_normalized
    (with_denials p (tp_denied_side_effects p) (tp_denied_capability_tags p ++ [tag])
       (tp_deny_terminal_tools p) (tp_denied_cost_dimensions p)).
Definition deny_terminal_tools (p : ToolPolicy) : ToolPolicy :=
  with_denials p (tp_denied_side_effects p) (tp_denied_capability_tags p) true
    (tp_denied_cost_dimensions p).
Definition deny_cost_dimension (p : ToolPolicy) (dimension : string) : result ToolPolicy :=
  policy_normalized
    (with_denials p (tp_denied_side_effects p) (tp_denied_capability_tags p)
       (tp_deny_terminal_tools p) (tp_denied_cost_dimensions p ++ [dimension])).

Definition allows_arguments (p : ToolPolicy) (tool_name : string) (arguments : object) : bool :=
  is_none_or (tp_can_use_tool p) (fun predicate => predicate tool_name arguments).

Definition contains {A} `{EqDecision A} (l : list A) (x : A) : bool :=
  existsb (fun y => bool_decide (y = x)) l.

Definition metadata_denial_source (p : ToolPolicy) (metadata : option ToolMetadata)
    : option string :=
  m ← metadata;
  if contains (tp_denied_side_effects p) (tm_side_effect m) then Some "metadata.side_effect"
  else if tp_deny_terminal_tools p && tm_terminal m then Some "metadata.terminal"
  else if existsb (fun tag => contains (tp_denied_capability_tags p) tag) (tm_capability_tags m)
  then Some "metadata.capability_tag"
  else if existsb (fun d => contains (tp_denied_cost_dimensions p) d) (tm_cost_dimensions m)
  then Some "metadata.cost_dimension"
  else None.

(** [extend_metadata_denials]: the union, normalised, or a panic. *)
Definition extend_metadata_denials (p other : ToolPolicy) : result ToolPolicy :=
  expect (policy_normalized
    (with_denials p (tp_denied_side_effects p ++ tp_denied_side_effects other)
       (tp_denied_capability_tags p ++ tp_denied_capability_tags other)
       (tp_deny_terminal_tools p || tp_deny_terminal_tools other)
       (tp_denied_cost_dimensions p ++ tp_denied_cost_dimensions other))).

(** *** [runner/support.rs] *)

(** [HashSet::insert] in [retain]: the first of equal names stays. *)
Fixpoint retain_first (seen l : list string) : list string :=
  match l with
  | [] => []
  | x :: r => if contains seen x then retain_first seen r else x :: retain_first (x :: seen) r
  end.

Definition merged_tool_policy (agent runner run : ToolPolicy) : result ToolPolicy :=
  let predicates := omap tp_can_use_tool [agent; runner; run] in
  let merged :=
    {| tp_allowed_tools := or_else (tp_allowed_tools run)
                             (or_else (tp_allowed_tools runner) (tp_allowed_tools agent));
       tp_disallowed_tools := retain_first []
         (tp_disallowed_tools agent ++ tp_disallowed_tools runner ++ tp_disallowed_tools run);
       tp_approval := unwrap_or
         (List.find (fun a => a <>?? DefaultApproval)
            [tp_approval run; tp_approval agent; tp_approval runner]) DefaultApproval;
       tp_can_use_tool := match predicates with
                          | [] => None
                          | _ => Some (fun name arguments =>
                                         forallb (fun p => p name arguments) predicates)
                          end;
       tp_denied_side_effects := tp_denied_side_effects agent;
       tp_denied_capability_tags := tp_denied_capability_tags agent;
       tp_deny_terminal_tools := tp_deny_terminal_tools agent;
       tp_denied_cost_dimensions := tp_denied_cost_dimensions agent |} in
  let? merged := extend_metadata_denials merged runner in
  extend_metadata_denials merged run.

Definition tool_allowed_by_policy (p : ToolPolicy) (tool_name : string) : bool :=
  is_none_or (tp_allowed_tools p) (fun tools => existsb (fun tool => String.eqb tool tool_name) tools)
  && negb (existsb (fun tool => String.eqb tool tool_name) (tp_disallowed_tools p)).

(** ** Lemmas *)

Lemma units_cmp_refl a : units_cmp a a = Eq.
Proof. induction a as [|x a IH]; simpl; [done|]. by rewrite N.compare_refl. Qed.
Lemma units_cmp_antisym a b : units_cmp b a = CompOpp (units_cmp a b).
Proof.
  revert b. induction a as [|x a IH]; intros [|y b]; simpl; try done.
  rewrite N.compare_antisym. by destruct (N.compare x y); simpl.
Qed.
Lemma units_cmp_eq a b : units_cmp a b = Eq -> a = b.
Proof.
  revert b. induction a as [|x a IH]; intros [|y b]; simpl; try done.
  destruct (N.compare_spec x y) as [->| |]; try done. intros H%IH. by subst.
Qed.
Lemma units_cmp_trans a b c :
  units_cmp a b <> Gt -> units_cmp b c <> Gt -> units_cmp a c <> Gt.
Proof.
  revert b c. induction a as [|x a IH]; intros [|y b] [|z c]; simpl; try done.
  destruct (N.compare_spec x y), (N.compare_spec y z), (N.compare_spec x z);
    try (done || lia); [..|idtac]; apply IH.
Qed.

Lemma utf16_leb_total a b : utf16_leb a b = false -> utf16_leb b a = true.
Proof.
  unfold utf16_leb, utf16_cmp.
  rewrite (units_cmp_antisym (utf16_units (str_bytes a)) (utf16_units (str_bytes b))).
  by destruct (units_cmp _ _).
Qed.
Lemma utf16_leb_spec a b : utf16_leb a b = true <-> utf16_cmp a b <> Gt.
Proof. unfold utf16_leb. by destruct (utf16_cmp a b). Qed.
Lemma utf16_leb_trans a b c : utf16_leb a b = true -> utf16_leb b c = true -> utf16_leb a c = true.
Proof. rewrite !utf16_leb_spec. apply units_cmp_trans. Qed.

Lemma trim_start_first p s :
  match trim_start p s with EmptyString => True | String c _ => p (N_of_ascii c) = false end.
Proof. induction s as [|c s IH]; simpl; [done|]. by destruct (p (N_of_ascii c)) eqn:E. Qed.
Lemma trim_start_id p s :
  match s with EmptyString => True | String c _ => p (N_of_ascii c) = false end ->
  trim_start p s = s.
Proof. destruct s as [|c s]; simpl; [done|]. by intros ->. Qed.
Lemma trim_end_idem p s : trim_end p (trim_end p s) = trim_end p s.
Proof.
  induction s as [|c s IH]; simpl; [done|]. destruct (trim_end p s) as [|d r] eqn:E.
  - destruct (p (N_of_ascii c)) eqn:Ec; simpl; by rewrite ?Ec.
  - change (trim_end p (String c (String d r)))
      with (match trim_end p (String d r) with
            | EmptyString => if p (N_of_ascii c) then EmptyString else String c EmptyString
            | r' => String c r' end).
    by rewrite IH.
Qed.
Lemma trim_end_first p s :
  match s with EmptyString => True | String c _ => p (N_of_ascii c) = false end ->
  match trim_end p s with EmptyString => True | String c _ => p (N_of_ascii c) = false end.
Proof.
  destruct s as [|c s]; simpl; [done|]. intros Hc. destruct (trim_end p s); by rewrite ?Hc.
Qed.
Lemma trim_matches_idem p s : trim_matches p (trim_matches p s) = trim_matches p s.
Proof.
  unfold trim_matches. rewrite (trim_start_id p (trim_end p (trim_start p s))).
  - apply trim_end_idem.
  - apply trim_end_first, trim_start_first.
Qed.

Section DedupLemmas.
Context {A : Type} `{EqDecision A}.
Implicit Types (l : list A).

Lemma dedup_cons x l :
  dedup (x :: l) = match l with
                   | y :: _ => if bool_decide (x = y) then dedup l else x :: dedup l
                   | [] => [x] end.
Proof. by destruct l. Qed.
Lemma dedup_head x l : exists r, dedup (x :: l) = x :: r.
Proof.
  revert x. induction l as [|y l IH]; intros x; [by eexists|].
  rewrite dedup_cons. case_bool_decide as E; [subst; apply IH|by eexists].
Qed.
Lemma elem_of_dedup x l : x ∈ dedup l <-> x ∈ l.
Proof.
  induction l as [|y l IH]; [done|]. rewrite dedup_cons. destruct l as [|z l]; [done|].
  case_bool_decide as E; [subst|]; set_solver.
Qed.
Lemma dedup_idem l : dedup (dedup l) = dedup l.
Proof.
  induction l as [|x l IH]; [done|]. rewrite (dedup_cons x l). destruct l as [|y l]; [done|].
  case_bool_decide as E; [done|]. destruct (dedup_head y l) as [r Hr].
  rewrite dedup_cons, Hr, <- Hr, IH, Hr. by rewrite bool_decide_eq_false_2.
Qed.
Lemma dedup_sublist l : sublist (dedup l) l.
Proof.
  induction l as [|x l IH]; [constructor|]. rewrite dedup_cons. destruct l as [|y l]; [done|].
  case_bool_decide as E; by constructor.
Qed.
Lemma StronglySorted_sublist (R : A -> A -> Prop) l l' :
  sublist l l' -> StronglySorted R l' -> StronglySorted R l.
Proof.
  induction 1 as [|x l l' Hs IH|x l l' Hs IH]; intros Hl; [constructor| |].
  - apply StronglySorted_inv in Hl as [Hl Hall]. constructor; [by apply IH|].
    apply Forall_forall. intros y Hy. rewrite Forall_forall in Hall. apply Hall.
    by eapply elem_of_sublist.
  - apply StronglySorted_inv in Hl as [Hl _]. by apply IH.
Qed.
End DedupLemmas.

(** *** Labels *)

Definition label_normal (s : string) : Prop :=
  trim_metadata_whitespace s = s /\ s <> EmptyString /\
  (char_count s <= MAX_TOOL_METADATA_LABEL_CODE_POINTS)%N.

Lemma normalize_label_spec s t :
  normalize_label s = Ok t <-> t = trim_metadata_whitespace s /\ label_normal t.
Proof.
  unfold normalize_label, label_normal. split.
  - intros Hs. result_inv. bool_inv. split; [done|]. split; [apply trim_matches_idem|].
    split; [|done]. intros E. by rewrite E in *.
  - intros (-> & _ & Hne & Hc). destruct (trim_metadata_whitespace s) as [|c r]; [done|].
    cbn [str_is_empty]. by rewrite (proj2 (N.ltb_ge _ _) Hc).
Qed.
Lemma normalize_label_id s : label_normal s -> normalize_label s = Ok s.
Proof. intros Hs. apply normalize_label_spec. split; [by destruct Hs|done]. Qed.

Record labels_normal (l : list string) : Prop := {
  ln_labels : Forall label_normal l;
  ln_sorted : StronglySorted (fun a b => utf16_leb a b = true) l;
  ln_distinct : dedup l = l;
  ln_count : (length l <= MAX_TOOL_METADATA_LABELS)%nat
}.

Lemma collect_id {A} (f : A -> result A) l : Forall (fun x => f x = Ok x) l -> collect f l = Ok l.
Proof. induction 1 as [|x l Hx _ IH]; [done|]. simpl. by rewrite Hx, IH. Qed.
Lemma collect_elem {A B} (f : A -> result B) l l' y :
  collect f l = Ok l' -> y ∈ l' <-> exists x, x ∈ l /\ f x = Ok y.
Proof.
  revert l'. induction l as [|x l IH]; simpl; intros l' Hc; [injection Hc as <-; set_solver|].
  result_inv. rewrite elem_of_cons, (IH _ eq_refl). setoid_rewrite elem_of_cons. split.
  - intros [->|(z & Hz & Hf)]; [by exists x; auto|exists z; auto].
  - intros (z & [->|Hz] & Hf); [left; congruence|right; eauto].
Qed.

Lemma labels_spec l l' :
  normalize_tool_metadata_labels l = Ok l' ->
  labels_normal l' /\ forall y, y ∈ l' <-> exists x, x ∈ l /\ normalize_label x = Ok y.
Proof.
  unfold normalize_tool_metadata_labels. intros Hl. result_inv.
  assert (Hin : forall y, y ∈ dedup (stable_sort utf16_leb a) <-> y ∈ a)
    by (intros y; by rewrite elem_of_dedup, stable_sort_perm).
  split; [split|].
  - apply Forall_forall. intros y Hy%Hin. apply (collect_elem _ _ _ _ Hdo) in Hy as (x & _ & Hx).
    by apply normalize_label_spec in Hx as [_ ?].
  - eapply StronglySorted_sublist; [apply dedup_sublist|].
    apply stable_sort_sorted; [apply utf16_leb_total|apply utf16_leb_trans].
  - apply dedup_idem.
  - by apply Nat.ltb_ge.
  - intros y. by rewrite Hin, (collect_elem _ _ _ _ Hdo).
Qed.
Lemma labels_id l : labels_normal l -> normalize_tool_metadata_labels l = Ok l.
Proof.
  intros [Hl Hs Hd Hc]. unfold normalize_tool_metadata_labels.
  rewrite collect_id by (eapply Forall_impl; [exact Hl|]; apply normalize_label_id).
  rewrite stable_sort_id, Hd by done. by rewrite (proj2 (Nat.ltb_ge _ _) Hc).
Qed.

(** *** Policies *)

Record denials_normal (p : ToolPolicy) : Prop := {
  dn_effects : normalize_side_effects (tp_denied_side_effects p) = tp_denied_side_effects p;
  dn_tags : labels_normal (tp_denied_capability_tags p);
  dn_costs : labels_normal (tp_denied_cost_dimensions p)
}.
(** The policies differ at most in their metadata denials. *)
Definition same_rules (p q : ToolPolicy) : Prop :=
  tp_allowed_tools p = tp_allowed_tools q /\ tp_disallowed_tools p = tp_disallowed_tools q /\
  tp_approval p = tp_approval q /\ tp_can_use_tool p = tp_can_use_tool q.

Lemma side_effects_elem l e : e ∈ normalize_side_effects l <-> e ∈ l.
Proof. unfold normalize_side_effects. by rewrite elem_of_dedup, stable_sort_perm. Qed.
Lemma side_effects_idem l :
  normalize_side_effects (normalize_side_effects l) = normalize_side_effects l.
Proof.
  unfold normalize_side_effects. rewrite (stable_sort_id _ (dedup _)); [apply dedup_idem|].
  eapply StronglySorted_sublist; [apply dedup_sublist|].
  apply (stable_sort_sorted (fun a b => utf16_leb (side_effect_str a) (side_effect_str b))).
  - intros a b. apply utf16_leb_total.
  - intros a b c. apply utf16_leb_trans.
Qed.

Lemma normalized_spec p p' :
  policy_normalized p = Ok p' ->
  denials_normal p' /\ same_rules p' p /\
  tp_deny_terminal_tools p' = tp_deny_terminal_tools p /\
  (forall e, e ∈ tp_denied_side_effects p' <-> e ∈ tp_denied_side_effects p) /\
  (forall y, y ∈ tp_denied_capability_tags p' <->
     exists x, x ∈ tp_denied_capability_tags p /\ normalize_label x = Ok y) /\
  (forall y, y ∈ tp_denied_cost_dimensions p' <->
     exists x, x ∈ tp_denied_cost_dimensions p /\ normalize_label x = Ok y).
Proof.
  unfold policy_normalized, normalize_metadata_denials_in_place. cbn. intros Hp.
  destruct (normalize_tool_metadata_labels (tp_denied_capability_tags p)) as [tags|e] eqn:Et;
    [|done].
  destruct (normalize_tool_metadata_labels (tp_denied_cost_dimensions p)) as [costs|e] eqn:Ec;
    [|done].
  injection Hp as <-. apply labels_spec in Et as [Ht Hti], Ec as [Hc Hci]. cbn.
  split; [by split; [apply side_effects_idem| |]|].
  split; [done|]. split; [done|]. split; [apply side_effects_elem|done].
Qed.
Lemma normalized_id p : denials_normal p -> policy_normalized p = Ok p.
Proof.
  intros [He Ht Hc]. unfold policy_normalized, normalize_metadata_denials_in_place. cbn.
  rewrite He, (labels_id _ Ht), (labels_id _ Hc). by destruct p.
Qed.

(** The policy refuses a tool that declares [m]. *)
Definition denies (p : ToolPolicy) (m : ToolMetadata) : Prop :=
  tm_side_effect m ∈ tp_denied_side_effects p \/
  (tp_deny_terminal_tools p = true /\ tm_terminal m = true) \/
  (exists t, t ∈ tm_capability_tags m /\ t ∈ tp_denied_capability_tags p) \/
  (exists d, d ∈ tm_cost_dimensions m /\ d ∈ tp_denied_cost_dimensions p).

Lemma contains_spec {A} `{EqDecision A} (l : list A) x : contains l x = true <-> x ∈ l.
Proof.
  unfold contains. rewrite existsb_exists. setoid_rewrite bool_decide_eq_true.
  setoid_rewrite <- list_elem_of_In. naive_solver.
Qed.
Lemma shared_spec (l l' : list string) :
  existsb (fun x => contains l' x) l = true <-> exists x, x ∈ l /\ x ∈ l'.
Proof.
  rewrite existsb_exists. setoid_rewrite contains_spec. by setoid_rewrite <- list_elem_of_In.
Qed.
Lemma denial_source_spec p m :
  is_some (metadata_denial_source p (Some m)) = true <-> denies p m.
Proof.
  unfold denies, metadata_denial_source. cbn [mbind option_bind].
  rewrite <- contains_spec, <- !shared_spec, <- andb_true_iff.
  repeat case_match; cbn; naive_solver.
Qed.

Definition metadata_normal (m : ToolMetadata) : Prop :=
  labels_normal (tm_capability_tags m) /\ labels_normal (tm_cost_dimensions m).

Lemma label_of_normal l x : labels_normal l -> x ∈ l -> normalize_label x = Ok x.
Proof.
  intros [Hl _ _ _] Hx. rewrite Forall_forall in Hl. by apply normalize_label_id, Hl.
Qed.
Lemma label_normal_eq l x y : labels_normal l -> x ∈ l -> normalize_label x = Ok y -> y = x.
Proof. intros Hl Hx Hy. rewrite (label_of_normal l x Hl Hx) in Hy. congruence. Qed.

Definition share (l l' : list string) : Prop := exists x, x ∈ l /\ x ∈ l'.
Lemma union_shared l l1 l2 declared :
  (forall y, y ∈ l <-> exists x, x ∈ l1 ++ l2 /\ normalize_label x = Ok y) ->
  labels_normal declared -> share declared l1 \/ share declared l2 -> share declared l.
Proof.
  intros Hl Hd [(x & Hx & Hx')|(x & Hx & Hx')]; exists x; (split; [done|]); apply Hl;
    exists x; (split; [set_solver|]); by eapply label_of_normal.
Qed.
Lemma shared_union l l1 l2 declared :
  (forall y, y ∈ l <-> exists x, x ∈ l1 ++ l2 /\ normalize_label x = Ok y) ->
  labels_normal l1 -> labels_normal l2 ->
  share declared l -> share declared l1 \/ share declared l2.
Proof.
  intros Hl H1 H2 (y & Hy & (x & [Hx|Hx]%elem_of_app & Hn)%Hl).
  - left. rewrite (label_normal_eq _ _ _ H1 Hx Hn) in Hy. by exists x.
  - right. rewrite (label_normal_eq _ _ _ H2 Hx Hn) in Hy. by exists x.
Qed.

Lemma extend_spec p other r :
  extend_metadata_denials p other = Ok r ->
  denials_normal r /\ same_rules r p /\
  (forall m, metadata_normal m -> denies p m \/ denies other m -> denies r m) /\
  (denials_normal p -> denials_normal other ->
   forall m, denies r m -> denies p m \/ denies other m).
Proof.
  unfold extend_metadata_denials, expect.
  intros (Hn & Hs & Ht & He & Hg & Hc)%map_err_Ok%normalized_spec.
  cbn in Hs, Ht, He, Hg, Hc. split; [done|]. split; [done|]. unfold denies. setoid_rewrite He.
  setoid_rewrite elem_of_app. setoid_rewrite Ht. setoid_rewrite orb_true_iff. split.
  - intros m [Hmt Hmc]. pose proof (union_shared _ _ _ _ Hg Hmt).
    pose proof (union_shared _ _ _ _ Hc Hmc). unfold share in *. tauto.
  - intros [_ Hpt Hpc] [_ Hot Hoc] m.
    pose proof (shared_union _ _ _ (tm_capability_tags m) Hg Hpt Hot).
    pose proof (shared_union _ _ _ (tm_cost_dimensions m) Hc Hpc Hoc). unfold share in *. tauto.
Qed.

(** The union fails only when a kind of label overflows its limit. *)
Lemma extend_fails p other e :
  denials_normal p -> denials_normal other ->
  extend_metadata_denials p other = Err e ->
  e = "panic" /\
  ((MAX_TOOL_METADATA_LABELS < length (dedup (stable_sort utf16_leb
      (tp_denied_capability_tags p ++ tp_denied_capability_tags other))))%nat \/
   (MAX_TOOL_METADATA_LABELS < length (dedup (stable_sort utf16_leb
      (tp_denied_cost_dimensions p ++ tp_denied_cost_dimensions other))))%nat).
Proof.
  intros [_ Hpt Hpc] [_ Hot Hoc].
  assert (Hid : forall l l', labels_normal l -> labels_normal l' ->
            collect normalize_label (l ++ l') = Ok (l ++ l')).
  { intros l l' [Hl _ _ _] [Hl' _ _ _]. apply collect_id, Forall_app.
    split; (eapply Forall_impl; [eassumption|]); apply normalize_label_id. }
  unfold extend_metadata_denials, expect, policy_normalized, normalize_metadata_denials_in_place,
    normalize_tool_metadata_labels. cbn [with_denials tp_denied_capability_tags tp_denied_cost_dimensions].
  rewrite !Hid by done. cbv zeta.
  repeat match goal with |- context [Nat.ltb ?a ?b] => destruct (Nat.ltb_spec a b) end;
    cbn; intros He; simplify_eq; auto.
Qed.

(** *** Merging *)

Lemma retain_first_elem seen l x : x ∈ retain_first seen l <-> x ∈ l /\ x ∉ seen.
Proof.
  revert seen. induction l as [|y l IH]; intros seen; cbn [retain_first]; [set_solver|].
  destruct (contains seen y) eqn:E.
  - apply contains_spec in E. rewrite IH. set_solver.
  - assert (Hy : y ∉ seen) by (rewrite <- contains_spec; congruence).
    rewrite elem_of_cons, IH. destruct (decide (x = y)) as [->|]; set_solver.
Qed.
Lemma allowed_spec p name :
  tool_allowed_by_policy p name = true <->
  (forall tools, tp_allowed_tools p = Some tools -> name ∈ tools) /\
  name ∉ tp_disallowed_tools p.
Proof.
  assert (Hex : forall l, existsb (fun tool => String.eqb tool name) l = true <-> name ∈ l).
  { intros l. rewrite existsb_exists. setoid_rewrite String.eqb_eq.
    setoid_rewrite <- list_elem_of_In. naive_solver. }
  unfold tool_allowed_by_policy. rewrite andb_true_iff, negb_true_iff, <- not_true_iff_false, Hex.
  destruct (tp_allowed_tools p) as [tools|]; cbn; [rewrite Hex|]; naive_solver.
Qed.

Lemma merged_parts agent runner run m :
  merged_tool_policy agent runner run = Ok m ->
  exists base mid,
    extend_metadata_denials base runner = Ok mid /\ extend_metadata_denials mid run = Ok m /\
    (forall x, denies base x <-> denies agent x) /\ (denials_normal base <-> denials_normal agent) /\
    tp_allowed_tools base = or_else (tp_allowed_tools run)
      (or_else (tp_allowed_tools runner) (tp_allowed_tools agent)) /\
    (forall name, name ∈ tp_disallowed_tools base <->
       name ∈ tp_disallowed_tools agent \/ name ∈ tp_disallowed_tools runner \/
       name ∈ tp_disallowed_tools run) /\
    (forall name arguments, allows_arguments base name arguments
       = allows_arguments agent name arguments && allows_arguments runner name arguments
         && allows_arguments run name arguments).
Proof.
  unfold merged_tool_policy. intros Hm. result_inv.
  eexists _, _. split; [exact Hdo|]. split; [exact Hm|]. split; [done|]. split.
  { by split; intros [? ? ?]; split. }
  split; [done|]. split.
  - intros name. cbn. rewrite retain_first_elem, !elem_of_app. set_solver.
  - intros name arguments. unfold allows_arguments. cbn.
    destruct (tp_can_use_tool agent), (tp_can_use_tool runner), (tp_can_use_tool run); cbn;
      by rewrite ?andb_true_r, ?andb_assoc.
Qed.

Lemma labels_trimmed l l' x :
  normalize_tool_metadata_labels l = Ok l' -> x ∈ l ->
  normalize_label x = Ok (trim_metadata_whitespace x).
Proof.
  unfold normalize_tool_metadata_labels. intros Hl Hx. result_inv. apply collect_inv in Hdo.
  apply list_elem_of_lookup in Hx as [i Hi].
  destruct (Forall2_lookup_l _ _ _ _ _ Hdo Hi) as (y & _ & Hy).
  pose proof Hy as [-> _]%normalize_label_spec. done.
Qed.
Lemma normalized_tags p p' :
  policy_normalized p = Ok p' ->
  normalize_tool_metadata_labels (tp_denied_capability_tags p) = Ok (tp_denied_capability_tags p').
Proof.
  unfold policy_normalized, normalize_metadata_denials_in_place. cbn. intros Hp.
  repeat case_match; simplify_eq. done.
Qed.
Lemma metadata_spec m m' :
  metadata_normalized m = Ok m' -> metadata_normal m' /\ metadata_normalized m' = Ok m'.
Proof.
  unfold metadata_normalized. intros Hm. result_inv.
  apply labels_spec in Hdo as [Ht _], Hdo0 as [Hc _]. split; [done|]. cbn.
  by rewrite (labels_id _ Ht), (labels_id _ Hc).
Qed.
Lemma strings_wire l : strings_from_value (strings_to_value l) = Some l.
Proof.
  unfold strings_from_value, strings_to_value. cbn [mbind option_bind as_array].
  induction l as [|x l IH]; [done|]. cbn in *. by rewrite IH.
Qed.
Lemma metadata_wire m :
  metadata_normalized m = Ok m -> metadata_from_value (metadata_to_value m) = Some m.
Proof.
  intros Hm. unfold metadata_from_value, metadata_to_value.
  match goal with |- context [json_object ?l] => change metadata_fields with (map fst l) end.
  rewrite serde_default_struct_literal by (apply (bool_decide_eq_true_1 _); vm_compute; reflexivity).
  cbn [map snd mbind option_bind serde_or_default].
  assert (He : side_effect_from_value (Str (side_effect_str (tm_side_effect m)))
               = Some (tm_side_effect m)) by (by destruct (tm_side_effect m)).
  assert (Hr : retention_from_value (Str (retention_str (tm_result_retention m)))
               = Some (tm_result_retention m)) by (by destruct (tm_result_retention m)).
  rewrite He. cbn [mbind option_bind]. rewrite idempotency_roundtrip. cbn [mbind option_bind as_bool].
  rewrite Hr. cbn [mbind option_bind]. rewrite !strings_wire. cbn [mbind option_bind].
  destruct m. cbn [tm_side_effect tm_idempotency tm_terminal tm_result_retention tm_capability_tags
    tm_cost_dimensions]. by rewrite Hm.
Qed.

(** ** Properties *)

Definition denied (p : ToolPolicy) (m : ToolMetadata) : bool :=
  is_some (metadata_denial_source p (Some m)).
Lemma denied_spec p m : denied p m = true <-> denies p m.
Proof. apply denial_source_spec. Qed.

(** (C38) Merging the policies of an agent, a runner and a run never loosens
    one of them: a tool name any layer disallows is not allowed, a call passes
    the argument predicate only when it passes every layer's, a tool whose
    (normalised) metadata any layer denies is denied, and, when the layers are
    normalised, no other; the allow list is that of the most specific layer
    that has one. *)
Theorem merged_policy_restrictive (agent runner run merged : ToolPolicy) :
  merged_tool_policy agent runner run = Ok merged ->
  (forall name, name ∈ tp_disallowed_tools agent \/ name ∈ tp_disallowed_tools runner \/
     name ∈ tp_disallowed_tools run -> tool_allowed_by_policy merged name = false) /\
  (forall name, tool_allowed_by_policy merged name = true ->
     forall tools, or_else (tp_allowed_tools run)
       (or_else (tp_allowed_tools runner) (tp_allowed_tools agent)) = Some tools -> name ∈ tools) /\
  (forall name arguments, allows_arguments merged name arguments
     = allows_arguments agent name arguments && allows_arguments runner name arguments
       && allows_arguments run name arguments) /\
  (forall m, metadata_normal m ->
     denied agent m || denied runner m || denied run m = true -> denied merged m = true) /\
  (denials_normal agent -> denials_normal runner -> denials_normal run ->
   forall m, denied merged m = true -> denied agent m || denied runner m || denied run m = true).
Proof.
  intros (base & mid & He1 & He2 & Hb & Hn & Ha & Hd & Hp)%merged_parts.
  destruct (extend_spec _ _ _ He1) as (N1 & (A1 & D1 & _ & P1) & M1 & X1).
  destruct (extend_spec _ _ _ He2) as (N2 & (A2 & D2 & _ & P2) & M2 & X2).
  setoid_rewrite orb_true_iff. setoid_rewrite orb_true_iff. setoid_rewrite denied_spec.
  split; [|split; [|split; [|split]]].
  - intros name Hname. apply not_true_iff_false. rewrite allowed_spec, D2, D1, Hd. tauto.
  - intros name [Hal _]%allowed_spec tools Ht. apply Hal. by rewrite A2, A1, Ha.
  - intros name arguments. rewrite <- Hp. unfold allows_arguments. by rewrite P2, P1.
  - intros m Hm Hden. apply M2; [done|]. destruct Hden as [Hden|]; [|by right].
    left. apply M1; [done|]. by rewrite Hb.
  - intros Na Nr Nu m [Hden|]%X2; [|by right|done|done]. left.
    apply X1 in Hden; [by rewrite <- Hb|by apply Hn|done].
Qed.

(** Metadata and policies have one normal form.  Normalising succeeds
    only with labels that are trimmed, non-empty, at most 128 characters, in
    UTF-16 order without repetitions and at most 32, changes the set of denied
    labels only by trimming them, and is idempotent; normalised metadata
    survives its wire form. *)
Theorem metadata_normal_form (p p' : ToolPolicy) (m m' : ToolMetadata) :
  policy_normalized p = Ok p' -> metadata_normalized m = Ok m' ->
  labels_normal (tp_denied_capability_tags p') /\ labels_normal (tp_denied_cost_dimensions p') /\
  (forall tag, tag ∈ tp_denied_capability_tags p' <->
     exists raw, raw ∈ tp_denied_capability_tags p /\ trim_metadata_whitespace raw = tag) /\
  policy_normalized p' = Ok p' /\
  metadata_normal m' /\ metadata_normalized m' = Ok m' /\
  metadata_from_value (metadata_to_value m') = Some m'.
Proof.
  intros Hp Hm. pose proof Hp as (Hn & _ & _ & _ & Hg & _)%normalized_spec.
  pose proof Hn as [_ Ht Hc]. split; [done|]. split; [done|]. split.
  { intros tag. rewrite Hg. split.
    - intros (x & Hx & [-> _]%normalize_label_spec). eauto.
    - intros (x & Hx & <-). exists x. split; [done|].
      by eapply labels_trimmed; [apply normalized_tags|]. }
  split; [by apply normalized_id|]. apply metadata_spec in Hm as [Hm Hi].
  split; [done|]. split; [done|]. by apply metadata_wire.
Qed.

(** Twenty one-letter tags from a code on. *)
Definition sample_policy (code : N) : ToolPolicy :=
  with_denials policy_default []
    (map (fun i => String (ascii_of_N (code + N.of_nat i)) EmptyString) (seq 0 20)) false [].

(** The union of two policies is not total, although each is in normal
    form and the code expects it to succeed: twenty denied capability tags on
    either side make forty labels, more than the limit of thirty-two, and the
    call panics; it fails in no other way. *)
Theorem denial_union_panics :
  (exists p q, policy_normalized p = Ok p /\ policy_normalized q = Ok q /\
     extend_metadata_denials p q = Err "panic") /\
  (forall p q e, denials_normal p -> denials_normal q -> extend_metadata_denials p q = Err e ->
     (32 < length (dedup (stable_sort utf16_leb
       (tp_denied_capability_tags p ++ tp_denied_capability_tags q))))%nat \/
     (32 < length (dedup (stable_sort utf16_leb
       (tp_denied_cost_dimensions p ++ tp_denied_cost_dimensions q))))%nat).
Proof.
  split; [|by intros p q e Hp Hq [_ He]%extend_fails].
  exists (sample_policy 65), (sample_policy 97). repeat split; vm_compute; reflexivity.
Qed.

(** *** Witnesses *)

Definition sample_metadata : ToolMetadata :=
  {| tm_side_effect := WriteEffect; tm_idempotency := Supported; tm_terminal := false;
     tm_result_retention := ArchiveResult; tm_capability_tags := [" fs.write "; "fs.read"];
     tm_cost_dimensions := [] |}.
Definition sample_metadata_normal : ToolMetadata :=
  {| tm_side_effect := WriteEffect; tm_idempotency := Supported; tm_terminal := false;
     tm_result_retention := ArchiveResult; tm_capability_tags := ["fs.read"; "fs.write"];
     tm_cost_dimensions := [] |}.
Lemma metadata_normal_form_witness :
  labels_normal (tp_denied_capability_tags (sample_policy 65)) /\
  metadata_from_value (metadata_to_value sample_metadata_normal) = Some sample_metadata_normal.
Proof.
  assert (Hp : policy_normalized (sample_policy 65) = Ok (sample_policy 65))
    by (vm_compute; reflexivity).
  assert (Hm : metadata_normalized sample_metadata = Ok sample_metadata_normal)
    by (vm_compute; reflexivity).
  pose proof (metadata_normal_form _ _ _ _ Hp Hm) as (Ht & _ & _ & _ & _ & _ & Hw).
  exact (conj Ht Hw).
Defined.

Definition layer (disallowed : list string) (effects : list ToolSideEffect) : ToolPolicy :=
  {| tp_allowed_tools := None; tp_disallowed_tools := disallowed; tp_approval := DefaultApproval;
     tp_can_use_tool := None; tp_denied_side_effects := effects; tp_denied_capability_tags := [];
     tp_deny_terminal_tools := false; tp_denied_cost_dimensions := [] |}.
Lemma merged_policy_restrictive_witness :
  tool_allowed_by_policy (layer ["bash"] [WriteEffect]) "bash" = false /\
  denied (layer ["bash"] [WriteEffect]) sample_metadata_normal = true.
Proof.
  assert (Hm : merged_tool_policy policy_default (layer ["bash"] []) (layer [] [WriteEffect])
               = Ok (layer ["bash"] [WriteEffect])) by reflexivity.
  destruct (merged_policy_restrictive _ _ _ _ Hm) as (Hd & _ & _ & Hn & _).
  split; [apply Hd; right; left; constructor|]. apply Hn; [|reflexivity].
  apply (metadata_spec sample_metadata). vm_compute. reflexivity.
Defined.
