(* ===== verification/Settings.v ===== *)
(** * Model settings

    [model_settings.rs]: the sampling settings of a model call, how a layer of
    settings overrides another, their validity and their wire form; and the
    microcompaction policy of [memory/microcompact.rs].  An [f64] is its IEEE-754
    bit pattern (one pattern for the two zeros, as in [Json.Number]); order and
    arithmetic go through the Standard Library's reference floats. *)

From Stdlib Require Import String NArith ZArith SpecFloat Lia.
From stdpp Require Import base strings list sets.
From S2P Require Import Prelude Json Canonical CheckpointTypes ToolResult Journal TokenUsage Budget.
From S2P Require Import BudgetWire Records.

(** ** Floats *)

Definition f64 : Type := Z.

Section Floats.
Local Open Scope Z_scope.

Definition f64_value (bits : f64) : spec_float :=
  let sign := Z.testbit bits 63 in
  let e := Z.land (Z.shiftr bits 52) 2047 in
  let m := Z.land bits 4503599627370495 in
  if e =? 2047 then (if m =? 0 then S754_infinity sign else S754_nan)
  else if e =? 0 then
    match m with Zpos p => S754_finite sign p (-1074) | _ => S754_zero sign end
  else match m + 4503599627370496 with Zpos p => S754_finite sign p (e - 1075) | _ => S754_nan end.

Definition f64_bits (x : spec_float) : f64 :=
  let sign (s : bool) := if s then 2 ^ 63 else 0 in
  match x with
  | S754_zero _ => 0
  | S754_finite s m e =>
      sign s + (if Zpos m <? 4503599627370496 then Zpos m
                else (e + 1075) * 4503599627370496 + (Zpos m - 4503599627370496))
  | S754_infinity s => sign s + 2047 * 4503599627370496
  | S754_nan => 2047 * 4503599627370496 + 2251799813685248
  end.

(** [x as f64] of an integer. *)
Definition f64_of_Z (z : Z) : f64 := f64_bits (binary_normalize 53 1024 z 0 false).

Definition f64_cmp (a b : f64) : option comparison := SFcompare (f64_value a) (f64_value b).
(** Rust's [a < b] and [a <= b]: false on a NaN. *)
Definition f64_lt (a b : f64) : bool :=
  match f64_cmp a b with Some Lt => true | _ => false end.
Definition f64_le (a b : f64) : bool :=
  match f64_cmp a b with Some Lt | Some Eq => true | _ => false end.
Definition f64_is_finite (a : f64) : bool :=
  match f64_value a with S754_zero _ | S754_finite _ _ _ => true | _ => false end.
Definition f64_zero : f64 := 0.
Definition f64_one : f64 := 4607182418800017408.
Definition f64_two : f64 := 4611686018427387904.

Definition f64_add (a b : f64) : f64 := f64_bits (SFadd 53 1024 (f64_value a) (f64_value b)).
Definition f64_div (a b : f64) : f64 := f64_bits (SFdiv 53 1024 (f64_value a) (f64_value b)).
End Floats.

(** [Number::as_f64], and the [f64] a [Deserialize] reads. *)
Definition number_as_f64 (n : Number) : f64 :=
  match n with
  | PosInt n => f64_of_Z (Z.of_N n)
  | NegInt z => f64_of_Z z
  | Float bits => bits
  end.
Definition as_f64 (v : Value) : option f64 :=
  match v with Num n => Some (number_as_f64 n) | _ => None end.
(** [serialize_f64]: what has no JSON form is [null]. *)
Definition f64_to_value (x : f64) : Value :=
  if f64_is_finite x then Num (Float x) else Null.

(** *** [std::time::Duration] *)

Record Duration := { secs : N; nanos : N }.
#[global] Instance Duration_eq_dec : EqDecision Duration.
Proof. solve_decision. Defined.
Definition NANOS_PER_SEC : N := 1000000000.

(** The quotient rounded to the nearest integer, ties to even. *)
Definition div_round_even (a b : Z) : Z :=
  let q := (a / b)%Z in
  let r := (2 * (a mod b))%Z in
  if Z.ltb b r || (Z.eqb r b && Z.odd q) then (q + 1)%Z else q.

(** [Duration::from_secs_f64]: panics on a negative, non-finite or too large
    number. *)
Definition from_secs_f64 (x : f64) : result Duration :=
  match f64_value x with
  | S754_zero _ => Ok {| secs := 0; nanos := 0 |}
  | S754_finite false m e =>
      let total := if Z.leb 0 e then (Zpos m * 2 ^ e * Z.of_N NANOS_PER_SEC)%Z
                   else div_round_even (Zpos m * Z.of_N NANOS_PER_SEC) (2 ^ (- e)) in
      let seconds := (Z.to_N total / NANOS_PER_SEC)%N in
      if (U64_MAX <? seconds)%N then Err "panic"
      else Ok {| secs := seconds; nanos := (Z.to_N total mod NANOS_PER_SEC)%N |}
  | _ => Err "panic"
  end.
(** [Duration::as_secs_f64]. *)
Definition as_secs_f64 (d : Duration) : f64 :=
  f64_add (f64_of_Z (Z.of_N (secs d)))
          (f64_div (f64_of_Z (Z.of_N (nanos d))) (f64_of_Z (Z.of_N NANOS_PER_SEC))).
Definition duration_is_zero (d : Duration) : bool := (secs d =? 0)%N && (nanos d =? 0)%N.

(** ** Settings *)

Inductive ToolChoice := AutoChoice | NoneChoice | RequiredChoice | ToolNamed (name : string).
#[global] Instance ToolChoice_eq_dec : EqDecision ToolChoice.
Proof. solve_decision. Defined.
Inductive ResponseFormat := TextFormat | JsonObjectFormat | JsonSchemaFormat (json_schema : object).
#[global] Instance ResponseFormat_eq_dec : EqDecision ResponseFormat.
Proof. solve_decision. Defined.
Record RetrySettings := { rs_max_attempts : N; rs_backoff_seconds : f64 }.
#[global] Instance RetrySettings_eq_dec : EqDecision RetrySettings.
Proof. solve_decision. Defined.

Record ModelSettings := {
  ms_temperature : option f64;
  ms_top_p : option f64;
  ms_max_tokens : option N;
  ms_tool_choice : option ToolChoice;
  ms_parallel_tool_calls : option bool;
  ms_reasoning : option Value;
  ms_response_format : option ResponseFormat;
  ms_timeout : option Duration;
  ms_retry : option RetrySettings;
  ms_extra_headers : list (string * string);
  ms_extra_body : object;
  ms_extra_args : object
}.
#[global] Instance ModelSettings_eq_dec : EqDecision ModelSettings.
Proof. solve_decision. Defined.

Definition settings_default : ModelSettings :=
  {| ms_temperature := None; ms_top_p := None; ms_max_tokens := None; ms_tool_choice := None;
     ms_parallel_tool_calls := None; ms_reasoning := None; ms_response_format := None;
     ms_timeout := None; ms_retry := None; ms_extra_headers := []; ms_extra_body := [];
     ms_extra_args := [] |}.

Definition settings_merge (base over : ModelSettings) : ModelSettings :=
  {| ms_temperature := or_else (ms_temperature over) (ms_temperature base);
     ms_top_p := or_else (ms_top_p over) (ms_top_p base);
     ms_max_tokens := or_else (ms_max_tokens over) (ms_max_tokens base);
     ms_tool_choice := or_else (ms_tool_choice over) (ms_tool_choice base);
     ms_parallel_tool_calls := or_else (ms_parallel_tool_calls over) (ms_parallel_tool_calls base);
     ms_reasoning := or_else (ms_reasoning over) (ms_reasoning base);
     ms_response_format := or_else (ms_response_format over) (ms_response_format base);
     ms_timeout := or_else (ms_timeout over) (ms_timeout base);
     ms_retry := or_else (ms_retry over) (ms_retry base);
     ms_extra_headers := map_extend (ms_extra_headers base) (ms_extra_headers over);
     ms_extra_body := map_extend (ms_extra_body base) (ms_extra_body over);
     ms_extra_args := map_extend (ms_extra_args base) (ms_extra_args over) |}.

(** *** Validity *)

Definition settings_invalid : string := "model_settings_invalid".

Definition validate_finite_min (value : option f64) (minimum : f64) (exclusive : bool)
    : result unit :=
  match value with
  | None => Ok tt
  | Some value =>
      fail_if (negb (f64_is_finite value) || (exclusive && f64_le value minimum)
               || (negb exclusive && f64_lt value minimum)) with settings_invalid ;;
      Ok tt
  end.
Definition validate_finite_range (value : option f64) (minimum maximum : f64) : result unit :=
  do? validate_finite_min value minimum false ;;
  fail_if (is_some_and value (fun value => f64_lt maximum value)) with settings_invalid ;;
  Ok tt.
Definition retry_validate (r : RetrySettings) : result unit :=
  fail_if (rs_max_attempts r =? 0)%N with settings_invalid ;;
  fail_if (negb (f64_is_finite (rs_backoff_seconds r)) || f64_lt (rs_backoff_seconds r) f64_zero)
  with settings_invalid ;;
  Ok tt.
Definition settings_validate (s : ModelSettings) : result unit :=
  do? validate_finite_min (ms_temperature s) f64_zero false ;;
  do? validate_finite_range (ms_top_p s) f64_zero f64_one ;;
  fail_if (is_some_and (ms_max_tokens s) (fun n => (n =? 0)%N)) with settings_invalid ;;
  fail_if (is_some_and (ms_timeout s) duration_is_zero) with settings_invalid ;;
  do? check_opt retry_validate (ms_retry s) ;;
  fail_if (is_some_and (ms_tool_choice s)
             (fun choice => match choice with ToolNamed name => trim_is_empty name | _ => false end))
  with settings_invalid ;;
  fail_if (is_some_and (ms_reasoning s) (fun v => negb (is_object v))) with settings_invalid ;;
  Ok tt.

(** *** Wire form *)

(** [ToolChoice::serialize] refuses a blank name. *)
Definition choice_to_value (c : ToolChoice) : option Value :=
  match c with
  | AutoChoice => Some (Str "auto")
  | NoneChoice => Some (Str "none")
  | RequiredChoice => Some (Str "required")
  | ToolNamed name =>
      if trim_is_empty name then None
      else Some (json_object [("type", Str "function");
                              ("function", json_object [("name", Str name)])])
  end.
Definition choice_from_value (v : Value) : option ToolChoice :=
  match as_str v with
  | Some mode =>
      if String.eqb mode "auto" then Some AutoChoice
      else if String.eqb mode "none" then Some NoneChoice
      else if String.eqb mode "required" then Some RequiredChoice else None
  | None =>
      m ← as_object v;
      if negb (map_len m =? 2)%N || (map_get "type" m <>?? Some (Str "function")) then None
      else
        function ← map_get "function" m ≫= as_object;
        if negb (map_len function =? 1)%N then None
        else
          name ← map_get "name" function ≫= as_str;
          if trim_is_empty name then None else Some (ToolNamed name)
  end.

Definition format_to_value (f : ResponseFormat) : Value :=
  match f with
  | TextFormat => json_object [("type", Str "text")]
  | JsonObjectFormat => json_object [("type", Str "json_object")]
  | JsonSchemaFormat schema =>
      json_object [("type", Str "json_schema"); ("json_schema", Object schema)]
  end.
Definition format_from_value (v : Value) : option ResponseFormat :=
  m ← as_object v;
  kind ← map_get "type" m ≫= as_str;
  if String.eqb kind "text" && (map_len m =? 1)%N then Some TextFormat
  else if String.eqb kind "json_object" && (map_len m =? 1)%N then Some JsonObjectFormat
  else if String.eqb kind "json_schema" && (map_len m =? 2)%N then
    schema ← map_get "json_schema" m ≫= as_object;
    Some (JsonSchemaFormat schema)
  else None.

Definition retry_fields : list string := ["max_attempts"; "backoff_seconds"].
Definition retry_to_value (r : RetrySettings) : Value :=
  json_object [("max_attempts", json_u64 (rs_max_attempts r));
               ("backoff_seconds", f64_to_value (rs_backoff_seconds r))].
(** [RetrySettingsWire] takes what is missing from [RetrySettings::default]. *)
Definition retry_from_value (v : Value) : option RetrySettings :=
  fields ← serde_default_struct retry_fields v;
  match fields with
  | [a; b] =>
      attempts ← serde_or_default as_u32_value 3%N a;
      backoff ← serde_or_default as_f64 f64_two b;
      serde_checked retry_validate {| rs_max_attempts := attempts; rs_backoff_seconds := backoff |}
  | _ => None
  end.

(** The [with] modules: a missing field is [None], like a [null] one. *)
Definition temperature_option (o : option Value) : option (option f64) :=
  value ← serde_option as_f64 o;
  if is_some_and value (fun x => negb (f64_is_finite x && f64_le f64_zero x)) then None
  else Some value.
Definition top_p_option (o : option Value) : option (option f64) :=
  value ← serde_option as_f64 o;
  if is_some_and value (fun x => negb (f64_is_finite x && (f64_le f64_zero x && f64_le x f64_one)))
  then None else Some value.
Definition positive_u32_option (o : option Value) : option (option N) :=
  value ← serde_option as_u32_value o;
  if is_some_and value (fun n => (n =? 0)%N) then None else Some value.
Definition reasoning_option (o : option Value) : option (option Value) :=
  match o with
  | None | Some Null => Some None
  | Some (Object []) => Some None
  | Some (Object m) => Some (Some (Object m))
  | Some _ => None
  end.
(** A panic of [from_secs_f64] is an error of its own; the reader returns
    nothing either way. *)
Definition duration_seconds_option (o : option Value) : option (option Duration) :=
  value ← serde_option as_f64 o;
  match value with
  | None => Some None
  | Some x =>
      if f64_is_finite x && f64_lt f64_zero x then
        match from_secs_f64 x with Ok d => Some (Some d) | Err _ => None end
      else None
  end.
Definition headers_from_value (v : Value) : option (list (string * string)) :=
  m ← as_object v; mapM (fun '(k, x) => s ← as_str x; Some (k, s)) m.

Definition settings_fields : list string :=
  ["temperature"; "top_p"; "max_tokens"; "tool_choice"; "parallel_tool_calls"; "reasoning";
   "response_format"; "timeout_seconds"; "retry"; "extra_headers"; "extra_body"; "extra_args"].
Definition settings_from_value (v : Value) : option ModelSettings :=
  fields ← serde_default_struct settings_fields v;
  match fields with
  | [a; b; c; d; e; f; g; h; i; j; k; l] =>
      temperature ← temperature_option a;
      top_p ← top_p_option b;
      max_tokens ← positive_u32_option c;
      choice ← serde_option choice_from_value d;
      parallel ← serde_option as_bool e;
      reasoning ← reasoning_option f;
      format ← serde_option format_from_value g;
      timeout ← duration_seconds_option h;
      retry ← serde_option retry_from_value i;
      headers ← serde_or_default headers_from_value [] j;
      body ← serde_or_default as_object [] k;
      args ← serde_or_default as_object [] l;
      Some {| ms_temperature := temperature; ms_top_p := top_p; ms_max_tokens := max_tokens;
              ms_tool_choice := choice; ms_parallel_tool_calls := parallel;
              ms_reasoning := reasoning; ms_response_format := format; ms_timeout := timeout;
              ms_retry := retry; ms_extra_headers := headers; ms_extra_body := body;
              ms_extra_args := args |}
  | _ => None
  end.

(** A field the writer skips when it is absent or empty. *)
Definition field_opt {A} (name : string) (enc : A -> Value) (o : option A) : list (string * Value) :=
  match o with Some a => [(name, enc a)] | None => [] end.
Definition field_map {V} (name : string) (enc : V -> Value) (m : list (string * V))
    : list (string * Value) :=
  match m with [] => [] | _ => [(name, Object (map (fun '(k, v) => (k, enc v)) m))] end.
Definition reasoning_field (o : option Value) : list (string * Value) :=
  match o with
  | None | Some (Object []) => []
  | Some v => [("reasoning", v)]
  end.

(** [to_value]: [Null] when a field cannot be serialised. *)
Definition settings_to_value (s : ModelSettings) : Value :=
  let choice := choice_to_value <$> ms_tool_choice s in
  match choice with
  | Some None => Null
  | _ =>
      json_object
        (field_opt "temperature" f64_to_value (ms_temperature s)
         ++ field_opt "top_p" f64_to_value (ms_top_p s)
         ++ field_opt "max_tokens" json_u64 (ms_max_tokens s)
         ++ field_opt "tool_choice" (fun v => v) (choice ≫= fun v => v)
         ++ field_opt "parallel_tool_calls" Bool (ms_parallel_tool_calls s)
         ++ reasoning_field (ms_reasoning s)
         ++ field_opt "response_format" format_to_value (ms_response_format s)
         ++ field_opt "timeout_seconds" (fun d => f64_to_value (as_secs_f64 d)) (ms_timeout s)
         ++ field_opt "retry" retry_to_value (ms_retry s)
         ++ field_map "extra_headers" Str (ms_extra_headers s)
         ++ field_map "extra_body" (fun v => v) (ms_extra_body s)
         ++ field_map "extra_args" (fun v => v) (ms_extra_args s))
  end.

(** ** The microcompaction policy *)

Record MicrocompactionPolicy := {
  mp_trigger_ratio : f64;
  mp_target_ratio : f64;
  mp_keep_recent_cycles : N;
  mp_min_result_chars : N
}.
#[global] Instance MicrocompactionPolicy_eq_dec : EqDecision MicrocompactionPolicy.
Proof. solve_decision. Defined.

Definition microcompaction_validate (p : MicrocompactionPolicy) : result unit :=
  fail_if (negb (f64_is_finite (mp_trigger_ratio p)) || negb (f64_is_finite (mp_target_ratio p))
           || f64_le (mp_target_ratio p) f64_zero
           || f64_le (mp_trigger_ratio p) (mp_target_ratio p)
           || f64_lt f64_one (mp_trigger_ratio p)) with "microcompaction_policy_invalid" ;;
  fail_if (mp_min_result_chars p =? 0)%N with "microcompaction_policy_invalid" ;;
  Ok tt.

Definition microcompaction_fields : list string :=
  ["trigger_ratio"; "target_ratio"; "keep_recent_cycles"; "min_result_chars"].
Definition microcompaction_to_value (p : MicrocompactionPolicy) : Value :=
  json_object [
    ("trigger_ratio", f64_to_value (mp_trigger_ratio p));
    ("target_ratio", f64_to_value (mp_target_ratio p));
    ("keep_recent_cycles", json_u64 (mp_keep_recent_cycles p));
    ("min_result_chars", json_u64 (mp_min_result_chars p))].
Definition microcompaction_from_value (v : Value) : option MicrocompactionPolicy :=
  fields ← serde_strict_struct microcompaction_fields v;
  match fields with
  | [a; b; c; d] =>
      trigger ← a ≫= as_f64;
      target ← b ≫= as_f64;
      keep ← c ≫= as_u32_value;
      chars ← d ≫= as_u32_value;
      serde_checked microcompaction_validate
        {| mp_trigger_ratio := trigger; mp_target_ratio := target; mp_keep_recent_cycles := keep;
           mp_min_result_chars := chars |}
  | _ => None
  end.
(** [MicrocompactionPolicy::default]: 0.75, 0.6, 3 cycles, 500 characters. *)
Definition microcompaction_default : MicrocompactionPolicy :=
  {| mp_trigger_ratio := 4604930618986332160%Z; mp_target_ratio := 4603579539098121011%Z;
     mp_keep_recent_cycles := 3; mp_min_result_chars := 500 |}.

Example half_second : from_secs_f64 4602678819172646912%Z = Ok {| secs := 0; nanos := 500000000 |}.
Proof. reflexivity. Qed.
Example default_ratios :
  f64_div (f64_of_Z 3%Z) (f64_of_Z 4%Z) = mp_trigger_ratio microcompaction_default /\
  f64_div (f64_of_Z 3%Z) (f64_of_Z 5%Z) = mp_target_ratio microcompaction_default.
Proof. split; vm_compute; reflexivity. Qed.
Example integers : f64_of_Z 9007199254740993%Z = f64_of_Z 9007199254740992%Z /\ f64_of_Z 1%Z = f64_one.
Proof. split; vm_compute; reflexivity. Qed.

(** ** Lemmas *)

Record settings_maps_wf (s : ModelSettings) : Prop := {
  sm_headers : map_wf (ms_extra_headers s);
  sm_body : map_wf (ms_extra_body s);
  sm_args : map_wf (ms_extra_args s)
}.

Lemma or_else_assoc {A} (a b c : option A) : or_else a (or_else b c) = or_else (or_else a b) c.
Proof. by destruct a. Qed.
Lemma or_else_nothing {A} (a : option A) : or_else a None = a.
Proof. by destruct a. Qed.

Lemma map_extend_assoc {V} (a b c : list (string * V)) :
  map_wf a -> map_wf b -> map_extend (map_extend a b) c = map_extend a (map_extend b c).
Proof.
  intros Ha Hb. apply map_wf_ext; [by repeat apply map_extend_wf|by apply map_extend_wf|].
  intros k. rewrite !map_get_extend, (map_of_list_id (map_extend b c)) by (by apply map_extend_wf).
  rewrite map_get_extend, (map_of_list_id b) by done. apply or_else_assoc.
Qed.
Lemma map_extend_nil {V} (m : list (string * V)) : map_wf m -> map_extend [] m = m.
Proof. apply map_of_list_id. Qed.

Lemma merge_maps_wf a b : settings_maps_wf a -> settings_maps_wf (settings_merge a b).
Proof. intros []. by split; apply map_extend_wf. Qed.
Lemma merge_assoc a b c :
  settings_maps_wf a -> settings_maps_wf b ->
  settings_merge (settings_merge a b) c = settings_merge a (settings_merge b c).
Proof.
  intros [] []. unfold settings_merge. cbn. rewrite !or_else_assoc.
  by rewrite !map_extend_assoc by done.
Qed.
Lemma merge_default_r a : settings_merge a settings_default = a.
Proof. by destruct a. Qed.
Lemma merge_default_l a : settings_maps_wf a -> settings_merge settings_default a = a.
Proof.
  intros [Hh Hb Ha]. destruct a. unfold settings_merge. cbn -[map_extend] in *.
  by rewrite !or_else_nothing, !map_extend_nil by done.
Qed.

(** A check of one optional field survives an override by a checked value. *)
Lemma or_else_check {A} (f : A -> result unit) a b :
  check_opt f a = Ok tt -> check_opt f b = Ok tt -> check_opt f (or_else a b) = Ok tt.
Proof. by destruct a. Qed.
Lemma or_else_flag {A} (f : A -> bool) a b :
  is_some_and a f = false -> is_some_and b f = false -> is_some_and (or_else a b) f = false.
Proof. by destruct a. Qed.

Lemma settings_validate_spec s :
  settings_validate s = Ok tt <->
  validate_finite_min (ms_temperature s) f64_zero false = Ok tt /\
  validate_finite_range (ms_top_p s) f64_zero f64_one = Ok tt /\
  is_some_and (ms_max_tokens s) (fun n => (n =? 0)%N) = false /\
  is_some_and (ms_timeout s) duration_is_zero = false /\
  check_opt retry_validate (ms_retry s) = Ok tt /\
  is_some_and (ms_tool_choice s) (fun choice =>
    match choice with ToolNamed name => trim_is_empty name | _ => false end) = false /\
  is_some_and (ms_reasoning s) (fun v => negb (is_object v)) = false.
Proof.
  unfold settings_validate. split.
  - intros Hv. result_inv. by unit_inv.
  - by intros (-> & -> & -> & -> & -> & -> & ->).
Qed.
Lemma merge_valid a b :
  settings_validate a = Ok tt -> settings_validate b = Ok tt ->
  settings_validate (settings_merge a b) = Ok tt.
Proof.
  rewrite !settings_validate_spec. intros (A1 & A2 & A3 & A4 & A5 & A6 & A7)
    (B1 & B2 & B3 & B4 & B5 & B6 & B7). cbn.
  split; [by destruct (ms_temperature b)|]. split; [by destruct (ms_top_p b)|].
  split; [by apply or_else_flag|]. split; [by apply or_else_flag|].
  split; [by apply or_else_check|]. split; by apply or_else_flag.
Qed.

(** *** The wire form *)

Lemma get_field_opt {A} k name (enc : A -> Value) o :
  map_get k (map_of_list (field_opt name enc o)) = if String.eqb k name then enc <$> o else None.
Proof. destruct o; cbn; by destruct (String.eqb k name). Qed.
Definition map_slot {V} (enc : V -> Value) (m : list (string * V)) : option Value :=
  match m with [] => None | _ => Some (Object (map (fun '(k, v) => (k, enc v)) m)) end.
Lemma get_field_map {V} k name (enc : V -> Value) m :
  map_get k (map_of_list (field_map name enc m))
  = if String.eqb k name then map_slot enc m else None.
Proof. destruct m; cbn; by destruct (String.eqb k name). Qed.
Lemma get_reasoning k o :
  map_get k (map_of_list (reasoning_field o))
  = if String.eqb k "reasoning"
    then match o with None | Some (Object []) => None | Some v => Some v end else None.
Proof. destruct o as [[| | | | |[|]]|]; cbn; by destruct (String.eqb k "reasoning"). Qed.

Lemma fields_of_opt {A} name (enc : A -> Value) o k :
  k ∈ map fst (field_opt name enc o) -> k = name.
Proof. destruct o; cbn; set_solver. Qed.
Lemma fields_of_map {V} name (enc : V -> Value) (m : list (string * V)) k :
  k ∈ map fst (field_map name enc m) -> k = name.
Proof. destruct m; cbn; set_solver. Qed.
Lemma fields_of_reasoning o k : k ∈ map fst (reasoning_field o) -> k = "reasoning".
Proof. destruct o as [[| | | | |[|]]|]; cbn; set_solver. Qed.

Definition settings_entries (s : ModelSettings) (choice : option Value) : list (string * Value) :=
  field_opt "temperature" f64_to_value (ms_temperature s)
  ++ field_opt "top_p" f64_to_value (ms_top_p s)
  ++ field_opt "max_tokens" json_u64 (ms_max_tokens s)
  ++ field_opt "tool_choice" (fun v => v) choice
  ++ field_opt "parallel_tool_calls" Bool (ms_parallel_tool_calls s)
  ++ reasoning_field (ms_reasoning s)
  ++ field_opt "response_format" format_to_value (ms_response_format s)
  ++ field_opt "timeout_seconds" (fun d => f64_to_value (as_secs_f64 d)) (ms_timeout s)
  ++ field_opt "retry" retry_to_value (ms_retry s)
  ++ field_map "extra_headers" Str (ms_extra_headers s)
  ++ field_map "extra_body" (fun v => v) (ms_extra_body s)
  ++ field_map "extra_args" (fun v => v) (ms_extra_args s).

Lemma settings_known s choice :
  only_fields settings_fields (map_of_list (settings_entries s choice)) = true.
Proof.
  apply only_fields_spec. intros k. rewrite map_of_list_keys. unfold settings_entries.
  rewrite !map_app, !elem_of_app. unfold settings_fields.
  intros H. repeat match type of H with _ \/ _ => destruct H as [H|H] end.
  all: first [apply fields_of_opt in H|apply fields_of_map in H|apply fields_of_reasoning in H];
    subst k; set_solver.
Qed.

(** What each field reader is given. *)
Definition settings_slots (s : ModelSettings) (choice : option Value) : list (option Value) :=
  [f64_to_value <$> ms_temperature s; f64_to_value <$> ms_top_p s; json_u64 <$> ms_max_tokens s;
   choice; Bool <$> ms_parallel_tool_calls s;
   match ms_reasoning s with None | Some (Object []) => None | Some v => Some v end;
   format_to_value <$> ms_response_format s;
   (fun d => f64_to_value (as_secs_f64 d)) <$> ms_timeout s; retry_to_value <$> ms_retry s;
   map_slot Str (ms_extra_headers s); map_slot (fun v => v) (ms_extra_body s);
   map_slot (fun v => v) (ms_extra_args s)].
Lemma settings_read s choice :
  serde_default_struct settings_fields (json_object (settings_entries s choice))
  = Some (settings_slots s choice).
Proof.
  unfold serde_default_struct, json_object. rewrite settings_known. f_equal.
  unfold settings_fields, settings_slots. cbn [map]. unfold settings_entries.
  rewrite !map_get_of_app, !get_field_opt, !get_field_map, !get_reasoning.
  cbn [String.eqb Ascii.eqb Bool.eqb or_else]. rewrite !or_else_nothing.
  by destruct choice.
Qed.

Record settings_wire_ok (s : ModelSettings) : Prop := {
  sw_max_tokens : forall n, ms_max_tokens s = Some n -> (n <= U32_MAX)%N;
  sw_retry : forall r, ms_retry s = Some r -> (rs_max_attempts r <= U32_MAX)%N;
  sw_reasoning : ms_reasoning s <> Some (Object []);
  (** The timeout has a float of its own. *)
  sw_timeout : forall d, ms_timeout s = Some d ->
    f64_is_finite (as_secs_f64 d) = true /\ f64_lt f64_zero (as_secs_f64 d) = true /\
    from_secs_f64 (as_secs_f64 d) = Ok d
}.

Lemma f64_not_lt a b : f64_is_finite a = true -> f64_is_finite b = true ->
  f64_lt a b = false -> f64_le b a = true.
Proof.
  unfold f64_is_finite, f64_lt, f64_le, f64_cmp.
  destruct (f64_value a) as [sa| | |sa ma ea], (f64_value b) as [sb| | |sb mb eb]; try done; cbn.
  - by destruct sb.
  - by destruct sa.
  - destruct sa, sb; try done; rewrite (Z.compare_antisym ea eb);
      destruct (Z.compare ea eb); cbn; try done;
      change (Pos.compare_cont Eq ma mb) with (Pos.compare ma mb);
      change (Pos.compare_cont Eq mb ma) with (Pos.compare mb ma);
      rewrite (Pos.compare_antisym ma mb); by destruct (Pos.compare ma mb).
Qed.

Lemma finite_min_spec o :
  validate_finite_min o f64_zero false = Ok tt ->
  forall x, o = Some x -> f64_is_finite x = true /\ f64_le f64_zero x = true.
Proof.
  intros Hv x ->. unfold validate_finite_min in Hv. result_inv. bool_inv. cbn [negb andb] in *.
  split; [done|]. by apply f64_not_lt.
Qed.
Lemma f64_written x : f64_is_finite x = true -> f64_to_value x = Num (Float x).
Proof. unfold f64_to_value. by intros ->. Qed.

Lemma temperature_wire o :
  validate_finite_min o f64_zero false = Ok tt -> temperature_option (f64_to_value <$> o) = Some o.
Proof.
  intros Hv. destruct o as [x|]; [|done]. destruct (finite_min_spec _ Hv x eq_refl) as [Hf Hm].
  cbn. rewrite f64_written by done. unfold temperature_option. cbn. by rewrite Hf, Hm.
Qed.
Lemma top_p_wire o :
  validate_finite_range o f64_zero f64_one = Ok tt -> top_p_option (f64_to_value <$> o) = Some o.
Proof.
  unfold validate_finite_range. intros Hv. result_inv. unit_inv.
  destruct o as [x|]; [|done]. destruct (finite_min_spec _ Hdo x eq_refl) as [Hf Hm].
  cbn. rewrite f64_written by done. unfold top_p_option. cbn.
  rewrite Hf, Hm. by rewrite f64_not_lt.
Qed.
Lemma max_tokens_wire o :
  (forall n, o = Some n -> (n <= U32_MAX)%N) -> is_some_and o (fun n => (n =? 0)%N) = false ->
  positive_u32_option (json_u64 <$> o) = Some o.
Proof.
  destruct o as [n|]; [|done]. intros Hn Hz. unfold positive_u32_option. cbn [fmap option_fmap option_map].
  cbn [serde_option json_u64]. fold (json_u64 n). rewrite as_u32_value_json by auto. cbn in *.
  by rewrite Hz.
Qed.
Lemma choice_wire c v :
  choice_to_value c = Some v -> serde_option choice_from_value (Some v) = Some (Some c).
Proof.
  destruct c as [| | |name]; cbn; intros Hv; simplify_eq; try done.
  destruct (trim_is_empty name) eqn:E; simplify_eq.
  change (Some <$> (if trim_is_empty name then None else Some (ToolNamed name))
          = Some (Some (ToolNamed name))). by rewrite E.
Qed.
Lemma format_wire o : serde_option format_from_value (format_to_value <$> o) = Some o.
Proof. by destruct o as [[]|]. Qed.
Lemma retry_wire o :
  (forall r, o = Some r -> (rs_max_attempts r <= U32_MAX)%N) -> check_opt retry_validate o = Ok tt ->
  serde_option retry_from_value (retry_to_value <$> o) = Some o.
Proof.
  destruct o as [r|]; [|done]. intros Hw Hv. cbn [check_opt] in Hv.
  assert (Hf : f64_is_finite (rs_backoff_seconds r) = true).
  { unfold retry_validate in Hv. result_inv. by bool_inv. }
  change (Some <$> retry_from_value (retry_to_value r) = Some (Some r)).
  unfold retry_from_value, retry_to_value. rewrite f64_written by done.
  match goal with |- context [json_object ?l] => change retry_fields with (map fst l) end.
  rewrite serde_default_struct_literal by (apply (bool_decide_eq_true_1 _); vm_compute; reflexivity).
  cbn [map snd mbind option_bind serde_or_default]. rewrite as_u32_value_json by auto.
  cbn [mbind option_bind as_f64 number_as_f64]. destruct r. cbn [rs_max_attempts rs_backoff_seconds].
  by rewrite serde_checked_Ok.
Qed.
Lemma timeout_wire o :
  (forall d, o = Some d -> f64_is_finite (as_secs_f64 d) = true /\
     f64_lt f64_zero (as_secs_f64 d) = true /\ from_secs_f64 (as_secs_f64 d) = Ok d) ->
  duration_seconds_option ((fun d => f64_to_value (as_secs_f64 d)) <$> o) = Some o.
Proof.
  destruct o as [d|]; [|done]. intros Hd. destruct (Hd d eq_refl) as (Hf & Hp & Hr).
  cbn [fmap option_fmap option_map]. rewrite f64_written by done. unfold duration_seconds_option.
  cbn [serde_option as_f64 number_as_f64 mbind option_bind fmap option_fmap option_map].
  by rewrite Hf, Hp, Hr.
Qed.
Lemma reasoning_wire o :
  o <> Some (Object []) -> is_some_and o (fun v => negb (is_object v)) = false ->
  reasoning_option (match o with None | Some (Object []) => None | Some v => Some v end) = Some o.
Proof. destruct o as [[| | | | |[|]]|]; try done. Qed.
Lemma map_pair_id (m : object) : map (fun '(k, v) => (k, v)) m = m.
Proof. induction m as [|[k v] m IH]; [done|]. cbn. by rewrite IH. Qed.
Lemma headers_wire m : headers_from_value (Object (map (fun '(k, v) => (k, Str v)) m)) = Some m.
Proof.
  unfold headers_from_value. cbn [mbind option_bind as_object].
  induction m as [|[k v] m IH]; [done|]. cbn in *. by rewrite IH.
Qed.

Lemma headers_slot m : serde_or_default headers_from_value [] (map_slot Str m) = Some m.
Proof. destruct m; [done|]. apply headers_wire. Qed.
Lemma object_slot m : serde_or_default as_object [] (map_slot (fun v => v) m) = Some m.
Proof. destruct m as [|x m]; [done|]. cbn [serde_or_default map_slot as_object]. by rewrite map_pair_id. Qed.

(** [settings_to_value] read back. *)
Lemma settings_wire s :
  settings_validate s = Ok tt -> settings_wire_ok s ->
  settings_from_value (settings_to_value s) = Some s.
Proof.
  intros (V1 & V2 & V3 & V4 & V5 & V6 & V7)%settings_validate_spec [W1 W2 W3 W4].
  assert (Hc : exists choice, settings_to_value s = json_object (settings_entries s choice) /\
            serde_option choice_from_value choice = Some (ms_tool_choice s)).
  { unfold settings_to_value. destruct (ms_tool_choice s) as [c|] eqn:Ec; [|by exists None].
    destruct (choice_to_value c) as [v|] eqn:Ev.
    - exists (Some v). cbn [fmap option_fmap option_map mbind option_bind]. rewrite Ev.
      split; [done|]. by rewrite (choice_wire c).
    - destruct c as [| | |name]; cbn in Ev, V6; try done. by rewrite V6 in Ev. }
  destruct Hc as (choice & -> & Hch). unfold settings_from_value. rewrite settings_read.
  unfold settings_slots. cbn [mbind option_bind].
  rewrite temperature_wire by done. cbn [mbind option_bind].
  rewrite top_p_wire by done. cbn [mbind option_bind].
  rewrite max_tokens_wire by done. cbn [mbind option_bind].
  rewrite Hch. cbn [mbind option_bind].
  assert (Hb : serde_option as_bool (Bool <$> ms_parallel_tool_calls s)
               = Some (ms_parallel_tool_calls s)) by (by destruct (ms_parallel_tool_calls s)).
  rewrite Hb. cbn [mbind option_bind]. rewrite reasoning_wire by done. cbn [mbind option_bind].
  rewrite format_wire. cbn [mbind option_bind]. rewrite timeout_wire by done.
  cbn [mbind option_bind]. rewrite retry_wire by done. cbn [mbind option_bind].
  rewrite headers_slot. cbn [mbind option_bind]. rewrite !object_slot. by destruct s.
Qed.

Lemma microcompaction_wire p :
  microcompaction_validate p = Ok tt ->
  (mp_keep_recent_cycles p <= U32_MAX)%N -> (mp_min_result_chars p <= U32_MAX)%N ->
  microcompaction_from_value (microcompaction_to_value p) = Some p.
Proof.
  intros Hv Hk Hc. pose proof Hv as Hf. unfold microcompaction_validate in Hf. result_inv. bool_inv.
  unfold microcompaction_from_value, microcompaction_to_value. rewrite !f64_written by done.
  match goal with |- context [json_object ?l] => change microcompaction_fields with (map fst l) end.
  strict_struct_literal. cbn [map snd mbind option_bind as_f64 number_as_f64].
  rewrite !as_u32_value_json by done. cbn [mbind option_bind]. destruct p. by apply serde_checked_Ok.
Qed.

(** ** Properties *)

(** Layers of model settings form a monoid: overriding is associative,
    the empty settings change nothing on either side, the last layer that sets
    a field decides it, and layers that are valid merge to valid settings. *)
Theorem settings_layering (a b c : ModelSettings) :
  settings_maps_wf a -> settings_maps_wf b ->
  settings_validate a = Ok tt -> settings_validate b = Ok tt ->
  settings_merge (settings_merge a b) c = settings_merge a (settings_merge b c) /\
  settings_merge settings_default a = a /\ settings_merge a settings_default = a /\
  settings_validate (settings_merge a b) = Ok tt /\
  ms_temperature (settings_merge a b) = or_else (ms_temperature b) (ms_temperature a) /\
  (forall k, map_get k (ms_extra_headers (settings_merge a b))
             = or_else (map_get k (ms_extra_headers b)) (map_get k (ms_extra_headers a))).
Proof.
  intros Ha Hb Hva Hvb. split; [by apply merge_assoc|]. split; [by apply merge_default_l|].
  split; [apply merge_default_r|]. split; [by apply merge_valid|]. split; [done|].
  intros k. cbn. rewrite map_get_extend, map_of_list_id; [done|by destruct Hb].
Qed.

(** Model settings survive their wire form: valid settings with [u32]
    counts, no empty reasoning object and a timeout that a float represents
    are read back from what was written; so is a valid microcompaction
    policy. *)
Theorem settings_wire_roundtrip (s : ModelSettings) (p : MicrocompactionPolicy) :
  settings_validate s = Ok tt -> settings_wire_ok s ->
  microcompaction_validate p = Ok tt -> (mp_keep_recent_cycles p <= U32_MAX)%N ->
  (mp_min_result_chars p <= U32_MAX)%N ->
  settings_from_value (settings_to_value s) = Some s /\
  microcompaction_from_value (microcompaction_to_value p) = Some p.
Proof. intros. split; [by apply settings_wire|by apply microcompaction_wire]. Qed.

(** A finite positive timeout that no [Duration] holds (1e300 seconds) makes
    [Duration::from_secs_f64] panic while the settings are read. *)
Lemma timeout_overflow_panics :
  let x := 9094988921128908188%Z in
  f64_is_finite x = true /\ f64_lt f64_zero x = true /\ from_secs_f64 x = Err "panic".
Proof. vm_compute. by repeat split. Qed.

(** *** Witnesses *)

Definition sample_settings : ModelSettings :=
  {| ms_temperature := Some f64_one; ms_top_p := None; ms_max_tokens := Some 4096%N;
     ms_tool_choice := Some (ToolNamed "search"); ms_parallel_tool_calls := Some true;
     ms_reasoning := None; ms_response_format := Some TextFormat;
     ms_timeout := Some {| secs := 2; nanos := 500000000 |};
     ms_retry := Some {| rs_max_attempts := 3; rs_backoff_seconds := f64_two |};
     ms_extra_headers := [("a", "1")]; ms_extra_body := []; ms_extra_args := [] |}.
Lemma sample_settings_ok : settings_maps_wf sample_settings /\ settings_validate sample_settings = Ok tt.
Proof. split; [|reflexivity]. split; by apply keys_sorted_wf. Qed.
Lemma settings_layering_witness :
  settings_validate (settings_merge sample_settings sample_settings) = Ok tt.
Proof.
  exact (proj1 (proj2 (proj2 (proj2 (settings_layering sample_settings sample_settings settings_default
    (proj1 sample_settings_ok) (proj1 sample_settings_ok) (proj2 sample_settings_ok)
    (proj2 sample_settings_ok)))))).
Defined.
Lemma settings_wire_roundtrip_witness :
  settings_from_value (settings_to_value sample_settings) = Some sample_settings /\
  microcompaction_from_value (microcompaction_to_value microcompaction_default)
  = Some microcompaction_default.
Proof.
  apply settings_wire_roundtrip; try (vm_compute; congruence).
  split; cbn; intros; simplify_eq; vm_compute; by repeat split.
Defined.
