(* ===== verification/Prompt.v ===== *)
(** * Prompt bundles

    [prompt/builder/section.rs]: the system prompt as sections, with a digest
    of the stable ones that provider caches key on. *)

From Stdlib Require Import Ascii String NArith ZArith Lia.
From stdpp Require Import base strings list sets.
From S2P Require Import Prelude Json Canonical CheckpointTypes ToolResult Journal TokenUsage Budget.
From S2P Require Import BudgetWire Records ToolPolicy Settings.

Record PromptSection := {
  ps_id : string;
  ps_text : string;
  ps_stable : bool;
  ps_source : option string;
  ps_cache_hint : option string;
  ps_metadata : object
}.
#[global] Instance PromptSection_eq_dec : EqDecision PromptSection.
Proof. solve_decision. Defined.
Record PromptBundle := { pb_sections : list PromptSection; pb_stable_hash : string }.
#[global] Instance PromptBundle_eq_dec : EqDecision PromptBundle.
Proof. solve_decision. Defined.

Definition prompt_invalid : string := "prompt_invalid".

(** ** Sections *)

Definition ascii_space (b : N) : bool := ((9 <=? b)%N && (b <=? 13)%N) || (b =? 32)%N.
Definition trim_ascii_whitespace (value : string) : string := trim_matches ascii_space value.
Definition ascii_blank (value : string) : bool := str_is_empty (trim_ascii_whitespace value).

Definition section_validate (s : PromptSection) : result unit :=
  fail_if (ascii_blank (ps_id s)) with prompt_invalid ;;
  fail_if (ascii_blank (ps_text s)) with prompt_invalid ;;
  try_for_each (fun value => fail_if (is_some_and value ascii_blank) with prompt_invalid ;; Ok tt)
    [ps_source s; ps_cache_hint s].
Definition section_new (id text : string) (stable : bool) : PromptSection :=
  {| ps_id := trim_ascii_whitespace id; ps_text := trim_ascii_whitespace text;
     ps_stable := stable; ps_source := None; ps_cache_hint := None; ps_metadata := [] |}.
Definition section_try_new (id text : string) (stable : bool) : result PromptSection :=
  let section := section_new id text stable in
  do? section_validate section ;;
  Ok section.

Definition normalize_optional (value : option string) : option string :=
  value ≫= fun value =>
    let value := trim_ascii_whitespace value in
    if str_is_empty value then None else Some value.
Definition normalize_optional_strict (value : option string) : result (option string) :=
  match value with
  | None => Ok None
  | Some value =>
      let value := trim_ascii_whitespace value in
      fail_if (str_is_empty value) with prompt_invalid ;;
      Ok (Some value)
  end.
Definition with_source (s : PromptSection) (source : string) : PromptSection :=
  {| ps_id := ps_id s; ps_text := ps_text s; ps_stable := ps_stable s;
     ps_source := normalize_optional (Some source); ps_cache_hint := ps_cache_hint s;
     ps_metadata := ps_metadata s |}.

(** The metadata is skipped when empty, the optionals when absent. *)
Definition section_entries (s : PromptSection) : list (string * Value) :=
  [("id", Str (ps_id s)); ("text", Str (ps_text s)); ("stable", Bool (ps_stable s))]
  ++ field_opt "source" Str (ps_source s)
  ++ field_opt "cache_hint" Str (ps_cache_hint s)
  ++ field_map "metadata" (fun v => v) (ps_metadata s).
Definition section_to_value (s : PromptSection) : Value := json_object (section_entries s).

Definition section_fields : list string :=
  ["id"; "text"; "stable"; "source"; "cache_hint"; "metadata"].
Definition section_from_value (v : Value) : option PromptSection :=
  fields ← serde_default_struct section_fields v;
  match fields with
  | [a; b; c; d; e; f] =>
      id ← a ≫= as_str;
      text ← b ≫= as_str;
      stable ← c ≫= as_bool;
      source ← serde_option as_str d;
      hint ← serde_option as_str e;
      metadata ← serde_or_default as_object [] f;
      match (let? section := section_try_new id text stable in
             let? source := normalize_optional_strict source in
             let? hint := normalize_optional_strict hint in
             let section := {| ps_id := ps_id section; ps_text := ps_text section;
                               ps_stable := ps_stable section; ps_source := source;
                               ps_cache_hint := hint; ps_metadata := metadata |} in
             do? section_validate section ;;
             Ok section) with
      | Ok section => Some section
      | Err _ => None
      end
  | _ => None
  end.

(** ** Bundles *)

Section Bundles.
Context `{Digest}.

(** The array of the stable sections, canonicalised without the I-JSON check. *)
Definition stable_hash (sections : list PromptSection) : result string :=
  let stable := List.filter ps_stable sections in
  let? bytes := ok_or (canonicalizer_to_vec (Array (map section_to_value stable))) prompt_invalid in
  Ok (sha256_hex bytes).

Fixpoint validate_sections (ids : list string) (sections : list PromptSection) : result unit :=
  match sections with
  | [] => Ok tt
  | s :: rest =>
      do? section_validate s ;;
      fail_if (contains ids (ps_id s)) with prompt_invalid ;;
      validate_sections (ps_id s :: ids) rest
  end.

Definition bundle_validate (b : PromptBundle) : result unit :=
  fail_if (match pb_sections b with [] => true | _ => false end) with prompt_invalid ;;
  do? validate_sections [] (pb_sections b) ;;
  let? expected := stable_hash (pb_sections b) in
  fail_if (negb (String.eqb (pb_stable_hash b) expected)) with prompt_invalid ;;
  Ok tt.
Definition bundle_new (sections : list PromptSection) : result PromptBundle :=
  fail_if (match sections with [] => true | _ => false end) with prompt_invalid ;;
  do? validate_sections [] sections ;;
  let? hash := stable_hash sections in
  Ok {| pb_sections := sections; pb_stable_hash := hash |}.

Definition from_instruction_text (text : string) : result PromptBundle :=
  let? section := section_try_new "agent_instructions" text true in
  bundle_new [with_source section "agent.instructions"].

Definition session_memory : string := "session_memory".
Definition current_time : string := "current_time".
Definition has_section (id : string) (b : PromptBundle) : bool :=
  existsb (fun s => String.eqb (ps_id s) id) (pb_sections b).

Definition with_session_memory_context (b : PromptBundle) (context : string)
    : result PromptBundle :=
  let context := trim_ascii_whitespace context in
  if str_is_empty context || has_section session_memory b then Ok b
  else
    let index := unwrap_or (position (fun s => String.eqb (ps_id s) current_time) (pb_sections b))
                           (length (pb_sections b)) in
    bundle_new (take index (pb_sections b)
                ++ with_source (section_new session_memory context false) "session.memory"
                :: drop index (pb_sections b)).

(** [flatten]: the texts joined by blank lines. *)
Fixpoint join (sep : string) (l : list string) : string :=
  match l with
  | [] => EmptyString
  | [s] => s
  | s :: rest => s +:+ sep +:+ join sep rest
  end.
Definition newlines : string := String (ascii_of_N 10) (String (ascii_of_N 10) EmptyString).
Definition bundle_flatten (b : PromptBundle) : string := join newlines (map ps_text (pb_sections b)).

Definition bundle_to_value (b : PromptBundle) : Value :=
  json_object [("sections", Array (map section_to_value (pb_sections b)));
               ("stable_hash", Str (pb_stable_hash b))].
Definition bundle_fields : list string := ["sections"; "stable_hash"].
Definition bundle_from_value (v : Value) : option PromptBundle :=
  fields ← serde_strict_struct bundle_fields v;
  match fields with
  | [a; b] =>
      items ← a ≫= as_array;
      sections ← mapM section_from_value items;
      hash ← b ≫= as_str;
      serde_checked bundle_validate {| pb_sections := sections; pb_stable_hash := hash |}
  | _ => None
  end.
End Bundles.

(** ** Lemmas *)

Definition text_trimmed (s : string) : Prop := trim_ascii_whitespace s = s.
Record section_trimmed (s : PromptSection) : Prop := {
  st_id : text_trimmed (ps_id s);
  st_text : text_trimmed (ps_text s);
  st_source : forall x, ps_source s = Some x -> text_trimmed x;
  st_hint : forall x, ps_cache_hint s = Some x -> text_trimmed x
}.

Lemma section_known s : only_fields section_fields (map_of_list (section_entries s)) = true.
Proof.
  apply only_fields_spec. intros k. rewrite map_of_list_keys. unfold section_entries, section_fields.
  rewrite !map_app, !elem_of_app. intros H.
  repeat match type of H with _ \/ _ => destruct H as [H|H] end; [set_solver|..].
  all: first [apply fields_of_opt in H|apply fields_of_map in H]; subst k; set_solver.
Qed.
Lemma section_read s :
  serde_default_struct section_fields (section_to_value s)
  = Some [Some (Str (ps_id s)); Some (Str (ps_text s)); Some (Bool (ps_stable s));
          Str <$> ps_source s; Str <$> ps_cache_hint s; map_slot (fun v => v) (ps_metadata s)].
Proof.
  unfold serde_default_struct, section_to_value, json_object. rewrite section_known. f_equal.
  unfold section_fields, section_entries. cbn [map].
  rewrite !map_get_of_app, !get_field_opt, !get_field_map.
  cbn [String.eqb Ascii.eqb Bool.eqb or_else].
  by destruct (ps_source s), (ps_cache_hint s), (ps_metadata s).
Qed.
Lemma option_str_wire o : serde_option as_str (Str <$> o) = Some o.
Proof. by destruct o. Qed.
Lemma strict_optional_id o :
  (forall x, o = Some x -> text_trimmed x) -> is_some_and o ascii_blank = false ->
  normalize_optional_strict o = Ok o.
Proof.
  destruct o as [x|]; [|done]. cbn. intros Ht Hb. unfold ascii_blank in Hb.
  rewrite (Ht x eq_refl) in *. by rewrite Hb.
Qed.
Lemma section_parts s :
  section_validate s = Ok tt <->
  ascii_blank (ps_id s) = false /\ ascii_blank (ps_text s) = false /\
  is_some_and (ps_source s) ascii_blank = false /\ is_some_and (ps_cache_hint s) ascii_blank = false.
Proof.
  unfold section_validate. cbn [try_for_each]. split.
  - intros Hv. result_inv. done.
  - by intros (-> & -> & -> & ->).
Qed.

Lemma section_wire s :
  section_validate s = Ok tt -> section_trimmed s ->
  section_from_value (section_to_value s) = Some s.
Proof.
  intros Hv [Hi Ht Hs Hh]. pose proof Hv as (V1 & V2 & V3 & V4)%section_parts.
  unfold section_from_value. rewrite section_read. cbn [mbind option_bind as_str as_bool].
  rewrite !option_str_wire. cbn [mbind option_bind]. rewrite object_slot. cbn [mbind option_bind].
  unfold section_try_new, section_new. rewrite Hi, Ht.
  assert (Hn : forall m, section_validate
    {| ps_id := ps_id s; ps_text := ps_text s; ps_stable := ps_stable s; ps_source := None;
       ps_cache_hint := None; ps_metadata := m |} = Ok tt) by (intros m; by apply section_parts).
  rewrite Hn, !strict_optional_id by done. cbn [ps_id ps_text ps_stable].
  destruct s. cbn in *. by rewrite Hv.
Qed.

Section BundleLemmas.
Context `{Digest}.

Lemma sections_valid ids l :
  validate_sections ids l = Ok tt <->
  Forall (fun s => section_validate s = Ok tt) l /\ NoDup (map ps_id l) /\
  (forall id, id ∈ map ps_id l -> id ∉ ids).
Proof.
  revert ids. induction l as [|s l IH]; intros ids; cbn [validate_sections map].
  - split; [intros _; repeat split; [constructor..|set_solver]|done].
  - rewrite Forall_cons, NoDup_cons. split.
    + intros Hv. result_inv. unit_inv. apply IH in Hv as (Hs & Hn & Hd).
      assert (Hx : ps_id s ∉ ids) by (rewrite <- contains_spec; congruence).
      set_solver.
    + intros ((-> & Hs) & (Hn & Hnd) & Hd).
      destruct (contains ids (ps_id s)) eqn:E.
      { apply contains_spec in E. destruct (Hd (ps_id s)); [set_solver|done]. }
      apply IH. set_solver.
Qed.

Lemma bundle_parts b :
  bundle_validate b = Ok tt <->
  pb_sections b <> [] /\ validate_sections [] (pb_sections b) = Ok tt /\
  stable_hash (pb_sections b) = Ok (pb_stable_hash b).
Proof.
  unfold bundle_validate. split.
  - intros Hv. result_inv. bool_inv. subst. unit_inv.
    split; [by destruct (pb_sections b)|]. done.
  - intros (Hn & -> & ->). rewrite String.eqb_refl. by destruct (pb_sections b).
Qed.
Lemma bundle_new_spec l b :
  bundle_new l = Ok b <-> pb_sections b = l /\ bundle_validate b = Ok tt.
Proof.
  rewrite bundle_parts. unfold bundle_new. split.
  - intros Hb. result_inv. unit_inv. cbn. split; [done|]. split; [by destruct l|]. done.
  - intros (<- & Hn & -> & ->). destruct b as [[|]]; [done|]. done.
Qed.

Lemma bundle_wire b :
  bundle_validate b = Ok tt -> Forall section_trimmed (pb_sections b) ->
  bundle_from_value (bundle_to_value b) = Some b.
Proof.
  intros Hv Ht. pose proof Hv as (_ & (Hs & _)%sections_valid & _)%bundle_parts.
  assert (Hm : mapM section_from_value (map section_to_value (pb_sections b)) = Some (pb_sections b)).
  { clear Hv. induction (pb_sections b) as [|s l IH]; [done|].
    apply Forall_cons in Hs as [Hs1 Hs], Ht as [Ht1 Ht]. cbn [map mapM].
    by rewrite section_wire, IH. }
  unfold bundle_from_value, bundle_to_value.
  match goal with |- context [json_object ?l] => change bundle_fields with (map fst l) end.
  strict_struct_literal. cbn [map snd mbind option_bind as_array]. rewrite Hm.
  cbn [mbind option_bind as_str]. destruct b. by apply serde_checked_Ok.
Qed.

Lemma stable_hash_insert l1 l2 s :
  ps_stable s = false -> stable_hash (l1 ++ s :: l2) = stable_hash (l1 ++ l2).
Proof.
  intros Hs. unfold stable_hash. rewrite !List.filter_app. cbn [List.filter]. by rewrite Hs.
Qed.
End BundleLemmas.

Section Memory.
Context `{Digest}.

Definition memory_section (context : string) : PromptSection :=
  with_source (section_new session_memory (trim_ascii_whitespace context) false) "session.memory".
Definition other_sections (b : PromptBundle) : list PromptSection :=
  List.filter (fun s => negb (String.eqb (ps_id s) session_memory)) (pb_sections b).

Lemma has_section_spec id b : has_section id b = true <-> id ∈ map ps_id (pb_sections b).
Proof.
  unfold has_section. rewrite existsb_exists, list_elem_of_fmap. setoid_rewrite String.eqb_eq.
  setoid_rewrite <- list_elem_of_In. naive_solver.
Qed.
Lemma memory_valid context :
  ascii_blank context = false -> section_validate (memory_section context) = Ok tt.
Proof.
  intros Hb. apply section_parts. cbn. unfold ascii_blank in *. unfold trim_ascii_whitespace in *.
  by rewrite !trim_matches_idem.
Qed.

Lemma insert_memory b context i :
  bundle_validate b = Ok tt -> ascii_blank context = false -> has_section session_memory b = false ->
  let b' := {| pb_sections := take i (pb_sections b) ++ memory_section context :: drop i (pb_sections b);
               pb_stable_hash := pb_stable_hash b |} in
  bundle_new (pb_sections b') = Ok b' /\ other_sections b' = other_sections b.
Proof.
  intros (Hn & (Hs & Hd & _)%sections_valid & Hh)%bundle_parts Hb Hm b'.
  assert (Hfresh : session_memory ∉ map ps_id (pb_sections b))
    by (rewrite <- has_section_spec; congruence).
  split.
  - apply bundle_new_spec. split; [done|]. apply bundle_parts. cbn [b' pb_sections pb_stable_hash].
    split; [by destruct (take i (pb_sections b))|]. split.
    + apply sections_valid. rewrite map_app. cbn [map].
      rewrite <- (take_drop i (pb_sections b)) in Hs, Hd, Hfresh.
      rewrite map_app in Hd, Hfresh. apply Forall_app in Hs as [Hs1 Hs2]. split.
      { apply Forall_app. split; [done|]. constructor; [by apply memory_valid|done]. }
      split; [|set_solver]. change (ps_id (memory_section context)) with session_memory.
      rewrite <- Permutation_middle. by constructor.
    + by rewrite stable_hash_insert, take_drop.
  - unfold other_sections, b'. cbn [pb_sections]. rewrite List.filter_app. cbn [List.filter].
    change (negb (String.eqb (ps_id (memory_section context)) session_memory)) with false.
    cbn iota. by rewrite <- List.filter_app, take_drop.
Qed.
End Memory.

(** ** Properties *)

(** A prompt bundle survives its wire form, and the digest in it is the
    digest of its stable sections: a valid bundle with trimmed texts is read
    back unchanged, and whatever the reader accepts has at least one section,
    distinct section ids, and the digest of its stable sections. *)
Theorem prompt_bundle_roundtrip `{Digest} (b b' : PromptBundle) (v : Value) :
  bundle_validate b = Ok tt -> Forall section_trimmed (pb_sections b) ->
  bundle_from_value v = Some b' ->
  bundle_from_value (bundle_to_value b) = Some b /\
  pb_sections b' <> [] /\ NoDup (map ps_id (pb_sections b')) /\
  stable_hash (List.filter ps_stable (pb_sections b')) = Ok (pb_stable_hash b').
Proof.
  intros Hv Ht Hr. split; [by apply bundle_wire|].
  assert (Hv' : bundle_validate b' = Ok tt).
  { unfold bundle_from_value, serde_checked in Hr. option_inv.
    case_match eqn:E; simplify_eq. by apply is_ok_unit. }
  apply bundle_parts in Hv' as (Hn & (_ & Hd & _)%sections_valid & Hh).
  split; [done|]. split; [done|]. rewrite <- Hh. unfold stable_hash.
  by rewrite filter_idem.
Qed.

(** Freezing session memory into a valid bundle always succeeds with a
    valid bundle, keeps every other section in its order and the digest of the
    stable sections, so that provider caches still hit, and happens once: a
    later context changes nothing. *)
Theorem session_memory_frozen `{Digest} (b : PromptBundle) (context : string) :
  bundle_validate b = Ok tt ->
  exists b', with_session_memory_context b context = Ok b' /\ bundle_validate b' = Ok tt /\
    pb_stable_hash b' = pb_stable_hash b /\ other_sections b' = other_sections b /\
    (ascii_blank context = true -> b' = b) /\
    (ascii_blank context = false -> has_section session_memory b' = true /\
       forall later, with_session_memory_context b' later = Ok b').
Proof.
  intros Hv. unfold with_session_memory_context. fold (ascii_blank context).
  destruct (ascii_blank context) eqn:Eb; [by exists b|].
  destruct (has_section session_memory b) eqn:Em; cbn [orb].
  { exists b. repeat split; try done. intros later. by rewrite Em, orb_true_r. }
  destruct (insert_memory b context (unwrap_or (position (fun s => String.eqb (ps_id s) current_time)
    (pb_sections b)) (length (pb_sections b))) Hv Eb Em) as [Hn Ho].
  eexists. split; [exact Hn|]. apply bundle_new_spec in Hn as [_ Hn].
  split; [exact Hn|]. split; [done|]. split; [exact Ho|]. split; [done|]. intros _.
  assert (Hs : forall l1 l2 h, has_section session_memory
      {| pb_sections := l1 ++ memory_section context :: l2; pb_stable_hash := h |} = true).
  { intros l1 l2 h. apply has_section_spec. cbn. rewrite map_app. set_solver. }
  split; [apply Hs|]. intros later. by rewrite Hs, orb_true_r.
Qed.

(** *** Witnesses *)

Definition sample_section (id : string) (stable : bool) : PromptSection :=
  section_new id "Be brief." stable.
Definition sample_bundle `{Digest} : PromptBundle :=
  match bundle_new [sample_section "instructions" true; sample_section current_time false] with
  | Ok b => b
  | Err _ => {| pb_sections := []; pb_stable_hash := EmptyString |}
  end.
Example sample_bundle_valid : @bundle_validate toy_digest (@sample_bundle toy_digest) = Ok tt.
Proof. vm_compute. reflexivity. Qed.
Example sample_bundle_reads :
  @bundle_from_value toy_digest (bundle_to_value (@sample_bundle toy_digest))
  = Some (@sample_bundle toy_digest).
Proof. vm_compute. reflexivity. Qed.
Lemma prompt_bundle_roundtrip_witness :
  @bundle_from_value toy_digest (bundle_to_value (@sample_bundle toy_digest))
    = Some (@sample_bundle toy_digest) /\
  pb_sections (@sample_bundle toy_digest) <> [].
Proof.
  assert (Ht : Forall section_trimmed (pb_sections (@sample_bundle toy_digest))).
  { vm_compute. repeat constructor; cbn; intros; simplify_eq. }
  pose proof (@prompt_bundle_roundtrip toy_digest _ _ _ sample_bundle_valid Ht sample_bundle_reads)
    as (Hr & Hn & _).
  exact (conj Hr Hn).
Defined.
Lemma session_memory_frozen_witness :
  (exists b', @with_session_memory_context toy_digest (@sample_bundle toy_digest) "notes" = Ok b')
  /\ @bundle_validate toy_digest (@sample_bundle toy_digest) = Ok tt.
Proof.
  split; [|exact sample_bundle_valid].
  destruct (@session_memory_frozen toy_digest _ "notes" sample_bundle_valid) as (b' & Hb & _).
  exact (ex_intro _ b' Hb).
Defined.
