(* ===== verification/Text.v ===== *)
(** * Text

    The operations of [str] and [f64] the memory components use, on the UTF-8
    bytes of a string: characters, white space, searching and splitting,
    multiplication and rounding.  No repository code is modelled here. *)

From Stdlib Require Import Ascii String NArith ZArith Lia SpecFloat DecimalString DecimalN.
From stdpp Require Import base strings list.
From S2P Require Import Prelude Json Canonical CheckpointTypes ToolResult Journal TokenUsage.
From S2P Require Import Budget BudgetWire Records ResultCodec ToolPolicy Settings Prompt.

(** ** White space *)

Definition bytes_str (l : list N) : string := string_of_list_ascii (map ascii_of_N l).
(** [str::trim] on the bytes.  No white-space character starts with a
    continuation byte, so a blank rest starts a character. *)
Fixpoint bytes_trim_start (fuel : nat) (s : list N) : list N :=
  match fuel with
  | O => s
  | S f => match ws_prefix s with O => s | n => bytes_trim_start f (drop n s) end
  end.
Fixpoint bytes_trim_end (s : list N) : list N :=
  match s with
  | [] => []
  | b :: r => if bytes_blank (length s) s then [] else b :: bytes_trim_end r
  end.
Definition str_trim_end (s : string) : string := bytes_str (bytes_trim_end (str_bytes s)).
Definition str_trim (s : string) : string :=
  bytes_str (bytes_trim_end (bytes_trim_start (String.length s) (str_bytes s))).
(** [str::split_whitespace]: the words, [word] the one being read. *)
Fixpoint words (fuel : nat) (word : list N) (s : list N) : list (list N) :=
  let done_word := match word with [] => [] | _ => [rev word] end in
  match fuel, s with
  | S f, b :: r =>
      match ws_prefix s with
      | O => words f (b :: word) r
      | n => done_word ++ words f [] (drop n s)
      end
  | _, _ => done_word
  end.
Definition split_whitespace (s : string) : list string :=
  map bytes_str (words (S (String.length s)) [] (str_bytes s)).

(** ** Characters *)

Definition is_continuation (b : N) : bool := (128 <=? b)%N && (b <? 192)%N.
(** [str::chars], each character as its bytes. *)
Fixpoint bytes_chars (s : list N) : list (list N) :=
  match s with
  | [] => []
  | b :: r =>
      match bytes_chars r with
      | ((c :: _) as bytes) :: more =>
          if is_continuation c then (b :: bytes) :: more else [b] :: bytes :: more
      | more => [b] :: more
      end
  end.
Definition take_chars (n : N) (s : string) : string :=
  bytes_str (concat (take (N.to_nat n) (bytes_chars (str_bytes s)))).
Definition take_tail_chars (n : N) (s : string) : string :=
  let chars := bytes_chars (str_bytes s) in
  bytes_str (concat (drop (length chars - N.to_nat n) chars)).
(** [ch as u32]. *)
Definition code_point (char : list N) : N :=
  match char with
  | [a] => a
  | [a; b] => ((a - 192) * 64 + (b - 128))%N
  | [a; b; c] => ((a - 224) * 4096 + (b - 128) * 64 + (c - 128))%N
  | [a; b; c; d] => ((a - 240) * 262144 + (b - 128) * 4096 + (c - 128) * 64 + (d - 128))%N
  | _ => 0%N
  end.

(** ** Searching *)

(** [str::find], the text before and behind the match. *)
Fixpoint split_at (pattern s : string) : option (string * string) :=
  if String.prefix pattern s
  then Some (EmptyString, String.substring (String.length pattern) (String.length s) s)
  else match s with
       | EmptyString => None
       | String c r => (fun x => (String c x.1, x.2)) <$> split_at pattern r
       end.
Definition split_once (pattern s : string) : option (string * string) := split_at pattern s.
Definition str_contains (pattern s : string) : bool := is_some (split_at pattern s).
Definition starts_with (pattern s : string) : bool := String.prefix pattern s.
(** [str::rsplit_once] at a line break. *)
Definition newline : string := bytes_str [10%N].
Fixpoint rsplit_line (s : string) : option (string * string) :=
  match s with
  | EmptyString => None
  | String c r =>
      match rsplit_line r with
      | Some (a, b) => Some (String c a, b)
      | None => if (N_of_ascii c =? 10)%N then Some (EmptyString, r) else None
      end
  end.

(** [str::replace], of several patterns at once: at every place the first
    pattern that is there is replaced by its text. *)
Fixpoint fill (subs : list (string * string)) (skip : nat) (s : string) : string :=
  match s with
  | EmptyString => EmptyString
  | String c r =>
      match skip with
      | S k => fill subs k r
      | O =>
          match List.find (fun sub => String.prefix sub.1 s) subs with
          | Some sub => sub.2 +:+ fill subs (String.length sub.1 - 1) r
          | None => String c (fill subs 0 r)
          end
      end
  end.
Definition str_replace (subs : list (string * string)) (s : string) : string := fill subs 0 s.
(** [to_string] of an integer. *)
Definition N_decimal (n : N) : string := DecimalString.NilZero.string_of_uint (N.to_uint n).
(** A text with [^] for the double quote. *)
Definition quoted (s : string) : string := str_replace [("^", bytes_str [34%N])] s.

(** ** Floats *)

Definition f64_mul (a b : f64) : f64 := f64_bits (SFmul 53 1024 (f64_value a) (f64_value b)).
Definition f64_sub (a b : f64) : f64 := f64_bits (SFsub 53 1024 (f64_value a) (f64_value b)).
(** [x.floor() as u64]: truncation, saturating. *)
Definition f64_floor_u64 (x : f64) : N :=
  match f64_value x with
  | S754_finite false m e =>
      N.min U64_MAX (Z.to_N (if (0 <=? e)%Z then Z.shiftl (Zpos m) (Z.min e 64) else Z.shiftr (Zpos m) (- e)))
  | S754_infinity false => U64_MAX
  | _ => 0%N
  end.
Definition f64_of_N (n : N) : f64 := f64_of_Z (Z.of_N n).

Example text_samples :
  str_trim " a b " = "a b" /\ split_whitespace " a  bc d" = ["a"; "bc"; "d"] /\
  take_chars 2 "héllo" = "hé" /\ take_tail_chars 2 "hello" = "lo" /\
  map code_point (bytes_chars (str_bytes "中")) = [20013%N] /\
  split_once "--" "a--b--c" = Some ("a", "b--c") /\
  str_replace [("{a}", "{b}"); ("{b}", "2")] "x{a}{b}{c}" = "x{b}2{c}" /\ N_decimal 90 = "90" /\
  rsplit_line ("a" +:+ newline +:+ "b" +:+ newline +:+ "c") = Some ("a" +:+ newline +:+ "b", "c") /\
  f64_floor_u64 (f64_mul (f64_of_N 250000) 4604930618986332160%Z) = 187500%N.
Proof. vm_compute. split_and!; reflexivity. Qed.
