(* ===== verification/ToolPlanner.v ===== *)
(** * Which tools a cycle offers

    [runtime/tool_planner.rs]: a run writes its tool policy into the metadata
    of the task, where the planner, the sub-agents and the next runs of the
    task find it, and the planner names the tools of a cycle from the task.
    The denials of metadata only ever grow.  The schemas of the tools and the
    hint about the shell are the registry's and the environment's. *)

From Stdlib Require Import Ascii String NArith ZArith Lia.
From stdpp Require Import base strings list sets.
From S2P Require Import Prelude Json Canonical CheckpointTypes ToolResult Journal TokenUsage.
From S2P Require Import Budget BudgetWire Records ResultCodec ToolPolicy Settings Prompt Text.

Definition WORKSPACE_TOOLS : list string :=
  ["find_files"; "file_info"; "read_file"; "write_file"; "edit_file"; "search_files"; "todo_write"].
Definition ALLOWED_TOOLS_METADATA_KEY : string := "_vv_agent_allowed_tools".
Definition DISALLOWED_TOOLS_METADATA_KEY : string := "_vv_agent_disallowed_tools".
Definition TOOL_POLICY_APPROVAL_METADATA_KEY : string := "_vv_agent_tool_policy_approval".
Definition TOOL_POLICY_CAN_USE_TOOL_METADATA_KEY : string := "_vv_agent_tool_policy_can_use_tool".
Definition DENIED_SIDE_EFFECTS_METADATA_KEY : string := "_vv_agent_denied_side_effects".
Definition DENIED_CAPABILITY_TAGS_METADATA_KEY : string := "_vv_agent_denied_capability_tags".
Definition DENY_TERMINAL_TOOLS_METADATA_KEY : string := "_vv_agent_deny_terminal_tools".
Definition DENIED_COST_DIMENSIONS_METADATA_KEY : string := "_vv_agent_denied_cost_dimensions".

(** What of the task the planner reads. *)
Record PlannedTask := {
  pt_allow_interruption : bool;
  pt_use_workspace : bool;
  pt_agent_type : option string;
  pt_sub_agents_enabled : bool;
  pt_native_multimodal : bool;
  pt_extra_tool_names : list string;
  pt_exclude_tools : list string;
  pt_metadata : object
}.
Definition set_task_metadata (t : PlannedTask) (metadata : object) : PlannedTask :=
  {| pt_allow_interruption := pt_allow_interruption t; pt_use_workspace := pt_use_workspace t;
     pt_agent_type := pt_agent_type t; pt_sub_agents_enabled := pt_sub_agents_enabled t;
     pt_native_multimodal := pt_native_multimodal t; pt_extra_tool_names := pt_extra_tool_names t;
     pt_exclude_tools := pt_exclude_tools t; pt_metadata := metadata |}.

(** ** The policy in the metadata *)

Definition project_list (metadata : object) (key : string) (values : list Value) : object :=
  match values with [] => map_remove key metadata | _ => map_insert key (Array values) metadata end.
Definition project_flag (metadata : object) (key : string) (flag : bool) : object :=
  if flag then map_insert key (Bool true) metadata else map_remove key metadata.
Definition write_projected_metadata_denials (metadata : object) (p : ToolPolicy) : object :=
  let m := project_list metadata DENIED_SIDE_EFFECTS_METADATA_KEY
             (map (fun e => Str (side_effect_str e)) (tp_denied_side_effects p)) in
  let m := project_list m DENIED_CAPABILITY_TAGS_METADATA_KEY (map Str (tp_denied_capability_tags p)) in
  let m := project_flag m DENY_TERMINAL_TOOLS_METADATA_KEY (tp_deny_terminal_tools p) in
  project_list m DENIED_COST_DIMENSIONS_METADATA_KEY (map Str (tp_denied_cost_dimensions p)).
(** [serde_json::from_value] of a key that may be missing. *)
Definition projected {A} (read : Value -> option (list A)) (metadata : object) (key : string) : result (list A) :=
  match map_get key metadata with
  | None => Ok []
  | Some v => match read v with Some l => Ok l | None => Err ("invalid projected " +:+ key) end
  end.
Definition projected_metadata_denials (metadata : object) : result ToolPolicy :=
  let? effects := projected side_effects_from_value metadata DENIED_SIDE_EFFECTS_METADATA_KEY in
  let? tags := projected strings_from_value metadata DENIED_CAPABILITY_TAGS_METADATA_KEY in
  let? terminal := match map_get DENY_TERMINAL_TOOLS_METADATA_KEY metadata with
                   | Some (Bool b) => Ok b
                   | Some _ => Err "invalid projected deny_terminal_tools"
                   | None => Ok false
                   end in
  let? costs := projected strings_from_value metadata DENIED_COST_DIMENSIONS_METADATA_KEY in
  policy_normalized (with_denials policy_default effects tags terminal costs).
(** [None] is the panic of the union of two policies with too many labels. *)
Definition merge_projected_metadata_denials (metadata : object) (policy : ToolPolicy)
    : option (result ToolPolicy * object) :=
  match projected_metadata_denials metadata with
  | Err e => Some (Err e, metadata)
  | Ok effective =>
      match policy_normalized policy with
      | Err e => Some (Err e, metadata)
      | Ok policy =>
          match extend_metadata_denials effective policy with
          | Err _ => None
          | Ok effective => Some (Ok effective, write_projected_metadata_denials metadata effective)
          end
      end
  end.
Definition approval_text (a : ApprovalPolicy) : option string :=
  match a with
  | DefaultApproval => None
  | NeverApproval => Some "never"
  | AlwaysApproval => Some "always"
  | OnRequestApproval => Some "on_request"
  end.
(** The metadata before the denials are merged. *)
Definition project_names (metadata : object) (policy : ToolPolicy) : object :=
  let m := match tp_allowed_tools policy with
           | Some tools => map_insert ALLOWED_TOOLS_METADATA_KEY (strings_to_value tools) metadata
           | None => map_remove ALLOWED_TOOLS_METADATA_KEY metadata
           end in
  let m := project_list m DISALLOWED_TOOLS_METADATA_KEY (map Str (tp_disallowed_tools policy)) in
  let m := match approval_text (tp_approval policy) with
           | Some text => map_insert TOOL_POLICY_APPROVAL_METADATA_KEY (Str text) m
           | None => map_remove TOOL_POLICY_APPROVAL_METADATA_KEY m
           end in
  project_flag m TOOL_POLICY_CAN_USE_TOOL_METADATA_KEY (is_some (tp_can_use_tool policy)).
Definition project_tool_policy (metadata : object) (policy : ToolPolicy) : option object :=
  x ← merge_projected_metadata_denials (project_names metadata policy) policy; Some x.2.

(** ** The names *)

(** The number is not [NaN]: JSON has none. *)
Definition number_is_zero (n : Number) : bool :=
  match n with
  | PosInt n => (n =? 0)%N
  | NegInt z => (z =? 0)%Z
  | Float bits => negb (f64_lt bits f64_zero) && negb (f64_lt f64_zero bits)
  end.
Definition is_json_truthy (v : Value) : bool :=
  match v with
  | Null => false
  | Bool b => b
  | Num n => negb (number_is_zero n)
  | Str s => negb (str_is_empty s)
  | Array l => match l with [] => false | _ => true end
  | Object m => match m with [] => false | _ => true end
  end.
Definition metadata_tool_names (t : PlannedTask) (key : string) : option (list string) :=
  match map_get key (pt_metadata t) with
  | Some (Array names) => Some (omap as_str names)
  | _ => None
  end.
(** The tools the settings of the task ask for. *)
Definition offered_tool_names (t : PlannedTask) : list string :=
  (if pt_allow_interruption t then ["ask_user"] else [])
  ++ (if pt_use_workspace t then WORKSPACE_TOOLS else [])
  ++ (if pt_agent_type t =?? Some "computer"
      then ["bash"; "check_background_command"; "stop_background_command"] else [])
  ++ (if pt_sub_agents_enabled t then ["create_sub_task"; "sub_task_status"] else [])
  ++ (if is_some_and (map_get "available_skills" (pt_metadata t)) is_json_truthy then ["activate_skill"] else [])
  ++ (if pt_native_multimodal t then ["read_image"] else [])
  ++ pt_extra_tool_names t.
Definition plan_tool_names (t : PlannedTask) : list string :=
  let names := List.filter (fun name => negb (contains (pt_exclude_tools t) name)) (offered_tool_names t) in
  let names := match metadata_tool_names t DISALLOWED_TOOLS_METADATA_KEY with
               | Some disallowed => List.filter (fun name => negb (contains disallowed name)) names
               | None => names
               end in
  let names := match metadata_tool_names t ALLOWED_TOOLS_METADATA_KEY with
               | Some allowed => List.filter (fun name => contains allowed name) names
               | None => names
               end in
  retain_first [] names.

(** ** The projection *)

Definition projected_list (l : list Value) : option Value :=
  match l with [] => None | _ => Some (Array l) end.
Lemma project_list_spec m key values : map_wf m ->
  map_wf (project_list m key values) /\
  forall j, map_get j (project_list m key values)
            = if String.eqb j key then projected_list values else map_get j m.
Proof.
  intros Hwf. unfold project_list. destruct values.
  - split; [by apply map_remove_wf|]. intros j. by apply map_get_remove.
  - split; [by apply map_insert_wf|]. intros j. apply map_get_insert.
Qed.
Lemma project_flag_spec m key flag : map_wf m ->
  map_wf (project_flag m key flag) /\
  forall j, map_get j (project_flag m key flag)
            = if String.eqb j key then (if flag then Some (Bool true) else None) else map_get j m.
Proof.
  intros Hwf. unfold project_flag. destruct flag.
  - split; [by apply map_insert_wf|]. intros j. apply map_get_insert.
  - split; [by apply map_remove_wf|]. intros j. by apply map_get_remove.
Qed.

Lemma write_denials_get m p : map_wf m ->
  map_wf (write_projected_metadata_denials m p) /\
  forall j, map_get j (write_projected_metadata_denials m p)
    = if String.eqb j DENIED_COST_DIMENSIONS_METADATA_KEY then
        projected_list (map Str (tp_denied_cost_dimensions p))
      else if String.eqb j DENY_TERMINAL_TOOLS_METADATA_KEY then
        (if tp_deny_terminal_tools p then Some (Bool true) else None)
      else if String.eqb j DENIED_CAPABILITY_TAGS_METADATA_KEY then
        projected_list (map Str (tp_denied_capability_tags p))
      else if String.eqb j DENIED_SIDE_EFFECTS_METADATA_KEY then
        projected_list (map (fun e => Str (side_effect_str e)) (tp_denied_side_effects p))
      else map_get j m.
Proof.
  intros Hwf. unfold write_projected_metadata_denials.
  destruct (project_list_spec m DENIED_SIDE_EFFECTS_METADATA_KEY
    (map (fun e => Str (side_effect_str e)) (tp_denied_side_effects p)) Hwf) as [Hw1 Hg1].
  destruct (project_list_spec _ DENIED_CAPABILITY_TAGS_METADATA_KEY (map Str (tp_denied_capability_tags p)) Hw1) as [Hw2 Hg2].
  destruct (project_flag_spec _ DENY_TERMINAL_TOOLS_METADATA_KEY (tp_deny_terminal_tools p) Hw2) as [Hw3 Hg3].
  destruct (project_list_spec _ DENIED_COST_DIMENSIONS_METADATA_KEY (map Str (tp_denied_cost_dimensions p)) Hw3) as [Hw4 Hg4].
  split; [done|]. intros j. by rewrite Hg4, Hg3, Hg2, Hg1.
Qed.
Lemma projected_read {A} (read : Value -> option (list A)) (write : A -> Value) m key l :
  map_get key m = projected_list (map write l) -> read (Array (map write l)) = Some l ->
  projected read m key = Ok l.
Proof. unfold projected. intros -> Hr. destruct l as [|x l]; [done|]. cbn [map projected_list] in *. by rewrite Hr. Qed.
Lemma effects_wire l : side_effects_from_value (Array (map (fun e => Str (side_effect_str e)) l)) = Some l.
Proof.
  unfold side_effects_from_value. cbn [mbind option_bind as_array].
  induction l as [|e l IH]; [done|]. cbn [map mapM]. assert (side_effect_from_value (Str (side_effect_str e)) = Some e) as -> by by destruct e.
  cbn [mbind option_bind]. by rewrite IH.
Qed.
(** What was written is what is read. *)
Lemma denials_readback m p : map_wf m -> denials_normal p ->
  projected_metadata_denials (write_projected_metadata_denials m p)
  = Ok (with_denials policy_default (tp_denied_side_effects p) (tp_denied_capability_tags p)
          (tp_deny_terminal_tools p) (tp_denied_cost_dimensions p)).
Proof.
  intros Hwf Hn. destruct (write_denials_get m p Hwf) as [_ Hget]. unfold projected_metadata_denials.
  rewrite (projected_read _ (fun e => Str (side_effect_str e)) _ _ (tp_denied_side_effects p)); [|by rewrite Hget|apply effects_wire].
  rewrite (projected_read _ Str _ _ (tp_denied_capability_tags p)); [|by rewrite Hget|apply strings_wire].
  rewrite (projected_read _ Str _ _ (tp_denied_cost_dimensions p)); [|by rewrite Hget|apply strings_wire].
  rewrite Hget. cbn [String.eqb]. assert ((match (if tp_deny_terminal_tools p then Some (Bool true) else None) with
    | Some (Bool b) => Ok b | Some _ => Err "invalid projected deny_terminal_tools" | None => Ok false end)
    = Ok (tp_deny_terminal_tools p)) as Ht by by destruct (tp_deny_terminal_tools p).
  change (String.eqb DENY_TERMINAL_TOOLS_METADATA_KEY DENIED_COST_DIMENSIONS_METADATA_KEY) with false.
  change (String.eqb DENY_TERMINAL_TOOLS_METADATA_KEY DENY_TERMINAL_TOOLS_METADATA_KEY) with true.
  cbn iota. rewrite Ht. apply normalized_id. destruct Hn. by split.
Qed.
Lemma project_option_spec m key (o : option Value) : map_wf m ->
  let m' := match o with Some v => map_insert key v m | None => map_remove key m end in
  map_wf m' /\ forall j, map_get j m' = if String.eqb j key then o else map_get j m.
Proof.
  intros Hwf. destruct o; cbn zeta.
  - split; [by apply map_insert_wf|]. intros j. apply map_get_insert.
  - split; [by apply map_remove_wf|]. intros j. by apply map_get_remove.
Qed.
Lemma project_names_get m p : map_wf m ->
  map_wf (project_names m p) /\
  forall j, map_get j (project_names m p)
    = if String.eqb j TOOL_POLICY_CAN_USE_TOOL_METADATA_KEY then
        (if is_some (tp_can_use_tool p) then Some (Bool true) else None)
      else if String.eqb j TOOL_POLICY_APPROVAL_METADATA_KEY then Str <$> approval_text (tp_approval p)
      else if String.eqb j DISALLOWED_TOOLS_METADATA_KEY then projected_list (map Str (tp_disallowed_tools p))
      else if String.eqb j ALLOWED_TOOLS_METADATA_KEY then strings_to_value <$> tp_allowed_tools p
      else map_get j m.
Proof.
  intros Hwf. unfold project_names.
  destruct (project_option_spec m ALLOWED_TOOLS_METADATA_KEY (strings_to_value <$> tp_allowed_tools p) Hwf) as [Hw1 Hg1].
  assert (Ho1 : (match strings_to_value <$> tp_allowed_tools p with
    | Some v => map_insert ALLOWED_TOOLS_METADATA_KEY v m | None => map_remove ALLOWED_TOOLS_METADATA_KEY m end)
    = match tp_allowed_tools p with
      | Some tools => map_insert ALLOWED_TOOLS_METADATA_KEY (strings_to_value tools) m
      | None => map_remove ALLOWED_TOOLS_METADATA_KEY m end) by by destruct (tp_allowed_tools p).
  cbv zeta in Hw1, Hg1. rewrite Ho1 in Hw1, Hg1.
  destruct (project_list_spec _ DISALLOWED_TOOLS_METADATA_KEY (map Str (tp_disallowed_tools p)) Hw1) as [Hw2 Hg2].
  set (m2 := project_list _ _ _) in *.
  destruct (project_option_spec m2 TOOL_POLICY_APPROVAL_METADATA_KEY (Str <$> approval_text (tp_approval p)) Hw2) as [Hw3 Hg3].
  assert (Ho3 : (match Str <$> approval_text (tp_approval p) with
    | Some v => map_insert TOOL_POLICY_APPROVAL_METADATA_KEY v m2
    | None => map_remove TOOL_POLICY_APPROVAL_METADATA_KEY m2 end)
    = match approval_text (tp_approval p) with
      | Some text => map_insert TOOL_POLICY_APPROVAL_METADATA_KEY (Str text) m2
      | None => map_remove TOOL_POLICY_APPROVAL_METADATA_KEY m2 end) by by destruct (tp_approval p).
  cbv zeta in Hw3, Hg3. rewrite Ho3 in Hw3, Hg3.
  destruct (project_flag_spec _ TOOL_POLICY_CAN_USE_TOOL_METADATA_KEY (is_some (tp_can_use_tool p)) Hw3) as [Hw4 Hg4].
  split; [done|]. intros j. by rewrite Hg4, Hg3, Hg2, Hg1.
Qed.
Definition projected_denial_keys : list string :=
  [DENIED_SIDE_EFFECTS_METADATA_KEY; DENIED_CAPABILITY_TAGS_METADATA_KEY; DENY_TERMINAL_TOOLS_METADATA_KEY;
   DENIED_COST_DIMENSIONS_METADATA_KEY].
Lemma denials_ext m m' :
  (forall j, j ∈ projected_denial_keys -> map_get j m = map_get j m') -> projected_metadata_denials m = projected_metadata_denials m'.
Proof.
  intros He. unfold projected_metadata_denials, projected.
  rewrite (He DENIED_SIDE_EFFECTS_METADATA_KEY), (He DENIED_CAPABILITY_TAGS_METADATA_KEY),
    (He DENY_TERMINAL_TOOLS_METADATA_KEY), (He DENIED_COST_DIMENSIONS_METADATA_KEY); [done|..];
    unfold projected_denial_keys; set_solver.
Qed.
Lemma names_keep_denials m p : map_wf m ->
  projected_metadata_denials (project_names m p) = projected_metadata_denials m.
Proof.
  intros Hwf. apply denials_ext. intros j Hj. rewrite (proj2 (project_names_get m p Hwf)).
  repeat (apply elem_of_cons in Hj as [->|Hj]; [reflexivity|]). by apply elem_of_nil in Hj.
Qed.
(** The keys the denials do not touch. *)
Lemma project_get m p m' j : map_wf m -> project_tool_policy m p = Some m' -> j ∉ projected_denial_keys ->
  map_get j m' = map_get j (project_names m p).
Proof.
  unfold project_tool_policy.
  intros Hwf Hp Hj. apply bind_Some in Hp as ([r m1] & Hm & [= <-]). cbn [snd].
  unfold merge_projected_metadata_denials in Hm.
  destruct (projected_metadata_denials _) as [effective|]; [|by injection Hm as _ <-].
  destruct (policy_normalized p) as [p'|]; [|by injection Hm as _ <-].
  destruct (extend_metadata_denials effective p') as [e'|]; [|done]. injection Hm as _ <-.
  rewrite (proj2 (write_denials_get _ e' (proj1 (project_names_get m p Hwf)))).
  repeat match goal with
  | |- context [String.eqb j ?k] =>
      destruct (String.eqb_spec j k) as [->|]; [destruct Hj; by apply (bool_decide_unpack _)|]
  end. done.
Qed.
Lemma strings_omap l : omap as_str (map Str l) = l.
Proof. induction l as [|x l IH]; [done|]. cbn in *. by rewrite IH. Qed.
Lemma projected_allowed m p m' t : map_wf m -> project_tool_policy m p = Some m' ->
  metadata_tool_names (set_task_metadata t m') ALLOWED_TOOLS_METADATA_KEY = tp_allowed_tools p.
Proof.
  intros Hwf Hp. unfold metadata_tool_names. cbn [pt_metadata set_task_metadata].
  rewrite (project_get m p m'), (proj2 (project_names_get m p Hwf)); [|done|done|by apply (bool_decide_unpack _)].
  change (if String.eqb ALLOWED_TOOLS_METADATA_KEY _ then _ else _) with (strings_to_value <$> tp_allowed_tools p).
  destruct (tp_allowed_tools p) as [l|]; [|done]. cbn. by rewrite strings_omap.
Qed.
Lemma projected_disallowed m p m' t name : map_wf m -> project_tool_policy m p = Some m' ->
  match metadata_tool_names (set_task_metadata t m') DISALLOWED_TOOLS_METADATA_KEY with
  | Some l => name ∈ l
  | None => False
  end <-> name ∈ tp_disallowed_tools p.
Proof.
  intros Hwf Hp. unfold metadata_tool_names. cbn [pt_metadata set_task_metadata].
  rewrite (project_get m p m'), (proj2 (project_names_get m p Hwf)); [|done|done|by apply (bool_decide_unpack _)].
  change (if String.eqb DISALLOWED_TOOLS_METADATA_KEY _ then _ else _) with (projected_list (map Str (tp_disallowed_tools p))).
  destruct (tp_disallowed_tools p) as [|x l]; [by cbn; split; [|intros ?%elem_of_nil]|].
  cbn [projected_list map]. change (Str x :: map Str l) with (map Str (x :: l)). by rewrite strings_omap.
Qed.
Lemma plan_elem t name :
  name ∈ plan_tool_names t <->
  name ∈ offered_tool_names t /\ (name ∉ pt_exclude_tools t) /\
  ~ (match metadata_tool_names t DISALLOWED_TOOLS_METADATA_KEY with Some l => name ∈ l | None => False end) /\
  match metadata_tool_names t ALLOWED_TOOLS_METADATA_KEY with Some l => name ∈ l | None => True end.
Proof.
  assert (Hf : forall (f : string -> bool) l, name ∈ List.filter f l <-> name ∈ l /\ f name = true)
    by (intros f l; rewrite !list_elem_of_In; apply List.filter_In).
  assert (Hn : forall l, negb (contains l name) = true <-> name ∉ l)
    by (intros l; by rewrite negb_true_iff, <- not_true_iff_false, contains_spec).
  unfold plan_tool_names. rewrite retain_first_elem.
  destruct (metadata_tool_names t ALLOWED_TOOLS_METADATA_KEY) as [allowed|];
    destruct (metadata_tool_names t DISALLOWED_TOOLS_METADATA_KEY) as [disallowed|];
    rewrite ?Hf, ?Hn, ?contains_spec; pose proof (not_elem_of_nil name); tauto.
Qed.
Lemma retain_first_NoDup l : forall seen, NoDup (retain_first seen l).
Proof.
  induction l as [|x l IH]; intros seen; cbn [retain_first]; [constructor|].
  destruct (contains seen x); [apply IH|]. constructor; [|apply IH]. rewrite retain_first_elem. set_solver.
Qed.

(** (C29) The tools a cycle offers are those its policy permits, and denials
    only grow.  After a run projected its policy into the task, the planner
    names every tool the task asks for that is neither excluded nor refused
    by the policy's lists, each once, and no other; the denials read back
    from the task refuse a tool exactly when the earlier denials of the task
    or the policy refuse it; and denials that can not be read stay as they
    are, so that whoever reads them fails as well. *)
Theorem planned_tools_permitted t policy m :
  project_tool_policy (pt_metadata t) policy = Some m -> map_wf (pt_metadata t) ->
  let t' := set_task_metadata t m in
  NoDup (plan_tool_names t') /\
  (forall name, name ∈ plan_tool_names t' <->
     name ∈ offered_tool_names t /\ (name ∉ pt_exclude_tools t) /\ tool_allowed_by_policy policy name = true) /\
  match projected_metadata_denials (pt_metadata t), policy_normalized policy with
  | Ok earlier, Ok policy' =>
      exists effective, projected_metadata_denials m = Ok effective /\
        forall metadata, metadata_normal metadata ->
          denied effective metadata = denied earlier metadata || denied policy' metadata
  | earlier, _ => projected_metadata_denials m = earlier
  end.
Proof.
  intros Hp Hwf t'. split; [apply retain_first_NoDup|]. split.
  - intros name. rewrite plan_elem. unfold t'.
    rewrite (projected_disallowed _ _ _ t name Hwf Hp), (projected_allowed _ _ _ t Hwf Hp), allowed_spec.
    assert (Hskills : map_get "available_skills" m = map_get "available_skills" (pt_metadata t)).
    { rewrite (project_get _ _ _ _ Hwf Hp), (proj2 (project_names_get _ policy Hwf)); [done|by apply (bool_decide_unpack _)]. }
    assert (offered_tool_names (set_task_metadata t m) = offered_tool_names t) as ->.
    { unfold offered_tool_names. cbn [pt_metadata set_task_metadata pt_allow_interruption pt_use_workspace pt_agent_type
        pt_sub_agents_enabled pt_native_multimodal pt_extra_tool_names]. by rewrite Hskills. }
    cbn [pt_exclude_tools set_task_metadata]. destruct (tp_allowed_tools policy) as [l|]; naive_solver.
  - unfold project_tool_policy in Hp.
    apply bind_Some in Hp as ([r m1] & Hm & [= <-]). cbn [snd]. unfold merge_projected_metadata_denials in Hm.
    rewrite (names_keep_denials _ policy Hwf) in Hm.
    destruct (projected_metadata_denials (pt_metadata t)) as [earlier|e] eqn:He.
    2: { injection Hm as _ <-. by rewrite names_keep_denials. }
    destruct (policy_normalized policy) as [policy'|] eqn:Hn.
    2: { injection Hm as _ <-. by rewrite names_keep_denials. }
    destruct (extend_metadata_denials earlier policy') as [effective|] eqn:Hx; [|done]. injection Hm as _ <-.
    apply normalized_spec in Hn as (Hn & _).
    destruct (extend_spec _ _ _ Hx) as (Hne & _ & Hin & Hout).
    assert (Hearlier : denials_normal earlier).
    { unfold projected_metadata_denials in He. result_inv;
        match goal with Hq : policy_normalized _ = Ok earlier |- _ => by apply normalized_spec in Hq as [? _] end. }
    eexists. split; [apply denials_readback; [apply (project_names_get _ policy Hwf)|done]|].
    intros metadata Hmd. apply eq_true_iff_eq. rewrite orb_true_iff, !denied_spec. split.
    + intros Hd. by apply Hout.
    + intros Hd. by apply Hin.
Qed.

(** ** Example *)

Definition planned_task : PlannedTask :=
  {| pt_allow_interruption := true; pt_use_workspace := true; pt_agent_type := None; pt_sub_agents_enabled := false;
     pt_native_multimodal := false; pt_extra_tool_names := ["shell"; "read_file"]; pt_exclude_tools := ["todo_write"];
     pt_metadata := [(DENIED_CAPABILITY_TAGS_METADATA_KEY, strings_to_value ["net"])] |}.
Definition planning_policy : ToolPolicy :=
  with_denials (disallow (allow_only policy_default ["ask_user"; "read_file"; "write_file"; "todo_write"]) "write_file")
    [ExecuteEffect] ["fs.write"] false [].
Definition planned_metadata : object := unwrap_or (project_tool_policy (pt_metadata planned_task) planning_policy) [].
Example planning_runs :
  plan_tool_names (set_task_metadata planned_task planned_metadata) = ["ask_user"; "read_file"] /\
  (match projected_metadata_denials planned_metadata with Ok p => tp_denied_capability_tags p | Err _ => [] end)
  = ["fs.write"; "net"].
Proof. vm_compute. split; reflexivity. Qed.
Lemma planned_tools_permitted_witness : NoDup (plan_tool_names (set_task_metadata planned_task planned_metadata)).
Proof.
  assert (Hp : project_tool_policy (pt_metadata planned_task) planning_policy = Some planned_metadata)
    by (vm_compute; reflexivity).
  assert (Hwf : map_wf (pt_metadata planned_task)) by (apply keys_sorted_wf; vm_compute; reflexivity).
  exact (proj1 (planned_tools_permitted planned_task planning_policy planned_metadata Hp Hwf)).
Defined.
