(* ===== verification/Workspace.v ===== *)
(** * The workspace

    [workspace/mod.rs], [workspace/memory.rs] and the text artifacts of
    [workspace/artifacts.rs]: paths, globs, the in-memory backend, and the
    write-once files in which complete tool results are kept.  A client of a
    backend is proved against the class [WorkspaceBackend] with its laws; the
    in-memory backend is an instance.  An error is its [ErrorKind].  Everything
    stored was written as text, so it is valid UTF-8. *)

From Stdlib Require Import Ascii String NArith ZArith Lia ZifyBool.
From stdpp Require Import base strings list sets relations.
From S2P Require Import Prelude Json Canonical CheckpointTypes ToolResult Journal TokenUsage.
From S2P Require Import Budget BudgetWire Records ResultCodec ToolPolicy Settings Prompt Text.

(** ** Paths *)

Definition already_exists : string := "already_exists".
Definition not_a_directory : string := "not_a_directory".
Definition invalid_input : string := "invalid_input".
Definition invalid_data : string := "invalid_data".
Definition permission_denied : string := "permission_denied".
Definition not_found : string := "not_found".
Definition write_zero : string := "write_zero".

(** [path.split('/')]. *)
Definition segments (path : string) : list string :=
  map string_of_list_ascii (split_slash (list_ascii_of_string path)).
Definition backslash_to_slash (path : string) : string :=
  bytes_str (map (fun b => if (b =? 92)%N then 47%N else b) (str_bytes path)).

Definition push_part (parts : list string) (part : string) : list string :=
  if String.eqb part EmptyString || String.eqb part "." then parts
  else if String.eqb part ".." then removelast parts
  else parts ++ [part].
Definition normalize_workspace_path (path : string) : string :=
  join "/" (foldl push_part [] (segments (backslash_to_slash path))).

Definition is_absolute (path : string) : bool := String.prefix "/" path.
Definition odd_segment (s : string) : bool :=
  String.eqb s EmptyString || String.eqb s "." || String.eqb s "..".
Definition exclusive_workspace_path (path : string) : result string :=
  fail_if (is_absolute path || has_forbidden_char path) with invalid_input ;;
  fail_if (existsb odd_segment (segments path)) with invalid_input ;;
  Ok (join "/" (segments path)).

(** The directories above a key. *)
Fixpoint parents (current parts : list string) : list string :=
  match parts with
  | [] | [_] => []
  | part :: rest => join "/" (current ++ [part]) :: parents (current ++ [part]) rest
  end.
Definition insert_parent_dirs (dirs : list (string * unit)) (key : string) : list (string * unit) :=
  foldl (fun dirs d => map_insert d tt dirs) (map_insert EmptyString tt dirs)
    (parents [] (List.filter (fun s => negb (str_is_empty s)) (segments key))).

Definition is_reserved_artifact_path (path : string) : bool :=
  String.prefix ".vv-agent/artifacts/" (normalize_workspace_path path).

(** *** Globs *)

Definition normalized_glob_pattern (glob : string) : string :=
  let pattern := str_trim glob in
  if str_is_empty pattern then "**/*" else backslash_to_slash pattern.

(** The suffixes of a path: all, those behind a slash, and those reached
    without crossing one. *)
Fixpoint tails (path : list N) : list (list N) :=
  path :: match path with [] => [] | _ :: r => tails r end.
Fixpoint tails_behind_slash (path : list N) : list (list N) :=
  match path with
  | [] => []
  | b :: r => (if (b =? 47)%N then [r] else []) ++ tails_behind_slash r
  end.
Fixpoint tails_in_segment (path : list N) : list (list N) :=
  match path with
  | [] => []
  | b :: r => if (b =? 47)%N then [] else r :: tails_in_segment r
  end.
Fixpoint bytes_prefix (prefix l : list N) : bool :=
  match prefix, l with
  | [], _ => true
  | a :: p, b :: r => (a =? b)%N && bytes_prefix p r
  | _, [] => false
  end.
(** Every call consumes a byte of the pattern: its length is enough fuel. *)
Fixpoint glob_match_bytes (fuel : nat) (path pattern : list N) : bool :=
  match fuel, pattern with
  | O, _ => false
  | _, [] => match path with [] => true | _ => false end
  | S f, c :: rest =>
      if bytes_prefix [42; 42; 47]%N pattern then
        glob_match_bytes f path (drop 3 pattern)
        || existsb (fun tail => glob_match_bytes f tail (drop 3 pattern)) (tails_behind_slash path)
      else if bytes_prefix [42; 42]%N pattern then
        existsb (fun tail => glob_match_bytes f tail (drop 2 pattern)) (tails path)
      else if (c =? 42)%N then
        glob_match_bytes f path rest
        || existsb (fun tail => glob_match_bytes f tail rest) (tails_in_segment path)
      else
        match path with
        | b :: r => (if (c =? 63)%N then negb (b =? 47)%N else (b =? c)%N) && glob_match_bytes f r rest
        | [] => false
        end
  end.
Definition glob_match (path pattern : string) : bool :=
  glob_match_bytes (S (String.length pattern)) (str_bytes path) (str_bytes pattern).

(** ** The in-memory backend *)

Record MemoryWorkspaceBackend := {
  mw_files : list (string * string);
  mw_dirs : list (string * unit)
}.
Definition memory_workspace_default : MemoryWorkspaceBackend :=
  {| mw_files := []; mw_dirs := [(EmptyString, tt)] |}.

Definition read_bytes (w : MemoryWorkspaceBackend) (path : string) : result string :=
  ok_or (map_get (normalize_workspace_path path) (mw_files w)) not_found.
Definition exists_ (w : MemoryWorkspaceBackend) (path : string) : bool :=
  let key := normalize_workspace_path path in
  map_contains_key key (mw_files w) || map_contains_key key (mw_dirs w).
Definition is_file (w : MemoryWorkspaceBackend) (path : string) : bool :=
  map_contains_key (normalize_workspace_path path) (mw_files w).
Definition mkdir (w : MemoryWorkspaceBackend) (path : string) : MemoryWorkspaceBackend :=
  let key := normalize_workspace_path path in
  {| mw_files := mw_files w;
     mw_dirs := insert_parent_dirs (map_insert key tt (mw_dirs w)) key |}.
Definition list_files (w : MemoryWorkspaceBackend) (base glob : string) : list string :=
  let base := normalize_workspace_path base in
  if is_reserved_artifact_path base then []
  else
    let glob := normalized_glob_pattern glob in
    let pattern := if str_is_empty base then glob else base +:+ "/" +:+ glob in
    List.filter (fun path => negb (is_reserved_artifact_path path) && glob_match path pattern)
      (map_keys (mw_files w)).
(** [file_info] without the time stamp and the suffix: the path, whether it
    is a file, and the size. *)
Definition file_info (w : MemoryWorkspaceBackend) (path : string) : option (string * bool * N) :=
  let key := normalize_workspace_path path in
  match map_get key (mw_files w) with
  | Some content => Some (key, true, str_len content)
  | None =>
      (fun _ => (if str_is_empty key then "." else key, false, 0%N)) <$> map_get key (mw_dirs w)
  end.

Definition write_text (w : MemoryWorkspaceBackend) (path content : string) (append : bool)
    : result N * MemoryWorkspaceBackend :=
  if is_reserved_artifact_path path then (Err permission_denied, w)
  else
    let key := normalize_workspace_path path in
    let data := if append then unwrap_or (map_get key (mw_files w)) EmptyString +:+ content else content in
    (Ok (str_len content),
     {| mw_files := map_insert key data (mw_files w);
        mw_dirs := insert_parent_dirs (mw_dirs w) key |}).

(** The prefixes of a key at its slashes, the key itself last. *)
Fixpoint key_prefixes (current : list string) (parts : list string) : list string :=
  match parts with
  | [] => []
  | part :: rest => join "/" (current ++ [part]) :: key_prefixes (current ++ [part]) rest
  end.
Fixpoint all_chunks (chunks : list (result string)) : result string :=
  match chunks with
  | [] => Ok EmptyString
  | chunk :: rest => let? c := chunk in let? r := all_chunks rest in Ok (c +:+ r)
  end.
Definition write_text_chunks_exclusive (w : MemoryWorkspaceBackend) (path : string)
    (chunks : list (result string)) : result N * MemoryWorkspaceBackend :=
  match exclusive_workspace_path path, all_chunks chunks with
  | Err e, _ | Ok _, Err e => (Err e, w)
  | Ok key, Ok data =>
      if map_contains_key key (mw_files w) || map_contains_key key (mw_dirs w)
      then (Err already_exists, w)
      else if existsb (fun parent => negb (String.eqb parent key) && map_contains_key parent (mw_files w))
                (key_prefixes [] (segments key))
      then (Err not_a_directory, w)
      else (Ok (str_len data),
            {| mw_files := map_insert key data (mw_files w);
               mw_dirs := insert_parent_dirs (mw_dirs w) key |})
  end.
Definition write_text_exclusive (w : MemoryWorkspaceBackend) (path content : string)
    : result N * MemoryWorkspaceBackend :=
  write_text_chunks_exclusive w path [Ok content].

(** ** Backends *)

Class WorkspaceBackend := {
  ws : Type;
  ws_read_bytes : ws -> string -> result string;
  ws_write_text_exclusive : ws -> string -> string -> result N * ws
}.
(** What a client relies on: what was written completely is read back, and
    an exclusive write changes nothing that is there. *)
Class WorkspaceLaws `{WorkspaceBackend} := {
  ws_write_read w path content n w' :
    ws_write_text_exclusive w path content = (Ok n, w') -> n = str_len content ->
    ws_read_bytes w' path = Ok content;
  ws_write_keeps w path content q x :
    ws_read_bytes w q = Ok x -> ws_read_bytes (ws_write_text_exclusive w path content).2 q = Ok x
}.
#[global] Instance memory_backend : WorkspaceBackend :=
  {| ws := MemoryWorkspaceBackend; ws_read_bytes := read_bytes;
     ws_write_text_exclusive := write_text_exclusive |}.

(** ** Artifacts *)

Definition segment_byte (b : N) : bool :=
  is_ascii_alphanumeric b || existsb (N.eqb b) [46; 95; 45]%N.
Definition segment_push (segment : list N) (char : list N) : list N :=
  if (64 <=? length segment)%nat then segment
  else match char with
       | [b] => if segment_byte b then segment ++ [b]
                else if last segment =?? Some 45%N then segment else segment ++ [45%N]
       | _ => if last segment =?? Some 45%N then segment else segment ++ [45%N]
       end.
Fixpoint drop_odd (segment : list N) : list N :=
  match segment with
  | b :: r => if is_ascii_alphanumeric b then segment else drop_odd r
  | [] => []
  end.
Definition artifact_segment (value fallback : string) : string :=
  match drop_odd (foldl segment_push [] (bytes_chars (str_bytes value))) with
  | [] => fallback
  | segment => bytes_str segment
  end.

Section Artifacts.
Context `{Digest} `{WorkspaceBackend}.

Definition artifact_path (task_id tool_call_id content : string) : string :=
  ".vv-agent/artifacts/" +:+ artifact_segment task_id "task" +:+ "/"
  +:+ artifact_segment tool_call_id "call" +:+ "-" +:+ sha256_hex content +:+ ".txt".
Definition persist_replayable_text_artifact (w : ws) (task_id tool_call_id content : string)
    : result ToolArtifactRef * ws :=
  let path := artifact_path task_id tool_call_id content in
  let '(outcome, w') := ws_write_text_exclusive w path content in
  let written :=
    match outcome with
    | Err e =>
        if String.eqb e already_exists then
          let? bytes := ws_read_bytes w' path in
          fail_if (negb (String.eqb bytes content)) with invalid_data ;;
          Ok (str_len content)
        else Err e
    | Ok n => Ok n
    end in
  (let? written := written in
   fail_if (negb (written =? str_len content)%N) with write_zero ;;
   Ok {| art_path := path; art_media_type := "text/plain"; art_encoding := "utf-8";
         art_size_bytes := str_len content; art_sha256 := sha256_hex content |}, w').

Definition read_validated_text_artifact (w : ws) (artifact : ToolArtifactRef) : result string :=
  do? map_err (artifact_validate artifact) invalid_input ;;
  let? bytes := ws_read_bytes w (art_path artifact) in
  fail_if (negb (str_len bytes =? art_size_bytes artifact)%N) with invalid_data ;;
  fail_if (negb (String.eqb (sha256_hex bytes) (art_sha256 artifact))) with invalid_data ;;
  Ok bytes.
End Artifacts.

(** ** Lemmas *)

(** *** Text *)

Lemma list_ascii_app a b : list_ascii_of_string (a +:+ b) = list_ascii_of_string a ++ list_ascii_of_string b.
Proof.
  induction a as [|c a IH]; [done|]. change (String c a +:+ b) with (String c (a +:+ b)).
  change (c :: list_ascii_of_string (a +:+ b) = c :: (list_ascii_of_string a ++ list_ascii_of_string b)).
  by rewrite IH.
Qed.
Lemma str_bytes_app a b : str_bytes (a +:+ b) = str_bytes a ++ str_bytes b.
Proof. unfold str_bytes. by rewrite list_ascii_app, map_app. Qed.
Lemma str_len_bytes s : str_len s = N.of_nat (length (str_bytes s)).
Proof. unfold str_len, str_bytes. rewrite length_map. f_equal. induction s as [|c s IH]; [done|]. cbn. by f_equal. Qed.
Lemma bytes_str_bytes s : bytes_str (str_bytes s) = s.
Proof.
  unfold bytes_str, str_bytes. rewrite map_map. rewrite (map_ext _ id); [|apply ascii_N_embedding].
  rewrite map_id. apply string_of_list_ascii_of_string.
Qed.
Definition byte_list (l : list N) : Prop := Forall (fun b => (b < 256)%N) l.
Lemma str_bytes_str l : byte_list l -> str_bytes (bytes_str l) = l.
Proof.
  intros Hl. unfold bytes_str, str_bytes. rewrite list_ascii_of_string_of_list_ascii, map_map.
  induction Hl as [|b l Hb _ IH]; [done|]. cbn. by rewrite N_ascii_embedding, IH.
Qed.
Lemma str_bytes_inj a b : str_bytes a = str_bytes b -> a = b.
Proof. intros He. by rewrite <- (bytes_str_bytes a), <- (bytes_str_bytes b), He. Qed.

(** *** Segments *)

Definition slash_free (s : string) : Prop :=
  Forall (fun c => Ascii.eqb c slash = false) (list_ascii_of_string s).
Lemma segments_last s : slash_free s -> segments s = [s].
Proof.
  intros Hs. unfold segments. rewrite split_slash_last by done. cbn.
  by rewrite string_of_list_ascii_of_string.
Qed.
Lemma segments_cons s rest : slash_free s -> segments (s +:+ "/" +:+ rest) = s :: segments rest.
Proof.
  intros Hs. unfold segments. rewrite list_ascii_app.
  change (list_ascii_of_string ("/" +:+ rest)) with (slash :: list_ascii_of_string rest).
  rewrite split_slash_segment by done. cbn.
  by rewrite string_of_list_ascii_of_string.
Qed.
Lemma segments_join l : l <> [] -> Forall slash_free l -> segments (join "/" l) = l.
Proof.
  intros Hne. induction 1 as [|s l Hs Hl IH]; [done|]. destruct l as [|s' l]; [by apply segments_last|].
  change (join "/" (s :: s' :: l)) with (s +:+ "/" +:+ join "/" (s' :: l)).
  rewrite segments_cons by done. by rewrite IH.
Qed.
Lemma split_slash_free l : Forall (Forall (fun c => Ascii.eqb c slash = false)) (split_slash l).
Proof.
  induction l as [|c l IH]; cbn; [by repeat constructor|]. destruct (Ascii.eqb c slash) eqn:E; [by constructor|].
  destruct (split_slash l) as [|seg segs]; [by repeat constructor|]. inversion IH; subst. by repeat constructor.
Qed.
Lemma segments_free p : Forall slash_free (segments p).
Proof.
  unfold segments. apply Forall_map. eapply Forall_impl; [apply split_slash_free|]. intros l Hl.
  unfold slash_free. by rewrite list_ascii_of_string_of_list_ascii.
Qed.
Lemma split_slash_ne l : split_slash l <> [].
Proof. destruct l as [|c l]; cbn; [done|]. destruct (Ascii.eqb c slash); [done|]. by destruct (split_slash l). Qed.
Lemma join_segments p : join "/" (segments p) = p.
Proof.
  unfold segments.
  assert (Hj : forall l, join "/" (map string_of_list_ascii (split_slash l)) = string_of_list_ascii l).
  { induction l as [|c l IH]; [done|]. cbn [split_slash]. pose proof (split_slash_ne l) as Hne.
    destruct (Ascii.eqb c slash) eqn:E.
    - apply Ascii.eqb_eq in E as ->. destruct (split_slash l) as [|seg segs] eqn:Hl; [done|].
      change (join "/" (map string_of_list_ascii ([] :: seg :: segs)))
        with ("/" +:+ join "/" (map string_of_list_ascii (seg :: segs))). by rewrite IH.
    - destruct (split_slash l) as [|seg segs] eqn:Hl; [done|].
      change (string_of_list_ascii (c :: l)) with (String c (string_of_list_ascii l)). rewrite <- IH.
      by destruct segs. }
  rewrite Hj. apply string_of_list_ascii_of_string.
Qed.

(** *** Normal paths *)

Definition part_ok (s : string) : Prop := odd_segment s = false /\ slash_free s.
Definition no_backslash (p : string) : Prop := Forall (fun b => b <> 92%N) (str_bytes p).
Lemma backslash_id p : no_backslash p -> backslash_to_slash p = p.
Proof.
  intros Hp. unfold backslash_to_slash. rewrite <- (bytes_str_bytes p) at 2. f_equal.
  induction Hp as [|b l Hb _ IH]; [done|]. cbn. by rewrite (proj2 (N.eqb_neq _ _) Hb), IH.
Qed.
Lemma str_byte_list p : byte_list (str_bytes p).
Proof. unfold byte_list, str_bytes. apply Forall_map, Forall_forall. intros c _. apply N_ascii_bounded. Qed.
Lemma backslash_gone p : no_backslash (backslash_to_slash p).
Proof.
  unfold no_backslash, backslash_to_slash. rewrite str_bytes_str.
  - apply Forall_map, Forall_forall. intros b _. by destruct (N.eqb_spec b 92).
  - pose proof (str_byte_list p) as Hb. unfold byte_list in *. apply Forall_map.
    eapply Forall_impl; [exact Hb|]. cbn. intros b Hlt. destruct (b =? 92)%N; lia.
Qed.
Lemma push_ok parts part : odd_segment part = false -> push_part parts part = parts ++ [part].
Proof. unfold push_part, odd_segment. rewrite !orb_false_iff. by intros [[-> ->] ->]. Qed.
Lemma push_parts l parts : Forall (fun s => odd_segment s = false) l -> foldl push_part parts l = parts ++ l.
Proof.
  intros Hl. revert parts. induction Hl as [|s l Hs _ IH]; intros parts; cbn; [by rewrite app_nil_r|].
  rewrite push_ok, IH by done. by rewrite <- app_assoc.
Qed.
Lemma normalize_plain p :
  no_backslash p -> Forall (fun s => odd_segment s = false) (segments p) -> normalize_workspace_path p = p.
Proof.
  intros Hb Hs. unfold normalize_workspace_path. rewrite backslash_id, push_parts by done. apply join_segments.
Qed.
Lemma split_slash_bytes l :
  Forall (fun seg => Forall (fun c => c ∈ l) seg) (split_slash l).
Proof.
  induction l as [|c l IH]; cbn; [by repeat constructor|].
  assert (Hmono : Forall (fun seg => Forall (fun c0 => c0 ∈ c :: l) seg) (split_slash l)).
  { eapply Forall_impl; [exact IH|]. intros seg Hs. eapply Forall_impl; [exact Hs|]. set_solver. }
  destruct (Ascii.eqb c slash); [by constructor|].
  destruct (split_slash l) as [|seg segs]; [repeat constructor; set_solver|].
  inversion Hmono; subst. constructor; [|done]. constructor; [set_solver|done].
Qed.
Lemma segments_no_backslash p : no_backslash p -> Forall no_backslash (segments p).
Proof.
  intros Hp. unfold segments. apply Forall_map. eapply Forall_impl; [apply split_slash_bytes|].
  intros seg Hs. unfold no_backslash, str_bytes in *. rewrite list_ascii_of_string_of_list_ascii.
  apply Forall_map. rewrite Forall_map in Hp. eapply Forall_impl; [exact Hs|]. intros c Hc. cbn.
  rewrite Forall_forall in Hp. by apply Hp.
Qed.
Lemma Forall_removelast {A} (P : A -> Prop) l : Forall P l -> Forall P (removelast l).
Proof. induction 1 as [|x l Hx Hl IH]; [done|]. cbn. destruct l; [done|]. by constructor. Qed.
(** The parts of a normal path. *)
Lemma normal_parts p :
  Forall (fun s => part_ok s /\ no_backslash s) (foldl push_part [] (segments (backslash_to_slash p))).
Proof.
  assert (Hs : Forall (fun s => slash_free s /\ no_backslash s) (segments (backslash_to_slash p))).
  { apply Forall_and. split; [apply segments_free|apply segments_no_backslash, backslash_gone]. }
  assert (Hnil : Forall (fun s => part_ok s /\ no_backslash s) []) by done.
  revert Hnil. generalize (@nil string) as acc.
  induction Hs as [|s l [Hf Hb] _ IH]; intros acc Hacc; cbn; [done|]. apply IH. unfold push_part.
  destruct (String.eqb s EmptyString || String.eqb s ".") eqn:E1; [done|].
  destruct (String.eqb s "..") eqn:E2; [by apply Forall_removelast|].
  apply Forall_app. split; [done|]. apply Forall_singleton. unfold part_ok, odd_segment. by rewrite E1, E2.
Qed.
Lemma no_backslash_app a b : no_backslash a -> no_backslash b -> no_backslash (a +:+ b).
Proof. unfold no_backslash. rewrite str_bytes_app. intros. by apply Forall_app. Qed.
Lemma no_backslash_join l : Forall no_backslash l -> no_backslash (join "/" l).
Proof.
  induction 1 as [|s l Hs Hl IH]; [by unfold no_backslash|]. destruct l as [|s' l]; [done|].
  change (join "/" (s :: s' :: l)) with (s +:+ "/" +:+ join "/" (s' :: l)).
  apply no_backslash_app; [done|]. apply no_backslash_app; [|done]. unfold no_backslash. cbn. by repeat constructor.
Qed.
(** A normal path stays in the workspace: no part of it is empty, [.] or
    [..]; and it is its own normal form. *)
Lemma normalize_confined p :
  (normalize_workspace_path p = EmptyString
   \/ Forall (fun s => odd_segment s = false) (segments (normalize_workspace_path p))) /\
  normalize_workspace_path (normalize_workspace_path p) = normalize_workspace_path p.
Proof.
  pose proof (normal_parts p) as Hp. unfold normalize_workspace_path at 1 2 4 5.
  set (parts := foldl push_part [] (segments (backslash_to_slash p))) in *.
  destruct (decide (parts = [])) as [->|Hne]; [by split; [left|]|].
  assert (Hseg : segments (join "/" parts) = parts).
  { apply segments_join; [done|]. eapply Forall_impl; [exact Hp|]. by intros s [[_ ?] _]. }
  assert (Hodd : Forall (fun s => odd_segment s = false) parts).
  { eapply Forall_impl; [exact Hp|]. by intros s [[? _] _]. }
  split; [right; by rewrite Hseg|]. apply normalize_plain; [|by rewrite Hseg].
  apply no_backslash_join. eapply Forall_impl; [exact Hp|]. by intros s [_ ?].
Qed.

(** *** The in-memory backend *)

Lemma exclusive_path_ok path key :
  exclusive_workspace_path path = Ok key -> key = path /\ normalize_workspace_path path = path.
Proof.
  unfold exclusive_workspace_path. intros Hk. result_inv. split; [apply join_segments|].
  bool_inv. apply normalize_plain.
  - match goal with R : has_forbidden_char path = false |- _ => unfold has_forbidden_char in R; rename R into Hf end.
    unfold no_backslash. apply Forall_forall. intros b Hb ->. rewrite <- not_true_iff_false in Hf. apply Hf.
    apply List.existsb_exists. exists 92%N. split; [by apply list_elem_of_In|done].
  - match goal with R : existsb odd_segment _ = false |- _ => rename R into Hs end.
    apply Forall_forall. intros s Hin. rewrite <- not_true_iff_false in Hs. apply not_true_iff_false.
    intros Ho. apply Hs, List.existsb_exists. exists s. split; [by apply list_elem_of_In|done].
Qed.
Lemma chunk_one content : all_chunks [Ok content] = Ok content.
Proof.
  assert (Hnil : forall s, s +:+ EmptyString = s).
  { induction s as [|c s IH]; [done|].
    change (String c s +:+ EmptyString) with (String c (s +:+ EmptyString)). by rewrite IH. }
  cbn. by rewrite Hnil.
Qed.
Lemma exclusive_write w path content n w' :
  write_text_exclusive w path content = (Ok n, w') ->
  n = str_len content /\ normalize_workspace_path path = path /\ map_get path (mw_files w) = None /\
  mw_files w' = map_insert path content (mw_files w).
Proof.
  unfold write_text_exclusive, write_text_chunks_exclusive. rewrite chunk_one.
  destruct (exclusive_workspace_path path) as [key|] eqn:Hk; [|done].
  destruct (exclusive_path_ok _ _ Hk) as [-> Hn].
  destruct (_ || _) eqn:E; [done|]. destruct (existsb _ _); [done|]. intros [= <- <-]. cbn.
  apply orb_false_iff in E as [Hf _]. unfold map_contains_key in Hf.
  split_and!; [done|done| |done]. by destruct (map_get path (mw_files w)).
Qed.
#[global] Instance memory_backend_laws : WorkspaceLaws.
Proof.
  split; cbn.
  - intros w path content n w' Hw _. destruct (exclusive_write _ _ _ _ _ Hw) as (_ & Hn & _ & Hf).
    unfold read_bytes. by rewrite Hn, Hf, map_get_insert_eq.
  - intros w path content q x. unfold read_bytes. intros Hq%ok_or_Ok.
    destruct (write_text_exclusive w path content) as [[n|e] w'] eqn:Hw; cbn.
    + destruct (exclusive_write _ _ _ _ _ Hw) as (_ & _ & Hnone & ->). rewrite map_get_insert.
      destruct (String.eqb_spec (normalize_workspace_path q) path) as [Heq|]; [|by rewrite Hq].
      rewrite Heq in Hq. congruence.
    + unfold write_text_exclusive, write_text_chunks_exclusive in Hw. rewrite chunk_one in Hw.
      destruct (exclusive_workspace_path path); [|injection Hw as _ <-; by rewrite Hq].
      destruct (_ || _); [injection Hw as _ <-; by rewrite Hq|].
      destruct (existsb _ _); [injection Hw as _ <-; by rewrite Hq|done].
Qed.

(** *** Artifact paths *)

Record segment_ok (s : string) : Prop := {
  sg_bytes : Forall (fun b => segment_byte b = true) (str_bytes s);
  sg_head : is_some_and (head (str_bytes s)) is_ascii_alphanumeric = true;
  sg_length : length (str_bytes s) <= 64
}.
Lemma segment_byte_bound b : segment_byte b = true -> (b < 128)%N /\ b <> 47%N /\ b <> 92%N /\ b <> 0%N.
Proof.
  unfold segment_byte, is_ascii_alphanumeric, is_ascii_digit, is_ascii_lowercase,
    is_ascii_uppercase. cbn. intros Hb. destruct (decide (b < 128)%N); [|lia]. split_and!; [done|lia..].
Qed.
Lemma segment_pushed chars segment :
  Forall (fun b => segment_byte b = true) segment -> length segment <= 64 ->
  Forall (fun b => segment_byte b = true) (foldl segment_push segment chars) /\
  length (foldl segment_push segment chars) <= 64.
Proof.
  revert segment. induction chars as [|char chars IH]; intros segment Hs Hl; cbn; [done|].
  assert (Hdash : Forall (fun b => segment_byte b = true) (segment ++ [45%N]))
    by (apply Forall_app; split; [done|by apply Forall_singleton]).
  apply IH; unfold segment_push; destruct (Nat.leb_spec 64 (length segment)) as [|Hlt]; try done.
  - destruct char as [|b [|]]; try (by case_bool_decide). destruct (segment_byte b) eqn:Hb; [|by case_bool_decide].
    apply Forall_app. split; [done|by apply Forall_singleton].
  - destruct char as [|b [|]]; try destruct (segment_byte b); try case_bool_decide;
      rewrite ?length_app; cbn; lia.
Qed.
Lemma drop_odd_ok segment :
  Forall (fun b => segment_byte b = true) segment -> length segment <= 64 ->
  Forall (fun b => segment_byte b = true) (drop_odd segment) /\ length (drop_odd segment) <= 64 /\
  (drop_odd segment = [] \/ is_some_and (head (drop_odd segment)) is_ascii_alphanumeric = true).
Proof.
  induction 1 as [|b l Hb Hl IH]; intros Hlen; cbn in *; [split_and!; [done|lia|by left]|].
  destruct (is_ascii_alphanumeric b) eqn:E; [|apply IH; lia]. split_and!; [by constructor|done|by right].
Qed.
Lemma artifact_segment_ok value fallback : segment_ok fallback -> segment_ok (artifact_segment value fallback).
Proof.
  intros Hf. unfold artifact_segment.
  destruct (segment_pushed (bytes_chars (str_bytes value)) [] ltac:(done) ltac:(cbn; lia)) as [Hb Hl].
  destruct (drop_odd_ok _ Hb Hl) as (Hb' & Hl' & Hh). destruct (drop_odd _) as [|b r]; [done|].
  destruct Hh as [?|Hh]; [done|].
  assert (Hbytes : str_bytes (bytes_str (b :: r)) = b :: r).
  { apply str_bytes_str. eapply Forall_impl; [exact Hb'|]. intros x Hx%segment_byte_bound. lia. }
  split; by rewrite Hbytes.
Qed.
Lemma fallback_ok : segment_ok "task" /\ segment_ok "call".
Proof. split; split; vm_compute; repeat constructor. Qed.

Section Path.
Context `{DigestLaws}.
Lemma sha_bytes content :
  length (str_bytes (sha256_hex content)) = 64 /\
  Forall (fun b => sha256_char b = true) (str_bytes (sha256_hex content)).
Proof.
  pose proof (sha256_hex_valid content) as Hs. unfold validate_sha256 in Hs.
  destruct (_ || _) eqn:E; [done|]. apply orb_false_iff in E as [Hl He]. apply negb_false_iff, N.eqb_eq in Hl.
  rewrite str_len_bytes in Hl. split; [lia|]. apply Forall_forall. intros b Hb.
  rewrite <- not_true_iff_false in He. unfold sha256_char.
  destruct (is_ascii_hexdigit b && negb (is_ascii_uppercase b)) eqn:E; [done|]. destruct He.
  apply List.existsb_exists. exists b. split; [by apply list_elem_of_In|].
  apply andb_false_iff in E as [->|E]; [done|]. apply negb_false_iff in E as ->. apply orb_true_r.
Qed.
Lemma sha_segment b : sha256_char b = true -> segment_byte b = true.
Proof.
  unfold sha256_char, segment_byte, is_ascii_hexdigit, is_ascii_alphanumeric,
    is_ascii_digit, is_ascii_lowercase, is_ascii_uppercase. lia.
Qed.

Definition artifact_file (tool_call_id content : string) : string :=
  artifact_segment tool_call_id "call" +:+ "-" +:+ sha256_hex content +:+ ".txt".
Lemma bytes_slash_free s : Forall (fun b => segment_byte b = true) (str_bytes s) -> slash_free s.
Proof.
  unfold slash_free, str_bytes. rewrite Forall_map. intros Hs. eapply Forall_impl; [exact Hs|]. cbn.
  intros c Hc. destruct (Ascii.eqb_spec c slash) as [->|]; [|done].
  apply segment_byte_bound in Hc as (_ & Hn & _). by destruct Hn.
Qed.
Lemma artifact_file_bytes tool_call_id content :
  Forall (fun b => segment_byte b = true) (str_bytes (artifact_file tool_call_id content)) /\
  length (str_bytes (artifact_file tool_call_id content))
  = length (str_bytes (artifact_segment tool_call_id "call")) + 69 /\
  is_some_and (head (str_bytes (artifact_file tool_call_id content))) is_ascii_alphanumeric = true.
Proof.
  unfold artifact_file. destruct (artifact_segment_ok tool_call_id "call" (proj2 fallback_ok)) as [Hb Hh Hl].
  destruct (sha_bytes content) as [Hsl Hsb]. rewrite !str_bytes_app. split_and!.
  - apply Forall_app. split; [done|]. cbn. constructor; [done|]. apply Forall_app. split.
    + eapply Forall_impl; [exact Hsb|]. intros b. apply sha_segment.
    + by repeat constructor.
  - rewrite !length_app, Hsl. cbn. lia.
  - by destruct (str_bytes (artifact_segment tool_call_id "call")).
Qed.
Lemma artifact_path_parts task_id tool_call_id content :
  segments (artifact_path task_id tool_call_id content)
  = [".vv-agent"; "artifacts"; artifact_segment task_id "task"; artifact_file tool_call_id content].
Proof.
  destruct (artifact_segment_ok task_id "task" (proj1 fallback_ok)) as [Ht _ _].
  destruct (artifact_file_bytes tool_call_id content) as (Hf & _ & _).
  change (artifact_path task_id tool_call_id content)
    with (".vv-agent" +:+ "/" +:+ ("artifacts" +:+ "/" +:+ (artifact_segment task_id "task" +:+ "/"
          +:+ artifact_file tool_call_id content))).
  rewrite (segments_cons ".vv-agent"), (segments_cons "artifacts")
    by (apply bytes_slash_free; vm_compute; repeat constructor).
  rewrite segments_cons by by apply bytes_slash_free.
  by rewrite segments_last by by apply bytes_slash_free.
Qed.
Lemma segment_not_odd s :
  Forall (fun b => segment_byte b = true) (str_bytes s) ->
  is_some_and (head (str_bytes s)) is_ascii_alphanumeric = true -> odd_segment s = false.
Proof.
  intros _ Hh. unfold odd_segment. rewrite !orb_false_iff, !String.eqb_neq.
  split_and!; intros ->; discriminate Hh.
Qed.
Lemma artifact_path_bytes task_id tool_call_id content :
  Forall (fun b => segment_byte b = true \/ b = 47%N) (str_bytes (artifact_path task_id tool_call_id content)).
Proof.
  destruct (artifact_segment_ok task_id "task" (proj1 fallback_ok)) as [Ht _ _].
  destruct (artifact_file_bytes tool_call_id content) as (Hf & _ & _).
  change (artifact_path task_id tool_call_id content)
    with (".vv-agent/artifacts/" +:+ artifact_segment task_id "task" +:+ "/" +:+ artifact_file tool_call_id content).
  rewrite !str_bytes_app. apply Forall_app. split; [vm_compute; repeat (constructor; [first [left; reflexivity|right; reflexivity]|]); constructor|].
  apply Forall_app. split; [eapply Forall_impl; [exact Ht|]; by left|]. apply Forall_app.
  split; [vm_compute; repeat (constructor; [first [left; reflexivity|right; reflexivity]|]); constructor|]. eapply Forall_impl; [exact Hf|]. by left.
Qed.
Lemma artifact_path_normal task_id tool_call_id content :
  normalize_workspace_path (artifact_path task_id tool_call_id content)
  = artifact_path task_id tool_call_id content /\
  is_reserved_artifact_path (artifact_path task_id tool_call_id content) = true.
Proof.
  destruct (artifact_segment_ok task_id "task" (proj1 fallback_ok)) as [Ht Hth _].
  destruct (artifact_file_bytes tool_call_id content) as (Hf & _ & Hfh).
  assert (Hn : normalize_workspace_path (artifact_path task_id tool_call_id content)
               = artifact_path task_id tool_call_id content).
  { apply normalize_plain.
    - eapply Forall_impl; [apply artifact_path_bytes|]. intros b [Hb| ->]; [|done].
      by apply segment_byte_bound in Hb as (_ & _ & ? & _).
    - rewrite artifact_path_parts. repeat constructor; by apply segment_not_odd. }
  split; [done|]. unfold is_reserved_artifact_path. rewrite Hn. unfold artifact_path.
  generalize (artifact_segment task_id "task" +:+ "/" +:+ artifact_segment tool_call_id "call" +:+ "-"
              +:+ sha256_hex content +:+ ".txt"). intros r. by destruct r.
Qed.
Lemma valid_segment_bytes s :
  Forall (fun b => segment_byte b = true) (str_bytes s) ->
  is_some_and (head (str_bytes s)) is_ascii_alphanumeric = true ->
  valid_segment (list_ascii_of_string s) = (length (str_bytes s) <=? 128)%nat.
Proof.
  intros Hb Hh. unfold valid_segment. fold (str_bytes s).
  rewrite Hh, andb_true_r. assert (forallb segment_byte (str_bytes s) = true) as Hall.
  { apply List.forallb_forall. intros b Hin%list_elem_of_In. rewrite Forall_forall in Hb. by apply Hb. }
  unfold segment_byte in Hall. rewrite Hall, andb_true_r. unfold str_bytes. by rewrite length_map.
Qed.
(** The path of an artifact is valid exactly when the segment of the call is
    short enough. *)
Lemma artifact_path_valid task_id tool_call_id content :
  valid_artifact_path (artifact_path task_id tool_call_id content)
  = (length (str_bytes (artifact_segment tool_call_id "call")) <=? 59)%nat.
Proof.
  destruct (artifact_segment_ok task_id "task" (proj1 fallback_ok)) as [Ht Hth Htl].
  destruct (artifact_segment_ok tool_call_id "call" (proj2 fallback_ok)) as [_ _ Hcl].
  destruct (artifact_file_bytes tool_call_id content) as (Hf & Hfl & Hfh).
  unfold valid_artifact_path.
  assert (Hlen : (512 <? str_len (artifact_path task_id tool_call_id content))%N = false).
  { change (artifact_path task_id tool_call_id content)
      with (".vv-agent/artifacts/" +:+ artifact_segment task_id "task" +:+ "/" +:+ artifact_file tool_call_id content).
    rewrite str_len_bytes, !str_bytes_app, !length_app, Hfl. cbn [length str_bytes map list_ascii_of_string]. lia. }
  assert (Hchar : has_forbidden_char (artifact_path task_id tool_call_id content) = false).
  { unfold has_forbidden_char. apply not_true_iff_false. rewrite List.existsb_exists.
    intros (b & Hin%list_elem_of_In & Hb). pose proof (artifact_path_bytes task_id tool_call_id content) as Hall.
    rewrite Forall_forall in Hall. destruct (Hall b Hin) as [Hs| ->]; [|done].
    apply segment_byte_bound in Hs. lia. }
  assert (Hpre : String.prefix ARTIFACT_PREFIX (artifact_path task_id tool_call_id content) = true).
  { unfold artifact_path. generalize (artifact_segment task_id "task" +:+ "/"
      +:+ artifact_segment tool_call_id "call" +:+ "-" +:+ sha256_hex content +:+ ".txt"). by intros []. }
  rewrite Hlen, Hchar, Hpre. cbn [negb orb].
  assert (Hdrop : drop (String.length ARTIFACT_PREFIX)
                    (list_ascii_of_string (artifact_path task_id tool_call_id content))
    = list_ascii_of_string (artifact_segment task_id "task")
      ++ slash :: list_ascii_of_string (artifact_file tool_call_id content)).
  { change (artifact_path task_id tool_call_id content)
      with (ARTIFACT_PREFIX +:+ artifact_segment task_id "task" +:+ "/" +:+ artifact_file tool_call_id content).
    rewrite !list_ascii_app. done. }
  rewrite Hdrop, split_slash_segment, split_slash_last by by apply bytes_slash_free.
  cbn [forallb]. rewrite !valid_segment_bytes, Hfl by done.
  destruct (Nat.leb_spec (length (str_bytes (artifact_segment task_id "task"))) 128); [|lia].
  rewrite andb_true_r. cbn [andb]. apply Bool.eq_iff_eq_true. rewrite !Nat.leb_le. lia.
Qed.
End Path.

(** *** Persisting *)

Section Persist.
Context `{DL : DigestLaws} `{WL : WorkspaceLaws}.

(** What a successful call leaves behind, on any lawful backend. *)
Lemma persist_spec w task_id tool_call_id content a w' :
  persist_replayable_text_artifact w task_id tool_call_id content = (Ok a, w') ->
  a = {| art_path := artifact_path task_id tool_call_id content; art_media_type := "text/plain";
         art_encoding := "utf-8"; art_size_bytes := str_len content; art_sha256 := sha256_hex content |} /\
  ws_read_bytes w' (art_path a) = Ok content /\
  w' = (ws_write_text_exclusive w (art_path a) content).2.
Proof.
  unfold persist_replayable_text_artifact.
  destruct (ws_write_text_exclusive w (artifact_path task_id tool_call_id content) content) as [[n|e] w1] eqn:Hw.
  - intros [= Ha <-]. destruct (n =? str_len content)%N eqn:Hn; [|done]. injection Ha as <-.
    apply N.eqb_eq in Hn. split_and!; [done|by eapply ws_write_read|cbn [art_path]; by rewrite Hw].
  - intros [= Ha <-]. destruct (String.eqb e already_exists); [|done].
    destruct (ws_read_bytes w1 (artifact_path task_id tool_call_id content)) as [bytes|] eqn:Hr; [|done].
    cbn in Ha. destruct (String.eqb_spec bytes content) as [->|]; [|done]. cbn in Ha.
    rewrite N.eqb_refl in Ha. injection Ha as <-. split_and!; [done|done|cbn [art_path]; by rewrite Hw].
Qed.
Lemma persist_keeps w task_id tool_call_id content q x :
  ws_read_bytes w q = Ok x ->
  ws_read_bytes (persist_replayable_text_artifact w task_id tool_call_id content).2 q = Ok x.
Proof.
  intros Hq. unfold persist_replayable_text_artifact.
  pose proof (ws_write_keeps w (artifact_path task_id tool_call_id content) content q x Hq) as Hk.
  by destruct (ws_write_text_exclusive w _ content).
Qed.
(** A stored artifact is read back when its reference is valid. *)
Lemma read_validated w task_id tool_call_id content a :
  a = {| art_path := artifact_path task_id tool_call_id content; art_media_type := "text/plain";
         art_encoding := "utf-8"; art_size_bytes := str_len content; art_sha256 := sha256_hex content |} ->
  ws_read_bytes w (art_path a) = Ok content ->
  read_validated_text_artifact w a
  = if (length (str_bytes (artifact_segment tool_call_id "call")) <=? 59)%nat then Ok content
    else Err invalid_input.
Proof.
  intros -> Hr. unfold read_validated_text_artifact, artifact_validate. cbn [art_path art_media_type
    art_encoding art_size_bytes art_sha256] in *. rewrite artifact_path_valid.
  destruct (_ <=? 59)%nat; [|done]. cbn [negb]. rewrite !String.eqb_refl. cbn [negb orb].
  assert (valid_sha256 (sha256_hex content) = true) as ->.
  { destruct (sha_bytes content) as [Hl Hb]. unfold valid_sha256. rewrite str_len_bytes, Hl. cbn [N.of_nat].
    apply andb_true_iff. split; [done|]. apply List.forallb_forall. intros b Hin%list_elem_of_In.
    rewrite Forall_forall in Hb. by apply Hb. }
  cbn [negb map_err]. rewrite Hr, N.eqb_refl, String.eqb_refl. done.
Qed.
End Persist.

(** *** Other writes *)

(** The operations that change an in-memory workspace. *)
Inductive workspace_step (w : MemoryWorkspaceBackend) : MemoryWorkspaceBackend -> Prop :=
| step_write path content append : workspace_step w (write_text w path content append).2
| step_write_exclusive path chunks : workspace_step w (write_text_chunks_exclusive w path chunks).2
| step_mkdir path : workspace_step w (mkdir w path).
Lemma step_keeps_artifact w w' path content :
  workspace_step w w' -> is_reserved_artifact_path path = true -> read_bytes w path = Ok content ->
  read_bytes w' path = Ok content.
Proof.
  intros Hstep Hres Hr. destruct Hstep as [p c append|p chunks|p]; [| |done].
  - unfold write_text. destruct (is_reserved_artifact_path p) eqn:Hp; [done|]. cbn.
    unfold read_bytes in *. cbn. rewrite map_get_insert.
    destruct (String.eqb_spec (normalize_workspace_path path) (normalize_workspace_path p)) as [Heq|]; [|done].
    unfold is_reserved_artifact_path in *. rewrite Heq in Hres. congruence.
  - unfold write_text_chunks_exclusive. destruct (exclusive_workspace_path p) as [key|]; [|done].
    destruct (all_chunks chunks) as [data|]; [|done]. destruct (_ || _) eqn:E; [done|].
    destruct (existsb _ _); [done|]. cbn. unfold read_bytes in *. cbn. rewrite map_get_insert.
    destruct (String.eqb_spec (normalize_workspace_path path) key) as [Heq|]; [|done].
    apply orb_false_iff in E as [Hf _]. unfold map_contains_key in Hf. apply ok_or_Ok in Hr.
    rewrite <- Heq, Hr in Hf. done.
Qed.

(** ** Globs *)

(** What a pattern means: [**/] is any number of leading directories, [**]
    anything, [*] anything within a directory, [?] one byte other than a
    slash. *)
Inductive Glob : list N -> list N -> Prop :=
| glob_end : Glob [] []
| glob_here rest path : Glob rest path -> Glob (42 :: 42 :: 47 :: rest)%N path
| glob_below rest dirs path : Glob rest path -> Glob (42 :: 42 :: 47 :: rest)%N (dirs ++ 47%N :: path)
| glob_deep rest skipped path :
    head rest <> Some 47%N -> Glob rest path -> Glob (42 :: 42 :: rest)%N (skipped ++ path)
| glob_star rest skipped path :
    head rest <> Some 42%N -> Forall (fun b => b <> 47%N) skipped -> Glob rest path ->
    Glob (42 :: rest)%N (skipped ++ path)
| glob_any rest b path : b <> 47%N -> Glob rest path -> Glob (63 :: rest)%N (b :: path)
| glob_literal rest b path :
    b <> 42%N -> b <> 63%N -> Glob rest path -> Glob (b :: rest) (b :: path).

Lemma elem_tails path tail : tail ∈ tails path <-> exists skipped, path = skipped ++ tail.
Proof.
  induction path as [|b path IH]; cbn; rewrite elem_of_cons.
  - split; [intros [->|?%not_elem_of_nil]; [by exists []|done]|]. intros ([|] & Heq); [left; by cbn in Heq|done].
  - rewrite IH. split.
    + intros [->|(sk & ->)]; [by exists []|]. by exists (b :: sk).
    + intros ([|x sk] & Heq); cbn in Heq; simplify_eq; [by left|right; by eexists].
Qed.
Lemma elem_tails_behind path tail :
  tail ∈ tails_behind_slash path <-> exists dirs, path = dirs ++ 47%N :: tail.
Proof.
  induction path as [|b path IH]; cbn.
  - split; [by intros ?%not_elem_of_nil|]. by intros ([|] & ?).
  - rewrite elem_of_app, IH. split.
    + intros [Hb|(dirs & ->)]; [|by exists (b :: dirs)]. destruct (N.eqb_spec b 47) as [->|];
        [|by apply not_elem_of_nil in Hb]. apply list_elem_of_singleton in Hb as ->. by exists [].
    + intros ([|x dirs] & Heq); cbn in Heq; simplify_eq; [|right; by eexists].
      left. by apply list_elem_of_singleton.
Qed.
Lemma elem_tails_in path tail :
  tail ∈ path :: tails_in_segment path <->
  exists skipped, path = skipped ++ tail /\ Forall (fun b => b <> 47%N) skipped.
Proof.
  induction path as [|b path IH]; cbn [tails_in_segment].
  - rewrite list_elem_of_singleton. split; [intros ->; by exists []|]. intros ([|] & Heq & _); [by cbn in Heq|done].
  - rewrite elem_of_cons. destruct (N.eqb_spec b 47) as [->|Hb].
    + split; [intros [->|?%not_elem_of_nil]; [by exists []|done]|].
      intros ([|x sk] & Heq & Hs); cbn in Heq; simplify_eq; [by left|]. by inversion Hs.
    + rewrite IH. split.
      * intros [->|(sk & -> & Hs)]; [by exists []|]. exists (b :: sk). split; [done|by constructor].
      * intros ([|x sk] & Heq & Hs); cbn in Heq; simplify_eq; [by left|]. inversion Hs; subst.
        right. by eexists.
Qed.

Lemma existsb_elem {A} (f : A -> bool) l : existsb f l = true <-> exists x, x ∈ l /\ f x = true.
Proof. rewrite List.existsb_exists. by setoid_rewrite list_elem_of_In. Qed.
Lemma bytes_prefix_spec prefix l : bytes_prefix prefix l = true <-> exists rest, l = prefix ++ rest.
Proof.
  revert l. induction prefix as [|a p IH]; intros l; cbn [bytes_prefix].
  { split; [by exists l|done]. }
  destruct l as [|b r]; [split; [done|by intros (? & ?)]|].
  rewrite andb_true_iff, N.eqb_eq, IH. cbn. split; [intros (-> & rest & ->); by exists rest|].
  intros (rest & [= -> ->]). split; [done|by exists rest].
Qed.
Lemma glob_fuel fuel path pattern :
  length pattern < fuel -> glob_match_bytes fuel path pattern = true <-> Glob pattern path.
Proof.
  revert path pattern. induction fuel as [|f IH]; intros path pattern Hf; [lia|].
  destruct pattern as [|c rest].
  { cbn. destruct path; split; try done; [constructor|inversion 1]. }
  cbn [glob_match_bytes]. destruct (bytes_prefix [42; 42; 47]%N (c :: rest)) eqn:Hd.
  { apply bytes_prefix_spec in Hd as (r & Heq). cbn [app] in Heq. injection Heq as -> ->. cbn [drop length] in *.
    rewrite orb_true_iff, existsb_elem, (IH path r) by lia. split.
    - intros [Hg|(tail & (dirs & ->)%elem_tails_behind & Hg)]; [by apply glob_here|].
      apply glob_below. by apply IH; [lia|].
    - inversion 1; subst; try done; [by left|].
      right. exists path0. rewrite elem_tails_behind, (IH path0 r) by lia. split; [by eexists|done]. }
  assert (Hnd : forall r, c :: rest = (42 :: 42 :: r)%N -> head r <> Some 47%N).
  { intros r Heq Hr. destruct r as [|x r]; [done|]. injection Hr as ->. rewrite Heq in Hd.
    apply not_true_iff_false in Hd. apply Hd, bytes_prefix_spec. by eexists. }
  clear Hd. destruct (bytes_prefix [42; 42]%N (c :: rest)) eqn:Hs.
  { apply bytes_prefix_spec in Hs as (r & Heq). cbn [app] in Heq. injection Heq as -> ->. cbn [drop length] in *.
    specialize (Hnd r eq_refl). rewrite existsb_elem. split.
    - intros (tail & (sk & ->)%elem_tails & Hg). apply glob_deep; [done|]. by apply IH; [lia|].
    - inversion 1; subst; try done. exists path0. rewrite elem_tails, (IH path0 r) by lia. split; [by eexists|done]. }
  assert (Hns : c = 42%N -> head rest <> Some 42%N).
  { intros -> Hr. destruct rest as [|x r]; [done|]. injection Hr as ->.
    apply not_true_iff_false in Hs. apply Hs, bytes_prefix_spec. by eexists. }
  clear Hs Hnd. cbn [length] in Hf. destruct (N.eqb_spec c 42) as [->|Hc].
  { assert (Hor : glob_match_bytes f path rest
                  || existsb (fun tail => glob_match_bytes f tail rest) (tails_in_segment path) = true
                  <-> exists tail, tail ∈ path :: tails_in_segment path /\ Glob rest tail).
    { rewrite orb_true_iff, existsb_elem. rewrite (IH path rest) by lia. split.
      - intros [Hg|(t & Ht & Hg)]; [exists path; split; [by left|done]|].
        exists t. split; [by right|]. by apply IH; [lia|].
      - intros (t & [->|Ht]%elem_of_cons & Hg); [by left|]. right. exists t. split; [done|].
        by apply IH; [lia|]. }
    rewrite Hor. specialize (Hns eq_refl). split.
    - intros (tail & (sk & -> & Hsk)%elem_tails_in & Hg). by apply glob_star.
    - inversion 1; subst; try done. exists path0. rewrite elem_tails_in. split; [by eexists|done]. }
  destruct path as [|b r]; [split; [done|by inversion 1]|]. rewrite andb_true_iff, (IH r rest) by lia.
  destruct (N.eqb_spec c 63) as [->|Hq].
  - rewrite negb_true_iff, N.eqb_neq. split; [intros []; by apply glob_any|by inversion 1].
  - rewrite N.eqb_eq. split; [intros [-> ?]; by apply glob_literal|]. by inversion 1.
Qed.

(** ** Properties *)

(** (C37) The globs mean what they should: a path matches a pattern exactly
    when the declarative semantics says so. *)
Theorem glob_match_spec path pattern :
  glob_match path pattern = true <-> Glob (str_bytes pattern) (str_bytes path).
Proof.
  unfold glob_match. apply glob_fuel. pose proof (str_len_bytes pattern) as Hl. unfold str_len in Hl. lia.
Qed.

(** (C36) An artifact is durable.  Whatever the ids of the task and the call
    are, its path is a normal path in the reserved directory; once it is
    persisted no write of the workspace changes it, so its complete content is
    read back after any sequence of operations.  Its reference passes its own
    validation, and the validating reader returns the content, exactly when
    the segment made from the call id has at most 59 bytes; a longer id makes
    a reference that every validating reader refuses. *)
Theorem artifact_durable `{DigestLaws} w w' w'' task_id tool_call_id content a :
  persist_replayable_text_artifact (w : ws) task_id tool_call_id content = (Ok a, w') ->
  rtc workspace_step w' w'' ->
  normalize_workspace_path (art_path a) = art_path a /\
  String.prefix ".vv-agent/artifacts/" (art_path a) = true /\
  read_bytes w'' (art_path a) = Ok content /\
  (if (length (str_bytes (artifact_segment tool_call_id "call")) <=? 59)%nat
   then artifact_validate a = Ok tt /\ read_validated_text_artifact (w'' : ws) a = Ok content
   else artifact_validate a = Err "artifact_path_invalid"
        /\ read_validated_text_artifact (w'' : ws) a = Err invalid_input).
Proof.
  intros Hp Hsteps. destruct (persist_spec _ _ _ _ _ _ Hp) as (Ha & Hr & _).
  destruct (artifact_path_normal task_id tool_call_id content) as [Hn Hres].
  assert (Hpath : art_path a = artifact_path task_id tool_call_id content) by (by rewrite Ha).
  assert (Hread : read_bytes w'' (art_path a) = Ok content).
  { revert Hsteps. apply (rtc_ind_r (fun x => read_bytes x (art_path a) = Ok content) w').
    - exact Hr.
    - intros x y _ Hstep IH. eapply step_keeps_artifact; [done| |done]. by rewrite Hpath. }
  pose proof (read_validated (w'' : ws) task_id tool_call_id content a Ha Hread) as Hv.
  rewrite Hpath in *. split_and!; [done| |done|].
  - unfold is_reserved_artifact_path in Hres. by rewrite Hn in Hres.
  - rewrite Hv. subst a. unfold artifact_validate. cbn [art_path art_media_type art_encoding art_sha256].
    rewrite artifact_path_valid. destruct (_ <=? 59)%nat; [|done]. split; [|done]. cbn [negb].
    assert (valid_sha256 (sha256_hex content) = true) as ->; [|done].
    destruct (sha_bytes content) as [Hl Hb]. unfold valid_sha256. rewrite str_len_bytes, Hl.
    apply andb_true_iff. split; [done|]. apply List.forallb_forall. intros b Hin%list_elem_of_In.
    rewrite Forall_forall in Hb. by apply Hb.
Qed.

(** ** Examples *)

Example paths_normalised :
  map normalize_workspace_path ["a/./b//c"; "../../etc/passwd"; "a\b\..\c"; ".vv-agent/x/../artifacts/y"]
  = ["a/b/c"; "etc/passwd"; "a/c"; ".vv-agent/artifacts/y"].
Proof. vm_compute. reflexivity. Qed.
Example globs :
  glob_match "src/a/b.rs" "**/*.rs" = true /\ glob_match "b.rs" "**/*.rs" = true /\
  glob_match "src/a/b.rs" "src/*.rs" = false /\ glob_match "src/a.rs" "src/?.rs" = true.
Proof. vm_compute. split_and!; reflexivity. Qed.
Example segments_made :
  map (fun s => artifact_segment s "call") ["../../etc"; "call 1//2"; "..."; "a.b-c_d"]
  = ["etc"; "call-1-2"; "call"; "a.b-c_d"].
Proof. vm_compute. reflexivity. Qed.

Definition sample_persisted : result ToolArtifactRef * MemoryWorkspaceBackend :=
  @persist_replayable_text_artifact toy_digest memory_backend memory_workspace_default "task" "call-1" "hello".
Definition sample_artifact (call : string) : ToolArtifactRef :=
  {| art_path := @artifact_path toy_digest "task" call "hello"; art_media_type := "text/plain";
     art_encoding := "utf-8"; art_size_bytes := 5; art_sha256 := @sha256_hex toy_digest "hello" |}.
(** An attempt to overwrite the artifact is refused. *)
Definition sample_later : MemoryWorkspaceBackend :=
  (write_text sample_persisted.2 (".vv-agent/./artifacts/" +:+ "task/x.txt") "other" false).2.
Lemma artifact_durable_witness :
  @read_validated_text_artifact toy_digest memory_backend sample_later (sample_artifact "call-1") = Ok "hello".
Proof.
  assert (Hp : sample_persisted = (Ok (sample_artifact "call-1"), sample_persisted.2)) by (vm_compute; reflexivity).
  assert (Hs : rtc workspace_step sample_persisted.2 sample_later)
    by (eapply rtc_l; [apply step_write|apply rtc_refl]).
  pose proof (@artifact_durable toy_digest toy_digest_laws memory_workspace_default _ _ _ _ _ _ Hp Hs)
    as (_ & _ & _ & Hv).
  exact (proj2 Hv).
Defined.
(** A call id of 60 letters: the artifact is written, its reference refused. *)
Definition long_call : string := "aaaaaaaaaabbbbbbbbbbccccccccccddddddddddeeeeeeeeeeffffffffff".
Example long_call_refused :
  (@persist_replayable_text_artifact toy_digest memory_backend memory_workspace_default "task" long_call "hello").1
  = Ok (sample_artifact long_call) /\
  artifact_validate (sample_artifact long_call) = Err "artifact_path_invalid".
Proof. vm_compute. split; reflexivity. Qed.
