(* ===== verification/MessageSanitizer.v ===== *)
(** * Messages before a resume

    [memory/message_sanitizer.rs]: the filters that make a transcript
    acceptable to a model again after an interruption.  [Paired] says what the
    model's protocol asks: every tool result stands directly behind the call
    it answers, in order, and every call has its result. *)

From Stdlib Require Import Ascii String NArith Lia.
From stdpp Require Import base strings list.
From S2P Require Import Prelude Json Canonical CheckpointTypes ToolResult Journal TokenUsage.
From S2P Require Import Budget BudgetWire Records Text.

(** ** Filters *)

Definition has_thinking_content (m : Message) : bool :=
  is_some_and (m_reasoning_content m) (fun text => negb (trim_is_empty text)).

Definition is_role (r : MessageRole) (m : Message) : bool := m_role m =?? r.
Definition has_calls (m : Message) : bool := match m_tool_calls m with [] => false | _ => true end.

(** An assistant message that says something. *)
Definition speaks (m : Message) : bool :=
  negb (is_role RAssistant m) || negb (trim_is_empty (m_content m)) || has_calls m
  || is_some_and (m_image_url m) (fun url => negb (str_is_empty url))
  || has_thinking_content m.
Definition filter_empty_assistant_messages (ms : list Message) : list Message := List.filter speaks ms.

Definition filter_thinking_only_messages (ms : list Message) : list Message :=
  List.filter (fun m => negb (is_role RAssistant m) || negb (has_thinking_content m)
                        || negb (trim_is_empty (m_content m)) || has_calls m) ms.

(** *** Tool turns *)

Definition call_key (c : ToolCall) : string := str_trim (tc_id c).
Definition result_key (m : Message) : string :=
  str_trim (match m_tool_call_id m with Some id => id | None => EmptyString end).
(** The entries with an id, under it. *)
Definition with_key {A} (key : A -> string) (l : list A) : list (string * A) :=
  omap (fun x => if str_is_empty (key x) then None else Some (key x, x)) l.
(** [BTreeMap::entry(id).or_default() += 1]. *)
Definition bump (counts : list (string * N)) (id : string) : list (string * N) :=
  map_insert id (unwrap_or (map_get id counts) 0 + 1)%N counts.
Definition id_counts (ids : list string) : list (string * N) := foldl bump [] ids.

(** The calls and results that answer each other, up to the first mismatch. *)
Fixpoint pair_up (call_counts result_counts : list (string * N)) (calls : list (string * ToolCall))
    (results : list (string * Message)) : list ToolCall * list Message :=
  match calls, results with
  | (call_id, call) :: calls', (result_id, r) :: results' =>
      if negb (String.eqb call_id result_id)
         || negb (map_get call_id call_counts =?? Some 1%N)
         || negb (map_get result_id result_counts =?? Some 1%N)
      then ([], [])
      else let '(paired_calls, paired_results) := pair_up call_counts result_counts calls' results' in
           (call :: paired_calls, r :: paired_results)
  | _, _ => ([], [])
  end.
Definition pair_turn (calls : list ToolCall) (results : list Message) : list ToolCall * list Message :=
  let ordered_calls := with_key call_key calls in
  let ordered_results := with_key result_key results in
  pair_up (id_counts (map fst ordered_calls)) (id_counts (map fst ordered_results))
    ordered_calls ordered_results.

Definition set_tool_calls (m : Message) (calls : list ToolCall) : Message :=
  {| m_role := m_role m; m_content := m_content m; m_name := m_name m;
     m_tool_call_id := m_tool_call_id m; m_tool_calls := calls;
     m_reasoning_content := m_reasoning_content m; m_image_url := m_image_url m;
     m_metadata := m_metadata m; m_artifact_ref := m_artifact_ref m |}.

(** The tool messages at the front, and what follows them. *)
Fixpoint span_tools (ms : list Message) : list Message * list Message :=
  match ms with
  | m :: r => if is_role RTool m
              then let '(tools, rest) := span_tools r in (m :: tools, rest) else ([], ms)
  | [] => ([], [])
  end.

(** One turn of the loop: what is kept of an assistant message with calls and
    of the results behind it. *)
Definition filter_turn (drop_orphan_results drop_unresolved_calls : bool) (m : Message)
    (tool_results : list Message) : list Message :=
  let '(paired_calls, paired_results) := pair_turn (m_tool_calls m) tool_results in
  let visible_calls := if drop_unresolved_calls then paired_calls else m_tool_calls m in
  (match visible_calls with [] => [] | _ => [set_tool_calls m visible_calls] end)
  ++ (if negb drop_orphan_results then tool_results
      else match paired_calls with [] => [] | _ => paired_results end).
Fixpoint filter_loop (drop_orphan_results drop_unresolved_calls : bool) (fuel : nat)
    (ms : list Message) : list Message :=
  match fuel, ms with
  | S f, m :: rest =>
      if is_role RTool m then
        (if negb drop_orphan_results then [m] else [])
        ++ filter_loop drop_orphan_results drop_unresolved_calls f rest
      else if negb (is_role RAssistant m) || negb (has_calls m) then
        m :: filter_loop drop_orphan_results drop_unresolved_calls f rest
      else
        let '(tool_results, rest) := span_tools rest in
        filter_turn drop_orphan_results drop_unresolved_calls m tool_results
        ++ filter_loop drop_orphan_results drop_unresolved_calls f rest
  | _, _ => []
  end.
(** The loop takes at least one message per turn, so their number is enough
    fuel ([filter_loop_fuel]). *)
Definition filter_tool_turns (ms : list Message) (drop_orphan_results drop_unresolved_calls : bool)
    : list Message :=
  filter_loop drop_orphan_results drop_unresolved_calls (length ms) ms.

Definition filter_orphan_tool_results (ms : list Message) : list Message :=
  filter_tool_turns ms true false.
Definition filter_unresolved_tool_uses (ms : list Message) : list Message :=
  filter_tool_turns ms false true.
Definition sanitize_for_resume (ms : list Message) : list Message :=
  let sanitized := filter_empty_assistant_messages ms in
  let sanitized := filter_orphan_tool_results sanitized in
  filter_unresolved_tool_uses sanitized.

(** ** The protocol *)

(** A message outside a tool turn. *)
Definition plain (m : Message) : bool :=
  negb (is_role RTool m) && (negb (is_role RAssistant m) || negb (has_calls m)).
(** Calls and the results that answer them. *)
Record Answered (calls : list ToolCall) (results : list Message) : Prop := {
  an_some : calls <> [];
  an_results : Forall (fun r => is_role RTool r = true) results;
  an_keys : map result_key results = map call_key calls;
  an_named : Forall (fun c => call_key c <> EmptyString) calls;
  an_once : NoDup (map call_key calls)
}.
Inductive Paired : list Message -> Prop :=
| paired_nil : Paired []
| paired_plain m ms : plain m = true -> Paired ms -> Paired (m :: ms)
| paired_turn m results ms :
    is_role RAssistant m = true -> Answered (m_tool_calls m) results -> Paired ms ->
    Paired (m :: results ++ ms).

(** ** Lemmas *)

Definition starts_tool (ms : list Message) : bool :=
  match ms with m :: _ => is_role RTool m | [] => false end.

Lemma span_tools_spec ms tools rest :
  span_tools ms = (tools, rest) ->
  ms = tools ++ rest /\ Forall (fun m => is_role RTool m = true) tools /\ starts_tool rest = false.
Proof.
  revert tools rest. induction ms as [|m r IH]; intros tools rest; cbn.
  { intros [= <- <-]. by split_and!. }
  destruct (is_role RTool m) eqn:Hm; [|intros [= <- <-]; by split_and!].
  destruct (span_tools r) as [t x]. intros [= <- <-]. destruct (IH t x eq_refl) as (-> & Ht & Hx).
  split_and!; [done| |done]. by constructor.
Qed.
Lemma span_tools_app tools rest :
  Forall (fun m => is_role RTool m = true) tools -> starts_tool rest = false ->
  span_tools (tools ++ rest) = (tools, rest).
Proof.
  induction 1 as [|m t Hm Ht IH]; intros Hr; cbn.
  - destruct rest as [|m r]; [done|]. cbn in *. by rewrite Hr.
  - by rewrite Hm, IH.
Qed.

(** The messages, turn by turn. *)
Inductive Turns : list Message -> Prop :=
| turns_nil : Turns []
| turns_tool m ms : is_role RTool m = true -> Turns ms -> Turns (m :: ms)
| turns_plain m ms : plain m = true -> Turns ms -> Turns (m :: ms)
| turns_turn m results ms :
    is_role RAssistant m = true -> has_calls m = true ->
    Forall (fun r => is_role RTool r = true) results -> starts_tool ms = false -> Turns ms ->
    Turns (m :: results ++ ms).
Lemma role_tool_assistant m : is_role RAssistant m = true -> is_role RTool m = false.
Proof. unfold is_role. by destruct (m_role m). Qed.
Lemma plain_or_turn m :
  is_role RTool m = false -> plain m = false -> is_role RAssistant m = true /\ has_calls m = true.
Proof. unfold plain. intros ->. cbn. destruct (is_role RAssistant m), (has_calls m); by cbn. Qed.
Lemma turns_all ms : Turns ms.
Proof.
  remember (length ms) as n eqn:Hn. revert ms Hn.
  induction n as [n IH] using (well_founded_induction lt_wf). intros [|m ms] Hn; [constructor|].
  cbn in Hn. destruct (is_role RTool m) eqn:Ht; [apply turns_tool; [done|]; eapply IH; [|done]; lia|].
  destruct (plain m) eqn:Hp; [apply turns_plain; [done|]; eapply IH; [|done]; lia|].
  destruct (plain_or_turn _ Ht Hp) as [Ha Hc]. destruct (span_tools ms) as [tools rest] eqn:Hs.
  destruct (span_tools_spec _ _ _ Hs) as (-> & Htools & Hrest). rewrite length_app in Hn.
  apply turns_turn; [done..|]. eapply IH; [|done]. lia.
Qed.

Section Loop.
Variables (d u : bool).
Lemma filter_loop_fuel ms : forall f, length ms <= f -> filter_loop d u f ms = filter_tool_turns ms d u.
Proof.
  unfold filter_tool_turns. remember (length ms) as n eqn:Hn. revert ms Hn.
  induction n as [n IH] using (well_founded_induction lt_wf). intros [|m ms] Hn f Hf.
  { destruct f; by subst n. }
  cbn in Hn. subst n. destruct f as [|f]; [lia|]. cbn.
  destruct (is_role RTool m); [by rewrite (IH (length ms) ltac:(lia) ms) by (done || lia)|].
  destruct (negb _ || negb _); [by rewrite (IH (length ms) ltac:(lia) ms) by (done || lia)|].
  destruct (span_tools ms) as [tools rest] eqn:Hs. apply span_tools_spec in Hs as (-> & _ & _).
  rewrite length_app in *. f_equal. rewrite (IH (length rest) ltac:(lia) rest) by (done || lia).
  symmetry. apply (IH (length rest)); [lia|done|lia].
Qed.
Lemma filter_tool m ms :
  is_role RTool m = true ->
  filter_tool_turns (m :: ms) d u = (if negb d then [m] else []) ++ filter_tool_turns ms d u.
Proof. unfold filter_tool_turns. cbn. by intros ->. Qed.
Lemma filter_plain m ms :
  plain m = true -> filter_tool_turns (m :: ms) d u = m :: filter_tool_turns ms d u.
Proof.
  unfold plain, filter_tool_turns. intros [Ht Hp]%andb_true_iff. cbn.
  rewrite (negb_true_iff _) in Ht. by rewrite Ht, Hp.
Qed.
Lemma filter_turns m results ms :
  is_role RAssistant m = true -> has_calls m = true ->
  Forall (fun r => is_role RTool r = true) results -> starts_tool ms = false ->
  filter_tool_turns (m :: results ++ ms) d u
  = filter_turn d u m results ++ filter_tool_turns ms d u.
Proof.
  intros Ha Hc Hr Hs. unfold filter_tool_turns at 1. cbn. rewrite (role_tool_assistant _ Ha), Ha, Hc. cbn.
  rewrite span_tools_app by done. f_equal. apply filter_loop_fuel. rewrite length_app. lia.
Qed.
End Loop.

(** *** Pairing *)

Definition occ (k : string) (ids : list string) : nat := length (List.filter (String.eqb k) ids).
Lemma occ_app k a b : occ k (a ++ b) = occ k a + occ k b.
Proof. unfold occ. by rewrite List.filter_app, length_app. Qed.
Lemma occ_In k ids : 0 < occ k ids <-> k ∈ ids.
Proof.
  induction ids as [|i ids IH]; [split; [cbn; lia|by intros ?%not_elem_of_nil]|].
  unfold occ in *. cbn. rewrite elem_of_cons. destruct (String.eqb_spec k i) as [->|Hne]; cbn.
  - split; [by left|lia].
  - rewrite IH. split; [by right|by intros [?|?]].
Qed.
Lemma occ_NoDup ids : NoDup ids <-> forall k, k ∈ ids -> occ k ids = 1.
Proof.
  induction ids as [|i ids IH].
  { split; [by intros _ k ?%not_elem_of_nil|constructor]. }
  rewrite NoDup_cons. unfold occ in *. cbn. split.
  - intros [Hi Hnd] k [->|Hk]%elem_of_cons.
    + rewrite String.eqb_refl. cbn. f_equal. pose proof (occ_In i ids) as Ho. unfold occ in Ho.
      destruct (length (List.filter (String.eqb i) ids)); [done|]. destruct Hi. apply Ho. lia.
    + destruct (String.eqb_spec k i) as [->|]; [done|]. by apply IH.
  - intros Ho. split.
    + intros Hi. specialize (Ho i ltac:(by left)). rewrite String.eqb_refl in Ho. cbn in Ho.
      apply occ_In in Hi. unfold occ in Hi. lia.
    + apply IH. intros k Hk. specialize (Ho k ltac:(by right)).
      destruct (String.eqb k i); cbn in Ho; [|done]. apply occ_In in Hk. unfold occ in Hk. lia.
Qed.
Lemma id_counts_get k ids :
  map_get k (id_counts ids) = match occ k ids with O => None | n => Some (N.of_nat n) end.
Proof.
  induction ids as [|i ids IH] using rev_ind; [done|].
  unfold id_counts in *. rewrite foldl_app. cbn. unfold bump at 1. rewrite map_get_insert, occ_app.
  unfold occ at 2. cbn. destruct (String.eqb_spec k i) as [->|Hne]; cbn.
  - rewrite IH. replace (occ i ids + 1) with (S (occ i ids)) by lia.
    destruct (occ i ids); cbn [unwrap_or]; f_equal; lia.
  - by rewrite Nat.add_0_r.
Qed.
Lemma id_count_one k ids : bool_decide (map_get k (id_counts ids) = Some 1%N) = (occ k ids =? 1).
Proof.
  rewrite id_counts_get. destruct (occ k ids) as [|[|n]]; [done..|]. apply bool_decide_eq_false_2.
  intros [= ?]. lia.
Qed.

(** The longest prefix of calls and results with the same ids, each once. *)
Lemma pair_up_spec ids_c ids_r calls results pc pr :
  pair_up (id_counts ids_c) (id_counts ids_r) calls results = (pc, pr) ->
  exists n, pc = map snd (take n calls) /\ pr = map snd (take n results) /\
    map fst (take n calls) = map fst (take n results) /\
    Forall (fun k => occ k ids_c = 1 /\ occ k ids_r = 1) (map fst (take n calls)).
Proof.
  revert results pc pr. induction calls as [|[k c] calls IH]; intros results pc pr; cbn.
  { intros [= <- <-]. exists 0. by split_and!. }
  destruct results as [|[k' r] results]; [intros [= <- <-]; exists 0; by split_and!|].
  destruct (negb _ || _ || _) eqn:E; [intros [= <- <-]; exists 0; by split_and!|].
  rewrite !orb_false_iff, !negb_false_iff in E. destruct E as [[Hk Hc] Hr].
  apply String.eqb_eq in Hk as <-. rewrite id_count_one in Hc, Hr. apply Nat.eqb_eq in Hc, Hr.
  destruct (pair_up _ _ calls results) as [pc' pr'] eqn:Hp. intros [= <- <-].
  destruct (IH _ _ _ Hp) as (n & -> & -> & Hf & Hall). exists (S n). cbn. rewrite Hf.
  split_and!; [done..|]. constructor; [done|]. by rewrite <- Hf.
Qed.
Lemma pair_up_all ids_c ids_r calls results :
  map fst calls = map fst results ->
  Forall (fun k => occ k ids_c = 1 /\ occ k ids_r = 1) (map fst calls) ->
  forall more, pair_up (id_counts ids_c) (id_counts ids_r) (calls ++ more) results = (map snd calls, map snd results).
Proof.
  revert results. induction calls as [|[k c] calls IH]; intros [|[k' r] results]; cbn; try discriminate.
  { intros _ _ [|[??] ?]; done. }
  intros [= <- Hf] [[Hc Hr] Hall]%Forall_cons more. rewrite !id_count_one, Hc, Hr, String.eqb_refl. cbn.
  by rewrite IH.
Qed.

Lemma with_key_app {A} (key : A -> string) a b : with_key key (a ++ b) = with_key key a ++ with_key key b.
Proof. apply omap_app. Qed.
Lemma with_key_fst {A} (key : A -> string) l :
  Forall (fun x => x.1 = key x.2 /\ x.1 <> EmptyString) (with_key key l).
Proof.
  apply Forall_forall. intros [k x] (y & _ & Hy)%list_elem_of_omap.
  destruct (key y) eqn:E; cbn in Hy; [done|]. injection Hy as <- <-. by cbn.
Qed.
Lemma with_key_all {A} (key : A -> string) l :
  Forall (fun x => key x <> EmptyString) l -> with_key key l = map (fun x => (key x, x)) l.
Proof.
  unfold with_key. induction 1 as [|x l Hx _ IH]; cbn; [done|]. destruct (key x) eqn:E; [done|]. cbn.
  f_equal. exact IH.
Qed.
(** A list of keyed entries, keyed again. *)
Lemma with_key_again {A} (key : A -> string) l :
  Forall (fun x => x.1 = key x.2 /\ x.1 <> EmptyString) l -> with_key key (map snd l) = l.
Proof.
  unfold with_key. induction 1 as [|[k x] l [Hx Hn] _ IH]; cbn in *; [done|]. subst k.
  destruct (key x) eqn:E; [done|]. cbn. f_equal. exact IH.
Qed.

Lemma pair_turn_spec calls results pc pr :
  Forall (fun r => is_role RTool r = true) results -> pair_turn calls results = (pc, pr) ->
  pair_turn calls pr = (pc, pr) /\ (pc = [] /\ pr = [] \/ Answered pc pr).
Proof.
  unfold pair_turn. set (oc := with_key call_key calls). set (orr := with_key result_key results).
  intros Hr Hp. destruct (pair_up_spec _ _ _ _ _ _ Hp) as (n & -> & -> & Hf & Hall).
  pose proof (with_key_fst call_key calls) as Hkc. pose proof (with_key_fst result_key results) as Hkr.
  fold oc in Hkc. fold orr in Hkr.
  assert (Hkc' := Forall_take _ n _ Hkc). assert (Hkr' := Forall_take _ n _ Hkr).
  assert (Hnd : NoDup (map fst (take n oc))).
  { apply occ_NoDup. intros k Hk. rewrite Forall_forall in Hall. destruct (Hall k Hk) as [Hc _].
    rewrite <- (take_drop n oc), map_app, occ_app in Hc. apply occ_In in Hk. lia. }
  split.
  - rewrite with_key_again by done. rewrite <- (take_drop n oc) at 2. apply pair_up_all; [done|].
    apply Forall_forall. intros k Hk. rewrite Forall_forall in Hall.
    split; [by apply Hall|]. rewrite <- Hf. by apply occ_NoDup.
  - destruct (map snd (take n oc)) as [|c pc] eqn:Hpc.
    { left. split; [done|]. destruct (take n oc); [|done]. by destruct (take n orr). }
    right. rewrite <- Hpc. split; [by rewrite Hpc| | | |].
    + apply Forall_forall. intros r ([k x] & -> & Hin)%list_elem_of_fmap.
      apply elem_of_take in Hin as (i & Hi & _). apply list_elem_of_lookup_2 in Hi.
      apply list_elem_of_omap in Hi as (y & Hy & Hyx). case_match; [done|]. injection Hyx as _ <-.
      rewrite Forall_forall in Hr. by apply Hr.
    + rewrite !map_map. rewrite <- (map_ext_Forall fst (fun x => call_key x.2)),
        <- (map_ext_Forall fst (fun x => result_key x.2)); [done| |].
      all: eapply Forall_impl; [done|]; by intros [??] [??].
    + apply Forall_map. eapply Forall_impl; [exact Hkc'|]. cbn. intros [k x] [Hk Hn]. cbn in *. congruence.
    + rewrite map_map. rewrite <- (map_ext_Forall fst (fun x => call_key x.2)); [done|].
      eapply Forall_impl; [done|]. by intros [??] [??].
Qed.
Lemma pair_turn_answered calls results : Answered calls results -> pair_turn calls results = (calls, results).
Proof.
  intros [_ _ Hk Hn Hnd]. unfold pair_turn. rewrite (with_key_all call_key) by done.
  rewrite (with_key_all result_key); cycle 1.
  { apply Forall_map with (f := result_key) (P := fun k => k <> EmptyString). rewrite Hk. by apply Forall_map. }
  assert (Hfst : forall (A : Type) (key : A -> string) l, map fst (map (fun x => (key x, x)) l) = map key l).
  { intros A key l. by rewrite map_map. }
  assert (Hsnd : forall (A : Type) (key : A -> string) l, map snd (map (fun x => (key x, x)) l) = l).
  { intros A key l. rewrite map_map. apply map_id. }
  rewrite !Hfst. rewrite <- (app_nil_r (map (fun x => (call_key x, x)) calls)).
  rewrite pair_up_all; rewrite ?Hsnd, ?Hfst; [done|done|].
  apply Forall_forall. intros k Hin. rewrite Hk. split; by apply occ_NoDup.
Qed.

(** *** The two passes *)

Lemma set_tool_calls_same m : set_tool_calls m (m_tool_calls m) = m.
Proof. by destruct m. Qed.
Lemma orphan_starts ms : starts_tool (filter_tool_turns ms true false) = false.
Proof.
  induction (turns_all ms) as [|m ms Ht _ IH|m ms Hp _ IH|m rs ms Ha Hc Hr Hs _ IH]; [done| | |].
  - by rewrite filter_tool.
  - rewrite filter_plain by done. cbn. unfold plain in Hp. by destruct (is_role RTool m).
  - rewrite filter_turns by done. unfold filter_turn. destruct (pair_turn _ _).
    unfold has_calls in Hc. destruct (m_tool_calls m) eqn:E; [done|]. rewrite <- E, set_tool_calls_same.
    cbn. by apply role_tool_assistant.
Qed.

(** What a turn leaves: nothing, or the calls that were answered. *)
Definition kept_turn (m : Message) (results : list Message) : list Message :=
  let '(pc, pr) := pair_turn (m_tool_calls m) results in
  match pc with [] => [] | _ => set_tool_calls m pc :: pr end.
Lemma two_passes m rs ms :
  is_role RAssistant m = true -> has_calls m = true ->
  Forall (fun r => is_role RTool r = true) rs -> starts_tool ms = false ->
  filter_unresolved_tool_uses (filter_orphan_tool_results (m :: rs ++ ms))
  = kept_turn m rs ++ filter_unresolved_tool_uses (filter_orphan_tool_results ms).
Proof.
  intros Ha Hc Hr Hs. unfold filter_unresolved_tool_uses, filter_orphan_tool_results, kept_turn.
  rewrite filter_turns by done. unfold filter_turn. destruct (pair_turn (m_tool_calls m) rs) as [pc pr] eqn:Hp.
  destruct (pair_turn_spec _ _ _ _ Hr Hp) as [Hagain Hpc].
  assert (Hmid : (match m_tool_calls m with [] => [] | _ => [set_tool_calls m (m_tool_calls m)] end)
    ++ (if negb true then rs else match pc with [] => [] | _ => pr end) = m :: pr).
  { unfold has_calls in Hc. destruct (m_tool_calls m) eqn:E; [done|]. rewrite <- E, set_tool_calls_same.
    cbn. destruct Hpc as [[-> ->]|Han]; [done|]. by destruct pc; [destruct (an_some _ _ Han)|]. }
  rewrite Hmid. rewrite <- app_comm_cons. rewrite filter_turns; [|done..| |apply orphan_starts].
  - unfold filter_turn. rewrite Hagain. cbn. destruct Hpc as [[-> ->]|Han]; [done|].
    by destruct pc; [destruct (an_some _ _ Han)|].
  - destruct Hpc as [[_ ->]|Han]; [done|]. apply (an_results _ _ Han).
Qed.
Definition resumable (ms : list Message) : list Message :=
  filter_unresolved_tool_uses (filter_orphan_tool_results ms).

Lemma kept_turn_paired m rs ms :
  is_role RAssistant m = true -> Forall (fun r => is_role RTool r = true) rs -> Paired ms ->
  Paired (kept_turn m rs ++ ms).
Proof.
  intros Ha Hr Hms. unfold kept_turn. destruct (pair_turn _ _) as [pc pr] eqn:Hp.
  destruct (pair_turn_spec _ _ _ _ Hr Hp) as [_ Hpc]. destruct pc as [|c pc]; [done|].
  destruct Hpc as [[? _]|Han]; [done|]. by apply (paired_turn (set_tool_calls m (c :: pc))).
Qed.
Lemma resumable_paired ms : Paired (resumable ms).
Proof.
  unfold resumable.
  induction (turns_all ms) as [|m ms Ht _ IH|m ms Hp _ IH|m rs ms Ha Hc Hr Hs _ IH]; [constructor| | |].
  - unfold filter_orphan_tool_results. by rewrite filter_tool.
  - unfold filter_orphan_tool_results, filter_unresolved_tool_uses. rewrite !filter_plain by done.
    by apply paired_plain.
  - rewrite two_passes by done. by apply kept_turn_paired.
Qed.
Lemma paired_starts ms : Paired ms -> starts_tool ms = false.
Proof.
  destruct 1 as [|m ms Hp|m rs ms Ha]; [done| |].
  - cbn. unfold plain in Hp. by destruct (is_role RTool m).
  - cbn. by apply role_tool_assistant.
Qed.
Lemma resumable_id ms : Paired ms -> resumable ms = ms.
Proof.
  unfold resumable. induction 1 as [|m ms Hp _ IH|m rs ms Ha Han Hms IH]; [done| |].
  - unfold filter_orphan_tool_results, filter_unresolved_tool_uses in *. rewrite !filter_plain by done.
    by rewrite IH.
  - assert (Hc : has_calls m = true).
    { unfold has_calls. destruct (m_tool_calls m); [|done]. by destruct (an_some _ _ Han). }
    rewrite two_passes; [|done|done|apply (an_results _ _ Han)|by apply paired_starts].
    rewrite IH. unfold kept_turn. rewrite (pair_turn_answered _ _ Han).
    unfold has_calls in Hc. destruct (m_tool_calls m) eqn:E; [done|]. by rewrite <- E, set_tool_calls_same.
Qed.

Lemma calls_speak m : has_calls m = true -> speaks m = true.
Proof. unfold speaks. intros ->. by rewrite orb_true_r. Qed.
Lemma tools_speak rs : Forall (fun r => is_role RTool r = true) rs -> Forall (fun m => speaks m = true) rs.
Proof.
  intros Hr. eapply Forall_impl; [exact Hr|]. intros r Ht. unfold speaks.
  assert (is_role RAssistant r = false) as -> by (unfold is_role in *; by destruct (m_role r)). done.
Qed.
Lemma kept_turn_speaks m rs :
  Forall (fun r => is_role RTool r = true) rs -> Forall (fun m => speaks m = true) (kept_turn m rs).
Proof.
  intros Hr. unfold kept_turn. destruct (pair_turn _ _) as [pc pr] eqn:Hp.
  destruct (pair_turn_spec _ _ _ _ Hr Hp) as [_ Hpc]. destruct pc as [|c pc]; [done|].
  destruct Hpc as [[? _]|Han]; [done|]. constructor; [by apply calls_speak|].
  apply tools_speak, (an_results _ _ Han).
Qed.
Lemma resumable_speaks ms :
  Forall (fun m => speaks m = true) ms -> Forall (fun m => speaks m = true) (resumable ms).
Proof.
  unfold resumable.
  induction (turns_all ms) as [|m ms Ht _ IH|m ms Hp _ IH|m rs ms Ha Hc Hr Hs _ IH]; intros Hms; [done| | |].
  - unfold filter_orphan_tool_results. rewrite filter_tool by done. by apply IH; inversion Hms.
  - unfold filter_orphan_tool_results, filter_unresolved_tool_uses. rewrite !filter_plain by done.
    inversion Hms; subst. constructor; [done|]. by apply IH.
  - rewrite two_passes by done. apply Forall_cons in Hms as [_ [_ Hms]%Forall_app].
    apply Forall_app. split; [by apply kept_turn_speaks|by apply IH].
Qed.
Lemma plain_tools rs : Forall (fun r => is_role RTool r = true) rs -> List.filter plain rs = [].
Proof. induction 1 as [|r rs Hr _ IH]; [done|]. cbn. unfold plain at 1. by rewrite Hr. Qed.
Lemma plain_turn m : is_role RAssistant m = true -> has_calls m = true -> plain m = false.
Proof. unfold plain. intros -> ->. by rewrite andb_false_r. Qed.
Lemma kept_turn_plain m rs :
  is_role RAssistant m = true -> Forall (fun r => is_role RTool r = true) rs ->
  List.filter plain (kept_turn m rs) = [].
Proof.
  intros Ha Hr. unfold kept_turn. destruct (pair_turn _ _) as [pc pr] eqn:Hp.
  destruct (pair_turn_spec _ _ _ _ Hr Hp) as [_ Hpc]. destruct pc as [|c pc]; [done|].
  destruct Hpc as [[? _]|Han]; [done|]. cbn [List.filter].
  rewrite (plain_turn (set_tool_calls m (c :: pc))) by done. apply plain_tools, (an_results _ _ Han).
Qed.
Lemma resumable_plain ms : List.filter plain (resumable ms) = List.filter plain ms.
Proof.
  unfold resumable.
  induction (turns_all ms) as [|m ms Ht _ IH|m ms Hp _ IH|m rs ms Ha Hc Hr Hs _ IH]; [done| | |].
  - unfold filter_orphan_tool_results. rewrite filter_tool by done. cbn. unfold plain at 2. rewrite Ht.
    apply IH.
  - unfold filter_orphan_tool_results, filter_unresolved_tool_uses in *. rewrite !filter_plain by done.
    cbn. rewrite Hp. by f_equal.
  - rewrite two_passes by done. cbn [List.filter]. rewrite (plain_turn m), !List.filter_app by done.
    rewrite kept_turn_plain by done. rewrite (plain_tools rs) by done. apply IH.
Qed.

(** ** Properties *)

(** (C34) A sanitized transcript is one a model accepts: every tool result
    stands behind the call it answers, in order and with ids that occur once,
    every call has its result, and no assistant message is empty.  A
    transcript that is like that already is left alone, so sanitizing twice is
    sanitizing once; messages outside tool turns are never dropped, changed or
    reordered, except the empty ones. *)
Theorem sanitized_resumable ms :
  Paired (sanitize_for_resume ms) /\
  Forall (fun m => speaks m = true) (sanitize_for_resume ms) /\
  (Paired ms -> Forall (fun m => speaks m = true) ms -> sanitize_for_resume ms = ms) /\
  sanitize_for_resume (sanitize_for_resume ms) = sanitize_for_resume ms /\
  List.filter plain (sanitize_for_resume ms) = List.filter plain (filter_empty_assistant_messages ms).
Proof.
  assert (Hf : Forall (fun m => speaks m = true) (filter_empty_assistant_messages ms)).
  { apply Forall_forall. intros m Hm%list_elem_of_In%List.filter_In. apply Hm. }
  assert (Hkeep : forall l, Paired l -> Forall (fun m => speaks m = true) l -> sanitize_for_resume l = l).
  { intros l Hl Hs. unfold sanitize_for_resume, filter_empty_assistant_messages.
    rewrite (List.forallb_filter_id _ _); [by apply resumable_id|].
    apply List.forallb_forall. intros x Hx%list_elem_of_In. rewrite Forall_forall in Hs. by apply Hs. }
  pose proof (resumable_paired (filter_empty_assistant_messages ms)) as Hp.
  pose proof (resumable_speaks _ Hf) as Hs.
  split_and!; [exact Hp|exact Hs|apply Hkeep|by apply Hkeep|apply resumable_plain].
Qed.

(** An interrupted transcript: an orphan result, an unanswered call, an empty
    answer. *)
Definition sample_tool_call (id : string) : ToolCall :=
  {| tc_id := id; tc_name := "bash"; tc_arguments := []; tc_extra_content := None |}.
Definition sample_turn (content : string) (ids : list string) : Message :=
  set_tool_calls (message_new RAssistant content) (map sample_tool_call ids).
Example sanitize_sample :
  sanitize_for_resume
    [message_user "hello"; message_tool "late" "call-0"; sample_turn "work" ["call-1"; "call-2"];
     message_tool "done" " call-1 "; message_new RAssistant " "; sample_turn "more" ["call-3"]]
  = [message_user "hello"; sample_turn "work" ["call-1"]; message_tool "done" " call-1 "].
Proof. vm_compute. reflexivity. Qed.
Definition sample_transcript : list Message :=
  [message_user "hello"; sample_turn "work" ["call-1"]; message_tool "done" " call-1 "].
Lemma sanitized_resumable_witness : sanitize_for_resume sample_transcript = sample_transcript.
Proof.
  destruct (sanitized_resumable sample_transcript) as (_ & _ & Hkeep & _). apply Hkeep.
  - apply paired_plain; [reflexivity|].
    apply (paired_turn (sample_turn "work" ["call-1"]) [message_tool "done" " call-1 "] []);
      [reflexivity| |constructor].
    split; [discriminate|repeat constructor|reflexivity|constructor; [discriminate|constructor]|].
    apply (bool_decide_eq_true_1 _). vm_compute. reflexivity.
  - repeat constructor.
Defined.
