(* ===== verification/SessionMemory.v ===== *)
(** * Session memory

    [memory/session]: the durable facts extracted from a conversation, kept
    within a token budget, with the token estimates of
    [memory/token_utils.rs].  The extraction callback stands for the model; its
    prompt is a function of the new messages and is left to it.  The storage is
    the state that was last written; file names and file errors are not
    modelled. *)

From Stdlib Require Import Ascii String NArith ZArith Lia.
From stdpp Require Import base strings list sets relations.
From S2P Require Import Prelude Json Canonical CheckpointTypes ToolResult Journal TokenUsage.
From S2P Require Import Budget BudgetWire Records ResultCodec ToolPolicy Settings Prompt Text.
From S2P Require Import MessageSanitizer.

(** ** Token estimates *)

(** [vv_llm::utilities::count_tokens], a count or an error. *)
Class Tokenizer := { vv_count_tokens : string -> string -> option N }.

Definition is_cjk (c : N) : bool :=
  ((19968 <=? c) && (c <=? 40959) || (12288 <=? c) && (c <=? 12351) || (65280 <=? c) && (c <=? 65519))%N.
Definition f64_three_halves : f64 := 4609434218613702656%Z.
Definition f64_quarter : f64 := 4598175219545276416%Z.
Definition estimate_tokens (text : string) : N :=
  if str_is_empty text then 0%N
  else
    let points := map code_point (bytes_chars (str_bytes text)) in
    let cjk_chars := N.of_nat (length (List.filter is_cjk points)) in
    let other_chars := N.of_nat (length (List.filter (fun c => negb (is_cjk c)) points)) in
    N.max 1 (f64_floor_u64 (f64_add (f64_mul (f64_of_N cjk_chars) f64_three_halves)
                              (f64_mul (f64_of_N other_chars) f64_quarter))).

Definition default_image_tokens (model : string) : N :=
  if starts_with "moonshot" (to_ascii_lowercase model) then 1024%N else 765%N.
Section Count.
Context `{Tokenizer}.
Definition count_tokens (text model : string) : N :=
  if str_is_empty text then 0%N
  else match vv_count_tokens text model with
       | Some count => if (0 <? count)%N then count else estimate_tokens text
       | None => estimate_tokens text
       end.
Definition count_messages_tokens (messages : list Message) (model : string) : N :=
  match messages with
  | [] => 0%N
  | _ =>
      let combined_text := join newline (map m_content messages) in
      let text_tokens := if str_is_empty combined_text then 0%N else count_tokens combined_text model in
      let image_count :=
        N.of_nat (length (List.filter (fun m => is_some (m_image_url m)) messages)) in
      (text_tokens + image_count * default_image_tokens model)%N
  end.
End Count.

Definition compute_compaction_threshold (configured_threshold model_context_window
    reserved_output_tokens autocompact_buffer_tokens : N) : N :=
  let derived :=
    if (0 <? model_context_window)%N
    then (model_context_window - reserved_output_tokens - autocompact_buffer_tokens)%N else 0%N in
  if (0 <? configured_threshold)%N then N.min configured_threshold derived else derived.

(** ** Entries *)

Definition SESSION_MEMORY_CATEGORIES : list string :=
  ["user_intent"; "decision"; "file_change"; "error_fix"; "key_fact"].
Record SessionMemoryEntry := {
  se_category : string;
  se_content : string;
  se_source_cycle : Z;
  se_importance : N
}.
#[global] Instance SessionMemoryEntry_eq_dec : EqDecision SessionMemoryEntry.
Proof. solve_decision. Defined.

Definition normalize_category (category : string) : string :=
  let category := to_ascii_lowercase (str_trim category) in
  if contains SESSION_MEMORY_CATEGORIES category then category else "key_fact".
Definition entry_new (category content : string) (source_cycle : Z) (importance : N)
    : SessionMemoryEntry :=
  {| se_category := normalize_category category; se_content := str_trim content;
     se_source_cycle := source_cycle; se_importance := N.min 10 (N.max 1 importance) |}.
Definition entry_key (e : SessionMemoryEntry) : string * string :=
  (se_category e, to_ascii_lowercase (join " " (split_whitespace (se_content e)))).

(** ** State *)

Record SessionMemoryState := {
  ss_entries : list SessionMemoryEntry;
  ss_last_extracted_message_index : Z;
  ss_tokens_at_last_extraction : N;
  ss_initialized : bool
}.
Definition session_state_default : SessionMemoryState :=
  {| ss_entries := []; ss_last_extracted_message_index := -1; ss_tokens_at_last_extraction := 0;
     ss_initialized := false |}.
Record SessionMemoryConfig := {
  sc_min_tokens_before_extraction : N;
  sc_max_tokens : N;
  sc_min_text_messages : N;
  sc_growth_ratio : f64;
  sc_extraction_callback : option (list Message -> option string)
}.
Record SessionMemory := {
  sm_config : SessionMemoryConfig;
  sm_state : SessionMemoryState;
  sm_has_storage : bool;
  sm_stored : option SessionMemoryState
}.
Definition session_memory_new (config : SessionMemoryConfig) (has_storage : bool) : SessionMemory :=
  {| sm_config := config; sm_state := session_state_default; sm_has_storage := has_storage;
     sm_stored := None |}.
Definition set_state (m : SessionMemory) (s : SessionMemoryState) : SessionMemory :=
  {| sm_config := sm_config m; sm_state := s; sm_has_storage := sm_has_storage m;
     sm_stored := sm_stored m |}.
Definition set_entries (m : SessionMemory) (l : list SessionMemoryEntry) : SessionMemory :=
  let s := sm_state m in
  set_state m
    {| ss_entries := l; ss_last_extracted_message_index := ss_last_extracted_message_index s;
       ss_tokens_at_last_extraction := ss_tokens_at_last_extraction s;
       ss_initialized := ss_initialized s |}.
Definition entries_of (m : SessionMemory) : list SessionMemoryEntry := ss_entries (sm_state m).

Definition save (m : SessionMemory) : SessionMemory :=
  if sm_has_storage m
  then {| sm_config := sm_config m; sm_state := sm_state m; sm_has_storage := true;
          sm_stored := Some (sm_state m) |}
  else m.
Definition load (m : SessionMemory) : SessionMemory :=
  if sm_has_storage m then match sm_stored m with Some s => set_state m s | None => m end else m.

(** ** When to extract *)

Definition should_extract_with_runtime_callback (m : SessionMemory) (current_tokens message_count : N)
    : bool :=
  let c := sm_config m in let s := sm_state m in
  if (current_tokens =? 0)%N || (message_count =? 0)%N then false
  else if negb (ss_initialized s)
  then (sc_min_tokens_before_extraction c <=? current_tokens)%N
       && (sc_min_text_messages c <=? message_count)%N
  else
    let growth_threshold :=
      N.max 1 (f64_floor_u64 (f64_mul (f64_of_N (sc_min_tokens_before_extraction c)) (sc_growth_ratio c))) in
    let growth :=
      if (ss_tokens_at_last_extraction s <=? current_tokens)%N
      then (current_tokens - ss_tokens_at_last_extraction s)%N else current_tokens in
    (growth_threshold <=? growth)%N.
Definition should_extract (m : SessionMemory) (current_tokens message_count : N) : bool :=
  is_some (sc_extraction_callback (sm_config m))
  && should_extract_with_runtime_callback m current_tokens message_count.

(** ** Reading the answer *)

Inductive SessionMemoryOutputInvalidReason := EmptyOutput | JsonArrayMissing | NoValidEntries.

(** The array that starts at the first bracket; [depth], [in_string] and
    [escaped] are those of the loop. *)
Fixpoint array_end (s : list N) (depth : Z) (in_string escaped : bool) : option (list N) :=
  match s with
  | [] => None
  | b :: r =>
      let next d i e := (cons b) <$> array_end r d i e in
      if escaped then next depth in_string false
      else if (b =? 92)%N && in_string then next depth in_string true
      else if (b =? 34)%N then next depth (negb in_string) false
      else if (b =? 91)%N && negb in_string then next (depth + 1)%Z in_string false
      else if (b =? 93)%N && negb in_string then
        (if (depth - 1 =? 0)%Z then Some [b] else next (depth - 1)%Z in_string false)
      else next depth in_string false
  end.
Fixpoint drop_until (b : N) (s : list N) : option (list N) :=
  match s with
  | [] => None
  | c :: r => if (c =? b)%N then Some s else drop_until b r
  end.
Definition extract_first_json_array (raw : string) : option string :=
  start ← drop_until 91 (str_bytes raw);
  bytes_str <$> array_end start 0 false false.

Section Extraction.
Context `{JsonText}.

Definition entry_of_item (cycle : Z) (item : Value) : option SessionMemoryEntry :=
  o ← as_object item;
  content ← str_trim <$> (map_get "content" o ≫= as_str);
  if str_is_empty content then None
  else
    let category := unwrap_or (map_get "category" o ≫= as_str) "key_fact" in
    let importance := N.min 10 (unwrap_or (map_get "importance" o ≫= as_u64) 5%N) in
    Some (entry_new category content cycle (N.max 1 importance)).
Definition parse_extraction_result_checked (raw : string) (cycle : Z)
    : list SessionMemoryEntry + SessionMemoryOutputInvalidReason :=
  if trim_is_empty raw then inr EmptyOutput
  else
    match extract_first_json_array raw ≫= json_from_str with
    | Some (Array items) =>
        match omap (entry_of_item cycle) items with
        | [] => inr NoValidEntries
        | entries => inl entries
        end
    | _ => inr JsonArrayMissing
    end.
Definition parse_extraction_result (raw : string) (cycle : Z) : list SessionMemoryEntry :=
  match parse_extraction_result_checked raw cycle with inl entries => entries | inr _ => [] end.
End Extraction.

(** ** Merging *)

Definition merge_into (existing entry : SessionMemoryEntry) : SessionMemoryEntry :=
  {| se_category := se_category existing; se_content := se_content existing;
     se_source_cycle := Z.max (se_source_cycle existing) (se_source_cycle entry);
     se_importance := N.max (se_importance existing) (se_importance entry) |}.
(** The first entry with the key is updated; [None] when there is none. *)
Fixpoint merge_existing (entry : SessionMemoryEntry) (l : list SessionMemoryEntry)
    : option (list SessionMemoryEntry) :=
  match l with
  | [] => None
  | e :: r => if entry_key e =?? entry_key entry then Some (merge_into e entry :: r)
              else cons e <$> merge_existing entry r
  end.
Fixpoint merge_all (entries l : list SessionMemoryEntry) : list SessionMemoryEntry * N :=
  match entries with
  | [] => (l, 0%N)
  | entry :: rest =>
      match merge_existing entry l with
      | Some l' => merge_all rest l'
      | None => let '(l', merged) := merge_all rest (l ++ [entry]) in (l', (1 + merged)%N)
      end
  end.
Definition merge_entries (m : SessionMemory) (entries : list SessionMemoryEntry) : SessionMemory * N :=
  let '(l, merged) := merge_all entries (entries_of m) in (set_entries m l, merged).

(** ** Rendering and the budget *)

Definition render_entries (l : list SessionMemoryEntry) : string :=
  match l with
  | [] => EmptyString
  | _ =>
      join newline (
        ["<Session Memory>"]
        ++ concat (map (fun category =>
             match List.filter (fun e => String.eqb (se_category e) category) l with
             | [] => []
             | entries => ("## " +:+ category) :: map (fun e => "- " +:+ se_content e) entries
             end) SESSION_MEMORY_CATEGORIES)
        ++ ["</Session Memory>"])
  end.
Definition render_as_system_context (m : SessionMemory) : string := render_entries (entries_of m).

(** [min_by_key] with the index as the last key: the first of the least. *)
Definition entry_lt (a b : SessionMemoryEntry) : bool :=
  (se_importance a <? se_importance b)%N
  || ((se_importance a =? se_importance b)%N && (se_source_cycle a <? se_source_cycle b)%Z).
Fixpoint drop_index (l : list SessionMemoryEntry) : nat :=
  match l with
  | [] | [_] => 0
  | e :: r => match r !! drop_index r with
              | Some least => if entry_lt least e then S (drop_index r) else 0
              | None => 0
              end
  end.
Definition remove_at {A} (i : nat) (l : list A) : list A := take i l ++ drop (S i) l.
(** The loop drops one entry per turn: their number is enough fuel. *)
Fixpoint prune_loop (fuel : nat) (max_tokens : N) (l : list SessionMemoryEntry)
    : list SessionMemoryEntry :=
  match fuel, l with
  | S f, _ :: _ =>
      if (max_tokens <? estimate_tokens (render_entries l))%N
      then prune_loop f max_tokens (remove_at (drop_index l) l) else l
  | _, _ => l
  end.
Definition prune_to_budget (m : SessionMemory) : SessionMemory :=
  if (sc_max_tokens (sm_config m) =? 0)%N then m
  else set_entries m (prune_loop (length (entries_of m)) (sc_max_tokens (sm_config m)) (entries_of m)).

(** ** Extraction *)

Definition record_extraction (m : SessionMemory) (last_message_index : Z) (current_tokens : N)
    : SessionMemory :=
  set_state m
    {| ss_entries := entries_of m; ss_last_extracted_message_index := last_message_index;
       ss_tokens_at_last_extraction := current_tokens; ss_initialized := true |}.
Definition should_skip_message (m : Message) : bool :=
  is_role RSystem m || (is_role RUser m && str_contains "<Compressed Agent Memory>" (m_content m)).
Definition new_extraction_messages (m : SessionMemory) (messages : list Message) : list Message :=
  let last := ss_last_extracted_message_index (sm_state m) in
  let start_index :=
    if (0 <=? last)%Z && (last <? Z.of_nat (length messages))%Z then S (Z.to_nat last) else 0 in
  List.filter (fun message => negb (should_skip_message message)) (drop start_index messages).

Section Extract.
Context `{JsonText}.
Definition absorb (m : SessionMemory) (messages : list Message) (current_tokens : N)
    (entries : list SessionMemoryEntry) : SessionMemory * N :=
  let '(m, merged_count) := merge_entries m entries in
  let m := prune_to_budget m in
  let m := record_extraction m (Z.of_nat (length messages) - 1) current_tokens in
  (save m, merged_count).
Definition extract (m : SessionMemory) (messages : list Message) (current_cycle : Z)
    (current_tokens : N) : SessionMemory * N :=
  match sc_extraction_callback (sm_config m), messages with
  | None, _ | _, [] => (m, 0%N)
  | Some callback, _ =>
      match new_extraction_messages m messages with
      | [] => (record_extraction m (Z.of_nat (length messages) - 1) current_tokens, 0%N)
      | new_messages =>
          match callback new_messages with
          | None => (m, 0%N)
          | Some raw_result =>
              absorb m messages current_tokens (parse_extraction_result raw_result current_cycle)
          end
      end
  end.
(** The callback of the run may fail, which ends the compaction; an answer it
    cannot use is reported and changes nothing. *)
Definition extract_with_runtime_callback {E} (m : SessionMemory) (messages : list Message)
    (current_cycle : Z) (current_tokens : N) (callback : list Message -> N -> option string + E)
    : SessionMemory * (N + E) * option SessionMemoryOutputInvalidReason :=
  match messages with
  | [] => (m, inl 0%N, None)
  | _ =>
      match new_extraction_messages m messages with
      | [] => (record_extraction m (Z.of_nat (length messages) - 1) current_tokens, inl 0%N, None)
      | new_messages =>
          match callback new_messages (Z.to_N (Z.max current_cycle 1)) with
          | inr error => (m, inr error, None)
          | inl None => (m, inl 0%N, None)
          | inl (Some raw_result) =>
              match parse_extraction_result_checked raw_result current_cycle with
              | inl entries =>
                  let '(m, merged_count) := absorb m messages current_tokens entries in
                  (m, inl merged_count, None)
              | inr reason => (m, inl 0%N, Some reason)
              end
          end
      end
  end.
End Extract.
Definition on_compaction (m : SessionMemory) (current_tokens : option N) : SessionMemory :=
  let s := sm_state m in
  save (set_state m
    {| ss_entries := ss_entries s; ss_last_extracted_message_index := -1;
       ss_tokens_at_last_extraction := unwrap_or current_tokens (ss_tokens_at_last_extraction s);
       ss_initialized := is_some current_tokens || ss_initialized s |}).

(** ** Lemmas *)

Definition entry_ok (e : SessionMemoryEntry) : Prop :=
  se_category e ∈ SESSION_MEMORY_CATEGORIES /\ (1 <= se_importance e <= 10)%N.
Definition within_budget (max_tokens : N) (l : list SessionMemoryEntry) : Prop :=
  max_tokens = 0%N \/ l = [] \/ (estimate_tokens (render_entries l) <= max_tokens)%N.
(** What holds of a state: every fact once, ranked, within the budget. *)
Record state_ok (max_tokens : N) (s : SessionMemoryState) : Prop := {
  so_once : NoDup (map entry_key (ss_entries s));
  so_entries : Forall entry_ok (ss_entries s);
  so_budget : within_budget max_tokens (ss_entries s)
}.
Record session_ok (m : SessionMemory) : Prop := {
  sk_state : state_ok (sc_max_tokens (sm_config m)) (sm_state m);
  sk_stored : forall s, sm_stored m = Some s -> state_ok (sc_max_tokens (sm_config m)) s
}.

Lemma entry_new_ok category content cycle importance :
  entry_ok (entry_new category content cycle importance).
Proof.
  unfold entry_ok, entry_new, normalize_category. cbn [se_category se_importance]. split; [|lia].
  destruct (contains SESSION_MEMORY_CATEGORIES _) eqn:E; [by apply contains_spec in E|].
  by apply (bool_decide_eq_true_1 (_ ∈ _)).
Qed.
Lemma merge_into_ok e entry :
  entry_ok e -> entry_ok entry -> entry_ok (merge_into e entry) /\ entry_key (merge_into e entry) = entry_key e.
Proof. unfold entry_ok. cbn. intros [??] [??]. split; [split; [done|lia]|done]. Qed.
Lemma merge_existing_None entry l :
  merge_existing entry l = None -> entry_key entry ∉ map entry_key l.
Proof.
  induction l as [|e r IH]; cbn; [set_solver|]. case_bool_decide as Hk; [done|].
  destruct (merge_existing entry r); [done|]. intros _ [?|Hin]%elem_of_cons; [congruence|].
  by apply IH.
Qed.
Lemma merge_existing_Some entry l l' :
  merge_existing entry l = Some l' -> entry_ok entry -> Forall entry_ok l ->
  map entry_key l' = map entry_key l /\ Forall entry_ok l'.
Proof.
  intros Hm He. revert l' Hm. induction l as [|e r IH]; intros l'; cbn; [done|].
  case_bool_decide as Hk.
  - intros [= <-] [Hx Hr]%Forall_cons. destruct (merge_into_ok e entry Hx He) as [Ho Hkey].
    cbn [map]. rewrite Hkey. split; [done|by constructor].
  - intros (r' & Hr' & ->)%fmap_Some [Hx Hr]%Forall_cons. destruct (IH _ Hr' Hr) as [Hkeys Hall].
    cbn. rewrite Hkeys. split; [done|by constructor].
Qed.
Lemma merge_all_ok entries l l' n :
  merge_all entries l = (l', n) -> Forall entry_ok entries -> Forall entry_ok l ->
  NoDup (map entry_key l) -> Forall entry_ok l' /\ NoDup (map entry_key l').
Proof.
  revert l l' n. induction entries as [|e rest IH]; intros l l' n; cbn; [by intros [= <- _]|].
  intros Hm [He Hrest]%Forall_cons Hl Hnd. destruct (merge_existing e l) as [l1|] eqn:Hx.
  - destruct (merge_existing_Some _ _ _ Hx He Hl) as [Hkeys Hl1]. eapply IH; [done..|by rewrite Hkeys].
  - destruct (merge_all rest (l ++ [e])) as [l2 k] eqn:Hy. injection Hm as <- _.
    eapply IH; [done|done|apply Forall_app; split; [done|by apply Forall_singleton]|].
    rewrite map_app. apply NoDup_app. split_and!; [done| |cbn; apply NoDup_singleton].
    intros x Hin Hx1%list_elem_of_singleton. subst x. by apply (merge_existing_None e l).
Qed.

(** *** Pruning *)

Lemma entry_lt_spec a b :
  entry_lt a b = true <->
  (se_importance a < se_importance b)%N \/
  se_importance a = se_importance b /\ (se_source_cycle a < se_source_cycle b)%Z.
Proof. unfold entry_lt. by rewrite orb_true_iff, andb_true_iff, N.ltb_lt, N.eqb_eq, Z.ltb_lt. Qed.
Lemma entry_lt_false a b :
  entry_lt a b = false <->
  (se_importance b < se_importance a)%N \/
  se_importance a = se_importance b /\ (se_source_cycle b <= se_source_cycle a)%Z.
Proof. rewrite <- not_true_iff_false, entry_lt_spec. lia. Qed.
Lemma drop_index_least l :
  l <> [] -> exists e, l !! drop_index l = Some e /\ forall x, x ∈ l -> entry_lt x e = false.
Proof.
  assert (Hirr : forall a, entry_lt a a = false).
  { intros a. unfold entry_lt. rewrite N.ltb_irrefl, Z.ltb_irrefl. by rewrite andb_false_r. }
  induction l as [|e [|e' r] IH]; intros Hne; [congruence| |].
  { exists e. split; [done|]. by intros x ->%list_elem_of_singleton. }
  destruct (IH ltac:(done)) as (least & Hl & Hall). cbn [drop_index]. cbn [drop_index] in Hl. rewrite Hl.
  destruct (entry_lt least e) eqn:Hlt.
  - exists least. split; [done|]. intros x [->|Hx]%elem_of_cons; [|by apply Hall].
    apply entry_lt_spec in Hlt. apply entry_lt_false. lia.
  - exists e. split; [done|]. intros x [->|Hx]%elem_of_cons; [done|]. specialize (Hall x Hx).
    rewrite entry_lt_false in *. lia.
Qed.
Lemma remove_at_perm {A} i (l : list A) x : l !! i = Some x -> l ≡ₚ x :: remove_at i l.
Proof.
  intros Hx. unfold remove_at. rewrite <- (take_drop_middle l i x Hx) at 1. by rewrite Permutation_middle.
Qed.
Lemma remove_at_sublist {A} i (l : list A) : remove_at i l `sublist_of` l.
Proof.
  unfold remove_at. revert i. induction l as [|x l IH]; intros [|i]; cbn; [done|done| |].
  - rewrite drop_0. by apply sublist_cons.
  - apply sublist_skip, IH.
Qed.

Lemma prune_loop_spec fuel max_tokens l :
  length l <= fuel ->
  let l' := prune_loop fuel max_tokens l in
  l' `sublist_of` l /\ (l' = [] \/ (estimate_tokens (render_entries l') <= max_tokens)%N) /\
  exists dropped, l ≡ₚ l' ++ dropped /\ forall d k, d ∈ dropped -> k ∈ l' -> entry_lt k d = false.
Proof.
  revert l. induction fuel as [|f IH]; intros l Hl; cbn.
  { destruct l; [|cbn in Hl; lia]. split_and!; [done|by left|]. exists []. split; [done|]. set_solver. }
  destruct l as [|x r] eqn:Heq; [split_and!; [done|by left|]; exists []; split; [done|]; set_solver|].
  rewrite <- Heq in *. destruct (max_tokens <? _)%N eqn:Ht; cycle 1.
  { apply N.ltb_ge in Ht. split_and!; [done|by right|]. exists []. rewrite app_nil_r. split; [done|]. set_solver. }
  destruct (drop_index_least l ltac:(by rewrite Heq)) as (e & He & Hleast).
  pose proof (remove_at_perm _ _ _ He) as Hperm. pose proof (remove_at_sublist (drop_index l) l) as Hsub.
  destruct (IH (remove_at (drop_index l) l)) as (Hs & Hb & dropped & Hp & Hd).
  { apply Permutation_length in Hperm. cbn in Hperm. lia. }
  split_and!; [by etrans|done|]. exists (e :: dropped). split.
  - rewrite Hperm, Hp at 1. by rewrite Permutation_middle.
  - intros d k [->|Hin]%elem_of_cons Hk; [|by apply Hd]. apply Hleast. eapply elem_of_sublist; [done|].
    by etrans.
Qed.

(** *** Operations keep the state sound *)

Lemma sublist_fmap_NoDup {A B} (f : A -> B) l l' :
  l' `sublist_of` l -> NoDup (map f l) -> NoDup (map f l').
Proof. intros Hs Hn. eapply sublist_NoDup; [exact Hn|]. by apply (fmap_sublist f). Qed.
Lemma prune_state m :
  NoDup (map entry_key (entries_of m)) -> Forall entry_ok (entries_of m) ->
  state_ok (sc_max_tokens (sm_config m)) (sm_state (prune_to_budget m)).
Proof.
  intros Hnd Hok. unfold prune_to_budget. destruct (_ =? 0)%N eqn:E.
  { apply N.eqb_eq in E. split; [done..|by left]. }
  destruct (prune_loop_spec (length (entries_of m)) (sc_max_tokens (sm_config m)) (entries_of m) ltac:(done))
    as (Hs & Hb & _).
  split; cbn; [by eapply sublist_fmap_NoDup| |by right].
  apply Forall_forall. intros e He. rewrite Forall_forall in Hok. apply Hok. by eapply elem_of_sublist.
Qed.
Lemma prune_config m : sm_config (prune_to_budget m) = sm_config m /\ sm_stored (prune_to_budget m) = sm_stored m.
Proof. unfold prune_to_budget. by destruct (_ =? 0)%N. Qed.
Lemma save_ok m : session_ok m -> session_ok (save m).
Proof.
  unfold save. destruct (sm_has_storage m); [|done]. intros [Hs Ht]. split; [done|]. cbn. by intros s [= <-].
Qed.
Lemma record_ok m i n :
  session_ok m -> session_ok (record_extraction m i n).
Proof. intros [[Ho He Hb] Ht]. by split; [split|]. Qed.

Section Ok.
Context `{JsonText}.
Lemma parse_ok raw cycle entries :
  parse_extraction_result_checked raw cycle = inl entries -> Forall entry_ok entries.
Proof.
  unfold parse_extraction_result_checked. destruct (trim_is_empty raw); [done|].
  destruct (_ ≫= _) as [[| | | |items|]|]; try done.
  destruct (omap (entry_of_item cycle) items) as [|x l] eqn:E; [done|]. intros [= <-]. rewrite <- E.
  apply Forall_forall. intros e (item & _ & He)%list_elem_of_omap. unfold entry_of_item in He.
  apply bind_Some in He as (o & _ & (content & _ & He)%bind_Some).
  destruct (str_is_empty content); [done|]. injection He as <-. apply entry_new_ok.
Qed.
Lemma absorb_ok m messages tokens entries :
  session_ok m -> Forall entry_ok entries -> session_ok (absorb m messages tokens entries).1.
Proof.
  intros [[Ho He Hb] Ht] Hentries. unfold absorb, merge_entries.
  destruct (merge_all entries (entries_of m)) as [l n] eqn:Hm. cbn.
  destruct (merge_all_ok _ _ _ _ Hm Hentries He Ho) as [Hl Hnd]. apply save_ok, record_ok.
  pose proof (prune_config (set_entries m l)) as [Hc Hst].
  split; rewrite Hc; [by apply (prune_state (set_entries m l))|]. rewrite Hst. apply Ht.
Qed.
Lemma extract_ok m messages cycle tokens :
  session_ok m -> session_ok (extract m messages cycle tokens).1.
Proof.
  intros Hm. unfold extract. destruct (sc_extraction_callback _) as [callback|]; [|by destruct messages].
  destruct messages as [|x messages]; [done|].
  destruct (new_extraction_messages m _); [by apply record_ok|].
  destruct (callback _) as [raw|]; [|done]. apply absorb_ok; [done|]. unfold parse_extraction_result.
  destruct (parse_extraction_result_checked raw cycle) eqn:E; [by eapply parse_ok|done].
Qed.
Lemma extract_runtime_ok {E} m messages cycle tokens (callback : list Message -> N -> option string + E) :
  session_ok m -> session_ok (extract_with_runtime_callback m messages cycle tokens callback).1.1.
Proof.
  intros Hm. unfold extract_with_runtime_callback. destruct messages as [|x messages]; [done|].
  destruct (new_extraction_messages m _); [by apply record_ok|].
  destruct (callback _ _) as [[raw|]|error]; [|done..].
  destruct (parse_extraction_result_checked raw cycle) as [entries|] eqn:Hp; [|done].
  pose proof (absorb_ok m (x :: messages) tokens entries Hm (parse_ok _ _ _ Hp)) as Ha.
  by destruct (absorb m _ tokens entries).
Qed.

(** ** Properties *)

(** The operations on a session memory. *)
Inductive session_step (m : SessionMemory) : SessionMemory -> Prop :=
| step_extract messages cycle tokens : session_step m (extract m messages cycle tokens).1
| step_extract_runtime (E : Type) messages cycle tokens (callback : list Message -> N -> option string + E) :
    session_step m (extract_with_runtime_callback m messages cycle tokens callback).1.1
| step_compaction tokens : session_step m (on_compaction m tokens)
| step_save : session_step m (save m)
| step_load : session_step m (load m).


(** After an extraction there is no other one before the conversation has
    grown. *)
Theorem no_extraction_without_growth m i tokens count :
  should_extract_with_runtime_callback (record_extraction m i tokens) tokens count = false.
Proof.
  unfold should_extract_with_runtime_callback. cbn. destruct (_ || _); [done|]. rewrite N.leb_refl, N.sub_diag.
  apply N.leb_gt. lia.
Qed.
End Ok.

(** Pruning drops what matters least, and only as much as the budget
    asks: what is left is in its old order and within the budget, and no
    dropped fact is more important than a kept one, or as important and
    newer. *)
Theorem prune_drops_least m :
  sc_max_tokens (sm_config m) <> 0%N ->
  let kept := entries_of (prune_to_budget m) in
  kept `sublist_of` entries_of m /\
  (kept = [] \/ (estimate_tokens (render_as_system_context (prune_to_budget m))
                 <= sc_max_tokens (sm_config m))%N) /\
  exists dropped, entries_of m ≡ₚ kept ++ dropped /\
    forall d k, d ∈ dropped -> k ∈ kept ->
      (se_importance d < se_importance k)%N \/
      se_importance d = se_importance k /\ (se_source_cycle d <= se_source_cycle k)%Z.
Proof.
  intros Hmax. unfold prune_to_budget, render_as_system_context.
  rewrite (proj2 (N.eqb_neq _ _) Hmax). cbn.
  destruct (prune_loop_spec (length (entries_of m)) (sc_max_tokens (sm_config m)) (entries_of m) ltac:(done))
    as (Hs & Hb & dropped & Hp & Hd).
  split_and!; [done|done|]. exists dropped. split; [done|]. intros d k Hin Hk.
  specialize (Hd d k Hin Hk). apply entry_lt_false in Hd. lia.
Qed.

(** ** Examples *)

Definition sample_config (answer : string) : SessionMemoryConfig :=
  {| sc_min_tokens_before_extraction := 10; sc_max_tokens := 15; sc_min_text_messages := 1;
     sc_growth_ratio := f64_one; sc_extraction_callback := Some (fun _ => Some answer) |}.
Definition sample_facts : list SessionMemoryEntry :=
  [entry_new "decision" " use Rust " 1 3; entry_new "other" "fact" 1 9; entry_new "decision" "Use  rust" 2 5].
Definition sample_memory : SessionMemory :=
  (merge_entries (session_memory_new (sample_config EmptyString) true) sample_facts).1.
(** The facts are merged by their normalised text, and the least important is
    dropped to meet the budget. *)
Example merged_and_pruned :
  map (fun e => (se_content e, se_importance e)) (entries_of sample_memory) = [("use Rust", 5%N); ("fact", 9%N)] /\
  map se_content (entries_of (prune_to_budget sample_memory)) = ["fact"].
Proof. vm_compute. split; reflexivity. Qed.

Lemma prune_drops_least_witness :
  entries_of (prune_to_budget sample_memory) `sublist_of` entries_of sample_memory.
Proof. apply (prune_drops_least sample_memory). vm_compute. discriminate. Defined.

(** A reader that knows one text. *)
Definition sample_json : JsonText :=
  {| json_from_str := fun s =>
       if String.eqb s "[1]" then Some (Array [json_object [("content", Str "fact")]]) else None;
     json_error_text := fun _ => EmptyString; json_to_string := fun _ => EmptyString |}.
Definition sample_extracted : SessionMemory :=
  (@extract sample_json (session_memory_new (sample_config "the facts: [1]") true)
     [message_user "hello"] 1 10).1.
Example fact_extracted :
  map se_content (entries_of sample_extracted) = ["fact"] /\
  sm_stored sample_extracted = Some (sm_state sample_extracted).
Proof. vm_compute. split; reflexivity. Qed.
