(* ===== verification/Memory.v ===== *)
(** * Context compaction

    [memory/manager] with [memory/artifacts] and the file actions of
    [memory/summary/files.rs]: when a conversation comes close to the context
    window of the model, old tool results are archived in the workspace and,
    if that is not enough, the oldest messages are replaced by a summary.

    The model behind the callbacks is a parameter; a panic of the public
    callback is its [None].  The callback that extracts facts for the session
    memory is a function of the messages its prompt is built from.
    The first JSON value of a text is read by the class [JsonPrefix]
    ([serde_json]'s stream reader).  Letter case is that of ASCII. *)

From Stdlib Require Import Ascii String NArith ZArith Lia.
From stdpp Require Import base strings list sets.
From S2P Require Import Prelude Json Canonical CheckpointTypes ToolResult Journal TokenUsage.
From S2P Require Import Budget BudgetWire Records ResultCodec ToolPolicy Settings Prompt Text.
From S2P Require Import Workspace MessageSanitizer SessionMemory.

(** ** Configuration *)

Definition MEMORY_SUMMARY_NAME : string := "memory_summary".
Inductive MemoryCompactMode := ModeNone | ModeMicro | ModeStructural | ModeSummary | ModeEmergency.
#[global] Instance MemoryCompactMode_eq_dec : EqDecision MemoryCompactMode.
Proof. solve_decision. Defined.
(** The derived order of the variants. *)
Definition mode_rank (m : MemoryCompactMode) : N :=
  match m with
  | ModeNone => 0 | ModeMicro => 1 | ModeStructural => 2 | ModeSummary => 3 | ModeEmergency => 4
  end%N.
Definition mode_max (a b : MemoryCompactMode) : MemoryCompactMode :=
  if (mode_rank a <=? mode_rank b)%N then b else a.
Inductive MemoryCompactTrigger := MicroThreshold | FullThreshold | PromptTooLong.

Record MemoryManagerConfig := {
  mm_compact_threshold : N;
  mm_keep_recent_messages : N;
  mm_model : string;
  mm_model_context_window : N;
  mm_reserved_output_tokens : N;
  mm_autocompact_buffer_tokens : N;
  mm_warning_threshold_percentage : N;
  mm_include_memory_warning : bool;
  mm_language : string;
  mm_summary_event_limit : N;
  mm_summary_backend : option string;
  mm_summary_model : option string;
  mm_summary_callback : option (string -> option string -> option string -> option string);
  mm_tool_result_excerpt_head : N;
  mm_tool_result_excerpt_tail : N;
  mm_microcompaction_policy : MicrocompactionPolicy
}.
(** [RuntimeMemoryCallbacks]; an answer, or an error that ends the run's use
    of the manager. *)
Record RuntimeMemoryCallbacks (E : Type) := {
  rc_session_memory : option (list Message -> N -> option string + E);
  rc_memory_compaction : option (string -> option string -> option string -> N -> option string + E)
}.
Arguments rc_session_memory {E}.
Arguments rc_memory_compaction {E}.
Record MemoryManager (E : Type) := {
  mg_config : MemoryManagerConfig;
  mg_session_memory : option SessionMemory;
  mg_runtime_callbacks : RuntimeMemoryCallbacks E;
  mg_has_workspace : bool;
  mg_artifact_namespace : string;
  mg_tool_result_retentions : list (string * ToolResultRetention);
  mg_recovery_tool_available : bool
}.
Arguments mg_config {E}.
Arguments mg_session_memory {E}.
Arguments mg_runtime_callbacks {E}.
Arguments mg_has_workspace {E}.
Arguments mg_artifact_namespace {E}.
Arguments mg_tool_result_retentions {E}.
Arguments mg_recovery_tool_available {E}.
Definition set_session_memory {E} (m : MemoryManager E) (s : option SessionMemory) : MemoryManager E :=
  {| mg_config := mg_config m; mg_session_memory := s; mg_runtime_callbacks := mg_runtime_callbacks m;
     mg_has_workspace := mg_has_workspace m; mg_artifact_namespace := mg_artifact_namespace m;
     mg_tool_result_retentions := mg_tool_result_retentions m;
     mg_recovery_tool_available := mg_recovery_tool_available m |}.

(** ** Thresholds *)

Definition autocompact_threshold (c : MemoryManagerConfig) : N :=
  compute_compaction_threshold (mm_compact_threshold c) (mm_model_context_window c)
    (mm_reserved_output_tokens c) (mm_autocompact_buffer_tokens c).
Definition effective_context_window (c : MemoryManagerConfig) : N :=
  (mm_model_context_window c - mm_reserved_output_tokens c)%N.
Definition warning_threshold (c : MemoryManagerConfig) : N :=
  let threshold := autocompact_threshold c in
  if (threshold =? 0)%N then 0%N else (threshold * mm_warning_threshold_percentage c / 100)%N.
Definition microcompact_trigger_threshold (c : MemoryManagerConfig) : N :=
  f64_floor_u64 (f64_mul (f64_of_N (autocompact_threshold c)) (mp_trigger_ratio (mm_microcompaction_policy c))).
Definition microcompact_target_threshold (c : MemoryManagerConfig) : N :=
  f64_floor_u64 (f64_mul (f64_of_N (autocompact_threshold c)) (mp_target_ratio (mm_microcompaction_policy c))).
Definition should_preemptive_microcompact (c : MemoryManagerConfig) (message_length : N) : bool :=
  let threshold := microcompact_trigger_threshold c in
  (0 <? threshold)%N && (threshold <? message_length)%N.

Section Lengths.
Context `{Tokenizer}.
Definition estimate_recent_tool_message_length (c : MemoryManagerConfig) (messages : list Message)
    (recent_tool_call_ids : option (list string)) : N :=
  match recent_tool_call_ids with
  | None | Some [] => 0%N
  | Some ids =>
      count_messages_tokens
        (List.filter (fun m => is_role RTool m && is_some_and (m_tool_call_id m) (contains ids)) messages)
        (mm_model c)
  end.
Definition calculate_effective_length (c : MemoryManagerConfig) (messages : list Message)
    (total_tokens : option N) (recent_tool_call_ids : option (list string)) : N :=
  match total_tokens with
  | Some tokens =>
      if (0 <? tokens)%N
      then (tokens + estimate_recent_tool_message_length c messages recent_tool_call_ids)%N
      else count_messages_tokens messages (mm_model c)
  | None => count_messages_tokens messages (mm_model c)
  end.
Definition estimate_memory_usage_percentage (c : MemoryManagerConfig) (messages : list Message)
    (total_tokens : option N) (recent_tool_call_ids : option (list string)) : N :=
  let threshold := autocompact_threshold c in
  if (threshold =? 0)%N then 0%N
  else (N.min U64_MAX (calculate_effective_length c messages total_tokens recent_tool_call_ids * 100)
        / threshold)%N.
Definition compaction_trigger (c : MemoryManagerConfig) (messages : list Message)
    (total_tokens : option N) (recent_tool_call_ids : option (list string))
    : option MemoryCompactTrigger :=
  let used_tokens := calculate_effective_length c messages total_tokens recent_tool_call_ids in
  if (autocompact_threshold c <? used_tokens)%N then Some FullThreshold
  else if should_preemptive_microcompact c used_tokens then Some MicroThreshold else None.
End Lengths.

(** ** Compacted tool results *)

Definition TOOL_RESULT_COMPACT_MARKER : string := "<Tool Result Compact>".
Definition is_compacted_tool_content (content : string) : bool :=
  starts_with TOOL_RESULT_COMPACT_MARKER content.
Section Envelope.
Context `{JsonText}.
Definition has_recovery_envelope (content : string) : bool :=
  match rsplit_line (str_trim_end content) with
  | None => false
  | Some (_, last_line) =>
      is_some ((json_from_str last_line ≫= as_object) ≫= map_get "vv_agent_recovery")
  end.
Definition content_without_recovery_envelope (content : string) : string :=
  match rsplit_line (str_trim_end content) with
  | None => content
  | Some (prefix, _) => if has_recovery_envelope content then prefix else content
  end.
Definition build_compacted_tool_content (content artifact_path tool_name : string) (head_chars tail_chars : N)
    : string :=
  let excerpt_source := content_without_recovery_envelope content in
  let head := take_chars head_chars excerpt_source in
  let tail :=
    if (head_chars <? char_count excerpt_source)%N then take_tail_chars tail_chars excerpt_source
    else EmptyString in
  let excerpt_parts :=
    (if str_is_empty head then [] else [head])
    ++ (if str_is_empty tail then []
        else (if str_is_empty head then [] else ["...<snip>..."]) ++ [tail]) in
  let excerpt := str_trim (join newline excerpt_parts) in
  join newline [TOOL_RESULT_COMPACT_MARKER; "tool_name: " +:+ tool_name;
                "artifact_path: " +:+ artifact_path;
                "retrieval_hint: use read_file on artifact_path if needed"; "excerpt:"; excerpt;
                "</Tool Result Compact>"].
End Envelope.

(** ** Where to cut *)

(** The results behind an assistant message answer its calls, as far as they
    are there. *)
Fixpoint answers (seen : list string) (calls : list ToolCall) (rest : list Message) : bool :=
  match calls with
  | [] => true
  | call :: calls' =>
      negb (str_is_empty (tc_id call)) && negb (contains seen (tc_id call))
      && match rest with
         | [] => answers (tc_id call :: seen) calls' []
         | r :: rest' =>
             is_role RTool r && (m_tool_call_id r =?? Some (tc_id call))
             && answers (tc_id call :: seen) calls' rest'
         end
  end.
(** The blocks of a conversation, a message or a tool turn each; [None] when
    a tool result stands elsewhere.  Every turn takes a message: their number
    is enough fuel. *)
Fixpoint scan_blocks (fuel index : nat) (messages : list Message) : option (list (nat * nat)) :=
  match fuel, messages with
  | S f, m :: rest =>
      if is_role RTool m then None
      else if has_calls m then
        (if is_role RAssistant m && answers [] (m_tool_calls m) rest then
           let n := length (m_tool_calls m) in
           cons (index, index + 1 + n) <$> scan_blocks f (index + 1 + n) (drop n rest)
         else None)
      else cons (index, index + 1) <$> scan_blocks f (index + 1) rest
  | _, _ => Some []
  end.
Definition named_summary (m : Message) : bool := m_name m =?? Some MEMORY_SUMMARY_NAME.
Definition is_raw (m : Message) : bool :=
  negb (is_role RSystem m) && negb (named_summary m) && speaks m.
(** The indices of the raw messages, counted from [index]. *)
Fixpoint raw_indices (index : nat) (messages : list Message) : list nat :=
  match messages with
  | [] => []
  | m :: rest => (if is_raw m then [index] else []) ++ raw_indices (index + 1) rest
  end.
Definition move_cut (cut : nat) (block : nat * nat) : nat :=
  if (block.1 <? cut)%nat && (cut <? block.2)%nat then block.1 else cut.

Record SummaryParts := {
  sp_systems : list Message;
  sp_previous : list Message;
  sp_prefix : list Message;
  sp_tail : list Message;
  sp_cut : nat
}.
Definition summary_parts (messages : list Message) (keep : N) : option SummaryParts :=
  blocks ← scan_blocks (length messages) 0 messages;
  let raw := raw_indices 0 messages in
  let cut := unwrap_or (raw !! (length raw - N.to_nat (N.max keep 1))) 0 in
  let cut := foldl move_cut cut blocks in
  let at_index i := messages !! i in
  Some {| sp_systems := List.filter (fun m => is_role RSystem m && negb (named_summary m)) messages;
          sp_previous := List.filter named_summary messages;
          sp_prefix := omap at_index (List.filter (fun i => (i <? cut)%nat) raw);
          sp_tail := omap at_index (List.filter (fun i => (cut <=? i)%nat) raw);
          sp_cut := cut |}.

(** ** Archiving tool results *)

Record MicrocompactionCandidate := {
  mcd_message_index : nat;
  mcd_tool_name : string;
  mcd_existing_artifact : option ToolArtifactRef
}.
Record MicrocompactionPlan := {
  mpl_candidates : list MicrocompactionCandidate;
  mpl_current_usage : N;
  mpl_target_usage : N;
  mpl_candidate_count : N;
  mpl_estimated_reclaimable_tokens : N
}.
Definition plan_empty : MicrocompactionPlan :=
  {| mpl_candidates := []; mpl_current_usage := 0; mpl_target_usage := 0; mpl_candidate_count := 0;
     mpl_estimated_reclaimable_tokens := 0 |}.
Record MicrocompactionApplication := {
  map_messages : list Message;
  map_archived_count : N;
  map_reclaimed_tokens : N;
  map_artifact_failure_count : N
}.
Definition application_default : MicrocompactionApplication :=
  {| map_messages := []; map_archived_count := 0; map_reclaimed_tokens := 0;
     map_artifact_failure_count := 0 |}.

(** The name of the tool of every call, the last one with an id. *)
Definition build_tool_call_name_map (messages : list Message) : list (string * string) :=
  foldl (fun names call => map_insert (tc_id call) (tc_name call) names) []
    (concat (map m_tool_calls (List.filter (is_role RAssistant) messages))).
Fixpoint infer_from (current_cycle : N) (messages : list Message) : list N :=
  match messages with
  | [] => []
  | m :: rest =>
      let current_cycle :=
        if is_role RAssistant m && negb (named_summary m) then (current_cycle + 1)%N else current_cycle in
      current_cycle :: infer_from current_cycle rest
  end.
Definition infer_message_cycles (messages : list Message) : list N := infer_from 0 messages.

Section Micro.
Context `{JsonText} `{Tokenizer} `{Digest} `{WorkspaceBackend} {E : Type}.

Definition eligible_tool_name (m : Message) (inferred_cycle protected_cycle min_result_chars : N)
    (tool_call_names : list (string * string)) (retentions : list (string * ToolResultRetention))
    : option string :=
  if negb (is_role RTool m) || (protected_cycle <=? inferred_cycle)%N
     || (char_count (m_content m) <=? min_result_chars)%N || is_compacted_tool_content (m_content m)
     || (is_none (m_artifact_ref m) && has_recovery_envelope (m_content m))
  then None
  else
    tool_name ← m_tool_call_id m ≫= (fun id => map_get id tool_call_names);
    if unwrap_or (map_get tool_name retentions) ArchiveResult =?? ArchiveResult then Some tool_name else None.

Definition with_content (m : Message) (content : string) (artifact : option ToolArtifactRef)
    (metadata : object) : Message :=
  {| m_role := m_role m; m_content := content; m_name := m_name m; m_tool_call_id := m_tool_call_id m;
     m_tool_calls := m_tool_calls m; m_reasoning_content := m_reasoning_content m;
     m_image_url := m_image_url m; m_metadata := metadata; m_artifact_ref := artifact |}.
Definition EXCERPT_KEY : string := "_vv_agent_microcompact_excerpt".

Definition estimated_candidate (c : MemoryManagerConfig) (index : nat) (m : Message) (tool_name : string)
    : option (MicrocompactionCandidate * N) :=
  let artifact_path :=
    match m_artifact_ref m with
    | Some artifact => art_path artifact
    | None => ".vv-agent/artifacts/task/call-00000000000000000000000000000000.txt"
    end in
  let excerpt_source := unwrap_or (map_get EXCERPT_KEY (m_metadata m) ≫= as_str) (m_content m) in
  let estimated_marker :=
    build_compacted_tool_content excerpt_source artifact_path tool_name
      (mm_tool_result_excerpt_head c) (mm_tool_result_excerpt_tail c) in
  let before := count_messages_tokens [m] (mm_model c) in
  let after :=
    count_messages_tokens [message_tool estimated_marker (unwrap_or (m_tool_call_id m) EmptyString)]
      (mm_model c) in
  let reclaimable := (before - after)%N in
  if (reclaimable =? 0)%N then None
  else Some ({| mcd_message_index := index; mcd_tool_name := tool_name;
                mcd_existing_artifact := m_artifact_ref m |}, reclaimable).
(** The loop over the messages with their cycles, from [index] on. *)
Fixpoint plan_candidates (mg : MemoryManager E) (tool_call_names : list (string * string))
    (protected_cycle : N) (protected_tail index : nat) (messages : list (Message * N))
    : list (MicrocompactionCandidate * N) :=
  match messages with
  | [] => []
  | (m, cycle) :: rest =>
      let more := plan_candidates mg tool_call_names protected_cycle protected_tail (index + 1) rest in
      if (protected_tail <=? index)%nat then more
      else
        match eligible_tool_name m cycle protected_cycle
                (mp_min_result_chars (mm_microcompaction_policy (mg_config mg))) tool_call_names
                (mg_tool_result_retentions mg)
              ≫= estimated_candidate (mg_config mg) index m with
        | Some candidate => candidate :: more
        | None => more
        end
  end.
Definition plan_microcompaction (mg : MemoryManager E) (messages : list Message) (current_usage : N)
    : MicrocompactionPlan :=
  let c := mg_config mg in
  if negb (mg_recovery_tool_available mg) || match messages with [] => true | _ => false end
     || (current_usage <=? microcompact_trigger_threshold c)%N
  then plan_empty
  else
    let inferred_cycles := infer_message_cycles messages in
    let effective_current_cycle := (unwrap_or (last inferred_cycles) 0 + 1)%N in
    let protected_cycle :=
      (effective_current_cycle - mp_keep_recent_cycles (mm_microcompaction_policy c))%N in
    let protected_tail :=
      if (autocompact_threshold c <? current_usage)%N
      then sp_cut <$> summary_parts messages (mm_keep_recent_messages c)
      else Some (length messages) in
    match protected_tail with
    | None => plan_empty
    | Some protected_tail =>
        let candidates :=
          plan_candidates mg (build_tool_call_name_map messages) protected_cycle protected_tail 0
            (combine messages inferred_cycles) in
        {| mpl_candidates := map fst candidates; mpl_current_usage := current_usage;
           mpl_target_usage := microcompact_target_threshold c;
           mpl_candidate_count := N.of_nat (length candidates);
           mpl_estimated_reclaimable_tokens := foldl saturating_add 0%N (map snd candidates) |}
    end.

(** The complete content of a candidate, archived. *)
Definition archive_tool_message (mg : MemoryManager E) (w : ws) (m : Message)
    (candidate : MicrocompactionCandidate) : option (ToolArtifactRef * string) * ws :=
  match mcd_existing_artifact candidate with
  | Some artifact =>
      (match read_validated_text_artifact w artifact with
       | Ok complete_content => Some (artifact, complete_content)
       | Err _ => None
       end, w)
  | None =>
      if has_recovery_envelope (m_content m) then (None, w)
      else
        let '(outcome, w) :=
          persist_replayable_text_artifact w (mg_artifact_namespace mg)
            (unwrap_or (m_tool_call_id m) "tool-result") (m_content m) in
        (match outcome with Ok artifact => Some (artifact, m_content m) | Err _ => None end, w)
  end.
Definition replacement_of (c : MemoryManagerConfig) (m : Message) (candidate : MicrocompactionCandidate)
    (artifact : ToolArtifactRef) (complete_content : string) : Message :=
  let marker :=
    build_compacted_tool_content complete_content (art_path artifact) (mcd_tool_name candidate)
      (mm_tool_result_excerpt_head c) (mm_tool_result_excerpt_tail c) in
  with_content m marker (Some artifact) (map_remove EXCERPT_KEY (m_metadata m)).

(** The loop over the candidates, until the projected usage meets the
    target. *)
Fixpoint apply_candidates (mg : MemoryManager E) (messages : list Message) (target_usage : N)
    (candidates : list MicrocompactionCandidate) (projected_usage : N) (w : ws)
    (acc : MicrocompactionApplication) : MicrocompactionApplication * ws :=
  match candidates with
  | [] => (acc, w)
  | candidate :: rest =>
      if (projected_usage <=? target_usage)%N then (acc, w)
      else
        match messages !! mcd_message_index candidate with
        | None => (acc, w)
        | Some m =>
            let '(archived, w) := archive_tool_message mg w m candidate in
            match archived with
            | None =>
                apply_candidates mg messages target_usage rest projected_usage w
                  {| map_messages := map_messages acc; map_archived_count := map_archived_count acc;
                     map_reclaimed_tokens := map_reclaimed_tokens acc;
                     map_artifact_failure_count := (map_artifact_failure_count acc + 1)%N |}
            | Some (artifact, complete_content) =>
                let replacement := replacement_of (mg_config mg) m candidate artifact complete_content in
                let before := count_messages_tokens [m] (mm_model (mg_config mg)) in
                let after := count_messages_tokens [replacement] (mm_model (mg_config mg)) in
                let actual_reclaimed := (before - after)%N in
                if (actual_reclaimed =? 0)%N
                then apply_candidates mg messages target_usage rest projected_usage w acc
                else
                  apply_candidates mg messages target_usage rest (projected_usage - actual_reclaimed)%N w
                    {| map_messages := <[mcd_message_index candidate := replacement]> (map_messages acc);
                       map_archived_count := (map_archived_count acc + 1)%N;
                       map_reclaimed_tokens := saturating_add (map_reclaimed_tokens acc) actual_reclaimed;
                       map_artifact_failure_count := map_artifact_failure_count acc |}
            end
        end
  end.
Definition apply_microcompaction (mg : MemoryManager E) (messages : list Message)
    (plan : MicrocompactionPlan) (w : ws) : MicrocompactionApplication * ws :=
  let unchanged failures :=
    {| map_messages := messages; map_archived_count := 0; map_reclaimed_tokens := 0;
       map_artifact_failure_count := failures |} in
  match mpl_candidates plan with
  | [] => (unchanged 0%N, w)
  | candidates =>
      if negb (mg_has_workspace mg) then (unchanged (mpl_candidate_count plan), w)
      else apply_candidates mg messages (mpl_target_usage plan) candidates (mpl_current_usage plan) w
             (unchanged 0%N)
  end.
Definition microcompact_messages (mg : MemoryManager E) (messages : list Message) (cycle_index : option N)
    (w : ws) : list Message * N * ws :=
  match cycle_index with
  | None => (messages, 0%N, w)
  | Some _ =>
      let current_usage := count_messages_tokens messages (mm_model (mg_config mg)) in
      let plan := plan_microcompaction mg messages current_usage in
      let '(application, w) := apply_microcompaction mg messages plan w in
      (map_messages application, map_archived_count application, w)
  end.
End Micro.

(** ** Reading the summary *)

(** [str::lines]. *)
Fixpoint lines_of (current : list N) (s : list N) : list (list N) :=
  let strip l := match l with 13%N :: r => rev r | _ => rev l end in
  match s with
  | [] => match current with [] => [] | _ => [rev current] end
  | b :: r => if (b =? 10)%N then strip current :: lines_of [] r else lines_of (b :: current) r
  end.
Definition str_lines (s : string) : list string := map bytes_str (lines_of [] (str_bytes s)).
Definition code_fence : string := "```".
Definition strip_markdown_code_fence (text : string) : string :=
  let cleaned := str_trim text in
  if negb (starts_with code_fence cleaned) then cleaned
  else
    match str_lines cleaned with
    | _ :: ((_ :: _) as lines) =>
        let lines :=
          if is_some_and (last lines) (fun line => starts_with code_fence (str_trim line))
          then removelast lines else lines in
        str_trim (join newline lines)
    | _ => cleaned
    end.
(** The text before and behind the first occurrence, in any case. *)
Definition split_nocase (pattern s : string) : option (string * string) :=
  x ← split_at pattern (to_ascii_lowercase s);
  let n := String.length x.1 in
  Some (String.substring 0 n s,
        String.substring (n + String.length pattern) (String.length s) s).
(** [(?is)<analysis>.*?</analysis>] is replaced by nothing, everywhere. *)
Fixpoint strip_analysis (fuel : nat) (s : string) : string :=
  match fuel with
  | O => s
  | S f =>
      match split_nocase "<analysis>" s with
      | None => s
      | Some (before, rest) =>
          match split_nocase "</analysis>" rest with
          | None => s
          | Some (_, behind) => before +:+ strip_analysis f behind
          end
      end
  end.
Definition normalize_summary_output (text : string) : string :=
  let cleaned := strip_markdown_code_fence text in
  let cleaned := str_trim (strip_analysis (String.length cleaned) cleaned) in
  match split_nocase "<summary>" cleaned with
  | None => cleaned
  | Some (_, rest) =>
      match split_nocase "</summary>" rest with
      | None => cleaned
      | Some (body, _) => str_trim body
      end
  end.

(** [serde_json::Deserializer::from_str(text).into_iter().next()]: the value a
    text starts with. *)
Class JsonPrefix := { json_prefix : string -> option Value }.
Section First.
Context `{JsonPrefix}.
Fixpoint parse_first_json_object (raw : string) : option Value :=
  match raw with
  | EmptyString => None
  | String c r =>
      if (N_of_ascii c =? 123)%N then
        match json_prefix raw with
        | Some (Object o) => Some (Object o)
        | _ => parse_first_json_object r
        end
      else parse_first_json_object r
  end.
End First.

(** [value[key]]. *)
Definition value_index (v : Value) (key : string) : Value := unwrap_or (as_object v ≫= map_get key) Null.
Definition index_array (v : Value) (key : string) : list Value :=
  match value_index v key with Array l => l | _ => [] end.
Definition index_str (v : Value) (key : string) : string := unwrap_or (as_str (value_index v key)) EmptyString.

Definition SUMMARY_LISTS : list string :=
  ["original_user_messages"; "user_constraints"; "decisions"; "progress"; "key_facts"; "open_issues";
   "next_steps"].
Definition file_record (item : Value) : option Value :=
  if is_object item
     && is_some_and (as_str (value_index item "path")) (fun s => negb (trim_is_empty s))
     && is_some_and (as_str (value_index item "action"))
          (contains ["read"; "created"; "modified"; "deleted"])
  then Some (json_object [("path", Str (index_str item "path")); ("action", Str (index_str item "action"));
                          ("summary", Str (index_str item "summary"))])
  else None.
Definition error_record (item : Value) : option Value :=
  if is_object item && is_some (as_str (value_index item "error"))
  then Some (json_object [("error", Str (index_str item "error")); ("fix", Str (index_str item "fix"));
                          ("file", Str (index_str item "file"))])
  else None.
Definition string_list (v : Value) : Value :=
  match v with
  | Array l => if forallb (fun x => is_some (as_str x)) l then Array l else Array []
  | _ => Array []
  end.
Definition normalize_summary (payload : Value) : object :=
  map_of_list (
    [("summary_version", Str "2.0")]
    ++ map (fun key => (key, string_list (value_index payload key))) SUMMARY_LISTS
    ++ [("current_work_state", Str (index_str payload "current_work_state"));
        ("files_examined_or_modified",
         Array (omap file_record (index_array payload "files_examined_or_modified")));
        ("errors_and_fixes", Array (omap error_record (index_array payload "errors_and_fixes")))]).
(** A summary that says something beside the user's constraints. *)
Definition summary_informative (summary : object) : bool :=
  existsb (fun kv =>
    negb (String.eqb kv.1 "summary_version") && negb (String.eqb kv.1 "user_constraints")
    && match kv.2 with
       | Str s => negb (str_is_empty s)
       | Array l => match l with [] => false | _ => true end
       | _ => false
       end) summary.

(** *** File actions *)

Definition tool_action (tool_name : string) : option string :=
  if String.eqb tool_name "read_file" || String.eqb tool_name "file_info" then Some "read"
  else if String.eqb tool_name "write_file" || String.eqb tool_name "edit_file" then Some "modified"
  else None.
Definition value_to_trimmed_string (v : Value) : option string :=
  s ← as_str v; let s := str_trim s in if str_is_empty s then None else Some s.
Definition summarize_file_action (tool_name path : string) : string :=
  (if String.eqb tool_name "read_file" then "Read "
   else if String.eqb tool_name "file_info" then "Inspected "
   else if String.eqb tool_name "write_file" then "Updated "
   else if String.eqb tool_name "edit_file" then "Modified " else "Touched ") +:+ path.
Definition prefix_action (call : ToolCall) : option (string * string * string) :=
  action ← tool_action (tc_name call);
  path ← map_get "path" (tc_arguments call) ≫= value_to_trimmed_string;
  Some (path, action, summarize_file_action (tc_name call) path).
(** [collect_prefix_file_actions]: the first action on every path, in
    order. *)
Fixpoint first_paths (seen : list string) (l : list (string * string * string))
    : list (string * string * string) :=
  match l with
  | [] => []
  | x :: r => if contains seen x.1.1 then first_paths seen r else x :: first_paths (x.1.1 :: seen) r
  end.
Definition collect_prefix_file_actions (messages : list Message) : list (string * string * string) :=
  first_paths [] (omap prefix_action
    (concat (map m_tool_calls (List.filter (is_role RAssistant) messages)))).

(** ** Evidence *)

Definition has_references (evidence : Value) : bool :=
  existsb (fun key => match index_array evidence key with [] => false | _ => true end) ["artifacts"; "cursors"].

Section Evidence.
Context `{JsonText} `{Digest}.
Definition jcs (v : Value) : string := unwrap_or (canonicalizer_to_vec v) EmptyString.

(** The artifacts and the cursors collected so far. *)
Definition Evidence : Type := list Value * list Value.
Definition evidence_value (e : Evidence) : Value :=
  json_object [("artifacts", Array e.1); ("cursors", Array e.2)].
(** Of records with the same canonical form the first is kept. *)
Definition add_records (l records : list Value) : list Value :=
  foldl (fun l r => if contains (map jcs l) (jcs r) then l else l ++ [r]) l records.
Definition merge_manifest (e : Evidence) (manifest : Value) : result Evidence :=
  do? validate_compaction_metadata (map_of_list [(COMPACTION_METADATA_KEY, manifest)]) ;;
  Ok (add_records e.1 (index_array manifest "artifacts"), add_records e.2 (index_array manifest "cursors")).
Fixpoint collect_previous (e : Evidence) (previous : list Message) : result Evidence :=
  match previous with
  | [] => Ok e
  | m :: rest =>
      let? e := match map_get COMPACTION_METADATA_KEY (m_metadata m) with
                | Some manifest => merge_manifest e manifest
                | None => Ok e
                end in
      collect_previous e rest
  end.
Definition evidence_record (call : ToolCall) (pointer : string) (value : Value) : Value :=
  json_object [("tool_call_id", Str (tc_id call)); ("tool_name", Str (tc_name call));
               ("arguments", Str (jcs (Object (tc_arguments call)))); (pointer, value)].
Definition RECOVERY_FIELDS : list string :=
  ["truncated"; "truncation_reason"; "original_bytes"; "visible_bytes"; "artifact"; "cursor"].
(** The artifact and the cursor the recovery envelope of a result names. *)
Definition envelope_references (call : ToolCall) (content : string)
    : result (list Value * list Value) :=
  if negb (has_recovery_envelope content) then Ok ([], [])
  else
    let? parts := ok_or (rsplit_line (str_trim_end content)) "missing recovery envelope" in
    let? envelope := ok_or (json_from_str parts.2) (json_error_text parts.2) in
    fail_if (is_none_or (as_object envelope) (fun o => negb (map_len o =? 1)%N))
    with "invalid recovery envelope" ;;
    let? recovery :=
      ok_or (as_object (value_index envelope "vv_agent_recovery")) "invalid recovery object" in
    fail_if (existsb (fun k => negb (contains RECOVERY_FIELDS k)) (map_keys recovery))
    with "invalid recovery field" ;;
    let wire :=
      map_extend (map_of_list [("tool_call_id", Str (tc_id call)); ("content", Str parts.1);
                               ("status_code", Str "SUCCESS"); ("directive", Str "continue")]) recovery in
    let? r := from_dict (Object wire) in
    Ok (match tr_artifact r with
        | Some a => [evidence_record call "artifact_ref" (artifact_to_value a)] | None => [] end,
        match tr_cursor r with
        | Some c => [evidence_record call "cursor" (cursor_ref_to_value c)] | None => [] end).
Definition message_references (calls : list ToolCall) (m : Message) : result Value :=
  let? call := ok_or (List.find (fun c => m_tool_call_id m =?? Some (tc_id c)) calls) "missing tool call" in
  let own := match m_artifact_ref m with
             | Some a => [evidence_record call "artifact_ref" (artifact_to_value a)] | None => [] end in
  let? refs := envelope_references call (m_content m) in
  Ok (evidence_value (own ++ refs.1, refs.2)).
Fixpoint collect_prefix (e : Evidence) (calls : list ToolCall) (prefix : list Message) : result Evidence :=
  match prefix with
  | [] => Ok e
  | m :: rest =>
      let calls := if is_role RAssistant m then m_tool_calls m else calls in
      if negb (is_role RTool m) then collect_prefix e calls rest
      else
        let? refs := message_references calls m in
        let? e := merge_manifest e refs in
        collect_prefix e calls rest
  end.
Definition collect_evidence (previous prefix : list Message) : result Value :=
  let? e := collect_previous ([], []) previous in
  let? e := collect_prefix e [] prefix in
  Ok (evidence_value e).
Definition visible_record (record : Value) (artifact : bool) : Value :=
  let common := [("tool_call_id", value_index record "tool_call_id");
                 ("tool_name", value_index record "tool_name"); ("arguments", value_index record "arguments")] in
  json_object (common ++
    if artifact
    then [("artifact_path", value_index (value_index record "artifact_ref") "path");
          ("retrieval_hint", Str "use read_file on artifact_path if needed")]
    else [("path", value_index (value_index record "cursor") "path");
          ("offset_chars", value_index (value_index record "cursor") "offset_chars");
          ("retrieval_hint", Str "use read_file on path if needed")]).
Definition render_evidence (evidence : Value) : string :=
  join newline (
    ["<Persisted Artifacts>"]
    ++ map (fun r => "- " +:+ jcs (visible_record r true)) (index_array evidence "artifacts")
    ++ map (fun r => "- " +:+ jcs (visible_record r false)) (index_array evidence "cursors")
    ++ ["</Persisted Artifacts>"]).
End Evidence.


(** ** Prompts *)

Definition MEMORY_WARNING_EN : string := "The current memory usage has exceeded {memory_threshold_percentage}%. It is recommended to immediately organize and record key information and materials from the conversation, and store them in the workspace to prevent data loss after memory compression." +:+ newline +:+ newline.
Definition MEMORY_WARNING_ZH : string := "当前记忆已使用容量超过 {memory_threshold_percentage}%,建议立即整理、记录对话中的关键信息、资料, 并储存至工作区, 避免记忆压缩后资料丢失。" +:+ newline +:+ newline.
Definition COMPRESS_MEMORY_PROMPT_EN : string := quoted "You are summarizing a conversation between a user and an AI coding assistant.
Provide your analysis in <analysis> tags first (this section will be stripped), then output a structured JSON summary.

<analysis>
Think step by step about what information is critical to preserve, especially the user's exact wording,
the current work state, file operations, and any errors that were resolved.
</analysis>

<Previous Summary>
{previous_summary_jcs}
</Previous Summary>

<Conversation Prefix>
{conversation_prefix_jcs}
</Conversation Prefix>

Please compress the conversation into a structured JSON ^Task Status Summary^.
This summary should allow the Agent to quickly resume the task
while preserving user constraints, key decisions, file operations, and critical context.

Requirements:
- Output JSON only, no Markdown.
- Keep fields concise and searchable; use short sentences.
- If a field has no data, use [] or ^^ as appropriate.
- The ^original_user_messages^ field is critical. Preserve user messages verbatim or near-verbatim.

JSON Schema:
{
  ^summary_version^: ^2.0^,
  ^original_user_messages^: [^...^],
  ^user_constraints^: [^...^],
  ^decisions^: [^...^],
  ^files_examined_or_modified^: [
    {^path^: ^...^, ^action^: ^read|created|modified|deleted^, ^summary^: ^...^}
  ],
  ^errors_and_fixes^: [
    {^error^: ^...^, ^fix^: ^...^, ^file^: ^...^}
  ],
  ^progress^: [^Preserve up to {event_limit} critical events^],
  ^key_facts^: [^...^],
  ^open_issues^: [^...^],
  ^current_work_state^: ^...^,
  ^next_steps^: [^...^]
}
".
Definition COMPRESS_MEMORY_PROMPT_ZH : string := quoted "你正在总结一段用户与 AI 编程助手的对话。
请先在 <analysis> 标签中进行思考 (该部分后续会被剥离), 然后输出结构化 JSON 摘要。

<analysis>
请逐步思考: 哪些信息必须保留, 哪些用户原话不能丢, 哪些文件/错误/当前状态会影响后续继续执行。
</analysis>

<Previous Summary>
{previous_summary_jcs}
</Previous Summary>

<Conversation Prefix>
{conversation_prefix_jcs}
</Conversation Prefix>

请将以上对话压缩为结构化 JSON「Task Status Summary」, 让 Agent 能快速恢复任务, 并保留用户约束、关键决策、文件操作与当前工作状态。

要求:
- 只输出 JSON, 不要 Markdown。
- 字段内容简洁、可检索, 短句表达。
- 没有信息的字段使用 [] 或 ^^。
- `original_user_messages` 字段至关重要: 尽量保留用户原话, 不要做概括式改写。

JSON Schema:
{
  ^summary_version^: ^2.0^,
  ^original_user_messages^: [^...^],
  ^user_constraints^: [^...^],
  ^decisions^: [^...^],
  ^files_examined_or_modified^: [
    {^path^: ^...^, ^action^: ^read|created|modified|deleted^, ^summary^: ^...^}
  ],
  ^errors_and_fixes^: [
    {^error^: ^...^, ^fix^: ^...^, ^file^: ^...^}
  ],
  ^progress^: [^最多保留 {event_limit} 条关键进展^],
  ^key_facts^: [^...^],
  ^open_issues^: [^...^],
  ^current_work_state^: ^...^,
  ^next_steps^: [^...^]
}
".
Definition memory_warning_text (language : string) (warning_threshold_percentage : N) : string :=
  let template := if String.eqb language "zh-CN" then MEMORY_WARNING_ZH else MEMORY_WARNING_EN in
  str_replace [("{memory_threshold_percentage}", N_decimal warning_threshold_percentage)] template.

Section Prompts.
Context `{JsonText} `{Digest}.
(** A message as the prompt shows it, without its images, its artifact and
    the evidence of earlier summaries. *)
Definition project_message (m : Message) : Value :=
  let o := map_remove "artifact_ref" (message_to_map m) in
  let o :=
    if map_contains_key "image_url" o then
      let label := if str_is_empty (m_content m) then "image" else m_content m in
      map_insert "content" (Str ("[image omitted from summary input: " +:+ label +:+ "]"))
        (map_remove "image_url" o)
    else o in
  Object
    match map_get "metadata" o with
    | Some (Object metadata) =>
        match map_remove COMPACTION_METADATA_KEY metadata with
        | [] => map_remove "metadata" o
        | metadata => map_insert "metadata" (Object metadata) o
        end
    | _ => o
    end.
Definition project (messages : list Message) : string := jcs (Array (map project_message messages)).
Definition build_compress_memory_prompt (language : string) (summary_event_limit : N)
    (previous messages : list Message) : string :=
  let template :=
    if String.eqb language "zh-CN" then COMPRESS_MEMORY_PROMPT_ZH else COMPRESS_MEMORY_PROMPT_EN in
  str_replace [("{previous_summary_jcs}", project previous); ("{conversation_prefix_jcs}", project messages);
               ("{event_limit}", N_decimal (N.max summary_event_limit 1))] template.
End Prompts.

(** ** Summaries *)

Definition FILES_KEY : string := "files_examined_or_modified".
Definition MEMORY_OPEN : string := "<Compressed Agent Memory>".
Definition MEMORY_CLOSE : string := "</Compressed Agent Memory>".
Section Summarize.
Context `{JsonText} `{Digest} `{Tokenizer} `{JsonPrefix} {E : Type}.

(** The records whose path was not seen. *)
Fixpoint unseen_paths (seen : list string) (l : list Value) : list Value :=
  match l with
  | [] => []
  | path :: r =>
      if contains seen (index_str path "path") then unseen_paths seen r
      else path :: unseen_paths (index_str path "path" :: seen) r
  end.
Definition prior_paths (m : Message) : list Value :=
  match x ← split_once MEMORY_OPEN (m_content m); split_once MEMORY_CLOSE x.2 with
  | Some (body, _) =>
      index_array (Object (normalize_summary (unwrap_or (parse_first_json_object body) Null))) FILES_KEY
  | None => []
  end.
Definition action_record (x : string * string * string) : Value :=
  json_object [("path", Str x.1.1); ("action", Str x.1.2); ("summary", Str x.2)].
Definition add_paths (summary : object) (previous prefix : list Message) : object :=
  let paths := index_array (Object summary) FILES_KEY in
  let more := concat (map prior_paths previous) ++ map action_record (collect_prefix_file_actions prefix) in
  map_insert FILES_KEY
    (Array (paths ++ unseen_paths (map (fun p => index_str p "path") paths) more)) summary.
Definition original_requests (summary : object) : string :=
  join (newline +:+ newline)
    (omap as_str (index_array (Object summary) "original_user_messages")).
Definition summary_content (summary : object) (evidence : Value) : string :=
  "<Original User Request>" +:+ newline +:+ original_requests summary +:+ newline
  +:+ "</Original User Request>" +:+ newline +:+ newline
  +:+ MEMORY_OPEN +:+ newline +:+ jcs (Object summary) +:+ newline +:+ MEMORY_CLOSE +:+ newline +:+ newline
  +:+ render_evidence evidence.
Definition summary_message (summary : object) (evidence : Value) : Message :=
  let m := message_user (summary_content summary evidence) in
  {| m_role := m_role m; m_content := m_content m; m_name := Some MEMORY_SUMMARY_NAME;
     m_tool_call_id := m_tool_call_id m; m_tool_calls := m_tool_calls m;
     m_reasoning_content := m_reasoning_content m; m_image_url := m_image_url m;
     m_metadata := map_insert COMPACTION_METADATA_KEY evidence (m_metadata m);
     m_artifact_ref := m_artifact_ref m |}.

(** What the model answers: the callback of the run in a cycle, else the one
    of the configuration. *)
Definition ask_summary (c : MemoryManagerConfig) (cycle : option N)
    (callback : option (string -> option string -> option string -> N -> option string + E))
    (previous prefix : list Message) : option string + E :=
  let prompt :=
    build_compress_memory_prompt (mm_language c) (mm_summary_event_limit c) previous prefix in
  match callback, cycle with
  | Some callback, Some cycle => callback prompt (mm_summary_backend c) (mm_summary_model c) cycle
  | _, _ =>
      match mm_summary_callback c with
      | Some callback => inl (callback prompt (mm_summary_backend c) (mm_summary_model c))
      | None => inl None
      end
  end.
(** The summary and the evidence of an answer that can be used. *)
Definition usable_summary (mg : MemoryManager E) (parts : SummaryParts) (raw : string) : option Message :=
  let summary :=
    normalize_summary (unwrap_or (parse_first_json_object (normalize_summary_output raw)) Null) in
  if negb (summary_informative summary) then None
  else
    match collect_evidence (sp_previous parts) (sp_prefix parts) with
    | Err _ => None
    | Ok evidence =>
        if has_references evidence && negb (mg_recovery_tool_available mg) then None
        else Some (summary_message (add_paths summary (sp_previous parts) (sp_prefix parts)) evidence)
    end.
Definition summarize_prefix (mg : MemoryManager E) (messages : list Message) (keep : N) (cycle : option N)
    (callback : option (string -> option string -> option string -> N -> option string + E))
    : (list Message * bool) + E :=
  let c := mg_config mg in
  let unchanged := (messages, false) in
  match summary_parts messages keep with
  | None => inl unchanged
  | Some parts =>
      if match sp_prefix parts with [] => true | _ => false end
         || (is_none callback && is_none (mm_summary_callback c))
      then inl unchanged
      else
        match ask_summary c cycle callback (sp_previous parts) (sp_prefix parts) with
        | inr error => inr error
        | inl raw =>
            match usable_summary mg parts (unwrap_or raw EmptyString) with
            | None => inl unchanged
            | Some summary =>
                let candidate := sp_systems parts ++ [summary] ++ sp_tail parts in
                let tokens := count_messages_tokens candidate (mm_model c) in
                if (count_messages_tokens messages (mm_model c) <=? tokens)%N
                   || (effective_context_window c <? tokens)%N
                then inl unchanged
                else inl (candidate, true)
            end
        end
  end.
Definition compress_memory (mg : MemoryManager E) (messages : list Message) (cycle : option N)
    (callback : option (string -> option string -> option string -> N -> option string + E))
    : (list Message * bool) + E :=
  summarize_prefix mg messages (mm_keep_recent_messages (mg_config mg)) cycle callback.
End Summarize.

(** ** The manager *)

Record MemoryCompactionOutcome := {
  mo_messages : list Message;
  mo_changed : bool;
  mo_mode : MemoryCompactMode;
  mo_archived_count : N;
  mo_reclaimed_tokens : N;
  mo_artifact_failure_count : N
}.
Definition outcome_new (original messages : list Message) (mode : MemoryCompactMode) (changed : bool)
    (microcompaction : MicrocompactionApplication) : MemoryCompactionOutcome :=
  {| mo_messages := messages; mo_changed := changed;
     mo_mode := if messages =?? original then ModeNone
                else if mode =?? ModeNone then ModeStructural else mode;
     mo_archived_count := map_archived_count microcompaction;
     mo_reclaimed_tokens := map_reclaimed_tokens microcompaction;
     mo_artifact_failure_count := map_artifact_failure_count microcompaction |}.
Record CompactionRequest := {
  cr_cycle_index : N;
  cr_artifact_cycle_index : option N;
  cr_force : bool;
  cr_total_tokens : option N;
  cr_recent_tool_call_ids : option (list string);
  cr_microcompaction_plan : option MicrocompactionPlan
}.
(** [x as i32]. *)
Definition u32_as_i32 (n : N) : Z :=
  let z := Z.of_N (n mod 4294967296)%N in if (z <? 2147483648)%Z then z else (z - 4294967296)%Z.

Definition maybe_append_memory_warning (c : MemoryManagerConfig) (messages : list Message)
    (message_length : N) : list Message * bool :=
  let warning_text := memory_warning_text (mm_language c) (mm_warning_threshold_percentage c) in
  if negb (mm_include_memory_warning c) || (autocompact_threshold c =? 0)%N then (messages, false)
  else if (message_length <? warning_threshold c)%N then (messages, false)
  else if existsb (fun m => is_role RUser m && str_contains warning_text (m_content m))
            (take 10 (rev messages))
  then (messages, false)
  else (messages ++ [message_user warning_text], true).

Section Manager.
Context `{JsonText} `{Digest} `{Tokenizer} `{JsonPrefix} `{WorkspaceBackend} {E : Type}.

Definition is_text_message (m : Message) : bool :=
  negb (is_role RSystem m || is_role RTool m) && negb (trim_is_empty (m_content m)).
(** What is remembered of the conversation before it is compacted; the error
    of the run's callback ends the compaction. *)
Definition extract_session (mg : MemoryManager E) (messages : list Message) (cycle_index message_length : N)
    : MemoryManager E * option E :=
  match mg_session_memory mg with
  | None => (mg, None)
  | Some session =>
      let text_messages := N.of_nat (length (List.filter is_text_message messages)) in
      match rc_session_memory (mg_runtime_callbacks mg) with
      | Some callback =>
          if should_extract_with_runtime_callback session message_length text_messages then
            match extract_with_runtime_callback session messages (u32_as_i32 cycle_index) message_length
                    callback with
            | (session, inl _, _) => (set_session_memory mg (Some session), None)
            | (session, inr error, _) => (set_session_memory mg (Some session), Some error)
            end
          else (mg, None)
      | None =>
          if should_extract session message_length text_messages
          then (set_session_memory mg
                  (Some (extract session messages (u32_as_i32 cycle_index) message_length).1), None)
          else (mg, None)
      end
  end.
Definition note_compaction (mg : MemoryManager E) (messages : list Message) : MemoryManager E :=
  set_session_memory mg
    ((fun session => on_compaction session (Some (count_messages_tokens messages (mm_model (mg_config mg)))))
     <$> mg_session_memory mg).
(** The archiving step: the messages, their length and what was archived. *)
Definition micro_step (mg : MemoryManager E) (messages : list Message) (request : CompactionRequest)
    (message_length : N) (w : ws) : list Message * N * MicrocompactionApplication * ws :=
  if negb (cr_force request) && should_preemptive_microcompact (mg_config mg) message_length then
    let plan := unwrap_or (cr_microcompaction_plan request)
                  (plan_microcompaction mg messages message_length) in
    let '(application, w) := apply_microcompaction mg messages plan w in
    if (0 <? map_archived_count application)%N
    then (map_messages application, (message_length - map_reclaimed_tokens application)%N, application, w)
    else (messages, message_length, application, w)
  else (messages, message_length, application_default, w).

Definition compact_for_cycle_with_usage_inner (mg : MemoryManager E) (messages : list Message)
    (request : CompactionRequest) (w : ws) : (MemoryCompactionOutcome + E) * MemoryManager E * ws :=
  let c := mg_config mg in
  match messages, summary_parts messages (mm_keep_recent_messages c) with
  | [], _ | _, None => (inl (outcome_new messages messages ModeNone false application_default), mg, w)
  | _, Some _ =>
      let message_length :=
        calculate_effective_length c messages (cr_total_tokens request) (cr_recent_tool_call_ids request) in
      match extract_session mg messages (cr_cycle_index request) message_length with
      | (mg, Some error) => (inr error, mg, w)
      | (mg, None) =>
          let '(working_messages, message_length, microcompaction, w) :=
            micro_step mg messages request message_length w in
          let archived := (0 <? map_archived_count microcompaction)%N in
          let mode := if archived then ModeMicro else ModeNone in
          let sanitized := filter_empty_assistant_messages working_messages in
          let changed := archived || negb (sanitized =?? working_messages) in
          if negb (cr_force request) && (message_length <=? autocompact_threshold c)%N then
            let '(warned, warning_inserted) := maybe_append_memory_warning c sanitized message_length in
            let mode := if warning_inserted then mode_max mode ModeStructural else mode in
            (inl (outcome_new messages warned mode (changed || warning_inserted) microcompaction), mg, w)
          else
            match compress_memory mg sanitized (cr_artifact_cycle_index request)
                    (rc_memory_compaction (mg_runtime_callbacks mg)) with
            | inr error => (inr error, mg, w)
            | inl (compacted, summary_changed) =>
                let mode := if summary_changed then mode_max mode ModeSummary else mode in
                let mg := if summary_changed then note_compaction mg compacted else mg in
                (inl (outcome_new messages compacted mode (changed || summary_changed) microcompaction), mg, w)
            end
      end
  end.

(** *** Entry points *)

Definition compact_for_cycle_with_usage_observed (mg : MemoryManager E) (messages : list Message)
    (cycle_index : N) (force : bool) (total_tokens : option N) (recent_tool_call_ids : option (list string))
    (microcompaction_plan : option MicrocompactionPlan) (w : ws)
    : (MemoryCompactionOutcome + E) * MemoryManager E * ws :=
  compact_for_cycle_with_usage_inner mg messages
    {| cr_cycle_index := cycle_index; cr_artifact_cycle_index := Some cycle_index; cr_force := force;
       cr_total_tokens := total_tokens; cr_recent_tool_call_ids := recent_tool_call_ids;
       cr_microcompaction_plan := microcompaction_plan |} w.
(** The public entry points panic, [None], on an error of the run. *)
Definition into_tuple (x : (MemoryCompactionOutcome + E) * MemoryManager E * ws)
    : option (list Message * bool) * MemoryManager E * ws :=
  (match x.1.1 with inl o => Some (mo_messages o, mo_changed o) | inr _ => None end, x.1.2, x.2).
Definition compact_for_cycle_with_usage (mg : MemoryManager E) (messages : list Message)
    (cycle_index : N) (force : bool) (total_tokens : option N) (recent_tool_call_ids : option (list string))
    (w : ws) : option (list Message * bool) * MemoryManager E * ws :=
  into_tuple (compact_for_cycle_with_usage_observed mg messages cycle_index force total_tokens
                recent_tool_call_ids None w).
Definition compact_for_cycle (mg : MemoryManager E) (messages : list Message) (cycle_index : N)
    (force : bool) (w : ws) : option (list Message * bool) * MemoryManager E * ws :=
  compact_for_cycle_with_usage mg messages cycle_index force None None w.
Definition compact (mg : MemoryManager E) (messages : list Message) (force : bool) (w : ws)
    : option (list Message * bool) * MemoryManager E * ws :=
  into_tuple (compact_for_cycle_with_usage_inner mg messages
    {| cr_cycle_index := 0; cr_artifact_cycle_index := None; cr_force := force; cr_total_tokens := None;
       cr_recent_tool_call_ids := None; cr_microcompaction_plan := None |} w).

(** [drop_ratio.clamp(0.0, 0.95)]. *)
Definition f64_max_drop : f64 := 4606732058837280358%Z.
Definition clamp_drop (ratio : f64) : f64 :=
  if f64_lt ratio f64_zero then f64_zero else if f64_lt f64_max_drop ratio then f64_max_drop else ratio.
Definition emergency_keep (c : MemoryManagerConfig) (drop_ratio : f64) : N :=
  N.max (f64_floor_u64 (f64_mul (f64_of_N (mm_keep_recent_messages c))
                                (f64_sub f64_one (clamp_drop drop_ratio)))) 1.
Definition emergency_compact_observed (mg : MemoryManager E) (messages : list Message) (drop_ratio : f64)
    (cycle : option N) : (list Message + E) * MemoryManager E :=
  match summarize_prefix mg messages (emergency_keep (mg_config mg) drop_ratio) cycle
          (rc_memory_compaction (mg_runtime_callbacks mg)) with
  | inr error => (inr error, mg)
  | inl (candidate, changed) =>
      (inl candidate, if changed then note_compaction mg candidate else mg)
  end.

(** *** The recovery surface and the session context *)

Definition schema_name (schema : Value) : option string := as_str (value_index (value_index schema "function") "name").
Fixpoint validate_all_metadata (messages : list Message) : result unit :=
  match messages with
  | [] => Ok tt
  | m :: rest => do? validate_compaction_metadata (m_metadata m) ;; validate_all_metadata rest
  end.
Definition needs_recovery (m : Message) : bool :=
  is_compacted_tool_content (m_content m)
  || is_some_and (map_get COMPACTION_METADATA_KEY (m_metadata m)) has_references.
Definition set_recovery (mg : MemoryManager E) (available : bool) : MemoryManager E :=
  {| mg_config := mg_config mg; mg_session_memory := mg_session_memory mg;
     mg_runtime_callbacks := mg_runtime_callbacks mg; mg_has_workspace := mg_has_workspace mg;
     mg_artifact_namespace := mg_artifact_namespace mg;
     mg_tool_result_retentions := mg_tool_result_retentions mg; mg_recovery_tool_available := available |}.
Definition validate_model_recovery_surface (mg : MemoryManager E) (messages : list Message)
    (tool_schemas : list Value) : result unit * MemoryManager E :=
  match validate_all_metadata messages with
  | Err e => (Err e, mg)
  | Ok _ =>
      let available := existsb (fun schema => schema_name schema =?? Some "read_file") tool_schemas in
      (if negb available && existsb needs_recovery messages
       then Err "microcompaction_recovery_unavailable: compacted tool results require a model-visible read_file tool"
       else Ok tt,
       set_recovery mg available)
  end.

Definition set_content (m : Message) (content : string) : Message :=
  with_content m content (m_artifact_ref m) (m_metadata m).
(** The first system message is changed. *)
Fixpoint update_system (f : Message -> Message) (messages : list Message) : option (list Message) :=
  match messages with
  | [] => None
  | m :: rest =>
      if is_role RSystem m then Some (f m :: rest) else cons m <$> update_system f rest
  end.
Definition strip_message (m : Message) : Message :=
  match split_at "<Session Memory>" (m_content m) with
  | Some (before, _) => set_content m (str_trim_end before)
  | None => m
  end.
Definition strip_session_memory_context (messages : list Message) : list Message :=
  unwrap_or (update_system strip_message messages) messages.
Definition append_context (context : string) (m : Message) : Message :=
  set_content m
    ((if str_is_empty (m_content m) then m_content m else m_content m +:+ newline +:+ newline) +:+ context).
Definition session_message (context : string) : Message :=
  let m := message_new RSystem context in
  {| m_role := m_role m; m_content := m_content m; m_name := Some "session_memory";
     m_tool_call_id := m_tool_call_id m; m_tool_calls := m_tool_calls m;
     m_reasoning_content := m_reasoning_content m; m_image_url := m_image_url m;
     m_metadata := m_metadata m; m_artifact_ref := m_artifact_ref m |}.
Definition apply_session_memory_context (mg : MemoryManager E) (messages : list Message) : list Message :=
  let context :=
    match mg_session_memory mg with Some session => render_as_system_context session | None => EmptyString end in
  let updated := strip_session_memory_context messages in
  if str_is_empty context then updated
  else match update_system (append_context context) updated with
       | Some updated => updated
       | None => session_message context :: updated
       end.
End Manager.
