(* ===== verification/MemorySafety.v ===== *)
(** * What compaction keeps

    The theorems about [Memory]: a conversation is cut between tool turns
    only, so what a compaction leaves is a conversation the model accepts;
    archived tool results can be read back; a summary carries every pointer
    to them. *)

From Stdlib Require Import Ascii String NArith ZArith Lia.
From stdpp Require Import base strings list sets.
From S2P Require Import Prelude Json Canonical CheckpointTypes ToolResult Journal TokenUsage.
From S2P Require Import Budget BudgetWire Records ResultCodec ToolPolicy Settings Prompt Text.
From S2P Require Import Workspace MessageSanitizer SessionMemory Memory.

(** ** Conversations in the protocol *)

(** The results behind an assistant message, one for every call and in the
    order of the calls. *)
Definition call_ids (m : Message) : list string := map tc_id (m_tool_calls m).
Record Turn (m : Message) (results : list Message) : Prop := {
  turn_assistant : is_role RAssistant m = true;
  turn_calls : has_calls m = true;
  turn_distinct : NoDup (call_ids m);
  turn_named : "" ∉ call_ids m;
  turn_tools : Forall (fun r => is_role RTool r = true) results;
  turn_answers : map m_tool_call_id results = map Some (take (length results) (call_ids m))
}.
(** A conversation of messages and tool turns.  The last turn may lack
    results when [partial]. *)
Inductive Protocol (partial : bool) : list Message -> Prop :=
| protocol_nil : Protocol partial []
| protocol_plain m ms :
    is_role RTool m = false -> has_calls m = false -> Protocol partial ms -> Protocol partial (m :: ms)
| protocol_turn m results ms :
    Turn m results -> length results = length (call_ids m) -> Protocol partial ms ->
    Protocol partial (m :: results ++ ms)
| protocol_open m results :
    partial = true -> Turn m results -> length results < length (call_ids m) ->
    Protocol partial (m :: results).

Lemma protocol_weaken ms : Protocol false ms -> Protocol true ms.
Proof. induction 1; [constructor|by constructor|by constructor|done]. Qed.
Lemma protocol_app p a b : Protocol false a -> Protocol p b -> Protocol p (a ++ b).
Proof.
  intros Ha Hb. induction Ha as [|m ms Hm Hc _ IH|m results ms Ht Hl _ IH|]; [done|..|done].
  - by constructor.
  - cbn [app]. rewrite <- app_assoc. by constructor.
Qed.

(** ** The scan *)

Lemma answers_spec calls : forall seen rest,
  answers seen calls rest = true <->
  NoDup (map tc_id calls) /\ (forall x, x ∈ map tc_id calls -> x <> "" /\ x ∉ seen) /\
  Forall (fun r => is_role RTool r = true) (take (length calls) rest) /\
  map m_tool_call_id (take (length calls) rest)
  = map Some (take (length (take (length calls) rest)) (map tc_id calls)).
Proof.
  induction calls as [|call calls IH]; intros seen rest.
  - cbn. split; [|done]. intros _. split_and!; [constructor|set_solver|constructor|done].
  - cbn [answers map length]. rewrite !andb_true_iff, !negb_true_iff.
    assert (Hempty : str_is_empty (tc_id call) = false <-> tc_id call <> "")
      by (destruct (tc_id call); cbn; split; congruence).
    assert (Hseen : contains seen (tc_id call) = false <-> tc_id call ∉ seen).
    { rewrite <- not_true_iff_false. by rewrite contains_spec. }
    rewrite Hempty, Hseen, NoDup_cons. clear Hempty Hseen.
    destruct rest as [|r rest].
    + rewrite IH. cbn. rewrite !take_nil. cbn. split.
      * intros [[He Hs] (Hnd & Hx & _)]. split_and!; [intros ?|done| |constructor|done].
        -- destruct (Hx (tc_id call)); set_solver.
        -- intros x [->|Hin]%elem_of_cons; [done|]. destruct (Hx x Hin); set_solver.
      * intros ([Hni Hnd] & Hx & _). split_and!; [by apply Hx; left|by apply Hx; left|done| |constructor|done].
        intros x Hin. destruct (Hx x) as [? ?]; [by right|]. split; [done|].
        intros [->|?]%elem_of_cons; done.
    + cbn [take length map]. rewrite !andb_true_iff, IH, bool_decide_eq_true, Forall_cons. split.
      * intros [[He Hs] [[Hr Hid] (Hnd & Hx & Ht & Ha)]]. split_and!; [intros ?|done| |done|done|].
        -- destruct (Hx (tc_id call)); set_solver.
        -- intros x [->|Hin]%elem_of_cons; [done|]. destruct (Hx x Hin); set_solver.
        -- by rewrite Hid, Ha.
      * intros ([Hni Hnd] & Hx & [Hr Ht] & [= Hid Ha]).
        split_and!; [by apply Hx; left|by apply Hx; left|done|done|done| |done|done].
        intros x Hin. destruct (Hx x) as [? ?]; [by right|]. split; [done|].
        intros [->|?]%elem_of_cons; done.
Qed.
Lemma answers_turn m rest :
  has_calls m = true ->
  is_role RAssistant m && answers [] (m_tool_calls m) rest = true <->
  Turn m (take (length (m_tool_calls m)) rest).
Proof.
  intros Hc. rewrite andb_true_iff, answers_spec. split.
  - intros (Hr & Hnd & Hx & Ht & Ha). split; [done..| |done|done].
    intros Hin. by destruct (Hx "" Hin).
  - intros [Hr _ Hnd Hne Ht Ha]. split_and!; [done|done| |done|done].
    intros x Hin. split; [|set_solver]. by intros ->.
Qed.

Lemma call_ids_length m : length (call_ids m) = length (m_tool_calls m).
Proof. apply length_map. Qed.
Lemma turn_take m (results ms : list Message) :
  length results = length (call_ids m) ->
  take (length (m_tool_calls m)) (results ++ ms) = results /\ drop (length (m_tool_calls m)) (results ++ ms) = ms.
Proof. rewrite call_ids_length. intros <-. split; [apply take_app_length|apply drop_app_length]. Qed.
Lemma open_take m (results : list Message) :
  length results < length (call_ids m) ->
  take (length (m_tool_calls m)) results = results /\ drop (length (m_tool_calls m)) results = [].
Proof. rewrite call_ids_length. intros. split; [apply take_ge|apply drop_ge]; lia. Qed.
Lemma scan_cons f i m rest :
  scan_blocks (S f) i (m :: rest)
  = if is_role RTool m then None
    else if has_calls m then
      (if is_role RAssistant m && answers [] (m_tool_calls m) rest then
         cons (i, i + 1 + length (m_tool_calls m))
           <$> scan_blocks f (i + 1 + length (m_tool_calls m)) (drop (length (m_tool_calls m)) rest)
       else None)
    else cons (i, i + 1) <$> scan_blocks f (i + 1) rest.
Proof. done. Qed.
Lemma scan_turn f i m rest :
  has_calls m = true -> Turn m (take (length (m_tool_calls m)) rest) ->
  scan_blocks (S f) i (m :: rest)
  = cons (i, i + 1 + length (m_tool_calls m))
      <$> scan_blocks f (i + 1 + length (m_tool_calls m)) (drop (length (m_tool_calls m)) rest).
Proof.
  intros Hc Ht. rewrite scan_cons, Hc. apply answers_turn in Ht as Ha; [|done]. rewrite Ha.
  by rewrite (role_tool_assistant _ (turn_assistant _ _ Ht)).
Qed.
Lemma scan_plain f i m rest :
  is_role RTool m = false -> has_calls m = false ->
  scan_blocks (S f) i (m :: rest) = cons (i, i + 1) <$> scan_blocks f (i + 1) rest.
Proof. intros Hr Hc. by rewrite scan_cons, Hr, Hc. Qed.

(** The scan accepts the conversations in the protocol. *)
Lemma scan_sound f : forall i ms, length ms <= f -> is_Some (scan_blocks f i ms) -> Protocol true ms.
Proof.
  induction f as [|f IH]; intros i [|m rest] Hf Hs; cbn [length] in Hf; [constructor|lia|constructor|].
  rewrite scan_cons in Hs. destruct (is_role RTool m) eqn:Hr; [by apply is_Some_None in Hs|].
  destruct (has_calls m) eqn:Hc.
  - destruct (_ && _) eqn:Ha; [|by apply is_Some_None in Hs].
    apply answers_turn in Ha; [|done]. apply fmap_is_Some in Hs.
    rewrite <- (take_drop (length (m_tool_calls m)) rest).
    destruct (decide (length (m_tool_calls m) <= length rest)).
    + apply protocol_turn; [done|rewrite call_ids_length, length_take; lia|].
      apply (IH _ _) in Hs; [done|rewrite length_drop; lia].
    + rewrite drop_ge, app_nil_r by lia.
      apply protocol_open; [done|done|]. rewrite call_ids_length, length_take. lia.
  - apply fmap_is_Some in Hs. apply protocol_plain; [done..|]. eapply IH; [|done]. lia.
Qed.
Lemma scan_complete ms : Protocol true ms -> forall f i, length ms <= f -> is_Some (scan_blocks f i ms).
Proof.
  induction 1 as [|m ms Hr Hc _ IH|m results ms Ht Hl _ IH|m results _ Ht Hl]; intros f i Hf.
  - by destruct f.
  - destruct f as [|f]; cbn [length] in Hf; [lia|]. rewrite scan_plain by done.
    apply fmap_is_Some, IH. lia.
  - destruct f as [|f]; cbn [length] in Hf; [lia|]. rewrite length_app in Hf.
    destruct (turn_take m results ms Hl) as [Htk Hdr].
    rewrite scan_turn; [|apply Ht|by rewrite Htk]. rewrite Hdr. apply fmap_is_Some, IH. lia.
  - destruct f as [|f]; cbn [length] in Hf; [lia|]. destruct (open_take m results Hl) as [Htk Hdr].
    rewrite scan_turn; [|apply Ht|by rewrite Htk]. rewrite Hdr. apply fmap_is_Some. by destruct f.
Qed.

Lemma scan_starts f : forall i ms blocks b,
  scan_blocks f i ms = Some blocks -> b ∈ blocks -> i <= b.1.
Proof.
  induction f as [|f IH]; intros i [|m rest] blocks b Hs Hb; try (injection Hs as <-; set_solver).
  rewrite scan_cons in Hs. destruct (is_role RTool m); [done|].
  destruct (has_calls m); [destruct (_ && _); [|done]|];
    apply fmap_Some in Hs as (bs & Hbs & ->); apply elem_of_cons in Hb as [->|Hb]; cbn [fst]; try lia;
    pose proof (IH _ _ _ _ Hbs Hb); lia.
Qed.
Lemma move_cut_below blocks cut : (forall b, b ∈ blocks -> cut <= b.1) -> foldl move_cut cut blocks = cut.
Proof.
  induction blocks as [|b blocks IH]; intros Hb; [done|]. cbn [foldl]. unfold move_cut at 2.
  assert (cut <= b.1) by (apply Hb; left).
  assert ((b.1 <? cut)%nat = false) as -> by (by apply Nat.ltb_ge). cbn [andb].
  apply IH. intros. apply Hb. by right.
Qed.
Lemma move_cut_le blocks : forall cut, foldl move_cut cut blocks <= cut.
Proof.
  induction blocks as [|b blocks IH]; intros cut; [done|]. cbn [foldl]. etrans; [apply IH|].
  unfold move_cut. destruct (b.1 <? cut)%nat eqn:Hl; cbn [andb]; [|done].
  apply Nat.ltb_lt in Hl. destruct (cut <? b.2)%nat; lia.
Qed.
Lemma move_cut_in cut i e : i < cut -> cut < e -> move_cut cut (i, e) = i.
Proof.
  intros Hi He. unfold move_cut. cbn [fst snd].
  destruct (Nat.ltb_spec i cut); [|lia]. destruct (Nat.ltb_spec cut e); [done|lia].
Qed.
Lemma move_cut_out cut i e : e <= cut -> move_cut cut (i, e) = cut.
Proof.
  intros He. unfold move_cut. cbn [fst snd]. destruct (i <? cut)%nat; [|done]. cbn [andb].
  destruct (Nat.ltb_spec cut e); [lia|done].
Qed.
Lemma cut_at_start f i ms blocks cut :
  scan_blocks f i ms = Some blocks -> cut <= i -> foldl move_cut cut blocks = cut.
Proof.
  intros Hs Hi. apply move_cut_below. intros b Hb. pose proof (scan_starts _ _ _ _ _ Hs Hb). lia.
Qed.
(** A cut is moved between two turns. *)
Lemma cut_between p ms : Protocol p ms -> forall f i blocks cut,
  scan_blocks f i ms = Some blocks -> length ms <= f -> i <= cut -> (cut = i \/ cut < i + length ms) ->
  exists pre post, ms = pre ++ post /\ foldl move_cut cut blocks = i + length pre /\
    Protocol false pre /\ Protocol p post.
Proof.
  intros Hp. induction Hp as [|m ms Hr Hc Hms IH|m results ms Ht Hl Hms IH|m results Hpart Ht Hl];
    intros f i blocks cut Hs Hf Hi Hcut;
    (destruct (decide (cut = i)) as [->|Hne];
      [eexists [], _; split_and!; [done| |constructor|by constructor];
       rewrite Nat.add_0_r; by eapply cut_at_start|]);
    [cbn in Hcut; lia|..]; (destruct f as [|f]; cbn [length] in Hf, Hcut; [lia|]).
  - rewrite scan_plain in Hs by done. apply fmap_Some in Hs as (bs & Hbs & ->). cbn [foldl].
    rewrite move_cut_out by lia.
    destruct (IH _ _ _ cut Hbs) as (pre & post & -> & He & Hpre & Hpost); [lia..|].
    exists (m :: pre), post. split_and!; [done|cbn [length]; lia|by constructor|done].
  - rewrite length_app in Hf, Hcut. destruct (turn_take m results ms Hl) as [Htk Hdr].
    rewrite scan_turn in Hs; [|apply Ht|by rewrite Htk]. rewrite Hdr in Hs.
    apply fmap_Some in Hs as (bs & Hbs & ->). cbn [foldl]. rewrite call_ids_length in Hl.
    destruct (decide (cut < i + 1 + length (m_tool_calls m))) as [Hin|Hout].
    + exists [], (m :: results ++ ms).
      split_and!; [done| |constructor|constructor; [done|by rewrite call_ids_length|done]].
      rewrite move_cut_in by lia. rewrite Nat.add_0_r. eapply cut_at_start; [done|lia].
    + rewrite move_cut_out by lia.
      destruct (IH _ _ _ cut Hbs) as (pre & post & -> & He & Hpre & Hpost); [lia..|].
      exists (m :: results ++ pre), post. split_and!; [by rewrite <- app_comm_cons, app_assoc| | |done].
      * cbn [length]. rewrite length_app. lia.
      * constructor; [done|by rewrite call_ids_length|done].
  - destruct (open_take m results Hl) as [Htk Hdr].
    rewrite scan_turn in Hs; [|apply Ht|by rewrite Htk]. rewrite Hdr in Hs. rewrite call_ids_length in Hl.
    apply fmap_Some in Hs as (bs & Hbs & ->). cbn [foldl].
    exists [], (m :: results). split_and!; [done| |constructor|constructor; [done|done|by rewrite call_ids_length]].
    rewrite move_cut_in by lia. rewrite Nat.add_0_r. eapply cut_at_start; [done|lia].
Qed.

(** ** The cut *)

Lemma filter_nothing {A} (f : A -> bool) l : (forall x, x ∈ l -> f x = false) -> List.filter f l = [].
Proof.
  induction l as [|x l IH]; intros Hf; [done|]. cbn [List.filter]. rewrite (Hf x) by left.
  apply IH. intros y Hy. apply Hf. by right.
Qed.
Lemma filter_everything {A} (f : A -> bool) l : (forall x, x ∈ l -> f x = true) -> List.filter f l = l.
Proof.
  induction l as [|x l IH]; intros Hf; [done|]. cbn [List.filter]. rewrite (Hf x) by left.
  f_equal. apply IH. intros y Hy. apply Hf. by right.
Qed.
Lemma raw_bound ms : forall i x, x ∈ raw_indices i ms -> i <= x < i + length ms.
Proof.
  induction ms as [|m ms IH]; intros i x Hx; cbn [raw_indices length] in *; [set_solver|].
  apply elem_of_app in Hx as [Hx|Hx].
  - destruct (is_raw m); [apply list_elem_of_singleton in Hx|set_solver]. lia.
  - apply IH in Hx. lia.
Qed.
Lemma raw_sorted ms : forall i k c,
  raw_indices i ms !! k = Some c -> Forall (fun x => c <= x) (drop k (raw_indices i ms)).
Proof.
  induction ms as [|m ms IH]; intros i k c Hk; cbn [raw_indices] in *; [done|].
  destruct (is_raw m); cbn [app] in *; [|by eapply IH].
  destruct k as [|k]; cbn [drop] in *; [|by eapply IH].
  injection Hk as <-. constructor; [done|]. apply Forall_forall. intros x Hx%raw_bound. lia.
Qed.
Lemma raw_selected cut ms : forall base,
  omap (fun k => (base ++ ms) !! k) (List.filter (fun k => (k <? length base + cut)%nat) (raw_indices (length base) ms))
  = List.filter is_raw (take cut ms) /\
  omap (fun k => (base ++ ms) !! k) (List.filter (fun k => (length base + cut <=? k)%nat) (raw_indices (length base) ms))
  = List.filter is_raw (drop cut ms).
Proof.
  revert cut. induction ms as [|m ms IH]; intros cut base; [by rewrite take_nil, drop_nil|].
  cbn [raw_indices].
  assert (Hat : (base ++ m :: ms) !! length base = Some m) by (by apply list_lookup_middle).
  assert (Hbase : base ++ m :: ms = (base ++ [m]) ++ ms) by (by rewrite <- app_assoc).
  assert (Hlen : length base + 1 = length (base ++ [m])) by (by rewrite length_app).
  rewrite !List.filter_app, !omap_app. destruct cut as [|cut].
  - destruct (IH 0 (base ++ [m])) as [IH1 IH2]. rewrite Nat.add_0_r in *. rewrite Hbase, <- Hlen in *.
    rewrite take_0 in *. rewrite drop_0 in *. cbn [List.filter].
    assert (Hlt : forall x, x ∈ raw_indices (length base + 1) ms ->
      (x <? length base)%nat = false /\ (length base <=? x)%nat = true /\ (length base + 1 <=? x)%nat = true).
    { intros x Hx%raw_bound. split_and!; [apply Nat.ltb_ge|apply Nat.leb_le|apply Nat.leb_le]; lia. }
    split.
    + assert (List.filter (fun k => (k <? length base)%nat) (raw_indices (length base + 1) ms) = []) as ->.
      { apply filter_nothing. intros x Hx. by apply Hlt. }
      destruct (is_raw m); cbn [List.filter]; [|done]. by rewrite Nat.ltb_irrefl.
    + rewrite <- IH2.
      rewrite !(filter_everything (fun k => (_ <=? k)%nat) (raw_indices (length base + 1) ms))
        by (intros x Hx; by apply (Hlt x Hx)).
      destruct (is_raw m); cbn [List.filter]; [|done]. rewrite Nat.leb_refl. cbn [omap list_omap].
      by rewrite Hat.
  - destruct (IH cut (base ++ [m])) as [IH1 IH2].
    rewrite <- Hlen, <- Hbase, <- Nat.add_assoc in IH1, IH2. cbn [take drop].
    change (1 + cut) with (S cut) in *. split.
    + rewrite IH1. cbn [List.filter]. destruct (is_raw m); cbn [List.filter]; [|done].
      destruct (Nat.ltb_spec (length base) (length base + S cut)); [|lia]. cbn [omap list_omap]. by rewrite Hat.
    + rewrite IH2. destruct (is_raw m); cbn [List.filter]; [|done].
      destruct (Nat.leb_spec (length base + S cut) (length base)); [lia|done].
Qed.
Lemma omap_length_all {A B} (f : A -> option B) l :
  (forall x, x ∈ l -> is_Some (f x)) -> length (omap f l) = length l.
Proof.
  induction l as [|x l IH]; intros Hf; [done|]. cbn [omap list_omap].
  destruct (Hf x) as [y ->]; [by left|]. cbn [length]. f_equal. apply IH. intros z Hz. apply Hf. by right.
Qed.
Lemma raw_count cut ms :
  length (List.filter (fun k => (cut <=? k)%nat) (raw_indices 0 ms)) = length (List.filter is_raw (drop cut ms)).
Proof.
  rewrite <- (proj2 (raw_selected cut ms [])). cbn [length app Nat.add]. rewrite omap_length_all; [done|].
  intros x [Hx _]%list_elem_of_In%List.filter_In. apply lookup_lt_is_Some.
  apply list_elem_of_In, raw_bound in Hx. lia.
Qed.
Lemma raw_length ms : length (raw_indices 0 ms) = length (List.filter is_raw ms).
Proof.
  rewrite <- (drop_0 ms) at 2. rewrite <- raw_count. by rewrite filter_everything.
Qed.
Lemma tail_enough ms keep cut :
  cut <= unwrap_or (raw_indices 0 ms !! (length (raw_indices 0 ms) - N.to_nat (N.max keep 1))) 0 ->
  min (N.to_nat (N.max keep 1)) (length (List.filter is_raw ms)) <= length (List.filter is_raw (drop cut ms)).
Proof.
  rewrite <- raw_count, <- raw_length. set (raw := raw_indices 0 ms).
  set (k := length raw - N.to_nat (N.max keep 1)). intros Hcut.
  assert (Hall : List.filter (fun x => (cut <=? x)%nat) (drop k raw) = drop k raw).
  { apply filter_everything. intros x Hx. apply Nat.leb_le. destruct (raw !! k) as [c|] eqn:Hc.
    - cbn [unwrap_or] in Hcut. pose proof (raw_sorted _ _ _ _ Hc) as Hs. rewrite Forall_forall in Hs.
      pose proof (Hs x Hx). lia.
    - cbn in Hcut. lia. }
  rewrite <- (take_drop k raw) at 2. rewrite List.filter_app, length_app, Hall, length_drop. lia.
Qed.

Lemma summary_parts_protocol ms keep : is_Some (summary_parts ms keep) <-> Protocol true ms.
Proof.
  unfold summary_parts. split.
  - intros [parts Hp]. destruct (scan_blocks (length ms) 0 ms) eqn:Hs; [|done]. by eapply scan_sound.
  - intros Hp. destruct (scan_complete _ Hp (length ms) 0) as [blocks ->]; [done|]. by eexists.
Qed.
(** What the parts are: the raw messages before and behind a cut between two
    turns, at least as many of them behind it as are to be kept. *)
Lemma summary_parts_spec ms keep parts :
  summary_parts ms keep = Some parts ->
  sp_systems parts = List.filter (fun m => is_role RSystem m && negb (named_summary m)) ms /\
  sp_previous parts = List.filter named_summary ms /\
  sp_prefix parts = List.filter is_raw (take (sp_cut parts) ms) /\
  sp_tail parts = List.filter is_raw (drop (sp_cut parts) ms) /\
  min (N.to_nat (N.max keep 1)) (length (List.filter is_raw ms)) <= length (sp_tail parts) /\
  (forall p, Protocol p ms -> Protocol false (take (sp_cut parts) ms) /\ Protocol p (drop (sp_cut parts) ms)).
Proof.
  unfold summary_parts. destruct (scan_blocks (length ms) 0 ms) as [blocks|] eqn:Hs; [|done].
  cbn [mbind option_bind]. intros [= <-]. cbn [sp_systems sp_previous sp_prefix sp_tail sp_cut].
  set (raw := raw_indices 0 ms).
  set (cut0 := unwrap_or (raw !! (length raw - N.to_nat (N.max keep 1))) 0).
  set (cut := foldl move_cut cut0 blocks).
  destruct (raw_selected cut ms []) as [Hpre Htail]. cbn [length app Nat.add] in Hpre, Htail.
  split_and!; [done|done|exact Hpre|exact Htail| |].
  - pose proof (tail_enough ms keep cut (move_cut_le blocks cut0)) as Hn. rewrite <- Htail in Hn. exact Hn.
  - intros p Hp. destruct (cut_between p ms Hp (length ms) 0 blocks cut0) as (pre & post & -> & He & Ha & Hb);
      [done|done|lia| |].
    + unfold cut0. destruct (raw !! _) as [c|] eqn:Hc; [|by left]. right. cbn [unwrap_or].
      apply list_elem_of_lookup_2, raw_bound in Hc. lia.
    + fold cut in He. rewrite He. cbn [Nat.add]. by rewrite take_app_length, drop_app_length.
Qed.

(** ** Conversations a compaction leaves *)

(** Messages that may be taken out of a conversation. *)
Definition loose (m : Message) : Prop := is_role RTool m = false /\ has_calls m = false.
Lemma protocol_caller p ms m :
  Protocol p ms -> m ∈ ms -> is_role RTool m = false -> has_calls m = true -> is_role RAssistant m = true.
Proof.
  intros Hp Hm Hr Hc. induction Hp as [|x ms Hx Hxc _ IH|x results ms Ht _ _ IH|x results _ Ht _].
  - set_solver.
  - apply elem_of_cons in Hm as [->|Hm]; [congruence|by apply IH].
  - apply elem_of_cons in Hm as [->|[Hm|Hm]%elem_of_app]; [apply Ht| |by apply IH].
    pose proof (turn_tools _ _ Ht) as Hf. rewrite Forall_forall in Hf. apply Hf in Hm. congruence.
  - apply elem_of_cons in Hm as [->|Hm]; [apply Ht|].
    pose proof (turn_tools _ _ Ht) as Hf. rewrite Forall_forall in Hf. apply Hf in Hm. congruence.
Qed.
Lemma protocol_filter p (f : Message -> bool) ms :
  (forall m, m ∈ ms -> f m = false -> loose m) -> Protocol p ms -> Protocol p (List.filter f ms).
Proof.
  intros Hf Hp. revert Hf.
  assert (Hturn : forall m results (f : Message -> bool), Turn m results ->
    (forall x, x ∈ m :: results -> f x = false -> loose x) -> List.filter f (m :: results) = m :: results).
  { intros m results g Ht Hg. apply filter_everything. intros x Hx. destruct (g x) eqn:Hgx; [done|].
    destruct (Hg x Hx Hgx) as [Hr Hc]. apply elem_of_cons in Hx as [->|Hx].
    - pose proof (turn_calls _ _ Ht). congruence.
    - pose proof (turn_tools _ _ Ht) as Hf. rewrite Forall_forall in Hf. apply Hf in Hx. congruence. }
  induction Hp as [|m ms Hr Hc Hms IH|m results ms Ht Hl Hms IH|m results Hpart Ht Hl]; intros Hf.
  - constructor.
  - assert (Protocol p (List.filter f ms)) by (apply IH; intros x Hx; apply Hf; by right).
    cbn [List.filter]. destruct (f m); [by constructor|done].
  - rewrite app_comm_cons, List.filter_app, (Hturn _ _ f Ht); [|set_solver].
    apply protocol_turn; [done|done|]. apply IH. set_solver.
  - rewrite (Hturn _ _ f Ht Hf). by constructor.
Qed.
Lemma loose_protocol p ms : Forall loose ms -> Protocol p ms.
Proof. induction 1 as [|m ms [Hr Hc] _ IH]; by constructor. Qed.

(** Summaries are not part of a tool turn. *)
Definition summaries_loose (ms : list Message) : Prop := forall m, m ∈ ms -> named_summary m = true -> loose m.
Lemma role_other r r' m : is_role r m = true -> r <> r' -> is_role r' m = false.
Proof. unfold is_role. intros Hr%bool_decide_eq_true Hne. apply bool_decide_eq_false. congruence. Qed.
Lemma system_loose p ms m : Protocol p ms -> m ∈ ms -> is_role RSystem m = true -> loose m.
Proof.
  intros Hp Hm Hs. pose proof (role_other _ RTool _ Hs ltac:(done)) as Ht. split; [done|].
  destruct (has_calls m) eqn:Hc; [|done].
  pose proof (protocol_caller _ _ _ Hp Hm Ht Hc) as Ha. by rewrite (role_other _ RAssistant _ Hs) in Ha.
Qed.
Lemma silent_loose m : speaks m = false -> loose m.
Proof.
  intros Hs. split.
  - destruct (is_role RTool m) eqn:Ht; [|done]. unfold speaks in Hs.
    by rewrite (role_other _ RAssistant _ Ht) in Hs.
  - destruct (has_calls m) eqn:Hc; [|done]. by rewrite calls_speak in Hs.
Qed.
Lemma raw_protocol p ms : summaries_loose ms -> Protocol p ms -> Protocol p (List.filter is_raw ms).
Proof.
  intros Hsum Hp. apply protocol_filter; [|done]. intros m Hm. unfold is_raw.
  destruct (is_role RSystem m) eqn:Hs; [intros _; by eapply system_loose|].
  destruct (named_summary m) eqn:Hn; [intros _; by apply Hsum|]. cbn. apply silent_loose.
Qed.
Lemma candidate_protocol p ms keep parts summary :
  summary_parts ms keep = Some parts -> Protocol p ms -> summaries_loose ms -> loose summary ->
  Protocol p (sp_systems parts ++ [summary] ++ sp_tail parts).
Proof.
  intros Hparts Hp Hsum Hl. apply summary_parts_spec in Hparts as (-> & _ & _ & -> & _ & Hcut).
  destruct (Hcut p Hp) as [_ Hpost]. destruct Hl as [Hlr Hlc].
  apply protocol_app; [|cbn [app]; apply (protocol_plain p summary); [done..|]].
  - apply loose_protocol, Forall_forall. intros m [Hm Hs]%list_elem_of_In%List.filter_In.
    apply andb_true_iff in Hs as [Hs _]. apply (system_loose p ms); [done|by apply list_elem_of_In|done].
  - apply raw_protocol; [|done]. intros m Hm. apply Hsum.
    rewrite <- (take_drop (sp_cut parts) ms). apply elem_of_app. by right.
Qed.
Lemma sanitized_protocol p ms : Protocol p ms -> Protocol p (filter_empty_assistant_messages ms).
Proof. apply protocol_filter. intros m _. apply silent_loose. Qed.

(** ** Summaries *)

Section Summaries.
Context `{JsonText} `{Digest} `{Tokenizer} `{JsonPrefix} {E : Type}.

Lemma usable_loose (mg : MemoryManager E) parts raw summary :
  usable_summary mg parts raw = Some summary ->
  named_summary summary = true /\ is_role RUser summary = true /\ m_tool_calls summary = [] /\
  exists evidence, collect_evidence (sp_previous parts) (sp_prefix parts) = Ok evidence /\
    m_metadata summary = [(COMPACTION_METADATA_KEY, evidence)] /\
    (has_references evidence = true -> mg_recovery_tool_available mg = true).
Proof.
  unfold usable_summary. destruct (negb _); [done|].
  destruct (collect_evidence _ _) as [evidence|]; [|done].
  destruct (has_references evidence && _) eqn:Hr; [done|]. intros [= <-].
  split_and!; [by apply bool_decide_eq_true|by apply bool_decide_eq_true|done|].
  exists evidence. split_and!; [done|done|]. intros Href. rewrite Href in Hr. cbn in Hr.
  by apply negb_false_iff in Hr.
Qed.
Lemma user_loose m : is_role RUser m = true -> m_tool_calls m = [] -> loose m.
Proof. intros Hr Hc. split; [by apply (role_other _ _ _ Hr)|]. unfold has_calls. by rewrite Hc. Qed.

(** The cases of a summary. *)
Lemma summarize_cases (mg : MemoryManager E) ms keep cycle callback out changed :
  summarize_prefix mg ms keep cycle callback = inl (out, changed) ->
  (changed = false /\ out = ms) \/
  (changed = true /\ exists parts raw summary,
     summary_parts ms keep = Some parts /\ sp_prefix parts <> [] /\
     usable_summary mg parts raw = Some summary /\
     out = sp_systems parts ++ [summary] ++ sp_tail parts /\
     (count_messages_tokens out (mm_model (mg_config mg)) < count_messages_tokens ms (mm_model (mg_config mg)))%N /\
     (count_messages_tokens out (mm_model (mg_config mg)) <= effective_context_window (mg_config mg))%N).
Proof.
  unfold summarize_prefix. destruct (summary_parts ms keep) as [parts|]; [|intros [= <- <-]; by left].
  destruct (match sp_prefix parts with [] => true | _ => false end) eqn:Hpre;
    [intros [= <- <-]; by left|]. cbn [orb].
  destruct (is_none callback && _); [intros [= <- <-]; by left|].
  destruct (ask_summary _ _ _ _ _) as [raw|]; [|done].
  destruct (usable_summary _ _ _) as [summary|] eqn:Hu; [|intros [= <- <-]; by left].
  destruct (_ <=? _)%N eqn:Hless; [intros [= <- <-]; by left|]. cbn [orb].
  destruct (effective_context_window _ <? _)%N eqn:Hfit; [intros [= <- <-]; by left|].
  intros [= <- <-]. right. split; [done|]. exists parts, (unwrap_or raw EmptyString), summary.
  split_and!; [done|by intros Hnil; rewrite Hnil in Hpre|done|done|by apply N.leb_gt|by apply N.ltb_ge].
Qed.
(** [system_prompts], the system messages a summary keeps. *)
Definition system_prompts (ms : list Message) : list Message :=
  List.filter (fun m => is_role RSystem m && negb (named_summary m)) ms.
Lemma raw_split cut ms : List.filter is_raw ms = List.filter is_raw (take cut ms) ++ List.filter is_raw (drop cut ms).
Proof. rewrite <- List.filter_app. by rewrite take_drop. Qed.
Lemma filter_filter_none {A} (f g : A -> bool) l :
  (forall x, g x = true -> f x = false) -> List.filter f (List.filter g l) = [].
Proof. intros Hfg. apply filter_nothing. intros x [_ Hx]%list_elem_of_In%List.filter_In. by apply Hfg. Qed.
Lemma raw_not_system m : is_raw m = true -> is_role RSystem m && negb (named_summary m) = false.
Proof. unfold is_raw. by destruct (is_role RSystem m). Qed.
Lemma raw_not_summary m : is_raw m = true -> named_summary m = false.
Proof. unfold is_raw. destruct (is_role RSystem m), (named_summary m); done. Qed.

Lemma candidate_systems ms keep parts summary :
  summary_parts ms keep = Some parts -> is_role RUser summary = true ->
  system_prompts (sp_systems parts ++ [summary] ++ sp_tail parts) = system_prompts ms.
Proof.
  intros Hparts Hu. apply summary_parts_spec in Hparts as (-> & _ & _ & -> & _).
  unfold system_prompts. rewrite !List.filter_app, filter_idem. cbn [List.filter app].
  rewrite (role_other _ RSystem _ Hu) by done. cbn [andb app].
  rewrite filter_filter_none by apply raw_not_system. apply app_nil_r.
Qed.
Lemma candidate_summaries ms keep parts summary :
  summary_parts ms keep = Some parts -> named_summary summary = true ->
  List.filter named_summary (sp_systems parts ++ [summary] ++ sp_tail parts) = [summary].
Proof.
  intros Hparts Hn. apply summary_parts_spec in Hparts as (-> & _ & _ & -> & _).
  rewrite !List.filter_app. cbn [List.filter]. rewrite Hn.
  rewrite filter_filter_none by (intros m [_ Hm%negb_true_iff]%andb_true_iff; done).
  by rewrite filter_filter_none by apply raw_not_summary.
Qed.

(** (C31) A summary replaces the oldest messages by one message and is taken
    only when it helps.  The raw messages of the conversation are those it
    hides followed by those it keeps, at least one is hidden and at least
    the [keep] most recent ones are kept word for word; the system messages
    are kept in order and all earlier summaries are replaced by the new one;
    the result has strictly fewer tokens and fits the window of the model;
    if the conversation was in the tool protocol, so is the result: a tool
    call is never separated from its results. *)
Theorem summary_sound (mg : MemoryManager E) ms keep cycle callback out :
  summarize_prefix mg ms keep cycle callback = inl (out, true) ->
  exists hidden kept summary,
    List.filter is_raw ms = hidden ++ kept /\ hidden <> [] /\
    min (N.to_nat (N.max keep 1)) (length (List.filter is_raw ms)) <= length kept /\
    out = system_prompts ms ++ [summary] ++ kept /\
    system_prompts out = system_prompts ms /\ List.filter named_summary out = [summary] /\
    (count_messages_tokens out (mm_model (mg_config mg)) < count_messages_tokens ms (mm_model (mg_config mg)))%N /\
    (count_messages_tokens out (mm_model (mg_config mg)) <= effective_context_window (mg_config mg))%N /\
    (forall p, Protocol p ms -> summaries_loose ms -> Protocol p out).
Proof.
  intros Hs. apply summarize_cases in Hs as [[? _]|(_ & parts & raw & summary & Hparts & Hpre & Hu & -> & Hless & Hfit)];
    [done|].
  destruct (usable_loose _ _ _ _ Hu) as (Hn & Hr & Hc & _).
  pose proof (summary_parts_spec _ _ _ Hparts) as (Hsys & _ & Hp & Ht & Hlen & _).
  exists (sp_prefix parts), (sp_tail parts), summary. split_and!; try done.
  - rewrite Hp, Ht. apply raw_split.
  - by rewrite Hsys.
  - by eapply candidate_systems.
  - by eapply candidate_summaries.
  - intros p Hprot Hsum. eapply candidate_protocol; [done..|]. by apply user_loose.
Qed.
End Summaries.

(** ** Pointers to what was archived *)

Section Pointers.
Context `{JsonText} `{Digest}.

(** Every record of [b] is one of [a], up to the canonical form. *)
Definition same_records (a b : list Value) : Prop := forall r, r ∈ b -> jcs r ∈ map jcs a.
Definition covers (a b : Value) : Prop :=
  forall key, key ∈ ["artifacts"; "cursors"] -> same_records (index_array a key) (index_array b key).
Lemma covers_refl a : covers a a.
Proof. intros key _ r Hr. apply list_elem_of_In, in_map. by apply list_elem_of_In. Qed.
Lemma covers_trans a b c : covers a b -> covers b c -> covers a c.
Proof.
  intros Hab Hbc key Hk r Hr. destruct (proj1 (in_map_iff jcs _ _) (proj1 (list_elem_of_In _ _) (Hbc key Hk r Hr)))
    as (x & Hx & Hin). rewrite <- Hx. apply (Hab key Hk). by apply list_elem_of_In.
Qed.
Lemma evidence_index (e : Evidence) :
  index_array (evidence_value e) "artifacts" = e.1 /\ index_array (evidence_value e) "cursors" = e.2.
Proof. done. Qed.
Lemma covers_evidence (e : Evidence) b :
  covers (evidence_value e) b <->
  same_records e.1 (index_array b "artifacts") /\ same_records e.2 (index_array b "cursors").
Proof.
  destruct (evidence_index e) as [Ha Hc]. split.
  - intros Hk. rewrite <- Ha, <- Hc. split; apply Hk; set_solver.
  - intros [H1' H2'] key Hk. apply elem_of_cons in Hk as [->|[->|?]%elem_of_cons]; [done|done|set_solver].
Qed.
Lemma add_records_covers records : forall l,
  same_records (add_records l records) l /\ same_records (add_records l records) records.
Proof.
  induction records as [|r records IH]; intros l; unfold add_records in *; cbn [foldl].
  - split; [|intros r Hr; set_solver]. intros x Hx. apply list_elem_of_In, in_map. by apply list_elem_of_In.
  - destruct (IH (if contains (map jcs l) (jcs r) then l else l ++ [r])) as [Ha Hb].
    assert (Hnow : same_records (if contains (map jcs l) (jcs r) then l else l ++ [r]) (r :: l)).
    { destruct (contains (map jcs l) (jcs r)) eqn:Hc; intros x [->|Hx]%elem_of_cons.
      - by apply contains_spec.
      - apply list_elem_of_In, in_map. by apply list_elem_of_In.
      - rewrite map_app. apply elem_of_app. right. by left.
      - rewrite map_app. apply elem_of_app. left. apply list_elem_of_In, in_map. by apply list_elem_of_In. }
    assert (Hboth : forall x, x ∈ r :: l -> jcs x ∈ map jcs (foldl (fun l0 r0 =>
      if contains (map jcs l0) (jcs r0) then l0 else l0 ++ [r0])
      (if contains (map jcs l) (jcs r) then l else l ++ [r]) records)).
    { intros x Hx. destruct (proj1 (in_map_iff jcs _ _) (proj1 (list_elem_of_In _ _) (Hnow x Hx))) as (y & Hy & Hin).
      rewrite <- Hy. apply Ha. by apply list_elem_of_In. }
    split.
    + intros x Hx. apply Hboth. by right.
    + intros x [->|Hx]%elem_of_cons; [apply Hboth; by left|by apply Hb].
Qed.
Lemma merge_covers e manifest e' :
  merge_manifest e manifest = Ok e' ->
  covers (evidence_value e') (evidence_value e) /\ covers (evidence_value e') manifest.
Proof.
  unfold merge_manifest. intros Hm. destruct (validate_compaction_metadata _) as [[]|]; [|done].
  injection Hm as <-. rewrite !covers_evidence. cbn [fst snd].
  destruct (evidence_index e) as [-> ->].
  split; split; apply add_records_covers.
Qed.
Lemma previous_covers previous : forall e e',
  collect_previous e previous = Ok e' ->
  covers (evidence_value e') (evidence_value e) /\
  forall m manifest, m ∈ previous -> map_get COMPACTION_METADATA_KEY (m_metadata m) = Some manifest ->
    covers (evidence_value e') manifest.
Proof.
  induction previous as [|x previous IH]; intros e e' Hc; cbn [collect_previous] in Hc.
  - injection Hc as <-. split; [apply covers_refl|set_solver].
  - destruct (map_get COMPACTION_METADATA_KEY (m_metadata x)) as [manifest|] eqn:Hx.
    + destruct (merge_manifest e manifest) as [e1|] eqn:Hm; [|done]. cbn in Hc.
      destruct (merge_covers _ _ _ Hm) as [H1' H2'], (IH _ _ Hc) as [H3' H4'].
      split; [by eapply covers_trans|]. intros m man [->|Hin]%elem_of_cons Hman; [|by eapply H4'].
      rewrite Hx in Hman. injection Hman as <-. by eapply covers_trans.
    + cbn in Hc. destruct (IH _ _ Hc) as [H3' H4']. split; [done|].
      intros m man [->|Hin]%elem_of_cons Hman; [congruence|by eapply H4'].
Qed.
Lemma prefix_covers prefix : forall e calls e',
  collect_prefix e calls prefix = Ok e' ->
  covers (evidence_value e') (evidence_value e) /\
  forall m, m ∈ prefix -> is_role RTool m = true ->
    exists calls' refs, message_references calls' m = Ok refs /\ covers (evidence_value e') refs.
Proof.
  induction prefix as [|x prefix IH]; intros e calls e' Hc; cbn [collect_prefix] in Hc.
  - injection Hc as <-. split; [apply covers_refl|set_solver].
  - destruct (is_role RTool x) eqn:Hx; cbn [negb] in Hc.
    + destruct (message_references _ x) as [refs|] eqn:Hr; [|done]. cbn in Hc.
      destruct (merge_manifest e refs) as [e1|] eqn:Hm; [|done]. cbn in Hc.
      destruct (merge_covers _ _ _ Hm) as [H1' H2'], (IH _ _ _ Hc) as [H3' H4'].
      split; [by eapply covers_trans|]. intros m [->|Hin]%elem_of_cons Ht; [|by apply H4'].
      eexists _, refs. split; [done|by eapply covers_trans].
    + destruct (IH _ _ _ Hc) as [H3' H4']. split; [done|].
      intros m [->|Hin]%elem_of_cons Ht; [congruence|by apply H4'].
Qed.
Lemma references_artifact calls m refs a :
  message_references calls m = Ok refs -> m_artifact_ref m = Some a ->
  exists call, m_tool_call_id m = Some (tc_id call) /\
    evidence_record call "artifact_ref" (artifact_to_value a) ∈ index_array refs "artifacts".
Proof.
  unfold message_references. intros Hr Ha. rewrite Ha in Hr.
  destruct (List.find _ calls) as [call|] eqn:Hf; [|done]. cbn [ok_or] in Hr. cbn in Hr.
  destruct (envelope_references _ _) as [[arts curs]|]; [|done]. cbn in Hr. injection Hr as <-.
  apply List.find_some in Hf as [_ Hid%bool_decide_eq_true]. exists call. split; [done|].
  change (evidence_record call "artifact_ref" (artifact_to_value a) ∈
          evidence_record call "artifact_ref" (artifact_to_value a) :: arts). by left.
Qed.

End Pointers.

(** ** Archived tool results *)

Section Archives.
Context `{JsonText} `{Tokenizer} `{DG : Digest} `{WL : WorkspaceLaws} {E : Type}.

(** [w'] has everything [w] has. *)
Definition ws_extends (w w' : ws) : Prop :=
  forall path x, ws_read_bytes w path = Ok x -> ws_read_bytes w' path = Ok x.
Lemma read_validated_spec w a x :
  read_validated_text_artifact w a = Ok x -> ws_read_bytes w (art_path a) = Ok x.
Proof.
  unfold read_validated_text_artifact. destruct (map_err _ _) as [[]|]; [|done].
  destruct (ws_read_bytes w (art_path a)) as [bytes|]; [|done].
  destruct (negb _); [done|]. by destruct (negb _).
Qed.
Lemma read_validated_extends w w' a x :
  ws_extends w w' -> read_validated_text_artifact w a = Ok x -> read_validated_text_artifact w' a = Ok x.
Proof.
  intros Hw Hr. pose proof (Hw _ _ (read_validated_spec _ _ _ Hr)) as Hr'. revert Hr.
  unfold read_validated_text_artifact. rewrite Hr'.
  destruct (map_err _ _) as [[]|]; [|done]. destruct (ws_read_bytes w (art_path a)) as [bytes|] eqn:Hb; [|done].
  pose proof (Hw _ _ Hb) as Heq. rewrite Hr' in Heq. by injection Heq as ->.
Qed.

(** The message [m'] stands for [m], whose result is in the workspace. *)
Definition same_envelope (m m' : Message) : Prop :=
  m_role m' = m_role m /\ m_name m' = m_name m /\ m_tool_call_id m' = m_tool_call_id m /\
  m_tool_calls m' = m_tool_calls m /\ m_reasoning_content m' = m_reasoning_content m /\
  m_image_url m' = m_image_url m.
Record Archived (mg : MemoryManager E) (w : ws) (tool_name : string) (m m' : Message) : Prop := {
  ar_tool : is_role RTool m = true;
  ar_envelope : same_envelope m m';
  ar_smaller : (count_messages_tokens [m'] (mm_model (mg_config mg))
                < count_messages_tokens [m] (mm_model (mg_config mg)))%N;
  ar_stored : exists a complete,
    m_artifact_ref m' = Some a /\ ws_read_bytes w (art_path a) = Ok complete /\
    m_content m' = build_compacted_tool_content complete (art_path a) tool_name
                     (mm_tool_result_excerpt_head (mg_config mg)) (mm_tool_result_excerpt_tail (mg_config mg)) /\
    match m_artifact_ref m with
    | None => complete = m_content m
    | Some a0 => a = a0 /\ read_validated_text_artifact w a = Ok complete
    end
}.
Lemma archived_extends mg w w' tool_name m m' :
  ws_extends w w' -> Archived mg w tool_name m m' -> Archived mg w' tool_name m m'.
Proof.
  intros Hw [Ht He Hs (a & complete & Ha & Hr & Hc & Hm)]. split; [done|done|done|].
  exists a, complete. split_and!; [done|by apply Hw|done|]. destruct (m_artifact_ref m); [|done].
  destruct Hm as [-> Hv]. split; [done|by eapply read_validated_extends].
Qed.
Lemma archive_spec (mg : MemoryManager E) w m candidate archived w' :
  archive_tool_message mg w m candidate = (archived, w') -> mcd_existing_artifact candidate = m_artifact_ref m ->
  ws_extends w w' /\
  forall a complete, archived = Some (a, complete) ->
    ws_read_bytes w' (art_path a) = Ok complete /\
    match m_artifact_ref m with
    | None => complete = m_content m
    | Some a0 => a = a0 /\ read_validated_text_artifact w' a = Ok complete
    end.
Proof.
  unfold archive_tool_message. intros Ha Hc. rewrite Hc in Ha. destruct (m_artifact_ref m) as [a0|].
  - injection Ha as <- <-. split; [by intros ? ?|]. intros a complete Hs.
    destruct (read_validated_text_artifact w a0) as [x|] eqn:Hv; [|done]. injection Hs as <- <-.
    split; [by apply read_validated_spec|done].
  - destruct (has_recovery_envelope _).
    { injection Ha as <- <-. by split; [intros ? ?|]. }
    destruct (persist_replayable_text_artifact w _ _ _) as [outcome w1] eqn:Hp. injection Ha as <- <-. split.
    + intros q x Hq. pose proof (persist_keeps w (mg_artifact_namespace mg)
        (unwrap_or (m_tool_call_id m) "tool-result") (m_content m) q x Hq) as Hk. by rewrite Hp in Hk.
    + intros a complete Hs. destruct outcome as [a'|]; [|done]. injection Hs as <- <-.
      by destruct (persist_spec _ _ _ _ _ _ Hp) as (_ & Hr & _).
Qed.

(** The candidates of a plan for the messages. *)
Definition candidate_of (ms : list Message) (candidate : MicrocompactionCandidate) : Prop :=
  exists m, ms !! mcd_message_index candidate = Some m /\ is_role RTool m = true /\
    mcd_existing_artifact candidate = m_artifact_ref m.
(** Every message is there, as it was or archived for a candidate. *)
Definition stands_for (mg : MemoryManager E) (w : ws) (candidates : list MicrocompactionCandidate)
    (ms ms' : list Message) : Prop :=
  length ms' = length ms /\
  forall i m m', ms !! i = Some m -> ms' !! i = Some m' ->
    m' = m \/ exists candidate, candidate ∈ candidates /\ mcd_message_index candidate = i /\
                Archived mg w (mcd_tool_name candidate) m m'.
Lemma stands_refl mg w cs ms : stands_for mg w cs ms ms.
Proof. split; [done|]. intros i m m' Hm Hm'. left. congruence. Qed.
Lemma stands_extends mg w w' cs ms ms' :
  ws_extends w w' -> stands_for mg w cs ms ms' -> stands_for mg w' cs ms ms'.
Proof.
  intros Hw [Hl Hs]. split; [done|]. intros i m m' Hm Hm'.
  destruct (Hs i m m' Hm Hm') as [->|(c & Hc & Hi & Ha)]; [by left|right].
  exists c. split_and!; [done|done|by eapply archived_extends].
Qed.
Lemma stands_insert mg w cs ms ms' candidate m r :
  stands_for mg w cs ms ms' -> candidate ∈ cs -> ms !! mcd_message_index candidate = Some m ->
  Archived mg w (mcd_tool_name candidate) m r ->
  stands_for mg w cs ms (<[mcd_message_index candidate := r]> ms').
Proof.
  intros [Hl Hs] Hc Hm Ha. split; [by rewrite length_insert|]. intros i x x' Hx Hx'.
  destruct (decide (i = mcd_message_index candidate)) as [->|Hne].
  - apply list_lookup_insert_Some in Hx' as [(_ & <- & _)|[Hbad _]]; [|done]. right.
    exists candidate. split_and!; [done|done|]. by rewrite Hm in Hx; injection Hx as <-.
  - rewrite list_lookup_insert_ne in Hx' by done. by eapply Hs.
Qed.
Lemma replacement_archived mg w m candidate a complete :
  is_role RTool m = true ->
  ws_read_bytes w (art_path a) = Ok complete ->
  match m_artifact_ref m with
  | None => complete = m_content m
  | Some a0 => a = a0 /\ read_validated_text_artifact w a = Ok complete
  end ->
  (count_messages_tokens [replacement_of (mg_config mg) m candidate a complete] (mm_model (mg_config mg))
   < count_messages_tokens [m] (mm_model (mg_config mg)))%N ->
  Archived mg w (mcd_tool_name candidate) m (replacement_of (mg_config mg) m candidate a complete).
Proof. intros Ht Hr Hm Hs. split; [done|done|done|]. by exists a, complete. Qed.
Lemma apply_candidates_stands (mg : MemoryManager E) ms target all cs : forall usage w acc app w',
  apply_candidates mg ms target cs usage w acc = (app, w') ->
  (forall c, c ∈ cs -> c ∈ all /\ candidate_of ms c) -> stands_for mg w all ms (map_messages acc) ->
  ws_extends w w' /\ stands_for mg w' all ms (map_messages app).
Proof.
  induction cs as [|c cs IH]; intros usage w acc app w' Ha Hcs Hs; cbn [apply_candidates] in Ha.
  - injection Ha as <- <-. by split; [intros ? ?|].
  - assert (Hcs' : forall x, x ∈ cs -> x ∈ all /\ candidate_of ms x) by (intros; apply Hcs; by right).
    destruct (_ <=? target)%N; [injection Ha as <- <-; by split; [intros ? ?|]|].
    destruct (Hcs c) as [Hall (m & Hm & Ht & Hex)]; [by left|]. rewrite Hm in Ha.
    destruct (archive_tool_message mg w m c) as [archived w1] eqn:Har.
    destruct (archive_spec _ _ _ _ _ _ Har Hex) as [Hw Hok].
    pose proof (stands_extends _ _ _ _ _ _ Hw Hs) as Hs1.
    assert (Hstep : ws_extends w1 w' /\ stands_for mg w' all ms (map_messages app)).
    { destruct archived as [[a complete]|]; [|by eapply IH].
      destruct (Hok a complete eq_refl) as [Hr Hk]. destruct (_ =? 0)%N eqn:Hz; [by eapply IH|].
      eapply IH; [done|done|]. cbn [map_messages]. eapply stands_insert; [done|done|done|].
      apply replacement_archived; [done|done|done|]. apply N.eqb_neq in Hz. lia. }
    destruct Hstep as [Hw2 Hs2]. split; [|done]. intros path x Hx. by apply Hw2, Hw.
Qed.
Lemma apply_stands (mg : MemoryManager E) ms plan w app w' :
  apply_microcompaction mg ms plan w = (app, w') ->
  (forall c, c ∈ mpl_candidates plan -> candidate_of ms c) ->
  ws_extends w w' /\ stands_for mg w' (mpl_candidates plan) ms (map_messages app).
Proof.
  unfold apply_microcompaction. intros Ha Hc. destruct (mpl_candidates plan) as [|c cs] eqn:Hcs.
  - injection Ha as <- <-. by split; [intros ? ?|apply stands_refl].
  - destruct (negb _); [injection Ha as <- <-; by split; [intros ? ?|apply stands_refl]|].
    eapply apply_candidates_stands; [done| |apply stands_refl]. intros x Hx. split; [done|by apply Hc].
Qed.

(** *** The plan *)

(** What may be archived: a large result of an earlier cycle, of a tool whose
    results are archived, outside of the messages that are kept when the
    conversation is over its limit. *)
Record Archivable (mg : MemoryManager E) (ms : list Message) (usage : N) (i : nat) (m : Message)
    (tool_name : string) : Prop := {
  av_tool : is_role RTool m = true;
  av_large : (mp_min_result_chars (mm_microcompaction_policy (mg_config mg)) < char_count (m_content m))%N;
  av_first : is_compacted_tool_content (m_content m) = false;
  av_named : m_tool_call_id m ≫= (fun id => map_get id (build_tool_call_name_map ms)) = Some tool_name;
  av_retention : unwrap_or (map_get tool_name (mg_tool_result_retentions mg)) ArchiveResult = ArchiveResult;
  av_old : exists cycle, infer_message_cycles ms !! i = Some cycle /\
    (cycle + mp_keep_recent_cycles (mm_microcompaction_policy (mg_config mg))
     <= unwrap_or (last (infer_message_cycles ms)) 0)%N;
  av_outside : (autocompact_threshold (mg_config mg) < usage)%N ->
    exists parts, summary_parts ms (mm_keep_recent_messages (mg_config mg)) = Some parts /\ i < sp_cut parts
}.
Lemma eligible_spec m cycle protected min_chars names retentions tool_name :
  eligible_tool_name m cycle protected min_chars names retentions = Some tool_name ->
  is_role RTool m = true /\ (cycle < protected)%N /\ (min_chars < char_count (m_content m))%N /\
  is_compacted_tool_content (m_content m) = false /\
  m_tool_call_id m ≫= (fun id => map_get id names) = Some tool_name /\
  unwrap_or (map_get tool_name retentions) ArchiveResult = ArchiveResult.
Proof.
  unfold eligible_tool_name. destruct (_ || _) eqn:Hg; [done|]. intros Hn.
  rewrite !orb_false_iff, negb_false_iff in Hg. destruct Hg as [[[[Hr Hc] Hm] Hk] _].
  apply bind_Some in Hn as (name & Hname & Hret). destruct (bool_decide _) eqn:Hb; [|done].
  injection Hret as <-. apply bool_decide_eq_true in Hb.
  split_and!; [done|by apply N.leb_gt|by apply N.leb_gt|done|done|done].
Qed.
Lemma combine_at {A B} (l : list A) : forall (l' : list B) i x y,
  combine l l' !! i = Some (x, y) -> l !! i = Some x /\ l' !! i = Some y.
Proof.
  induction l as [|a l IH]; intros [|b l'] [|i] x y Hi; try done; cbn in Hi.
  - by injection Hi as -> ->.
  - exact (IH _ _ _ _ Hi).
Qed.
Lemma plan_candidates_spec (mg : MemoryManager E) names protected tail l : forall index c n,
  (c, n) ∈ plan_candidates mg names protected tail index l ->
  exists m cycle i, l !! i = Some (m, cycle) /\ mcd_message_index c = index + i /\ index + i < tail /\
    mcd_existing_artifact c = m_artifact_ref m /\
    eligible_tool_name m cycle protected (mp_min_result_chars (mm_microcompaction_policy (mg_config mg)))
      names (mg_tool_result_retentions mg) = Some (mcd_tool_name c).
Proof.
  induction l as [|[m cycle] l IH]; intros index c n Hin; cbn [plan_candidates] in Hin; [set_solver|].
  assert (Hmore : (c, n) ∈ plan_candidates mg names protected tail (index + 1) l ->
    exists m' cycle' i, ((m, cycle) :: l) !! i = Some (m', cycle') /\ mcd_message_index c = index + i /\
      index + i < tail /\ mcd_existing_artifact c = m_artifact_ref m' /\
      eligible_tool_name m' cycle' protected (mp_min_result_chars (mm_microcompaction_policy (mg_config mg)))
        names (mg_tool_result_retentions mg) = Some (mcd_tool_name c)).
  { intros Hm. destruct (IH _ _ _ Hm) as (m' & cycle' & i & Hl & Hi & Ht & Hrest).
    exists m', cycle', (S i). split_and!; [done|lia|lia|apply Hrest..]. }
  destruct (Nat.leb_spec tail index); [by apply Hmore|].
  destruct (_ ≫= _) as [candidate|] eqn:He; [|by apply Hmore].
  apply elem_of_cons in Hin as [<-|Hin]; [|by apply Hmore].
  apply bind_Some in He as (tool_name & Hel & Hest). unfold estimated_candidate in Hest.
  destruct (_ =? 0)%N; [done|]. injection Hest as <- <-. cbn [mcd_message_index mcd_existing_artifact mcd_tool_name].
  exists m, cycle, 0. split_and!; [done|lia|lia|done|done].
Qed.
Lemma plan_spec (mg : MemoryManager E) ms usage c :
  c ∈ mpl_candidates (plan_microcompaction mg ms usage) ->
  exists m, ms !! mcd_message_index c = Some m /\ mcd_existing_artifact c = m_artifact_ref m /\
    Archivable mg ms usage (mcd_message_index c) m (mcd_tool_name c).
Proof.
  unfold plan_microcompaction. destruct (_ || _); [cbn; set_solver|].
  set (protected := (_ - _)%N). intros Hc.
  destruct (if (autocompact_threshold (mg_config mg) <? usage)%N then _ else _) as [tail|] eqn:Htail;
    [|cbn in Hc; set_solver].
  cbn [mpl_candidates] in Hc. apply list_elem_of_In, in_map_iff in Hc as ([c' n] & <- & Hin%list_elem_of_In).
  destruct (plan_candidates_spec _ _ _ _ _ _ _ _ Hin) as (m & cycle & i & Hl & Hi & Ht & Hex & Hel).
  cbn [Nat.add] in Hi, Ht. cbn [fst]. rewrite Hi. apply combine_at in Hl as [Hm Hcy].
  destruct (eligible_spec _ _ _ _ _ _ _ Hel) as (Hr & Hp & Hlarge & Hcomp & Hname & Hret).
  exists m. split_and!; [done|done|]. split; [done..| |].
  - exists cycle. split; [done|]. unfold protected in Hp. lia.
  - intros Hover%N.ltb_lt. rewrite Hover in Htail. apply fmap_Some in Htail as (parts & Hparts & ->). by exists parts.
Qed.

(** (C32) Archiving loses nothing.  Every message keeps its place, and one
    that changed was a large result, not archived before, of a tool whose
    results may be archived, from a cycle older than the ones to keep, and
    not among the recent messages when the conversation is over its limit;
    it is still the result of the same call and takes fewer tokens, and its
    complete content is in the workspace under the artifact it names.
    Nothing that was in the workspace is lost. *)
Theorem microcompaction_lossless (mg : MemoryManager E) ms usage w app w' :
  apply_microcompaction mg ms (plan_microcompaction mg ms usage) w = (app, w') ->
  ws_extends w w' /\ length (map_messages app) = length ms /\
  forall i m m', ms !! i = Some m -> map_messages app !! i = Some m' ->
    m' = m \/ exists tool_name, Archivable mg ms usage i m tool_name /\ Archived mg w' tool_name m m'.
Proof.
  intros Ha. destruct (apply_stands _ _ _ _ _ _ Ha) as [Hw [Hl Hs]].
  { intros c Hc. destruct (plan_spec _ _ _ _ Hc) as (m & Hm & Hex & Hav). exists m.
    split_and!; [done|apply Hav|done]. }
  split_and!; [done|done|]. intros i m m' Hm Hm'.
  destruct (Hs i m m' Hm Hm') as [->|(c & Hc & <- & Har)]; [by left|right].
  exists (mcd_tool_name c). split; [|done].
  destruct (plan_spec _ _ _ _ Hc) as (x & Hx & _ & Hav). rewrite Hm in Hx. by injection Hx as <-.
Qed.
End Archives.

(** ** The whole compaction *)

(** A message, or a tool result with another content. *)
Definition resembles (m m' : Message) : Prop := m' = m \/ (is_role RTool m = true /\ same_envelope m m').
Lemma resembles_role m m' r : resembles m m' -> is_role r m' = is_role r m.
Proof. intros [->|[_ (Hr & _)]]; [done|]. unfold is_role. by rewrite Hr. Qed.
Lemma resembles_name m m' : resembles m m' -> named_summary m' = named_summary m.
Proof. intros [->|[_ (_ & Hn & _)]]; [done|]. unfold named_summary. by rewrite Hn. Qed.
Lemma resembles_other m m' : resembles m m' -> is_role RTool m = false -> m' = m.
Proof. intros [->|[Ht _]] Hr; [done|congruence]. Qed.
Lemma resembles_id m m' : resembles m m' -> m_tool_call_id m' = m_tool_call_id m.
Proof. by intros [->|[_ (_ & _ & Hi & _)]]. Qed.
Lemma resembles_prompts ms ms' : Forall2 resembles ms ms' -> system_prompts ms' = system_prompts ms.
Proof.
  induction 1 as [|m m' ms ms' Hm _ IH]; [done|]. unfold system_prompts in *. cbn [List.filter].
  rewrite (resembles_role _ _ RSystem Hm), (resembles_name _ _ Hm), IH.
  destruct (is_role RSystem m) eqn:Hs; [|done].
  by rewrite (resembles_other _ _ Hm (role_other _ RTool _ Hs ltac:(done))).
Qed.
Lemma resembles_summaries ms ms' : Forall2 resembles ms ms' -> summaries_loose ms -> summaries_loose ms'.
Proof.
  intros Hf Hl m' Hm' Hn. apply list_elem_of_lookup in Hm' as [i Hi].
  destruct (Forall2_lookup_r _ _ _ _ _ Hf Hi) as (m & Hm & Hr).
  rewrite (resembles_name _ _ Hr) in Hn. destruct (Hl m) as [Ht Hc]; [by eapply list_elem_of_lookup_2|done|].
  by rewrite (resembles_other _ _ Hr Ht).
Qed.
Lemma resembles_results results results' :
  Forall2 resembles results results' -> Forall (fun r => is_role RTool r = true) results ->
  Forall (fun r => is_role RTool r = true) results' /\ map m_tool_call_id results' = map m_tool_call_id results.
Proof.
  induction 1 as [|m m' ms ms' Hm _ IH]; intros Ht; [done|]. apply Forall_cons in Ht as [Hr Ht].
  destruct (IH Ht) as [Hf Hids]. split.
  - constructor; [|done]. by rewrite (resembles_role _ _ _ Hm).
  - cbn [map]. by rewrite Hids, (resembles_id _ _ Hm).
Qed.
Lemma resembles_turn m m' results results' :
  resembles m m' -> Forall2 resembles results results' -> Turn m results -> m' = m /\ Turn m results'.
Proof.
  intros Hm Hrs Ht. rewrite (resembles_other _ _ Hm (role_tool_assistant _ (turn_assistant _ _ Ht))).
  destruct (resembles_results _ _ Hrs (turn_tools _ _ Ht)) as [Hf Hids]. split; [done|].
  split; [apply Ht..|done|]. rewrite Hids, <- (Forall2_length _ _ _ Hrs). apply Ht.
Qed.
Lemma resembles_protocol p ms : Protocol p ms -> forall ms', Forall2 resembles ms ms' -> Protocol p ms'.
Proof.
  induction 1 as [|m ms Hr Hc _ IH|m results ms Ht Hl _ IH|m results Hp Ht Hl]; intros ms' Hf.
  - apply Forall2_nil_inv_l in Hf as ->. constructor.
  - apply Forall2_cons_inv_l in Hf as (m' & rest & Hm & Hf & ->).
    rewrite (resembles_other _ _ Hm Hr). apply protocol_plain; [done|done|by apply IH].
  - apply Forall2_cons_inv_l in Hf as (m' & rest & Hm & Hf & ->).
    apply Forall2_app_inv_l in Hf as (results' & rest' & Hrs & Hrest & ->).
    destruct (resembles_turn _ _ _ _ Hm Hrs Ht) as [-> Ht'].
    apply protocol_turn; [done|by rewrite <- (Forall2_length _ _ _ Hrs)|by apply IH].
  - apply Forall2_cons_inv_l in Hf as (m' & rest & Hm & Hf & ->).
    destruct (resembles_turn _ _ _ _ Hm Hf Ht) as [-> Ht'].
    apply protocol_open; [done|done|by rewrite <- (Forall2_length _ _ _ Hf)].
Qed.

Lemma silent_prompts ms : system_prompts (filter_empty_assistant_messages ms) = system_prompts ms.
Proof.
  unfold system_prompts, filter_empty_assistant_messages.
  induction ms as [|m ms IH]; [done|]. cbn [List.filter]. destruct (speaks m) eqn:Hs; cbn [List.filter]; [by rewrite IH|].
  assert (is_role RSystem m = false) as ->; [|done].
  destruct (is_role RSystem m) eqn:Hr; [|done]. unfold speaks in Hs. by rewrite (role_other _ RAssistant _ Hr) in Hs.
Qed.
Lemma warned_keeps c ms n out inserted :
  maybe_append_memory_warning c ms n = (out, inserted) ->
  system_prompts out = system_prompts ms /\ (Protocol false ms -> Protocol false out) /\
  (summaries_loose ms -> summaries_loose out).
Proof.
  unfold maybe_append_memory_warning. destruct (negb _ || _); [by intros [= <- _]|].
  destruct (_ <? _)%N; [by intros [= <- _]|]. destruct (existsb _ _); [by intros [= <- _]|].
  intros [= <- _]. split_and!.
  - unfold system_prompts. rewrite List.filter_app. cbn. apply app_nil_r.
  - intros Hp. apply protocol_app; [done|]. apply protocol_plain; [done|done|constructor].
  - intros Hl m [Hm|Hm%list_elem_of_singleton]%elem_of_app; [by apply Hl|]. by subst m.
Qed.

Section Whole.
Context `{JsonText} `{DG : Digest} `{Tokenizer} `{JsonPrefix} `{WL : WorkspaceLaws} {E : Type}.

Lemma stands_resembles (mg : MemoryManager E) w cs ms ms' : stands_for mg w cs ms ms' -> Forall2 resembles ms ms'.
Proof.
  intros [Hl Hs]. apply Forall2_same_length_lookup. split; [done|]. intros i m m' Hm Hm'.
  destruct (Hs i m m' Hm Hm') as [->|(c & _ & _ & Ha)]; [by left|]. right. split; apply Ha.
Qed.
(** The plan of a request, when it has one, was made for the messages. *)
Definition plan_fits (ms : list Message) (plan : option MicrocompactionPlan) : Prop :=
  match plan with
  | Some plan => Forall (candidate_of ms) (mpl_candidates plan)
  | None => True
  end.
Lemma micro_step_keeps (mg : MemoryManager E) ms request n w out n' app w' :
  micro_step mg ms request n w = (out, n', app, w') -> plan_fits ms (cr_microcompaction_plan request) ->
  ws_extends w w' /\ Forall2 resembles ms out.
Proof.
  assert (Hsame : Forall2 resembles ms ms) by (apply Forall_Forall2_diag, Forall_forall; by left).
  unfold micro_step. intros Hm Hfits.
  destruct (_ && _); [|injection Hm as <- _ _ <-; by split; [intros ? ?|]].
  destruct (apply_microcompaction _ _ _ _) as [application w1] eqn:Ha.
  apply apply_stands in Ha as [Hw Hs%stands_resembles].
  - destruct (0 <? _)%N; injection Hm as <- _ _ <-; by split.
  - intros c Hc. destruct (cr_microcompaction_plan request) as [plan|].
    + cbn in Hfits, Hc. rewrite Forall_forall in Hfits. by apply Hfits.
    + destruct (plan_spec _ _ _ _ Hc) as (m & Hx & Hex & Hav). exists m. split_and!; [done|apply Hav|done].
Qed.

(** The session memory of the manager stays sound. *)
Definition session_kept (mg mg' : MemoryManager E) : Prop :=
  mg_config mg' = mg_config mg /\
  forall s, mg_session_memory mg = Some s -> session_ok s ->
    exists s', mg_session_memory mg' = Some s' /\ session_ok s'.
Lemma session_kept_refl mg : session_kept mg mg.
Proof. split; [done|]. intros s Hs Hok. by exists s. Qed.
Lemma session_kept_trans a b c : session_kept a b -> session_kept b c -> session_kept a c.
Proof.
  intros [Hc1 Hs1] [Hc2 Hs2]. split; [congruence|]. intros s Hs Hok.
  destruct (Hs1 s Hs Hok) as (s1 & Hs1' & Hok1). by apply (Hs2 s1).
Qed.
Lemma extract_session_kept mg ms cycle n mg' error :
  extract_session mg ms cycle n = (mg', error) -> session_kept mg mg'.
Proof.
  unfold extract_session. destruct (mg_session_memory mg) as [session|] eqn:Hs;
    [|intros [= <- _]; apply session_kept_refl].
  assert (Hset : forall s, (session_ok session -> session_ok s) -> session_kept mg (set_session_memory mg (Some s))).
  { intros s Hok. split; [done|]. intros s0 Hs0 Hok0. rewrite Hs in Hs0. injection Hs0 as ->.
    exists s. split; [done|by apply Hok]. }
  destruct (rc_session_memory _) as [callback|].
  - destruct (should_extract_with_runtime_callback _ _ _); [|intros [= <- _]; apply session_kept_refl].
    pose proof (extract_runtime_ok session ms (u32_as_i32 cycle) n callback) as Hok.
    destruct (extract_with_runtime_callback _ _ _ _ _) as [[s [k|e]] r]; intros [= <- _]; by apply Hset.
  - destruct (should_extract _ _ _); intros [= <- _]; [|apply session_kept_refl].
    apply Hset, extract_ok.
Qed.
Lemma note_kept mg ms : session_kept mg (note_compaction mg ms).
Proof.
  split; [done|]. intros s Hs Hok. unfold note_compaction. cbn [mg_session_memory set_session_memory]. rewrite Hs.
  eexists. split; [done|]. unfold on_compaction. apply save_ok. destruct Hok as [[Ho He Hb] Ht]. by split; [split|].
Qed.

(** What an outcome promises. *)
Record outcome_sound (c : MemoryManagerConfig) (ms : list Message) (o : MemoryCompactionOutcome) : Prop := {
  os_mode : mo_mode o = ModeNone <-> mo_messages o = ms;
  os_prompts : system_prompts (mo_messages o) = system_prompts ms;
  os_protocol : Protocol false ms -> summaries_loose ms ->
    Protocol false (mo_messages o) /\ summaries_loose (mo_messages o);
  os_fits : mo_mode o = ModeSummary ->
    (count_messages_tokens (mo_messages o) (mm_model c) <= effective_context_window c)%N
}.
Lemma outcome_intro c ms out mode changed app :
  system_prompts out = system_prompts ms ->
  (Protocol false ms -> summaries_loose ms -> Protocol false out /\ summaries_loose out) ->
  (mode = ModeSummary -> (count_messages_tokens out (mm_model c) <= effective_context_window c)%N) ->
  outcome_sound c ms (outcome_new ms out mode changed app).
Proof.
  intros Hp Hprot Hfit. unfold outcome_new. split; cbn [mo_mode mo_messages]; [|done|done|].
  - destruct (bool_decide_reflect (out = ms)) as [->|Hne]; [done|].
    destruct (bool_decide_reflect (mode = ModeNone)) as [->|Hm]; by split.
  - destruct (bool_decide _); [done|]. by destruct (bool_decide (mode = ModeNone)).
Qed.
Lemma sanitized_loose ms : summaries_loose ms -> summaries_loose (filter_empty_assistant_messages ms).
Proof. intros Hl m [Hm _]%list_elem_of_In%List.filter_In. apply Hl. by apply list_elem_of_In. Qed.
Lemma compressed_sound (mg : MemoryManager E) ms keep cycle callback out changed :
  summarize_prefix mg ms keep cycle callback = inl (out, changed) ->
  system_prompts out = system_prompts ms /\
  (Protocol false ms -> summaries_loose ms -> Protocol false out /\ summaries_loose out) /\
  (changed = true ->
   (count_messages_tokens out (mm_model (mg_config mg)) <= effective_context_window (mg_config mg))%N).
Proof.
  intros Hs. apply summarize_cases in Hs as [[-> ->]|(-> & parts & raw & summary & Hparts & _ & Hu & -> & _ & Hfit)]; [done|].
  destruct (usable_loose _ _ _ _ Hu) as (Hname & Hr & Hc & _). split_and!; [by eapply candidate_systems| |done].
  intros Hp Hl. split; [eapply candidate_protocol; [done..|by apply user_loose]|].
  intros m Hm Hn. assert (Hin : m ∈ [summary]).
  { rewrite <- (candidate_summaries _ _ _ _ Hparts Hname). by apply list_elem_of_In, List.filter_In; split; [apply list_elem_of_In|]. }
  apply list_elem_of_singleton in Hin as ->. by apply user_loose.
Qed.

Lemma compact_inner_sound (mg : MemoryManager E) ms request w o mg' w' :
  compact_for_cycle_with_usage_inner mg ms request w = (inl o, mg', w') ->
  plan_fits ms (cr_microcompaction_plan request) ->
  outcome_sound (mg_config mg) ms o /\ (~ Protocol true ms -> mo_messages o = ms) /\
  ws_extends w w' /\ session_kept mg mg'.
Proof.
  unfold compact_for_cycle_with_usage_inner. intros Hc Hfits.
  destruct ms as [|m0 ms0]; [|set (ms := m0 :: ms0) in *].
  { injection Hc as <- <- <-. split_and!; [by apply outcome_intro|done|by intros ? ?|apply session_kept_refl]. }
  destruct (summary_parts ms _) as [parts|] eqn:Hparts.
  2: { injection Hc as <- <- <-. split_and!; [by apply outcome_intro|done|by intros ? ?|apply session_kept_refl]. }
  assert (Hprotocol : Protocol true ms) by (eapply summary_parts_protocol; by eexists).
  destruct (extract_session mg ms _ _) as [mg1 [error|]] eqn:Hex; [done|].
  pose proof (extract_session_kept _ _ _ _ _ _ Hex) as Hk. pose proof Hk as [Hcfg _].
  destruct (micro_step mg1 ms request _ w) as [[[working n] app] w1] eqn:Hm.
  destruct (micro_step_keeps _ _ _ _ _ _ _ _ _ Hm Hfits) as [Hw Hres].
  assert (Hsys : system_prompts (filter_empty_assistant_messages working) = system_prompts ms)
    by (rewrite silent_prompts; by apply resembles_prompts).
  assert (Hprot : Protocol false ms -> Protocol false (filter_empty_assistant_messages working))
    by (intros Hp; by apply sanitized_protocol, (resembles_protocol _ _ Hp)).
  assert (Hloose : summaries_loose ms -> summaries_loose (filter_empty_assistant_messages working))
    by (intros Hl; by apply sanitized_loose, (resembles_summaries _ _ Hres)).
  destruct (negb (cr_force request) && _).
  - destruct (maybe_append_memory_warning _ _ _) as [warned inserted] eqn:Hwarn.
    destruct (warned_keeps _ _ _ _ _ Hwarn) as (Hws & Hwp & Hwl). injection Hc as <- <- <-.
    split_and!; [|done|done|done]. apply outcome_intro; [by rewrite Hws|auto|].
    by destruct (0 <? map_archived_count app)%N, inserted.
  - destruct (compress_memory _ _ _ _) as [[out changed]|] eqn:Hs; [|done].
    destruct (compressed_sound _ _ _ _ _ _ _ Hs) as (Hcs & Hcp & Hcf). injection Hc as <- <- <-.
    split_and!; [|done|done|destruct changed; [eapply session_kept_trans; [done|apply note_kept]|done]].
    apply outcome_intro; [by rewrite Hcs|auto|]. rewrite Hcfg in Hcf.
    by destruct changed; [intros _; apply Hcf|destruct (0 <? map_archived_count app)%N].
Qed.

End Whole.

(** ** Examples *)

Definition plain_tokenizer : Tokenizer := {| vv_count_tokens := fun _ _ => None |}.
(** The JSON text of an empty object. *)
Definition memory_json : JsonText :=
  {| json_from_str := fun s => if String.eqb s "{}" then Some (Object []) else None;
     json_error_text := fun _ => EmptyString; json_to_string := fun _ => EmptyString |}.
(** A reader that finds one summary in any text. *)
Definition sample_prefix : JsonPrefix :=
  {| json_prefix := fun _ => Some (json_object [("progress", Array [Str "read the file"])]) |}.
Definition sample_policy : MicrocompactionPolicy :=
  {| mp_trigger_ratio := 4604930618986332160%Z; mp_target_ratio := 4602678819172646912%Z;
     mp_keep_recent_cycles := 1; mp_min_result_chars := 100 |}.
Definition sample_memory_config : MemoryManagerConfig :=
  {| mm_compact_threshold := 0; mm_keep_recent_messages := 2; mm_model := "model";
     mm_model_context_window := 800; mm_reserved_output_tokens := 20; mm_autocompact_buffer_tokens := 20;
     mm_warning_threshold_percentage := 90; mm_include_memory_warning := true; mm_language := "en"; mm_summary_event_limit := 40;
     mm_summary_backend := None; mm_summary_model := None;
     mm_summary_callback := Some (fun _ _ _ => Some "{}"); mm_tool_result_excerpt_head := 10;
     mm_tool_result_excerpt_tail := 10; mm_microcompaction_policy := sample_policy |}.
Definition sample_manager : MemoryManager unit :=
  {| mg_config := sample_memory_config; mg_session_memory := None;
     mg_runtime_callbacks := {| rc_session_memory := None; rc_memory_compaction := None |};
     mg_has_workspace := true; mg_artifact_namespace := "task"; mg_tool_result_retentions := [];
     mg_recovery_tool_available := true |}.
Definition long_text : string := bytes_str (repeat 120%N 1600).
Definition sample_conversation : list Message :=
  [message_new RSystem "be brief"; message_user long_text; sample_turn "" ["call-1"];
   message_tool long_text "call-1"; sample_turn "" ["call-2"]; message_tool "done" "call-2";
   message_user "go on"].
Definition sample_request (force : bool) : CompactionRequest :=
  {| cr_cycle_index := 3; cr_artifact_cycle_index := Some 3%N; cr_force := force; cr_total_tokens := None;
     cr_recent_tool_call_ids := None; cr_microcompaction_plan := None |}.
Definition run_compaction (ms : list Message) (force : bool) (w : MemoryWorkspaceBackend)
    : (MemoryCompactionOutcome + unit) * MemoryManager unit * MemoryWorkspaceBackend :=
  @compact_for_cycle_with_usage_inner memory_json toy_digest plain_tokenizer sample_prefix memory_backend unit
    sample_manager ms (sample_request force) w.
Definition outcome_messages (x : (MemoryCompactionOutcome + unit) * MemoryManager unit * MemoryWorkspaceBackend)
    : list Message := match x.1.1 with inl o => mo_messages o | inr _ => [] end.
(** The large result is archived first; a second, forced compaction replaces
    it and the request before it by a summary that points to it. *)
Definition archived_run : (MemoryCompactionOutcome + unit) * MemoryManager unit * MemoryWorkspaceBackend :=
  run_compaction sample_conversation false memory_workspace_default.
Definition archived_messages : list Message := outcome_messages archived_run.
Definition summarized_run : (MemoryCompactionOutcome + unit) * MemoryManager unit * MemoryWorkspaceBackend :=
  run_compaction archived_messages true archived_run.2.
Example compaction_sample :
  map m_role (outcome_messages summarized_run) = [RSystem; RUser; RAssistant; RTool; RUser] /\
  map is_compacted_tool_content (map m_content archived_messages)
  = [false; false; false; true; false; false; false] /\
  map (fun ms => @count_messages_tokens plain_tokenizer ms "model")
    [sample_conversation; archived_messages; outcome_messages summarized_run] = [805; 475; 155]%N.
Proof. vm_compute. split_and!; reflexivity. Qed.

Lemma summary_sound_witness :
  system_prompts (outcome_messages summarized_run) = [message_new RSystem "be brief"].
Proof.
  assert (Hs : @summarize_prefix memory_json toy_digest plain_tokenizer sample_prefix unit sample_manager
                 archived_messages 2 (Some 3%N) None = inl (outcome_messages summarized_run, true))
    by (vm_compute; reflexivity).
  destruct (@summary_sound memory_json toy_digest plain_tokenizer sample_prefix unit sample_manager
              archived_messages 2 (Some 3%N) None _ Hs)
    as (hidden & kept & summary & _ & _ & _ & _ & Hsys & _).
  rewrite Hsys. vm_compute. reflexivity.
Defined.

Definition sample_parts : SummaryParts :=
  unwrap_or (summary_parts archived_messages 2)
    {| sp_systems := []; sp_previous := []; sp_prefix := []; sp_tail := []; sp_cut := 0 |}.
Definition sample_summary : Message :=
  unwrap_or (@usable_summary memory_json toy_digest sample_prefix unit sample_manager sample_parts "{}")
    (message_user EmptyString).

Definition sample_application : MicrocompactionApplication * MemoryWorkspaceBackend :=
  @apply_microcompaction memory_json plain_tokenizer toy_digest memory_backend unit sample_manager
    sample_conversation
    (@plan_microcompaction memory_json plain_tokenizer unit sample_manager sample_conversation 805)
    memory_workspace_default.
Lemma microcompaction_lossless_witness :
  map_archived_count sample_application.1 = 1%N /\
  length (map_messages sample_application.1) = length sample_conversation.
Proof.
  split; [vm_compute; reflexivity|].
  assert (Ha : @apply_microcompaction memory_json plain_tokenizer toy_digest memory_backend unit sample_manager
                 sample_conversation
                 (@plan_microcompaction memory_json plain_tokenizer unit sample_manager sample_conversation 805)
                 memory_workspace_default = (sample_application.1, sample_application.2))
    by (vm_compute; reflexivity).
  exact (proj1 (proj2 (@microcompaction_lossless memory_json plain_tokenizer toy_digest memory_backend
    memory_backend_laws unit sample_manager sample_conversation 805 memory_workspace_default _ _ Ha))).
Defined.

Lemma sample_turn_ok id content :
  id <> "" -> Turn (sample_turn "" [id]) [message_tool content id].
Proof.
  intros Hid. split; [done|done| | |by repeat constructor|done].
  - apply NoDup_singleton.
  - intros Hin%list_elem_of_singleton. by subst.
Qed.
Lemma sample_protocol : Protocol false sample_conversation.
Proof.
  do 2 (apply protocol_plain; [done|done|]).
  apply (protocol_turn false _ [message_tool long_text "call-1"]); [by apply sample_turn_ok|done|].
  apply (protocol_turn false _ [message_tool "done" "call-2"]); [by apply sample_turn_ok|done|].
  apply protocol_plain; [done|done|constructor].
Qed.
Definition archived_outcome : MemoryCompactionOutcome :=
  match archived_run.1.1 with
  | inl o => o
  | inr _ => outcome_new [] [] ModeNone false application_default
  end.
