(* ===== verification/Events.v ===== *)
(** * Run events and the event outbox

    [events.rs] and [events/payload.rs], as far as the checkpoint kernel reads
    and builds events, and the durable outbox of [runtime/state.rs]
    ([EventOutboxEntry], [append_event_outbox_once]) with the extension state
    entries next to it. *)

From Stdlib Require Import Ascii String NArith Lia.
From stdpp Require Import base strings list sets.
From S2P Require Import Prelude Json Canonical CheckpointTypes ToolResult Journal TokenUsage.
From S2P Require Import Budget Records.

(** ** Events *)

Inductive ToolStatus :=
| TStarted | TSuccess | TError | TWaitResponse | TRunning | TPendingCompress.
Inductive ModelCallFailureOutcome := Definitive | AmbiguousOutcome.
#[global] Instance ModelCallFailureOutcome_eq_dec : EqDecision ModelCallFailureOutcome.
Proof. solve_decision. Defined.

(** The fields the three model-call payloads share. *)
Record ModelCallPayload := {
  mp_call_id : string;
  mp_operation_id : string;
  mp_attempt : N;
  mp_operation : ModelCallOperation;
  mp_backend : string;
  mp_model : string
}.

(** [RunEventPayload]: the variants the kernel inspects or builds.  The two
    budget variants keep their usage fields in wire form; [OtherPayload] is
    any other variant, its tag and fields in wire form. *)
Inductive RunEventPayload :=
| ModelCallStarted (call : ModelCallPayload)
| ModelCallCompleted (call : ModelCallPayload) (usage : TokenUsage)
| ModelCallFailed (call : ModelCallPayload) (outcome : ModelCallFailureOutcome)
    (usage : TokenUsage) (error_code : string)
| BudgetSnapshotEv (enforcement_boundary : BudgetEnforcementBoundary) (fields : object)
| BudgetExhaustedEv (enforcement_boundary : BudgetEnforcementBoundary) (fields : object)
| ToolCallCompleted (tool_call_id tool_name : string) (status : ToolStatus)
    (directive : ToolDirective) (error_code : option string) (execution_started : bool)
    (duration_ms : option N) (operation_id : option string) (attempt : option N)
| ToolCallDeferred (tool_call_id tool_name operation_id : string) (attempt : N)
    (handle : DeferredToolHandle) (execution_started : bool) (duration_ms : option N)
    (operation_kind : option OperationKind)
| ReconciliationResolved (checkpoint_key operation_id : string) (operation_kind : OperationKind)
    (decision : ReconciliationDecisionKind) (claim_mode : option ClaimMode)
| CycleAborted (logical_cycle : N) (reason : string)
| RunStateChanged (state : string)
| HostInteractionRequested (checkpoint_key : string) (resume_attempt : N) (interaction_id : string)
    (logical_cycle : N) (operation_id tool_call_id request_digest prompt : string)
| HostInteractionResponseConsumed (checkpoint_key : string) (resume_attempt : N)
    (interaction_id : string) (logical_cycle : N) (operation_id tool_call_id request_digest
     command_id response_digest : string) (consumed_revision : N)
| CheckpointResumed (checkpoint_key : string) (resume_attempt : N)
| RunFailed (error : string)
| RunCancelled (reason : string)
| OtherPayload (fields : object).

Record RunEvent := {
  ev_event_id : string;
  ev_run_id : string;
  ev_trace_id : string;
  ev_session_id : option string;
  ev_parent_event_id : option string;
  ev_parent_run_id : option string;
  ev_created_at : Number;
  ev_cycle_index : option N;
  ev_agent_name : option string;
  ev_metadata : object;
  ev_payload : RunEventPayload;
  ev_extra_fields : object
}.

(** *** Serialisation *)

Definition tool_status_str (s : ToolStatus) : string :=
  match s with
  | TStarted => "started" | TSuccess => "success" | TError => "error"
  | TWaitResponse => "wait_response" | TRunning => "running"
  | TPendingCompress => "pending_compress"
  end.
Definition boundary_str (b : BudgetEnforcementBoundary) : string :=
  match b with
  | RunStart => "run_start" | CycleStart => "cycle_start"
  | ModelCallComplete => "model_call_complete" | ToolBatchPreflight => "tool_batch_preflight"
  | ToolBatchComplete => "tool_batch_complete" | Terminal => "terminal"
  end.
Definition decision_kind_str (k : ReconciliationDecisionKind) : string :=
  match k with
  | Defer => "defer" | AcceptDeferred => "accept_deferred" | Retry => "retry"
  | ReplaySuccess => "replay_success" | RecordFailure => "record_failure" | Abort => "abort"
  end.
Definition claim_mode_str (m : ClaimMode) : string :=
  match m with Continue => "continue" | Recovery => "recovery" end.
Definition outcome_str (o : ModelCallFailureOutcome) : string :=
  match o with Definitive => "definitive" | AmbiguousOutcome => "ambiguous" end.

Definition model_call_object (tag : string) (c : ModelCallPayload) : object :=
  map_of_list [
    ("type", Str tag); ("call_id", Str (mp_call_id c)); ("operation_id", Str (mp_operation_id c));
    ("attempt", json_u64 (mp_attempt c)); ("operation", model_operation_to_value (mp_operation c));
    ("backend", Str (mp_backend c)); ("model", Str (mp_model c))].

(** [#[serde(tag = "type", rename_all = "snake_case")]]. *)
Definition payload_to_object (p : RunEventPayload) : object :=
  match p with
  | ModelCallStarted c => model_call_object "model_call_started" c
  | ModelCallCompleted c usage =>
      map_insert "usage" (token_usage_to_value usage) (model_call_object "model_call_completed" c)
  | ModelCallFailed c outcome usage error_code =>
      map_insert "outcome" (Str (outcome_str outcome))
        (map_insert "usage" (token_usage_to_value usage)
           (map_insert "error_code" (Str error_code) (model_call_object "model_call_failed" c)))
  | BudgetSnapshotEv boundary fields =>
      map_insert "type" (Str "budget_snapshot")
        (map_insert "enforcement_boundary" (Str (boundary_str boundary)) fields)
  | BudgetExhaustedEv boundary fields =>
      map_insert "type" (Str "budget_exhausted")
        (map_insert "enforcement_boundary" (Str (boundary_str boundary)) fields)
  | ToolCallCompleted tool_call_id tool_name status directive error_code started duration
      operation_id attempt =>
      insert_opt "operation_id" Str operation_id (insert_opt "attempt" json_u64 attempt
        (map_of_list [
          ("type", Str "tool_call_completed"); ("tool_call_id", Str tool_call_id);
          ("tool_name", Str tool_name); ("status", Str (tool_status_str status));
          ("directive", Str (tool_directive_value directive)); ("error_code", json_opt_str error_code);
          ("execution_started", Bool started); ("duration_ms", json_opt_u64 duration)]))
  | ToolCallDeferred tool_call_id tool_name operation_id attempt handle started duration kind =>
      insert_opt "operation_kind" kind_to_value kind
        (map_of_list [
          ("type", Str "tool_call_deferred"); ("tool_call_id", Str tool_call_id);
          ("tool_name", Str tool_name); ("operation_id", Str operation_id);
          ("attempt", json_u64 attempt); ("handle", handle_to_value handle);
          ("execution_started", Bool started); ("duration_ms", json_opt_u64 duration)])
  | ReconciliationResolved checkpoint_key operation_id kind decision claim_mode =>
      insert_opt "claim_mode" (fun m => Str (claim_mode_str m)) claim_mode
        (map_of_list [
          ("type", Str "reconciliation_resolved"); ("checkpoint_key", Str checkpoint_key);
          ("operation_id", Str operation_id); ("operation_kind", kind_to_value kind);
          ("decision", Str (decision_kind_str decision))])
  | CycleAborted logical_cycle reason =>
      map_of_list [("type", Str "cycle_aborted"); ("logical_cycle", json_u64 logical_cycle);
                   ("reason", Str reason)]
  | RunStateChanged state => map_of_list [("type", Str "run_state_changed"); ("state", Str state)]
  | HostInteractionRequested key attempt interaction cycle operation call digest prompt =>
      map_of_list [
        ("type", Str "host_interaction_requested"); ("checkpoint_key", Str key);
        ("resume_attempt", json_u64 attempt); ("interaction_id", Str interaction);
        ("logical_cycle", json_u64 cycle); ("operation_id", Str operation);
        ("tool_call_id", Str call); ("request_digest", Str digest); ("prompt", Str prompt)]
  | HostInteractionResponseConsumed key attempt interaction cycle operation call digest command
      response revision =>
      map_of_list [
        ("type", Str "host_interaction_response_consumed"); ("checkpoint_key", Str key);
        ("resume_attempt", json_u64 attempt); ("interaction_id", Str interaction);
        ("logical_cycle", json_u64 cycle); ("operation_id", Str operation);
        ("tool_call_id", Str call); ("request_digest", Str digest); ("command_id", Str command);
        ("response_digest", Str response); ("consumed_revision", json_u64 revision)]
  | CheckpointResumed key attempt =>
      map_of_list [("type", Str "checkpoint_resumed"); ("checkpoint_key", Str key);
                   ("resume_attempt", json_u64 attempt)]
  | RunFailed error => map_of_list [("type", Str "run_failed"); ("error", Str error)]
  | RunCancelled reason => map_of_list [("type", Str "run_cancelled"); ("reason", Str reason)]
  | OtherPayload fields => fields
  end.

Definition event_to_map (e : RunEvent) : object :=
  let m := map_extend (payload_to_object (ev_payload e)) (ev_extra_fields e) in
  let m := map_insert "version" (Str "v5") m in
  let m := map_insert "event_id" (Str (ev_event_id e)) m in
  let m := map_insert "run_id" (Str (ev_run_id e)) m in
  let m := map_insert "trace_id" (Str (ev_trace_id e)) m in
  let m := insert_opt "session_id" Str (ev_session_id e) m in
  let m := insert_opt "parent_event_id" Str (ev_parent_event_id e) m in
  let m := insert_opt "parent_run_id" Str (ev_parent_run_id e) m in
  let m := map_insert "created_at" (Num (ev_created_at e)) m in
  let m := insert_opt "cycle_index" json_u64 (ev_cycle_index e) m in
  let m := insert_opt "agent_name" Str (ev_agent_name e) m in
  insert_metadata (ev_metadata e) m.
Definition event_to_value (e : RunEvent) : Value := Object (event_to_map e).

(** The strict event reader ([Deserialize for RunEvent], [events/wire.rs]). *)
Class EventReader := { event_from_value : Value -> option RunEvent }.

(** [RunEvent::new] followed by the stable event id; [created_at] is what the
    wall clock returned. *)
(** [add_constructed_supplemental_fields] ([events/wire_supplemental.rs]); a
    variant kept in wire form is told apart by its tag. *)
Definition constructed_fields (payload : RunEventPayload) : object :=
  match payload with
  | RunFailed _ | RunCancelled _ => [("partial_output", Null)]
  | OtherPayload fields =>
      match map_get "type" fields ≫= as_str with
      | Some tag =>
          if String.eqb tag "sub_run_started" then [("status", Str "running")]
          else if String.eqb tag "handoff_started" then [("status", Str "started")]
          else if String.eqb tag "handoff_completed" then [("status", Str "completed")]
          else if String.eqb tag "run_completed" then [("final_output", Null)] else []
      | None => []
      end
  | _ => []
  end.
Definition event_new (event_id run_id trace_id agent_name : string) (cycle_index : option N)
    (created_at : Number) (payload : RunEventPayload) : RunEvent :=
  {| ev_event_id := event_id; ev_run_id := run_id; ev_trace_id := trace_id;
     ev_session_id := None; ev_parent_event_id := None; ev_parent_run_id := None;
     ev_created_at := created_at; ev_cycle_index := cycle_index;
     ev_agent_name := Some agent_name; ev_metadata := []; ev_payload := payload;
     ev_extra_fields := constructed_fields payload |}.
(** [EventId::stable]. *)
Definition event_id_stable (value : string) : result string :=
  fail_if (trim_is_empty value) with "checkpoint_event_invalid" ;; Ok value.

(** ** Extension state *)

Record ExtensionStateEntry := {
  xs_version : string;
  xs_required : bool;
  xs_state : Value
}.

Section Extensions.
Context `{Digest}.
Definition extension_validate (e : ExtensionStateEntry) : result unit :=
  fail_if (trim_is_empty (xs_version e)) with "checkpoint_extension_state_invalid" ;;
  validate_json (xs_state e).

Definition extension_to_value (e : ExtensionStateEntry) : Value :=
  json_object [("version", Str (xs_version e)); ("required", Bool (xs_required e));
               ("state", xs_state e)].

Definition extension_from_value (v : Value) : result ExtensionStateEntry :=
  let? m := ok_or (as_object v) "checkpoint_extension_state_invalid" in
  fail_if (negb (has_exactly ["version"; "required"; "state"] m))
  with "checkpoint_extension_state_invalid" ;;
  let? version := required_string m "version" "checkpoint_extension_state_invalid" in
  let? required := ok_or (map_get "required" m ≫= as_bool) "checkpoint_extension_state_invalid" in
  let? state := ok_or (map_get "state" m) "checkpoint_extension_state_invalid" in
  let entry := {| xs_version := version; xs_required := required; xs_state := state |} in
  do? extension_validate entry ;;
  Ok entry.
End Extensions.

(** ** The outbox *)

Record EventOutboxEntry := {
  ob_event_id : string;
  ob_payload_digest : string;
  ob_state : string;
  ob_event : Value;
  ob_cursor : option Value
}.
#[global] Instance EventOutboxEntry_eq_dec : EqDecision EventOutboxEntry.
Proof. solve_decision. Defined.

Section Outbox.
Context `{Digest} `{EventReader}.

Definition outbox_validate (e : EventOutboxEntry) : result unit :=
  fail_if (trim_is_empty (ob_event_id e)) with "checkpoint_event_outbox_invalid" ;;
  do? validate_sha256 (ob_payload_digest e) ;;
  fail_if (negb (String.eqb (ob_state e) "pending") && negb (String.eqb (ob_state e) "delivered"))
  with "checkpoint_event_outbox_invalid" ;;
  fail_if (negb (is_object (ob_event e))) with "checkpoint_event_outbox_invalid" ;;
  let? event := ok_or (event_from_value (ob_event e)) "checkpoint_event_invalid" in
  fail_if (negb (String.eqb (ev_event_id event) (ob_event_id e))) with "event_identity_conflict" ;;
  fail_if (negb (value_eqb (event_to_value event) (ob_event e))) with "checkpoint_event_invalid" ;;
  fail_if ((String.eqb (ob_state e) "pending" && is_some (ob_cursor e))
           || (String.eqb (ob_state e) "delivered" && is_none (ob_cursor e)))
  with "checkpoint_event_outbox_invalid" ;;
  match ob_cursor e with
  | Some cursor => do? cursor_from_value cursor ;; Ok tt
  | None => Ok tt
  end.

Definition verify_payload (e : EventOutboxEntry) : result unit :=
  do? outbox_validate e ;;
  let? digest := event_payload_digest (ob_event e) in
  fail_if (negb (String.eqb digest (ob_payload_digest e))) with "event_identity_conflict" ;;
  Ok tt.

Definition outbox_pending (event_id : string) (event : Value) : result EventOutboxEntry :=
  let? digest := event_payload_digest event in
  let entry := {| ob_event_id := event_id; ob_payload_digest := digest; ob_state := "pending";
                  ob_event := event; ob_cursor := None |} in
  do? outbox_validate entry ;;
  Ok entry.

Definition outbox_to_value (e : EventOutboxEntry) : Value :=
  json_object [
    ("event_id", Str (ob_event_id e)); ("payload_digest", Str (ob_payload_digest e));
    ("state", Str (ob_state e)); ("event", ob_event e);
    ("cursor", unwrap_or (ob_cursor e) Null)].

Definition outbox_fields : list string := ["event_id"; "payload_digest"; "state"; "event"; "cursor"].

Definition outbox_from_value (v : Value) : result EventOutboxEntry :=
  let? m := ok_or (as_object v) "checkpoint_event_outbox_invalid" in
  fail_if (negb (has_exactly outbox_fields m)) with "checkpoint_event_outbox_invalid" ;;
  let? event_id := required_string m "event_id" "checkpoint_event_outbox_invalid" in
  let? payload_digest := required_string m "payload_digest" "checkpoint_event_outbox_invalid" in
  let? state := required_string m "state" "checkpoint_event_outbox_invalid" in
  let? event := ok_or (map_get "event" m) "checkpoint_event_outbox_invalid" in
  let entry := {| ob_event_id := event_id; ob_payload_digest := payload_digest; ob_state := state;
                  ob_event := event; ob_cursor := get_non_null m "cursor" |} in
  do? outbox_validate entry ;;
  Ok entry.

Definition set_event (e : EventOutboxEntry) (event : Value) (digest : string) : EventOutboxEntry :=
  {| ob_event_id := ob_event_id e; ob_payload_digest := digest; ob_state := ob_state e;
     ob_event := event; ob_cursor := ob_cursor e |}.

Definition find_entry (id : string) (outbox : list EventOutboxEntry) : option EventOutboxEntry :=
  List.find (fun e => String.eqb (ob_event_id e) id) outbox.

(** The candidate re-stamped with the creation time of the entry that already
    holds its id. *)
Definition restamp (existing candidate : EventOutboxEntry) : result EventOutboxEntry :=
  match value_get (ob_event existing) "created_at" with
  | None => Ok candidate
  | Some created_at =>
      let? m := ok_or (as_object (ob_event candidate)) "checkpoint_event_invalid" in
      let event := Object (map_insert "created_at" created_at m) in
      let? digest := event_payload_digest event in
      let candidate := set_event candidate event digest in
      do? outbox_validate candidate ;;
      Ok candidate
  end.

Definition append_event_outbox_once (outbox : list EventOutboxEntry) (candidate : EventOutboxEntry)
    : result (list EventOutboxEntry) :=
  match find_entry (ob_event_id candidate) outbox with
  | None => Ok (outbox ++ [candidate])
  | Some existing =>
      do? verify_payload existing ;;
      let? candidate := restamp existing candidate in
      if value_eqb (ob_event existing) (ob_event candidate)
         && String.eqb (ob_payload_digest existing) (ob_payload_digest candidate)
      then Ok outbox
      else Err "event_identity_conflict"
  end.
End Outbox.

(** ** Lemmas *)

Section OutboxLemmas.
Context `{Digest} `{EventReader}.

Lemma find_entry_Some id outbox e :
  find_entry id outbox = Some e -> e ∈ outbox /\ ob_event_id e = id.
Proof.
  unfold find_entry. intros [Hin Heq]%List.find_some. split; [by apply list_elem_of_In|].
  by apply String.eqb_eq.
Qed.

Lemma find_entry_None id outbox :
  find_entry id outbox = None <-> id ∉ map ob_event_id outbox.
Proof.
  unfold find_entry. split.
  - intros Hn Hin. apply list_elem_of_fmap in Hin as (e & -> & He).
    apply list_elem_of_In in He. pose proof (List.find_none _ _ Hn e He) as He'.
    cbn in He'. by rewrite String.eqb_refl in He'.
  - intros Hni. destruct (List.find _ outbox) as [e|] eqn:Hf; [|done]. exfalso. apply Hni.
    apply List.find_some in Hf as [Hin <-%String.eqb_eq]. apply list_elem_of_fmap.
    exists e. split; [done|]. by apply list_elem_of_In.
Qed.

(** Appending never removes, reorders or rewrites an entry. *)
Lemma append_once_shape outbox c outbox' :
  append_event_outbox_once outbox c = Ok outbox' ->
  (find_entry (ob_event_id c) outbox = None /\ outbox' = outbox ++ [c]) \/
  (exists e, find_entry (ob_event_id c) outbox = Some e /\ outbox' = outbox).
Proof.
  unfold append_event_outbox_once. intros Ha.
  destruct (find_entry (ob_event_id c) outbox) as [e|]; [|by result_inv; left].
  right. exists e. by result_inv.
Qed.

Lemma append_once_prefix outbox c outbox' :
  append_event_outbox_once outbox c = Ok outbox' -> outbox `prefix_of` outbox'.
Proof.
  intros [[_ ->]|(e & _ & ->)]%append_once_shape; [by eexists|done].
Qed.

Lemma append_once_NoDup outbox c outbox' :
  append_event_outbox_once outbox c = Ok outbox' ->
  NoDup (map ob_event_id outbox) -> NoDup (map ob_event_id outbox').
Proof.
  intros [[Hn ->]|(e & _ & ->)]%append_once_shape Hnd; [|done].
  rewrite map_app. apply NoDup_app. repeat split; [done| |apply NoDup_singleton].
  intros id Hid Hc. apply list_elem_of_singleton in Hc. subst.
  by apply find_entry_None in Hn.
Qed.

Lemma append_once_has_id outbox c outbox' :
  append_event_outbox_once outbox c = Ok outbox' -> ob_event_id c ∈ map ob_event_id outbox'.
Proof.
  intros [[_ ->]|(e & Hf & ->)]%append_once_shape.
  - rewrite map_app. set_solver.
  - apply find_entry_Some in Hf as [Hin <-]. apply list_elem_of_fmap. eauto.
Qed.

(** The loop that appends a list of candidates. *)
Lemma append_all_prefix outbox cs outbox' :
  try_fold append_event_outbox_once outbox cs = Ok outbox' -> outbox `prefix_of` outbox'.
Proof.
  intros Ha. eapply (try_fold_inv (fun o => outbox `prefix_of` o)); [|reflexivity|exact Ha].
  intros a x b Hp Hb%append_once_prefix. by etransitivity.
Qed.

Lemma append_all_NoDup outbox cs outbox' :
  try_fold append_event_outbox_once outbox cs = Ok outbox' ->
  NoDup (map ob_event_id outbox) -> NoDup (map ob_event_id outbox').
Proof.
  intros Ha Hnd. eapply (try_fold_inv (fun o => NoDup (map ob_event_id o))); [|exact Hnd|exact Ha].
  intros a x b Hp Hb. by eapply append_once_NoDup.
Qed.


Lemma verify_payload_spec e :
  verify_payload e = Ok tt <->
  outbox_validate e = Ok tt /\ event_payload_digest (ob_event e) = Ok (ob_payload_digest e).
Proof.
  unfold verify_payload. split.
  - intros Hv. result_inv. bool_inv. subst. by destruct a.
  - intros [-> ->]. by rewrite String.eqb_refl.
Qed.

(** A verified entry is its own restamp. *)
Lemma restamp_self e m :
  verify_payload e = Ok tt -> ob_event e = Object m -> map_wf m -> restamp e e = Ok e.
Proof.
  intros [Hv Hd]%verify_payload_spec Hm Hwf. unfold restamp. rewrite Hm. cbn [value_get as_object].
  destruct (map_get "created_at" m) as [v|] eqn:Hg; [|done]. cbn [ok_or].
  rewrite map_insert_same by done. rewrite <- Hm, Hd.
  assert (set_event e (ob_event e) (ob_payload_digest e) = e) as -> by by destruct e.
  by rewrite Hv.
Qed.

Lemma outbox_validate_object e : outbox_validate e = Ok tt -> exists m, ob_event e = Object m.
Proof.
  unfold outbox_validate. intros Hv.
  destruct (ob_event e) as [| | | | |m] eqn:He; [..|by exists m]; cbn in Hv; by result_inv.
Qed.

Lemma outbox_validate_cursor e : outbox_validate e = Ok tt -> ob_cursor e <> Some Null.
Proof.
  unfold outbox_validate. intros Hv Hc. rewrite Hc in Hv. cbn in Hv. by result_inv.
Qed.

Lemma outbox_wire e : outbox_validate e = Ok tt -> outbox_from_value (outbox_to_value e) = Ok e.
Proof.
  intros Hv. pose proof (outbox_validate_cursor e Hv) as Hc.
  destruct e as [id dig st ev cur]. unfold outbox_from_value, outbox_to_value.
  assert (Hcur : get_non_null (map_of_list [
      ("event_id", Str id); ("payload_digest", Str dig); ("state", Str st); ("event", ev);
      ("cursor", unwrap_or cur Null)]) "cursor" = cur).
  { unfold get_non_null. rewrite (map_of_list_get _ "cursor" (unwrap_or cur Null)).
    - destruct cur as [[]|]; done.
    - apply (bool_decide_eq_true_1 _). vm_compute. reflexivity.
    - set_solver. }
  unfold json_object. cbn [as_object ok_or ob_event_id ob_payload_digest ob_state ob_event ob_cursor] in *.
  rewrite Hcur. change (has_exactly outbox_fields _) with true. cbn [negb].
  change (required_string _ "event_id" _) with (@Ok string id).
  change (required_string _ "payload_digest" _) with (@Ok string dig).
  change (required_string _ "state" _) with (@Ok string st).
  change (map_get "event" _) with (Some ev). cbn [ok_or]. by rewrite Hv.
Qed.
End OutboxLemmas.

(** ** Properties *)

(** A valid outbox entry is read back from its wire form unchanged, and
    whatever the reader accepts is valid. *)
Theorem outbox_entry_roundtrip `{EventReader} (e : EventOutboxEntry) :
  outbox_validate e = Ok tt ->
  outbox_from_value (outbox_to_value e) = Ok e /\
  (forall v e', outbox_from_value v = Ok e' -> outbox_validate e' = Ok tt).
Proof.
  intros Hv. split; [by apply outbox_wire|]. unfold outbox_from_value. intros v e' He.
  result_inv. by match goal with H : outbox_validate _ = Ok ?u |- _ => destruct u end.
Qed.

(** Staging is idempotent: an accepted event leaves the outbox with its
    id, in front of which nothing was removed, reordered or rewritten and no
    id occurs twice; staging the verified event again is accepted without a
    change, and an event of the same id with another payload is refused. *)
Theorem outbox_append_once `{Digest} `{EventReader} (outbox outbox' : list EventOutboxEntry)
    (c : EventOutboxEntry) :
  NoDup (map ob_event_id outbox) ->
  append_event_outbox_once outbox c = Ok outbox' ->
  outbox `prefix_of` outbox' /\ NoDup (map ob_event_id outbox') /\
  ob_event_id c ∈ map ob_event_id outbox' /\
  (forall e m, find_entry (ob_event_id c) outbox' = Some e ->
     verify_payload e = Ok tt -> ob_event e = Object m -> map_wf m ->
     append_event_outbox_once outbox' e = Ok outbox') /\
  (forall e other, find_entry (ob_event_id c) outbox' = Some e -> ob_event_id other = ob_event_id c ->
     (forall r, restamp e other = Ok r -> ob_event r <> ob_event e) ->
     is_ok (append_event_outbox_once outbox' other) = false).
Proof.
  intros Hnd Ha. repeat split.
  - by eapply append_once_prefix.
  - by eapply append_once_NoDup.
  - by eapply append_once_has_id.
  - intros e m Hf Hv Hm Hwf. unfold append_event_outbox_once.
    pose proof (find_entry_Some _ _ _ Hf) as [_ ->]. rewrite Hf, Hv, (restamp_self e m) by done.
    by rewrite (proj2 (value_eqb_spec _ _) eq_refl), String.eqb_refl.
  - intros e other Hf Hid Hr. unfold append_event_outbox_once. rewrite Hid, Hf.
    destruct (verify_payload e); [|done]. destruct (restamp e other) as [r|] eqn:Hre; [|done].
    destruct (value_eqb _ _) eqn:Hv; [|done]. apply value_eqb_spec in Hv.
    by destruct (Hr r eq_refl).
Qed.

(** A concrete reader for the examples: it decodes the model-call payloads and
    keeps every other payload in wire form. *)
Definition toy_model_call (m : object) : option ModelCallPayload :=
  call_id ← map_get "call_id" m ≫= as_str;
  operation_id ← map_get "operation_id" m ≫= as_str;
  attempt ← map_get "attempt" m ≫= as_u64;
  operation ← map_get "operation" m ≫= model_operation_from_value;
  backend ← map_get "backend" m ≫= as_str;
  model ← map_get "model" m ≫= as_str;
  Some {| mp_call_id := call_id; mp_operation_id := operation_id; mp_attempt := attempt;
          mp_operation := operation; mp_backend := backend; mp_model := model |}.
Definition toy_usage (m : object) : option TokenUsage := map_get "usage" m ≫= token_usage_from_value.
Definition toy_payload (m : object) : option RunEventPayload :=
  if opt_is (map_get "type" m ≫= as_str) "model_call_started"
  then ModelCallStarted <$> toy_model_call m
  else if opt_is (map_get "type" m ≫= as_str) "model_call_completed"
  then call ← toy_model_call m; usage ← toy_usage m; Some (ModelCallCompleted call usage)
  else if opt_is (map_get "type" m ≫= as_str) "model_call_failed"
  then
    call ← toy_model_call m; usage ← toy_usage m; code ← map_get "error_code" m ≫= as_str;
    outcome ← map_get "outcome" m ≫= as_str;
    Some (ModelCallFailed call (if String.eqb outcome "definitive" then Definitive
                                else AmbiguousOutcome) usage code)
  else Some (OtherPayload
         (foldl (fun m k => map_remove k m) m
            ["version"; "event_id"; "run_id"; "trace_id"; "created_at"; "cycle_index"; "agent_name"])).
Definition toy_event_from_value (v : Value) : option RunEvent :=
  m ← as_object v;
  event_id ← map_get "event_id" m ≫= as_str;
  run_id ← map_get "run_id" m ≫= as_str;
  trace_id ← map_get "trace_id" m ≫= as_str;
  created_at ← (v ← map_get "created_at" m; match v with Num n => Some n | _ => None end);
  payload ← toy_payload m;
  Some {| ev_event_id := event_id; ev_run_id := run_id; ev_trace_id := trace_id;
          ev_session_id := None; ev_parent_event_id := None; ev_parent_run_id := None;
          ev_created_at := created_at; ev_cycle_index := map_get "cycle_index" m ≫= as_u64;
          ev_agent_name := map_get "agent_name" m ≫= as_str; ev_metadata := [];
          ev_payload := payload; ev_extra_fields := [] |}.
Definition toy_reader : EventReader := {| event_from_value := toy_event_from_value |}.

Definition sample_event : RunEvent :=
  event_new "evt_cycle_aborted_cancelled" "run" "trace" "task" (Some 1%N) (PosInt 7)
    (CycleAborted 2 "cancelled").
Definition sample_entry : EventOutboxEntry :=
  {| ob_event_id := ev_event_id sample_event;
     ob_payload_digest :=
       match @event_payload_digest toy_digest (event_to_value sample_event) with
       | Ok d => d | Err _ => EmptyString end;
     ob_state := "pending"; ob_event := event_to_value sample_event; ob_cursor := None |}.

Lemma outbox_entry_roundtrip_witness :
  @outbox_from_value toy_reader (outbox_to_value sample_entry) = Ok sample_entry.
Proof.
  exact (proj1 (@outbox_entry_roundtrip toy_reader sample_entry
                  ltac:(vm_compute; reflexivity))).
Defined.

Lemma outbox_append_once_witness :
  @append_event_outbox_once toy_digest toy_reader [] sample_entry = Ok [sample_entry] /\
  @append_event_outbox_once toy_digest toy_reader [sample_entry] sample_entry = Ok [sample_entry].
Proof.
  assert (Ha : @append_event_outbox_once toy_digest toy_reader [] sample_entry = Ok [sample_entry])
    by (vm_compute; reflexivity).
  split; [exact Ha|].
  destruct (@outbox_append_once toy_digest toy_reader [] [sample_entry] sample_entry
              ltac:(constructor) Ha) as (_ & _ & _ & Hagain & _).
  apply (Hagain sample_entry (event_to_map sample_event)); [reflexivity|vm_compute; reflexivity|reflexivity|].
  apply keys_sorted_wf. vm_compute. reflexivity.
Defined.
