(* ===== verification/HostInteraction.v ===== *)
(** * Host interaction requests

    [checkpoint/controller.rs] and [checkpoint/controller_host.rs], as far as a
    checkpoint embeds them: the request a run waits on, bound to its own
    digest, the origin a suspended checkpoint returns to, and the passive
    controller handle. *)

From Stdlib Require Import Ascii String NArith Lia.
From stdpp Require Import base strings list sets.
From S2P Require Import Prelude Json Canonical CheckpointTypes.

Definition HOST_INTERACTION_REQUEST_SCHEMA : string := "vv-agent.host-interaction-request.v1".
Definition HOST_INTERACTION_MAX_UTF8_BYTES : N := 512.
Definition CONTROLLER_COMMAND_MAX_UTF8_BYTES : N := 512.
Definition HOST_INTERACTION_CONTENT_MAX_UTF8_BYTES : N := 65536.
Definition hi_invalid : string := "host_interaction_fields_invalid".

(** ** Wire helpers of [checkpoint/controller.rs] *)

Definition require_exact_fields (m : object) (expected : list string) (code : string) : result unit :=
  fail_if (negb (has_exactly expected m)) with code ;; Ok tt.

Definition required_non_empty_string (m : object) (field : string) (max_bytes : N) (code : string)
    : result string :=
  let? value := required_string m field code in
  fail_if (trim_is_empty value) with code ;;
  fail_if (max_bytes <? str_len value)%N with code ;;
  Ok value.

Definition required_integer (m : object) (field : string) (positive : bool) : result N :=
  let? value := ok_or (map_get field m ≫= as_u64) hi_invalid in
  fail_if ((MAX_WIRE_INTEGER <? value)%N || (positive && (value =? 0)%N)) with hi_invalid ;;
  Ok value.

Definition required_digest (m : object) (field : string) : result string :=
  let? value := required_non_empty_string m field 64 hi_invalid in
  do? map_err (validate_sha256 value) hi_invalid ;;
  Ok value.

Definition canonical_digest `{Digest} (value : Value) (digest_field : string) : result string :=
  let? m := ok_or (as_object value) hi_invalid in
  sha256_canonical (Object (map_remove digest_field m)).

(** ** Controller handles *)

Record ControllerHandle := {
  ch_checkpoint_key : string;
  ch_run_id : string;
  ch_trace_id : string
}.
#[global] Instance ControllerHandle_eq_dec : EqDecision ControllerHandle.
Proof. solve_decision. Defined.

Definition controller_handle_validate (h : ControllerHandle) : result unit :=
  try_for_each (fun value =>
    fail_if (trim_is_empty value || (CONTROLLER_COMMAND_MAX_UTF8_BYTES <? str_len value)%N)
    with "controller_command_invalid_state" ;; Ok tt)
    [ch_checkpoint_key h; ch_run_id h; ch_trace_id h].

Definition controller_handle_new (checkpoint_key run_id trace_id : string)
    : result ControllerHandle :=
  let handle := {| ch_checkpoint_key := checkpoint_key; ch_run_id := run_id;
                   ch_trace_id := trace_id |} in
  do? controller_handle_validate handle ;;
  Ok handle.

Definition controller_handle_to_value (h : ControllerHandle) : Value :=
  json_object [("checkpoint_key", Str (ch_checkpoint_key h)); ("run_id", Str (ch_run_id h));
               ("trace_id", Str (ch_trace_id h))].

Definition controller_handle_from_value (v : Value) : result ControllerHandle :=
  let code := "controller_command_invalid_state" in
  let? m := ok_or (as_object v) code in
  do? require_exact_fields m ["checkpoint_key"; "run_id"; "trace_id"] code ;;
  let? key := required_non_empty_string m "checkpoint_key" CONTROLLER_COMMAND_MAX_UTF8_BYTES code in
  let? run := required_non_empty_string m "run_id" CONTROLLER_COMMAND_MAX_UTF8_BYTES code in
  let? trace := required_non_empty_string m "trace_id" CONTROLLER_COMMAND_MAX_UTF8_BYTES code in
  controller_handle_new key run trace.

(** ** Requests *)

Record HostInteractionRequest := {
  hi_schema_version : string;
  hi_interaction_id : string;
  hi_logical_cycle : N;
  hi_operation_id : string;
  hi_tool_call_id : string;
  hi_request_digest : string;
  hi_prompt : string
}.
#[global] Instance HostInteractionRequest_eq_dec : EqDecision HostInteractionRequest.
Proof. solve_decision. Defined.

Definition request_fields : list string :=
  ["schema_version"; "interaction_id"; "logical_cycle"; "operation_id"; "tool_call_id";
   "request_digest"; "prompt"].

Definition request_to_value (r : HostInteractionRequest) : Value :=
  json_object [
    ("schema_version", Str (hi_schema_version r));
    ("interaction_id", Str (hi_interaction_id r));
    ("logical_cycle", json_u64 (hi_logical_cycle r));
    ("operation_id", Str (hi_operation_id r));
    ("tool_call_id", Str (hi_tool_call_id r));
    ("request_digest", Str (hi_request_digest r));
    ("prompt", Str (hi_prompt r))].

Section Requests.
Context `{Digest}.

Definition computed_digest (r : HostInteractionRequest) : result string :=
  canonical_digest (request_to_value r) "request_digest".

(** Everything [validate] checks before the digest. *)
Definition request_fields_ok (r : HostInteractionRequest) : result unit :=
  fail_if (negb (String.eqb (hi_schema_version r) HOST_INTERACTION_REQUEST_SCHEMA))
  with hi_invalid ;;
  do? try_for_each (fun value =>
        fail_if (trim_is_empty value || (HOST_INTERACTION_MAX_UTF8_BYTES <? str_len value)%N)
        with hi_invalid ;; Ok tt)
        [hi_interaction_id r; hi_operation_id r; hi_tool_call_id r] ;;
  fail_if ((hi_logical_cycle r =? 0)%N || (MAX_WIRE_INTEGER <? hi_logical_cycle r)%N)
  with hi_invalid ;;
  fail_if (trim_is_empty (hi_prompt r)) with hi_invalid ;;
  fail_if (HOST_INTERACTION_CONTENT_MAX_UTF8_BYTES <? str_len (hi_prompt r))%N
  with "host_interaction_content_too_large" ;;
  Ok tt.

Definition request_validate (r : HostInteractionRequest) : result unit :=
  do? request_fields_ok r ;;
  do? map_err (validate_sha256 (hi_request_digest r)) hi_invalid ;;
  let? digest := computed_digest r in
  fail_if (negb (String.eqb digest (hi_request_digest r))) with hi_invalid ;;
  Ok tt.

Definition request_new (interaction_id : string) (logical_cycle : N)
    (operation_id tool_call_id prompt : string) : result HostInteractionRequest :=
  let with_digest digest :=
    {| hi_schema_version := HOST_INTERACTION_REQUEST_SCHEMA; hi_interaction_id := interaction_id;
       hi_logical_cycle := logical_cycle; hi_operation_id := operation_id;
       hi_tool_call_id := tool_call_id; hi_request_digest := digest; hi_prompt := prompt |} in
  let? digest := computed_digest (with_digest EmptyString) in
  let request := with_digest digest in
  do? request_validate request ;;
  Ok request.

Definition request_from_value (v : Value) : result HostInteractionRequest :=
  let? m := ok_or (as_object v) hi_invalid in
  do? require_exact_fields m request_fields hi_invalid ;;
  let? prompt := required_string m "prompt" hi_invalid in
  let? schema := required_string m "schema_version" hi_invalid in
  let? interaction :=
    required_non_empty_string m "interaction_id" HOST_INTERACTION_MAX_UTF8_BYTES hi_invalid in
  let? cycle := required_integer m "logical_cycle" true in
  let? operation :=
    required_non_empty_string m "operation_id" HOST_INTERACTION_MAX_UTF8_BYTES hi_invalid in
  let? call :=
    required_non_empty_string m "tool_call_id" HOST_INTERACTION_MAX_UTF8_BYTES hi_invalid in
  let? digest := required_digest m "request_digest" in
  let request := {| hi_schema_version := schema; hi_interaction_id := interaction;
                    hi_logical_cycle := cycle; hi_operation_id := operation;
                    hi_tool_call_id := call; hi_request_digest := digest; hi_prompt := prompt |} in
  do? request_validate request ;;
  Ok request.

(** ** Suspended origins *)

Record SuspendedOrigin := {
  so_status : string;
  so_active_host_interaction : option HostInteractionRequest
}.

Definition origin_running : SuspendedOrigin :=
  {| so_status := "running"; so_active_host_interaction := None |}.
Definition origin_host_interaction (r : HostInteractionRequest) : SuspendedOrigin :=
  {| so_status := "host_interaction"; so_active_host_interaction := Some r |}.

Definition origin_validate (o : SuspendedOrigin) : result unit :=
  if (String.eqb (so_status o) "running" || String.eqb (so_status o) "deferred")
     && is_none (so_active_host_interaction o) then Ok tt
  else match so_active_host_interaction o with
  | Some request =>
      if String.eqb (so_status o) "host_interaction" then request_validate request
      else Err "checkpoint_status_invalid"
  | None => Err "checkpoint_status_invalid"
  end.

Definition origin_to_value (o : SuspendedOrigin) : Value :=
  json_object [
    ("status", Str (so_status o));
    ("active_host_interaction", opt_to_value request_to_value (so_active_host_interaction o))].

Definition origin_from_value (v : Value) : result SuspendedOrigin :=
  let? m := ok_or (as_object v) "checkpoint_status_invalid" in
  do? require_exact_fields m ["status"; "active_host_interaction"] "checkpoint_status_invalid" ;;
  let? status := required_string m "status" "checkpoint_status_invalid" in
  let? request := transpose (request_from_value <$> get_non_null m "active_host_interaction") in
  let origin := {| so_status := status; so_active_host_interaction := request |} in
  do? origin_validate origin ;;
  Ok origin.
End Requests.
#[global] Instance SuspendedOrigin_eq_dec : EqDecision SuspendedOrigin.
Proof. solve_decision. Defined.

(** ** Lemmas *)

Section RequestLemmas.
Context `{Digest}.

Lemma request_validate_spec r :
  request_validate r = Ok tt <->
  request_fields_ok r = Ok tt /\ validate_sha256 (hi_request_digest r) = Ok tt /\
  computed_digest r = Ok (hi_request_digest r).
Proof.
  unfold request_validate. split.
  - intros Hv. result_inv. bool_inv. subst.
    repeat match goal with u : unit |- _ => destruct u end. done.
  - intros (-> & -> & ->). cbn. by rewrite String.eqb_refl.
Qed.

Lemma required_non_empty_get m k s n code :
  map_get k m = Some (Str s) -> trim_is_empty s = false -> (str_len s <= n)%N ->
  required_non_empty_string m k n code = Ok s.
Proof.
  intros Hg Ht Hl. unfold required_non_empty_string, required_string. rewrite Hg. cbn.
  rewrite Ht. by rewrite (proj2 (N.ltb_ge _ _) Hl).
Qed.

Lemma ws_prefix_visible (b : N) r : (33 <= b <= 127)%N -> ws_prefix (b :: r) = 0%nat.
Proof.
  intros [Hlo Hhi]. unfold ws_prefix.
  rewrite (proj2 (N.leb_gt b 13)) by lia. rewrite (proj2 (N.eqb_neq b 32)) by lia.
  rewrite (proj2 (N.eqb_neq b 194)), (proj2 (N.eqb_neq b 225)), (proj2 (N.eqb_neq b 226)),
    (proj2 (N.eqb_neq b 227)) by lia.
  rewrite andb_false_r. by destruct r as [|c [|d r]].
Qed.

(** Lower-case hexadecimal text is not blank. *)
Lemma sha256_not_blank s : validate_sha256 s = Ok tt -> trim_is_empty s = false /\ str_len s = 64%N.
Proof.
  unfold validate_sha256. intros Hv. result_inv. bool_inv. split; [|done].
  unfold trim_is_empty. destruct s as [|c s]; [done|].
  match goal with Hall : existsb _ _ = false |- _ =>
    cbn in Hall; apply orb_false_iff in Hall as [Hc _] end.
  apply orb_false_iff in Hc as [Hc _]. apply negb_false_iff in Hc.
  cbn [str_bytes list_ascii_of_string map String.length bytes_blank].
  rewrite ws_prefix_visible; [done|].
  unfold is_ascii_hexdigit, is_ascii_digit in Hc.
  repeat (apply orb_true_iff in Hc as [Hc|Hc]); apply andb_true_iff in Hc as [?%N.leb_le ?%N.leb_le];
    lia.
Qed.

(** The digest does not cover itself. *)
Lemma computed_digest_frame r d :
  computed_digest r = computed_digest
    {| hi_schema_version := hi_schema_version r; hi_interaction_id := hi_interaction_id r;
       hi_logical_cycle := hi_logical_cycle r; hi_operation_id := hi_operation_id r;
       hi_tool_call_id := hi_tool_call_id r; hi_request_digest := d; hi_prompt := hi_prompt r |}.
Proof. reflexivity. Qed.

Lemma identity_ok s :
  (fail_if (trim_is_empty s || (HOST_INTERACTION_MAX_UTF8_BYTES <? str_len s)%N)
   with hi_invalid ;; Ok tt) = Ok tt ->
  trim_is_empty s = false /\ (str_len s <= HOST_INTERACTION_MAX_UTF8_BYTES)%N.
Proof. intros Hi. result_inv. by bool_inv. Qed.

Lemma request_wire r : request_validate r = Ok tt -> request_from_value (request_to_value r) = Ok r.
Proof.
  intros Hv. pose proof Hv as (Hf & Hs & _)%request_validate_spec.
  unfold request_fields_ok in Hf. result_inv. bool_inv.
  destruct a. apply try_for_each_Ok in Hdo. rewrite !Forall_cons in Hdo.
  destruct Hdo as (I1%identity_ok & I2%identity_ok & I3%identity_ok & _).
  destruct I1 as [B1 L1], I2 as [B2 L2], I3 as [B3 L3].
  destruct (sha256_not_blank _ Hs) as [B4 L4].
  unfold request_from_value, request_to_value, json_object. cbn [as_object ok_or].
  set (m := map_of_list _).
  assert (Hx : require_exact_fields m request_fields hi_invalid = Ok tt) by reflexivity.
  rewrite Hx. unfold required_digest, required_integer.
  rewrite (required_non_empty_get m "interaction_id" (hi_interaction_id r)) by done.
  rewrite (required_non_empty_get m "operation_id" (hi_operation_id r)) by done.
  rewrite (required_non_empty_get m "tool_call_id" (hi_tool_call_id r)) by done.
  rewrite (required_non_empty_get m "request_digest" (hi_request_digest r))
    by (done || by rewrite L4).
  assert (Hp : required_string m "prompt" hi_invalid = Ok (hi_prompt r)) by reflexivity.
  assert (Hsc : required_string m "schema_version" hi_invalid = Ok (hi_schema_version r))
    by reflexivity.
  assert (Hc : map_get "logical_cycle" m = Some (json_u64 (hi_logical_cycle r))) by reflexivity.
  rewrite Hp, Hsc, Hc. cbn [mbind option_bind as_u64 json_u64 ok_or].
  rewrite (proj2 (N.ltb_ge _ _)), (proj2 (N.eqb_neq _ _)) by done. cbn [andb orb].
  rewrite Hs. cbn [map_err]. destruct r. cbn in *. by rewrite Hv.
Qed.

Lemma origin_wire o : origin_validate o = Ok tt -> origin_from_value (origin_to_value o) = Ok o.
Proof.
  intros Hv. destruct o as [st req]. unfold origin_from_value, origin_to_value, json_object.
  cbn [as_object ok_or so_status so_active_host_interaction].
  set (m := map_of_list _).
  assert (Hx : require_exact_fields m ["status"; "active_host_interaction"]
                 "checkpoint_status_invalid" = Ok tt) by reflexivity.
  assert (Hs : required_string m "status" "checkpoint_status_invalid" = Ok st) by reflexivity.
  assert (Hr : get_non_null m "active_host_interaction" = request_to_value <$> req).
  { unfold get_non_null.
    assert (map_get "active_host_interaction" m = Some (opt_to_value request_to_value req)) as ->
      by reflexivity. by destruct req. }
  rewrite Hx, Hs, Hr. destruct req as [r|]; cbn [fmap option_fmap option_map transpose].
  - rewrite request_wire; [by rewrite Hv|]. unfold origin_validate in Hv. cbn in Hv.
    rewrite andb_false_r in Hv. by result_inv.
  - by rewrite Hv.
Qed.
End RequestLemmas.

(** ** Properties *)

(** A request built by the framework is bound to its own digest: under a
    hash that returns 64 lower-case hexadecimal digits, [new] succeeds exactly
    when the fields are within their bounds and the request has a canonical
    form, what it returns validates, and a valid request and a valid suspended
    origin survive their wire forms. *)
Theorem host_request_bound `{DigestLaws} (interaction_id : string) (logical_cycle : N)
    (operation_id tool_call_id prompt : string) :
  let unsigned := {| hi_schema_version := HOST_INTERACTION_REQUEST_SCHEMA;
    hi_interaction_id := interaction_id; hi_logical_cycle := logical_cycle;
    hi_operation_id := operation_id; hi_tool_call_id := tool_call_id;
    hi_request_digest := EmptyString; hi_prompt := prompt |} in
  is_ok (request_new interaction_id logical_cycle operation_id tool_call_id prompt)
    = is_ok (computed_digest unsigned) && is_ok (request_fields_ok unsigned) /\
  (forall r, request_new interaction_id logical_cycle operation_id tool_call_id prompt = Ok r ->
     request_validate r = Ok tt) /\
  (forall r, request_validate r = Ok tt -> request_from_value (request_to_value r) = Ok r) /\
  (forall o, origin_validate o = Ok tt -> origin_from_value (origin_to_value o) = Ok o).
Proof.
  intros unsigned. split; [|split; [|split; [apply request_wire|apply origin_wire]]].
  - unfold request_new. fold unsigned. destruct (computed_digest unsigned) as [d|] eqn:Hd; [|done].
    cbn [is_ok andb].
    match goal with |- context [request_validate ?r] =>
      assert (Hd' : computed_digest r = Ok d) by (rewrite <- Hd; reflexivity) end.
    assert (Hs : validate_sha256 d = Ok tt).
    { unfold computed_digest, canonical_digest, sha256_canonical in Hd. result_inv.
      apply sha256_hex_valid. }
    unfold request_validate. rewrite Hd'. cbn [hi_request_digest]. rewrite Hs.
    cbn [map_err]. rewrite String.eqb_refl. cbn [negb].
    match goal with |- context [request_fields_ok ?r] =>
      change (request_fields_ok r) with (request_fields_ok unsigned) end.
    by destruct (request_fields_ok unsigned).
  - unfold request_new. intros r Hr. result_inv.
    by match goal with H : request_validate _ = Ok ?u |- _ => destruct u end.
Qed.

Lemma host_request_bound_witness :
  exists r, @request_new toy_digest "ask_1" 2 "op_1" "call_1" "Proceed?" = Ok r /\
    @request_validate toy_digest r = Ok tt.
Proof.
  destruct (@request_new toy_digest "ask_1" 2 "op_1" "call_1" "Proceed?") as [r|] eqn:E;
    [|exfalso; revert E; vm_compute; discriminate].
  exists r. split; [reflexivity|].
  exact (proj1 (proj2 (@host_request_bound toy_digest toy_digest_laws "ask_1" 2 "op_1" "call_1"
                         "Proceed?")) r E).
Defined.
