(* ===== verification/EventWire.v ===== *)
(** * The strict event reader

    [Deserialize for RunEvent] of [events.rs] with the checks of
    [events/wire.rs], [events/wire_checkpoint.rs] and
    [events/wire_supplemental.rs]: the instance of the class [EventReader] the
    program runs with.  The fields of the payload variants
    ([events/payload.rs]) are a table; a variant the kernel does not inspect is
    read into its wire form.  A reading that fails is [None]: the text of the
    error is not modelled.

    serde reads the payload from the fields the envelope leaves over, through
    an intermediate copy; the copy accepts an enumeration written as
    [{name: {}}] where a JSON value would not, also inside the usage, the
    budget, the observation.  That is modelled for the fields of the payload
    itself and not inside nested records. *)

From Stdlib Require Import Ascii String NArith ZArith Lia.
From stdpp Require Import base strings list sets.
From S2P Require Import Prelude Json Canonical CheckpointTypes ToolResult Journal TokenUsage.
From S2P Require Import Budget BudgetWire Records ResultCodec ToolPolicy Settings Events HostInteraction.

(** ** The shape of an event *)

Definition COMMON_FIELDS : list string :=
  ["version"; "type"; "event_id"; "run_id"; "trace_id"; "created_at"; "session_id";
   "parent_event_id"; "parent_run_id"; "cycle_index"; "agent_name"; "metadata"].
Definition REQUIRED_FIELDS : list string :=
  ["version"; "type"; "event_id"; "run_id"; "trace_id"; "created_at"].

(** Per event type, the fields it may have and the fields it must have. *)
Definition Shapes : Type := list (string * (list string * list string)).
Definition RUN_SHAPES : Shapes := [
  ("run_started", (
    ["input"],
    ["input"]));
  ("agent_started", ([], []));
  ("cycle_started", ([], []));
  ("session_persisted", ([], []));
  ("model_call_started", (
    ["call_id"; "operation_id"; "attempt"; "operation"; "backend"; "model"],
    ["call_id"; "operation_id"; "attempt"; "operation"; "cycle_index"; "backend"; "model"]));
  ("model_call_completed", (
    ["call_id"; "operation_id"; "attempt"; "operation"; "backend"; "model"; "usage"],
    ["call_id"; "operation_id"; "attempt"; "operation"; "cycle_index"; "backend"; "model";
     "usage"]));
  ("model_call_failed", (
    ["call_id"; "operation_id"; "attempt"; "operation"; "backend"; "model"; "outcome"; "usage";
     "error_code"],
    ["call_id"; "operation_id"; "attempt"; "operation"; "cycle_index"; "backend"; "model";
     "outcome"; "usage"; "error_code"]));
  ("run_state_changed", (
    ["state"; "cancel_requested"],
    ["state"]));
  ("host_interaction_requested", (
    ["checkpoint_key"; "resume_attempt"; "interaction_id"; "logical_cycle"; "operation_id";
     "tool_call_id"; "request_digest"; "prompt"],
    ["checkpoint_key"; "resume_attempt"; "interaction_id"; "logical_cycle"; "operation_id";
     "tool_call_id"; "request_digest"; "prompt"; "cycle_index"]));
  ("host_interaction_response_consumed", (
    ["checkpoint_key"; "resume_attempt"; "interaction_id"; "logical_cycle"; "operation_id";
     "tool_call_id"; "request_digest"; "command_id"; "response_digest"; "consumed_revision"],
    ["checkpoint_key"; "resume_attempt"; "interaction_id"; "logical_cycle"; "operation_id";
     "tool_call_id"; "request_digest"; "command_id"; "response_digest"; "consumed_revision";
     "cycle_index"]))].
Definition TOOL_SHAPES : Shapes := [
  ("diagnostic", (
    ["level"; "code"; "details"],
    ["level"; "code"; "details"]));
  ("assistant_delta", (
    ["delta"; "content_chars"; "estimated_tokens"],
    ["delta"; "cycle_index"]));
  ("reasoning_delta", (
    ["delta"; "reasoning_chars"; "estimated_tokens"],
    ["delta"; "cycle_index"]));
  ("model_tool_call_started", (
    ["tool_call_id"; "tool_call_index"; "tool_name"; "arguments_chars"; "estimated_tokens"],
    ["tool_call_id"; "tool_name"; "cycle_index"]));
  ("model_tool_call_progress", (
    ["tool_call_id"; "tool_call_index"; "tool_name"; "arguments_chars"; "estimated_tokens"],
    ["tool_call_id"; "tool_name"; "cycle_index"]));
  ("tool_call_planned", (
    ["tool_call_id"; "tool_name"; "arguments"; "tool_metadata"],
    ["tool_call_id"; "tool_name"; "arguments"]));
  ("tool_call_started", (
    ["tool_call_id"; "tool_name"; "arguments"; "tool_metadata"],
    ["tool_call_id"; "tool_name"; "arguments"]));
  ("tool_call_completed", (
    ["tool_call_id"; "tool_name"; "status"; "directive"; "error_code"; "execution_started";
     "duration_ms"; "operation_id"; "attempt"; "tool_metadata"; "checkpoint_key"],
    ["tool_call_id"; "tool_name"; "status"; "directive"; "error_code"; "execution_started";
     "duration_ms"]));
  ("tool_call_deferred", (
    ["tool_call_id"; "tool_name"; "operation_id"; "attempt"; "handle"; "execution_started";
     "duration_ms"; "operation_kind"; "checkpoint_key"],
    ["tool_call_id"; "tool_name"; "operation_id"; "attempt"; "handle"; "execution_started";
     "duration_ms"]));
  ("approval_requested", (
    ["request_id"; "tool_call_id"; "tool_name"; "message"],
    ["request_id"; "tool_call_id"; "tool_name"; "message"]));
  ("approval_resolved", (
    ["request_id"; "tool_call_id"; "tool_name"; "action"],
    ["request_id"; "tool_call_id"; "tool_name"; "action"]))].
Definition MEMORY_SHAPES : Shapes := [
  ("memory_compact_started", (
    ["message_count"; "estimated_tokens"; "trigger"; "configured_threshold";
     "effective_threshold"; "microcompact_threshold"; "microcompact_target"; "candidate_count";
     "estimated_reclaimable_tokens"; "model_context_window"; "model_max_output_tokens";
     "reserved_output_tokens"; "reserved_output_source"; "autocompact_buffer_tokens"],
    ["message_count"; "trigger"; "configured_threshold"; "effective_threshold";
     "microcompact_threshold"; "microcompact_target"; "candidate_count";
     "estimated_reclaimable_tokens"; "model_context_window"; "model_max_output_tokens";
     "reserved_output_tokens"; "reserved_output_source"; "autocompact_buffer_tokens"]));
  ("memory_compact_completed", (
    ["before_count"; "after_count"; "summary_tokens"; "mode"; "changed"; "archived_count";
     "reclaimed_tokens"; "artifact_failure_count"],
    ["before_count"; "after_count"; "mode"; "changed"; "archived_count"; "reclaimed_tokens";
     "artifact_failure_count"]));
  ("sub_run_started", (
    ["parent_tool_call_id"; "status"; "child_session_id"; "task_id"],
    ["parent_tool_call_id"; "status"]));
  ("sub_run_completed", (
    ["parent_tool_call_id"; "status"; "child_session_id"; "task_id"; "final_output";
     "wait_reason"; "error"; "completion_reason"; "completion_tool_name"; "partial_output";
     "token_usage"; "budget_usage"; "budget_exhaustion"],
    ["parent_tool_call_id"; "status"]));
  ("handoff_started", (
    ["source_agent"; "target_agent"; "tool_call_id"; "status"; "child_session_id"],
    ["source_agent"; "target_agent"; "tool_call_id"; "status"]));
  ("handoff_completed", (
    ["source_agent"; "target_agent"; "tool_call_id"; "status"; "child_session_id";
     "child_run_id"],
    ["source_agent"; "target_agent"; "tool_call_id"; "status"]))].
Definition CHECKPOINT_SHAPES : Shapes := [
  ("budget_snapshot", (
    ["enforcement_boundary"; "budget_usage"],
    ["enforcement_boundary"; "budget_usage"]));
  ("budget_exhausted", (
    ["enforcement_boundary"; "budget_usage"; "budget_exhaustion"],
    ["enforcement_boundary"; "budget_usage"; "budget_exhaustion"]));
  ("checkpoint_created", (
    ["checkpoint_key"; "resume_attempt"],
    ["checkpoint_key"; "resume_attempt"; "cycle_index"]));
  ("checkpoint_resumed", (
    ["checkpoint_key"; "resume_attempt"],
    ["checkpoint_key"; "resume_attempt"; "cycle_index"]));
  ("operation_replayed", (
    ["checkpoint_key"; "operation_id"; "operation_kind"; "receipt_state"],
    ["checkpoint_key"; "operation_id"; "operation_kind"; "receipt_state"; "cycle_index"]));
  ("operation_ambiguous", (
    ["checkpoint_key"; "operation_id"; "operation_kind"; "risk"; "idempotency_support"],
    ["checkpoint_key"; "operation_id"; "operation_kind"; "risk"; "idempotency_support";
     "cycle_index"]));
  ("reconciliation_required", (
    ["checkpoint_key"; "operation_id"; "operation_kind"; "interruption_reason";
     "resume_observation"],
    ["checkpoint_key"; "operation_id"; "operation_kind"; "interruption_reason";
     "resume_observation"; "cycle_index"]));
  ("model_retry_duplicate_risk", (
    ["checkpoint_key"; "operation_id"; "operation_kind"; "risk"],
    ["checkpoint_key"; "operation_id"; "operation_kind"; "risk"; "cycle_index"]));
  ("reconciliation_resolved", (
    ["checkpoint_key"; "operation_id"; "operation_kind"; "decision"; "claim_mode"],
    ["checkpoint_key"; "operation_id"; "operation_kind"; "decision"; "cycle_index"]));
  ("run_completed", (
    ["status"; "final_output"; "completion_reason"; "completion_tool_name"; "partial_output";
     "budget_usage"; "budget_exhaustion"],
    ["status"]));
  ("run_failed", (
    ["error"; "status"; "completion_reason"; "completion_tool_name"; "partial_output";
     "budget_usage"; "budget_exhaustion"],
    ["error"]));
  ("run_cancelled", (
    ["reason"; "completion_reason"; "partial_output"; "budget_usage"; "budget_exhaustion"],
    ["reason"]));
  ("cycle_aborted", (
    ["logical_cycle"; "reason"],
    ["logical_cycle"; "reason"; "cycle_index"]))].
Definition EVENT_SHAPES : Shapes := RUN_SHAPES ++ TOOL_SHAPES ++ MEMORY_SHAPES ++ CHECKPOINT_SHAPES.

Definition alist_get {V} (k : string) (l : list (string * V)) : option V :=
  snd <$> List.find (fun kv => String.eqb kv.1 k) l.
Definition includes (l : list string) (k : string) : bool := existsb (String.eqb k) l.

(** A cancellation recorded with a state change is typed, and goes from
    [false] to [true]. *)
Definition cancel_transition (m : object) : bool :=
  negb (is_some_and (map_get "metadata" m ≫= as_object) (map_contains_key "cancel_requested"))
  && match map_get "cancel_requested" m with
     | None => true
     | Some (Object t) =>
         (map_len t =? 2)%N && (map_get "from" t =?? Some (Bool false))
         && (map_get "to" t =?? Some (Bool true))
     | Some _ => false
     end.
Definition validate_event_wire_shape (v : Value) : bool :=
  match v with
  | Object m =>
      match map_get "type" m ≫= as_str with
      | None => false
      | Some event_type =>
          match alist_get event_type EVENT_SHAPES with
          | None => false
          | Some (event_fields, required_fields) =>
              (negb (String.eqb event_type "run_state_changed") || cancel_transition m)
              && forallb (fun k => includes COMMON_FIELDS k || includes event_fields k) (map_keys m)
              && forallb (fun k => map_contains_key k m) (REQUIRED_FIELDS ++ required_fields)
          end
      end
  | _ => false
  end.

(** ** The payload *)

Inductive FieldKind :=
| FString | FU64 | FU32 | FBool | FAny | FMap
| FEnum (names : list string)
| FUsage | FHandle | FBudget | FExhaustion | FObservation.
(** A plain field; an [Option] that is written as [null]; an [Option] that is
    left out. *)
Inductive Presence := Needed | Nullable | Skipped.

Definition OPERATIONS : list string := ["agent_cycle"; "session_memory"; "memory_compaction"].
Definition OUTCOMES : list string := ["definitive"; "ambiguous"].
Definition LEVELS : list string := ["debug"; "info"; "warning"; "error"].
Definition ACTIONS : list string := ["allow"; "allow_session"; "deny"; "timeout"].
Definition TOOL_STATUSES : list string :=
  ["started"; "success"; "error"; "wait_response"; "running"; "pending_compress"].
Definition DIRECTIVES : list string := ["continue"; "wait_user"; "finish"].
Definition KINDS : list string := ["model"; "tool"].
Definition TRIGGERS : list string := ["micro_threshold"; "full_threshold"; "prompt_too_long"].
Definition RESERVED_SOURCES : list string :=
  ["model_settings"; "task_metadata"; "framework_fallback";
   "framework_fallback_capped_by_model_capability"].
Definition MODES : list string := ["none"; "micro"; "structural"; "summary"; "emergency"].
Definition AGENT_STATUSES : list string :=
  ["pending"; "running"; "deferred"; "host_interaction"; "wait_user"; "completed"; "failed";
   "max_cycles"; "reconciliation_required"].
Definition BOUNDARIES : list string :=
  ["run_start"; "cycle_start"; "model_call_complete"; "tool_batch_preflight";
   "tool_batch_complete"; "terminal"].
Definition STATES : list string :=
  ["planned"; "started"; "deferred"; "succeeded"; "failed"; "ambiguous"].
Definition SUPPORTS : list string := ["supported"; "unsupported"; "unknown"].
Definition DECISIONS : list string :=
  ["defer"; "accept_deferred"; "retry"; "replay_success"; "record_failure"; "abort"].
Definition CLAIM_MODES : list string := ["continue"; "recovery"].

Definition Schema : Type := list (string * Presence * FieldKind).
(** [RunEventPayload], variant by variant. *)
Definition EXECUTION_PAYLOADS : list (string * Schema) := [
  ("run_started",
   [("input", Needed, FString)]);
  ("run_state_changed",
   [("state", Needed, FString)]);
  ("host_interaction_requested",
   [("checkpoint_key", Needed, FString); ("resume_attempt", Needed, FU64);
    ("interaction_id", Needed, FString); ("logical_cycle", Needed, FU64);
    ("operation_id", Needed, FString); ("tool_call_id", Needed, FString);
    ("request_digest", Needed, FString); ("prompt", Needed, FString)]);
  ("host_interaction_response_consumed",
   [("checkpoint_key", Needed, FString); ("resume_attempt", Needed, FU64);
    ("interaction_id", Needed, FString); ("logical_cycle", Needed, FU64);
    ("operation_id", Needed, FString); ("tool_call_id", Needed, FString);
    ("request_digest", Needed, FString); ("command_id", Needed, FString);
    ("response_digest", Needed, FString); ("consumed_revision", Needed, FU64)]);
  ("agent_started", []);
  ("cycle_started", []);
  ("model_call_started",
   [("call_id", Needed, FString); ("operation_id", Needed, FString); ("attempt", Needed, FU32);
    ("operation", Needed, FEnum OPERATIONS); ("backend", Needed, FString);
    ("model", Needed, FString)]);
  ("model_call_completed",
   [("call_id", Needed, FString); ("operation_id", Needed, FString); ("attempt", Needed, FU32);
    ("operation", Needed, FEnum OPERATIONS); ("backend", Needed, FString);
    ("model", Needed, FString); ("usage", Needed, FUsage)]);
  ("model_call_failed",
   [("call_id", Needed, FString); ("operation_id", Needed, FString); ("attempt", Needed, FU32);
    ("operation", Needed, FEnum OPERATIONS); ("backend", Needed, FString);
    ("model", Needed, FString); ("outcome", Needed, FEnum OUTCOMES); ("usage", Needed, FUsage);
    ("error_code", Needed, FString)]);
  ("diagnostic",
   [("level", Needed, FEnum LEVELS); ("code", Needed, FString); ("details", Needed, FMap)]);
  ("assistant_delta",
   [("delta", Needed, FString); ("content_chars", Skipped, FU64);
    ("estimated_tokens", Skipped, FU64)]);
  ("reasoning_delta",
   [("delta", Needed, FString); ("reasoning_chars", Skipped, FU64);
    ("estimated_tokens", Skipped, FU64)]);
  ("model_tool_call_started",
   [("tool_call_id", Needed, FString); ("tool_call_index", Skipped, FU64);
    ("tool_name", Needed, FString); ("arguments_chars", Skipped, FU64);
    ("estimated_tokens", Skipped, FU64)]);
  ("model_tool_call_progress",
   [("tool_call_id", Needed, FString); ("tool_call_index", Skipped, FU64);
    ("tool_name", Needed, FString); ("arguments_chars", Skipped, FU64);
    ("estimated_tokens", Skipped, FU64)]);
  ("tool_call_planned",
   [("tool_call_id", Needed, FString); ("tool_name", Needed, FString);
    ("arguments", Needed, FAny)]);
  ("tool_call_started",
   [("tool_call_id", Needed, FString); ("tool_name", Needed, FString);
    ("arguments", Needed, FAny)]);
  ("approval_requested",
   [("request_id", Needed, FString); ("tool_call_id", Needed, FString);
    ("tool_name", Needed, FString); ("message", Needed, FString)]);
  ("approval_resolved",
   [("request_id", Needed, FString); ("tool_name", Needed, FString);
    ("tool_call_id", Needed, FString); ("action", Needed, FEnum ACTIONS)]);
  ("tool_call_completed",
   [("tool_call_id", Needed, FString); ("tool_name", Needed, FString);
    ("status", Needed, FEnum TOOL_STATUSES); ("directive", Needed, FEnum DIRECTIVES);
    ("error_code", Nullable, FString); ("execution_started", Needed, FBool);
    ("duration_ms", Nullable, FU64); ("operation_id", Skipped, FString);
    ("attempt", Skipped, FU32)]);
  ("tool_call_deferred",
   [("tool_call_id", Needed, FString); ("tool_name", Needed, FString);
    ("operation_id", Needed, FString); ("attempt", Needed, FU32); ("handle", Needed, FHandle);
    ("execution_started", Needed, FBool); ("duration_ms", Nullable, FU64);
    ("operation_kind", Skipped, FEnum KINDS)])].
Definition LIFECYCLE_PAYLOADS : list (string * Schema) := [
  ("memory_compact_started",
   [("message_count", Needed, FU64); ("estimated_tokens", Skipped, FU64);
    ("trigger", Needed, FEnum TRIGGERS); ("configured_threshold", Needed, FU64);
    ("effective_threshold", Needed, FU64); ("microcompact_threshold", Needed, FU64);
    ("microcompact_target", Needed, FU64); ("candidate_count", Needed, FU64);
    ("estimated_reclaimable_tokens", Needed, FU64); ("model_context_window", Needed, FU64);
    ("model_max_output_tokens", Nullable, FU64); ("reserved_output_tokens", Needed, FU64);
    ("reserved_output_source", Needed, FEnum RESERVED_SOURCES);
    ("autocompact_buffer_tokens", Needed, FU64)]);
  ("memory_compact_completed",
   [("before_count", Needed, FU64); ("after_count", Needed, FU64);
    ("summary_tokens", Skipped, FU64); ("mode", Needed, FEnum MODES);
    ("changed", Needed, FBool); ("archived_count", Needed, FU64);
    ("reclaimed_tokens", Needed, FU64); ("artifact_failure_count", Needed, FU64)]);
  ("sub_run_started",
   [("parent_tool_call_id", Needed, FString); ("child_session_id", Skipped, FString);
    ("task_id", Skipped, FString)]);
  ("sub_run_completed",
   [("parent_tool_call_id", Needed, FString); ("status", Needed, FEnum AGENT_STATUSES);
    ("final_output", Skipped, FString)]);
  ("handoff_started",
   [("source_agent", Needed, FString); ("target_agent", Needed, FString);
    ("tool_call_id", Needed, FString)]);
  ("handoff_completed",
   [("source_agent", Needed, FString); ("target_agent", Needed, FString);
    ("tool_call_id", Needed, FString)]);
  ("session_persisted", []);
  ("budget_snapshot",
   [("enforcement_boundary", Needed, FEnum BOUNDARIES); ("budget_usage", Needed, FBudget)]);
  ("budget_exhausted",
   [("enforcement_boundary", Needed, FEnum BOUNDARIES); ("budget_usage", Needed, FBudget);
    ("budget_exhaustion", Needed, FExhaustion)]);
  ("checkpoint_created",
   [("checkpoint_key", Needed, FString); ("resume_attempt", Needed, FU64)]);
  ("checkpoint_resumed",
   [("checkpoint_key", Needed, FString); ("resume_attempt", Needed, FU64)]);
  ("operation_replayed",
   [("checkpoint_key", Needed, FString); ("operation_id", Needed, FString);
    ("operation_kind", Needed, FEnum KINDS); ("receipt_state", Needed, FEnum STATES)]);
  ("operation_ambiguous",
   [("checkpoint_key", Needed, FString); ("operation_id", Needed, FString);
    ("operation_kind", Needed, FEnum KINDS); ("risk", Needed, FString);
    ("idempotency_support", Nullable, FEnum SUPPORTS)]);
  ("reconciliation_required",
   [("checkpoint_key", Needed, FString); ("operation_id", Needed, FString);
    ("operation_kind", Needed, FEnum KINDS); ("interruption_reason", Needed, FString);
    ("resume_observation", Needed, FObservation)]);
  ("model_retry_duplicate_risk",
   [("checkpoint_key", Needed, FString); ("operation_id", Needed, FString);
    ("operation_kind", Needed, FEnum KINDS); ("risk", Needed, FString)]);
  ("reconciliation_resolved",
   [("checkpoint_key", Needed, FString); ("operation_id", Needed, FString);
    ("operation_kind", Needed, FEnum KINDS); ("decision", Needed, FEnum DECISIONS);
    ("claim_mode", Skipped, FEnum CLAIM_MODES)]);
  ("run_completed",
   [("status", Needed, FEnum AGENT_STATUSES)]);
  ("run_failed",
   [("error", Needed, FString)]);
  ("run_cancelled",
   [("reason", Needed, FString)]);
  ("cycle_aborted",
   [("logical_cycle", Needed, FU64); ("reason", Needed, FString)])].
Definition PAYLOADS : list (string * Schema) := EXECUTION_PAYLOADS ++ LIFECYCLE_PAYLOADS.

(** A unit variant read through serde's buffered content. *)
Definition content_unit_variant (v : Value) : option string :=
  match v with
  | Str s | Object [(s, Null)] | Object [(s, Object [])] => Some s
  | _ => None
  end.
(** A field as it is read, written back. *)
Definition read_kind (k : FieldKind) (v : Value) : option Value :=
  match k with
  | FString => Str <$> as_str v
  | FU64 => json_u64 <$> as_u64 v
  | FU32 => json_u64 <$> as_u32_value v
  | FBool => Bool <$> as_bool v
  | FAny => Some v
  | FMap => Object <$> as_object v
  | FEnum names => s ← content_unit_variant v; if includes names s then Some (Str s) else None
  | FUsage => token_usage_to_value <$> token_usage_from_value v
  | FHandle => match handle_from_value v with Ok h => Some (handle_to_value h) | Err _ => None end
  | FBudget => usage_to_value <$> usage_from_value v
  | FExhaustion => exhaustion_to_value <$> exhaustion_from_value v
  | FObservation => observation_to_value <$> observation_from_value v
  end.
(** The entry the field leaves in the wire form, if any. *)
Definition read_field (m : object) (f : string * Presence * FieldKind) : option (option Value) :=
  let '(name, presence, kind) := f in
  match presence with
  | Needed => v ← map_get name m; Some <$> read_kind kind v
  | Nullable => o ← serde_option (read_kind kind) (map_get name m); Some (Some (default Null o))
  | Skipped => serde_option (read_kind kind) (map_get name m)
  end.
Definition entries (s : Schema) (l : list (option Value)) : list (string * Value) :=
  omap (fun x => (fun v => (x.1.1.1, v)) <$> x.2) (combine s l).
(** The payload in wire form. *)
Definition read_payload (tag : string) (m : object) : option object :=
  schema ← alist_get tag PAYLOADS;
  l ← mapM (read_field m) schema;
  Some (map_of_list (("type", Str tag) :: entries schema l)).

(** *** The variants the kernel inspects *)

Definition str_at (k : string) (o : object) : option string := map_get k o ≫= as_str.
Definition num_at (k : string) (o : object) : option N := map_get k o ≫= as_u64.
Definition bool_at (k : string) (o : object) : option bool := map_get k o ≫= as_bool.
(** An [Option] in wire form. *)
Definition opt_at {T} (decode : Value -> option T) (k : string) (o : object) : option (option T) :=
  serde_option decode (map_get k o).
Definition status_of_wire (v : Value) : option ToolStatus :=
  List.find (fun s => v =?? Str (tool_status_str s))
    [TStarted; TSuccess; TError; TWaitResponse; TRunning; TPendingCompress].
Definition directive_of_wire (v : Value) : option ToolDirective :=
  List.find (fun d => v =?? Str (tool_directive_value d)) [DContinue; DWaitUser; DFinish].
Definition outcome_of_wire (v : Value) : option ModelCallFailureOutcome :=
  List.find (fun o => v =?? Str (outcome_str o)) [Definitive; AmbiguousOutcome].
Definition boundary_of_wire (v : Value) : option BudgetEnforcementBoundary :=
  List.find (fun b => v =?? Str (boundary_str b))
    [RunStart; CycleStart; ModelCallComplete; ToolBatchPreflight; ToolBatchComplete; Terminal].
Definition decision_of_wire (v : Value) : option ReconciliationDecisionKind :=
  List.find (fun k => v =?? Str (decision_kind_str k))
    [Defer; AcceptDeferred; Retry; ReplaySuccess; RecordFailure; Abort].
Definition claim_mode_of_wire (v : Value) : option ClaimMode :=
  List.find (fun m => v =?? Str (claim_mode_str m)) [Continue; Recovery].
Definition operation_of_wire (v : Value) : option ModelCallOperation :=
  List.find (fun o => v =?? model_operation_to_value o) [AgentCycle; SessionMemory; MemoryCompaction].
Definition kind_of_wire (v : Value) : option OperationKind :=
  List.find (fun k => v =?? kind_to_value k) [Model; Tool].
Definition handle_of_wire (v : Value) : option DeferredToolHandle :=
  match handle_from_value v with Ok h => Some h | Err _ => None end.

Definition call_of (o : object) : option ModelCallPayload :=
  call_id ← str_at "call_id" o;
  operation_id ← str_at "operation_id" o;
  attempt ← num_at "attempt" o;
  operation ← map_get "operation" o ≫= operation_of_wire;
  backend ← str_at "backend" o;
  model ← str_at "model" o;
  Some {| mp_call_id := call_id; mp_operation_id := operation_id; mp_attempt := attempt;
          mp_operation := operation; mp_backend := backend; mp_model := model |}.
Definition budget_fields (o : object) : object :=
  map_remove "type" (map_remove "enforcement_boundary" o).

(** The payload of a wire form. *)
Definition payload_of (tag : string) (o : object) : option RunEventPayload :=
  if String.eqb tag "model_call_started" then ModelCallStarted <$> call_of o
  else if String.eqb tag "model_call_completed" then
    call ← call_of o;
    usage ← map_get "usage" o ≫= token_usage_from_value;
    Some (ModelCallCompleted call usage)
  else if String.eqb tag "model_call_failed" then
    call ← call_of o;
    outcome ← map_get "outcome" o ≫= outcome_of_wire;
    usage ← map_get "usage" o ≫= token_usage_from_value;
    error_code ← str_at "error_code" o;
    Some (ModelCallFailed call outcome usage error_code)
  else if String.eqb tag "budget_snapshot" then
    boundary ← map_get "enforcement_boundary" o ≫= boundary_of_wire;
    Some (BudgetSnapshotEv boundary (budget_fields o))
  else if String.eqb tag "budget_exhausted" then
    boundary ← map_get "enforcement_boundary" o ≫= boundary_of_wire;
    Some (BudgetExhaustedEv boundary (budget_fields o))
  else if String.eqb tag "tool_call_completed" then
    tool_call_id ← str_at "tool_call_id" o;
    tool_name ← str_at "tool_name" o;
    status ← map_get "status" o ≫= status_of_wire;
    directive ← map_get "directive" o ≫= directive_of_wire;
    error_code ← opt_at as_str "error_code" o;
    started ← bool_at "execution_started" o;
    duration ← opt_at as_u64 "duration_ms" o;
    operation_id ← opt_at as_str "operation_id" o;
    attempt ← opt_at as_u64 "attempt" o;
    Some (ToolCallCompleted tool_call_id tool_name status directive error_code started duration
            operation_id attempt)
  else if String.eqb tag "tool_call_deferred" then
    tool_call_id ← str_at "tool_call_id" o;
    tool_name ← str_at "tool_name" o;
    operation_id ← str_at "operation_id" o;
    attempt ← num_at "attempt" o;
    handle ← map_get "handle" o ≫= handle_of_wire;
    started ← bool_at "execution_started" o;
    duration ← opt_at as_u64 "duration_ms" o;
    kind ← opt_at kind_of_wire "operation_kind" o;
    Some (ToolCallDeferred tool_call_id tool_name operation_id attempt handle started duration kind)
  else if String.eqb tag "reconciliation_resolved" then
    key ← str_at "checkpoint_key" o;
    operation_id ← str_at "operation_id" o;
    kind ← map_get "operation_kind" o ≫= kind_of_wire;
    decision ← map_get "decision" o ≫= decision_of_wire;
    mode ← opt_at claim_mode_of_wire "claim_mode" o;
    Some (ReconciliationResolved key operation_id kind decision mode)
  else if String.eqb tag "cycle_aborted" then
    cycle ← num_at "logical_cycle" o;
    reason ← str_at "reason" o;
    Some (CycleAborted cycle reason)
  else if String.eqb tag "run_state_changed" then RunStateChanged <$> str_at "state" o
  else if String.eqb tag "host_interaction_requested" then
    key ← str_at "checkpoint_key" o;
    attempt ← num_at "resume_attempt" o;
    interaction ← str_at "interaction_id" o;
    cycle ← num_at "logical_cycle" o;
    operation ← str_at "operation_id" o;
    call ← str_at "tool_call_id" o;
    digest ← str_at "request_digest" o;
    prompt ← str_at "prompt" o;
    Some (HostInteractionRequested key attempt interaction cycle operation call digest prompt)
  else if String.eqb tag "host_interaction_response_consumed" then
    key ← str_at "checkpoint_key" o;
    attempt ← num_at "resume_attempt" o;
    interaction ← str_at "interaction_id" o;
    cycle ← num_at "logical_cycle" o;
    operation ← str_at "operation_id" o;
    call ← str_at "tool_call_id" o;
    digest ← str_at "request_digest" o;
    command ← str_at "command_id" o;
    response ← str_at "response_digest" o;
    revision ← num_at "consumed_revision" o;
    Some (HostInteractionResponseConsumed key attempt interaction cycle operation call digest
            command response revision)
  else if String.eqb tag "checkpoint_resumed" then
    key ← str_at "checkpoint_key" o;
    attempt ← num_at "resume_attempt" o;
    Some (CheckpointResumed key attempt)
  else if String.eqb tag "run_failed" then RunFailed <$> str_at "error" o
  else if String.eqb tag "run_cancelled" then RunCancelled <$> str_at "reason" o
  else Some (OtherPayload o).
Definition payload_from_map (m : object) : option RunEventPayload :=
  tag ← str_at "type" m;
  o ← read_payload tag m;
  payload_of tag o.

(** ** The checks *)

Definition JSON_SAFE_INTEGER_MAX : N := 9007199254740991.
Definition has_text (s : string) : bool := negb (trim_is_empty s).
Definition safe_counter (o : object) (k : string) : bool :=
  is_none_or (num_at k o) (fun n => (n <=? JSON_SAFE_INTEGER_MAX)%N).
Definition positive_cycle (cycle_index : option N) : bool :=
  is_some_and cycle_index (fun n => negb (n =? 0)%N).
(** The tag and the fields of a payload kept in wire form. *)
Definition other_payload (p : RunEventPayload) : option (string * object) :=
  match p with OtherPayload o => tag ← str_at "type" o; Some (tag, o) | _ => None end.

Definition validate_model_call_wire_fields (m : object) (p : RunEventPayload)
    (cycle_index : option N) : bool :=
  let identity c := has_text (mp_call_id c) && has_text (mp_operation_id c)
                    && has_text (mp_backend c) && has_text (mp_model c)
                    && negb (mp_attempt c =? 0)%N && positive_cycle cycle_index in
  match p with
  | ModelCallStarted c => identity c && is_none (map_get "usage" m)
  | ModelCallCompleted c _ => identity c
  | ModelCallFailed c _ _ error_code => identity c && has_text error_code
  | _ => true
  end.

Definition null_or_string (o : option Value) : bool :=
  match o with None | Some Null | Some (Str _) => true | _ => false end.
Definition validate_completion_wire_fields (m : object) : bool :=
  match map_get "completion_reason" m with
  | None | Some Null => true
  | Some (Str reason) => is_ok (parse_completion_reason reason)
  | Some _ => false
  end
  && null_or_string (map_get "completion_tool_name" m)
  && null_or_string (map_get "partial_output" m).
Definition null_or_object {T} (decode : Value -> option T) (o : option Value) : bool :=
  match o with
  | None | Some Null => true
  | Some (Object _ as v) => is_some (decode v)
  | Some _ => false
  end.
Definition validate_budget_wire_fields (m : object) : bool :=
  null_or_object usage_from_value (map_get "budget_usage" m)
  && null_or_object exhaustion_from_value (map_get "budget_exhaustion" m).

Definition validate_stream_wire_fields (p : RunEventPayload) (cycle_index : option N) : bool :=
  match other_payload p with
  | None => true
  | Some (tag, o) =>
      if String.eqb tag "assistant_delta" then
        positive_cycle cycle_index && forallb (safe_counter o) ["content_chars"; "estimated_tokens"]
      else if String.eqb tag "reasoning_delta" then
        positive_cycle cycle_index && forallb (safe_counter o) ["reasoning_chars"; "estimated_tokens"]
      else if String.eqb tag "model_tool_call_started" || String.eqb tag "model_tool_call_progress"
      then
        positive_cycle cycle_index && is_some_and (str_at "tool_call_id" o) has_text
        && is_some_and (str_at "tool_name" o) has_text
        && forallb (safe_counter o) ["tool_call_index"; "arguments_chars"; "estimated_tokens"]
      else true
  end.

Definition tool_metadata_ok (m : object) : bool :=
  is_none_or (map_get "tool_metadata" m) (fun v => is_some (metadata_from_value v)).
Definition validate_tool_lifecycle_wire_fields (m : object) (p : RunEventPayload) : bool :=
  match p with
  | ToolCallCompleted tool_call_id tool_name status _ _ execution_started duration_ms _ _ =>
      match status with TStarted => false | _ => true end
      && is_none_or duration_ms (fun n => (n <=? JSON_SAFE_INTEGER_MAX)%N)
      && (execution_started || is_none duration_ms)
      && has_text tool_call_id && has_text tool_name && tool_metadata_ok m
  | ToolCallDeferred tool_call_id tool_name operation_id attempt handle _ duration_ms kind =>
      has_text operation_id && has_text tool_call_id && has_text tool_name
      && negb (attempt =? 0)%N && is_ok (handle_validate handle)
      && is_none_or kind (fun k => k =?? Tool) && is_none duration_ms
  | _ =>
      match other_payload p with
      | Some (tag, o) =>
          if String.eqb tag "tool_call_planned" || String.eqb tag "tool_call_started" then
            is_some_and (map_get "arguments" o) is_object
            && is_some_and (str_at "tool_call_id" o) has_text
            && is_some_and (str_at "tool_name" o) has_text && tool_metadata_ok m
          else true
      | None => true
      end
  end.

Definition validate_compaction_wire_fields (p : RunEventPayload) : bool :=
  match other_payload p with
  | Some (tag, o) =>
      if String.eqb tag "memory_compact_started" then
        forallb (safe_counter o)
          ["configured_threshold"; "effective_threshold"; "microcompact_threshold";
           "microcompact_target"; "candidate_count"; "estimated_reclaimable_tokens";
           "model_context_window"; "reserved_output_tokens"; "autocompact_buffer_tokens";
           "model_max_output_tokens"]
      else if String.eqb tag "memory_compact_completed" then
        forallb (safe_counter o) ["archived_count"; "reclaimed_tokens"; "artifact_failure_count"]
      else true
  | None => true
  end.

Definition event_operation (o : object) : bool :=
  is_some_and (str_at "checkpoint_key" o) has_text && is_some_and (str_at "operation_id" o) has_text.

Section Reader.
Context `{Digest}.

(** [validate_checkpoint_wire_fields] on the variants kept in wire form. *)
Definition checkpoint_other (tag : string) (o : object) (cycle_index : option N) : bool :=
  if String.eqb tag "checkpoint_created" then
    is_some cycle_index && is_some_and (str_at "checkpoint_key" o) has_text
    && is_some_and (num_at "resume_attempt" o) (fun n => negb (n =? 0)%N)
  else if String.eqb tag "operation_replayed" then
    is_some cycle_index && event_operation o
    && is_some_and (str_at "receipt_state" o) (fun s => String.eqb s "succeeded" || String.eqb s "failed")
  else if String.eqb tag "operation_ambiguous" then
    is_some cycle_index && event_operation o && is_some_and (str_at "risk" o) has_text
    && Bool.eqb (opt_is (str_at "operation_kind" o) "tool")
         (is_some (str_at "idempotency_support" o))
  else if String.eqb tag "reconciliation_required" then
    is_some_and cycle_index (fun cycle =>
      event_operation o && is_some_and (str_at "interruption_reason" o) has_text
      && is_some_and (map_get "resume_observation" o ≫= observation_from_value) (fun x =>
           is_ok (observation_validate x)
           && opt_is (str_at "operation_id" o) (obs_operation_id x)
           && opt_is (str_at "operation_kind" o) (kind_str (obs_operation_kind x))
           && (obs_cycle_index x =? cycle)%N))
  else if String.eqb tag "model_retry_duplicate_risk" then
    is_some cycle_index && event_operation o && is_some_and (str_at "risk" o) has_text
    && opt_is (str_at "operation_kind" o) "model"
  else true.
Definition validate_checkpoint_wire_fields (p : RunEventPayload) (cycle_index : option N) : bool :=
  match p with
  | HostInteractionRequested key attempt interaction logical operation call digest prompt =>
      is_some_and cycle_index (fun cycle =>
        has_text key && has_text interaction && has_text operation && has_text call
        && negb (attempt =? 0)%N && negb (logical =? 0)%N && (logical <=? JSON_SAFE_INTEGER_MAX)%N
        && (logical =? saturating_add cycle 1)%N
        && has_text prompt && (str_len prompt <=? 65536)%N
        && is_ok (validate_sha256 digest)
        && match request_new interaction logical operation call prompt with
           | Ok expected => String.eqb (hi_request_digest expected) digest
           | Err _ => false
           end)
  | HostInteractionResponseConsumed key attempt interaction logical operation call digest command
      response revision =>
      is_some_and cycle_index (fun cycle =>
        has_text key && has_text interaction && has_text operation && has_text call
        && has_text command && negb (attempt =? 0)%N && (revision <=? JSON_SAFE_INTEGER_MAX)%N
        && negb (logical =? 0)%N
        && ((logical =? saturating_add cycle 1)%N || (logical =? cycle)%N)
        && is_ok (validate_sha256 digest) && is_ok (validate_sha256 response))
  | ToolCallDeferred _ _ operation_id attempt handle _ _ _ =>
      is_ok (handle_validate handle) && String.eqb (h_operation_id handle) operation_id
      && (h_attempt handle =? attempt)%N
  | CheckpointResumed key attempt =>
      is_some cycle_index && has_text key && negb (attempt =? 0)%N
  | ReconciliationResolved key operation_id _ decision mode =>
      is_some cycle_index && has_text key && has_text operation_id
      && (if decision =?? AcceptDeferred then mode =?? Some Recovery else is_none mode)
  | CycleAborted logical reason =>
      is_some_and cycle_index (fun cycle =>
        (logical =? saturating_add cycle 1)%N
        && includes ["cancelled"; "operator_abort"; "lease_lost"] reason)
  | _ =>
      match other_payload p with
      | Some (tag, o) => checkpoint_other tag o cycle_index
      | None => true
      end
  end.

Definition diagnostic_ok (p : RunEventPayload) : bool :=
  match other_payload p with
  | Some (tag, o) =>
      if String.eqb tag "diagnostic" then is_some_and (str_at "code" o) has_text else true
  | None => true
  end.
Definition boundaries_ok (p : RunEventPayload) : bool :=
  match p with
  | BudgetExhaustedEv boundary fields =>
      is_some_and (map_get "budget_exhaustion" fields ≫= exhaustion_from_value)
        (fun x => ex_enforcement_boundary x =?? boundary)
  | _ => true
  end.
Definition created_at_ok (n : Number) : bool :=
  f64_is_finite (number_as_f64 n) && negb (f64_lt (number_as_f64 n) f64_zero).

(** ** Supplemental fields *)

Definition END_FIELDS : list string :=
  ["completion_reason"; "completion_tool_name"; "partial_output"; "budget_usage"; "budget_exhaustion"].
Definition supplemental_keys (p : RunEventPayload) : list string :=
  match p with
  | RunStateChanged _ => ["cancel_requested"]
  | ToolCallCompleted _ _ _ _ _ _ _ _ _ => ["tool_metadata"; "checkpoint_key"]
  | ToolCallDeferred _ _ _ _ _ _ _ _ => ["checkpoint_key"]
  | ReconciliationResolved _ _ _ _ _ => ["claim_mode"]
  | RunFailed _ | RunCancelled _ => "status" :: END_FIELDS
  | OtherPayload o =>
      match str_at "type" o with
      | Some tag =>
          if String.eqb tag "tool_call_planned" || String.eqb tag "tool_call_started"
          then ["tool_metadata"]
          else if String.eqb tag "sub_run_started" then ["status"]
          else if String.eqb tag "sub_run_completed" then
            ["child_session_id"; "task_id"; "wait_reason"; "error"; "completion_reason";
             "completion_tool_name"; "partial_output"; "token_usage"; "budget_usage";
             "budget_exhaustion"]
          else if String.eqb tag "handoff_started" then ["status"; "child_session_id"]
          else if String.eqb tag "handoff_completed" then ["status"; "child_session_id"; "child_run_id"]
          else if String.eqb tag "run_completed" then "final_output" :: END_FIELDS
          else []
      | None => []
      end
  | _ => []
  end.
(** Tool metadata that can be read is kept in normal form. *)
Definition supplemental_value (k : string) (v : Value) : Value :=
  if String.eqb k "tool_metadata" then
    match metadata_from_value v with Some x => metadata_to_value x | None => v end
  else v.
Definition supplemental_wire_fields (m : object) (p : RunEventPayload) : object :=
  map_of_list (omap (fun k => (fun v => (k, supplemental_value k v)) <$> map_get k m)
                 (supplemental_keys p)).

(** ** The reader *)

Definition number_of (v : Value) : option Number := match v with Num n => Some n | _ => None end.
(** [RunEventWire] without its version. *)
Definition read_event (m : object) : option RunEvent :=
  event_id ← str_at "event_id" m;
  run_id ← str_at "run_id" m;
  trace_id ← str_at "trace_id" m;
  session_id ← opt_at as_str "session_id" m;
  parent_event_id ← opt_at as_str "parent_event_id" m;
  parent_run_id ← opt_at as_str "parent_run_id" m;
  created_at ← map_get "created_at" m ≫= number_of;
  cycle_index ← opt_at as_u32_value "cycle_index" m;
  agent_name ← opt_at as_str "agent_name" m;
  metadata ← serde_or_default as_object [] (map_get "metadata" m);
  payload ← payload_from_map m;
  Some {| ev_event_id := event_id; ev_run_id := run_id; ev_trace_id := trace_id;
          ev_session_id := session_id; ev_parent_event_id := parent_event_id;
          ev_parent_run_id := parent_run_id; ev_created_at := created_at;
          ev_cycle_index := cycle_index; ev_agent_name := agent_name; ev_metadata := metadata;
          ev_payload := payload; ev_extra_fields := supplemental_wire_fields m payload |}.
Definition event_checks (m : object) (e : RunEvent) : bool :=
  opt_is (str_at "version" m) "v5"
  && has_text (ev_event_id e) && has_text (ev_run_id e) && has_text (ev_trace_id e)
  && validate_completion_wire_fields m && validate_budget_wire_fields m
  && validate_model_call_wire_fields m (ev_payload e) (ev_cycle_index e)
  && validate_stream_wire_fields (ev_payload e) (ev_cycle_index e)
  && validate_tool_lifecycle_wire_fields m (ev_payload e)
  && validate_compaction_wire_fields (ev_payload e)
  && validate_checkpoint_wire_fields (ev_payload e) (ev_cycle_index e)
  && diagnostic_ok (ev_payload e) && boundaries_ok (ev_payload e)
  && created_at_ok (ev_created_at e).
Definition wire_event (v : Value) : option RunEvent :=
  if validate_event_wire_shape v then
    m ← as_object v;
    e ← read_event m;
    if event_checks m e then Some e else None
  else None.
Definition wire_reader : EventReader := {| event_from_value := wire_event |}.
End Reader.

(** ** Lemmas *)

(** *** Fields *)

Lemma str_wire v s : as_str v = Some s -> v = Str s.
Proof. destruct v; cbn; intros [=]; by subst. Qed.
Lemma u64_wire v n : as_u64 v = Some n -> v = json_u64 n.
Proof. destruct v as [| |[]| | |]; cbn; intros [=]; by subst. Qed.
Lemma bool_wire v b : as_bool v = Some b -> v = Bool b.
Proof. destruct v; cbn; intros [=]; by subst. Qed.
Lemma find_wire {T} (f : T -> Value) l v x :
  List.find (fun x => v =?? f x) l = Some x -> v = f x.
Proof. by intros [_ H%bool_decide_eq_true_1]%List.find_some. Qed.

Lemma read_usage v0 v u :
  read_kind FUsage v0 = Some v -> token_usage_from_value v = Some u -> v = token_usage_to_value u.
Proof. cbn. intros (x & Hx & ->)%fmap_Some. rewrite token_usage_wire. by intros [= ->]. Qed.
Lemma handle_read v h : handle_from_value v = Ok h -> handle_validate h = Ok tt.
Proof. unfold handle_from_value. intros Hv. result_inv. by unit_inv. Qed.
Lemma read_handle v0 v h :
  read_kind FHandle v0 = Some v -> handle_of_wire v = Some h -> v = handle_to_value h.
Proof.
  cbn. unfold handle_of_wire. destruct (handle_from_value v0) as [x|] eqn:Hx; [|done].
  intros [= <-]. rewrite handle_roundtrip by by eapply handle_read. by intros [= ->].
Qed.

Lemma usage_read v u :
  usage_from_value v = Some u -> usage_from_value (usage_to_value u) = Some u.
Proof.
  unfold usage_from_value at 1. intros Hv. option_inv. unfold serde_checked in Hv.
  match goal with H : (if is_ok (usage_validate ?x) then _ else _) = _ |- _ =>
    destruct (usage_validate x) as [[]|] eqn:Hu; [|done] end.
  cbn in Hv. simplify_eq. rewrite (usage_wire _ Hu). f_equal. unfold with_unavailable. cbn. f_equal.
  apply sort_unavailable_idem.
Qed.
Lemma exhaustion_read v x :
  exhaustion_from_value v = Some x -> exhaustion_from_value (exhaustion_to_value x) = Some x.
Proof.
  unfold exhaustion_from_value at 1. intros Hv. option_inv. unfold serde_checked in Hv.
  match goal with H : (if is_ok (exhaustion_validate ?x) then _ else _) = _ |- _ =>
    destruct (exhaustion_validate x) as [[]|] eqn:Hu; [|done] end.
  cbn in Hv. simplify_eq. by apply exhaustion_wire.
Qed.

Lemma read_kind_idem k v v' : read_kind k v = Some v' -> read_kind k v' = Some v'.
Proof.
  destruct k; cbn; intros Hv.
  - by apply fmap_Some in Hv as (x & _ & ->).
  - by apply fmap_Some in Hv as (x & _ & ->).
  - apply fmap_Some in Hv as (x & Hx & ->). unfold as_u32_value in *. cbn.
    apply bind_Some in Hx as (n & _ & Hn). unfold u32_try_from in *. destruct (n <=? U32_MAX)%N eqn:E; [|done].
    simplify_eq. by rewrite E.
  - by apply fmap_Some in Hv as (x & _ & ->).
  - done.
  - by apply fmap_Some in Hv as (x & _ & ->).
  - apply bind_Some in Hv as (s & _ & Hs). destruct (includes names s) eqn:E; [|done]. simplify_eq.
    cbn. by rewrite E.
  - apply fmap_Some in Hv as (x & _ & ->). by rewrite token_usage_wire.
  - destruct (handle_from_value v) as [h|] eqn:Hh; [|done]. simplify_eq.
    by rewrite handle_roundtrip by by eapply handle_read.
  - apply fmap_Some in Hv as (x & Hx & ->). by rewrite (usage_read _ _ Hx).
  - apply fmap_Some in Hv as (x & Hx & ->). by rewrite (exhaustion_read _ _ Hx).
  - apply fmap_Some in Hv as (x & _ & ->). by rewrite observation_roundtrip.
Qed.
Lemma read_kind_null k v v' : read_kind k v = Some v' -> v <> Null -> v' <> Null.
Proof.
  destruct k; cbn; intros Hv Hn.
  all: try (apply fmap_Some in Hv as (x & _ & ->); discriminate).
  - congruence.
  - apply bind_Some in Hv as (s & _ & Hs). case_match; [|done]. by simplify_eq.
  - by case_match; simplify_eq.
Qed.
Lemma serde_option_read k o r :
  serde_option (read_kind k) o = Some r -> serde_option (read_kind k) r = Some r.
Proof.
  destruct o as [v|]; cbn; [|by intros [= <-]]. destruct (decide (v = Null)) as [->|Hn].
  - by intros [= <-].
  - intros Hr. assert (Hr' : Some <$> read_kind k v = Some r) by (by destruct v).
    apply fmap_Some in Hr' as (v' & Hv & ->). pose proof (read_kind_null _ _ _ Hv Hn) as Hn'.
    apply read_kind_idem in Hv. cbn. destruct v'; try done; by rewrite Hv.
Qed.

(** What a field leaves in the wire form is read as it was. *)
Lemma read_field_again m m' f w :
  read_field m f = Some w -> map_get f.1.1 m' = w -> read_field m' f = Some w.
Proof.
  destruct f as [[name pres] kind]. cbn. intros Hr ->. destruct pres.
  - apply bind_Some in Hr as (v & _ & (v' & Hv & ->)%fmap_Some). cbn.
    by rewrite (read_kind_idem _ _ _ Hv).
  - apply bind_Some in Hr as (r & Hr & [= <-]). apply serde_option_read in Hr. destruct r as [v|]; [|done].
    change (default Null (Some v)) with v. by rewrite Hr.
  - by apply serde_option_read in Hr.
Qed.

(** *** The wire form of a payload *)

Definition names (s : Schema) : list string := map (fun f => f.1.1) s.
Lemma entries_other s l k : k ∉ names s -> map_get k (map_of_list (entries s l)) = None.
Proof.
  intros Hk. apply map_get_None. rewrite map_of_list_keys. intros Hin. destruct Hk.
  unfold entries in Hin. apply list_elem_of_fmap in Hin as ([k' v] & -> & Hin).
  apply list_elem_of_omap in Hin as ([f w] & Hf & Hw). apply fmap_Some in Hw as (x & _ & [= -> ->]).
  apply list_elem_of_fmap. exists f. split; [done|]. apply list_elem_of_In.
  apply list_elem_of_In, List.in_combine_l in Hf. done.
Qed.
Lemma entries_get s l i f w :
  NoDup (names s) -> s !! i = Some f -> l !! i = Some w ->
  map_get f.1.1 (map_of_list (entries s l)) = w.
Proof.
  revert l i. induction s as [|g s IH]; intros [|x l] i Hnd Hs Hl; try done; try (by destruct i).
  cbn in Hnd. apply NoDup_cons in Hnd as [Hg Hnd].
  assert (He : entries (g :: s) (x :: l) = entries [g] [x] ++ entries s l).
  { unfold entries. cbn. by destruct x. }
  rewrite He, map_get_of_app. destruct i as [|i].
  - injection Hs as ->. injection Hl as ->. rewrite (entries_other s l) by done. cbn.
    destruct w; [|done]. cbn. by rewrite String.eqb_refl.
  - rewrite (IH l i Hnd Hs Hl). destruct w as [v|]; [done|]. cbn [or_else].
    apply entries_other. cbn. intros [Heq|[]%not_elem_of_nil]%elem_of_cons. destruct Hg.
    rewrite <- Heq. apply list_elem_of_fmap. exists f. split; [done|]. by eapply list_elem_of_lookup_2.
Qed.
Lemma wire_form_get tag s l i f w :
  NoDup (names s) -> "type" ∉ names s -> s !! i = Some f -> l !! i = Some w ->
  map_get f.1.1 (map_of_list (("type", Str tag) :: entries s l)) = w.
Proof.
  intros Hnd Ht Hs Hl. change (("type", Str tag) :: entries s l) with ([("type", Str tag)] ++ entries s l).
  rewrite map_get_of_app, (entries_get _ _ _ _ _ Hnd Hs Hl). destruct w; [done|]. cbn.
  destruct (String.eqb_spec f.1.1 "type") as [Heq|]; [|done]. destruct Ht. rewrite <- Heq.
  apply list_elem_of_fmap. exists f. split; [done|]. by eapply list_elem_of_lookup_2.
Qed.
Lemma wire_form_other tag s l k :
  k ∉ names s -> map_get k (map_of_list (("type", Str tag) :: entries s l))
                 = if String.eqb k "type" then Some (Str tag) else None.
Proof.
  intros Hk. change (("type", Str tag) :: entries s l) with ([("type", Str tag)] ++ entries s l).
  by rewrite map_get_of_app, entries_other.
Qed.

(** What the wire form holds for a field of the variant. *)
Inductive Leaves : Presence -> FieldKind -> option Value -> Prop :=
| leaves_value pres kind v0 v : read_kind kind v0 = Some v -> v <> Null \/ pres = Needed ->
    Leaves pres kind (Some v)
| leaves_null kind : Leaves Nullable kind (Some Null)
| leaves_nothing kind : Leaves Skipped kind None.
Lemma read_option k x w :
  serde_option (read_kind k) x = Some w ->
  w = None \/ exists v0 v, read_kind k v0 = Some v /\ v <> Null /\ w = Some v.
Proof.
  destruct x as [v|]; cbn; [|intros [= <-]; by left].
  destruct (decide (v = Null)) as [->|Hn]; [intros [= <-]; by left|].
  intros Hr. assert (Hr' : Some <$> read_kind k v = Some w) by (by destruct v).
  apply fmap_Some in Hr' as (y & Hy & ->). right. exists v, y.
  split_and!; [done|by eapply read_kind_null|done].
Qed.
Lemma read_field_leaves m f w : read_field m f = Some w -> Leaves f.1.2 f.2 w.
Proof.
  destruct f as [[name []] kind]; cbn.
  - intros (v0 & _ & (v & Hv & ->)%fmap_Some)%bind_Some. eapply leaves_value; [done|by right].
  - intros (x & Hx & [= <-])%bind_Some.
    apply read_option in Hx as [->|(? & ? & ? & ? & ->)];
      [apply leaves_null|eapply leaves_value; [done|by left]].
  - intros [->|(? & ? & ? & ? & ->)]%read_option;
      [apply leaves_nothing|eapply leaves_value; [done|by left]].
Qed.

Lemma schemas_ok :
  forallb (fun x => bool_decide (NoDup (names x.2)) && negb (includes (names x.2) "type")) PAYLOADS = true.
Proof. vm_compute. reflexivity. Qed.
Lemma includes_spec l k : includes l k = true <-> k ∈ l.
Proof.
  unfold includes. rewrite List.existsb_exists. setoid_rewrite list_elem_of_In. split.
  - by intros (x & Hx & ->%String.eqb_eq).
  - intros Hk. exists k. by rewrite String.eqb_refl.
Qed.
Lemma alist_get_In {V} k (l : list (string * V)) v : alist_get k l = Some v -> (k, v) ∈ l.
Proof.
  unfold alist_get. intros ([k' v'] & [Hin Heq]%List.find_some & ->)%fmap_Some. cbn in *.
  apply String.eqb_eq in Heq as ->. by apply list_elem_of_In.
Qed.
Lemma schema_names tag s :
  alist_get tag PAYLOADS = Some s -> NoDup (names s) /\ "type" ∉ names s.
Proof.
  intros Hs%alist_get_In%list_elem_of_In. pose proof schemas_ok as Hok.
  rewrite List.forallb_forall in Hok. specialize (Hok _ Hs). cbn in Hok. bool_inv. split; [done|].
  by rewrite <- includes_spec, not_true_iff_false.
Qed.

(** The wire form of a payload is what its fields leave in it. *)
Lemma read_payload_inv tag m o s :
  alist_get tag PAYLOADS = Some s -> read_payload tag m = Some o ->
  Forall (fun f => read_field m f = Some (map_get f.1.1 o)) s /\
  exists l, l = ((fun f => map_get f.1.1 o) <$> s)
            /\ o = map_of_list (("type", Str tag) :: entries s l).
Proof.
  intros Hs. destruct (schema_names _ _ Hs) as [Hnd Ht]. unfold read_payload. rewrite Hs. cbn.
  intros (l & Hl%mapM_Some_1 & [= Ho])%bind_Some. clear Hs. unfold Schema in *.
  assert (Hget : forall i f w, s !! i = Some f -> l !! i = Some w -> map_get f.1.1 o = w).
  { intros i f w Hf Hw. subst o. by eapply wire_form_get. }
  split.
  - apply Forall_lookup. intros i f Hf. destruct (Forall2_lookup_l _ _ _ _ _ Hl Hf) as (w & Hw & Hr).
    by rewrite (Hget i f w Hf Hw).
  - exists l. split; [|done]. apply list_eq. intros i. destruct (s !! i) as [f|] eqn:Hf.
    + destruct (Forall2_lookup_l _ _ _ _ _ Hl Hf) as (w & Hw & _). rewrite Hw.
      rewrite (list_lookup_fmap _ s i), Hf. cbn. by rewrite (Hget i f w).
    + rewrite (list_lookup_fmap _ s i), Hf. cbn. apply lookup_ge_None. rewrite <- (Forall2_length _ _ _ Hl).
      by apply lookup_ge_None.
Qed.

(** What a payload reads is what the wire form holds. *)
Lemma str_held k o s : str_at k o = Some s -> map_get k o = Some (Str s).
Proof. by intros (v & -> & ->%str_wire)%bind_Some. Qed.
Lemma num_held k o n : num_at k o = Some n -> map_get k o = Some (json_u64 n).
Proof. by intros (v & -> & ->%u64_wire)%bind_Some. Qed.
Lemma bool_held k o b : bool_at k o = Some b -> map_get k o = Some (Bool b).
Proof. by intros (v & -> & ->%bool_wire)%bind_Some. Qed.
Lemma find_held {T} (f : T -> Value) l k o x :
  map_get k o ≫= (fun v => List.find (fun x => v =?? f x) l) = Some x -> map_get k o = Some (f x).
Proof. by intros (v & -> & ->%find_wire)%bind_Some. Qed.
Lemma usage_held pres k o u :
  Leaves pres FUsage (map_get k o) -> map_get k o ≫= token_usage_from_value = Some u ->
  map_get k o = Some (token_usage_to_value u).
Proof.
  intros Hl (v & Hv & Hu)%bind_Some. rewrite Hv in Hl. inversion Hl; subst; [|done].
  by rewrite Hv, (read_usage _ _ _ ltac:(eassumption) Hu).
Qed.
Lemma handle_held pres k o h :
  Leaves pres FHandle (map_get k o) -> map_get k o ≫= handle_of_wire = Some h ->
  map_get k o = Some (handle_to_value h).
Proof.
  intros Hl (v & Hv & Hh)%bind_Some. rewrite Hv in Hl. inversion Hl; subst; [|done].
  by rewrite Hv, (read_handle _ _ _ ltac:(eassumption) Hh).
Qed.
Lemma opt_held {T} (encode : T -> Value) decode pres kind k o x :
  (forall v x, decode v = Some x -> v = encode x) ->
  Leaves pres kind (map_get k o) -> opt_at decode k o = Some x -> pres <> Needed ->
  map_get k o = match pres with Nullable => Some (default Null (encode <$> x)) | _ => encode <$> x end.
Proof.
  unfold opt_at. generalize (map_get k o). intros w Hd Hl Hx Hp.
  destruct Hl as [pres kind v0 v _ [Hn| ]| |]; try done; try (by injection Hx as <-).
  assert (Hx' : Some <$> decode v = Some x) by (by destruct v).
  apply fmap_Some in Hx' as (y & Hy%Hd & ->). subst v. by destruct pres.
Qed.

Lemma needed_held kind w : Leaves Needed kind w -> exists v, w = Some v.
Proof. inversion 1; subst; by eauto. Qed.

Ltac held :=
  repeat match goal with
  | R : str_at _ _ = Some _ |- _ => apply str_held in R
  | R : num_at _ _ = Some _ |- _ => apply num_held in R
  | R : bool_at _ _ = Some _ |- _ => apply bool_held in R
  | R : map_get _ _ ≫= token_usage_from_value = Some _, L : Leaves _ FUsage (map_get _ _) |- _ =>
      apply (usage_held _ _ _ _ L) in R
  | R : map_get _ _ ≫= handle_of_wire = Some _, L : Leaves _ FHandle (map_get _ _) |- _ =>
      apply (handle_held _ _ _ _ L) in R
  | R : map_get _ _ ≫= _ = Some _ |- _ => apply find_held in R
  | R : opt_at as_str ?k ?o = Some _, L : Leaves _ _ (map_get ?k ?o) |- _ =>
      apply (opt_held Str _ _ _ _ _ _ str_wire L) in R; [|discriminate]
  | R : opt_at as_u64 ?k ?o = Some _, L : Leaves _ _ (map_get ?k ?o) |- _ =>
      apply (opt_held json_u64 _ _ _ _ _ _ u64_wire L) in R; [|discriminate]
  | R : opt_at _ ?k ?o = Some _, L : Leaves _ _ (map_get ?k ?o) |- _ =>
      apply (opt_held _ _ _ _ _ _ _ (find_wire _ _) L) in R; [|discriminate]
  end.
Ltac inv_some H :=
  lazymatch type of H with
  | Some _ = Some _ => injection H as <-
  | (_ <$> _) = Some _ => let x := fresh "x" in let Hx := fresh "Hx" in
      apply fmap_Some in H as (x & Hx & ->); inv_some Hx
  | call_of _ = Some _ => unfold call_of in H; inv_some H
  | str_at _ _ = Some _ => idtac
  | map_get _ _ ≫= _ = Some _ => idtac
  | _ ≫= _ = Some _ => let x := fresh "x" in let Hx := fresh "Hx" in
      apply bind_Some in H as (x & Hx & H); inv_some Hx; inv_some H
  | _ => idtac
  end.
(** A variant with a schema of its own is written as it is held. *)
Ltac typed_variant Hs Hl Hp Ho :=
  vm_compute in Hs; injection Hs as <-; rewrite !Forall_cons in Hl; destruct_and! Hl;
  cbn [fst snd fmap list_fmap] in *; unfold payload_of in Hp;
  cbn [String.eqb Ascii.eqb Bool.eqb] in Hp; inv_some Hp; held;
  repeat match goal with R : map_get _ _ = _ |- _ => rewrite R in Ho; clear R end;
  repeat match goal with R : Leaves _ _ _ |- _ => clear R end; rewrite Ho;
  repeat match goal with x : option _ |- _ => destruct x end; reflexivity.
Lemma typed_object tag s o p :
  alist_get tag PAYLOADS = Some s -> Forall (fun f => Leaves f.1.2 f.2 (map_get f.1.1 o)) s ->
  o = map_of_list (("type", Str tag) :: entries s ((fun f => map_get f.1.1 o) <$> s)) ->
  payload_of tag o = Some p -> payload_to_object p = o.
Proof.
  intros Hs Hl Ho Hp. pose proof Hp as Hp'. unfold payload_of in Hp'.
  repeat lazymatch type of Hp' with
  | (if String.eqb tag ?t then _ else _) = _ =>
      destruct (String.eqb_spec tag t) as [->|]; [clear Hp'|]
  end.
  4,5: vm_compute in Hs; injection Hs as <-; rewrite !Forall_cons in Hl; destruct_and! Hl;
    cbn [fst snd fmap list_fmap] in *; unfold payload_of in Hp;
    cbn [String.eqb Ascii.eqb Bool.eqb] in Hp; inv_some Hp; held;
    repeat match goal with L : Leaves Needed _ (map_get _ _) |- _ =>
      apply needed_held in L as (? & L) end;
    repeat match goal with R : map_get _ _ = _ |- _ => rewrite R in Ho; clear R end;
    rewrite Ho; reflexivity.
  all: first [by injection Hp' as <- | typed_variant Hs Hl Hp Ho].
Qed.
Lemma payload_object tag m o p :
  read_payload tag m = Some o -> payload_of tag o = Some p -> payload_to_object p = o.
Proof.
  intros Hr. destruct (alist_get tag PAYLOADS) as [s|] eqn:Hs;
    [|unfold read_payload in Hr; by rewrite Hs in Hr].
  destruct (read_payload_inv _ _ _ _ Hs Hr) as (Hl & l & -> & Ho). apply (typed_object tag s); [done| |done].
  eapply Forall_impl; [exact Hl|]. intros f. apply read_field_leaves.
Qed.

(** *** Supplemental fields *)

(** The supplemental fields of an event type. *)
Definition supplemental_of (tag : string) : list string :=
  if String.eqb tag "run_state_changed" then ["cancel_requested"]
  else if String.eqb tag "tool_call_completed" then ["tool_metadata"; "checkpoint_key"]
  else if String.eqb tag "tool_call_deferred" then ["checkpoint_key"]
  else if String.eqb tag "reconciliation_resolved" then ["claim_mode"]
  else if String.eqb tag "run_failed" || String.eqb tag "run_cancelled" then "status" :: END_FIELDS
  else supplemental_keys (OtherPayload [("type", Str tag)]).
Lemma supplemental_keys_of tag o p :
  payload_of tag o = Some p -> str_at "type" o = Some tag -> supplemental_keys p = supplemental_of tag.
Proof.
  intros Hp Ht. unfold payload_of in Hp.
  repeat lazymatch type of Hp with
  | (if String.eqb tag ?t then _ else _) = _ =>
      let E := fresh "E" in destruct (String.eqb tag t) eqn:E;
      [apply String.eqb_eq in E; subst tag; inv_some Hp; reflexivity|]
  end.
  injection Hp as <-. unfold supplemental_of, supplemental_keys. rewrite Ht. cbn.
  repeat match goal with E : String.eqb tag _ = false |- _ => rewrite E; clear E end. done.
Qed.
Lemma metadata_read v x :
  metadata_from_value v = Some x -> metadata_from_value (metadata_to_value x) = Some x.
Proof.
  unfold metadata_from_value at 1. intros Hv. inv_some Hv.
  repeat case_match; try done. inv_some Hv.
  match type of Hv with match metadata_normalized ?y with _ => _ end = _ =>
    destruct (metadata_normalized y) as [x'|] eqn:Hn; [|done] end.
  injection Hv as <-. apply metadata_wire. by eapply metadata_spec.
Qed.
Lemma supplemental_value_idem k v : supplemental_value k (supplemental_value k v) = supplemental_value k v.
Proof.
  unfold supplemental_value. destruct (String.eqb k "tool_metadata"); [|done].
  destruct (metadata_from_value v) as [x|] eqn:Hv; [|by rewrite Hv].
  by rewrite (metadata_read _ _ Hv).
Qed.
Lemma supplemental_list_get (g : string -> option Value) l k :
  map_get k (map_of_list (omap (fun k => (fun v => (k, v)) <$> g k) l))
  = if includes l k then g k else None.
Proof.
  induction l as [|j l IH] using rev_ind; [done|].
  rewrite omap_app, map_get_of_app, IH. unfold includes. rewrite existsb_app. cbn.
  destruct (String.eqb_spec k j) as [->|Hne].
  - rewrite orb_true_r. destruct (g j) as [v|]; cbn; [by rewrite String.eqb_refl|by destruct existsb].
  - rewrite !orb_false_r. destruct (g j) as [v|]; cbn; [|done].
    by rewrite (proj2 (String.eqb_neq _ _) Hne).
Qed.
Lemma supplemental_get m p k :
  map_get k (supplemental_wire_fields m p)
  = if includes (supplemental_keys p) k then supplemental_value k <$> map_get k m else None.
Proof.
  pose proof (supplemental_list_get (fun k => supplemental_value k <$> map_get k m) (supplemental_keys p) k)
    as Hg. cbn beta in Hg. rewrite <- Hg. unfold supplemental_wire_fields. do 2 f_equal.
  clear Hg. induction (supplemental_keys p) as [|j l IH]; [done|]. cbn. by destruct (map_get j m); cbn; rewrite IH.
Qed.

(** *** The tables agree *)

(** The fields an event type may have are those of its variant and its
    supplemental ones; a supplemental field of the variant is one that can be
    left out; what an event must have is written back. *)
Definition row_ok (tag : string) (s : Schema) (fields required : list string) : bool :=
  let supplemental := supplemental_of tag in
  forallb (includes fields) (names s)
  && forallb (fun k => negb (includes COMMON_FIELDS k)) (names s ++ supplemental)
  && forallb (fun f => match f with
       | (k, Skipped, _) => true | (k, _, _) => negb (includes supplemental k) end) s
  && forallb (fun k => includes (names s ++ supplemental) k) fields
  && forallb (fun k => String.eqb k "cycle_index" || includes supplemental k
       || existsb (fun f => match f with
            | (_, Skipped, _) => false | (k', _, _) => String.eqb k k' end) s) required
  && forallb (fun k => negb (includes (names s) k))
       ["completion_reason"; "completion_tool_name"; "partial_output"; "tool_metadata"]
  && forallb (fun f => match f with
       | (k, pres, kind) =>
           negb (String.eqb k "budget_usage")
           || match pres, kind with Needed, FBudget => true | _, _ => false end end) s
  && forallb (fun f => match f with
       | (k, pres, kind) =>
           negb (String.eqb k "budget_exhaustion")
           || match pres, kind with Needed, FExhaustion => true | _, _ => false end end) s.
Lemma forallb_elem {A} (f : A -> bool) l : forallb f l = true -> forall x, x ∈ l -> f x = true.
Proof. rewrite List.forallb_forall. intros Hl x Hx%list_elem_of_In. by apply Hl. Qed.
Lemma not_included l k : negb (includes l k) = true -> k ∉ l.
Proof. intros Hk Hin%includes_spec. by rewrite Hin in Hk. Qed.
Lemma tables_ok :
  forallb (fun x => match alist_get x.1 EVENT_SHAPES with
    | Some (fields, required) => row_ok x.1 x.2 fields required
    | None => false end) PAYLOADS = true.
Proof. vm_compute. reflexivity. Qed.

Record Row (tag : string) (s : Schema) (fields required : list string) : Prop := {
  row_known k : k ∈ names s -> k ∈ fields;
  row_common k : k ∈ names s \/ k ∈ supplemental_of tag -> k ∉ COMMON_FIELDS;
  row_skipped f : f ∈ s -> f.1.1 ∈ supplemental_of tag -> f.1.2 = Skipped;
  row_fields k : k ∈ fields -> k ∈ names s \/ k ∈ supplemental_of tag;
  row_required k : k ∈ required ->
    k = "cycle_index" \/ k ∈ supplemental_of tag \/ exists f, f ∈ s /\ f.1.1 = k /\ f.1.2 <> Skipped;
  row_plain k : k ∈ ["completion_reason"; "completion_tool_name"; "partial_output"; "tool_metadata"] ->
    k ∉ names s;
  row_usage f : f ∈ s -> f.1.1 = "budget_usage" -> f = ("budget_usage", Needed, FBudget);
  row_exhaustion f : f ∈ s -> f.1.1 = "budget_exhaustion" ->
    f = ("budget_exhaustion", Needed, FExhaustion)
}.
Lemma row tag s :
  alist_get tag PAYLOADS = Some s ->
  exists fields required, alist_get tag EVENT_SHAPES = Some (fields, required) /\ Row tag s fields required.
Proof.
  intros Hs%alist_get_In. pose proof (forallb_elem _ _ tables_ok _ Hs) as Ht. cbn [fst snd] in Ht.
  destruct (alist_get tag EVENT_SHAPES) as [[fields required]|]; [|done].
  exists fields, required. split; [done|]. unfold row_ok in Ht. rewrite !andb_true_iff in Ht.
  destruct Ht as [[[[[[[Hk Hc] Hskip] Hf] Hreq] Hplain] Hu] He].
  pose proof (forallb_elem _ _ Hk) as Hk'. pose proof (forallb_elem _ _ Hc) as Hc'.
  pose proof (forallb_elem _ _ Hskip) as Hskip'. pose proof (forallb_elem _ _ Hf) as Hf'.
  pose proof (forallb_elem _ _ Hreq) as Hreq'. pose proof (forallb_elem _ _ Hplain) as Hplain'.
  pose proof (forallb_elem _ _ Hu) as Hu'. pose proof (forallb_elem _ _ He) as He'.
  split.
  - intros k Hin. by apply includes_spec, Hk'.
  - intros k Hin. apply not_included, (Hc' k). by apply elem_of_app.
  - intros [[k []] kind] Hin Hsup; [| |done]; by apply Hskip', not_included in Hin.
  - intros k Hin. by apply Hf', includes_spec, elem_of_app in Hin.
  - intros k Hin. specialize (Hreq' k Hin). apply orb_true_iff in Hreq' as [[H|H]%orb_true_iff|H].
    + left. by apply String.eqb_eq.
    + right; left. by apply includes_spec.
    + right; right. apply List.existsb_exists in H as ([[k' pres] kind] & Hin'%list_elem_of_In & Hp).
      exists (k', pres, kind). by destruct pres; [apply String.eqb_eq in Hp as ->..|].
  - intros k Hin. by apply not_included, (Hplain' k).
  - intros [[k pres] kind] Hin Heq. cbn in Heq. subst k. specialize (Hu' _ Hin). by destruct pres, kind.
  - intros [[k pres] kind] Hin Heq. cbn in Heq. subst k. specialize (He' _ Hin). by destruct pres, kind.
Qed.

(** ** Normal form

    An event that was read is written and read again as it was. *)

Lemma mapM_ext_elem {A B} (f g : A -> option B) l :
  (forall x, x ∈ l -> f x = g x) -> mapM f l = mapM g l.
Proof.
  induction l as [|x l IH]; intros Hfg; [done|]. cbn. rewrite Hfg, IH; [done| |apply list_elem_of_here].
  intros y Hy. apply Hfg. by right.
Qed.

Section Normal.
Context `{Digest}.
Variables (m : object) (e : RunEvent) (tag : string) (s : Schema) (o : object).
Variables (fields required : list string).
Hypothesis Hschema : alist_get tag PAYLOADS = Some s.
Hypothesis Hrow : Row tag s fields required.
Hypothesis Hpayload : read_payload tag m = Some o.
Hypothesis Hvariant : payload_of tag o = Some (ev_payload e).
Hypothesis Hextra : ev_extra_fields e = supplemental_wire_fields m (ev_payload e).

Let M : object := event_to_map e.

Lemma wire_type : map_get "type" o = Some (Str tag).
Proof.
  destruct (read_payload_inv _ _ _ _ Hschema Hpayload) as (_ & l & _ & ->).
  rewrite wire_form_other by (by destruct (schema_names _ _ Hschema)). done.
Qed.
Lemma wire_unknown k : k ∉ names s -> k <> "type" -> map_get k o = None.
Proof.
  intros Hk Ht. destruct (read_payload_inv _ _ _ _ Hschema Hpayload) as (_ & l & _ & ->).
  rewrite wire_form_other by done. by rewrite (proj2 (String.eqb_neq _ _) Ht).
Qed.
Lemma wire_field f : f ∈ s -> read_field m f = Some (map_get f.1.1 o).
Proof.
  destruct (read_payload_inv _ _ _ _ Hschema Hpayload) as (Hl & _). rewrite Forall_forall in Hl. apply Hl.
Qed.
Lemma extra_get k :
  map_get k (ev_extra_fields e)
  = if includes (supplemental_of tag) k then supplemental_value k <$> map_get k m else None.
Proof.
  rewrite Hextra, supplemental_get. rewrite (supplemental_keys_of _ _ _ Hvariant); [done|].
  unfold str_at. by rewrite wire_type.
Qed.
Lemma extra_wf : map_wf (ev_extra_fields e).
Proof. rewrite Hextra. apply map_of_list_wf. Qed.

(** What the written event holds outside the envelope. *)
Lemma written_get k :
  k ∉ COMMON_FIELDS -> map_get k M = or_else (map_get k (ev_extra_fields e)) (map_get k o).
Proof.
  intros Hk. rewrite <- (payload_object _ _ _ _ Hpayload Hvariant). subst M. unfold event_to_map.
  assert (Hne : forall c, c ∈ COMMON_FIELDS -> String.eqb k c = false).
  { intros c Hc. apply String.eqb_neq. by intros ->. }
  rewrite map_get_insert_metadata. repeat first [rewrite map_get_insert_opt|rewrite map_get_insert].
  rewrite !Hne by (rewrite <- includes_spec; reflexivity).
  rewrite map_get_extend. by rewrite map_of_list_id by apply extra_wf.
Qed.
(** What it holds in a field of the envelope. *)
Lemma envelope_free k : k ∈ COMMON_FIELDS -> k <> "type" ->
  map_get k (map_extend (payload_to_object (ev_payload e)) (ev_extra_fields e)) = None.
Proof.
  intros Hk Ht. rewrite map_get_extend, (map_of_list_id _ extra_wf), extra_get.
  rewrite (payload_object _ _ _ _ Hpayload Hvariant), wire_unknown; [|intros Hin|done].
  - destruct (includes _ k) eqn:E; [|done]. apply includes_spec in E.
    by destruct (row_common _ _ _ _ Hrow k (or_intror E)).
  - by destruct (row_common _ _ _ _ Hrow k (or_introl Hin)).
Qed.

Lemma supplemental_written k :
  k ∈ supplemental_of tag -> map_get k M = supplemental_value k <$> map_get k m.
Proof.
  intros Hk. rewrite written_get by (by apply (row_common _ _ _ _ Hrow); right).
  rewrite extra_get, (proj2 (includes_spec _ _) Hk).
  destruct (map_get k m) as [v|] eqn:Hm; [done|]. cbn.
  destruct (decide (k ∈ names s)) as [Hin|Hin].
  - apply list_elem_of_fmap in Hin as ([[k' pres] kind] & -> & Hin). cbn in *.
    pose proof (row_skipped _ _ _ _ Hrow _ Hin Hk) as Hp. cbn in Hp. subst pres.
    pose proof (wire_field _ Hin) as Hf. cbn in Hf. rewrite Hm in Hf. by injection Hf as <-.
  - apply wire_unknown; [done|]. intros ->. destruct (row_common _ _ _ _ Hrow "type" (or_intror Hk)).
    by apply includes_spec.
Qed.
Lemma other_written k :
  k ∉ supplemental_of tag -> k ∉ COMMON_FIELDS -> map_get k M = map_get k o.
Proof.
  intros Hk Hc. rewrite written_get, extra_get by done.
  destruct (includes _ k) eqn:E; [by apply includes_spec in E|done].
Qed.

(** The payload is read again. *)
Lemma field_again f : f ∈ s -> read_field M f = Some (map_get f.1.1 o).
Proof.
  intros Hf. assert (Hin : f.1.1 ∈ names s) by (apply list_elem_of_fmap; by exists f).
  destruct (decide (f.1.1 ∈ supplemental_of tag)) as [Hk|Hk].
  - rewrite <- (wire_field _ Hf). pose proof (supplemental_written _ Hk) as Hw.
    pose proof (row_plain _ _ _ _ Hrow "tool_metadata" ltac:(by apply includes_spec)) as Hp.
    destruct f as [[k pres] kind]. cbn in *. unfold supplemental_value in Hw.
    destruct (String.eqb_spec k "tool_metadata") as [->|]; [done|]. rewrite option_fmap_id in Hw.
    by rewrite Hw.
  - eapply read_field_again; [by apply wire_field|]. apply other_written; [done|].
    by apply (row_common _ _ _ _ Hrow); left.
Qed.
Lemma payload_again : read_payload tag M = Some o.
Proof.
  pose proof Hpayload as Hr. unfold read_payload in Hr |- *. rewrite Hschema in Hr |- *. cbn in Hr |- *.
  apply bind_Some in Hr as (l & Hl & Ho). rewrite <- Ho. apply bind_Some. exists l. split; [|done].
  rewrite <- Hl. apply mapM_ext_elem. intros f Hf. by rewrite field_again, wire_field.
Qed.
Lemma type_written : map_get "type" M = Some (Str tag).
Proof.
  subst M. unfold event_to_map. rewrite map_get_insert_metadata.
  repeat first [rewrite map_get_insert_opt|rewrite map_get_insert].
  cbn [String.eqb Ascii.eqb Bool.eqb]. rewrite map_get_extend, (map_of_list_id _ extra_wf), extra_get.
  rewrite (payload_object _ _ _ _ Hpayload Hvariant), wire_type.
  destruct (includes _ "type") eqn:E; [|done]. apply includes_spec in E.
  destruct (row_common _ _ _ _ Hrow "type" (or_intror E)). by apply includes_spec.
Qed.
Lemma payload_read_again : payload_from_map M = Some (ev_payload e).
Proof.
  unfold payload_from_map, str_at. rewrite type_written. cbn [mbind option_bind as_str].
  rewrite payload_again. apply Hvariant.
Qed.
Lemma extra_again : supplemental_wire_fields M (ev_payload e) = ev_extra_fields e.
Proof.
  rewrite Hextra. apply map_wf_ext; [apply map_of_list_wf..|]. intros k. rewrite !supplemental_get.
  rewrite (supplemental_keys_of _ _ _ Hvariant) by (unfold str_at; by rewrite wire_type).
  destruct (includes _ k) eqn:E; [|done]. apply includes_spec in E. rewrite supplemental_written by done.
  destruct (map_get k m); [|done]. cbn. by rewrite supplemental_value_idem.
Qed.

(** The envelope. *)
Hypothesis Hread : read_event m = Some e.

Definition envelope : list (string * option Value) := [
  ("version", Some (Str "v5")); ("event_id", Some (Str (ev_event_id e)));
  ("run_id", Some (Str (ev_run_id e))); ("trace_id", Some (Str (ev_trace_id e)));
  ("session_id", Str <$> ev_session_id e); ("parent_event_id", Str <$> ev_parent_event_id e);
  ("parent_run_id", Str <$> ev_parent_run_id e); ("created_at", Some (Num (ev_created_at e)));
  ("cycle_index", json_u64 <$> ev_cycle_index e); ("agent_name", Str <$> ev_agent_name e);
  ("metadata", match ev_metadata e with [] => None | l => Some (Object l) end)].
Lemma envelope_get k w : alist_get k envelope = Some w -> map_get k M = w.
Proof.
  intros Hk. subst M. unfold event_to_map. rewrite map_get_insert_metadata.
  repeat first [rewrite map_get_insert_opt|rewrite map_get_insert].
  pose proof (alist_get_In _ _ _ Hk) as Hin. unfold envelope in Hin.
  rewrite envelope_free; cycle 1.
  { repeat (apply elem_of_cons in Hin as [[= -> _]|Hin]; [by apply includes_spec|]).
    by apply not_elem_of_nil in Hin. }
  { repeat (apply elem_of_cons in Hin as [[= -> _]|Hin]; [discriminate|]). by apply not_elem_of_nil in Hin. }
  clear Hk. repeat (apply elem_of_cons in Hin as [[= -> ->]|Hin]; [cbn|]).
  12: by apply not_elem_of_nil in Hin.
  all: first [reflexivity | by case_match].
Qed.
Lemma opt_str_again o' : serde_option as_str (Str <$> o') = Some o'.
Proof. by destruct o'. Qed.
Lemma cycle_again : serde_option as_u32_value (json_u64 <$> ev_cycle_index e) = Some (ev_cycle_index e).
Proof.
  pose proof Hread as Hr. unfold read_event in Hr. inv_some Hr. cbn [ev_cycle_index].
  match goal with R : opt_at as_u32_value _ _ = Some ?x |- _ => destruct x as [n|]; [|done];
    unfold opt_at in R; rename R into Hn end.
  destruct (map_get "cycle_index" m) as [v|]; [|done].
  assert (Hv : as_u32_value v = Some n).
  { destruct v; try discriminate Hn; cbn [serde_option] in Hn; by apply fmap_Some in Hn as (? & ? & [= <-]). }
  unfold as_u32_value in *. cbn. apply bind_Some in Hv as (y & _ & Hy). unfold u32_try_from in *.
  destruct (y <=? U32_MAX)%N eqn:E; [|done]. injection Hy as <-. by rewrite E.
Qed.
Lemma event_again : read_event M = Some e.
Proof.
  unfold read_event, str_at, opt_at.
  rewrite (envelope_get "event_id" (Some (Str (ev_event_id e)))) by reflexivity.
  rewrite (envelope_get "run_id" (Some (Str (ev_run_id e)))) by reflexivity.
  rewrite (envelope_get "trace_id" (Some (Str (ev_trace_id e)))) by reflexivity.
  rewrite (envelope_get "session_id" (Str <$> ev_session_id e)) by reflexivity.
  rewrite (envelope_get "parent_event_id" (Str <$> ev_parent_event_id e)) by reflexivity.
  rewrite (envelope_get "parent_run_id" (Str <$> ev_parent_run_id e)) by reflexivity.
  rewrite (envelope_get "created_at" (Some (Num (ev_created_at e)))) by reflexivity.
  rewrite (envelope_get "cycle_index" (json_u64 <$> ev_cycle_index e)) by reflexivity.
  rewrite (envelope_get "agent_name" (Str <$> ev_agent_name e)) by reflexivity.
  rewrite (envelope_get "metadata" (match ev_metadata e with [] => None | l => Some (Object l) end))
    by reflexivity.
  cbn [mbind option_bind as_str]. rewrite !opt_str_again, cycle_again.
  assert (Hmd : serde_or_default as_object []
    (match ev_metadata e with [] => None | l => Some (Object l) end) = Some (ev_metadata e))
    by (by destruct (ev_metadata e)).
  cbn [mbind option_bind number_of]. rewrite Hmd. cbn [mbind option_bind].
  rewrite payload_read_again. cbn [mbind option_bind]. rewrite extra_again. by destruct e.
Qed.

(** The checks. *)
Hypothesis Hchecks : event_checks m e = true.

Lemma plain_written k :
  k ∈ ["completion_reason"; "completion_tool_name"; "partial_output"; "tool_metadata"] ->
  map_get k M = supplemental_value k <$> map_get k m \/ map_get k M = None.
Proof.
  intros Hk. pose proof (row_plain _ _ _ _ Hrow k Hk) as Hn.
  destruct (decide (k ∈ supplemental_of tag)) as [Hs|Hs]; [left; by apply supplemental_written|right].
  assert (Hc : (k ∉ COMMON_FIELDS) /\ k <> "type").
  { repeat (apply elem_of_cons in Hk as [->|Hk];
      [split; [by apply (bool_decide_eq_true_1 (_ ∉ _))|discriminate]|]). by apply not_elem_of_nil in Hk. }
  rewrite other_written by (done || by destruct Hc). by apply wire_unknown; [|destruct Hc].
Qed.
Lemma completion_again : validate_completion_wire_fields M = true.
Proof.
  pose proof Hchecks as Hc. unfold event_checks in Hc. bool_inv.
  match goal with R : validate_completion_wire_fields m = true |- _ =>
    unfold validate_completion_wire_fields in R |- *; rename R into Hv end.
  apply andb_true_iff in Hv as [[Hr Hn]%andb_true_iff Hp].
  apply andb_true_iff; split; [apply andb_true_iff; split|].
  - destruct (plain_written "completion_reason") as [->| ->]; [by apply includes_spec| |done].
    cbn. by rewrite option_fmap_id.
  - destruct (plain_written "completion_tool_name") as [->| ->]; [by apply includes_spec| |done].
    cbn. by rewrite option_fmap_id.
  - destruct (plain_written "partial_output") as [->| ->]; [by apply includes_spec| |done].
    cbn. by rewrite option_fmap_id.
Qed.
Lemma tool_metadata_again : tool_metadata_ok m = true -> tool_metadata_ok M = true.
Proof.
  unfold tool_metadata_ok. intros Hm.
  destruct (plain_written "tool_metadata") as [->| ->]; [by apply includes_spec| |done].
  destruct (map_get "tool_metadata" m) as [v|]; [|done]. cbn in *. unfold supplemental_value. cbn.
  destruct (metadata_from_value v) as [x|] eqn:E; [|done]. by rewrite (metadata_read _ _ E).
Qed.

(** A budget field is kept, or rewritten in normal form, or absent. *)
Lemma budget_written {T} k pres kind (encode : T -> Value) decode :
  k ∉ COMMON_FIELDS -> k <> "type" -> k <> "tool_metadata" ->
  (forall f, f ∈ s -> f.1.1 = k -> f = (k, pres, kind)) ->
  (forall v, read_kind kind v = encode <$> decode v) ->
  (forall v x, decode v = Some x -> decode (encode x) = Some x) ->
  (forall x, exists m, encode x = Object m) -> pres = Needed ->
  null_or_object decode (map_get k m) = true -> null_or_object decode (map_get k M) = true.
Proof.
  intros Hc Ht Htm Hf Hkind Hre Hobj -> Hm.
  destruct (decide (k ∈ supplemental_of tag)) as [Hs|Hs].
  { rewrite supplemental_written by done. unfold supplemental_value.
    rewrite (proj2 (String.eqb_neq _ _) Htm). by rewrite option_fmap_id. }
  rewrite other_written by done. destruct (decide (k ∈ names s)) as [Hn|Hn]; [|by rewrite wire_unknown].
  apply list_elem_of_fmap in Hn as (f & Heq & Hin). symmetry in Heq.
  pose proof (Hf f Hin Heq) as ->. pose proof (wire_field _ Hin) as Hw. cbn in Hw.
  apply bind_Some in Hw as (v & _ & Hv). rewrite Hkind in Hv.
  destruct (decode v) as [x|] eqn:Hx; [|done]. cbn in Hv. injection Hv as <-. cbn.
  destruct (Hobj x) as (mo & Ho). pose proof (Hre _ _ Hx) as Hr. rewrite Ho in *. by rewrite Hr.
Qed.
Lemma budget_again : validate_budget_wire_fields M = true.
Proof.
  pose proof Hchecks as Hc. unfold event_checks in Hc. bool_inv.
  match goal with R : validate_budget_wire_fields m = true |- _ =>
    unfold validate_budget_wire_fields in R |- *; apply andb_true_iff in R as [Hu He] end.
  apply andb_true_iff; split.
  - apply (budget_written "budget_usage" Needed FBudget usage_to_value usage_from_value);
      [by apply (bool_decide_eq_true_1 (_ ∉ _))|discriminate|discriminate|apply (row_usage _ _ _ _ Hrow)
      |done|apply usage_read| |done|done].
    intros x. by eexists.
  - apply (budget_written "budget_exhaustion" Needed FExhaustion exhaustion_to_value exhaustion_from_value);
      [by apply (bool_decide_eq_true_1 (_ ∉ _))|discriminate|discriminate|apply (row_exhaustion _ _ _ _ Hrow)
      |done|apply exhaustion_read| |done|done].
    intros x. by eexists.
Qed.
Lemma model_call_again p c :
  ev_payload e = p -> validate_model_call_wire_fields m p c = true ->
  validate_model_call_wire_fields M p c = true.
Proof.
  intros Hp Hv. destruct p; try done. cbn in Hv |- *. apply andb_true_iff in Hv as [Hv Hu].
  apply andb_true_iff. split; [done|].
  rewrite written_get by (by apply (bool_decide_eq_true_1 (_ ∉ _))). rewrite extra_get.
  rewrite <- (payload_object _ _ _ _ Hpayload Hvariant), Hp.
  destruct (map_get "usage" m); [done|]. by destruct (includes _ "usage").
Qed.
Lemma tool_lifecycle_again p :
  validate_tool_lifecycle_wire_fields m p = true -> validate_tool_lifecycle_wire_fields M p = true.
Proof.
  intros Hv. destruct p; try done; cbn [validate_tool_lifecycle_wire_fields] in Hv |- *.
  - apply andb_true_iff in Hv as [Hv Ht]. apply andb_true_iff. split; [done|by apply tool_metadata_again].
  - destruct (other_payload _) as [[t fs]|]; [|done]. destruct (_ || _); [|done].
    apply andb_true_iff in Hv as [Hv Ht]. apply andb_true_iff. split; [done|by apply tool_metadata_again].
Qed.
Lemma checks_again : event_checks M e = true.
Proof.
  pose proof Hchecks as Hc. unfold event_checks in Hc |- *. rewrite !andb_true_iff in Hc |- *.
  destruct_and! Hc. split_and!; try done.
  - unfold str_at. rewrite (envelope_get "version" (Some (Str "v5"))) by reflexivity. reflexivity.
  - apply completion_again.
  - apply budget_again.
  - by apply model_call_again.
  - by apply tool_lifecycle_again.
Qed.

(** The shape. *)
Hypothesis Htag : str_at "type" m = Some tag.
Hypothesis Hfields : alist_get tag EVENT_SHAPES = Some (fields, required).
Hypothesis Hshape : validate_event_wire_shape (Object m) = true.

Lemma shape_inv :
  (tag = "run_state_changed" -> cancel_transition m = true) /\
  (forall k, is_Some (map_get k m) -> k ∈ COMMON_FIELDS \/ k ∈ fields) /\
  (forall k, k ∈ required -> is_Some (map_get k m)).
Proof.
  pose proof Hshape as Hv. pose proof Htag as Ht. unfold str_at in Ht.
  cbn [validate_event_wire_shape] in Hv. rewrite Ht, Hfields in Hv.
  rewrite !andb_true_iff in Hv. destruct Hv as [[Hc Hk] Hr]. split_and!.
  - intros ->. by apply orb_true_iff in Hc as [?|?].
  - intros k [v Hm%map_get_elem]. eapply forallb_elem in Hk; [|apply list_elem_of_fmap; by eexists (k, v)].
    cbn beta in Hk. apply orb_true_iff in Hk as [Hk|Hk]; apply includes_spec in Hk; [by left|by right].
  - intros k Hin. eapply forallb_elem in Hr; [|apply elem_of_app; by right].
    unfold map_contains_key in Hr. by destruct (map_get k m).
Qed.
Lemma metadata_of : serde_or_default as_object [] (map_get "metadata" m) = Some (ev_metadata e).
Proof. pose proof Hread as Hr. unfold read_event in Hr. inv_some Hr. done. Qed.
Lemma cancel_again : tag = "run_state_changed" -> cancel_transition M = true.
Proof.
  intros Ht. destruct shape_inv as [Hc _]. specialize (Hc Ht). unfold cancel_transition in Hc |- *.
  apply andb_true_iff in Hc as [Hmd Hcr]. apply andb_true_iff. split.
  - rewrite (envelope_get "metadata" (match ev_metadata e with [] => None | l => Some (Object l) end))
      by reflexivity.
    pose proof metadata_of as Hx. destruct (ev_metadata e) as [|x l]; [done|].
    destruct (map_get "metadata" m) as [v|]; cbn in Hx |- *; [|done].
    destruct v; try discriminate Hx. injection Hx as ->. apply Hmd.
  - rewrite supplemental_written by (rewrite Ht; by apply includes_spec). cbn.
    by rewrite option_fmap_id.
Qed.
Lemma written_known k : is_Some (map_get k M) -> k ∈ COMMON_FIELDS \/ k ∈ fields.
Proof.
  intros Hk. destruct (decide (k ∈ COMMON_FIELDS)) as [|Hc]; [by left|].
  destruct (decide (k ∈ supplemental_of tag)) as [Hs|Hs].
  - rewrite supplemental_written in Hk by done. apply (proj1 (proj2 shape_inv)).
    by destruct (map_get k m).
  - right. rewrite other_written in Hk by done. apply (row_known _ _ _ _ Hrow).
    destruct (decide (k ∈ names s)) as [|Hn]; [done|]. rewrite wire_unknown in Hk; [by destruct Hk|done|].
    intros ->. destruct Hc. by apply includes_spec.
Qed.
Lemma required_written k :
  is_Some (ev_cycle_index e) \/ "cycle_index" ∉ required -> k ∈ required -> is_Some (map_get k M).
Proof.
  intros Hcycle Hk. destruct (row_required _ _ _ _ Hrow k Hk) as [->|[Hs|(f & Hf & <- & Hp)]].
  - destruct Hcycle as [[n Hn]|]; [|done].
    rewrite (envelope_get "cycle_index" (json_u64 <$> ev_cycle_index e)) by reflexivity. by rewrite Hn.
  - rewrite supplemental_written by done. destruct (proj2 (proj2 shape_inv) k Hk) as [v ->]. by eexists.
  - assert (Hn : f.1.1 ∈ names s) by (apply list_elem_of_fmap; by exists f).
    rewrite other_written; [|intros Hs; by apply Hp, (row_skipped _ _ _ _ Hrow)
                            |by apply (row_common _ _ _ _ Hrow); left].
    pose proof (read_field_leaves _ _ _ (wire_field _ Hf)) as Hl.
    destruct Hl; [by eexists..|done].
Qed.
Lemma shape_again :
  is_Some (ev_cycle_index e) \/ "cycle_index" ∉ required -> validate_event_wire_shape (Object M) = true.
Proof.
  intros Hcycle. cbn [validate_event_wire_shape]. rewrite type_written. cbn [mbind option_bind as_str]. rewrite Hfields.
  rewrite !andb_true_iff. split_and!.
  - destruct (String.eqb_spec tag "run_state_changed") as [Ht|]; [|done]. by rewrite cancel_again.
  - apply List.forallb_forall. intros k Hk%list_elem_of_In.
    rewrite orb_true_iff, !includes_spec. apply written_known.
    apply map_contains_key_spec in Hk. unfold map_contains_key in Hk. by destruct (map_get k M).
  - apply List.forallb_forall. intros k [Hk|Hk]%list_elem_of_In%elem_of_app.
    + unfold map_contains_key.
      repeat (apply elem_of_cons in Hk as [->|Hk]; [|]).
      all: try (by apply not_elem_of_nil in Hk).
      2: by rewrite type_written.
      all: by erewrite envelope_get by reflexivity.
    + unfold map_contains_key. by destruct (required_written k Hcycle Hk) as [v ->].
Qed.
End Normal.

(** The event types that need a cycle. *)
Definition CYCLE_TAGS : list string :=
  ["model_call_started"; "model_call_completed"; "model_call_failed"; "host_interaction_requested";
   "host_interaction_response_consumed"; "assistant_delta"; "reasoning_delta";
   "model_tool_call_started"; "model_tool_call_progress"; "checkpoint_created"; "checkpoint_resumed";
   "operation_replayed"; "operation_ambiguous"; "reconciliation_required";
   "model_retry_duplicate_risk"; "reconciliation_resolved"; "cycle_aborted"].
Lemma cycle_tags_ok :
  forallb (fun x => negb (includes x.2.2 "cycle_index") || includes CYCLE_TAGS x.1) EVENT_SHAPES = true.
Proof. vm_compute. reflexivity. Qed.
Lemma cycle_tag tag fields required :
  alist_get tag EVENT_SHAPES = Some (fields, required) -> "cycle_index" ∈ required -> tag ∈ CYCLE_TAGS.
Proof.
  intros Hs%alist_get_In Hc%includes_spec. pose proof (forallb_elem _ _ cycle_tags_ok _ Hs) as Ht.
  cbn [fst snd] in Ht. rewrite Hc in Ht. by apply includes_spec.
Qed.
Lemma cycle_checked `{Digest} m tag o p c :
  tag ∈ CYCLE_TAGS -> str_at "type" o = Some tag -> payload_of tag o = Some p ->
  validate_model_call_wire_fields m p c = true -> validate_stream_wire_fields p c = true ->
  validate_checkpoint_wire_fields p c = true -> is_Some c.
Proof.
  intros Hin Ht Hp Hmodel Hstream Hcheck. destruct c as [n|]; [by eexists|]. exfalso.
  unfold CYCLE_TAGS in Hin.
  repeat (apply elem_of_cons in Hin as [->|Hin];
    [unfold payload_of in Hp; cbn [String.eqb Ascii.eqb Bool.eqb] in Hp; inv_some Hp|]).
  all: unfold validate_model_call_wire_fields, validate_stream_wire_fields,
         validate_checkpoint_wire_fields, other_payload in Hmodel, Hstream, Hcheck.
  all: rewrite ?Ht in Hstream; rewrite ?Ht in Hcheck; cbn in Hmodel, Hstream, Hcheck.
  all: rewrite ?andb_false_r in Hmodel; cbn in Hmodel.
  all: try done.
  all: try (by apply not_elem_of_nil in Hin).
Qed.

Lemma wire_event_inv `{Digest} v e :
  wire_event v = Some e ->
  exists m tag s o fields required,
    v = Object m /\ validate_event_wire_shape v = true /\ read_event m = Some e /\
    event_checks m e = true /\ str_at "type" m = Some tag /\
    alist_get tag PAYLOADS = Some s /\ read_payload tag m = Some o /\
    payload_of tag o = Some (ev_payload e) /\
    ev_extra_fields e = supplemental_wire_fields m (ev_payload e) /\
    alist_get tag EVENT_SHAPES = Some (fields, required) /\ Row tag s fields required.
Proof.
  unfold wire_event. destruct (validate_event_wire_shape v) eqn:Hv; [|done].
  intros (m & Hm & (e' & He & Hc)%bind_Some)%bind_Some.
  destruct (event_checks m e') eqn:Hchecks; [|done]. injection Hc as ->.
  destruct v; try discriminate Hm. injection Hm as ->.
  pose proof He as Hr. unfold read_event in Hr. inv_some Hr.
  match goal with R : payload_from_map m = Some _ |- _ =>
    unfold payload_from_map in R; apply bind_Some in R as (tag & Htag & (o & Ho & Hp)%bind_Some) end.
  destruct (alist_get tag PAYLOADS) as [s|] eqn:Hs;
    [|unfold read_payload in Ho; by rewrite Hs in Ho].
  destruct (row _ _ Hs) as (fields & required & Hf & Hrow).
  exists m, tag, s, o, fields, required. by split_and!.
Qed.

(** (C22) An event the strict reader accepts is written in normal form: the
    reader accepts what [RunEvent] serializes to and gives the same event
    back, field by field, also where the wire form it was read from was not
    the normal one. *)
Theorem event_normal_form `{Digest} v e :
  wire_event v = Some e -> wire_event (event_to_value e) = Some e.
Proof.
  intros (m & tag & s & o & fields & required & -> & Hshape & Hread & Hchecks & Htag & Hs & Ho & Hp & Hx
          & Hf & Hrow)%wire_event_inv.
  assert (Hcycle : is_Some (ev_cycle_index e) \/ "cycle_index" ∉ required).
  { destruct (decide ("cycle_index" ∈ required)) as [Hc|]; [left|by right].
    pose proof Hchecks as Hc'. unfold event_checks in Hc'. bool_inv.
    eapply cycle_checked; [by eapply cycle_tag| |exact Hp|done..].
    unfold str_at. by erewrite wire_type. }
  unfold wire_event, event_to_value. erewrite shape_again by done. cbn [as_object mbind option_bind].
  erewrite event_again by done. cbn [mbind option_bind]. by erewrite checks_again.
Qed.

(** ** Examples *)

(** A cancelled run, with supplemental fields and an empty envelope. *)
Definition sample_cancelled : Value :=
  json_object [
    ("version", Str "v5"); ("type", Str "run_cancelled"); ("event_id", Str "evt-1");
    ("run_id", Str "run-1"); ("trace_id", Str "trace-1"); ("created_at", json_u64 7);
    ("session_id", Null); ("metadata", Object []); ("reason", Str "stop");
    ("completion_reason", Null); ("partial_output", Str "half")].
(** A tool event whose metadata and status are not in normal form. *)
Definition sample_completed : Value :=
  json_object [
    ("version", Str "v5"); ("type", Str "tool_call_completed"); ("event_id", Str "evt-2");
    ("run_id", Str "run-1"); ("trace_id", Str "trace-1"); ("created_at", json_u64 7);
    ("cycle_index", json_u64 1); ("tool_call_id", Str "call-1"); ("tool_name", Str "bash");
    ("status", Object [("success", Null)]); ("directive", Str "continue"); ("error_code", Null);
    ("execution_started", Bool true); ("duration_ms", json_u64 12); ("attempt", Null);
    ("tool_metadata", json_object [("capability_tags", Array [Str "b"; Str "a"; Str "b"])])].
Example completed_read :
  match @wire_event toy_digest sample_completed with
  | Some e => ev_payload e = ToolCallCompleted "call-1" "bash" TSuccess DContinue None true (Some 12%N) None None
              /\ event_to_value e <> sample_completed
  | None => False
  end.
Proof. vm_compute. split; [reflexivity|discriminate]. Qed.
(** A duration without a start, a state change that undoes a cancellation, an
    unknown field: refused. *)
Example events_refused :
  map (@wire_event toy_digest) [
    json_object (map_insert "execution_started" (Bool false)
                   match sample_completed with Object l => l | _ => [] end);
    json_object [
      ("version", Str "v5"); ("type", Str "run_state_changed"); ("event_id", Str "evt-3");
      ("run_id", Str "run-1"); ("trace_id", Str "trace-1"); ("created_at", json_u64 7);
      ("state", Str "running");
      ("cancel_requested", json_object [("from", Bool true); ("to", Bool false)])];
    json_object (map_insert "retry" (Bool false)
                   match sample_cancelled with Object l => l | _ => [] end)]
  = [None; None; None].
Proof. vm_compute. reflexivity. Qed.

Definition event_of (v : Value) : RunEvent :=
  match @wire_event toy_digest v with
  | Some e => e
  | None => event_new EmptyString EmptyString EmptyString EmptyString None (PosInt 0) (RunFailed EmptyString)
  end.
Lemma event_normal_form_witness :
  @wire_event toy_digest (event_to_value (event_of sample_completed)) = Some (event_of sample_completed) /\
  @wire_event toy_digest (event_to_value (event_of sample_cancelled)) = Some (event_of sample_cancelled).
Proof.
  split.
  - apply (@event_normal_form toy_digest sample_completed). vm_compute. reflexivity.
  - apply (@event_normal_form toy_digest sample_cancelled). vm_compute. reflexivity.
Defined.
