(* ===== verification/Controller.v ===== *)
(** * Controller and host-interaction values

    [checkpoint/controller.rs], [checkpoint/controller_host.rs],
    [checkpoint/controller_command.rs], [checkpoint/controller_command_wake.rs]
    and [checkpoint/controller_recovery.rs]: the closed wire values a
    controller exchanges with the checkpoint store, each with its checks and
    its hand-written codec: host responses and the durable record of an
    interaction, controller commands with their receipts, resolutions and wake
    records, recovery envelopes and results, and the notification rows. *)

From Stdlib Require Import Ascii String NArith Lia.
From stdpp Require Import base strings list sets.
From S2P Require Import Prelude Json Canonical CheckpointTypes ToolResult Journal TokenUsage.
From S2P Require Import HostInteraction.

(** ** Schemas and wire helpers of [checkpoint/controller.rs] *)

Definition HOST_INTERACTION_RESPONSE_SCHEMA : string := "vv-agent.host-interaction-response.v1".
Definition HOST_INTERACTION_OUTCOME_SCHEMA : string := "vv-agent.host-interaction-outcome.v1".
Definition HOST_INTERACTION_RECORD_SCHEMA : string := "vv-agent.host-interaction-record.v1".
Definition HOST_INTERACTION_RECOVERY_SCHEMA : string := "vv-agent.host-interaction-recovery.v1".
Definition HOST_INTERACTION_RECOVERY_RESULT_SCHEMA : string :=
  "vv-agent.host-interaction-recovery-result.v1".
Definition HOST_INTERACTION_NOTIFICATION_SCHEMA : string :=
  "vv-agent.host-interaction-notification.v1".
Definition CONTROLLER_COMMAND_SCHEMA : string := "vv-agent.controller-command.v1".
Definition CONTROLLER_COMMAND_RECEIPT_SCHEMA : string := "vv-agent.controller-command-receipt.v1".
Definition CONTROLLER_COMMAND_RESOLUTION_SCHEMA : string :=
  "vv-agent.controller-command-resolution.v1".

(** Error codes. *)
Definition cc_state : string := "controller_command_invalid_state".
Definition cc_digest : string := "controller_command_digest_invalid".
Definition cc_outbox : string := "controller_command_outbox_invalid".
Definition recovery_stale : string := "host_interaction_recovery_stale".
Definition notification_conflict : string := "notification_conflict".
Definition claim_required : string := "host_interaction_claim_required".
Definition response_missing : string := "host_interaction_response_missing".

Definition require_fields_with_optional (m : object) (required optional : list string)
    (code : string) : result unit :=
  fail_if (existsb (fun field => negb (map_contains_key field m)) required
           || existsb (fun field => negb (existsb (String.eqb field) required)
                                    && negb (existsb (String.eqb field) optional)) (map_keys m))
  with code ;;
  Ok tt.

Definition optional_bounded_string (m : object) (field : string) (max_bytes : N) (code : string)
    : result (option string) :=
  match map_get field m with
  | None | Some Null => Ok None
  | Some value =>
      let? value := ok_or (as_str value) code in
      fail_if (max_bytes <? str_len value)%N with code ;;
      Ok (Some value)
  end.

Definition optional_integer (m : object) (field : string) (positive : bool) (code : string)
    : result (option N) :=
  match map_get field m with
  | None | Some Null => Ok None
  | Some value =>
      let? value := ok_or (as_u64 value) code in
      fail_if ((MAX_WIRE_INTEGER <? value)%N || (positive && (value =? 0)%N)) with code ;;
      Ok (Some value)
  end.

(** [value.trim().is_empty() || value.len() > max_bytes]. *)
Definition blank_or_long (max_bytes : N) (s : string) : bool :=
  trim_is_empty s || (max_bytes <? str_len s)%N.
Definition check_names (code : string) (max_bytes : N) (l : list string) : result unit :=
  try_for_each (fun value => fail_if (blank_or_long max_bytes value) with code ;; Ok tt) l.
Definition exceeds (limit : N) (n : N) : bool := (limit <? n)%N.

Section CommandIds.
Context `{Digest}.

(** [u64::to_be_bytes]. *)
Definition u64_to_be_bytes (n : N) : string :=
  string_of_list_ascii
    (map (fun i => ascii_of_N (N.land (N.shiftr n (8 * i)) 255)) [7; 6; 5; 4; 3; 2; 1; 0]%N).

(** [derive_controller_command_id]: domain, a zero byte, the length and the
    canonical payload. *)
Definition command_id_frame (bytes : string) : string :=
  "vv-agent.controller-command-id.v1" +:+ String "000" (u64_to_be_bytes (str_len bytes) +:+ bytes).
Definition derive_controller_command_id (thread_id turn_id action_id : string) : result string :=
  do? check_names cc_state CONTROLLER_COMMAND_MAX_UTF8_BYTES [thread_id; turn_id; action_id] ;;
  let? bytes := canonical_json_bytes (json_object [
    ("action_id", Str action_id); ("schema_version", Str "vv-agent.controller-command-id.v1");
    ("thread_id", Str thread_id); ("turn_id", Str turn_id)]) in
  Ok (sha256_hex (command_id_frame bytes)).

(** [controller_receipt_outbox_id]. *)
Definition controller_receipt_outbox_id (command_id command_digest : string) : result string :=
  canonical_digest (json_object [
    ("command_digest", Str command_digest); ("command_id", Str command_id);
    ("schema_version", Str CONTROLLER_COMMAND_RECEIPT_SCHEMA)]) "controller receipt outbox id".
End CommandIds.

(** ** Host responses ([checkpoint/controller_host.rs]) *)

Record HostInteractionMessage := { hm_role : string; hm_content : string }.
#[global] Instance HostInteractionMessage_eq_dec : EqDecision HostInteractionMessage.
Proof. solve_decision. Defined.

Definition message_validate (m : HostInteractionMessage) : result unit :=
  fail_if (negb (String.eqb (hm_role m) "user")) with response_missing ;;
  fail_if (trim_is_empty (hm_content m)) with response_missing ;;
  fail_if (HOST_INTERACTION_CONTENT_MAX_UTF8_BYTES <? str_len (hm_content m))%N
  with "host_interaction_content_too_large" ;;
  Ok tt.
(** [HostInteractionMessage::user]. *)
Definition message_user_reply (content : string) : result HostInteractionMessage :=
  let message := {| hm_role := "user"; hm_content := content |} in
  do? message_validate message ;;
  Ok message.
Definition message_to_value (m : HostInteractionMessage) : Value :=
  json_object [("role", Str (hm_role m)); ("content", Str (hm_content m))].
Definition message_from_value (v : Value) : result HostInteractionMessage :=
  let? m := ok_or (as_object v) response_missing in
  do? require_exact_fields m ["role"; "content"] hi_invalid ;;
  let? role := required_string m "role" response_missing in
  let? content := required_string m "content" response_missing in
  let message := {| hm_role := role; hm_content := content |} in
  do? message_validate message ;;
  Ok message.

Record HostInteractionResponse := {
  hr_schema_version : string;
  hr_interaction_id : string;
  hr_logical_cycle : N;
  hr_operation_id : string;
  hr_tool_call_id : string;
  hr_request_digest : string;
  hr_command_id : string;
  hr_response : HostInteractionMessage;
  hr_response_digest : string
}.
#[global] Instance HostInteractionResponse_eq_dec : EqDecision HostInteractionResponse.
Proof. solve_decision. Defined.

Definition response_fields : list string :=
  ["schema_version"; "interaction_id"; "logical_cycle"; "operation_id"; "tool_call_id";
   "request_digest"; "command_id"; "response"; "response_digest"].

Definition response_to_value (r : HostInteractionResponse) : Value :=
  json_object [
    ("command_id", Str (hr_command_id r)); ("interaction_id", Str (hr_interaction_id r));
    ("logical_cycle", json_u64 (hr_logical_cycle r)); ("operation_id", Str (hr_operation_id r));
    ("request_digest", Str (hr_request_digest r)); ("response", message_to_value (hr_response r));
    ("schema_version", Str (hr_schema_version r)); ("tool_call_id", Str (hr_tool_call_id r));
    ("response_digest", Str (hr_response_digest r))].

Section Responses.
Context `{Digest}.

Definition response_computed_digest (r : HostInteractionResponse) : result string :=
  canonical_digest (response_to_value r) "response_digest".

Definition response_validate (r : HostInteractionResponse) : result unit :=
  fail_if (negb (String.eqb (hr_schema_version r) HOST_INTERACTION_RESPONSE_SCHEMA))
  with hi_invalid ;;
  do? check_names hi_invalid HOST_INTERACTION_MAX_UTF8_BYTES
        [hr_interaction_id r; hr_operation_id r; hr_tool_call_id r; hr_command_id r] ;;
  fail_if ((hr_logical_cycle r =? 0)%N || exceeds MAX_WIRE_INTEGER (hr_logical_cycle r))
  with hi_invalid ;;
  do? map_err (validate_sha256 (hr_request_digest r)) hi_invalid ;;
  do? map_err (validate_sha256 (hr_response_digest r)) hi_invalid ;;
  do? message_validate (hr_response r) ;;
  let? digest := response_computed_digest r in
  fail_if (negb (String.eqb digest (hr_response_digest r))) with hi_invalid ;;
  Ok tt.

Definition response_new (interaction_id : string) (logical_cycle : N)
    (operation_id tool_call_id request_digest command_id : string)
    (response : HostInteractionMessage) : result HostInteractionResponse :=
  do? message_validate response ;;
  let? response := message_user_reply (hm_content response) in
  let with_digest digest :=
    {| hr_schema_version := HOST_INTERACTION_RESPONSE_SCHEMA; hr_interaction_id := interaction_id;
       hr_logical_cycle := logical_cycle; hr_operation_id := operation_id;
       hr_tool_call_id := tool_call_id; hr_request_digest := request_digest;
       hr_command_id := command_id; hr_response := response; hr_response_digest := digest |} in
  let? digest := response_computed_digest (with_digest EmptyString) in
  let result := with_digest digest in
  do? response_validate result ;;
  Ok result.

Definition response_from_value (v : Value) : result HostInteractionResponse :=
  let? m := ok_or (as_object v) hi_invalid in
  do? require_exact_fields m response_fields hi_invalid ;;
  let? message := message_from_value (unwrap_or (map_get "response" m) Null) in
  let? schema := required_string m "schema_version" hi_invalid in
  let? interaction :=
    required_non_empty_string m "interaction_id" HOST_INTERACTION_MAX_UTF8_BYTES hi_invalid in
  let? cycle := required_integer m "logical_cycle" true in
  let? operation :=
    required_non_empty_string m "operation_id" HOST_INTERACTION_MAX_UTF8_BYTES hi_invalid in
  let? call :=
    required_non_empty_string m "tool_call_id" HOST_INTERACTION_MAX_UTF8_BYTES hi_invalid in
  let? request := required_digest m "request_digest" in
  let? command :=
    required_non_empty_string m "command_id" HOST_INTERACTION_MAX_UTF8_BYTES hi_invalid in
  let? digest := required_digest m "response_digest" in
  let response :=
    {| hr_schema_version := schema; hr_interaction_id := interaction; hr_logical_cycle := cycle;
       hr_operation_id := operation; hr_tool_call_id := call; hr_request_digest := request;
       hr_command_id := command; hr_response := message; hr_response_digest := digest |} in
  do? response_validate response ;;
  Ok response.
End Responses.

(** ** Outcomes of an admission *)

Record HostInteractionOutcome := {
  ho_schema_version : string;
  ho_interaction_id : string;
  ho_logical_cycle : N;
  ho_checkpoint_revision : N;
  ho_status : string;
  ho_outbox_state : string;
  ho_record_id : string;
  ho_notification_id : string;
  ho_notification_payload_digest : string;
  ho_notification_outbox_action : string;
  ho_notification_outbox_destination : string
}.
#[global] Instance HostInteractionOutcome_eq_dec : EqDecision HostInteractionOutcome.
Proof. solve_decision. Defined.

Definition host_outcome_validate (o : HostInteractionOutcome) : result unit :=
  fail_if (negb (String.eqb (ho_schema_version o) HOST_INTERACTION_OUTCOME_SCHEMA))
  with hi_invalid ;;
  fail_if ((ho_logical_cycle o =? 0)%N || exceeds MAX_WIRE_INTEGER (ho_checkpoint_revision o))
  with hi_invalid ;;
  fail_if (negb (String.eqb (ho_status o) "admitted" || String.eqb (ho_status o) "replayed")
           || negb (String.eqb (ho_outbox_state o) "pending")
           || negb (String.eqb (ho_notification_outbox_action o) "host_interaction_notification")
           || negb (String.eqb (ho_notification_outbox_destination o) "host_interaction_observer"))
  with hi_invalid ;;
  fail_if (blank_or_long HOST_INTERACTION_MAX_UTF8_BYTES (ho_interaction_id o)) with hi_invalid ;;
  do? check_names hi_invalid CONTROLLER_COMMAND_MAX_UTF8_BYTES
        [ho_record_id o; ho_notification_id o; ho_notification_outbox_action o;
         ho_notification_outbox_destination o] ;;
  map_err (validate_sha256 (ho_notification_payload_digest o)) hi_invalid.

Definition host_outcome_to_value (o : HostInteractionOutcome) : Value :=
  json_object [
    ("schema_version", Str (ho_schema_version o)); ("interaction_id", Str (ho_interaction_id o));
    ("logical_cycle", json_u64 (ho_logical_cycle o));
    ("checkpoint_revision", json_u64 (ho_checkpoint_revision o)); ("status", Str (ho_status o));
    ("outbox_state", Str (ho_outbox_state o)); ("record_id", Str (ho_record_id o));
    ("notification_id", Str (ho_notification_id o));
    ("notification_payload_digest", Str (ho_notification_payload_digest o));
    ("notification_outbox_action", Str (ho_notification_outbox_action o));
    ("notification_outbox_destination", Str (ho_notification_outbox_destination o))].

Definition host_outcome_fields : list string :=
  ["schema_version"; "interaction_id"; "logical_cycle"; "checkpoint_revision"; "status";
   "outbox_state"; "record_id"; "notification_id"; "notification_payload_digest";
   "notification_outbox_action"; "notification_outbox_destination"].

Definition host_outcome_from_value (v : Value) : result HostInteractionOutcome :=
  let names m f := required_non_empty_string m f CONTROLLER_COMMAND_MAX_UTF8_BYTES hi_invalid in
  let? m := ok_or (as_object v) hi_invalid in
  do? require_exact_fields m host_outcome_fields hi_invalid ;;
  let? schema := required_string m "schema_version" hi_invalid in
  let? interaction :=
    required_non_empty_string m "interaction_id" HOST_INTERACTION_MAX_UTF8_BYTES hi_invalid in
  let? cycle := required_integer m "logical_cycle" true in
  let? revision := required_integer m "checkpoint_revision" false in
  let? status := required_string m "status" hi_invalid in
  let? outbox := required_string m "outbox_state" hi_invalid in
  let? record := names m "record_id" in
  let? notification := names m "notification_id" in
  let? digest := required_digest m "notification_payload_digest" in
  let? action := names m "notification_outbox_action" in
  let? destination := names m "notification_outbox_destination" in
  let outcome :=
    {| ho_schema_version := schema; ho_interaction_id := interaction; ho_logical_cycle := cycle;
       ho_checkpoint_revision := revision; ho_status := status; ho_outbox_state := outbox;
       ho_record_id := record; ho_notification_id := notification;
       ho_notification_payload_digest := digest; ho_notification_outbox_action := action;
       ho_notification_outbox_destination := destination |} in
  do? host_outcome_validate outcome ;;
  Ok outcome.

(** ** Host interaction records ([checkpoint/controller_command.rs]) *)

Section RecordIds.
Context `{Digest}.

(** [record_id_for] and [notification_id_for] of [controller_recovery.rs]; an
    [Err] is the panic of the [expect]. *)
Definition record_id_for (checkpoint_key : string) (r : HostInteractionRequest) : result string :=
  sha256_canonical (json_object [
    ("schema_version", Str HOST_INTERACTION_RECORD_SCHEMA); ("checkpoint_key", Str checkpoint_key);
    ("interaction_id", Str (hi_interaction_id r)); ("logical_cycle", json_u64 (hi_logical_cycle r));
    ("request_digest", Str (hi_request_digest r))]).
Definition notification_id_for (record_id : string) : result string :=
  sha256_canonical (json_object [
    ("schema_version", Str HOST_INTERACTION_NOTIFICATION_SCHEMA); ("record_id", Str record_id);
    ("transition", Str "host_interaction_requested")]).
End RecordIds.

Record HostInteractionRecord := {
  ir_schema_version : string;
  ir_record_id : string;
  ir_checkpoint_key : string;
  ir_interaction_id : string;
  ir_logical_cycle : N;
  ir_attempt : N;
  ir_claim_token : option string;
  ir_lease_expires_at_ms : option N;
  ir_request : HostInteractionRequest;
  ir_request_digest : string;
  ir_state : string;
  ir_response : option HostInteractionResponse;
  ir_response_digest : option string;
  ir_command_id : option string;
  ir_resolved_revision : option N;
  ir_consumed_revision : option N;
  ir_last_error : option string
}.
#[global] Instance HostInteractionRecord_eq_dec : EqDecision HostInteractionRecord.
Proof. solve_decision. Defined.

(** Which optional fields each state carries. *)
Definition record_state_ok (r : HostInteractionRecord) : bool :=
  let resolved := is_some (ir_response r) && is_some (ir_response_digest r)
                  && is_some (ir_command_id r) && is_some (ir_resolved_revision r) in
  let claimed := is_some (ir_claim_token r) && is_some (ir_lease_expires_at_ms r) in
  let unclaimed := is_none (ir_claim_token r) && is_none (ir_lease_expires_at_ms r) in
  if String.eqb (ir_state r) "active" then
    is_none (ir_response r) && is_none (ir_response_digest r) && is_none (ir_command_id r)
    && is_none (ir_resolved_revision r) && is_none (ir_consumed_revision r) && unclaimed
  else if String.eqb (ir_state r) "resolved_pending" then
    resolved && is_none (ir_consumed_revision r) && unclaimed
  else if String.eqb (ir_state r) "resolved_claimed" then
    resolved && is_none (ir_consumed_revision r) && claimed
  else if String.eqb (ir_state r) "consumed" then
    resolved && is_some (ir_consumed_revision r) && unclaimed
  else false.

Section HostRecords.
Context `{Digest}.

Definition record_validate (r : HostInteractionRecord) : result unit :=
  fail_if (negb (String.eqb (ir_schema_version r) HOST_INTERACTION_RECORD_SCHEMA))
  with hi_invalid ;;
  fail_if (blank_or_long CONTROLLER_COMMAND_MAX_UTF8_BYTES (ir_record_id r)
           || blank_or_long CONTROLLER_COMMAND_MAX_UTF8_BYTES (ir_checkpoint_key r))
  with hi_invalid ;;
  fail_if ((ir_logical_cycle r =? 0)%N || exceeds MAX_WIRE_INTEGER (ir_attempt r))
  with hi_invalid ;;
  do? request_validate (ir_request r) ;;
  let? id := record_id_for (ir_checkpoint_key r) (ir_request r) in
  fail_if (negb (String.eqb (ir_record_id r) id)) with hi_invalid ;;
  fail_if (negb (String.eqb (hi_interaction_id (ir_request r)) (ir_interaction_id r))
           || negb (hi_logical_cycle (ir_request r) =? ir_logical_cycle r)%N
           || negb (String.eqb (ir_request_digest r) (hi_request_digest (ir_request r))))
  with hi_invalid ;;
  do? map_err (validate_sha256 (ir_request_digest r)) hi_invalid ;;
  fail_if (negb (record_state_ok r)) with hi_invalid ;;
  do? check_opt (fun response =>
        do? response_validate response ;;
        fail_if (negb (String.eqb (hr_interaction_id response) (ir_interaction_id r))
                 || negb (hr_logical_cycle response =? ir_logical_cycle r)%N
                 || negb (String.eqb (hr_request_digest response) (ir_request_digest r))
                 || negb (opt_is (ir_response_digest r) (hr_response_digest response))
                 || negb (opt_is (ir_command_id r) (hr_command_id response)))
        with hi_invalid ;; Ok tt) (ir_response r) ;;
  fail_if (is_some_and (ir_claim_token r) str_is_empty
           || is_some_and (ir_lease_expires_at_ms r) (exceeds MAX_WIRE_INTEGER))
  with hi_invalid ;;
  fail_if (negb (eqb (is_some (ir_claim_token r)) (is_some (ir_lease_expires_at_ms r))))
  with hi_invalid ;;
  Ok tt.

Definition record_to_map (r : HostInteractionRecord) : object :=
  map_of_list [
    ("schema_version", Str (ir_schema_version r)); ("record_id", Str (ir_record_id r));
    ("checkpoint_key", Str (ir_checkpoint_key r)); ("interaction_id", Str (ir_interaction_id r));
    ("logical_cycle", json_u64 (ir_logical_cycle r)); ("request", request_to_value (ir_request r));
    ("request_digest", Str (ir_request_digest r)); ("state", Str (ir_state r));
    ("attempt", json_u64 (ir_attempt r)); ("claim_token", json_opt_str (ir_claim_token r));
    ("lease_expires_at_ms", json_opt_u64 (ir_lease_expires_at_ms r));
    ("response", opt_to_value response_to_value (ir_response r));
    ("response_digest", json_opt_str (ir_response_digest r));
    ("command_id", json_opt_str (ir_command_id r));
    ("resolved_revision", json_opt_u64 (ir_resolved_revision r));
    ("consumed_revision", json_opt_u64 (ir_consumed_revision r))].
Definition record_to_value (r : HostInteractionRecord) : Value :=
  Object (match ir_last_error r with
          | Some e => map_insert "last_error" (Str e) (record_to_map r)
          | None => record_to_map r
          end).

Definition record_fields : list string :=
  ["schema_version"; "record_id"; "checkpoint_key"; "interaction_id"; "logical_cycle"; "request";
   "request_digest"; "state"; "attempt"; "claim_token"; "lease_expires_at_ms"; "response";
   "response_digest"; "command_id"; "resolved_revision"; "consumed_revision"].

Definition record_from_value (v : Value) : result HostInteractionRecord :=
  let? m := ok_or (as_object v) hi_invalid in
  do? require_fields_with_optional m record_fields ["last_error"] hi_invalid ;;
  let? schema := required_string m "schema_version" hi_invalid in
  let? id := required_non_empty_string m "record_id" CONTROLLER_COMMAND_MAX_UTF8_BYTES hi_invalid in
  let? key :=
    required_non_empty_string m "checkpoint_key" CONTROLLER_COMMAND_MAX_UTF8_BYTES hi_invalid in
  let? interaction :=
    required_non_empty_string m "interaction_id" HOST_INTERACTION_MAX_UTF8_BYTES hi_invalid in
  let? cycle := required_integer m "logical_cycle" true in
  let? attempt := required_integer m "attempt" false in
  let? token := optional_bounded_string m "claim_token" CONTROLLER_COMMAND_MAX_UTF8_BYTES hi_invalid in
  let? lease := optional_integer m "lease_expires_at_ms" false hi_invalid in
  let? request := request_from_value (unwrap_or (map_get "request" m) Null) in
  let? request_digest := required_digest m "request_digest" in
  let? state := required_string m "state" hi_invalid in
  let? response := transpose (response_from_value <$> get_non_null m "response") in
  let? response_digest := optional_bounded_string m "response_digest" 64 hi_invalid in
  let? command := optional_bounded_string m "command_id" CONTROLLER_COMMAND_MAX_UTF8_BYTES hi_invalid in
  let? resolved := optional_integer m "resolved_revision" false hi_invalid in
  let? consumed := optional_integer m "consumed_revision" false hi_invalid in
  let? last_error :=
    optional_bounded_string m "last_error" HOST_INTERACTION_CONTENT_MAX_UTF8_BYTES hi_invalid in
  let record :=
    {| ir_schema_version := schema; ir_record_id := id; ir_checkpoint_key := key;
       ir_interaction_id := interaction; ir_logical_cycle := cycle; ir_attempt := attempt;
       ir_claim_token := token; ir_lease_expires_at_ms := lease; ir_request := request;
       ir_request_digest := request_digest; ir_state := state; ir_response := response;
       ir_response_digest := response_digest; ir_command_id := command;
       ir_resolved_revision := resolved; ir_consumed_revision := consumed;
       ir_last_error := last_error |} in
  do? record_validate record ;;
  Ok record.
End HostRecords.

(** ** Controller commands *)

Inductive ControllerCommandVariant :=
| HostInteractionResponseV (interaction_id : string) (logical_cycle : N)
    (operation_id tool_call_id request_digest : string) (response : HostInteractionMessage)
| Suspend
| Resume
| Cancel
| Abort.
#[global] Instance ControllerCommandVariant_eq_dec : EqDecision ControllerCommandVariant.
Proof. solve_decision. Defined.

Definition variant_to_value (c : ControllerCommandVariant) : Value :=
  match c with
  | HostInteractionResponseV interaction_id logical_cycle operation_id tool_call_id request_digest
      response =>
      json_object [
        ("kind", Str "host_interaction_response"); ("interaction_id", Str interaction_id);
        ("logical_cycle", json_u64 logical_cycle); ("operation_id", Str operation_id);
        ("tool_call_id", Str tool_call_id); ("request_digest", Str request_digest);
        ("response", message_to_value response)]
  | Suspend => json_object [("kind", Str "suspend")]
  | Resume => json_object [("kind", Str "resume")]
  | Cancel => json_object [("kind", Str "cancel")]
  | Abort => json_object [("kind", Str "abort")]
  end.

Definition variant_fields : list string :=
  ["kind"; "interaction_id"; "logical_cycle"; "operation_id"; "tool_call_id"; "request_digest";
   "response"].

Definition variant_from_value (v : Value) : result ControllerCommandVariant :=
  let? m := ok_or (as_object v) cc_state in
  let? kind := required_string m "kind" cc_state in
  let plain c := do? require_exact_fields m ["kind"] cc_state ;; Ok c in
  if String.eqb kind "host_interaction_response" then
    do? require_exact_fields m variant_fields cc_state ;;
    let? response := message_from_value (unwrap_or (map_get "response" m) Null) in
    let? interaction :=
      required_non_empty_string m "interaction_id" HOST_INTERACTION_MAX_UTF8_BYTES cc_state in
    let? cycle := required_integer m "logical_cycle" true in
    let? operation :=
      required_non_empty_string m "operation_id" HOST_INTERACTION_MAX_UTF8_BYTES cc_state in
    let? call :=
      required_non_empty_string m "tool_call_id" HOST_INTERACTION_MAX_UTF8_BYTES cc_state in
    let? digest := required_digest m "request_digest" in
    Ok (HostInteractionResponseV interaction cycle operation call digest response)
  else if String.eqb kind "suspend" then plain Suspend
  else if String.eqb kind "resume" then plain Resume
  else if String.eqb kind "cancel" then plain Cancel
  else if String.eqb kind "abort" then plain Abort
  else Err cc_state.

Record ControllerCommand := {
  cc_schema_version : string;
  cc_command_id : string;
  cc_command_digest : string;
  cc_handle : ControllerHandle;
  cc_resume_attempt : N;
  cc_expected_revision : N;
  cc_command : ControllerCommandVariant
}.
#[global] Instance ControllerCommand_eq_dec : EqDecision ControllerCommand.
Proof. solve_decision. Defined.

Definition command_to_value (c : ControllerCommand) : Value :=
  json_object [
    ("command", variant_to_value (cc_command c));
    ("expected_revision", json_u64 (cc_expected_revision c));
    ("handle", controller_handle_to_value (cc_handle c));
    ("resume_attempt", json_u64 (cc_resume_attempt c));
    ("schema_version", Str (cc_schema_version c)); ("command_id", Str (cc_command_id c));
    ("command_digest", Str (cc_command_digest c))].

Definition variant_validate (c : ControllerCommandVariant) : result unit :=
  match c with
  | HostInteractionResponseV interaction_id logical_cycle operation_id tool_call_id request_digest
      response =>
      do? check_names cc_state HOST_INTERACTION_MAX_UTF8_BYTES
            [interaction_id; operation_id; tool_call_id] ;;
      fail_if ((logical_cycle =? 0)%N || exceeds MAX_WIRE_INTEGER logical_cycle) with cc_state ;;
      do? map_err (validate_sha256 request_digest) cc_state ;;
      message_validate response
  | _ => Ok tt
  end.

Definition command_fields : list string :=
  ["schema_version"; "command_id"; "command_digest"; "handle"; "resume_attempt";
   "expected_revision"; "command"].

Section Commands.
Context `{Digest}.

Definition command_computed_digest (c : ControllerCommand) : result string :=
  canonical_digest (command_to_value c) "command_digest".

Definition command_validate (c : ControllerCommand) : result unit :=
  fail_if (negb (String.eqb (cc_schema_version c) CONTROLLER_COMMAND_SCHEMA)) with cc_digest ;;
  fail_if (blank_or_long CONTROLLER_COMMAND_MAX_UTF8_BYTES (cc_command_id c)) with cc_digest ;;
  do? controller_handle_validate (cc_handle c) ;;
  fail_if ((cc_resume_attempt c =? 0)%N || exceeds MAX_WIRE_INTEGER (cc_resume_attempt c)
           || exceeds MAX_WIRE_INTEGER (cc_expected_revision c)) with cc_digest ;;
  do? variant_validate (cc_command c) ;;
  do? map_err (validate_sha256 (cc_command_digest c)) cc_digest ;;
  let? digest := command_computed_digest c in
  fail_if (negb (String.eqb digest (cc_command_digest c))) with cc_digest ;;
  Ok tt.

Definition command_new (command_id : string) (handle : ControllerHandle)
    (resume_attempt expected_revision : N) (command : ControllerCommandVariant)
    : result ControllerCommand :=
  let with_digest digest :=
    {| cc_schema_version := CONTROLLER_COMMAND_SCHEMA; cc_command_id := command_id;
       cc_command_digest := digest; cc_handle := handle; cc_resume_attempt := resume_attempt;
       cc_expected_revision := expected_revision; cc_command := command |} in
  let? digest := command_computed_digest (with_digest EmptyString) in
  let result := with_digest digest in
  do? command_validate result ;;
  Ok result.

Definition command_from_value (v : Value) : result ControllerCommand :=
  let? m := ok_or (as_object v) cc_digest in
  do? require_exact_fields m command_fields cc_digest ;;
  let? schema := required_string m "schema_version" cc_digest in
  let? id := required_non_empty_string m "command_id" CONTROLLER_COMMAND_MAX_UTF8_BYTES cc_digest in
  let? digest := required_digest m "command_digest" in
  let? handle := controller_handle_from_value (unwrap_or (map_get "handle" m) Null) in
  let? attempt := required_integer m "resume_attempt" true in
  let? revision := required_integer m "expected_revision" false in
  let? command := variant_from_value (unwrap_or (map_get "command" m) Null) in
  let command :=
    {| cc_schema_version := schema; cc_command_id := id; cc_command_digest := digest;
       cc_handle := handle; cc_resume_attempt := attempt; cc_expected_revision := revision;
       cc_command := command |} in
  do? command_validate command ;;
  Ok command.
End Commands.

(** ** Receipts, wakes and resolutions *)

Record ControllerCommandReceipt := {
  rc_schema_version : string;
  rc_command_id : string;
  rc_command_digest : string;
  rc_handle : ControllerHandle;
  rc_resume_attempt : N;
  rc_expected_revision : N;
  rc_resulting_revision : N;
  rc_resulting_status : string;
  rc_outbox_state : string;
  rc_outbox_action : string;
  rc_outbox_destination : option string;
  rc_outbox_attempt : N
}.
#[global] Instance ControllerCommandReceipt_eq_dec : EqDecision ControllerCommandReceipt.
Proof. solve_decision. Defined.

Definition outbox_states : list string := ["pending"; "claimed"; "delivered"; "ambiguous"].
Definition one_of (s : string) (l : list string) : bool := existsb (String.eqb s) l.

Definition receipt_action_ok (action : string) (destination : option string) : bool :=
  (String.eqb action "none" && is_none destination)
  || (String.eqb action "recovery_dispatch" && opt_is destination "distributed_advance").

Definition command_receipt_validate (r : ControllerCommandReceipt) : result unit :=
  fail_if (negb (String.eqb (rc_schema_version r) CONTROLLER_COMMAND_RECEIPT_SCHEMA))
  with cc_state ;;
  fail_if (blank_or_long CONTROLLER_COMMAND_MAX_UTF8_BYTES (rc_command_id r)) with cc_state ;;
  do? map_err (validate_sha256 (rc_command_digest r)) cc_state ;;
  do? controller_handle_validate (rc_handle r) ;;
  fail_if ((rc_resume_attempt r =? 0)%N || exceeds MAX_WIRE_INTEGER (rc_resume_attempt r)
           || exceeds MAX_WIRE_INTEGER (rc_expected_revision r)
           || exceeds MAX_WIRE_INTEGER (rc_resulting_revision r)
           || exceeds MAX_WIRE_INTEGER (rc_outbox_attempt r)) with cc_state ;;
  fail_if (negb (one_of (rc_outbox_state r) outbox_states)) with cc_state ;;
  fail_if (blank_or_long CONTROLLER_COMMAND_MAX_UTF8_BYTES (rc_resulting_status r)) with cc_state ;;
  fail_if (is_some_and (rc_outbox_destination r)
             (fun value => exceeds CONTROLLER_COMMAND_MAX_UTF8_BYTES (str_len value)))
  with cc_state ;;
  fail_if (negb (receipt_action_ok (rc_outbox_action r) (rc_outbox_destination r))) with cc_state ;;
  fail_if (String.eqb (rc_outbox_action r) "none"
           && negb (String.eqb (rc_outbox_state r) "delivered")) with cc_state ;;
  Ok tt.

Definition command_receipt_to_value (r : ControllerCommandReceipt) : Value :=
  json_object [
    ("schema_version", Str (rc_schema_version r)); ("command_id", Str (rc_command_id r));
    ("command_digest", Str (rc_command_digest r));
    ("handle", controller_handle_to_value (rc_handle r));
    ("resume_attempt", json_u64 (rc_resume_attempt r));
    ("expected_revision", json_u64 (rc_expected_revision r));
    ("resulting_revision", json_u64 (rc_resulting_revision r));
    ("resulting_status", Str (rc_resulting_status r)); ("outbox_state", Str (rc_outbox_state r));
    ("outbox_action", Str (rc_outbox_action r));
    ("outbox_destination", json_opt_str (rc_outbox_destination r));
    ("outbox_attempt", json_u64 (rc_outbox_attempt r))].

Definition command_receipt_fields : list string :=
  ["schema_version"; "command_id"; "command_digest"; "handle"; "resume_attempt";
   "expected_revision"; "resulting_revision"; "resulting_status"; "outbox_state"; "outbox_action";
   "outbox_destination"; "outbox_attempt"].

Definition command_receipt_from_value (v : Value) : result ControllerCommandReceipt :=
  let? m := ok_or (as_object v) cc_state in
  do? require_exact_fields m command_receipt_fields cc_state ;;
  let? schema := required_string m "schema_version" cc_state in
  let? id := required_non_empty_string m "command_id" CONTROLLER_COMMAND_MAX_UTF8_BYTES cc_state in
  let? digest := required_digest m "command_digest" in
  let? handle := controller_handle_from_value (unwrap_or (map_get "handle" m) Null) in
  let? attempt := required_integer m "resume_attempt" true in
  let? expected := required_integer m "expected_revision" false in
  let? resulting := required_integer m "resulting_revision" false in
  let? status := required_string m "resulting_status" cc_state in
  let? state := required_string m "outbox_state" cc_state in
  let? action := required_string m "outbox_action" cc_state in
  let? destination :=
    optional_bounded_string m "outbox_destination" CONTROLLER_COMMAND_MAX_UTF8_BYTES cc_state in
  let? outbox_attempt := required_integer m "outbox_attempt" false in
  let receipt :=
    {| rc_schema_version := schema; rc_command_id := id; rc_command_digest := digest;
       rc_handle := handle; rc_resume_attempt := attempt; rc_expected_revision := expected;
       rc_resulting_revision := resulting; rc_resulting_status := status;
       rc_outbox_state := state; rc_outbox_action := action; rc_outbox_destination := destination;
       rc_outbox_attempt := outbox_attempt |} in
  do? command_receipt_validate receipt ;;
  Ok receipt.

Record ControllerCommandWake := {
  cw_action : string;
  cw_destination : option string;
  cw_logical_cycle : N;
  cw_claim_mode : string
}.
#[global] Instance ControllerCommandWake_eq_dec : EqDecision ControllerCommandWake.
Proof. solve_decision. Defined.

Definition wake_none : ControllerCommandWake :=
  {| cw_action := "none"; cw_destination := None; cw_logical_cycle := 0; cw_claim_mode := "none" |}.
Definition wake_recovery (logical_cycle : N) : ControllerCommandWake :=
  {| cw_action := "recovery_dispatch"; cw_destination := Some "distributed_advance";
     cw_logical_cycle := logical_cycle; cw_claim_mode := "recovery" |}.
Definition wake_validate (w : ControllerCommandWake) : result unit :=
  if (String.eqb (cw_action w) "none" && is_none (cw_destination w)
      && String.eqb (cw_claim_mode w) "none")
     || (String.eqb (cw_action w) "recovery_dispatch"
         && opt_is (cw_destination w) "distributed_advance"
         && String.eqb (cw_claim_mode w) "recovery" && (0 <? cw_logical_cycle w)%N)
  then Ok tt else Err cc_state.
Definition wake_to_value (w : ControllerCommandWake) : Value :=
  json_object [
    ("action", Str (cw_action w)); ("destination", json_opt_str (cw_destination w));
    ("logical_cycle", json_u64 (cw_logical_cycle w)); ("claim_mode", Str (cw_claim_mode w))].
Definition wake_from_value (v : Value) : result ControllerCommandWake :=
  let? m := ok_or (as_object v) cc_state in
  do? require_exact_fields m ["action"; "destination"; "logical_cycle"; "claim_mode"] cc_state ;;
  let? action := required_string m "action" cc_state in
  let? destination :=
    optional_bounded_string m "destination" CONTROLLER_COMMAND_MAX_UTF8_BYTES cc_state in
  let? cycle := required_integer m "logical_cycle" false in
  let? mode := required_string m "claim_mode" cc_state in
  let wake := {| cw_action := action; cw_destination := destination; cw_logical_cycle := cycle;
                 cw_claim_mode := mode |} in
  do? wake_validate wake ;;
  Ok wake.

Inductive ControllerCommandResolution :=
| Applied (receipt : ControllerCommandReceipt) (wake : ControllerCommandWake)
| ReplayedC (receipt : ControllerCommandReceipt) (wake : ControllerCommandWake)
| Rejected (error : string).
#[global] Instance ControllerCommandResolution_eq_dec : EqDecision ControllerCommandResolution.
Proof. solve_decision. Defined.

Definition resolution_to_value (r : ControllerCommandResolution) : Value :=
  let schema := ("schema_version", Str CONTROLLER_COMMAND_RESOLUTION_SCHEMA) in
  match r with
  | Applied receipt wake => json_object [schema; ("kind", Str "applied");
      ("receipt", command_receipt_to_value receipt); ("wake", wake_to_value wake)]
  | ReplayedC receipt wake => json_object [schema; ("kind", Str "replayed");
      ("receipt", command_receipt_to_value receipt); ("wake", wake_to_value wake)]
  | Rejected error => json_object [schema; ("kind", Str "rejected"); ("error", Str error)]
  end.

Definition resolution_from_value (v : Value) : result ControllerCommandResolution :=
  let? m := ok_or (as_object v) cc_state in
  let? kind := required_string m "kind" cc_state in
  if String.eqb kind "applied" || String.eqb kind "replayed" then
    do? require_exact_fields m ["schema_version"; "kind"; "receipt"; "wake"] cc_state ;;
    let? schema := required_string m "schema_version" cc_state in
    fail_if (negb (String.eqb schema CONTROLLER_COMMAND_RESOLUTION_SCHEMA)) with cc_state ;;
    let? receipt := command_receipt_from_value (unwrap_or (map_get "receipt" m) Null) in
    let? wake := wake_from_value (unwrap_or (map_get "wake" m) Null) in
    Ok (if String.eqb kind "applied" then Applied receipt wake else ReplayedC receipt wake)
  else if String.eqb kind "rejected" then
    do? require_exact_fields m ["schema_version"; "kind"; "error"] cc_state ;;
    let? schema := required_string m "schema_version" cc_state in
    fail_if (negb (String.eqb schema CONTROLLER_COMMAND_RESOLUTION_SCHEMA)) with cc_state ;;
    let? message :=
      required_non_empty_string m "error" HOST_INTERACTION_CONTENT_MAX_UTF8_BYTES cc_state in
    Ok (Rejected message)
  else Err cc_state.

(** ** Wake records ([checkpoint/controller_command_wake.rs]) *)

Record ControllerCommandWakeRecord := {
  wr_command_id : string;
  wr_command_digest : string;
  wr_checkpoint_key : string;
  wr_handle : ControllerHandle;
  wr_resume_attempt : N;
  wr_expected_revision : N;
  wr_resulting_revision : N;
  wr_resulting_status : string;
  wr_outbox_id : string;
  wr_outbox_state : string;
  wr_outbox_action : string;
  wr_outbox_destination : option string;
  wr_attempt : N;
  wr_claim_token : option string;
  wr_lease_expires_at_ms : option N;
  wr_delivered_at_ms : option N;
  wr_last_error : option string
}.
#[global] Instance ControllerCommandWakeRecord_eq_dec : EqDecision ControllerCommandWakeRecord.
Proof. solve_decision. Defined.

(** The action, the state and the attempt agree. *)
Definition wake_action_ok (w : ControllerCommandWakeRecord) : bool :=
  if String.eqb (wr_outbox_action w) "none" && is_none (wr_outbox_destination w) then
    String.eqb (wr_outbox_state w) "delivered" && (wr_attempt w =? 0)%N
  else if String.eqb (wr_outbox_action w) "recovery_dispatch"
          && opt_is (wr_outbox_destination w) "distributed_advance" then
    String.eqb (wr_outbox_state w) "pending" || negb (wr_attempt w =? 0)%N
  else false.

Section WakeRecords.
Context `{Digest}.

Definition wake_record_validate (w : ControllerCommandWakeRecord) : result unit :=
  fail_if (blank_or_long CONTROLLER_COMMAND_MAX_UTF8_BYTES (wr_command_id w)
           || blank_or_long CONTROLLER_COMMAND_MAX_UTF8_BYTES (wr_checkpoint_key w))
  with cc_outbox ;;
  do? map_err (validate_sha256 (wr_command_digest w)) cc_outbox ;;
  do? controller_handle_validate (wr_handle w) ;;
  fail_if (negb (String.eqb (ch_checkpoint_key (wr_handle w)) (wr_checkpoint_key w)))
  with cc_outbox ;;
  let? id := controller_receipt_outbox_id (wr_command_id w) (wr_command_digest w) in
  fail_if (negb (String.eqb (wr_outbox_id w) id)) with cc_outbox ;;
  fail_if ((wr_resume_attempt w =? 0)%N || exceeds MAX_WIRE_INTEGER (wr_resume_attempt w)
           || exceeds MAX_WIRE_INTEGER (wr_expected_revision w)
           || exceeds MAX_WIRE_INTEGER (wr_resulting_revision w)
           || exceeds MAX_WIRE_INTEGER (wr_attempt w)) with cc_outbox ;;
  fail_if (blank_or_long CONTROLLER_COMMAND_MAX_UTF8_BYTES (wr_resulting_status w))
  with cc_outbox ;;
  fail_if (negb (one_of (wr_outbox_state w) outbox_states)) with cc_outbox ;;
  fail_if (negb (wake_action_ok w)) with cc_outbox ;;
  fail_if (negb (eqb (is_some (wr_claim_token w)) (is_some (wr_lease_expires_at_ms w))))
  with cc_outbox ;;
  fail_if (String.eqb (wr_outbox_state w) "claimed" && is_none (wr_claim_token w))
  with cc_outbox ;;
  fail_if (negb (String.eqb (wr_outbox_state w) "claimed") && is_some (wr_claim_token w))
  with cc_outbox ;;
  fail_if (is_some_and (wr_claim_token w) (blank_or_long CONTROLLER_COMMAND_MAX_UTF8_BYTES)
           || is_some_and (wr_lease_expires_at_ms w) (exceeds MAX_WIRE_INTEGER)
           || is_some_and (wr_delivered_at_ms w) (exceeds MAX_WIRE_INTEGER)) with cc_outbox ;;
  fail_if (is_some_and (wr_last_error w)
             (fun value => exceeds HOST_INTERACTION_CONTENT_MAX_UTF8_BYTES (str_len value)))
  with cc_outbox ;;
  Ok tt.

Definition from_receipt_lifecycle (receipt : ControllerCommandReceipt) (outbox_id : string)
    (attempt : N) (claim_token : option string) (lease_expires_at_ms delivered_at_ms : option N)
    (last_error : option string) : result ControllerCommandWakeRecord :=
  do? command_receipt_validate receipt ;;
  fail_if (negb (attempt =? rc_outbox_attempt receipt)%N) with cc_outbox ;;
  let record :=
    {| wr_command_id := rc_command_id receipt; wr_command_digest := rc_command_digest receipt;
       wr_checkpoint_key := ch_checkpoint_key (rc_handle receipt); wr_handle := rc_handle receipt;
       wr_resume_attempt := rc_resume_attempt receipt;
       wr_expected_revision := rc_expected_revision receipt;
       wr_resulting_revision := rc_resulting_revision receipt;
       wr_resulting_status := rc_resulting_status receipt; wr_outbox_id := outbox_id;
       wr_outbox_state := rc_outbox_state receipt; wr_outbox_action := rc_outbox_action receipt;
       wr_outbox_destination := rc_outbox_destination receipt; wr_attempt := attempt;
       wr_claim_token := claim_token; wr_lease_expires_at_ms := lease_expires_at_ms;
       wr_delivered_at_ms := delivered_at_ms; wr_last_error := last_error |} in
  do? wake_record_validate record ;;
  Ok record.

Definition wake_record_to_value (w : ControllerCommandWakeRecord) : Value :=
  json_object [
    ("command_id", Str (wr_command_id w)); ("command_digest", Str (wr_command_digest w));
    ("checkpoint_key", Str (wr_checkpoint_key w));
    ("handle", controller_handle_to_value (wr_handle w));
    ("resume_attempt", json_u64 (wr_resume_attempt w));
    ("expected_revision", json_u64 (wr_expected_revision w));
    ("resulting_revision", json_u64 (wr_resulting_revision w));
    ("resulting_status", Str (wr_resulting_status w)); ("outbox_id", Str (wr_outbox_id w));
    ("outbox_state", Str (wr_outbox_state w)); ("outbox_action", Str (wr_outbox_action w));
    ("outbox_destination", json_opt_str (wr_outbox_destination w));
    ("attempt", json_u64 (wr_attempt w)); ("claim_token", json_opt_str (wr_claim_token w));
    ("lease_expires_at_ms", json_opt_u64 (wr_lease_expires_at_ms w));
    ("delivered_at_ms", json_opt_u64 (wr_delivered_at_ms w));
    ("last_error", json_opt_str (wr_last_error w))].

Definition wake_record_fields : list string :=
  ["command_id"; "command_digest"; "checkpoint_key"; "handle"; "resume_attempt";
   "expected_revision"; "resulting_revision"; "resulting_status"; "outbox_id"; "outbox_state";
   "outbox_action"; "outbox_destination"; "attempt"; "claim_token"; "lease_expires_at_ms";
   "delivered_at_ms"; "last_error"].

Definition wake_record_from_value (v : Value) : result ControllerCommandWakeRecord :=
  let name m f := required_non_empty_string m f CONTROLLER_COMMAND_MAX_UTF8_BYTES cc_outbox in
  let? m := ok_or (as_object v) cc_outbox in
  do? require_exact_fields m wake_record_fields cc_outbox ;;
  let? id := name m "command_id" in
  let? digest := required_digest m "command_digest" in
  let? key := name m "checkpoint_key" in
  let? handle := controller_handle_from_value (unwrap_or (map_get "handle" m) Null) in
  let? attempt := required_integer m "resume_attempt" true in
  let? expected := required_integer m "expected_revision" false in
  let? resulting := required_integer m "resulting_revision" false in
  let? status := required_string m "resulting_status" cc_outbox in
  let? outbox_id := name m "outbox_id" in
  let? state := required_string m "outbox_state" cc_outbox in
  let? action := required_string m "outbox_action" cc_outbox in
  let? destination :=
    optional_bounded_string m "outbox_destination" CONTROLLER_COMMAND_MAX_UTF8_BYTES cc_outbox in
  let? outbox_attempt := required_integer m "attempt" false in
  let? token := optional_bounded_string m "claim_token" CONTROLLER_COMMAND_MAX_UTF8_BYTES cc_outbox in
  let? lease := optional_integer m "lease_expires_at_ms" false cc_outbox in
  let? delivered := optional_integer m "delivered_at_ms" false cc_outbox in
  let? last_error :=
    optional_bounded_string m "last_error" HOST_INTERACTION_CONTENT_MAX_UTF8_BYTES cc_outbox in
  let record :=
    {| wr_command_id := id; wr_command_digest := digest; wr_checkpoint_key := key;
       wr_handle := handle; wr_resume_attempt := attempt; wr_expected_revision := expected;
       wr_resulting_revision := resulting; wr_resulting_status := status;
       wr_outbox_id := outbox_id; wr_outbox_state := state; wr_outbox_action := action;
       wr_outbox_destination := destination; wr_attempt := outbox_attempt;
       wr_claim_token := token; wr_lease_expires_at_ms := lease; wr_delivered_at_ms := delivered;
       wr_last_error := last_error |} in
  do? wake_record_validate record ;;
  Ok record.
End WakeRecords.

(** ** Recovery envelopes and results ([checkpoint/controller_recovery.rs]) *)

Record HostInteractionRecoveryEnvelope := {
  re_schema_version : string;
  re_record_id : string;
  re_checkpoint_key : string;
  re_run_id : string;
  re_trace_id : string;
  re_claim_mode : string;
  re_resume_attempt : N;
  re_expected_revision : N;
  re_logical_cycle : N;
  re_interaction_id : string;
  re_operation_id : string;
  re_tool_call_id : string;
  re_request_digest : string;
  re_command_id : string
}.
#[global] Instance HostInteractionRecoveryEnvelope_eq_dec :
  EqDecision HostInteractionRecoveryEnvelope.
Proof. solve_decision. Defined.

Definition envelope_validate (e : HostInteractionRecoveryEnvelope) : result unit :=
  fail_if (negb (String.eqb (re_schema_version e) HOST_INTERACTION_RECOVERY_SCHEMA)
           || negb (String.eqb (re_claim_mode e) "recovery")) with recovery_stale ;;
  do? check_names recovery_stale CONTROLLER_COMMAND_MAX_UTF8_BYTES
        [re_record_id e; re_checkpoint_key e; re_run_id e; re_trace_id e; re_interaction_id e;
         re_operation_id e; re_tool_call_id e; re_command_id e] ;;
  fail_if ((re_resume_attempt e =? 0)%N || exceeds MAX_WIRE_INTEGER (re_resume_attempt e)
           || exceeds MAX_WIRE_INTEGER (re_expected_revision e)
           || (re_logical_cycle e =? 0)%N || exceeds MAX_WIRE_INTEGER (re_logical_cycle e))
  with recovery_stale ;;
  map_err (validate_sha256 (re_request_digest e)) recovery_stale.

Definition envelope_to_value (e : HostInteractionRecoveryEnvelope) : Value :=
  json_object [
    ("schema_version", Str (re_schema_version e)); ("record_id", Str (re_record_id e));
    ("checkpoint_key", Str (re_checkpoint_key e)); ("run_id", Str (re_run_id e));
    ("trace_id", Str (re_trace_id e)); ("claim_mode", Str (re_claim_mode e));
    ("resume_attempt", json_u64 (re_resume_attempt e));
    ("expected_revision", json_u64 (re_expected_revision e));
    ("logical_cycle", json_u64 (re_logical_cycle e)); ("interaction_id", Str (re_interaction_id e));
    ("operation_id", Str (re_operation_id e)); ("tool_call_id", Str (re_tool_call_id e));
    ("request_digest", Str (re_request_digest e)); ("command_id", Str (re_command_id e))].

Definition envelope_fields : list string :=
  ["schema_version"; "record_id"; "checkpoint_key"; "run_id"; "trace_id"; "claim_mode";
   "resume_attempt"; "expected_revision"; "logical_cycle"; "interaction_id"; "operation_id";
   "tool_call_id"; "request_digest"; "command_id"].

Definition envelope_from_value (v : Value) : result HostInteractionRecoveryEnvelope :=
  let name m f := required_non_empty_string m f CONTROLLER_COMMAND_MAX_UTF8_BYTES recovery_stale in
  let host_name m f :=
    required_non_empty_string m f HOST_INTERACTION_MAX_UTF8_BYTES recovery_stale in
  let? m := ok_or (as_object v) recovery_stale in
  do? require_exact_fields m envelope_fields recovery_stale ;;
  let? schema := required_string m "schema_version" recovery_stale in
  let? record := name m "record_id" in
  let? key := name m "checkpoint_key" in
  let? run := name m "run_id" in
  let? trace := name m "trace_id" in
  let? mode := required_string m "claim_mode" recovery_stale in
  let? attempt := required_integer m "resume_attempt" true in
  let? revision := required_integer m "expected_revision" false in
  let? cycle := required_integer m "logical_cycle" true in
  let? interaction := host_name m "interaction_id" in
  let? operation := host_name m "operation_id" in
  let? call := host_name m "tool_call_id" in
  let? digest := required_digest m "request_digest" in
  let? command := name m "command_id" in
  let envelope :=
    {| re_schema_version := schema; re_record_id := record; re_checkpoint_key := key;
       re_run_id := run; re_trace_id := trace; re_claim_mode := mode; re_resume_attempt := attempt;
       re_expected_revision := revision; re_logical_cycle := cycle;
       re_interaction_id := interaction; re_operation_id := operation; re_tool_call_id := call;
       re_request_digest := digest; re_command_id := command |} in
  do? envelope_validate envelope ;;
  Ok envelope.

Record HostInteractionRecoveryResult := {
  rr_schema_version : string;
  rr_kind : string;
  rr_record_id : string;
  rr_checkpoint_revision : option N;
  rr_consumed_revision : option N;
  rr_claim_mode : string;
  rr_resume_attempt : option N;
  rr_injection_count : N;
  rr_checkpoint_execution_claim_state : string;
  rr_error : option string
}.
#[global] Instance HostInteractionRecoveryResult_eq_dec : EqDecision HostInteractionRecoveryResult.
Proof. solve_decision. Defined.

(** Which fields each kind of result carries. *)
Definition recovery_kind_ok (r : HostInteractionRecoveryResult) : bool :=
  let done := is_some (rr_checkpoint_revision r) && is_some (rr_consumed_revision r)
              && is_some (rr_resume_attempt r) && (rr_injection_count r =? 1)%N
              && is_none (rr_error r) in
  (String.eqb (rr_kind r) "applied" && done
   && String.eqb (rr_checkpoint_execution_claim_state r) "retained")
  || (String.eqb (rr_kind r) "replayed" && done)
  || (String.eqb (rr_kind r) "rejected" && is_none (rr_checkpoint_revision r)
      && is_none (rr_consumed_revision r) && is_none (rr_resume_attempt r)
      && (rr_injection_count r =? 0)%N
      && String.eqb (rr_checkpoint_execution_claim_state r) "not_acquired"
      && is_some_and (rr_error r) (fun e => negb (trim_is_empty e))).

Definition recovery_result_validate (r : HostInteractionRecoveryResult) : result unit :=
  fail_if (negb (String.eqb (rr_schema_version r) HOST_INTERACTION_RECOVERY_RESULT_SCHEMA)
           || negb (String.eqb (rr_claim_mode r) "recovery")) with recovery_stale ;;
  fail_if (negb (one_of (rr_kind r) ["applied"; "replayed"; "rejected"])
           || trim_is_empty (rr_record_id r)) with recovery_stale ;;
  fail_if (1 <? rr_injection_count r)%N with recovery_stale ;;
  fail_if (negb (one_of (rr_checkpoint_execution_claim_state r)
                   ["retained"; "released"; "not_acquired"])) with recovery_stale ;;
  fail_if (is_some_and (rr_checkpoint_revision r) (exceeds MAX_WIRE_INTEGER))
  with recovery_stale ;;
  fail_if (is_some_and (rr_consumed_revision r) (exceeds MAX_WIRE_INTEGER)) with recovery_stale ;;
  fail_if (is_some_and (rr_resume_attempt r)
             (fun attempt => (attempt =? 0)%N || exceeds MAX_WIRE_INTEGER attempt))
  with recovery_stale ;;
  fail_if (negb (recovery_kind_ok r)) with recovery_stale ;;
  Ok tt.

Definition recovery_result_to_map (r : HostInteractionRecoveryResult) : object :=
  map_of_list [
    ("schema_version", Str (rr_schema_version r)); ("kind", Str (rr_kind r));
    ("record_id", Str (rr_record_id r));
    ("checkpoint_revision", json_opt_u64 (rr_checkpoint_revision r));
    ("consumed_revision", json_opt_u64 (rr_consumed_revision r));
    ("claim_mode", Str (rr_claim_mode r)); ("resume_attempt", json_opt_u64 (rr_resume_attempt r));
    ("injection_count", json_u64 (rr_injection_count r));
    ("checkpoint_execution_claim_state", Str (rr_checkpoint_execution_claim_state r))].
Definition recovery_result_to_value (r : HostInteractionRecoveryResult) : Value :=
  Object (match rr_error r with
          | Some e => map_insert "error" (Str e) (recovery_result_to_map r)
          | None => recovery_result_to_map r
          end).

Definition recovery_result_fields : list string :=
  ["schema_version"; "kind"; "record_id"; "checkpoint_revision"; "consumed_revision";
   "claim_mode"; "resume_attempt"; "injection_count"; "checkpoint_execution_claim_state"].

Definition recovery_result_from_value (v : Value) : result HostInteractionRecoveryResult :=
  let? m := ok_or (as_object v) recovery_stale in
  do? require_fields_with_optional m recovery_result_fields ["error"] recovery_stale ;;
  let? schema := required_string m "schema_version" recovery_stale in
  let? kind := required_string m "kind" recovery_stale in
  let? record :=
    required_non_empty_string m "record_id" CONTROLLER_COMMAND_MAX_UTF8_BYTES recovery_stale in
  let? revision := optional_integer m "checkpoint_revision" false recovery_stale in
  let? consumed := optional_integer m "consumed_revision" false recovery_stale in
  let? mode := required_string m "claim_mode" recovery_stale in
  let? attempt := optional_integer m "resume_attempt" true recovery_stale in
  let? count := required_integer m "injection_count" false in
  let? state := required_string m "checkpoint_execution_claim_state" recovery_stale in
  let? error :=
    optional_bounded_string m "error" HOST_INTERACTION_CONTENT_MAX_UTF8_BYTES recovery_stale in
  let result :=
    {| rr_schema_version := schema; rr_kind := kind; rr_record_id := record;
       rr_checkpoint_revision := revision; rr_consumed_revision := consumed; rr_claim_mode := mode;
       rr_resume_attempt := attempt; rr_injection_count := count;
       rr_checkpoint_execution_claim_state := state; rr_error := error |} in
  do? recovery_result_validate result ;;
  Ok result.

(** ** Notification rows *)

Record HostInteractionNotificationPayload := {
  np_schema_version : string;
  np_notification_id : string;
  np_record_id : string;
  np_interaction_id : string;
  np_logical_cycle : N;
  np_status : string;
  np_wait_reason : string;
  np_prompt : string
}.
#[global] Instance HostInteractionNotificationPayload_eq_dec :
  EqDecision HostInteractionNotificationPayload.
Proof. solve_decision. Defined.

Definition payload_value (p : HostInteractionNotificationPayload) : Value :=
  json_object [
    ("schema_version", Str (np_schema_version p)); ("notification_id", Str (np_notification_id p));
    ("record_id", Str (np_record_id p)); ("interaction_id", Str (np_interaction_id p));
    ("logical_cycle", json_u64 (np_logical_cycle p)); ("status", Str (np_status p));
    ("wait_reason", Str (np_wait_reason p)); ("prompt", Str (np_prompt p))].

Definition notification_payload_fields : list string :=
  ["schema_version"; "notification_id"; "record_id"; "interaction_id"; "logical_cycle"; "status";
   "wait_reason"; "prompt"].

Inductive NotificationOutboxState := PendingN | ClaimedN | DeliveredN | AmbiguousN | AbortedN.
#[global] Instance NotificationOutboxState_eq_dec : EqDecision NotificationOutboxState.
Proof. solve_decision. Defined.
Definition notification_state_str (s : NotificationOutboxState) : string :=
  match s with
  | PendingN => "pending" | ClaimedN => "claimed" | DeliveredN => "delivered"
  | AmbiguousN => "ambiguous" | AbortedN => "aborted"
  end.

Record HostInteractionNotificationRecord := {
  nr_notification_id : string;
  nr_checkpoint_key : string;
  nr_record_id : string;
  nr_payload : HostInteractionNotificationPayload;
  nr_payload_digest : string;
  nr_outbox_state : NotificationOutboxState;
  nr_claim_token : option string;
  nr_lease_expires_at_ms : option N;
  nr_attempt : N;
  nr_delivered_at_ms : option N;
  nr_aborted_at_ms : option N;
  nr_abort_reason : option string;
  nr_last_error : option string
}.
#[global] Instance HostInteractionNotificationRecord_eq_dec :
  EqDecision HostInteractionNotificationRecord.
Proof. solve_decision. Defined.

(** Which lifecycle fields each state of a notification carries. *)
Definition notification_state_ok (n : HostInteractionNotificationRecord) : bool :=
  let open := is_none (nr_delivered_at_ms n) && is_none (nr_aborted_at_ms n)
              && is_none (nr_abort_reason n) in
  match nr_outbox_state n with
  | PendingN | AmbiguousN => is_none (nr_claim_token n) && open
  | ClaimedN => is_some (nr_claim_token n) && is_some (nr_lease_expires_at_ms n) && open
                && negb (nr_attempt n =? 0)%N
  | DeliveredN => is_none (nr_claim_token n) && is_some (nr_delivered_at_ms n)
                  && is_none (nr_aborted_at_ms n) && is_none (nr_abort_reason n)
  | AbortedN => is_none (nr_claim_token n) && is_none (nr_delivered_at_ms n)
                && is_some (nr_aborted_at_ms n)
                && is_some_and (nr_abort_reason n) (fun r => negb (trim_is_empty r))
  end.

Section Notifications.
Context `{Digest}.

Definition payload_validate (p : HostInteractionNotificationPayload) : result unit :=
  fail_if (negb (String.eqb (np_schema_version p) HOST_INTERACTION_NOTIFICATION_SCHEMA)
           || negb (String.eqb (np_status p) "host_interaction")
           || negb (String.eqb (np_wait_reason p) "host_interaction")) with hi_invalid ;;
  do? check_names hi_invalid CONTROLLER_COMMAND_MAX_UTF8_BYTES
        [np_notification_id p; np_record_id p; np_interaction_id p] ;;
  fail_if ((np_logical_cycle p =? 0)%N || exceeds MAX_WIRE_INTEGER (np_logical_cycle p)
           || trim_is_empty (np_prompt p)
           || exceeds HOST_INTERACTION_CONTENT_MAX_UTF8_BYTES (str_len (np_prompt p))
           || exceeds CONTROLLER_COMMAND_MAX_UTF8_BYTES (str_len (np_wait_reason p)))
  with hi_invalid ;;
  let? id := notification_id_for (np_record_id p) in
  fail_if (negb (String.eqb (np_notification_id p) id)) with notification_conflict ;;
  Ok tt.

Definition payload_digest (p : HostInteractionNotificationPayload) : result string :=
  sha256_canonical (payload_value p).

Definition notification_payload_from_value (v : Value)
    : result HostInteractionNotificationPayload :=
  let? m := ok_or (as_object v) hi_invalid in
  do? require_exact_fields m notification_payload_fields hi_invalid ;;
  let? schema := required_string m "schema_version" hi_invalid in
  let? id :=
    required_non_empty_string m "notification_id" CONTROLLER_COMMAND_MAX_UTF8_BYTES hi_invalid in
  let? record :=
    required_non_empty_string m "record_id" CONTROLLER_COMMAND_MAX_UTF8_BYTES hi_invalid in
  let? interaction :=
    required_non_empty_string m "interaction_id" HOST_INTERACTION_MAX_UTF8_BYTES hi_invalid in
  let? cycle := required_integer m "logical_cycle" true in
  let? status := required_string m "status" hi_invalid in
  let? reason := required_string m "wait_reason" hi_invalid in
  let? prompt := required_string m "prompt" hi_invalid in
  let payload :=
    {| np_schema_version := schema; np_notification_id := id; np_record_id := record;
       np_interaction_id := interaction; np_logical_cycle := cycle; np_status := status;
       np_wait_reason := reason; np_prompt := prompt |} in
  do? payload_validate payload ;;
  Ok payload.

Definition notification_validate (n : HostInteractionNotificationRecord) : result unit :=
  do? payload_validate (nr_payload n) ;;
  fail_if (negb (String.eqb (nr_notification_id n) (np_notification_id (nr_payload n)))
           || negb (String.eqb (nr_record_id n) (np_record_id (nr_payload n))))
  with notification_conflict ;;
  let? digest := payload_digest (nr_payload n) in
  fail_if (negb (String.eqb (nr_payload_digest n) digest)) with notification_conflict ;;
  do? map_err (validate_sha256 (nr_payload_digest n)) notification_conflict ;;
  fail_if (negb (eqb (is_some (nr_claim_token n)) (is_some (nr_lease_expires_at_ms n))))
  with notification_conflict ;;
  fail_if (exceeds MAX_WIRE_INTEGER (nr_attempt n)
           || is_some_and (nr_lease_expires_at_ms n) (exceeds MAX_WIRE_INTEGER)
           || is_some_and (nr_delivered_at_ms n) (exceeds MAX_WIRE_INTEGER)
           || is_some_and (nr_aborted_at_ms n) (exceeds MAX_WIRE_INTEGER))
  with notification_conflict ;;
  fail_if (is_some_and (nr_abort_reason n) (blank_or_long HOST_INTERACTION_CONTENT_MAX_UTF8_BYTES)
           || is_some_and (nr_last_error n)
                (fun value => exceeds HOST_INTERACTION_CONTENT_MAX_UTF8_BYTES (str_len value)))
  with notification_conflict ;;
  fail_if (negb (notification_state_ok n)) with notification_conflict ;;
  Ok tt.
End Notifications.

(** ** Lemmas *)

(** *** Opening checks *)

Lemma blank_or_long_false n s :
  blank_or_long n s = false <-> trim_is_empty s = false /\ (str_len s <= n)%N.
Proof. unfold blank_or_long. by rewrite orb_false_iff, N.ltb_ge. Qed.
Lemma exceeds_false limit n : exceeds limit n = false <-> (n <= limit)%N.
Proof. apply N.ltb_ge. Qed.
Lemma check_names_Ok code n l :
  check_names code n l = Ok tt <->
  Forall (fun s => trim_is_empty s = false /\ (str_len s <= n)%N) l.
Proof.
  unfold check_names. rewrite try_for_each_Ok. apply Forall_proper; [|done].
  intros s. rewrite <- blank_or_long_false. by destruct (blank_or_long n s).
Qed.

Lemma handle_validate_spec h :
  controller_handle_validate h = Ok tt <->
  Forall (fun s => trim_is_empty s = false /\ (str_len s <= CONTROLLER_COMMAND_MAX_UTF8_BYTES)%N)
    [ch_checkpoint_key h; ch_run_id h; ch_trace_id h].
Proof.
  exact (check_names_Ok cc_state CONTROLLER_COMMAND_MAX_UTF8_BYTES
           [ch_checkpoint_key h; ch_run_id h; ch_trace_id h]).
Qed.

Lemma opt_len_ok o n :
  is_some_and o (fun value => exceeds n (str_len value)) = false ->
  forall s, o = Some s -> (str_len s <= n)%N.
Proof. intros Ho s ->. by apply exceeds_false in Ho. Qed.
Lemma opt_limit_ok o limit :
  is_some_and o (exceeds limit) = false -> forall n, o = Some n -> (n <= limit)%N.
Proof. intros Ho n ->. by apply exceeds_false in Ho. Qed.
Lemma opt_name_ok o n :
  is_some_and o (blank_or_long n) = false -> forall s, o = Some s -> (str_len s <= n)%N.
Proof. intros Ho s ->. by apply blank_or_long_false in Ho as [_ ?]. Qed.

(** [check_inv] opens every check that succeeded into its bounds. *)
Ltac check_inv :=
  result_inv; unit_inv; bool_inv;
  repeat match goal with
  | H : blank_or_long _ _ = false |- _ => apply blank_or_long_false in H as [? ?]
  | H : exceeds _ _ = false |- _ => apply exceeds_false in H
  | H : is_some_and _ (exceeds _) = false |- _ => pose proof (opt_limit_ok _ _ H); clear H
  | H : is_some_and _ (fun _ => exceeds _ (str_len _)) = false |- _ =>
      pose proof (opt_len_ok _ _ H); clear H
  | H : is_some_and _ (blank_or_long _) = false |- _ => pose proof (opt_name_ok _ _ H); clear H
  | H : check_names _ _ _ = Ok tt |- _ => apply check_names_Ok in H
  | H : Forall _ (_ :: _) |- _ => apply Forall_cons in H as [[? ?] H]
  | H : Forall _ [] |- _ => clear H
  end.

(** *** Reading a literal back *)

Section Readers.
Context (m : object) (k : string).

Lemma required_string_get s code : map_get k m = Some (Str s) -> required_string m k code = Ok s.
Proof. unfold required_string. by intros ->. Qed.
Lemma required_integer_get n positive :
  map_get k m = Some (json_u64 n) -> (n <= MAX_WIRE_INTEGER)%N -> (positive = true -> n <> 0%N) ->
  required_integer m k positive = Ok n.
Proof.
  unfold required_integer. intros -> Hm Hp. cbn. rewrite (proj2 (N.ltb_ge _ _) Hm). cbn.
  destruct positive; cbn; [|done]. by rewrite (proj2 (N.eqb_neq _ _) (Hp eq_refl)).
Qed.
Lemma required_digest_get s :
  map_get k m = Some (Str s) -> validate_sha256 s = Ok tt -> required_digest m k = Ok s.
Proof.
  intros Hg Hs. destruct (sha256_not_blank s Hs) as [Hb Hl]. unfold required_digest.
  rewrite (required_non_empty_get m k s) by (done || by rewrite Hl). by rewrite Hs.
Qed.
Lemma optional_string_get o n code :
  map_get k m = Some (json_opt_str o) -> (forall s, o = Some s -> (str_len s <= n)%N) ->
  optional_bounded_string m k n code = Ok o.
Proof.
  unfold optional_bounded_string. intros -> Hn. destruct o as [s|]; cbn; [|done].
  by rewrite (proj2 (N.ltb_ge _ _) (Hn s eq_refl)).
Qed.
(** A field that is left out when absent. *)
Lemma optional_string_opt_get o n code :
  map_get k m = Str <$> o -> (forall s, o = Some s -> (str_len s <= n)%N) ->
  optional_bounded_string m k n code = Ok o.
Proof.
  unfold optional_bounded_string. intros -> Hn. destruct o as [s|]; cbn; [|done].
  by rewrite (proj2 (N.ltb_ge _ _) (Hn s eq_refl)).
Qed.
Lemma optional_integer_get o positive code :
  map_get k m = Some (json_opt_u64 o) ->
  (forall n, o = Some n -> (n <= MAX_WIRE_INTEGER)%N /\ (positive = true -> n <> 0%N)) ->
  optional_integer m k positive code = Ok o.
Proof.
  unfold optional_integer. intros -> Hn. destruct o as [n|]; cbn; [|done].
  destruct (Hn n eq_refl) as [Hm Hp]. rewrite (proj2 (N.ltb_ge _ _) Hm). cbn.
  destruct positive; cbn; [|done]. by rewrite (proj2 (N.eqb_neq _ _) (Hp eq_refl)).
Qed.
End Readers.

(** [read_field] reads the next field of the object literal [m]. *)
Ltac field_cond :=
  first [reflexivity | eassumption | done | lia
        | intros ? ?; simplify_eq; lia
        | intros ? ?; split; [eauto|done]].
Ltac read_field :=
  first [ erewrite required_non_empty_get; [|reflexivity|eassumption|eassumption]
        | erewrite required_digest_get; [|reflexivity|eassumption]
        | erewrite required_integer_get; [|reflexivity|field_cond|field_cond]
        | erewrite optional_string_get; [|reflexivity|field_cond]
        | erewrite optional_integer_get; [|reflexivity|field_cond]
        | erewrite required_string_get; [|reflexivity] ].
(** The same for an object [m] whose lookups are known through [Hget]. *)
Ltac read_field_at Hget :=
  first [ erewrite required_non_empty_get; [|rewrite Hget; reflexivity|eassumption|eassumption]
        | erewrite required_digest_get; [|rewrite Hget; reflexivity|eassumption]
        | erewrite required_integer_get; [|rewrite Hget; reflexivity|field_cond|field_cond]
        | erewrite optional_string_get; [|rewrite Hget; reflexivity|field_cond]
        | erewrite optional_integer_get; [|rewrite Hget; reflexivity|field_cond]
        | erewrite required_string_get; [|rewrite Hget; reflexivity] ].
Ltac read_exact :=
  match goal with
  | |- context [require_exact_fields ?m ?f ?c] =>
      let E := fresh in
      assert (E : require_exact_fields m f c = Ok tt) by reflexivity; rewrite E; clear E
  end.

Lemma message_wire r : message_validate r = Ok tt -> message_from_value (message_to_value r) = Ok r.
Proof.
  intros Hv. unfold message_from_value, message_to_value, json_object. cbn [as_object ok_or].
  set (m := map_of_list _). read_exact. repeat read_field. destruct r. cbn in *. by rewrite Hv.
Qed.

Lemma handle_wire h :
  controller_handle_validate h = Ok tt -> controller_handle_from_value (controller_handle_to_value h) = Ok h.
Proof.
  intros Hv. pose proof Hv as Hf. rewrite handle_validate_spec in Hf. check_inv.
  unfold controller_handle_from_value, controller_handle_to_value, json_object. cbn [as_object ok_or].
  set (m := map_of_list _). read_exact. repeat read_field.
  unfold controller_handle_new. destruct h. cbn in *. by rewrite Hv.
Qed.

Section WireLemmas.
Context `{Digest}.

Lemma response_wire r :
  response_validate r = Ok tt -> response_from_value (response_to_value r) = Ok r.
Proof.
  intros Hv. pose proof Hv as Hf. unfold response_validate in Hf. check_inv.
  unfold response_from_value, response_to_value, json_object. cbn [as_object ok_or].
  set (m := map_of_list _). read_exact.
  change (unwrap_or (map_get "response" m) Null) with (message_to_value (hr_response r)).
  rewrite message_wire by done. repeat read_field. destruct r. cbn in *. by rewrite Hv.
Qed.

Lemma host_outcome_wire o :
  host_outcome_validate o = Ok tt -> (ho_logical_cycle o <= MAX_WIRE_INTEGER)%N ->
  host_outcome_from_value (host_outcome_to_value o) = Ok o.
Proof.
  intros Hv Hc. pose proof Hv as Hf. unfold host_outcome_validate in Hf. check_inv.
  unfold host_outcome_from_value, host_outcome_to_value, json_object. cbn [as_object ok_or].
  set (m := map_of_list _). read_exact. repeat read_field. destruct o. cbn in *. by rewrite Hv.
Qed.

Lemma variant_wire c :
  variant_validate c = Ok tt -> variant_from_value (variant_to_value c) = Ok c.
Proof.
  destruct c as [id n op call digest msg| | | |]; intros Hv; [|reflexivity..].
  unfold variant_validate in Hv. check_inv.
  unfold variant_from_value, variant_to_value, json_object. cbn [as_object ok_or].
  set (m := map_of_list _). erewrite required_string_get; [|reflexivity].
  change (String.eqb "host_interaction_response" "host_interaction_response") with true.
  cbv zeta. cbn iota. read_exact.
  change (unwrap_or (map_get "response" m) Null) with (message_to_value msg).
  rewrite message_wire by done. repeat read_field. done.
Qed.

Lemma command_wire c :
  command_validate c = Ok tt -> command_from_value (command_to_value c) = Ok c.
Proof.
  intros Hv. pose proof Hv as Hf. unfold command_validate in Hf. check_inv.
  unfold command_from_value, command_to_value, json_object. cbn [as_object ok_or].
  set (m := map_of_list _). read_exact.
  change (unwrap_or (map_get "handle" m) Null) with (controller_handle_to_value (cc_handle c)).
  change (unwrap_or (map_get "command" m) Null) with (variant_to_value (cc_command c)).
  rewrite handle_wire, variant_wire by done. repeat read_field. destruct c. cbn in *. by rewrite Hv.
Qed.

Lemma receipt_wire r :
  command_receipt_validate r = Ok tt ->
  command_receipt_from_value (command_receipt_to_value r) = Ok r.
Proof.
  intros Hv. pose proof Hv as Hf. unfold command_receipt_validate in Hf. check_inv.
  unfold command_receipt_from_value, command_receipt_to_value, json_object. cbn [as_object ok_or].
  set (m := map_of_list _). read_exact.
  change (unwrap_or (map_get "handle" m) Null) with (controller_handle_to_value (rc_handle r)).
  rewrite handle_wire by done. repeat read_field. destruct r. cbn in *. by rewrite Hv.
Qed.

Lemma destination_len o s :
  o = Some "distributed_advance" -> o = Some s ->
  (str_len s <= CONTROLLER_COMMAND_MAX_UTF8_BYTES)%N.
Proof. intros -> [= <-]. by vm_compute. Qed.

Lemma wake_wire w :
  wake_validate w = Ok tt -> (cw_logical_cycle w <= MAX_WIRE_INTEGER)%N ->
  wake_from_value (wake_to_value w) = Ok w.
Proof.
  intros Hv Hc. pose proof Hv as Hf. unfold wake_validate in Hf. result_inv.
  assert (Hd : forall s, cw_destination w = Some s ->
    (str_len s <= CONTROLLER_COMMAND_MAX_UTF8_BYTES)%N).
  { intros s E. apply orb_true_iff in Hif as [Hif|Hif]; bool_inv; [congruence|].
    by eapply destination_len. }
  unfold wake_from_value, wake_to_value, json_object. cbn [as_object ok_or].
  set (m := map_of_list _). read_exact. repeat read_field. destruct w. cbn in *. by rewrite Hv.
Qed.

Lemma sha256_canonical_valid `{!DigestLaws} v d :
  sha256_canonical v = Ok d -> validate_sha256 d = Ok tt.
Proof. unfold sha256_canonical. intros Hd. result_inv. apply sha256_hex_valid. Qed.

Lemma canonical_digest_valid `{!DigestLaws} v f d :
  canonical_digest v f = Ok d -> validate_sha256 d = Ok tt.
Proof. unfold canonical_digest. intros Hd. result_inv. by eapply sha256_canonical_valid. Qed.

Lemma wake_destination w s :
  wake_action_ok w = true -> wr_outbox_destination w = Some s ->
  (str_len s <= CONTROLLER_COMMAND_MAX_UTF8_BYTES)%N.
Proof.
  unfold wake_action_ok. intros Ha E. destruct (_ && is_none _) eqn:En in Ha.
  - bool_inv. congruence.
  - destruct (_ && opt_is _ _) eqn:Ed in Ha; [|done]. bool_inv. by eapply destination_len.
Qed.

Lemma wake_record_wire `{!DigestLaws} w :
  wake_record_validate w = Ok tt -> wake_record_from_value (wake_record_to_value w) = Ok w.
Proof.
  intros Hv. pose proof Hv as Hf. unfold wake_record_validate in Hf. check_inv.
  assert (Hd : forall s, wr_outbox_destination w = Some s ->
    (str_len s <= CONTROLLER_COMMAND_MAX_UTF8_BYTES)%N).
  { intros s E. by apply (wake_destination w s). }
  assert (Hid : validate_sha256 (wr_outbox_id w) = Ok tt).
  { match goal with E : controller_receipt_outbox_id _ _ = Ok ?d, E' : _ = ?d |- _ =>
      rewrite E'; exact (canonical_digest_valid _ _ _ E) end. }
  destruct (sha256_not_blank _ Hid) as [Hb Hl%N.eq_le_incl].
  assert (Hl' : (str_len (wr_outbox_id w) <= CONTROLLER_COMMAND_MAX_UTF8_BYTES)%N)
    by (etransitivity; [exact Hl|by vm_compute]).
  unfold wake_record_from_value, wake_record_to_value, json_object. cbn [as_object ok_or].
  set (m := map_of_list _). read_exact.
  change (unwrap_or (map_get "handle" m) Null) with (controller_handle_to_value (wr_handle w)).
  rewrite handle_wire by done. repeat read_field. destruct w. cbn in *. by rewrite Hv.
Qed.

Lemma envelope_wire e :
  envelope_validate e = Ok tt -> envelope_from_value (envelope_to_value e) = Ok e.
Proof.
  intros Hv. pose proof Hv as Hf. unfold envelope_validate in Hf. check_inv.
  unfold envelope_from_value, envelope_to_value, json_object. cbn [as_object ok_or].
  set (m := map_of_list _). read_exact. repeat read_field. destruct e. cbn in *. by rewrite Hv.
Qed.

Lemma notification_payload_wire p :
  payload_validate p = Ok tt -> notification_payload_from_value (payload_value p) = Ok p.
Proof.
  intros Hv. pose proof Hv as Hf. unfold payload_validate in Hf. check_inv.
  unfold notification_payload_from_value, payload_value, json_object. cbn [as_object ok_or].
  set (m := map_of_list _). read_exact. repeat read_field. destruct p. cbn in *. by rewrite Hv.
Qed.

(** What a resolution must satisfy to be written faithfully. *)
Definition resolution_wire_ok (r : ControllerCommandResolution) : Prop :=
  match r with
  | Applied receipt wake | ReplayedC receipt wake =>
      command_receipt_validate receipt = Ok tt /\ wake_validate wake = Ok tt /\
      (cw_logical_cycle wake <= MAX_WIRE_INTEGER)%N
  | Rejected error => trim_is_empty error = false /\
      (str_len error <= HOST_INTERACTION_CONTENT_MAX_UTF8_BYTES)%N
  end.

Lemma resolution_wire r :
  resolution_wire_ok r -> resolution_from_value (resolution_to_value r) = Ok r.
Proof.
  destruct r as [receipt wake|receipt wake|e]; cbn [resolution_wire_ok];
    [intros (Hr & Hw & Hc)..|intros [Hb Hl]];
    unfold resolution_from_value, resolution_to_value, json_object; cbn [as_object ok_or];
    set (m := map_of_list _); erewrite required_string_get by reflexivity;
    cbn [String.eqb Ascii.eqb Bool.eqb orb]; read_exact;
    erewrite required_string_get by reflexivity; rewrite String.eqb_refl; cbn [negb].
  - change (unwrap_or (map_get "receipt" m) Null) with (command_receipt_to_value receipt).
    change (unwrap_or (map_get "wake" m) Null) with (wake_to_value wake).
    by rewrite receipt_wire, wake_wire.
  - change (unwrap_or (map_get "receipt" m) Null) with (command_receipt_to_value receipt).
    change (unwrap_or (map_get "wake" m) Null) with (wake_to_value wake).
    by rewrite receipt_wire, wake_wire.
  - by read_field.
Qed.

(** The bounds of a record that only its reader checks. *)
Definition record_wire_ok (r : HostInteractionRecord) : Prop :=
  (forall s, ir_claim_token r = Some s -> (str_len s <= CONTROLLER_COMMAND_MAX_UTF8_BYTES)%N) /\
  (forall n, ir_resolved_revision r = Some n -> (n <= MAX_WIRE_INTEGER)%N) /\
  (forall n, ir_consumed_revision r = Some n -> (n <= MAX_WIRE_INTEGER)%N) /\
  (forall s, ir_last_error r = Some s -> (str_len s <= HOST_INTERACTION_CONTENT_MAX_UTF8_BYTES)%N).

Lemma request_bounds r : request_validate r = Ok tt ->
  trim_is_empty (hi_interaction_id r) = false /\
  (str_len (hi_interaction_id r) <= HOST_INTERACTION_MAX_UTF8_BYTES)%N /\
  (0 < hi_logical_cycle r <= MAX_WIRE_INTEGER)%N.
Proof.
  intros (Hf & _)%request_validate_spec. unfold request_fields_ok in Hf. result_inv. bool_inv.
  destruct a. apply try_for_each_Ok in Hdo. inversion_clear Hdo as [|? ? I1%identity_ok _].
  destruct I1. repeat split; try done; lia.
Qed.

(** Outside the active state a record holds its response. *)
Lemma record_state_response r :
  record_state_ok r = true ->
  (ir_response r = None /\ ir_response_digest r = None /\ ir_command_id r = None) \/
  exists response, ir_response r = Some response.
Proof.
  unfold record_state_ok. destruct (ir_response r) as [response|]; [intros _; right; by exists response|].
  cbn [is_some is_none negb andb]. intros Hs. left.
  repeat destruct (String.eqb _ _); cbn in Hs; try done. by bool_inv.
Qed.

Lemma record_ids_bounds r :
  record_validate r = Ok tt ->
  (forall s, ir_response_digest r = Some s -> (str_len s <= 64)%N) /\
  (forall s, ir_command_id r = Some s -> (str_len s <= CONTROLLER_COMMAND_MAX_UTF8_BYTES)%N).
Proof.
  intros Hv. unfold record_validate in Hv. result_inv. unit_inv. bool_inv.
  assert (Hst : record_state_ok r = true) by assumption.
  destruct (record_state_response r Hst) as [E|E].
  - destruct E as (_ & -> & ->). done.
  - destruct E as [response E]. rewrite E in *. cbn [check_opt] in *. check_inv.
    match goal with E : response_validate _ = Ok tt |- _ => unfold response_validate in E end.
    check_inv. match goal with E : validate_sha256 (hr_response_digest _) = Ok tt |- _ =>
      apply sha256_not_blank in E as [_ Hlen] end.
    split; intros s Es; simplify_eq; [by rewrite Hlen|done].
Qed.

Lemma record_wire r :
  record_validate r = Ok tt -> record_wire_ok r -> record_from_value (record_to_value r) = Ok r.
Proof.
  intros Hv (Htok & Hres & Hcon & Herr). pose proof (record_ids_bounds r Hv) as [Hrd Hci].
  pose proof Hv as Hf. unfold record_validate in Hf.
  destruct (request_validate (ir_request r)) as [[]|] eqn:Hreq; [|by result_inv].
  destruct (request_bounds _ Hreq) as (Hib & Hil & Hcy).
  assert (Hresp : forall x, ir_response r = Some x -> response_validate x = Ok tt).
  { intros x E. rewrite E in Hf. cbn [check_opt] in Hf. result_inv. by unit_inv. }
  check_inv.
  unfold record_from_value, record_to_value. cbn [as_object ok_or].
  set (m := match ir_last_error r with Some _ => _ | None => _ end).
  assert (Hfields : require_fields_with_optional m record_fields ["last_error"] hi_invalid = Ok tt)
    by (subst m; by destruct (ir_last_error r)).
  assert (Hget : forall k, String.eqb k "last_error" = false -> map_get k m = map_get k (record_to_map r)).
  { intros k Hk. subst m. destruct (ir_last_error r); [|done]. by rewrite map_get_insert, Hk. }
  assert (Hlast : map_get "last_error" m = Str <$> ir_last_error r)
    by (subst m; by destruct (ir_last_error r)).
  clearbody m. rewrite Hfields.
  assert (Hq : unwrap_or (map_get "request" m) Null = request_to_value (ir_request r))
    by (by rewrite Hget).
  assert (Hr : get_non_null m "response" = response_to_value <$> ir_response r)
    by (unfold get_non_null; rewrite Hget by done; change (map_get "response" (record_to_map r))
          with (Some (opt_to_value response_to_value (ir_response r))); by destruct (ir_response r)).
  rewrite Hq, request_wire, Hr by done.
  assert (Ht : transpose (response_from_value <$> (response_to_value <$> ir_response r))
               = Ok (ir_response r)).
  { destruct (ir_response r) as [x|]; [|done]. cbn [fmap option_fmap option_map transpose].
    by rewrite response_wire by auto. }
  assert (Hii : hi_interaction_id (ir_request r) = ir_interaction_id r) by assumption.
  assert (Hic : hi_logical_cycle (ir_request r) = ir_logical_cycle r) by assumption.
  rewrite Ht. rewrite Hii in Hib, Hil. rewrite Hic in Hcy.
  repeat read_field_at Hget.
  rewrite (optional_string_opt_get m "last_error" (ir_last_error r)) by done.
  destruct r. cbn in *. by rewrite Hv.
Qed.

Lemma recovery_result_wire r :
  recovery_result_validate r = Ok tt ->
  (str_len (rr_record_id r) <= CONTROLLER_COMMAND_MAX_UTF8_BYTES)%N ->
  (forall e, rr_error r = Some e -> (str_len e <= HOST_INTERACTION_CONTENT_MAX_UTF8_BYTES)%N) ->
  recovery_result_from_value (recovery_result_to_value r) = Ok r.
Proof.
  intros Hv Hid Herr. pose proof Hv as Hf. unfold recovery_result_validate in Hf. check_inv.
  assert (Hat : forall n, rr_resume_attempt r = Some n -> (n <= MAX_WIRE_INTEGER)%N /\ n <> 0%N).
  { intros n E. match goal with X : is_some_and (rr_resume_attempt r) _ = false |- _ =>
      rewrite E in X; cbn in X end. by check_inv. }
  assert (Hic : (rr_injection_count r <= MAX_WIRE_INTEGER)%N)
    by (unfold MAX_WIRE_INTEGER; lia).
  unfold recovery_result_from_value, recovery_result_to_value. cbn [as_object ok_or].
  set (m := match rr_error r with Some _ => _ | None => _ end).
  assert (Hfields : require_fields_with_optional m recovery_result_fields ["error"] recovery_stale
                    = Ok tt) by (subst m; by destruct (rr_error r)).
  assert (Hget : forall k, String.eqb k "error" = false ->
                 map_get k m = map_get k (recovery_result_to_map r)).
  { intros k Hk. subst m. destruct (rr_error r); [|done]. by rewrite map_get_insert, Hk. }
  assert (Hlast : map_get "error" m = Str <$> rr_error r) by (subst m; by destruct (rr_error r)).
  clearbody m. rewrite Hfields. repeat read_field_at Hget.
  rewrite (optional_integer_get m "resume_attempt" (rr_resume_attempt r))
    by (by rewrite ?Hget || (intros n E; destruct (Hat n E); done)).
  repeat read_field_at Hget.
  rewrite (optional_string_opt_get m "error" (rr_error r)) by done.
  destruct r. cbn in *. by rewrite Hv.
Qed.
End WireLemmas.

(** ** Properties *)

(** Every controller value survives its own wire form: under a hash that
    returns lower-case hexadecimal digits, a value that passes the checks of
    its type, and whose fields stay within the bounds that only the reader
    enforces, is read back unchanged from what the writer produces. *)
Theorem controller_values_roundtrip `{DigestLaws} :
  (forall r, response_validate r = Ok tt -> response_from_value (response_to_value r) = Ok r) /\
  (forall r, record_validate r = Ok tt -> record_wire_ok r ->
     record_from_value (record_to_value r) = Ok r) /\
  (forall c, command_validate c = Ok tt -> command_from_value (command_to_value c) = Ok c) /\
  (forall r, command_receipt_validate r = Ok tt ->
     command_receipt_from_value (command_receipt_to_value r) = Ok r) /\
  (forall r, resolution_wire_ok r -> resolution_from_value (resolution_to_value r) = Ok r) /\
  (forall w, wake_record_validate w = Ok tt ->
     wake_record_from_value (wake_record_to_value w) = Ok w) /\
  (forall e, envelope_validate e = Ok tt -> envelope_from_value (envelope_to_value e) = Ok e) /\
  (forall p, payload_validate p = Ok tt ->
     notification_payload_from_value (payload_value p) = Ok p) /\
  (forall o, host_outcome_validate o = Ok tt -> (ho_logical_cycle o <= MAX_WIRE_INTEGER)%N ->
     host_outcome_from_value (host_outcome_to_value o) = Ok o) /\
  (forall r, recovery_result_validate r = Ok tt ->
     (str_len (rr_record_id r) <= CONTROLLER_COMMAND_MAX_UTF8_BYTES)%N ->
     (forall e, rr_error r = Some e ->
        (str_len e <= HOST_INTERACTION_CONTENT_MAX_UTF8_BYTES)%N) ->
     recovery_result_from_value (recovery_result_to_value r) = Ok r).
Proof.
  split; [exact response_wire|]. split; [exact record_wire|]. split; [exact command_wire|].
  split; [exact receipt_wire|]. split; [exact resolution_wire|]. split; [exact wake_record_wire|].
  split; [exact envelope_wire|]. split; [exact notification_payload_wire|].
  split; [exact host_outcome_wire|exact recovery_result_wire].
Qed.

(** A command as a controller builds it. *)
Definition sample_handle : ControllerHandle :=
  {| ch_checkpoint_key := "key"; ch_run_id := "run"; ch_trace_id := "trace" |}.
Definition sample_command_of (id : string) (revision : N) (command : ControllerCommandVariant)
    : result ControllerCommand :=
  @command_new toy_digest id sample_handle 1 revision command.

Lemma controller_values_roundtrip_witness :
  exists c, sample_command_of "cmd" 3 Cancel = Ok c /\
    @command_from_value toy_digest (command_to_value c) = Ok c.
Proof.
  destruct (sample_command_of "cmd" 3 Cancel) as [c|] eqn:E;
    [|exfalso; revert E; vm_compute; discriminate].
  exists c. split; [reflexivity|].
  apply (@controller_values_roundtrip toy_digest toy_digest_laws).
  unfold sample_command_of, command_new in E. result_inv. by unit_inv.
Defined.
