(* ===== verification/Checkpoint.v ===== *)
(** * Checkpoints

    [runtime/state.rs] and [runtime/state/validation.rs]: the durable snapshot
    of a run, with the history cursor it carries, and the validation every
    store applies before it persists one.  [validate_checkpoint] is split into
    the groups of checks the source makes, composed in the order of the
    source. *)

From Stdlib Require Import Ascii String NArith Lia.
From stdpp Require Import base strings list sets.
From S2P Require Import Prelude Json Canonical CheckpointTypes ToolResult Journal TokenUsage.
From S2P Require Import Budget BudgetWire Records ResultCodec Events HostInteraction.

(** ** Collaborators

    What the kernel calls and does not contain: the run-definition rules
    ([checkpoint/canonical/run_definition.rs]); with the digest, the JSON text
    parser and printer and the event reader they make up the environment. *)

Class RunDefinitionRules := {
  validate_run_definition : Value -> result unit;
  run_definition_digest : Value -> result string
}.
Class Env := {
  env_digest :: Digest;
  env_text :: JsonText;
  env_reader :: EventReader;
  env_definition :: RunDefinitionRules
}.

(** ** History cursor ([runtime/state/history.rs]) *)

Record PreviousAgentInput := { pa_cycle_index : N; pa_input_tokens : option N }.
#[global] Instance PreviousAgentInput_eq_dec : EqDecision PreviousAgentInput.
Proof. solve_decision. Defined.

Record CheckpointHistory := {
  h_sequence : N;
  h_cycle_count : N;
  h_model_call_count : N;
  h_head_digest : option string;
  h_usage : TaskTokenUsageTotals;
  h_previous_agent_input : option PreviousAgentInput
}.
#[global] Instance CheckpointHistory_eq_dec : EqDecision CheckpointHistory.
Proof. solve_decision. Defined.

Definition history_default : CheckpointHistory :=
  {| h_sequence := 0; h_cycle_count := 0; h_model_call_count := 0; h_head_digest := None;
     h_usage := totals_default; h_previous_agent_input := None |}.

Definition history_invalid : string := "checkpoint_history_invalid".

Definition history_validate (h : CheckpointHistory) : result unit :=
  fail_if (existsb (fun value => (MAX_WIRE_INTEGER <? value)%N)
             [h_sequence h; h_cycle_count h; h_model_call_count h]
           || negb (Bool.eqb (h_sequence h =? 0)%N (is_none (h_head_digest h))))
  with history_invalid ;;
  do? check_opt validate_sha256 (h_head_digest h) ;;
  fail_if ((h_sequence h =? 0)%N && (h <>?? history_default)) with history_invalid ;;
  fail_if ((0 <? h_sequence h)%N && (h_cycle_count h + h_model_call_count h =? 0)%N)
  with history_invalid ;;
  fail_if (negb (opt_is (cu_source (to_cache_usage (h_usage h))) "aggregate"))
  with history_invalid ;;
  fail_if (existsb (fun o => is_some_and o (fun value => (MAX_WIRE_INTEGER <? value)%N))
             [to_input_tokens (h_usage h); to_output_tokens (h_usage h);
              to_total_tokens (h_usage h); to_reasoning_tokens (h_usage h);
              p ← h_previous_agent_input h; pa_input_tokens p])
  with history_invalid ;;
  fail_if (is_some_and (h_previous_agent_input h) (fun p => (pa_cycle_index p =? 0)%N))
  with history_invalid ;;
  Ok tt.

(** ** The record *)

Record Checkpoint := {
  cp_schema_version : string;
  cp_run_definition_schema : string;
  cp_run_definition : Value;
  cp_checkpoint_key : string;
  cp_task_id : string;
  cp_root_run_id : string;
  cp_trace_id : string;
  cp_run_definition_digest : string;
  cp_resume_attempt : N;
  cp_cycle_index : N;
  cp_status : CheckpointStatus;
  cp_cancel_requested : bool;
  cp_active_host_interaction : option HostInteractionRequest;
  cp_suspended_origin : option SuspendedOrigin;
  cp_messages : list Message;
  cp_cycles : list CycleRecord;
  cp_model_calls : list ModelCallRecord;
  cp_history : CheckpointHistory;
  cp_shared_state : object;
  cp_budget_usage : option BudgetUsageSnapshot;
  cp_event_cursor : option EventCursor;
  cp_event_outbox : list EventOutboxEntry;
  cp_extension_state : list (string * ExtensionStateEntry);
  cp_model_call_journal : list OperationJournalEntry;
  cp_tool_journal : list OperationJournalEntry;
  cp_revision : N;
  cp_claim_token : option string;
  cp_claimed_cycle : option N;
  cp_lease_expires_at_ms : option N;
  cp_terminal_result : option Value;
  cp_terminal_acknowledged : bool
}.

Definition checkpoint_default : Checkpoint :=
  {| cp_schema_version := CHECKPOINT_SCHEMA; cp_run_definition_schema := RUN_DEFINITION_SCHEMA;
     cp_run_definition := Object []; cp_checkpoint_key := ""; cp_task_id := "";
     cp_root_run_id := ""; cp_trace_id := ""; cp_run_definition_digest := "";
     cp_resume_attempt := 1; cp_cycle_index := 0; cp_status := RunningS;
     cp_cancel_requested := false; cp_active_host_interaction := None;
     cp_suspended_origin := None; cp_messages := []; cp_cycles := []; cp_model_calls := [];
     cp_history := history_default; cp_shared_state := []; cp_budget_usage := None;
     cp_event_cursor := None; cp_event_outbox := []; cp_extension_state := [];
     cp_model_call_journal := []; cp_tool_journal := []; cp_revision := 0;
     cp_claim_token := None; cp_claimed_cycle := None; cp_lease_expires_at_ms := None;
     cp_terminal_result := None; cp_terminal_acknowledged := false |}.

Definition checkpoint_eta (c : Checkpoint) : Checkpoint :=
  {| cp_schema_version := cp_schema_version c;
     cp_run_definition_schema := cp_run_definition_schema c;
     cp_run_definition := cp_run_definition c; cp_checkpoint_key := cp_checkpoint_key c;
     cp_task_id := cp_task_id c; cp_root_run_id := cp_root_run_id c; cp_trace_id := cp_trace_id c;
     cp_run_definition_digest := cp_run_definition_digest c;
     cp_resume_attempt := cp_resume_attempt c; cp_cycle_index := cp_cycle_index c;
     cp_status := cp_status c; cp_cancel_requested := cp_cancel_requested c;
     cp_active_host_interaction := cp_active_host_interaction c;
     cp_suspended_origin := cp_suspended_origin c; cp_messages := cp_messages c;
     cp_cycles := cp_cycles c; cp_model_calls := cp_model_calls c; cp_history := cp_history c;
     cp_shared_state := cp_shared_state c; cp_budget_usage := cp_budget_usage c;
     cp_event_cursor := cp_event_cursor c; cp_event_outbox := cp_event_outbox c;
     cp_extension_state := cp_extension_state c;
     cp_model_call_journal := cp_model_call_journal c; cp_tool_journal := cp_tool_journal c;
     cp_revision := cp_revision c; cp_claim_token := cp_claim_token c;
     cp_claimed_cycle := cp_claimed_cycle c; cp_lease_expires_at_ms := cp_lease_expires_at_ms c;
     cp_terminal_result := cp_terminal_result c;
     cp_terminal_acknowledged := cp_terminal_acknowledged c |}.

(** Field assignments. *)
Section Setters.
Implicit Type c : Checkpoint.
Definition set_resume_attempt c (v : N) : Checkpoint :=
  ltac:(set_field checkpoint_eta cp_resume_attempt c v).
Definition set_cycle_index c (v : N) : Checkpoint :=
  ltac:(set_field checkpoint_eta cp_cycle_index c v).
Definition set_status c (v : CheckpointStatus) : Checkpoint :=
  ltac:(set_field checkpoint_eta cp_status c v).
Definition set_cancel_requested c (v : bool) : Checkpoint :=
  ltac:(set_field checkpoint_eta cp_cancel_requested c v).
Definition set_active_host_interaction c (v : option HostInteractionRequest) : Checkpoint :=
  ltac:(set_field checkpoint_eta cp_active_host_interaction c v).
Definition set_suspended_origin c (v : option SuspendedOrigin) : Checkpoint :=
  ltac:(set_field checkpoint_eta cp_suspended_origin c v).
Definition set_messages c (v : list Message) : Checkpoint :=
  ltac:(set_field checkpoint_eta cp_messages c v).
Definition set_cycles c (v : list CycleRecord) : Checkpoint :=
  ltac:(set_field checkpoint_eta cp_cycles c v).
Definition set_model_calls c (v : list ModelCallRecord) : Checkpoint :=
  ltac:(set_field checkpoint_eta cp_model_calls c v).
Definition set_history c (v : CheckpointHistory) : Checkpoint :=
  ltac:(set_field checkpoint_eta cp_history c v).
Definition set_shared_state c (v : object) : Checkpoint :=
  ltac:(set_field checkpoint_eta cp_shared_state c v).
Definition set_budget_usage c (v : option BudgetUsageSnapshot) : Checkpoint :=
  ltac:(set_field checkpoint_eta cp_budget_usage c v).
Definition set_extension_state c (v : list (string * ExtensionStateEntry)) : Checkpoint :=
  ltac:(set_field checkpoint_eta cp_extension_state c v).
Definition set_event_cursor c (v : option EventCursor) : Checkpoint :=
  ltac:(set_field checkpoint_eta cp_event_cursor c v).
Definition set_event_outbox c (v : list EventOutboxEntry) : Checkpoint :=
  ltac:(set_field checkpoint_eta cp_event_outbox c v).
Definition set_model_call_journal c (v : list OperationJournalEntry) : Checkpoint :=
  ltac:(set_field checkpoint_eta cp_model_call_journal c v).
Definition set_tool_journal c (v : list OperationJournalEntry) : Checkpoint :=
  ltac:(set_field checkpoint_eta cp_tool_journal c v).
Definition set_revision c (v : N) : Checkpoint :=
  ltac:(set_field checkpoint_eta cp_revision c v).
Definition set_claim_token c (v : option string) : Checkpoint :=
  ltac:(set_field checkpoint_eta cp_claim_token c v).
Definition set_claimed_cycle c (v : option N) : Checkpoint :=
  ltac:(set_field checkpoint_eta cp_claimed_cycle c v).
Definition set_lease c (v : option N) : Checkpoint :=
  ltac:(set_field checkpoint_eta cp_lease_expires_at_ms c v).
Definition set_terminal_result c (v : option Value) : Checkpoint :=
  ltac:(set_field checkpoint_eta cp_terminal_result c v).
Definition set_terminal_acknowledged c (v : bool) : Checkpoint :=
  ltac:(set_field checkpoint_eta cp_terminal_acknowledged c v).
(** The three claim fields are always assigned together. *)
Definition set_claim c (token : option string) (cycle lease : option N) : Checkpoint :=
  set_lease (set_claimed_cycle (set_claim_token c token) cycle) lease.
Definition release_claim c : Checkpoint := set_claim c None None None.
End Setters.

(** ** Accessors *)

Definition active_cycle (c : Checkpoint) : result N :=
  let? cycle := ok_or (or_else (cp_claimed_cycle c) (checked_add (cp_cycle_index c) 1))
                      "checkpoint_cycle_invalid" in
  fail_if ((cycle =? 0)%N || (MAX_WIRE_INTEGER <? cycle)%N) with "checkpoint_cycle_invalid" ;;
  Ok cycle.

Definition journals (c : Checkpoint) : list OperationJournalEntry :=
  cp_model_call_journal c ++ cp_tool_journal c.

Definition has_ambiguous_operation (c : Checkpoint) : bool :=
  existsb (fun e => j_state e =?? Ambiguous) (journals c).

Definition terminal_error_code (c : Checkpoint) : option string :=
  m ← cp_terminal_result c ≫= as_object;
  error ← map_get "error" m ≫= as_object;
  map_get "code" error ≫= as_str.

Definition is_operator_abort_terminal (c : Checkpoint) : bool :=
  is_some_and (terminal_error_code c) (fun code =>
    existsb (String.eqb code)
      ["operator_abort_with_unknown_outcome"; "cancelled_with_unknown_outcome";
       "lease_lost_with_unknown_outcome"]).

(** ** Validation *)

Definition status_invalid : string := "checkpoint_status_invalid".

(** A set built from the list has as many elements as the list. *)
Fixpoint distinct (l : list string) : bool :=
  match l with
  | [] => true
  | x :: r => negb (existsb (String.eqb x) r) && distinct r
  end.

Fixpoint strictly_increasing (l : list N) : bool :=
  match l with
  | x :: ((y :: _) as r) => (x <? y)%N && strictly_increasing r
  | _ => true
  end.

Section Validation.
Context `{Env}.

Definition check_records (c : Checkpoint) : result unit :=
  do? history_validate (cp_history c) ;;
  do? try_for_each (fun message =>
        map_err (validate_compaction_metadata (m_metadata message)) "checkpoint_messages_invalid")
        (cp_messages c) ;;
  fail_if (existsb (fun cycle => (cr_index cycle =? 0)%N
                      || (saturating_add (cp_cycle_index c) 1 <? cr_index cycle)%N) (cp_cycles c)
           || negb (strictly_increasing (map cr_index (cp_cycles c))))
  with history_invalid ;;
  Ok tt.

Definition check_identity (c : Checkpoint) : result unit :=
  fail_if (negb (String.eqb (cp_schema_version c) CHECKPOINT_SCHEMA))
  with "checkpoint_schema_unsupported" ;;
  fail_if (negb (String.eqb (cp_run_definition_schema c) RUN_DEFINITION_SCHEMA))
  with "checkpoint_definition_schema_unsupported" ;;
  do? validate_run_definition (cp_run_definition c) ;;
  do? map_err (validate_sha256 (cp_run_definition_digest c))
        "checkpoint_definition_digest_invalid" ;;
  let? digest := run_definition_digest (cp_run_definition c) in
  fail_if (negb (String.eqb digest (cp_run_definition_digest c)))
  with "checkpoint_definition_mismatch" ;;
  do? validate_checkpoint_key (cp_checkpoint_key c) ;;
  do? try_for_each (fun value =>
        fail_if (trim_is_empty value) with "checkpoint_value_invalid" ;; Ok tt)
        [cp_task_id c; cp_root_run_id c; cp_trace_id c] ;;
  fail_if ((cp_resume_attempt c =? 0)%N || (MAX_WIRE_INTEGER <? cp_resume_attempt c)%N)
  with "checkpoint_resume_attempt_invalid" ;;
  fail_if ((MAX_WIRE_INTEGER <? cp_cycle_index c)%N || (MAX_WIRE_INTEGER <? cp_revision c)%N)
  with "checkpoint_integer_invalid" ;;
  Ok tt.

Definition check_claim (c : Checkpoint) : result unit :=
  let claim_values := [is_some (cp_claim_token c); is_some (cp_claimed_cycle c);
                       is_some (cp_lease_expires_at_ms c)] in
  fail_if (existsb (fun b => b) claim_values && existsb negb claim_values)
  with "checkpoint_claim_invalid" ;;
  match cp_claim_token c, cp_claimed_cycle c, cp_lease_expires_at_ms c with
  | Some claim_token, Some claimed_cycle, Some lease =>
      fail_if (trim_is_empty claim_token) with "checkpoint_claim_invalid" ;;
      let? expected := ok_or (checked_add (cp_cycle_index c) 1) "checkpoint_claim_invalid" in
      fail_if (negb (claimed_cycle =? expected)%N || (claimed_cycle =? 0)%N
               || (MAX_WIRE_INTEGER <? claimed_cycle)%N) with "checkpoint_claim_invalid" ;;
      fail_if (MAX_WIRE_INTEGER <? lease)%N with "checkpoint_claim_invalid" ;;
      Ok tt
  | _, _, _ => Ok tt
  end.

Definition check_terminal_status (c : Checkpoint) : result unit :=
  fail_if (is_some (cp_terminal_result c) && is_some (cp_claim_token c)) with status_invalid ;;
  fail_if (cp_terminal_acknowledged c && is_none (cp_terminal_result c)) with status_invalid ;;
  fail_if (is_none (cp_terminal_result c)
           && negb (match cp_status c with
                    | PendingS | RunningS | HostInteractionS | SuspendedS | DeferredS
                    | ReconciliationRequiredS => true
                    | _ => false end)) with status_invalid ;;
  fail_if (is_some (cp_terminal_result c) && negb (is_terminal (cp_status c)))
  with status_invalid ;;
  Ok tt.

(** The request names the active cycle, or a committed cycle that retains the
    tool call. *)
Definition check_request_cycle (c : Checkpoint) (request : HostInteractionRequest) : result unit :=
  do? request_validate request ;;
  let? expected_cycle := ok_or (checked_add (cp_cycle_index c) 1) status_invalid in
  let committed_origin := (hi_logical_cycle request =? cp_cycle_index c)%N
    && existsb (fun cycle => (cr_index cycle =? hi_logical_cycle request)%N
                  && existsb (fun r => String.eqb (tr_tool_call_id r) (hi_tool_call_id request))
                             (cr_tool_results cycle)) (cp_cycles c) in
  fail_if (negb (hi_logical_cycle request =? expected_cycle)%N && negb committed_origin)
  with status_invalid ;;
  Ok tt.

Definition check_host_interaction (c : Checkpoint) : result unit :=
  do? check_opt (check_request_cycle c)
        (or_else (cp_active_host_interaction c)
                 (origin ← cp_suspended_origin c; so_active_host_interaction origin)) ;;
  do? check_opt origin_validate (cp_suspended_origin c) ;;
  match cp_status c with
  | HostInteractionS =>
      fail_if (is_none (cp_active_host_interaction c) || is_some (cp_suspended_origin c)
               || is_some (cp_claim_token c)) with status_invalid ;;
      Ok tt
  | SuspendedS =>
      fail_if (is_some (cp_active_host_interaction c) || is_none (cp_suspended_origin c)
               || is_some (cp_claim_token c)) with status_invalid ;;
      Ok tt
  | _ =>
      fail_if (is_some (cp_active_host_interaction c) || is_some (cp_suspended_origin c))
      with status_invalid ;;
      Ok tt
  end.

(** A closed tool entry carries the identity derived from its operation, and a
    result of the same tool call. *)
Definition check_closed_tool (c : Checkpoint) (e : OperationJournalEntry) : result unit :=
  if (j_kind e =?? Tool) && closed (j_state e) then
    let? tool_call_id := ok_or (j_tool_call_id e) "operation_receipt_identity_invalid" in
    let? expected := tool_receipt_identity_key (cp_checkpoint_key c) (j_operation_id e)
                       (j_attempt e) tool_call_id (j_request_digest e) in
    fail_if (negb (opt_is (j_identity_key e) expected))
    with "operation_receipt_identity_invalid" ;;
    match j_result e with
    | None => Ok tt
    | Some value =>
        let? r := map_err (from_dict value) "operation_receipt_identity_invalid" in
        fail_if (negb (String.eqb (tr_tool_call_id r) tool_call_id))
        with "operation_receipt_identity_invalid" ;;
        Ok tt
    end
  else Ok tt.

Definition check_journal_entry (c : Checkpoint) (active : N) (e : OperationJournalEntry)
    : result unit :=
  do? entry_validate e ;;
  fail_if (negb (j_cycle_index e =? active)%N) with "checkpoint_journal_cycle_invalid" ;;
  check_closed_tool c e.

Definition check_journals (c : Checkpoint) : result unit :=
  fail_if (negb (distinct (map mc_call_id (cp_model_calls c)))) with status_invalid ;;
  let? active := active_cycle c in
  do? try_for_each (check_journal_entry c active) (journals c) ;;
  fail_if (existsb (fun e => j_kind e <>?? Model) (cp_model_call_journal c)
           || existsb (fun e => j_kind e <>?? Tool) (cp_tool_journal c))
  with "checkpoint_journal_kind_invalid" ;;
  Ok tt.

Definition extension_bytes (e : ExtensionStateEntry) : result N :=
  let? bytes := canonical_json_bytes (extension_to_value e) in
  fail_if (MAX_EXTENSION_ENTRY_BYTES <? str_len bytes)%N
  with "checkpoint_extension_entry_too_large" ;;
  Ok (str_len bytes).

Definition validate_extension_state_size (extensions : list (string * ExtensionStateEntry))
    (max_total : N) : result unit :=
  let? total := try_fold (fun total kv =>
                  let? bytes := extension_bytes kv.2 in
                  ok_or (checked_add total bytes) "checkpoint_extension_state_too_large")
                  0%N extensions in
  fail_if (max_total <? total)%N with "checkpoint_extension_state_too_large" ;;
  Ok tt.

Fixpoint check_outbox (seen : list string) (outbox : list EventOutboxEntry) : result unit :=
  match outbox with
  | [] => Ok tt
  | e :: rest =>
      do? verify_payload e ;;
      fail_if (existsb (String.eqb (ob_event_id e)) seen) with "event_identity_conflict" ;;
      check_outbox (ob_event_id e :: seen) rest
  end.

Definition check_extensions_and_events (c : Checkpoint) : result unit :=
  do? try_for_each (fun kv => do? validate_extension_namespace kv.1 ;; extension_validate kv.2)
        (cp_extension_state c) ;;
  do? validate_extension_state_size (cp_extension_state c) MAX_WIRE_INTEGER ;;
  do? check_opt cursor_validate (cp_event_cursor c) ;;
  check_outbox [] (cp_event_outbox c).

(** *** Model accounting *)

Record ModelAccountingIdentity := {
  ma_call_id : string;
  ma_operation_id : string;
  ma_attempt : N;
  ma_operation : ModelCallOperation;
  ma_cycle_index : N;
  ma_backend : string;
  ma_model : string
}.

Definition identity_eqb (a b : ModelAccountingIdentity) : bool :=
  String.eqb (ma_call_id a) (ma_call_id b) && String.eqb (ma_operation_id a) (ma_operation_id b)
  && (ma_attempt a =? ma_attempt b)%N && (ma_operation a =?? ma_operation b)
  && (ma_cycle_index a =? ma_cycle_index b)%N && String.eqb (ma_backend a) (ma_backend b)
  && String.eqb (ma_model a) (ma_model b).

Definition model_journal_identity (e : OperationJournalEntry) : result ModelAccountingIdentity :=
  let? call_id := ok_or (j_call_id e) status_invalid in
  let? operation := ok_or (j_model_operation e) status_invalid in
  let? backend := ok_or (j_backend e) status_invalid in
  let? model := ok_or (j_model e) status_invalid in
  Ok {| ma_call_id := call_id; ma_operation_id := j_operation_id e; ma_attempt := j_attempt e;
        ma_operation := operation; ma_cycle_index := j_cycle_index e; ma_backend := backend;
        ma_model := model |}.

Definition model_record_identity (r : ModelCallRecord) : ModelAccountingIdentity :=
  {| ma_call_id := mc_call_id r; ma_operation_id := mc_operation_id r; ma_attempt := mc_attempt r;
     ma_operation := mc_operation r; ma_cycle_index := mc_cycle_index r;
     ma_backend := mc_backend r; ma_model := mc_model r |}.

Definition model_event_identity (ev : RunEvent) : option ModelAccountingIdentity :=
  match ev_payload ev with
  | ModelCallStarted p | ModelCallCompleted p _ | ModelCallFailed p _ _ _ =>
      cycle ← ev_cycle_index ev;
      Some {| ma_call_id := mp_call_id p; ma_operation_id := mp_operation_id p;
              ma_attempt := mp_attempt p; ma_operation := mp_operation p;
              ma_cycle_index := cycle; ma_backend := mp_backend p; ma_model := mp_model p |}
  | _ => None
  end.

(** An outbox event about this attempt: its position, the event, its identity. *)
Record Evidence := {
  evd_index : nat; evd_event : RunEvent; evd_identity : ModelAccountingIdentity
}.

Fixpoint collect_evidence (identity : ModelAccountingIdentity) (index : nat)
    (outbox : list EventOutboxEntry) : result (list Evidence) :=
  match outbox with
  | [] => Ok []
  | e :: rest =>
      do? verify_payload e ;;
      let? ev := ok_or (event_from_value (ob_event e)) "checkpoint_event_outbox_invalid" in
      let? more := collect_evidence identity (S index) rest in
      match model_event_identity ev with
      | None => Ok more
      | Some id =>
          if String.eqb (ma_call_id id) (ma_call_id identity)
             || (String.eqb (ma_operation_id id) (ma_operation_id identity)
                 && (ma_attempt id =? ma_attempt identity)%N)
          then Ok ({| evd_index := index; evd_event := ev; evd_identity := id |} :: more)
          else Ok more
      end
  end.

Definition is_started_event (x : Evidence) : bool :=
  match ev_payload (evd_event x) with ModelCallStarted _ => true | _ => false end.
Definition is_terminal_event (x : Evidence) : bool :=
  match ev_payload (evd_event x) with
  | ModelCallCompleted _ _ | ModelCallFailed _ _ _ _ => true | _ => false end.

Definition is_model_budget_event (ev : RunEvent) : bool :=
  match ev_payload ev with
  | BudgetSnapshotEv b _ | BudgetExhaustedEv b _ => b =?? ModelCallComplete
  | _ => false
  end.

Definition outbox_event_at (c : Checkpoint) (index : nat) : result (option RunEvent) :=
  transpose ((fun e => ok_or (event_from_value (ob_event e)) "checkpoint_event_outbox_invalid")
             <$> cp_event_outbox c !! index).

Definition validate_terminal_budget_event_order (c : Checkpoint) (terminal_event_index : nat)
    : result unit :=
  let budget_configured := is_some_and (value_get (cp_run_definition c) "budget_limits")
                                       (fun v => negb (is_null v)) in
  let? next_event := outbox_event_at c (terminal_event_index + 1) in
  let next_is_model_budget := is_some_and next_event is_model_budget_event in
  fail_if (negb (Bool.eqb budget_configured next_is_model_budget)) with status_invalid ;;
  if next_is_model_budget then
    let? duplicate := outbox_event_at c (terminal_event_index + 2) in
    fail_if (is_some_and duplicate is_model_budget_event) with status_invalid ;;
    Ok tt
  else Ok tt.

Definition terminal_usage (ev : RunEvent) : option TokenUsage :=
  match ev_payload ev with
  | ModelCallCompleted _ usage | ModelCallFailed _ _ usage _ => Some usage | _ => None end.

(** The record, the terminal event and the journal tell the same outcome. *)
Definition check_outcome (e : OperationJournalEntry) (record : ModelCallRecord) (ev : RunEvent)
    : result unit :=
  let status_matches :=
    match j_state e with
    | Succeeded => (mc_status record =?? CompletedC) || (mc_status record =?? AmbiguousC)
    | Failed => (mc_status record =?? FailedC) || (mc_status record =?? AmbiguousC)
    | Ambiguous => mc_status record =?? AmbiguousC
    | Planned | Started | Deferred => false
    end in
  let event_type_matches :=
    match mc_status record, ev_payload ev with
    | CompletedC, ModelCallCompleted _ _ => true
    | FailedC, ModelCallFailed _ _ _ _ | AmbiguousC, ModelCallFailed _ _ _ _ => true
    | _, _ => false
    end in
  fail_if (negb status_matches || negb event_type_matches) with status_invalid ;;
  fail_if (terminal_usage ev <>?? Some (mc_usage record)) with status_invalid ;;
  match ev_payload ev with
  | ModelCallFailed _ outcome _ error_code =>
      let expected := if mc_status record =?? AmbiguousC then AmbiguousOutcome else Definitive in
      fail_if ((outcome <>?? expected) || negb (opt_is (mc_error_code record) error_code))
      with status_invalid ;;
      Ok tt
  | _ => Ok tt
  end.

Definition require_model_identity (expected observed : ModelAccountingIdentity) : result unit :=
  fail_if (negb (identity_eqb expected observed)) with status_invalid ;; Ok tt.

(** The tail shared by the settled states: one record, one started and one
    terminal event, all of the same identity and outcome. *)
Definition check_settled (c : Checkpoint) (e : OperationJournalEntry)
    (identity : ModelAccountingIdentity) (records : list ModelCallRecord)
    (started terminals : list Evidence) : result unit :=
  match records, started, terminals with
  | [record], [started_event], [terminal_event] =>
      do? require_model_identity identity (model_record_identity record) ;;
      do? require_model_identity identity (evd_identity started_event) ;;
      do? require_model_identity identity (evd_identity terminal_event) ;;
      do? check_outcome e record (evd_event terminal_event) ;;
      validate_terminal_budget_event_order c (evd_index terminal_event)
  | _, _, _ => Err status_invalid
  end.

Definition validate_model_journal_entry_accounting (c : Checkpoint) (e : OperationJournalEntry)
    : result unit :=
  do? entry_validate e ;;
  let? identity := model_journal_identity e in
  let records := List.filter (fun r => String.eqb (mc_call_id r) (ma_call_id identity)
                   || (String.eqb (mc_operation_id r) (ma_operation_id identity)
                       && (mc_attempt r =? ma_attempt identity)%N)) (cp_model_calls c) in
  let? evidence := collect_evidence identity 0 (cp_event_outbox c) in
  let started := List.filter is_started_event evidence in
  let terminals := List.filter is_terminal_event evidence in
  fail_if ((1 <? length records)%nat || (1 <? length started)%nat || (1 <? length terminals)%nat)
  with status_invalid ;;
  match j_state e with
  | Planned =>
      match records, started, terminals with
      | [], [], [] => Ok tt
      | _, _, _ => Err status_invalid
      end
  | Started =>
      match records, started, terminals with
      | [], [s], [] => require_model_identity identity (evd_identity s)
      | _, _, _ => Err status_invalid
      end
  | Deferred => Err status_invalid
  | Failed =>
      match records, started, terminals with
      | [], [], [] => Ok tt
      | _, _, _ => check_settled c e identity records started terminals
      end
  | Succeeded | Ambiguous => check_settled c e identity records started terminals
  end.

Definition validate_model_journal_accounting (c : Checkpoint) : result unit :=
  try_for_each (fun e =>
    fail_if (j_kind e <>?? Model) with "operation_kind_fields_invalid" ;;
    validate_model_journal_entry_accounting c e) (cp_model_call_journal c).

(** *** Status against journals *)

Definition deferred_entries (c : Checkpoint) : list OperationJournalEntry :=
  List.filter (fun e => j_state e =?? Deferred) (cp_tool_journal c).

Definition check_deferred_entry (c : Checkpoint) (e : OperationJournalEntry) : result unit :=
  match j_deferred_handle e with
  | None => Err status_invalid
  | Some handle =>
      fail_if (negb (String.eqb (h_checkpoint_key handle) (cp_checkpoint_key c))
               || negb (String.eqb (h_operation_id handle) (j_operation_id e))
               || negb (h_attempt handle =? j_attempt e)%N
               || negb (String.eqb (h_request_digest handle) (j_request_digest e)))
      with status_invalid ;;
      Ok tt
  end.

Definition open_state (s : OperationState) : bool :=
  match s with Planned | Started | Deferred | Ambiguous => true | _ => false end.

Definition check_status_journals (c : Checkpoint) : result unit :=
  fail_if ((cp_status c =?? ReconciliationRequiredS)
           && (negb (has_ambiguous_operation c) || is_some (cp_claim_token c)))
  with status_invalid ;;
  fail_if ((cp_status c =?? DeferredS)
           && ((length (deferred_entries c) =? 0)%nat || is_some (cp_claim_token c)))
  with status_invalid ;;
  do? try_for_each (check_deferred_entry c) (deferred_entries c) ;;
  fail_if ((cp_status c =?? RunningS) && has_ambiguous_operation c && is_none (cp_claim_token c))
  with status_invalid ;;
  fail_if (is_some (cp_terminal_result c) && existsb (fun e => open_state (j_state e)) (journals c))
  with status_invalid ;;
  Ok tt.

Definition agent_status_matches_checkpoint (a : AgentStatus) (s : CheckpointStatus) : bool :=
  match a, s with
  | PendingA, PendingS | RunningA, RunningS | WaitUserA, WaitUserS | CompletedA, CompletedS
  | FailedA, FailedS | MaxCyclesA, MaxCyclesS
  | ReconciliationRequiredA, ReconciliationRequiredS | DeferredA, DeferredS
  | HostInteractionA, HostInteractionS => true
  | _, _ => false
  end.

Definition check_terminal_result (c : Checkpoint) : result unit :=
  match cp_terminal_result c with
  | None => Ok tt
  | Some value =>
      do? validate_json value ;;
      let? r := map_err (agent_result_from_dict value) status_invalid in
      fail_if (negb (agent_status_matches_checkpoint (ar_status r) (cp_status c)))
      with status_invalid ;;
      fail_if (is_some_and (ar_checkpoint_key r)
                 (fun key => negb (String.eqb key (cp_checkpoint_key c)))) with status_invalid ;;
      fail_if (tt_model_calls (ar_token_usage r) <>?? cp_model_calls c) with status_invalid ;;
      Ok tt
  end.

Definition validate_checkpoint (c : Checkpoint) : result unit :=
  do? check_records c ;;
  do? check_identity c ;;
  do? check_claim c ;;
  do? check_terminal_status c ;;
  do? check_host_interaction c ;;
  do? check_journals c ;;
  do? check_extensions_and_events c ;;
  do? validate_model_journal_accounting c ;;
  do? try_for_each (fun kv => validate_json kv.2) (cp_shared_state c) ;;
  do? check_status_journals c ;;
  check_terminal_result c.

(** ** Creation *)

Definition has_only_creation_event (c : Checkpoint) : bool :=
  match cp_event_outbox c with
  | [] => true
  | [entry] =>
      String.eqb (ob_state entry) "pending" && is_none (ob_cursor entry)
      && opt_is (get_str (ob_event entry) "type") "checkpoint_created"
      && is_some_and (get_u64 (ob_event entry) "cycle_index") (fun n => (n =? 0)%N)
      && opt_is (get_str (ob_event entry) "checkpoint_key") (cp_checkpoint_key c)
      && is_some_and (get_u64 (ob_event entry) "resume_attempt") (fun n => (n =? 1)%N)
  | _ => false
  end.

Definition validate_checkpoint_creation (c : Checkpoint) : result unit :=
  let invalid := "checkpoint_initial_invalid" in
  do? validate_checkpoint c ;;
  fail_if (negb (cp_revision c =? 0)%N) with invalid ;;
  fail_if (negb (cp_resume_attempt c =? 1)%N) with invalid ;;
  fail_if (cp_history c <>?? history_default) with invalid ;;
  fail_if (is_some (cp_claim_token c) || is_some (cp_claimed_cycle c)
           || is_some (cp_lease_expires_at_ms c)) with invalid ;;
  fail_if (is_terminal (cp_status c) || is_some (cp_terminal_result c)
           || cp_terminal_acknowledged c) with invalid ;;
  fail_if (cp_cancel_requested c || is_some (cp_active_host_interaction c)
           || is_some (cp_suspended_origin c) || is_some (cp_event_cursor c)
           || negb (length (cp_cycles c) =? 0)%nat || negb (length (cp_model_calls c) =? 0)%nat
           || negb (has_only_creation_event c)
           || negb (length (cp_model_call_journal c) =? 0)%nat
           || negb (length (cp_tool_journal c) =? 0)%nat) with invalid ;;
  Ok tt.
End Validation.

(** ** What validation guarantees *)

Lemma distinct_NoDup l : distinct l = true <-> NoDup l.
Proof.
  induction l as [|x l IH]; simpl; [split; [constructor|done]|].
  rewrite andb_true_iff, IH, NoDup_cons, negb_true_iff. split; intros [Hx Hl]; (split; [|done]).
  - intros Hin%list_elem_of_In. apply not_true_iff_false in Hx. apply Hx, existsb_exists.
    exists x. split; [done|apply String.eqb_refl].
  - apply not_true_iff_false. intros (y & Hy & <-%String.eqb_eq)%existsb_exists.
    by apply Hx, list_elem_of_In.
Qed.

Lemma result_unit (r : result unit) u : r = Ok u -> r = Ok tt.
Proof. by destruct u. Qed.

(** The checkpoint as its clients may rely on it. *)
Record checkpoint_wf `{Digest} (c : Checkpoint) : Prop := {
  (** The claim is whole or absent; a claim names the next cycle, is held only
      while the run is pending or running, and never on a finished run. *)
  wf_claim :
    match cp_claim_token c with
    | None => cp_claimed_cycle c = None /\ cp_lease_expires_at_ms c = None
    | Some token =>
        trim_is_empty token = false /\ cp_claimed_cycle c = Some (cp_cycle_index c + 1)%N /\
        (exists lease, cp_lease_expires_at_ms c = Some lease /\ (lease <= MAX_WIRE_INTEGER)%N) /\
        (cp_status c = RunningS \/ cp_status c = PendingS) /\ cp_terminal_result c = None
    end;
  (** A result and a terminal status go together. *)
  wf_terminal : is_some (cp_terminal_result c) = is_terminal (cp_status c);
  wf_acknowledged : cp_terminal_acknowledged c = true -> is_some (cp_terminal_result c) = true;
  (** A finished run has no open operation. *)
  wf_terminal_journals : is_some (cp_terminal_result c) = true ->
    Forall (fun e => closed (j_state e) = true) (journals c);
  (** Identifiers are unique. *)
  wf_outbox : NoDup (map ob_event_id (cp_event_outbox c));
  wf_model_calls : NoDup (map mc_call_id (cp_model_calls c));
  (** Journals belong to the active cycle and to their kind, and are valid. *)
  wf_journals : Forall (fun e => entry_validate e = Ok tt /\ active_cycle c = Ok (j_cycle_index e))
                       (journals c);
  wf_model_kind : Forall (fun e => j_kind e = Model) (cp_model_call_journal c);
  wf_tool_kind : Forall (fun e => j_kind e = Tool) (cp_tool_journal c);
  (** Ambiguity is either under a recovery claim or awaiting a decision. *)
  wf_reconciliation : cp_status c = ReconciliationRequiredS -> has_ambiguous_operation c = true;
  wf_running : cp_status c = RunningS -> has_ambiguous_operation c = true ->
    is_some (cp_claim_token c) = true;
  wf_deferred : cp_status c = DeferredS -> deferred_entries c <> [];
  wf_revision : (cp_revision c <= MAX_WIRE_INTEGER)%N
}.

Section Guarantees.
Context `{Env}.

Lemma validate_parts c :
  validate_checkpoint c = Ok tt <->
  check_records c = Ok tt /\ check_identity c = Ok tt /\ check_claim c = Ok tt /\
  check_terminal_status c = Ok tt /\ check_host_interaction c = Ok tt /\
  check_journals c = Ok tt /\ check_extensions_and_events c = Ok tt /\
  validate_model_journal_accounting c = Ok tt /\
  try_for_each (fun kv => validate_json kv.2) (cp_shared_state c) = Ok tt /\
  check_status_journals c = Ok tt /\ check_terminal_result c = Ok tt.
Proof.
  unfold validate_checkpoint. split.
  - intros Hv.
    repeat match type of Hv with
    | match ?p with Ok _ => _ | Err _ => _ end = _ =>
        let E := fresh "E" in destruct p eqn:E; [apply result_unit in E|discriminate Hv]
    end. by unit_inv.
  - intros (-> & -> & -> & -> & -> & -> & -> & -> & -> & -> & ->). done.
Qed.

Lemma check_outbox_spec seen l :
  check_outbox seen l = Ok tt <->
  Forall (fun e => verify_payload e = Ok tt) l /\
  NoDup (map ob_event_id l) /\ (forall id, id ∈ map ob_event_id l -> id ∉ seen).
Proof.
  revert seen. induction l as [|e l IH]; intros seen; cbn [check_outbox map].
  { split; [|done]. intros _. repeat split; [constructor..|set_solver]. }
  rewrite Forall_cons, NoDup_cons.
  destruct (verify_payload e) as [[]|]; [|split; [done|naive_solver]].
  destruct (existsb (String.eqb (ob_event_id e)) seen) eqn:Hs.
  - apply existsb_exists in Hs as (x & Hx%list_elem_of_In & <-%String.eqb_eq).
    split; [done|]. intros (_ & _ & Hd). exfalso. apply (Hd (ob_event_id e)); set_solver.
  - assert (Hni : ob_event_id e ∉ seen).
    { intros Hin%list_elem_of_In. apply not_true_iff_false in Hs. apply Hs, existsb_exists.
      exists (ob_event_id e). split; [done|apply String.eqb_refl]. }
    rewrite IH. set_solver.
Qed.

Lemma check_claim_wf c :
  check_claim c = Ok tt ->
  match cp_claim_token c with
  | None => cp_claimed_cycle c = None /\ cp_lease_expires_at_ms c = None
  | Some token =>
      trim_is_empty token = false /\ cp_claimed_cycle c = Some (cp_cycle_index c + 1)%N /\
      (exists lease, cp_lease_expires_at_ms c = Some lease /\ (lease <= MAX_WIRE_INTEGER)%N)
  end.
Proof.
  unfold check_claim. intros Hc. destruct (cp_claim_token c), (cp_claimed_cycle c),
    (cp_lease_expires_at_ms c); cbn in Hc; try done.
  result_inv. bool_inv. apply checked_add_Some in Hdo as [-> _]. subst. eauto 10.
Qed.

Lemma check_terminal_status_wf c :
  check_terminal_status c = Ok tt ->
  is_some (cp_terminal_result c) = is_terminal (cp_status c) /\
  (is_some (cp_terminal_result c) = true -> cp_claim_token c = None) /\
  (cp_terminal_acknowledged c = true -> is_some (cp_terminal_result c) = true).
Proof.
  unfold check_terminal_status. intros Hc. result_inv.
  destruct (cp_terminal_result c), (cp_claim_token c), (cp_terminal_acknowledged c),
    (cp_status c); done.
Qed.

Lemma check_host_interaction_wf c :
  check_host_interaction c = Ok tt ->
  (cp_status c = HostInteractionS \/ cp_status c = SuspendedS) -> cp_claim_token c = None.
Proof.
  unfold check_host_interaction. intros Hc Hs. result_inv.
  destruct (cp_claim_token c); [|done]. exfalso.
  destruct Hs as [Hs|Hs]; rewrite Hs in Hc; rewrite !orb_true_r in Hc; done.
Qed.

Lemma check_status_journals_wf c :
  check_status_journals c = Ok tt ->
  (cp_status c = ReconciliationRequiredS ->
     has_ambiguous_operation c = true /\ cp_claim_token c = None) /\
  (cp_status c = DeferredS -> deferred_entries c <> [] /\ cp_claim_token c = None) /\
  (cp_status c = RunningS -> has_ambiguous_operation c = true -> is_some (cp_claim_token c) = true) /\
  (is_some (cp_terminal_result c) = true ->
     Forall (fun e => closed (j_state e) = true) (journals c)) /\
  Forall (fun e => check_deferred_entry c e = Ok tt) (deferred_entries c).
Proof.
  unfold check_status_journals. intros Hc. result_inv. apply result_unit in Hdo.
  apply try_for_each_Ok in Hdo.
  split; [|split; [|split; [|split; [|done]]]].
  - intros Hs. rewrite (bool_decide_eq_true_2 _ Hs) in Hif. cbn [andb] in Hif. by bool_inv.
  - intros Hs. rewrite (bool_decide_eq_true_2 _ Hs) in Hif0. cbn [andb] in Hif0. bool_inv.
    split; [|done]. intros Hd. by rewrite Hd in *.
  - intros Hs Ha. rewrite (bool_decide_eq_true_2 _ Hs), Ha in Hif1. cbn [andb] in Hif1. by bool_inv.
  - intros Ht. rewrite Ht in Hif2. cbn [andb] in Hif2. apply Forall_forall. intros e He%list_elem_of_In.
    destruct (closed (j_state e)) eqn:Hcl; [done|]. apply not_true_iff_false in Hif2.
    exfalso. apply Hif2, existsb_exists. exists e. split; [done|]. by destruct (j_state e).
Qed.

Lemma check_journals_wf c :
  check_journals c = Ok tt ->
  NoDup (map mc_call_id (cp_model_calls c)) /\
  Forall (fun e => entry_validate e = Ok tt /\ active_cycle c = Ok (j_cycle_index e) /\
                   check_closed_tool c e = Ok tt) (journals c) /\
  Forall (fun e => j_kind e = Model) (cp_model_call_journal c) /\
  Forall (fun e => j_kind e = Tool) (cp_tool_journal c).
Proof.
  unfold check_journals. intros Hc. result_inv. apply negb_false_iff, distinct_NoDup in Hif.
  apply result_unit, try_for_each_Ok in Hdo0. apply orb_false_iff in Hif0 as [Hm Ht].
  assert (Hk : forall k l, existsb (fun e => j_kind e <>?? k) l = false ->
                           Forall (fun e => j_kind e = k) l).
  { intros k l Hex. apply Forall_forall. intros e He%list_elem_of_In.
    destruct (decide (j_kind e = k)) as [|Hne]; [done|]. exfalso.
    apply not_true_iff_false in Hex. apply Hex, existsb_exists. exists e. split; [done|].
    by rewrite bool_decide_eq_false_2. }
  split; [done|]. split; [|split; [apply Hk, Hm|apply Hk, Ht]].
  eapply Forall_impl; [exact Hdo0|]. intros e He. unfold check_journal_entry in He.
  result_inv. bool_inv. subst. by unit_inv.
Qed.

Lemma validate_wf c : validate_checkpoint c = Ok tt -> checkpoint_wf c.
Proof.
  intros (Hrec & Hid & Hclaim & Hterm & Hhost & Hj & Hext & Hacc & _ & Hst & _)%validate_parts.
  apply check_claim_wf in Hclaim. apply check_terminal_status_wf in Hterm as (Ht1 & Ht2 & Ht3).
  pose proof (check_host_interaction_wf c Hhost) as Hh.
  apply check_status_journals_wf in Hst as (Hr & Hd & Hrun & Htj & _).
  apply check_journals_wf in Hj as (Hmc & Hje & Hmk & Htk).
  constructor; try done.
  - destruct (cp_claim_token c) as [token|] eqn:Hct; [|done].
    destruct Hclaim as (H1 & H2 & H3). repeat split; try done.
    + destruct (cp_terminal_result c) eqn:Htr; [by specialize (Ht2 eq_refl)|].
      destruct (cp_status c); try done; try (by left); try (by right); exfalso.
      * by destruct Hd.
      * specialize (Hh (or_introl eq_refl)). congruence.
      * specialize (Hh (or_intror eq_refl)). congruence.
      * by destruct Hr.
    + destruct (cp_terminal_result c); [by specialize (Ht2 eq_refl)|done].
  - unfold check_extensions_and_events in Hext. result_inv.
    by apply check_outbox_spec in Hext as (_ & ? & _).
  - eapply Forall_impl; [exact Hje|]. naive_solver.
  - intros. by apply Hr.
  - intros. by apply Hd.
  - unfold check_identity in Hid. result_inv. by bool_inv.
Qed.

(** The evidence about an attempt comes from the outbox. *)
Lemma collect_evidence_elem identity n l evidence :
  collect_evidence identity n l = Ok evidence ->
  Forall (fun x => exists i entry, evd_index x = (n + i)%nat /\ l !! i = Some entry /\
            event_from_value (ob_event entry) = Some (evd_event x) /\
            model_event_identity (evd_event x) = Some (evd_identity x)) evidence.
Proof.
  revert n evidence. induction l as [|entry l IH]; intros n evidence Hc; cbn [collect_evidence] in Hc.
  { result_inv. constructor. }
  assert (Hshift : forall more, collect_evidence identity (S n) l = Ok more ->
    Forall (fun x => exists i entry', evd_index x = (n + i)%nat /\
              (entry :: l) !! i = Some entry' /\
              event_from_value (ob_event entry') = Some (evd_event x) /\
              model_event_identity (evd_event x) = Some (evd_identity x)) more).
  { intros more Hm. eapply Forall_impl; [exact (IH _ _ Hm)|].
    intros x (i & e & Hi & He & Hr). exists (S i), e. split; [lia|done]. }
  result_inv; [|by apply Hshift..].
  constructor; [|by apply Hshift]. exists 0%nat, entry. cbn. split; [lia|done].
Qed.

Definition same_call (identity : ModelAccountingIdentity) (r : ModelCallRecord) : bool :=
  String.eqb (mc_call_id r) (ma_call_id identity)
  || (String.eqb (mc_operation_id r) (ma_operation_id identity)
      && (mc_attempt r =? ma_attempt identity)%N).

Lemma identity_eqb_eq a b : identity_eqb a b = true -> a = b.
Proof.
  destruct a, b. unfold identity_eqb. cbn. intros. bool_inv. by subst.
Qed.

Lemma check_settled_spec c e identity records started terminals :
  check_settled c e identity records started terminals = Ok tt ->
  exists record s t, records = [record] /\ started = [s] /\ terminals = [t] /\
    model_record_identity record = identity /\ evd_identity s = identity /\
    evd_identity t = identity /\ terminal_usage (evd_event t) = Some (mc_usage record).
Proof.
  unfold check_settled. intros Hc.
  destruct records as [|record []], started as [|s []], terminals as [|t []]; try done.
  unfold require_model_identity, check_outcome in Hc. result_inv. bool_inv.
  exists record, s, t. repeat split; try done; symmetry; by apply identity_eqb_eq.
Qed.

Lemma settled_accounted c e :
  validate_model_journal_entry_accounting c e = Ok tt ->
  j_state e = Succeeded \/ j_state e = Ambiguous ->
  exists identity record i entry ev,
    model_journal_identity e = Ok identity /\
    List.filter (same_call identity) (cp_model_calls c) = [record] /\
    model_record_identity record = identity /\
    cp_event_outbox c !! i = Some entry /\ event_from_value (ob_event entry) = Some ev /\
    model_event_identity ev = Some identity /\ terminal_usage ev = Some (mc_usage record).
Proof.
  unfold validate_model_journal_entry_accounting. intros Hv Hs. result_inv.
  apply collect_evidence_elem in Hdo1.
  assert (Hset : check_settled c e a0 (List.filter (same_call a0) (cp_model_calls c))
                   (List.filter is_started_event a1) (List.filter is_terminal_event a1) = Ok tt)
    by (destruct Hs as [Hs|Hs]; rewrite Hs in Hv; exact Hv).
  apply check_settled_spec in Hset as (record & s & t & Hr & _ & Ht & Hri & _ & Hti & Hu).
  assert (Hin : t ∈ a1).
  { apply list_elem_of_In, (List.filter_In is_terminal_event). rewrite Ht. by left. }
  rewrite Forall_forall in Hdo1. destruct (Hdo1 t Hin) as (i & entry & _ & He & Hev & Hid).
  exists a0, record, i, entry, (evd_event t). subst a0. by rewrite Hid, Hti.
Qed.
End Guarantees.

(** ** Succession

    What every transition of the kernel promises its caller: the new
    checkpoint is valid, carries the next revision, and belongs to the same
    run. *)

Definition run_identity (c : Checkpoint) :=
  (cp_schema_version c, cp_run_definition_schema c, cp_run_definition c, cp_checkpoint_key c,
   cp_task_id c, cp_root_run_id c, cp_trace_id c, cp_run_definition_digest c).

Record advances `{Env} (c c' : Checkpoint) : Prop := {
  adv_valid : validate_checkpoint c' = Ok tt;
  adv_revision : cp_revision c' = (cp_revision c + 1)%N;
  adv_identity : run_identity c' = run_identity c
}.

(** ** Properties *)

(** (C5) What validation establishes.  A checkpoint that passes
    [validate_checkpoint] has a claim that is whole or absent, names the next
    cycle and is held only by a run that is still open; a result exactly when
    its status is terminal, and then no open operation; unique event and call
    identifiers; journals of the active cycle whose entries are themselves
    valid and of the right kind; and an ambiguous operation only under a claim
    or while reconciliation is required. *)
Theorem validate_checkpoint_sound `{Env} (c : Checkpoint) :
  validate_checkpoint c = Ok tt -> checkpoint_wf c.
Proof. apply validate_wf. Qed.


(** ** A concrete environment and checkpoint *)

Definition toy_text : JsonText := 
  {| json_from_str := fun _ => None; json_error_text := fun _ => EmptyString;
     json_to_string := fun _ => EmptyString |}.
Definition toy_definition : RunDefinitionRules :=
  {| validate_run_definition := fun _ => Ok tt;
     run_definition_digest := @sha256_canonical toy_digest |}.
(** A result as the runner reports it, with its ledger of model calls. *)
Definition sample_agent_result (status : AgentStatus) (error : option AgentResultError)
    (calls : list ModelCallRecord) : AgentResult :=
  {| ar_status := status; ar_messages := []; ar_cycles := []; ar_completion_reason := None;
     ar_completion_tool_name := None; ar_partial_output := None; ar_budget_usage := None;
     ar_budget_exhaustion := None; ar_checkpoint_key := None; ar_resume_observations := [];
     ar_final_answer := None; ar_wait_reason := None; ar_error := error; ar_error_code := None;
     ar_shared_state := [];
     ar_token_usage := match summarize_task_token_usage calls with
                       | Ok t => t | Err _ => task_usage_default end |}.
Definition toy_env : Env :=
  {| env_digest := toy_digest; env_text := toy_text; env_reader := toy_reader;
     env_definition := toy_definition |}.

Definition ok_value {A} (d : A) (r : result A) : A := match r with Ok a => a | Err _ => d end.

Definition sample_record : ModelCallRecord := sample_call "call_m" sample_usage.
Definition sample_payload : ModelCallPayload :=
  {| mp_call_id := "call_m"; mp_operation_id := "op"; mp_attempt := 1; mp_operation := AgentCycle;
     mp_backend := "b"; mp_model := "m" |}.
Definition sample_model_events : list EventOutboxEntry :=
  map (fun '(id, p) =>
         ok_value sample_entry (@outbox_pending toy_digest toy_reader id
           (event_to_value (event_new id "run" "trace" "task" (Some 1%N) (PosInt 7) p))))
    [("evt_model_started", ModelCallStarted sample_payload);
     ("evt_model_completed", ModelCallCompleted sample_payload (mc_usage sample_record))].

(** An entry with its response set. *)
Definition sample_model_entry : OperationJournalEntry :=
  {| j_kind := Model; j_operation_id := "op"; j_cycle_index := 1; j_attempt := 1;
     j_state := Succeeded; j_request_digest := sample_digest; j_idempotency_key := None;
     j_identity_key := None; j_result_digest := None; j_response := Some (Object []);
     j_error := None; j_tool_call_id := None; j_tool_name := None; j_arguments := None;
     j_idempotency_support := None; j_result := None; j_deferred_handle := None;
     j_resume_observation := None; j_model_operation := Some AgentCycle; j_backend := Some "b";
     j_model := Some "m"; j_call_id := Some "call_m" |}.

Definition sample_identity : Checkpoint :=
  {| cp_schema_version := CHECKPOINT_SCHEMA; cp_run_definition_schema := RUN_DEFINITION_SCHEMA;
     cp_run_definition := Object []; cp_checkpoint_key := "key"; cp_task_id := "task";
     cp_root_run_id := "run"; cp_trace_id := "trace";
     cp_run_definition_digest :=
       ok_value EmptyString (@run_definition_digest toy_definition (Object []));
     cp_resume_attempt := 1; cp_cycle_index := 0; cp_status := RunningS;
     cp_cancel_requested := false; cp_active_host_interaction := None;
     cp_suspended_origin := None; cp_messages := []; cp_cycles := []; cp_model_calls := [];
     cp_history := history_default; cp_shared_state := []; cp_budget_usage := None;
     cp_event_cursor := None; cp_event_outbox := []; cp_extension_state := [];
     cp_model_call_journal := []; cp_tool_journal := []; cp_revision := 0;
     cp_claim_token := None; cp_claimed_cycle := None; cp_lease_expires_at_ms := None;
     cp_terminal_result := None; cp_terminal_acknowledged := false |}.

(** A claimed first cycle: the model call has settled, one tool call has
    started. *)
Definition sample_started_tool : OperationJournalEntry :=
  set_state Started (tool_entry "op_t" 1 1 sample_digest "call_1" "read_file" [] (Some "idem") Supported).
Definition sample_checkpoint : Checkpoint :=
  set_revision
    (set_tool_journal
       (set_model_call_journal
          (set_event_outbox
             (set_model_calls (set_claim sample_identity (Some "owner") (Some 1%N) (Some 1000%N))
                [sample_record])
             sample_model_events)
          [sample_model_entry])
       [sample_started_tool])
    3.

Lemma validate_checkpoint_sound_witness :
  @validate_checkpoint toy_env sample_checkpoint = Ok tt /\
  @checkpoint_wf toy_digest sample_checkpoint.
Proof.
  assert (Hv : @validate_checkpoint toy_env sample_checkpoint = Ok tt) by (vm_compute; reflexivity).
  split; [exact Hv|]. exact (@validate_checkpoint_sound toy_env sample_checkpoint Hv).
Defined.

