(* ===== verification/RunDefinition.v ===== *)
(** * Run definitions

    [checkpoint/canonical/run_definition.rs] and its [normalization.rs]: the
    frozen description of a run a checkpoint carries.  The validator accepts
    only the complete current shape, with credentials redacted and sets in
    order; the normaliser brings a definition into that shape.  The component
    discharges what the checkpoint kernel asks of run definitions. *)

From Stdlib Require Import Ascii String NArith ZArith Sorted Lia.
From stdpp Require Import base strings list sets relations.
From S2P Require Import Prelude Json Canonical CheckpointTypes ToolResult Journal TokenUsage Budget.
From S2P Require Import BudgetWire Records ResultCodec Events HostInteraction Checkpoint.
From S2P Require Import ToolPolicy Settings Prompt.

Definition CREDENTIAL_REDACTED : string := "<credential-redacted>".
Definition definition_invalid : string := "checkpoint_definition_invalid".

(** ** Shape checks *)

Definition require_string (o : option Value) : result string :=
  ok_or (o ≫= as_str) definition_invalid.
Definition require_non_empty_string (o : option Value) : result string :=
  let? value := require_string o in
  fail_if (trim_is_empty value) with definition_invalid ;;
  Ok value.
Definition require_object (o : option Value) : result object :=
  ok_or (o ≫= as_object) definition_invalid.
Definition require_array (o : option Value) : result (list Value) :=
  ok_or (o ≫= as_array) definition_invalid.
Definition require_closed_object (o : option Value) (allowed required : list string)
    : result object :=
  let? m := require_object o in
  fail_if (existsb (fun field => negb (map_contains_key field m)) required
           || existsb (fun field => negb (contains allowed field)) (map_keys m))
  with definition_invalid ;;
  Ok m.
Definition require_exact_fields (m : object) (fields : list string) : result unit :=
  fail_if (negb (has_exactly fields m)) with definition_invalid ;; Ok tt.

Definition is_boolean (v : Value) : bool := match v with Bool _ => true | _ => false end.
Definition one_of (o : option Value) (names : list string) : bool :=
  is_some_and (o ≫= as_str) (contains names).

Definition validate_optional_object_or_null (o : option Value) : result unit :=
  fail_if (is_some_and o (fun v => negb (is_object v) && negb (is_null v)))
  with definition_invalid ;; Ok tt.
Definition validate_ref_value (v : Value) : result unit :=
  let? m := require_object (Some v) in
  fail_if (negb (map_len m =? 2)%N || negb (map_contains_key "id" m)
           || negb (map_contains_key "version" m)) with "checkpoint_capability_ref_invalid" ;;
  do? require_non_empty_string (map_get "id" m) ;;
  do? require_non_empty_string (map_get "version" m) ;;
  Ok tt.
Definition validate_optional_ref (o : option Value) : result unit :=
  match o with
  | None => Err definition_invalid
  | Some Null => Ok tt
  | Some v => validate_ref_value v
  end.
Definition validate_optional_positive_number (o : option Value) : result unit :=
  match o with
  | None => Err definition_invalid
  | Some Null => Ok tt
  | Some v =>
      fail_if (is_none_or (as_f64 v) (fun x => negb (f64_is_finite x) || f64_le x f64_zero))
      with definition_invalid ;; Ok tt
  end.

(** [validate_sorted_unique_strings]: strictly increasing in UTF-16 order. *)
Fixpoint sorted_unique (previous : option string) (values : list Value) : result (list string) :=
  match values with
  | [] => Ok []
  | v :: rest =>
      let? s := require_non_empty_string (Some v) in
      fail_if (is_some_and previous (fun p => negb (match utf16_cmp p s with Lt => true | _ => false end)))
      with definition_invalid ;;
      let? more := sorted_unique (Some s) rest in
      Ok (s :: more)
  end.
Definition validate_sorted_unique_strings (o : option Value) : result (list string) :=
  let? values := require_array o in
  sorted_unique None values.

(** ** Sections of a definition *)

Definition validate_agent (o : option Value) : result unit :=
  let? m := require_closed_object o ["name"; "type"] ["name"; "type"] in
  do? require_non_empty_string (map_get "name" m) ;;
  match get_non_null m "type" with
  | Some v => do? require_non_empty_string (Some v) ;; Ok tt
  | None => Ok tt
  end.

Section Messages.
Context `{JsonText}.

Definition validate_initial_tool_call (v : Value) : result unit :=
  let? m := require_closed_object (Some v) ["id"; "type"; "function"; "extra_content"]
              ["id"; "type"; "function"] in
  do? require_non_empty_string (map_get "id" m) ;;
  fail_if (negb (opt_is (map_get "type" m ≫= as_str) "function")) with definition_invalid ;;
  let? function := require_closed_object (map_get "function" m) ["name"; "arguments"]
                     ["name"; "arguments"] in
  do? require_non_empty_string (map_get "name" function) ;;
  let? arguments := require_string (map_get "arguments" function) in
  let? decoded := ok_or (json_from_str arguments) definition_invalid in
  fail_if (negb (is_object decoded)) with definition_invalid ;;
  match map_get "extra_content" m with
  | Some v => do? require_object (Some v) ;; Ok tt
  | None => Ok tt
  end.

Definition message_fields : list string :=
  ["role"; "content"; "name"; "tool_call_id"; "tool_calls"; "reasoning_content"; "image_url";
   "metadata"; "artifact_ref"].
Definition validate_initial_message (message : Value) : result unit :=
  let? m := require_closed_object (Some message) message_fields ["role"; "content"] in
  fail_if (negb (one_of (map_get "role" m) ["system"; "user"; "assistant"; "tool"]))
  with definition_invalid ;;
  do? require_string (map_get "content" m) ;;
  do? try_for_each (fun field =>
        if map_contains_key field m then do? require_string (map_get field m) ;; Ok tt else Ok tt)
        ["name"; "tool_call_id"; "reasoning_content"; "image_url"] ;;
  do? match map_get "metadata" m with
      | Some v => do? require_object (Some v) ;; Ok tt
      | None => Ok tt
      end ;;
  do? match map_get "artifact_ref" m with
      | Some v =>
          let? artifact := ok_or (artifact_from_value v) definition_invalid in
          map_err (artifact_validate artifact) definition_invalid
      | None => Ok tt
      end ;;
  match map_get "tool_calls" m with
  | Some v =>
      let? calls := require_array (Some v) in
      try_for_each validate_initial_tool_call calls
  | None => Ok tt
  end.
Definition validate_initial_messages (o : option Value) : result unit :=
  let? messages := require_array o in
  try_for_each validate_initial_message messages.
End Messages.

Definition model_fields : list string :=
  ["backend"; "model_id"; "settings"; "transport_timeout_seconds"].
Definition validate_model `{Digest} (o : option Value) : result unit :=
  let? m := require_closed_object o model_fields model_fields in
  do? require_non_empty_string (map_get "backend" m) ;;
  do? require_non_empty_string (map_get "model_id" m) ;;
  let? settings := require_object (map_get "settings" m) in
  fail_if (map_contains_key "timeout_seconds" settings) with definition_invalid ;;
  let? parsed := ok_or (settings_from_value (Object settings)) definition_invalid in
  do? map_err (settings_validate parsed) definition_invalid ;;
  let? parsed_bytes := canonical_json_bytes (settings_to_value parsed) in
  let? source_bytes := canonical_json_bytes (Object settings) in
  fail_if (negb (String.eqb parsed_bytes source_bytes)) with definition_invalid ;;
  validate_optional_positive_number (map_get "transport_timeout_seconds" m).

Definition control_fields : list string :=
  ["max_cycles"; "max_handoffs"; "no_tool_policy"; "session_memory_enabled";
   "memory_compact_threshold"; "memory_threshold_percentage"; "microcompaction_policy";
   "allow_interruption"; "native_multimodal"; "tool_use_behavior"; "stop_at_tool_names"].
(** A blank, repeated or non-string stop name. *)
Fixpoint stop_names_ok (seen : list string) (names : list Value) : bool :=
  match names with
  | [] => true
  | v :: rest =>
      match as_str v with
      | Some name => if trim_is_empty name || contains seen name then false
                     else stop_names_ok (name :: seen) rest
      | None => false
      end
  end.
Definition validate_runtime_controls (controls : object) : result unit :=
  fail_if (negb (has_exactly control_fields controls)) with definition_invalid ;;
  fail_if (is_none_or (map_get "max_cycles" controls ≫= as_u64)
             (fun n => negb ((1 <=? n)%N && (n <=? U32_MAX)%N))) with definition_invalid ;;
  fail_if (is_none_or (map_get "max_handoffs" controls ≫= as_u64) (fun n => (U32_MAX <? n)%N))
  with definition_invalid ;;
  fail_if (negb (one_of (map_get "no_tool_policy" controls) ["continue"; "wait_user"; "finish"]))
  with definition_invalid ;;
  do? try_for_each (fun field =>
        fail_if (is_none (map_get field controls ≫= as_bool)) with definition_invalid ;; Ok tt)
        ["session_memory_enabled"; "allow_interruption"; "native_multimodal"] ;;
  fail_if (is_none (map_get "memory_compact_threshold" controls ≫= as_u64))
  with definition_invalid ;;
  fail_if (is_none_or (map_get "memory_threshold_percentage" controls ≫= as_u64)
             (fun n => (255 <? n)%N)) with definition_invalid ;;
  let? policy_value := ok_or (map_get "microcompaction_policy" controls) definition_invalid in
  let? policy := ok_or (microcompaction_from_value policy_value) definition_invalid in
  fail_if (microcompaction_to_value policy <>?? policy_value) with definition_invalid ;;
  fail_if (negb (one_of (map_get "tool_use_behavior" controls)
                   ["run_llm_again"; "stop_on_first_tool"; "stop_at_tool_names"]))
  with definition_invalid ;;
  let? stop_names := require_array (map_get "stop_at_tool_names" controls) in
  fail_if (negb (stop_names_ok [] stop_names)) with definition_invalid ;;
  Ok tt.

Definition validate_capability_refs (o : option Value) : result unit :=
  let? m := require_object o in
  try_for_each (fun '(slot, reference) =>
    do? validate_capability_slot slot ;;
    let? r := require_closed_object (Some reference) ["id"; "version"] ["id"; "version"] in
    do? require_non_empty_string (map_get "id" r) ;;
    do? require_non_empty_string (map_get "version" r) ;;
    Ok tt) m.

(** The namespaces strictly increase in byte order. *)
Definition validate_extension_def (previous : option string) (extension : Value)
    : result (option string) :=
  let? m := require_object (Some extension) in
  do? require_exact_fields m ["namespace"; "version"; "required"] ;;
  let? namespace := require_string (map_get "namespace" m) in
  do? validate_extension_namespace namespace ;;
  do? require_non_empty_string (map_get "version" m) ;;
  fail_if (negb (is_some_and (map_get "required" m) is_boolean)) with definition_invalid ;;
  fail_if (is_some_and previous (fun p =>
             match String.compare p namespace with Lt => false | _ => true end))
  with definition_invalid ;;
  Ok (Some namespace).
Definition validate_extensions (o : option Value) : result unit :=
  let? extensions := require_array o in
  do? try_fold validate_extension_def None extensions ;;
  Ok tt.

Definition validate_approval (approval : object) : result unit :=
  let mode := map_get "mode" approval ≫= as_str in
  if opt_is mode "static" then
    do? require_exact_fields approval ["mode"; "required"] ;;
    fail_if (negb (is_some_and (map_get "required" approval) is_boolean)) with definition_invalid ;;
    Ok tt
  else if opt_is mode "referenced" then
    do? require_exact_fields approval ["mode"; "ref"] ;;
    let? ref := ok_or (map_get "ref" approval) definition_invalid in
    validate_ref_value ref
  else Err definition_invalid.

Definition tool_fields : list string := ["schema"; "tool_metadata"; "timeout_seconds"; "approval"].
(** The metadata as its reader normalises it; [null] stays. *)
Definition normalized_metadata (metadata : Value) : result Value :=
  if is_null metadata then Ok Null
  else let? m := ok_or (metadata_from_value metadata) definition_invalid in
       Ok (metadata_to_value m).
Definition validate_tool_definition (tool : Value) : result unit :=
  let? m := require_object (Some tool) in
  fail_if (negb (has_exactly tool_fields m)) with definition_invalid ;;
  let? schema := require_closed_object (map_get "schema" m) ["type"; "function"]
                   ["type"; "function"] in
  fail_if (negb (opt_is (map_get "type" schema ≫= as_str) "function")) with definition_invalid ;;
  let? function := require_closed_object (map_get "function" schema)
                     ["name"; "description"; "parameters"; "strict"]
                     ["name"; "description"; "parameters"] in
  do? require_non_empty_string (map_get "name" function) ;;
  do? require_string (map_get "description" function) ;;
  do? require_object (map_get "parameters" function) ;;
  fail_if (is_some_and (map_get "strict" function) (fun v => negb (is_boolean v)))
  with definition_invalid ;;
  let? metadata := ok_or (map_get "tool_metadata" m) definition_invalid in
  let? normalized := normalized_metadata metadata in
  fail_if (normalized <>?? metadata) with definition_invalid ;;
  do? validate_optional_positive_number (map_get "timeout_seconds" m) ;;
  let? approval := require_object (map_get "approval" m) in
  validate_approval approval.
Definition validate_tool_definitions (o : option Value) : result unit :=
  let? tools := require_array o in
  try_for_each validate_tool_definition tools.

Definition validate_checkpoint_policy (o : option Value) : result unit :=
  let? m := require_object o in
  do? require_exact_fields m
        ["ambiguous_model_policy"; "ambiguous_tool_policy"; "max_extension_state_bytes"] ;;
  fail_if (negb (one_of (map_get "ambiguous_model_policy" m)
                   ["require_reconciliation"; "retry_with_duplicate_risk"]))
  with definition_invalid ;;
  fail_if (negb (one_of (map_get "ambiguous_tool_policy" m)
                   ["require_reconciliation"; "retry_idempotent_only"; "surface_to_model"]))
  with definition_invalid ;;
  let? max := ok_or (map_get "max_extension_state_bytes" m) definition_invalid in
  let? max := ok_or (as_u64 max) "checkpoint_definition_not_i_json" in
  fail_if (MAX_WIRE_INTEGER <? max)%N with "checkpoint_definition_not_i_json" ;;
  Ok tt.

Definition budget_limit_fields : list string :=
  ["max_total_tokens"; "max_uncached_input_tokens"; "max_tool_calls"; "max_tool_calls_by_name";
   "max_wall_time_ms"; "max_host_cost"; "unavailable_metric_policy"].
Definition validate_budget_limits (o : option Value) : result unit :=
  match o with
  | None => Err definition_invalid
  | Some Null => Ok tt
  | Some v =>
      let? m := require_closed_object (Some v) budget_limit_fields budget_limit_fields in
      do? match get_non_null m "max_host_cost" with
          | Some cost =>
              do? require_closed_object (Some cost) ["unit"; "amount_microunits"; "currency"]
                    ["unit"; "amount_microunits"; "currency"] ;;
              Ok tt
          | None => Ok tt
          end ;;
      let? parsed := ok_or (limits_from_value v) definition_invalid in
      fail_if (limits_to_value parsed <>?? v) with definition_invalid ;;
      Ok tt
  end.

(** *** Credentials *)

Definition utf16_lt (a b : string) : bool := match utf16_cmp a b with Lt => true | _ => false end.
(** [windows(2)]: every slot is below the next. *)
Fixpoint slots_sorted (slots : list string) : bool :=
  match slots with
  | a :: ((b :: _) as rest) => utf16_lt a b && slots_sorted rest
  | _ => true
  end.
Definition validate_credential_slot (definition : Value) (slot : Value) : result string :=
  let? slot := ok_or (as_str slot) "checkpoint_credential_slots_invalid" in
  do? validate_pointer slot ;;
  let? resolved := resolve_json_pointer definition slot in
  fail_if (negb (opt_is (as_str resolved) CREDENTIAL_REDACTED))
  with "checkpoint_credential_value_not_redacted" ;;
  Ok slot.
Definition validate_credential_slots (definition : Value) (slots : list Value) : result unit :=
  let? validated := collect (validate_credential_slot definition) slots in
  fail_if (negb (slots_sorted validated)) with "checkpoint_credential_slots_invalid" ;;
  Ok tt.

Definition header_map (model : option Value) : option object :=
  m ← model ≫= as_object;
  settings ← map_get "settings" m ≫= as_object;
  map_get "extra_headers" settings ≫= as_object.
Definition header_collision : string := "checkpoint_definition_header_collision".
Definition validate_header_names (model : option Value) : result unit :=
  match header_map model with
  | None => Ok tt
  | Some headers =>
      do? try_fold (fun seen name =>
            let lower := to_ascii_lowercase name in
            fail_if (contains seen lower) with header_collision ;;
            Ok (lower :: seen)) [] (map_keys headers) ;;
      Ok tt
  end.

(** ** Normalising *)

(** [object.get_mut(key)]: the change is applied to the value there. *)
Definition update_key (m : object) (key : string) (f : Value -> result Value) : result object :=
  match map_get key m with
  | None => Ok m
  | Some v => let? v' := f v in Ok (map_insert key v' m)
  end.
Definition update_object (f : object -> result object) (v : Value) : result Value :=
  match v with Object m => let? m' := f m in Ok (Object m') | _ => Ok v end.
Definition update_array (f : list Value -> result (list Value)) (v : Value) : result Value :=
  match v with Array l => let? l' := f l in Ok (Array l') | _ => Ok v end.

Definition lower_headers (headers : object) : result object :=
  try_fold (fun normalized '(name, value) =>
    let lower := to_ascii_lowercase name in
    fail_if (map_contains_key lower normalized) with header_collision ;;
    Ok (map_insert lower value normalized)) [] headers.
Definition normalize_headers : Value -> result Value :=
  update_object (fun model => update_key model "settings"
    (update_object (fun settings => update_key settings "extra_headers"
      (update_object lower_headers)))).

Definition normalize_tool_definition (tool : Value) : result Value :=
  let? m := ok_or (as_object tool) definition_invalid in
  let? metadata := ok_or (map_get "tool_metadata" m) definition_invalid in
  let? normalized := normalized_metadata metadata in
  Ok (Object (map_insert "tool_metadata" normalized m)).
Definition normalize_tool_definitions : Value -> result Value :=
  update_array (collect normalize_tool_definition).

Definition sort_names (values : list Value) : result (list Value) :=
  let? strings := collect (fun v => ok_or (as_str v) definition_invalid) values in
  Ok (map Str (dedup (stable_sort utf16_leb strings))).
Definition denial_keys : list string :=
  ["denied_side_effects"; "denied_capability_tags"; "deny_terminal_tools"; "denied_cost_dimensions"].
(** [.cloned().map(from_value).transpose()?.unwrap_or_default()]. *)
Definition read_denials {A} (decode : Value -> option (list A)) (m : object) (key : string)
    : result (list A) :=
  match map_get key m with
  | None => Ok []
  | Some v => ok_or (decode v) definition_invalid
  end.
Definition insert_present (m : object) (key : string) (v : Value) (acc : object) : object :=
  if map_contains_key key m then map_insert key v acc else acc.
Definition normalize_denials (m : object) : result object :=
  if existsb (fun key => map_contains_key key m) denial_keys then
    let? effects := read_denials side_effects_from_value m "denied_side_effects" in
    let? tags := read_denials strings_from_value m "denied_capability_tags" in
    let? terminal := match map_get "deny_terminal_tools" m with
                     | Some (Bool b) => Ok b
                     | Some _ => Err definition_invalid
                     | None => Ok false
                     end in
    let? costs := read_denials strings_from_value m "denied_cost_dimensions" in
    let? normalized := map_err (policy_normalized
                         (with_denials policy_default effects tags terminal costs))
                         definition_invalid in
    Ok (insert_present m "denied_cost_dimensions"
          (strings_to_value (tp_denied_cost_dimensions normalized))
       (insert_present m "deny_terminal_tools" (Bool (tp_deny_terminal_tools normalized))
       (insert_present m "denied_capability_tags"
          (strings_to_value (tp_denied_capability_tags normalized))
       (insert_present m "denied_side_effects"
          (side_effects_to_value (tp_denied_side_effects normalized)) m))))
  else Ok m.
Definition normalize_tool_policy : Value -> result Value :=
  update_object (fun policy =>
    let? policy := update_key policy "allowed_tools" (update_array sort_names) in
    let? policy := update_key policy "disallowed_tools" (update_array sort_names) in
    normalize_denials policy).

(** [sort_by] on the namespace, absent ones first, in byte order. *)
Definition namespace_leb (a b : Value) : bool :=
  match get_str a "namespace", get_str b "namespace" with
  | None, _ => true
  | Some _, None => false
  | Some x, Some y => match String.compare x y with Gt => false | _ => true end
  end.
Definition normalize_extensions : Value -> result Value :=
  update_array (fun l => Ok (stable_sort namespace_leb l)).

Definition tool_policy_fields : list string :=
  ["allowed_tools"; "disallowed_tools"; "approval"; "predicate_ref"; "approval_timeout_seconds";
   "denied_side_effects"; "denied_capability_tags"; "deny_terminal_tools";
   "denied_cost_dimensions"].
Definition validate_tool_policy (o : option Value) : result unit :=
  let? m := require_object o in
  do? require_exact_fields m tool_policy_fields ;;
  do? match get_non_null m "allowed_tools" with
      | Some v => do? validate_sorted_unique_strings (Some v) ;; Ok tt
      | None => Ok tt
      end ;;
  do? validate_sorted_unique_strings (map_get "disallowed_tools" m) ;;
  do? match get_non_null m "predicate_ref" with
      | Some v => validate_ref_value v
      | None => Ok tt
      end ;;
  fail_if (negb (one_of (map_get "approval" m) ["default"; "always"; "never"; "on_request"]))
  with definition_invalid ;;
  do? validate_optional_positive_number (map_get "approval_timeout_seconds" m) ;;
  let? effects := validate_sorted_unique_strings (map_get "denied_side_effects" m) in
  fail_if (existsb (fun s => negb (contains
             ["unknown"; "none"; "read"; "write"; "execute"; "network"; "external"] s)) effects)
  with definition_invalid ;;
  do? validate_sorted_unique_strings (map_get "denied_capability_tags" m) ;;
  fail_if (negb (is_some_and (map_get "deny_terminal_tools" m) is_boolean))
  with definition_invalid ;;
  do? validate_sorted_unique_strings (map_get "denied_cost_dimensions" m) ;;
  let? normalized := normalize_tool_policy (Object m) in
  fail_if (normalized <>?? Object m) with definition_invalid ;;
  Ok tt.

(** ** The whole definition *)

Definition definition_fields : list string :=
  ["schema_version"; "agent"; "root_input"; "prompt_bundle"; "initial_messages";
   "initial_shared_state"; "run_metadata"; "context_ref"; "model"; "credential_slots";
   "runtime_controls"; "tools"; "tool_policy"; "checkpoint_policy"; "budget_limits";
   "output_schema"; "workspace_ref"; "session_ref"; "extensions"; "capability_refs"].

Section Definitions.
Context `{Digest} `{JsonText}.

Definition validate_run_definition_value (definition : Value) : result unit :=
  do? validate_i_json definition ;;
  let? m := ok_or (as_object definition) definition_invalid in
  fail_if (negb (only_fields definition_fields m)
           || existsb (fun key => negb (map_contains_key key m)) definition_fields)
  with definition_invalid ;;
  fail_if (negb (opt_is (map_get "schema_version" m ≫= as_str) RUN_DEFINITION_SCHEMA))
  with "checkpoint_definition_schema_unsupported" ;;
  do? validate_agent (map_get "agent" m) ;;
  do? require_string (map_get "root_input" m) ;;
  let? prompt := ok_or (map_get "prompt_bundle" m) definition_invalid in
  do? ok_or (bundle_from_value prompt) definition_invalid ;;
  do? validate_initial_messages (map_get "initial_messages" m) ;;
  do? require_object (map_get "initial_shared_state" m) ;;
  do? require_object (map_get "run_metadata" m) ;;
  do? validate_model (map_get "model" m) ;;
  let? controls := require_object (map_get "runtime_controls" m) in
  do? validate_runtime_controls controls ;;
  do? require_array (map_get "tools" m) ;;
  do? require_object (map_get "tool_policy" m) ;;
  do? require_object (map_get "checkpoint_policy" m) ;;
  do? require_object (map_get "capability_refs" m) ;;
  do? validate_optional_ref (map_get "context_ref" m) ;;
  do? validate_budget_limits (map_get "budget_limits" m) ;;
  do? validate_optional_object_or_null (map_get "output_schema" m) ;;
  do? validate_optional_ref (map_get "workspace_ref" m) ;;
  do? validate_optional_ref (map_get "session_ref" m) ;;
  let? slots := require_array (map_get "credential_slots" m) in
  do? validate_credential_slots definition slots ;;
  do? validate_capability_refs (map_get "capability_refs" m) ;;
  do? validate_extensions (map_get "extensions" m) ;;
  do? validate_tool_definitions (map_get "tools" m) ;;
  do? validate_tool_policy (map_get "tool_policy" m) ;;
  do? validate_checkpoint_policy (map_get "checkpoint_policy" m) ;;
  do? validate_header_names (map_get "model" m) ;;
  Ok tt.

Definition definition_digest (definition : Value) : result string :=
  do? validate_run_definition_value definition ;;
  sha256_canonical definition.
Definition canonical_run_definition_bytes (definition : Value) : result string :=
  do? validate_run_definition_value definition ;;
  canonical_json_bytes definition.

(** [redact_run_definition]: the slots in order, each after the one before. *)
Definition redact_slot (st : Value * option string) (slot : string)
    : result (Value * option string) :=
  let '(redacted, previous) := st in
  fail_if (is_some_and previous (fun p => negb (utf16_lt p slot)))
  with "checkpoint_credential_slots_invalid" ;;
  do? validate_pointer slot ;;
  let? redacted := set_json_pointer redacted slot (Str CREDENTIAL_REDACTED) in
  Ok (redacted, Some slot).
Definition redact_run_definition (definition : Value) (slots : list string) : result Value :=
  let? st := try_fold redact_slot (definition, None) slots in
  Ok st.1.

Definition normalize_run_definition (definition : Value) (slots : list string) : result Value :=
  let? m := ok_or (as_object definition) definition_invalid in
  let m := map_insert "credential_slots" (Array (map Str slots)) m in
  let? m := update_key m "model" normalize_headers in
  let? m := update_key m "tools" normalize_tool_definitions in
  let? m := update_key m "tool_policy" normalize_tool_policy in
  let? m := update_key m "extensions" normalize_extensions in
  let? normalized := redact_run_definition (Object m) slots in
  do? validate_run_definition_value normalized ;;
  Ok normalized.

(** What the checkpoint kernel relies on. *)
#[export] Instance run_definition_rules : RunDefinitionRules :=
  {| validate_run_definition := validate_run_definition_value;
     run_definition_digest := definition_digest |}.
End Definitions.

(** ** Facts *)

Lemma utf16_lt_trans a b c : utf16_lt a b = true -> utf16_lt b c = true -> utf16_lt a c = true.
Proof.
  unfold utf16_lt, utf16_cmp. generalize (utf16_units (str_bytes a)), (utf16_units (str_bytes b)),
    (utf16_units (str_bytes c)); clear; intros a b c Hab Hbc.
  destruct (units_cmp a b) eqn:E1; try done. destruct (units_cmp b c) eqn:E2; try done.
  pose proof (units_cmp_trans a b c ltac:(by rewrite E1) ltac:(by rewrite E2)) as Hle.
  destruct (units_cmp a c) eqn:E3; [|done..].
  apply units_cmp_eq in E3 as ->. by rewrite units_cmp_antisym, E1 in E2.
Qed.
Lemma slots_sorted_spec slots :
  slots_sorted slots = true -> StronglySorted (fun a b => utf16_lt a b = true) slots.
Proof.
  intros Hs. apply Sorted_StronglySorted; [intros ?; apply utf16_lt_trans|].
  induction slots as [|a [|b rest] IH]; [constructor|by repeat constructor|].
  cbn in Hs. bool_inv. constructor; [by apply IH|by constructor].
Qed.

(** *** Credentials *)

(** A definition whose slots are in order and hold the redaction mark. *)
Definition credentials_redacted (definition : Value) (slots : list string) : Prop :=
  value_get definition "credential_slots" = Some (Array (map Str slots)) /\
  StronglySorted (fun a b => utf16_lt a b = true) slots /\
  Forall (fun slot => resolve_json_pointer definition slot = Ok (Str CREDENTIAL_REDACTED)) slots.

Lemma collect_Forall2 {A B} (f : A -> result B) l l' :
  collect f l = Ok l' -> Forall2 (fun x y => f x = Ok y) l l'.
Proof.
  revert l'. induction l as [|x l IH]; intros l'; cbn; intros; result_inv; constructor; auto.
Qed.
Lemma as_str_Some v s : as_str v = Some s -> v = Str s.
Proof. destruct v; cbn; by intros; simplify_eq. Qed.
Lemma credential_slot_spec d v slot :
  validate_credential_slot d v = Ok slot ->
  v = Str slot /\ is_ok (validate_pointer slot) = true /\
  resolve_json_pointer d slot = Ok (Str CREDENTIAL_REDACTED).
Proof.
  unfold validate_credential_slot. intros. result_inv. bool_inv.
  repeat match goal with H : as_str _ = Some _ |- _ => apply as_str_Some in H end. subst.
  split_and!; [done| |done]. by match goal with H : validate_pointer _ = _ |- _ => rewrite H end.
Qed.

Lemma credential_slots_spec d values :
  validate_credential_slots d values = Ok tt ->
  exists slots, values = map Str slots /\ slots_sorted slots = true /\
    Forall (fun slot => is_ok (validate_pointer slot) = true) slots /\
    Forall (fun slot => resolve_json_pointer d slot = Ok (Str CREDENTIAL_REDACTED)) slots.
Proof.
  unfold validate_credential_slots. intros H. result_inv. bool_inv.
  match goal with Hc : collect _ _ = Ok ?v |- _ => apply collect_Forall2 in Hc; exists v end.
  match goal with Hc : Forall2 _ _ _ |- _ => rename Hc into Hall end.
  split_and!; [| done | |]; clear -Hall.
  all: induction Hall as [|x y l l' (? & ? & ?)%credential_slot_spec _ IH]; cbn; [done|].
  all: try (constructor; done). by subst.
Qed.

Section Facts.
Context `{Digest} `{JsonText}.

Lemma require_array_inv o l : require_array o = Ok l -> o = Some (Array l).
Proof. unfold require_array. intros. result_inv. destruct o as [[]|]; by simplify_eq/=. Qed.
Lemma require_object_inv o m : require_object o = Ok m -> o = Some (Object m).
Proof. unfold require_object. intros. result_inv. destruct o as [[]|]; by simplify_eq/=. Qed.

(** What normalisation needs of an accepted definition. *)
Lemma definition_parts d :
  validate_run_definition_value d = Ok tt ->
  exists m values tools,
    d = Object m /\
    map_get "credential_slots" m = Some (Array values) /\ validate_credential_slots d values = Ok tt /\
    is_ok (validate_model (map_get "model" m)) = true /\
    map_get "tools" m = Some (Array tools) /\ Forall (fun t => validate_tool_definition t = Ok tt) tools /\
    validate_tool_policy (map_get "tool_policy" m) = Ok tt /\
    validate_extensions (map_get "extensions" m) = Ok tt.
Proof.
  unfold validate_run_definition_value. intros Hd. destruct d as [| | | | |m];
    try (by cbn in Hd; result_inv).
  destruct (validate_i_json (Object m)); [|done]. cbn [as_object ok_or] in Hd.
  destruct (negb _ || _) in Hd; [done|]. destruct (negb _) in Hd; [done|]. result_inv.
  unfold validate_tool_definitions in *. result_inv. unit_inv.
  repeat match goal with Hr : require_array _ = Ok _ |- _ => apply require_array_inv in Hr end.
  simplify_eq. do 3 eexists. split_and!; try done.
  - by match goal with Hr : validate_model _ = _ |- _ => rewrite Hr end.
  - by apply try_for_each_Ok.
Qed.

Lemma redacted_of_valid d :
  validate_run_definition_value d = Ok tt ->
  exists slots, credentials_redacted d slots.
Proof.
  intros (m & values & _ & -> & Hs & Hc & _)%definition_parts.
  apply credential_slots_spec in Hc as (slots & -> & Hsort & _ & Hred).
  exists slots. split_and!; [done|by apply slots_sorted_spec|done].
Qed.

(** *** Redaction hides the credentials *)

(** One credential of [d] replaced, in a definition that can be redacted. *)
Definition credential_changed (slots : list string) (d d' : Value) : Prop :=
  exists slot secret, slot ∈ slots /\ set_json_pointer d slot secret = Ok d' /\
    is_ok (redact_run_definition d' slots) = true.

Lemma redact_slot_inv d prev slot st :
  redact_slot (d, prev) slot = Ok st <->
  is_some_and prev (fun p => negb (utf16_lt p slot)) = false /\
  exists tokens d', pointer_tokens slot = Ok tokens /\
    set_tokens d tokens (Str CREDENTIAL_REDACTED) = Ok d' /\ st = (d', Some slot).
Proof.
  unfold redact_slot, validate_pointer, set_json_pointer. split.
  - intros Hr. destruct (is_some_and _ _); [done|]. split; [done|].
    destruct (pointer_tokens slot) as [tokens|]; [|done]. cbn in Hr. result_inv. eauto.
  - intros (-> & tokens & d' & -> & Hs & ->). cbn. by rewrite Hs.
Qed.

Lemma redact_fold_same slots : forall p d d1 x prev st st1,
  set_tokens d p x = Ok d1 ->
  try_fold redact_slot (d, prev) slots = Ok st -> try_fold redact_slot (d1, prev) slots = Ok st1 ->
  (exists slot, slot ∈ slots /\ pointer_tokens slot = Ok p) -> st = st1.
Proof.
  induction slots as [|slot slots IH]; intros p d d1 x prev st st1 Hset; [intros _ _ (s & Hs & _); set_solver|].
  cbn [try_fold]. intros Hr Hr1 (s & Hin & Hp).
  destruct (redact_slot (d, prev) slot) as [[d' l]|] eqn:E; [|done].
  destruct (redact_slot (d1, prev) slot) as [[d1' l1]|] eqn:E1; [|done].
  apply redact_slot_inv in E as (_ & tokens & ? & Ht & Hd & ?); simplify_eq.
  apply redact_slot_inv in E1 as (_ & tokens' & ? & Ht' & Hd1 & ?); simplify_eq.
  assert (tokens' = tokens) as -> by congruence.
  destruct (decide (s = slot)) as [->|Hne].
  - assert (tokens = p) as -> by congruence.
    rewrite (set_tokens_hides _ _ _ _ _ Hset) in Hd1. congruence.
  - destruct (set_tokens_step _ _ _ _ _ _ _ _ Hset Hd Hd1) as [->|[x' Hx']]; [congruence|].
    eapply IH; [exact Hx'|eassumption..|]. exists s. set_solver.
Qed.

Lemma redact_same slots d d1 r :
  credential_changed slots d d1 ->
  redact_run_definition d slots = Ok r -> redact_run_definition d1 slots = Ok r.
Proof.
  unfold redact_run_definition. intros (slot & x & Hin & Hset & Hok) Hr.
  unfold set_json_pointer, redact_run_definition in *. result_inv.
  destruct (try_fold redact_slot (d1, None) slots) as [st1|] eqn:E1; [|done]. cbn.
  f_equal. symmetry. f_equal. eapply redact_fold_same; [exact Hset|eassumption..|]. eauto.
Qed.
End Facts.

(** Redaction hides every credential: however many of the values at the
    credential slots of a definition are replaced by others, the redacted
    definition, and with it the recorded run definition and its digest, is the
    same. *)
Theorem redaction_hides_credentials (slots : list string) (d d' r : Value) :
  rtc (credential_changed slots) d d' ->
  redact_run_definition d slots = Ok r -> redact_run_definition d' slots = Ok r.
Proof. induction 1 as [|d d1 d' Hstep _ IH]; [done|]. intros Hr. by apply IH, (redact_same _ d). Qed.

(** (C20) A checkpoint never holds a credential: the run definition of every
    checkpoint the kernel accepts lists its credential slots in strictly
    increasing UTF-16 order, each slot resolves to the redaction mark, and the
    recorded digest is that of the definition so redacted. *)
Theorem checkpoint_credentials_redacted `{Digest} `{JsonText} `{EventReader} (c : Checkpoint) :
  @validate_checkpoint {| env_definition := run_definition_rules |} c = Ok tt ->
  exists slots, credentials_redacted (cp_run_definition c) slots /\
    sha256_canonical (cp_run_definition c) = Ok (cp_run_definition_digest c).
Proof.
  intros (_ & Hi & _)%validate_parts. unfold check_identity in Hi. result_inv. unit_inv. bool_inv.
  cbn [validate_run_definition run_definition_digest env_definition run_definition_rules] in *.
  unfold definition_digest in *. result_inv. subst. unit_inv.
  destruct (redacted_of_valid (cp_run_definition c)) as [slots Hs]; [done|]. by exists slots.
Qed.

(** *** Well-formed values

    A [Value] of the program holds its objects as [BTreeMap]s, at every depth. *)

Fixpoint value_wf (v : Value) : Prop :=
  match v with
  | Array l => foldr (fun x acc => value_wf x /\ acc) True l
  | Object m => map_wf m /\ foldr (fun '(_, x) acc => value_wf x /\ acc) True m
  | _ => True
  end.
Lemma value_wf_Array l : value_wf (Array l) <-> Forall value_wf l.
Proof. cbn. induction l as [|x l IH]; cbn; rewrite ?Forall_cons, ?IH; by rewrite ?Forall_nil. Qed.
Lemma value_wf_Object m :
  value_wf (Object m) <-> map_wf m /\ forall k v, map_get k m = Some v -> value_wf v.
Proof.
  assert (Hall : foldr (fun '(_, x) acc => value_wf x /\ acc) True m
                 <-> Forall (fun kv : string * Value => value_wf kv.2) m).
  { induction m as [|[k x] m IH]; cbn; rewrite ?Forall_cons, ?IH; by rewrite ?Forall_nil. }
  cbn. rewrite Hall, Forall_forall. clear Hall. split; intros [Hwf Hall]; (split; [done|]).
  - intros k v Hk%map_get_elem. by apply (Hall (k, v)).
  - intros [k v] Hin. apply (Hall k). by apply map_get_wf.
Qed.

(** The same, as a check. *)
Fixpoint value_wfb (v : Value) : bool :=
  match v with
  | Array l => forallb value_wfb l
  | Object m => keys_sorted (map_keys m) && forallb (fun '(_, x) => value_wfb x) m
  | _ => true
  end.
Lemma value_wfb_wf v : value_wfb v = true -> value_wf v.
Proof.
  induction v as [| | | |l IH|m IH] using Value_rect_nested; try done; cbn [value_wfb].
  - rewrite value_wf_Array, forallb_forall, !Forall_forall in *. intros Hl x Hx.
    apply IH; [done|]. by apply Hl, list_elem_of_In.
  - rewrite value_wf_Object, Forall_forall in *. intros Hm. bool_inv.
    match goal with H : forallb _ _ = true |- _ => rewrite forallb_forall in H; rename H into Hall end.
    split; [by apply keys_sorted_wf|]. intros k x Hk%map_get_elem.
    apply (IH (k, x) Hk). by apply (Hall (k, x)), list_elem_of_In.
Qed.

Lemma insert_value_wf k v m : value_wf (Object m) -> value_wf v -> value_wf (Object (map_insert k v m)).
Proof.
  rewrite !value_wf_Object. intros [Hwf Hall] Hv. split; [by apply map_insert_wf|].
  intros j w. rewrite map_get_insert. destruct (String.eqb j k); [by intros; simplify_eq|apply Hall].
Qed.
Lemma pointer_child_wf d t c : value_wf d -> pointer_child d t = Ok c -> value_wf c.
Proof.
  destruct d as [| | | |l|m]; try done.
  - rewrite value_wf_Array. cbn. intros Hall. destruct (parse_usize t) as [i|]; [|done]. cbn.
    destruct (l !! N.to_nat i) eqn:Hi; [|done]. intros; simplify_eq/=. by eapply Forall_lookup_1.
  - rewrite value_wf_Object. cbn. intros [_ Hall] Hc%ok_or_Ok. eauto.
Qed.
Lemma put_child_wf d t c d' : value_wf d -> value_wf c -> put_child d t c = Ok d' -> value_wf d'.
Proof.
  destruct d as [| | | |l|m]; try done.
  - intros Hd Hc. cbn -[value_wf]. intros; result_inv. rewrite value_wf_Array in *. by apply Forall_insert.
  - intros Hd Hc. cbn -[value_wf]. intros; result_inv. by apply insert_value_wf.
Qed.
Lemma put_child_same d t c : value_wf d -> pointer_child d t = Ok c -> put_child d t c = Ok d.
Proof.
  destruct d as [| | | |l|m]; try done.
  - intros _. cbn. destruct (parse_usize t) as [i|]; [|done]. cbn.
    destruct (l !! N.to_nat i) eqn:Hi; [|done]. intros; simplify_eq/=. by rewrite list_insert_id.
  - rewrite value_wf_Object. cbn. intros [Hwf _] Hc%ok_or_Ok.
    unfold map_contains_key. rewrite Hc. cbn. by rewrite map_insert_same.
Qed.
Lemma set_tokens_wf p : forall d r d', value_wf d -> value_wf r -> set_tokens d p r = Ok d' -> value_wf d'.
Proof.
  induction p as [|t p IH]; intros d r d' Hd Hr; [cbn; congruence|].
  intros (c & c' & Hc & Hs & Hp)%set_tokens_cons_inv.
  eapply put_child_wf; [exact Hd| |exact Hp]. eauto using pointer_child_wf.
Qed.
Lemma set_tokens_same p : forall d r,
  value_wf d -> try_fold pointer_child d p = Ok r -> set_tokens d p r = Ok d.
Proof.
  induction p as [|t p IH]; intros d r Hd; [cbn; congruence|]. cbn [try_fold]. intros Hr.
  destruct (pointer_child d t) as [c|] eqn:Hc; [|done]. apply set_tokens_cons_inv.
  exists c, c. split_and!; [done| |by apply put_child_same]. apply IH; [|done]. by eapply pointer_child_wf.
Qed.

(** *** Redaction of a redacted definition *)

Lemma redact_fold_id slots : forall d0 st0 d prev,
  value_wf d -> try_fold redact_slot (d0, prev) slots = Ok st0 ->
  Forall (fun slot => resolve_json_pointer d slot = Ok (Str CREDENTIAL_REDACTED)) slots ->
  exists st, try_fold redact_slot (d, prev) slots = Ok st /\ st.1 = d.
Proof.
  induction slots as [|slot slots IH]; intros d0 st0 d prev Hd; cbn [try_fold]; [by eexists|].
  intros Hr [Hs Hall]%Forall_cons. destruct (redact_slot (d0, prev) slot) as [[d0' l]|] eqn:E; [|done].
  apply redact_slot_inv in E as (Hlt & tokens & d1 & Ht & _ & ?); simplify_eq.
  assert (Hid : redact_slot (d, prev) slot = Ok (d, Some slot)).
  { apply redact_slot_inv. split; [done|]. exists tokens, d. split; [done|]. split; [|done].
    apply set_tokens_same; [done|]. unfold resolve_json_pointer in Hs. by rewrite Ht in Hs. }
  rewrite Hid. eauto.
Qed.

(** A property of values that redacting any slot keeps. *)
Definition redaction_stable (P : Value -> Prop) : Prop :=
  forall v tokens v', P v -> set_tokens v tokens (Str CREDENTIAL_REDACTED) = Ok v' -> P v'.
Lemma redact_keeps P slots d r :
  redaction_stable P -> P d -> redact_run_definition d slots = Ok r -> P r.
Proof.
  intros HP Hd. unfold redact_run_definition. intros Hr. result_inv.
  match goal with H : try_fold _ _ _ = Ok ?s |- _ =>
    apply (try_fold_inv (fun st : Value * option string => P st.1)) in H; [done| |done] end.
  clear - HP. intros [v prev] slot [v' l] Hv (_ & tokens & ? & _ & Hs & ?)%redact_slot_inv.
  simplify_eq/=. eauto.
Qed.

(** The property holds of the member [key], where there is one. *)
Definition at_key (key : string) (P : Value -> Prop) (v : Value) : Prop :=
  forall m x, v = Object m -> map_get key m = Some x -> P x.
Lemma at_key_stable key P : redaction_stable P -> redaction_stable (at_key key P).
Proof.
  intros HP v [|t tokens] v' Hv; [cbn; intros [= <-]; by intros ? ?|].
  intros (c & c' & Hc & Hs & Hp)%set_tokens_cons_inv m' x -> Hx.
  destruct v as [| | | |l|m]; try done; [by cbn in Hp; result_inv|].
  cbn in Hp. result_inv. rewrite map_get_insert in Hx.
  destruct (String.eqb_spec key t) as [->|]; [|by eapply Hv].
  simplify_eq. eapply HP; [|exact Hs]. cbn in Hc. apply ok_or_Ok in Hc. by eapply Hv.
Qed.

(** The slot list, or a list or value the redaction has reached. *)
Definition slots_or_marked (slots : list string) (v : Value) : Prop :=
  v = Array (map Str slots) \/ v = Str CREDENTIAL_REDACTED \/
  exists l, v = Array (map Str l) /\ CREDENTIAL_REDACTED ∈ l.
Lemma slots_or_marked_stable slots : redaction_stable (slots_or_marked slots).
Proof.
  intros v [|t tokens] v'; [by intros _ [= <-]; right; left|].
  intros Hv (c & c' & Hc & Hs & Hp)%set_tokens_cons_inv.
  assert (Hl : exists l, v = Array (map Str l)) by (destruct Hv as [->|[->|(l & -> & _)]]; eauto; done).
  destruct Hl as [l ->]. cbn in Hc, Hp. destruct (parse_usize t) as [i|]; [|done]. cbn in Hc, Hp.
  rewrite list_lookup_fmap in Hc, Hp. destruct (l !! N.to_nat i) as [s|] eqn:Hi; [|done]. simplify_eq/=.
  destruct tokens as [|t' tokens]; [|by apply set_tokens_cons_inv in Hs as (? & ? & ? & _)].
  cbn in Hs. simplify_eq. right. right. exists (<[N.to_nat i := CREDENTIAL_REDACTED]> l).
  split; [by rewrite list_fmap_insert|].
  apply list_elem_of_lookup. exists (N.to_nat i). apply list_lookup_insert_eq. by eapply lookup_lt_Some.
Qed.

(** *** Header names *)

Definition lower_name (s : string) : Prop := to_ascii_lowercase s = s.
Lemma to_ascii_lowercase_idem s : lower_name (to_ascii_lowercase s).
Proof.
  unfold lower_name. induction s as [|[[] [] [] [] [] [] [] []] s IH]; cbn -[N_of_ascii]; [done|..];
    cbn in *; by rewrite IH.
Qed.
Definition headers_lower (v : Value) : Prop :=
  match v with Object m => Forall lower_name (map_keys m) | _ => True end.
Lemma headers_lower_stable : redaction_stable headers_lower.
Proof.
  intros v [|t tokens] v' Hv; [by intros [= <-]|].
  intros (c & c' & Hc & Hs & Hp)%set_tokens_cons_inv.
  destruct v as [| | | |l|m]; try done; [by cbn in Hp; result_inv|].
  cbn in *. result_inv. bool_inv. cbn. rewrite Forall_forall in *. intros k [->|Hk]%map_keys_insert; [|auto].
  apply Hv. by apply map_contains_key_spec.
Qed.
Definition model_lower : Value -> Prop := at_key "settings" (at_key "extra_headers" headers_lower).

Lemma lower_headers_lower m m' :
  lower_headers m = Ok m' -> Forall lower_name (map_keys m').
Proof.
  intros Hl. eapply (try_fold_inv (fun acc => Forall lower_name (map_keys acc))); [| |exact Hl]; [|constructor].
  clear. intros acc [name v] b Hacc Hb. result_inv. apply Forall_forall.
  intros k [->|Hk]%map_keys_insert; [apply to_ascii_lowercase_idem|].
  rewrite Forall_forall in Hacc. auto.
Qed.
Lemma lower_headers_wf m m' :
  value_wf (Object m) -> lower_headers m = Ok m' -> value_wf (Object m').
Proof.
  intros [Hm Hall]%value_wf_Object Hl.
  assert (Hv : Forall (fun kv => value_wf kv.2) m).
  { apply Forall_forall. intros [k v] Hin. apply (Hall k). by apply map_get_wf. }
  unfold lower_headers in Hl. assert (H0 : value_wf (Object [])) by (split; [constructor|done]).
  revert Hl H0. generalize (@nil (string * Value)). clear Hm Hall.
  induction Hv as [|[k v] m Hkv _ IH]; intros acc; cbn [try_fold]; intros Hl H0; [by simplify_eq|].
  destruct (map_contains_key _ _) in Hl; [done|]. eapply IH; [exact Hl|]. by apply insert_value_wf.
Qed.
Lemma lower_headers_id m : map_wf m -> Forall lower_name (map_keys m) -> lower_headers m = Ok m.
Proof.
  intros Hwf Hl. rewrite <- (map_of_list_id m Hwf) at 2. unfold lower_headers.
  apply map_wf_NoDup in Hwf. revert Hl Hwf.
  induction m as [|[k v] m IH] using rev_ind; [done|].
  unfold map_keys. rewrite map_app. cbn [map]. rewrite Forall_app, NoDup_app.
  intros [Hl [Hk _]%Forall_cons] (Hn & Hd & _). rewrite try_fold_app, IH by done. cbn -[map_of_list].
  assert (Hc : map_contains_key k (map_of_list m) = false).
  { apply not_true_iff_false. rewrite map_contains_key_spec, map_of_list_keys. set_solver. }
  unfold lower_name in Hk. cbn [fst] in Hk. by rewrite !Hk, Hc, map_of_list_snoc.
Qed.

(** *** Each step of normalisation *)

Lemma update_key_id m key f :
  map_wf m -> (forall v, map_get key m = Some v -> f v = Ok v) -> update_key m key f = Ok m.
Proof.
  intros Hwf Hf. unfold update_key. destruct (map_get key m) as [v|] eqn:Hk; [|done].
  rewrite (Hf v eq_refl). by rewrite map_insert_same.
Qed.
Lemma update_key_wf m key f m' :
  (forall v v', value_wf v -> f v = Ok v' -> value_wf v') ->
  value_wf (Object m) -> update_key m key f = Ok m' -> value_wf (Object m').
Proof.
  intros Hf Hm. unfold update_key. destruct (map_get key m) as [v|] eqn:Hk; intros; result_inv; [|done].
  apply insert_value_wf; [done|]. eapply Hf; [|eassumption]. by apply value_wf_Object in Hm as [_ Hm]; eauto.
Qed.
Lemma update_object_wf f v v' :
  (forall m m', value_wf (Object m) -> f m = Ok m' -> value_wf (Object m')) ->
  value_wf v -> update_object f v = Ok v' -> value_wf v'.
Proof. intros Hf Hv. destruct v; cbn -[value_wf]; intros; result_inv; eauto. Qed.

(** The value a key holds after an update of a key. *)
Lemma update_key_get m key f m' k :
  update_key m key f = Ok m' ->
  map_get k m' = map_get k m \/ (k = key /\ exists v v', map_get key m = Some v /\ f v = Ok v' /\ map_get k m' = Some v').
Proof.
  unfold update_key. destruct (map_get key m) as [v|]; intros; result_inv; [|by left].
  rewrite map_get_insert. destruct (String.eqb_spec k key) as [->|]; [right; eauto 6|by left].
Qed.
Lemma update_at_key m key f m' (P : Value -> Prop) :
  (forall v v', f v = Ok v' -> P v') -> update_key m key f = Ok m' -> at_key key P (Object m').
Proof.
  intros Hf Hu m0 x [= <-] Hx. destruct (update_key_get _ _ _ _ key Hu) as [Hg|(_ & v & v' & _ & Hv & Hg)].
  - unfold update_key in Hu. rewrite <- Hg, Hx in Hu. result_inv.
    rewrite map_get_insert_eq in Hx. simplify_eq. eauto.
  - rewrite Hg in Hx. simplify_eq. eauto.
Qed.
Lemma update_object_at_key f v v' key P :
  (forall m m', f m = Ok m' -> at_key key P (Object m')) ->
  update_object f v = Ok v' -> at_key key P v'.
Proof.
  intros Hf. destruct v; cbn; intros; result_inv; try (by intros ? ?). eauto.
Qed.

Lemma normalize_headers_lower v v' : normalize_headers v = Ok v' -> model_lower v'.
Proof.
  apply update_object_at_key. intros m m'. apply update_at_key. intros s s'.
  apply update_object_at_key. intros sm sm'. apply update_at_key. intros h h'.
  unfold update_object. destruct h; intros; result_inv; try done. by eapply lower_headers_lower.
Qed.
Lemma normalize_headers_wf v v' : value_wf v -> normalize_headers v = Ok v' -> value_wf v'.
Proof.
  apply update_object_wf. intros m m'. apply update_key_wf. intros s s'.
  apply update_object_wf. intros sm sm'. apply update_key_wf. intros h h'.
  apply update_object_wf, lower_headers_wf.
Qed.
Lemma update_object_id f v :
  (forall m, v = Object m -> f m = Ok m) -> update_object f v = Ok v.
Proof. intros Hf. destruct v; cbn; try done. by rewrite Hf. Qed.
Lemma normalize_headers_id v : value_wf v -> model_lower v -> normalize_headers v = Ok v.
Proof.
  intros Hv Hl. apply update_object_id. intros m ->. apply value_wf_Object in Hv as [Hm Hv].
  apply update_key_id; [done|]. intros s Hs. specialize (Hv _ _ Hs).
  apply update_object_id. intros sm ->. apply value_wf_Object in Hv as [Hsm Hv].
  apply update_key_id; [done|]. intros h Hh. specialize (Hv _ _ Hh).
  apply update_object_id. intros hm ->. apply value_wf_Object in Hv as [Hhm _].
  apply lower_headers_id; [done|]. exact (Hl _ _ eq_refl Hs _ _ eq_refl Hh).
Qed.

Lemma json_object_wf l : Forall (fun kv => value_wf kv.2) l -> value_wf (json_object l).
Proof.
  unfold json_object. induction l as [|[k v] l IH] using rev_ind; [by split; [constructor|]|].
  intros [Hl [Hv _]%Forall_cons]%Forall_app. rewrite map_of_list_snoc. apply insert_value_wf; auto.
Qed.
Lemma strings_value_wf l : value_wf (Array (map Str l)).
Proof. apply value_wf_Array. induction l; by constructor. Qed.
Lemma normalized_metadata_wf v v' : normalized_metadata v = Ok v' -> value_wf v'.
Proof.
  unfold normalized_metadata. intros. result_inv; [done|]. apply json_object_wf.
  repeat constructor; try done; apply strings_value_wf.
Qed.
Lemma collect_wf f l l' :
  (forall v v', value_wf v -> f v = Ok v' -> value_wf v') ->
  Forall value_wf l -> collect f l = Ok l' -> Forall value_wf l'.
Proof.
  intros Hf Hl Hc%collect_Forall2. induction Hc as [|x y l l' Hxy _ IH]; [done|].
  apply Forall_cons in Hl as [Hx Hl]. constructor; eauto.
Qed.
Lemma normalize_tools_wf v v' : value_wf v -> normalize_tool_definitions v = Ok v' -> value_wf v'.
Proof.
  unfold normalize_tool_definitions, update_array. destruct v as [| | | |l|m]; intros Hv; intros; result_inv; try done.
  rewrite value_wf_Array in *. eapply collect_wf; [|done|eassumption].
  clear. unfold normalize_tool_definition. intros [| | | | |m] v' Hv; cbn -[value_wf]; intros; result_inv.
  apply insert_value_wf; [done|]. by eapply normalized_metadata_wf.
Qed.
Lemma sort_names_wf v v' : value_wf v -> update_array sort_names v = Ok v' -> value_wf v'.
Proof.
  unfold update_array, sort_names. destruct v; intros Hv; intros; result_inv; try done. apply strings_value_wf.
Qed.
Lemma insert_present_wf m key v acc :
  value_wf (Object acc) -> value_wf v -> value_wf (Object (insert_present m key v acc)).
Proof. unfold insert_present. destruct (map_contains_key key m); [apply insert_value_wf|done]. Qed.
Lemma side_effects_value_wf l : value_wf (side_effects_to_value l).
Proof. apply value_wf_Array. induction l; by constructor. Qed.
Lemma normalize_policy_wf v v' : value_wf v -> normalize_tool_policy v = Ok v' -> value_wf v'.
Proof.
  apply update_object_wf. intros m m' Hm Hn.
  destruct (update_key m "allowed_tools" _) as [m1|] eqn:E1; [|done].
  destruct (update_key m1 "disallowed_tools" _) as [m2|] eqn:E2; [|done].
  apply update_key_wf in E1; [|apply sort_names_wf|done].
  apply update_key_wf in E2; [|apply sort_names_wf|done].
  unfold normalize_denials in Hn. destruct (existsb _ _); [|by result_inv]. result_inv;
  repeat apply insert_present_wf; done || apply strings_value_wf || apply side_effects_value_wf.
Qed.
Lemma normalize_extensions_wf v v' : value_wf v -> normalize_extensions v = Ok v' -> value_wf v'.
Proof.
  unfold normalize_extensions, update_array. destruct v; intros Hv; intros; result_inv; try done.
  rewrite value_wf_Array in *. by rewrite stable_sort_perm.
Qed.

(** What validation says of the normalised sections. *)
Lemma normalize_tools_id tools :
  Forall value_wf tools -> Forall (fun t => validate_tool_definition t = Ok tt) tools ->
  normalize_tool_definitions (Array tools) = Ok (Array tools).
Proof.
  intros Hwf Hv. unfold normalize_tool_definitions, update_array. rewrite collect_id; [done|].
  apply Forall_forall. intros t Ht. rewrite Forall_forall in Hwf, Hv. specialize (Hwf t Ht). specialize (Hv t Ht).
  unfold validate_tool_definition in Hv. cbn -[value_wf] in Hv. 
  destruct t as [| | | | |m]; try done. 
  unfold normalize_tool_definition. cbn [as_object ok_or require_object mbind option_bind] in *.
  destruct (map_get "tool_metadata" m) as [metadata|] eqn:Hm; [|by result_inv].
  cbn [ok_or] in *. 
  assert (Hn : normalized_metadata metadata = Ok metadata).
  { result_inv. bool_inv. congruence. }
  rewrite Hn. cbn iota beta. rewrite map_insert_same; [done| |done]. by apply value_wf_Object in Hwf as [? _].
Qed.
Lemma normalize_policy_id o :
  validate_tool_policy o = Ok tt ->
  exists m, o = Some (Object m) /\ normalize_tool_policy (Object m) = Ok (Object m).
Proof.
  unfold validate_tool_policy. intros Hp.
  destruct (require_object o) as [m|] eqn:Ho; [|done]. apply require_object_inv in Ho as ->.
  exists m. split; [done|]. 
  repeat match type of Hp with
  | match ?c with Ok _ => _ | Err _ => _ end = _ =>
      let E := fresh "E" in destruct c eqn:E; [cbv beta iota in Hp|discriminate Hp]
  | (if ?b then _ else _) = _ => let E := fresh "E" in destruct b eqn:E; [discriminate Hp|]
  end.
  bool_inv. congruence.
Qed.

Lemma extensions_sorted l : forall prev last,
  try_fold validate_extension_def prev l = Ok last ->
  (forall p, prev = Some p ->
     Forall (fun v => exists n, get_str v "namespace" = Some n /\ str_lt p n) l) /\
  StronglySorted (fun a b => namespace_leb a b = true) l.
Proof.
  induction l as [|v l IH]; intros prev last; cbn [try_fold]; [by repeat constructor|].
  destruct (validate_extension_def prev v) as [next|] eqn:E; [|done]. intros Hl.
  unfold validate_extension_def in E.
  destruct (require_object (Some v)) as [m|] eqn:Ho; [|done]. apply require_object_inv in Ho as [= ->].
  destruct (require_exact_fields m _); [|done].
  destruct (require_string _) as [n|] eqn:Hn; [|done]. unfold require_string in Hn. apply ok_or_Ok in Hn.
  result_inv. destruct (IH _ _ Hl) as [Hall Hs]. specialize (Hall n eq_refl).
  assert (Hv : get_str (Object m) "namespace" = Some n) by done. split.
  - intros p ->. match goal with H : is_some_and (Some p) _ = false |- _ => cbn in H end.
    assert (Hp : str_lt p n) by (unfold str_lt; by case_match).
    constructor; [eauto|]. eapply Forall_impl; [exact Hall|]. cbn.
    intros w (k & Hk & Hlt). eauto using str_lt_trans.
  - constructor; [done|]. eapply Forall_impl; [exact Hall|]. cbn beta.
    intros w (k & Hk & Hlt). unfold namespace_leb. by rewrite Hv, Hk, Hlt.
Qed.
Lemma normalize_extensions_id o :
  validate_extensions o = Ok tt ->
  exists l, o = Some (Array l) /\ normalize_extensions (Array l) = Ok (Array l).
Proof.
  unfold validate_extensions. intros. result_inv.
  match goal with H : require_array _ = Ok ?l |- _ => apply require_array_inv in H; exists l end.
  split; [done|]. unfold normalize_extensions, update_array.
  rewrite stable_sort_id; [done|]. by eapply extensions_sorted.
Qed.

Section Normalisation.
Context `{Digest} `{JsonText}.

(** The object a definition becomes before redaction. *)
Definition normalized_object (m : object) (slots : list string) : result object :=
  let m := map_insert "credential_slots" (Array (map Str slots)) m in
  let? m := update_key m "model" normalize_headers in
  let? m := update_key m "tools" normalize_tool_definitions in
  let? m := update_key m "tool_policy" normalize_tool_policy in
  update_key m "extensions" normalize_extensions.
Lemma normalize_unfold m slots :
  normalize_run_definition (Object m) slots =
  let? m := normalized_object m slots in
  let? normalized := redact_run_definition (Object m) slots in
  do? validate_run_definition_value normalized ;;
  Ok normalized.
Proof.
  unfold normalize_run_definition, normalized_object. cbn [as_object ok_or].
  do 4 (destruct (update_key _ _ _); [|done]). done.
Qed.

Lemma normalized_object_spec m slots m' :
  value_wf (Object m) -> normalized_object m slots = Ok m' ->
  value_wf (Object m') /\ at_key "credential_slots" (slots_or_marked slots) (Object m') /\
  at_key "model" model_lower (Object m').
Proof.
  intros Hm. unfold normalized_object. intros Hn.
  destruct (update_key _ "model" _) as [m1|] eqn:E1; [|done].
  destruct (update_key _ "tools" _) as [m2|] eqn:E2; [|done].
  destruct (update_key _ "tool_policy" _) as [m3|] eqn:E3; [|done].
  assert (Hkeep : forall k, k <> "tools" -> k <> "tool_policy" -> k <> "extensions" ->
                    map_get k m' = map_get k m1).
  { intros k ? ? ?. destruct (update_key_get _ _ _ _ k Hn) as [->|[? _]]; [|done].
    destruct (update_key_get _ _ _ _ k E3) as [->|[? _]]; [|done].
    by destruct (update_key_get _ _ _ _ k E2) as [->|[? _]]. }
  split_and!.
  - eapply update_key_wf; [apply normalize_extensions_wf| |exact Hn].
    eapply update_key_wf; [apply normalize_policy_wf| |exact E3].
    eapply update_key_wf; [apply normalize_tools_wf| |exact E2].
    eapply update_key_wf; [apply normalize_headers_wf| |exact E1].
    apply insert_value_wf; [done|apply strings_value_wf].
  - intros ? x [= <-]. rewrite Hkeep by done.
    destruct (update_key_get _ _ _ _ "credential_slots" E1) as [->|[? _]]; [|done].
    rewrite map_get_insert_eq. intros [= <-]. by left.
  - intros ? x [= <-]. rewrite Hkeep by done.
    exact (update_at_key _ _ _ _ _ normalize_headers_lower E1 _ _ eq_refl).
Qed.

Lemma normalized_object_id m slots :
  value_wf (Object m) -> validate_run_definition_value (Object m) = Ok tt ->
  map_get "credential_slots" m = Some (Array (map Str slots)) ->
  at_key "model" model_lower (Object m) ->
  normalized_object m slots = Ok m.
Proof.
  intros [Hwf Hall]%value_wf_Object (? & ? & tools & [= <-] & _ & _ & _ & Ht & Htv & Hp & He)%definition_parts Hs Hl.
  unfold normalized_object. rewrite map_insert_same by done.
  rewrite (update_key_id m "model"); [|done|]; cycle 1.
  { intros v Hv. apply normalize_headers_id; [by eapply Hall|by eapply Hl]. }
  rewrite (update_key_id m "tools"); [|done|]; cycle 1.
  { intros v Hv. rewrite Ht in Hv. simplify_eq.
    apply normalize_tools_id; [|done]. apply value_wf_Array. by eapply Hall. }
  rewrite (update_key_id m "tool_policy"); [|done|]; cycle 1.
  { intros v Hv. apply normalize_policy_id in Hp as (pm & Hpm & Hid). rewrite Hv in Hpm. by simplify_eq. }
  apply update_key_id; [done|].
  intros v Hv. apply normalize_extensions_id in He as (l & Hle & Hid). rewrite Hv in Hle. by simplify_eq.
Qed.

Lemma normal_slots m slots values :
  slots_or_marked slots (Array values) -> validate_credential_slots (Object m) values = Ok tt ->
  values = map Str slots /\
  Forall (fun slot => resolve_json_pointer (Object m) slot = Ok (Str CREDENTIAL_REDACTED)) slots.
Proof.
  intros Hm (slots' & -> & _ & Hp & Hr)%credential_slots_spec.
  assert (Hinj : forall l l', map Str l = map Str l' -> l = l').
  { intros l l'. apply (list_fmap_eq_inj Str). by intros ? ? [= ->]. }
  destruct Hm as [[= ->%Hinj]|[|(l & [= ->%Hinj] & Hl)]]; [done..|].
  exfalso. rewrite Forall_forall in Hp. by specialize (Hp _ Hl).
Qed.
End Normalisation.

(** Normalisation is idempotent: the normal form of a run definition is
    accepted by the validator and is its own normal form, so a definition
    read back from a checkpoint and normalised again keeps its digest. *)
Theorem normalization_idempotent `{Digest} `{JsonText} (d d' : Value) (slots : list string) :
  value_wf d -> normalize_run_definition d slots = Ok d' ->
  validate_run_definition_value d' = Ok tt /\ normalize_run_definition d' slots = Ok d'.
Proof.
  intros Hwf Hn. destruct d as [| | | | |m]; try done. rewrite normalize_unfold in Hn.
  destruct (normalized_object m slots) as [m1|] eqn:Hm; [|done].
  destruct (redact_run_definition (Object m1) slots) as [r|] eqn:Hr; [|done]. 
  destruct (validate_run_definition_value r) as [[]|] eqn:Hv; [|done]. simplify_eq/=. split; [done|].
  destruct (normalized_object_spec _ _ _ Hwf Hm) as (Hwf1 & Hs & Hl).
  assert (Hwf' : value_wf d').
  { apply (redact_keeps value_wf slots (Object m1)); [|done..].
    intros v tokens v' Hv0. by apply set_tokens_wf. }
  apply (redact_keeps _ _ _ _ (at_key_stable _ _ (slots_or_marked_stable slots)) Hs) in Hr as Hs'.
  apply (redact_keeps _ _ _ _ (at_key_stable _ _ (at_key_stable _ _ (at_key_stable _ _ headers_lower_stable))) Hl) in Hr as Hl'.
  pose proof Hv as (m' & values & _ & -> & Hcs & Hval & _)%definition_parts.
  destruct (normal_slots _ _ _ (Hs' _ _ eq_refl Hcs) Hval) as [-> Hres].
  rewrite normalize_unfold, normalized_object_id by done. cbn iota beta.
  unfold redact_run_definition in *. destruct (try_fold redact_slot (Object m1, None) slots) as [st0|] eqn:Hf; [|done].
  destruct (redact_fold_id _ _ _ _ _ Hwf' Hf Hres) as (st & -> & Hst). cbn iota beta. by rewrite Hst, Hv.
Qed.

(** ** A concrete definition *)

Definition authorization_slot : string := "/model/settings/extra_headers/authorization".
(** As a host submits it: a mixed-case header, names out of order. *)
Definition sample_raw (secret : string) : Value :=
  json_object [
    ("schema_version", Str RUN_DEFINITION_SCHEMA);
    ("agent", json_object [("name", Str "writer"); ("type", Null)]);
    ("root_input", Str "hello");
    ("prompt_bundle", bundle_to_value (@sample_bundle toy_digest));
    ("initial_messages", Array [json_object [("role", Str "user"); ("content", Str "hello")]]);
    ("initial_shared_state", Object []); ("run_metadata", Object []); ("context_ref", Null);
    ("model", json_object [
       ("backend", Str "openai"); ("model_id", Str "m1");
       ("settings", json_object [("extra_headers", json_object [("Authorization", Str secret)])]);
       ("transport_timeout_seconds", Null)]);
    ("credential_slots", Array []);
    ("runtime_controls", json_object [
       ("max_cycles", json_u64 8); ("max_handoffs", json_u64 0); ("no_tool_policy", Str "continue");
       ("session_memory_enabled", Bool true); ("memory_compact_threshold", json_u64 1000);
       ("memory_threshold_percentage", json_u64 80);
       ("microcompaction_policy", microcompaction_to_value microcompaction_default);
       ("allow_interruption", Bool true); ("native_multimodal", Bool false);
       ("tool_use_behavior", Str "run_llm_again"); ("stop_at_tool_names", Array [])]);
    ("tools", Array [json_object [
       ("schema", json_object [("type", Str "function"); ("function", json_object [
          ("name", Str "read"); ("description", Str ""); ("parameters", Object [])])]);
       ("tool_metadata", Null); ("timeout_seconds", Null);
       ("approval", json_object [("mode", Str "static"); ("required", Bool false)])]]);
    ("tool_policy", json_object [
       ("allowed_tools", Null); ("disallowed_tools", Array [Str "write"; Str "bash"; Str "write"]);
       ("approval", Str "default"); ("predicate_ref", Null); ("approval_timeout_seconds", Null);
       ("denied_side_effects", Array []); ("denied_capability_tags", Array []);
       ("deny_terminal_tools", Bool false); ("denied_cost_dimensions", Array [])]);
    ("checkpoint_policy", json_object [
       ("ambiguous_model_policy", Str "require_reconciliation");
       ("ambiguous_tool_policy", Str "surface_to_model");
       ("max_extension_state_bytes", json_u64 1024)]);
    ("budget_limits", Null); ("output_schema", Null); ("workspace_ref", Null); ("session_ref", Null);
    ("extensions", Array []); ("capability_refs", Object [])].
Definition sample_definition : Value :=
  ok_value Null (@normalize_run_definition toy_digest toy_text (sample_raw "secret")
                   [authorization_slot]).

Lemma sample_raw_wf secret : value_wf (sample_raw secret).
Proof. apply value_wfb_wf. vm_compute. reflexivity. Qed.
Lemma sample_normalizes :
  @normalize_run_definition toy_digest toy_text (sample_raw "secret") [authorization_slot]
  = Ok sample_definition.
Proof. vm_compute. reflexivity. Qed.

Lemma normalization_idempotent_witness :
  @normalize_run_definition toy_digest toy_text sample_definition [authorization_slot]
  = Ok sample_definition /\ sample_definition <> sample_raw "secret".
Proof.
  split; [|by vm_compute].
  exact (proj2 (@normalization_idempotent toy_digest toy_text (sample_raw "secret") sample_definition
                  [authorization_slot] (sample_raw_wf _) sample_normalizes)).
Defined.

Definition sample_settings_slot : string := "/settings/key".
Definition sample_keyed (secret : string) : Value :=
  json_object [("settings", json_object [("key", Str secret)])].
Lemma redaction_hides_credentials_witness :
  redact_run_definition (sample_keyed "b") [sample_settings_slot]
  = Ok (sample_keyed CREDENTIAL_REDACTED).
Proof.
  refine (redaction_hides_credentials [sample_settings_slot] (sample_keyed "a") (sample_keyed "b")
            (sample_keyed CREDENTIAL_REDACTED) _ _); [|vm_compute; reflexivity].
  apply rtc_once. exists sample_settings_slot, (Str "b"). split; [left|]. by vm_compute.
Defined.

(** The sample checkpoint with a definition under the real rules. *)
Definition full_env : Env :=
  {| env_digest := toy_digest; env_text := toy_text; env_reader := env_reader (Env := toy_env);
     env_definition := @run_definition_rules toy_digest toy_text |}.
Definition with_definition (c : Checkpoint) (definition : Value) : Checkpoint :=
  ltac:(set_field checkpoint_eta cp_run_definition c definition).
Definition with_definition_digest (c : Checkpoint) (digest : string) : Checkpoint :=
  ltac:(set_field checkpoint_eta cp_run_definition_digest c digest).
Definition defined_checkpoint : Checkpoint :=
  with_definition_digest (with_definition sample_checkpoint sample_definition)
    (ok_value EmptyString (@sha256_canonical toy_digest sample_definition)).
Lemma checkpoint_credentials_redacted_witness :
  @validate_checkpoint full_env defined_checkpoint = Ok tt /\
  exists slots, credentials_redacted (cp_run_definition defined_checkpoint) slots.
Proof.
  assert (Hv : @validate_checkpoint full_env defined_checkpoint = Ok tt) by (vm_compute; reflexivity).
  split; [exact Hv|].
  destruct (@checkpoint_credentials_redacted toy_digest toy_text _ defined_checkpoint Hv)
    as (slots & Hs & _).
  exists slots. exact Hs.
Defined.
