(* ===== verification/ModelCalls.v ===== *)
(** * Model calls

    [runtime/model_calls.rs]: the identity of a model call, the ledger of calls
    a run keeps in memory next to its archived history, the coordinator that
    numbers the calls of a slot and builds the records and events of a call,
    and the dispatch of a call outside a checkpoint. *)

From Stdlib Require Import Ascii String NArith ZArith Lia.
From stdpp Require Import base strings list sets pretty.
From S2P Require Import Prelude Json Canonical CheckpointTypes ToolResult Journal TokenUsage Budget.
From S2P Require Import BudgetWire Records ResultCodec ToolPolicy Settings Events HostInteraction Checkpoint.

(** ** Identities *)

Record ModelCallIdentity := {
  mi_call_id : string;
  mi_operation_id : string;
  mi_attempt : N;
  mi_operation : ModelCallOperation;
  mi_cycle_index : N;
  mi_backend : string;
  mi_model : string
}.
#[global] Instance ModelCallIdentity_eq_dec : EqDecision ModelCallIdentity.
Proof. solve_decision. Defined.

Definition identity_invalid : string := "model_call_identity_invalid".
Definition identity_create (operation_id : string) (attempt : N) (operation : ModelCallOperation)
    (cycle_index : N) (backend model : string) : result ModelCallIdentity :=
  do? try_for_each (fun value => fail_if (trim_is_empty value) with identity_invalid ;; Ok tt)
        [operation_id; backend; model] ;;
  fail_if (attempt =? 0)%N with identity_invalid ;;
  fail_if (cycle_index =? 0)%N with identity_invalid ;;
  Ok {| mi_call_id := operation_id +:+ ":attempt:" +:+ pretty attempt;
        mi_operation_id := operation_id; mi_attempt := attempt; mi_operation := operation;
        mi_cycle_index := cycle_index; mi_backend := backend; mi_model := model |}.

(** [normalize_operation_slot]: runs of letters and digits joined by [_]. *)
Fixpoint slot_chars (separator_pending : bool) (started : bool) (s : string) : string :=
  match s with
  | EmptyString => EmptyString
  | String c r =>
      if is_ascii_alphanumeric (N_of_ascii c) then
        if separator_pending && started then String "_" (String c (slot_chars false true r))
        else String c (slot_chars false true r)
      else slot_chars true started r
  end.
(** Trimming removes no letter or digit, and what it removes is a separator
    at an end, where none is written. *)
Definition normalize_operation_slot (value : string) : result string :=
  let normalized := slot_chars false false (to_ascii_lowercase value) in
  fail_if (str_is_empty normalized) with "model operation slot must be non-empty" ;;
  Ok normalized.

(** ** The ledger *)

Record ModelCallLedger := {
  ml_records : list ModelCallRecord;
  ml_history : CheckpointHistory
}.
Definition ledger_replace (l : ModelCallLedger) (records : list ModelCallRecord)
    : result ModelCallLedger :=
  let? usage := summarize_task_token_usage records in
  Ok {| ml_records := tt_model_calls usage; ml_history := ml_history l |}.
Definition replace_checkpoint (l : ModelCallLedger) (c : Checkpoint) : result ModelCallLedger :=
  let? l := ledger_replace l (cp_model_calls c) in
  Ok {| ml_records := ml_records l; ml_history := cp_history c |}.
Definition ledger_append (l : ModelCallLedger) (r : ModelCallRecord) : result ModelCallLedger :=
  fail_if (existsb (fun existing => String.eqb (mc_call_id existing) (mc_call_id r)) (ml_records l))
  with "model_call_id_duplicate" ;;
  Ok {| ml_records := ml_records l ++ [r]; ml_history := ml_history l |}.
Definition ledger_usage (l : ModelCallLedger) : result TaskTokenUsage :=
  summarize_task_token_usage (ml_records l).

(** The totals of the archived calls and of the calls in memory. *)
Definition cumulative_usage (l : ModelCallLedger) : TaskTokenUsageTotals :=
  totals_fold (h_usage (ml_history l)) (h_model_call_count (ml_history l)) (ml_records l).

Definition previous_agent_input_tokens (l : ModelCallLedger) (cycle_index : N) : option N :=
  match List.find (fun r => (mc_operation r =?? AgentCycle) && (mc_cycle_index r <? cycle_index)%N
                            && (mc_status r =?? CompletedC)) (rev (ml_records l)) with
  | Some r => tu_input_tokens (mc_usage r)
  | None =>
      match h_previous_agent_input (ml_history l) with
      | Some p => if (pa_cycle_index p <? cycle_index)%N then pa_input_tokens p else None
      | None => None
      end
  end.

(** ** Responses and errors *)

Record LLMResponse := {
  lr_content : string;
  lr_tool_calls : list ToolCall;
  lr_raw : object;
  lr_token_usage : TokenUsage
}.
Definition response_usage (r : LLMResponse) : TokenUsage :=
  if has_usage (lr_token_usage r) then lr_token_usage r
  else normalize_token_usage (unwrap_or (map_get "usage" (lr_raw r)) Null).

(** The derived serde forms: a lenient struct, as an object whose other fields
    are ignored or as the array of its fields. *)
Definition serde_struct (fields : list string) (v : Value) : option (list (option Value)) :=
  match v with
  | Object m => Some (map (fun f => map_get f m) fields)
  | Array l => if (length l =? length fields)%nat then Some (map Some l) else None
  | _ => None
  end.
Definition call_to_value (c : ToolCall) : Value :=
  json_object [("id", Str (tc_id c)); ("name", Str (tc_name c));
               ("arguments", Object (tc_arguments c));
               ("extra_content", unwrap_or (tc_extra_content c) Null)].
Definition call_fields : list string := ["id"; "name"; "arguments"; "extra_content"].
Definition call_from_value (v : Value) : option ToolCall :=
  fields ← serde_struct call_fields v;
  match fields with
  | [id; name; arguments; extra] =>
      id ← id ≫= as_str; name ← name ≫= as_str; arguments ← arguments ≫= as_object;
      extra ← serde_option Some extra;
      Some {| tc_id := id; tc_name := name; tc_arguments := arguments; tc_extra_content := extra |}
  | _ => None
  end.
Definition response_to_value (r : LLMResponse) : Value :=
  json_object [("content", Str (lr_content r)); ("tool_calls", Array (map call_to_value (lr_tool_calls r)));
               ("raw", Object (lr_raw r)); ("token_usage", token_usage_to_value (lr_token_usage r))].
Definition response_fields : list string := ["content"; "tool_calls"; "raw"; "token_usage"].
Definition response_from_value (v : Value) : option LLMResponse :=
  fields ← serde_struct response_fields v;
  match fields with
  | [content; calls; raw; usage] =>
      content ← content ≫= as_str; calls ← calls ≫= as_array; calls ← mapM call_from_value calls;
      raw ← raw ≫= as_object; usage ← usage ≫= token_usage_from_value;
      Some {| lr_content := content; lr_tool_calls := calls; lr_raw := raw; lr_token_usage := usage |}
  | _ => None
  end.

(** [LlmError]; the error of an exhausted compaction is kept as its text. *)
Inductive LlmError :=
| ScriptExhausted
| CompactionExhausted (text : string)
| Request (text : string).
Definition llm_error_text (e : LlmError) : string :=
  match e with
  | ScriptExhausted => "scripted response queue is empty"
  | CompactionExhausted text => text
  | Request text => "llm request failed: " +:+ text
  end.

(** [str::contains]. *)
Fixpoint str_contains (needle s : string) : bool :=
  String.prefix needle s ||
  match s with EmptyString => false | String _ r => str_contains needle r end.
Definition DEFINITIVE_ERROR_MARKERS : list string :=
  ["context length"; "context_length_exceeded"; "maximum context length"; "prompt is too long";
   "prompt_too_long"; "request too large"; "too many tokens"].
Definition has_marker (e : LlmError) : bool :=
  existsb (fun marker => str_contains marker (to_ascii_lowercase (llm_error_text e)))
    DEFINITIVE_ERROR_MARKERS.
Definition is_definitive_model_error (e : LlmError) : bool :=
  match e with
  | ScriptExhausted | CompactionExhausted _ => true
  | Request _ => has_marker e
  end.
Definition model_error_code (e : LlmError) : string :=
  if is_definitive_model_error e && has_marker e then "prompt_too_long" else "model_request_failed".

(** ** Requests *)

Section Requests.
Context `{JsonText}.

(** [insert_non_empty_optional_string]. *)
Definition insert_non_empty (k : string) (o : option string) (payload : object) : object :=
  match o with
  | Some s => if str_is_empty s then payload else map_insert k (Str s) payload
  | None => payload
  end.
Definition image_blocks (content image_url : string) : list Value :=
  (if str_is_empty content then []
   else [json_object [("type", Str "text"); ("text", Str content)]]) ++
  [json_object [("type", Str "image_url"); ("image_url", json_object [("url", Str image_url)])]].
Definition to_openai_message (m : Message) (include_reasoning_content : bool) : Value :=
  let payload := map_of_list [("role", Str (message_role_value (m_role m)));
                              ("content", Str (m_content m))] in
  let payload := insert_non_empty "name" (m_name m) payload in
  let payload := insert_non_empty "tool_call_id" (m_tool_call_id m) payload in
  let payload :=
    match m_role m, m_tool_calls m with
    | RAssistant, (_ :: _) as calls =>
        let payload := map_insert "tool_calls" (Array (map tool_call_to_openai calls)) payload in
        if str_is_empty (m_content m) then map_insert "content" Null payload else payload
    | _, _ => payload
    end in
  let payload :=
    match m_role m with
    | RAssistant => if include_reasoning_content
                    then insert_non_empty "reasoning_content" (m_reasoning_content m) payload
                    else payload
    | RUser => match m_image_url m with
               | Some url => if str_is_empty url then payload
                             else map_insert "content" (Array (image_blocks (m_content m) url)) payload
               | None => payload
               end
    | _ => payload
    end in
  Object payload.

(** The fields of [LlmRequest] that identify a call. *)
Record LlmRequest := {
  rq_messages : list Message;
  rq_tools : list Value;
  rq_model_settings : option ModelSettings
}.
(** Settings that cannot be serialised are [null] and keep no field to
    remove. *)
Definition request_settings (r : LlmRequest) : Value :=
  match settings_to_value <$> rq_model_settings r with
  | Some (Object m) => Object (map_remove "timeout_seconds" m)
  | Some v => v
  | None => Object []
  end.
Definition model_projection (output_schema : Value) (r : LlmRequest) (backend model : string) : Value :=
  json_object [
    ("schema_version", Str OPERATION_REQUEST_SCHEMA); ("kind", Str "model");
    ("request", json_object [
       ("model", json_object [("backend", Str backend); ("model_id", Str model)]);
       ("messages", Array (map (fun m => to_openai_message m true) (rq_messages r)));
       ("tools", Array (rq_tools r)); ("settings", request_settings r);
       ("output_schema", output_schema); ("idempotency_key", Null)])].
End Requests.

(** ** The coordinator *)

Record ModelCallBudgetUpdate := {
  bu_exhaustion : option BudgetExhaustion;
  bu_snapshot : option BudgetUsageSnapshot
}.
(** The closures of the host are functions: what they answer when they are
    called next. *)
Record ModelCallCoordinator := {
  co_ledger : ModelCallLedger;
  co_run_id : string;
  co_trace_id : string;
  co_agent_name : string;
  co_session_id : option string;
  co_parent_run_id : option string;
  co_budget_observer : option (N -> TokenUsage -> ModelCallBudgetUpdate);
  co_budget_admission : option (N -> option LlmError);
  co_slot_counts : list ((N * string) * N)
}.
Definition set_co_ledger (c : ModelCallCoordinator) (l : ModelCallLedger) : ModelCallCoordinator :=
  {| co_ledger := l; co_run_id := co_run_id c; co_trace_id := co_trace_id c;
     co_agent_name := co_agent_name c; co_session_id := co_session_id c;
     co_parent_run_id := co_parent_run_id c; co_budget_observer := co_budget_observer c;
     co_budget_admission := co_budget_admission c; co_slot_counts := co_slot_counts c |}.
Definition set_slot_counts (c : ModelCallCoordinator) (v : list ((N * string) * N))
    : ModelCallCoordinator :=
  {| co_ledger := co_ledger c; co_run_id := co_run_id c; co_trace_id := co_trace_id c;
     co_agent_name := co_agent_name c; co_session_id := co_session_id c;
     co_parent_run_id := co_parent_run_id c; co_budget_observer := co_budget_observer c;
     co_budget_admission := co_budget_admission c; co_slot_counts := v |}.

Definition check_admission (c : ModelCallCoordinator) (cycle_index : N) : option LlmError :=
  match co_budget_admission c with Some admission => admission cycle_index | None => None end.

(** [entry(key).and_modify(|n| n + 1).or_insert(1)]. *)
Fixpoint count_slot (key : N * string) (counts : list ((N * string) * N))
    : N * list ((N * string) * N) :=
  match counts with
  | [] => (1%N, [(key, 1%N)])
  | (k, n) :: rest =>
      if bool_decide (k = key) then ((n + 1)%N, (k, (n + 1)%N) :: rest)
      else let '(m, rest') := count_slot key rest in (m, (k, n) :: rest')
  end.
Definition slot_operation_id (cycle_index : N) (slot : string) (count : N) : string :=
  "op_model_cycle_" +:+ pretty cycle_index +:+ "_" +:+
  (if (count =? 1)%N then slot else slot +:+ "_" +:+ pretty count).
(** The count of the slot stays even when the identity is refused. *)
Definition new_identity (c : ModelCallCoordinator) (cycle_index : N) (operation_slot : string)
    (operation : ModelCallOperation) (backend model : string) (attempt : N)
    (operation_id : option string) : result ModelCallIdentity * ModelCallCoordinator :=
  match operation_id with
  | Some id => (identity_create id attempt operation cycle_index backend model, c)
  | None =>
      match normalize_operation_slot operation_slot with
      | Err e => (Err e, c)
      | Ok slot =>
          let '(count, counts) := count_slot (cycle_index, slot) (co_slot_counts c) in
          (identity_create (slot_operation_id cycle_index slot count) attempt operation cycle_index
             backend model, set_slot_counts c counts)
      end
  end.

(** *** Records and events of a call

    An event takes its fresh id and the wall clock as [stamp]. *)

Definition Stamp : Type := (string * Number)%type.
Definition set_session (e : RunEvent) (session_id : string) : RunEvent :=
  {| ev_event_id := ev_event_id e; ev_run_id := ev_run_id e; ev_trace_id := ev_trace_id e;
     ev_session_id := Some session_id; ev_parent_event_id := ev_parent_event_id e;
     ev_parent_run_id := ev_parent_run_id e; ev_created_at := ev_created_at e;
     ev_cycle_index := ev_cycle_index e; ev_agent_name := ev_agent_name e;
     ev_metadata := ev_metadata e; ev_payload := ev_payload e; ev_extra_fields := ev_extra_fields e |}.
Definition set_parent_run (e : RunEvent) (parent_run_id : string) : RunEvent :=
  {| ev_event_id := ev_event_id e; ev_run_id := ev_run_id e; ev_trace_id := ev_trace_id e;
     ev_session_id := ev_session_id e; ev_parent_event_id := ev_parent_event_id e;
     ev_parent_run_id := Some parent_run_id; ev_created_at := ev_created_at e;
     ev_cycle_index := ev_cycle_index e; ev_agent_name := ev_agent_name e;
     ev_metadata := ev_metadata e; ev_payload := ev_payload e; ev_extra_fields := ev_extra_fields e |}.
Definition decorate_event (c : ModelCallCoordinator) (e : RunEvent) : RunEvent :=
  let e := match co_session_id c with Some id => set_session e id | None => e end in
  match co_parent_run_id c with Some id => set_parent_run e id | None => e end.
Definition coordinator_event (c : ModelCallCoordinator) (stamp : Stamp) (cycle_index : N)
    (payload : RunEventPayload) : RunEvent :=
  decorate_event c (event_new stamp.1 (co_run_id c) (co_trace_id c) (co_agent_name c)
                      (Some cycle_index) stamp.2 payload).

Definition identity_payload (i : ModelCallIdentity) : ModelCallPayload :=
  {| mp_call_id := mi_call_id i; mp_operation_id := mi_operation_id i; mp_attempt := mi_attempt i;
     mp_operation := mi_operation i; mp_backend := mi_backend i; mp_model := mi_model i |}.
Definition started_event (c : ModelCallCoordinator) (stamp : Stamp) (i : ModelCallIdentity) : RunEvent :=
  coordinator_event c stamp (mi_cycle_index i) (ModelCallStarted (identity_payload i)).
Definition completed_event (c : ModelCallCoordinator) (stamp : Stamp) (i : ModelCallIdentity)
    (usage : TokenUsage) : RunEvent :=
  coordinator_event c stamp (mi_cycle_index i) (ModelCallCompleted (identity_payload i) usage).
Definition failed_event (c : ModelCallCoordinator) (stamp : Stamp) (i : ModelCallIdentity)
    (error_code : string) (ambiguous : bool) (usage : TokenUsage) : RunEvent :=
  coordinator_event c stamp (mi_cycle_index i)
    (ModelCallFailed (identity_payload i) (if ambiguous then AmbiguousOutcome else Definitive)
       usage error_code).
Definition identity_record (i : ModelCallIdentity) (status : ModelCallStatus) (usage : TokenUsage)
    (error_code : option string) : ModelCallRecord :=
  {| mc_call_id := mi_call_id i; mc_operation_id := mi_operation_id i; mc_attempt := mi_attempt i;
     mc_operation := mi_operation i; mc_cycle_index := mi_cycle_index i;
     mc_backend := mi_backend i; mc_model := mi_model i; mc_status := status; mc_usage := usage;
     mc_error_code := error_code |}.
Definition completed_record (i : ModelCallIdentity) (usage : TokenUsage) : ModelCallRecord :=
  identity_record i CompletedC usage None.
Definition failed_record (i : ModelCallIdentity) (error_code : string) (ambiguous : bool)
    (usage : TokenUsage) : ModelCallRecord :=
  identity_record i (if ambiguous then AmbiguousC else FailedC) usage (Some error_code).

Record ModelCallTerminal := {
  mt_record : ModelCallRecord;
  mt_event : RunEvent;
  mt_budget_exhaustion : option BudgetExhaustion;
  mt_budget_event : option RunEvent;
  (* the typed snapshot inside the budget event, whose payload is in wire form *)
  mt_budget_usage : option BudgetUsageSnapshot
}.
Definition observe_budget (c : ModelCallCoordinator) (stamp : Stamp) (i : ModelCallIdentity)
    (usage : TokenUsage)
    : option BudgetExhaustion * option RunEvent * option BudgetUsageSnapshot :=
  match co_budget_observer c with
  | None => (None, None, None)
  | Some observer =>
      let update := observer (mi_cycle_index i) usage in
      (bu_exhaustion update,
       (fun budget_usage =>
          coordinator_event c stamp (mi_cycle_index i)
            (match bu_exhaustion update with
             | Some x => BudgetExhaustedEv (ex_enforcement_boundary x)
                           (map_of_list [("budget_usage", usage_to_value budget_usage);
                                         ("budget_exhaustion", exhaustion_to_value x)])
             | None => BudgetSnapshotEv ModelCallComplete
                         (map_of_list [("budget_usage", usage_to_value budget_usage)])
             end)) <$> bu_snapshot update,
       bu_snapshot update)
  end.
Definition model_terminal (c : ModelCallCoordinator) (stamp : Stamp) (i : ModelCallIdentity)
    (record : ModelCallRecord) (event : RunEvent) (usage : TokenUsage) : ModelCallTerminal :=
  let '(exhaustion, budget_event, budget_usage) := observe_budget c stamp i usage in
  {| mt_record := record; mt_event := event; mt_budget_exhaustion := exhaustion;
     mt_budget_event := budget_event; mt_budget_usage := budget_usage |}.
Definition completed_terminal (c : ModelCallCoordinator) (s1 s2 : Stamp) (i : ModelCallIdentity)
    (usage : TokenUsage) : ModelCallTerminal :=
  model_terminal c s2 i (completed_record i usage) (completed_event c s1 i usage) usage.
Definition failed_terminal (c : ModelCallCoordinator) (s1 s2 : Stamp) (i : ModelCallIdentity)
    (error_code : string) (ambiguous : bool) (usage : option TokenUsage) : ModelCallTerminal :=
  let usage := unwrap_or usage token_usage_default in
  model_terminal c s2 i (failed_record i error_code ambiguous usage)
    (failed_event c s1 i error_code ambiguous usage) usage.

(** *** Dispatch outside a checkpoint *)

(** [catch_unwind(invoke)]. *)
Inductive Invocation :=
| Responded (r : LLMResponse)
| Refused (e : LlmError)
| Panicked.
Inductive DispatchOutcome :=
| Dispatched (response : LLMResponse) (usage : TokenUsage) (exhaustion : option BudgetExhaustion)
| DispatchError (e : LlmError)
| ResumedPanic.

(** [commit_terminal]: the ledger and the events emitted. *)
Definition commit_terminal (c : ModelCallCoordinator) (t : ModelCallTerminal)
    : result (ModelCallCoordinator * list RunEvent) :=
  let? ledger := ledger_append (co_ledger c) (mt_record t) in
  Ok (set_co_ledger c ledger,
      mt_event t :: match mt_budget_event t with Some e => [e] | None => [] end).

(** The call of the model is [invocation]; the result tells whether the model
    was called, what was emitted, and the coordinator that is left. *)
Record Dispatch := {
  di_outcome : DispatchOutcome;
  di_invoked : bool;
  di_events : list RunEvent;
  di_coordinator : ModelCallCoordinator
}.
Definition dispatch (c : ModelCallCoordinator) (s0 s1 s2 : Stamp) (operation : ModelCallOperation)
    (cycle_index : N) (operation_slot backend model : string) (invocation : Invocation) : Dispatch :=
  match check_admission c cycle_index with
  | Some e => {| di_outcome := DispatchError e; di_invoked := false; di_events := [];
                 di_coordinator := c |}
  | None =>
      let '(created, c) := new_identity c cycle_index operation_slot operation backend model 1 None in
      match created with
      | Err e => {| di_outcome := DispatchError (Request e); di_invoked := false; di_events := [];
                    di_coordinator := c |}
      | Ok i =>
          let started := started_event c s0 i in
          let settle (t : ModelCallTerminal) (ok : DispatchOutcome) (lost : string -> DispatchOutcome) :=
            match commit_terminal c t with
            | Ok (c', events) => {| di_outcome := ok; di_invoked := true;
                                    di_events := started :: events; di_coordinator := c' |}
            | Err e => {| di_outcome := lost e; di_invoked := true; di_events := [started];
                          di_coordinator := c |}
            end in
          match invocation with
          | Responded response =>
              let usage := response_usage response in
              let t := completed_terminal c s1 s2 i usage in
              settle t (Dispatched response usage (mt_budget_exhaustion t))
                (fun e => DispatchError (Request e))
          | Refused error =>
              settle (failed_terminal c s1 s2 i (model_error_code error)
                        (negb (is_definitive_model_error error)) None)
                (DispatchError error) (fun e => DispatchError (Request e))
          | Panicked =>
              settle (failed_terminal c s1 s2 i "model_request_panicked" true None)
                ResumedPanic (fun _ => ResumedPanic)
          end
      end
  end.

(** ** Facts *)

Lemma identity_create_spec operation_id attempt operation cycle backend model i :
  identity_create operation_id attempt operation cycle backend model = Ok i ->
  mi_call_id i = operation_id +:+ ":attempt:" +:+ pretty attempt /\
  mi_operation_id i = operation_id /\ mi_attempt i = attempt /\ mi_operation i = operation /\
  mi_cycle_index i = cycle /\ mi_backend i = backend /\ mi_model i = model.
Proof. unfold identity_create. intros. result_inv. done. Qed.

Lemma totals_fold_app t n l1 l2 :
  totals_fold t n (l1 ++ l2)
  = totals_fold (totals_fold t n l1) (n + N.of_nat (length l1))%N l2.
Proof.
  revert t n. induction l1 as [|r l1 IH]; intros t n; cbn [app length totals_fold].
  { by rewrite N.add_0_r. }
  rewrite IH. f_equal. lia.
Qed.

(** The count of a slot: how often it was used before. *)
Definition slot_count (key : N * string) (counts : list ((N * string) * N)) : N :=
  match List.find (fun kn => bool_decide (kn.1 = key)) counts with Some kn => kn.2 | None => 0 end.
Lemma count_slot_spec key counts n counts' :
  count_slot key counts = (n, counts') ->
  n = (slot_count key counts + 1)%N /\ slot_count key counts' = n /\
  forall other, other <> key -> slot_count other counts' = slot_count other counts.
Proof.
  revert n counts'. induction counts as [|[k m] counts IH]; intros n counts'; cbn [count_slot].
  { intros [= <- <-]. unfold slot_count. cbn. rewrite bool_decide_eq_true_2 by done.
    repeat split. intros other Ho. by rewrite bool_decide_eq_false_2. }
  unfold slot_count. cbn [List.find fst snd].
  destruct (bool_decide (k = key)) eqn:E.
  - apply bool_decide_eq_true in E as ->. intros [= <- <-]. cbn [List.find fst snd].
    rewrite bool_decide_eq_true_2 by done. repeat split. intros other Ho.
    by rewrite !bool_decide_eq_false_2.
  - destruct (count_slot key counts) as [c rest] eqn:Ec. intros [= <- <-].
    destruct (IH _ _ eq_refl) as (Hn & Hk & Ho). cbn [List.find fst snd]. rewrite E.
    repeat split; [done|done|]. intros other Hother. specialize (Ho other Hother).
    unfold slot_count in Ho. by destruct (bool_decide (k = other)).
Qed.

Lemma new_identity_spec c cycle slot operation backend model attempt r c' :
  new_identity c cycle slot operation backend model attempt None = (r, c') ->
  co_ledger c' = co_ledger c /\
  forall i, r = Ok i -> mi_operation i = operation /\ mi_cycle_index i = cycle /\
    mi_backend i = backend /\ mi_model i = model /\ mi_attempt i = attempt /\
    exists normalized, normalize_operation_slot slot = Ok normalized /\
      mi_operation_id i
      = slot_operation_id cycle normalized (slot_count (cycle, normalized) (co_slot_counts c) + 1).
Proof.
  unfold new_identity. destruct (normalize_operation_slot slot) as [s|e] eqn:Hs.
  - destruct (count_slot _ _) as [n counts] eqn:Hc. intros [= <- <-]. split; [done|].
    intros i (_ & Ho & Ha & Hop & Hcy & Hb & Hm)%identity_create_spec.
    apply count_slot_spec in Hc as (-> & _). eauto 10.
  - intros [= <- <-]. by split.
Qed.

(** The identity an event carries. *)
Definition event_of_call (e : RunEvent) (i : ModelCallIdentity) : Prop :=
  ev_cycle_index e = Some (mi_cycle_index i) /\
  match ev_payload e with
  | ModelCallStarted p | ModelCallCompleted p _ | ModelCallFailed p _ _ _ => p = identity_payload i
  | _ => False
  end.
Lemma decorate_keeps c e :
  ev_payload (decorate_event c e) = ev_payload e /\
  ev_cycle_index (decorate_event c e) = ev_cycle_index e.
Proof. unfold decorate_event. by destruct (co_session_id c), (co_parent_run_id c). Qed.

(** How a call ended, as its record says it. *)
Definition invocation_status (v : Invocation) : ModelCallStatus :=
  match v with
  | Responded _ => CompletedC
  | Refused e => if is_definitive_model_error e then FailedC else AmbiguousC
  | Panicked => AmbiguousC
  end.
Definition invocation_usage (v : Invocation) : TokenUsage :=
  match v with Responded r => response_usage r | _ => token_usage_default end.

(** The terminal of a call agrees with its identity. *)
Definition terminal_of (i : ModelCallIdentity) (v : Invocation) (t : ModelCallTerminal) : Prop :=
  (exists error, mt_record t = identity_record i (invocation_status v) (invocation_usage v) error) /\
  event_of_call (mt_event t) i.
Lemma completed_terminal_of c s1 s2 i r :
  terminal_of i (Responded r) (completed_terminal c s1 s2 i (response_usage r)).
Proof.
  unfold completed_terminal, model_terminal, terminal_of, event_of_call.
  destruct (observe_budget c s2 i _) as [[??]?]. cbn [mt_record mt_event]. split; [by exists None|].
  unfold completed_event, coordinator_event. by destruct (decorate_keeps c
    (event_new s1.1 (co_run_id c) (co_trace_id c) (co_agent_name c) (Some (mi_cycle_index i)) s1.2
       (ModelCallCompleted (identity_payload i) (response_usage r)))) as [-> ->].
Qed.
Lemma failed_terminal_of c s1 s2 i v code (ambiguous : bool) :
  invocation_usage v = token_usage_default ->
  invocation_status v = (if ambiguous then AmbiguousC else FailedC) ->
  terminal_of i v (failed_terminal c s1 s2 i code ambiguous None).
Proof.
  intros Hu Hs. unfold failed_terminal, model_terminal, terminal_of, event_of_call.
  cbn [unwrap_or]. destruct (observe_budget c s2 i _) as [[??]?]. cbn [mt_record mt_event].
  split; [exists (Some code); unfold failed_record; by rewrite Hu, Hs|].
  unfold failed_event, coordinator_event. by destruct (decorate_keeps c
    (event_new s1.1 (co_run_id c) (co_trace_id c) (co_agent_name c) (Some (mi_cycle_index i)) s1.2
       (ModelCallFailed (identity_payload i) (if ambiguous then AmbiguousOutcome else Definitive)
          token_usage_default code))) as [-> ->].
Qed.

(** ** Properties *)

(** A dispatch accounts for its call.  A call that is not admitted or has
    no valid identity leaves the ledger alone, emits nothing and never reaches
    the model.  Any other call reaches the model once, and when its call id is
    new it adds exactly one record to the ledger, whose status and usage are
    those of the invocation, between the started event and the terminal event
    of the same identity; the outcome passes on what the model answered. *)
Theorem dispatch_accounted (c : ModelCallCoordinator) (s0 s1 s2 : Stamp)
    (operation : ModelCallOperation) (cycle : N) (slot backend model : string) (v : Invocation) :
  let d := dispatch c s0 s1 s2 operation cycle slot backend model v in
  let ledger := co_ledger (di_coordinator d) in
  (di_invoked d = false -> ledger = co_ledger c /\ di_events d = [] /\
     exists e, di_outcome d = DispatchError e) /\
  (di_invoked d = true -> exists i,
     mi_cycle_index i = cycle /\ mi_backend i = backend /\ mi_model i = model /\
     (mi_call_id i ∉ map mc_call_id (ml_records (co_ledger c)) ->
      exists t, terminal_of i v t /\
        ml_records ledger = ml_records (co_ledger c) ++ [mt_record t] /\
        ml_history ledger = ml_history (co_ledger c) /\
        (exists started budget, di_events d = started :: mt_event t :: budget /\
           event_of_call started i) /\
        match v with
        | Responded r => di_outcome d = Dispatched r (response_usage r) (mt_budget_exhaustion t)
        | Refused e => di_outcome d = DispatchError e
        | Panicked => di_outcome d = ResumedPanic
        end)).
Proof.
  cbv zeta. unfold dispatch. destruct (check_admission c cycle) as [e|]; [by split; eauto|].
  destruct (new_identity c cycle slot operation backend model 1 None) as [[i|e] c1] eqn:Hi;
    apply new_identity_spec in Hi as [Hl Hi]; [|by split; [cbn; rewrite Hl; eauto|]].
  destruct (Hi i eq_refl) as (_ & Hc & Hb & Hm & _). split.
  { destruct v; cbn; destruct (commit_terminal _ _) as [[]|]; done. }
  intros _. exists i. split_and!; [done..|]. intros Hfresh.
  assert (Hcommit : forall t, mc_call_id (mt_record t) = mi_call_id i ->
    commit_terminal c1 t = Ok (set_co_ledger c1 {| ml_records := ml_records (co_ledger c) ++ [mt_record t];
      ml_history := ml_history (co_ledger c) |},
      mt_event t :: match mt_budget_event t with Some e => [e] | None => [] end)).
  { intros t Ht. unfold commit_terminal, ledger_append. rewrite Hl, Ht.
    rewrite (not_true_is_false (existsb _ _)); [done|].
    intros (r & Hr%list_elem_of_In & He%String.eqb_eq)%existsb_exists. apply Hfresh.
    rewrite <- He. by apply list_elem_of_fmap_2. }
  assert (Hstart : event_of_call (started_event c1 s0 i) i).
  { unfold event_of_call, started_event, coordinator_event.
    by destruct (decorate_keeps c1 (event_new s0.1 (co_run_id c1) (co_trace_id c1) (co_agent_name c1)
      (Some (mi_cycle_index i)) s0.2 (ModelCallStarted (identity_payload i)))) as [-> ->]. }
  assert (Hid : forall t, terminal_of i v t -> mc_call_id (mt_record t) = mi_call_id i)
    by (intros t [[error ->] _]; done).
  destruct v as [r|e|]; cbv zeta.
  - pose proof (completed_terminal_of c1 s1 s2 i r) as Ht. rewrite Hcommit by auto. eauto 12.
  - assert (Ht : terminal_of i (Refused e) (failed_terminal c1 s1 s2 i (model_error_code e)
                   (negb (is_definitive_model_error e)) None))
      by (apply failed_terminal_of; cbn; [done|by destruct (is_definitive_model_error e)]).
    rewrite Hcommit by auto. eauto 12.
  - assert (Ht : terminal_of i Panicked (failed_terminal c1 s1 s2 i "model_request_panicked" true None))
      by by apply failed_terminal_of.
    rewrite Hcommit by auto. eauto 12.
Qed.

(** The usage a run reports while part of its calls is archived is that of all
    its calls: when the archive holds the totals of [archived], the cumulative
    usage of the ledger is the usage of [archived] followed by the records in
    memory, recomputed from scratch. *)
Theorem cumulative_usage_total (l : ModelCallLedger) (archived : list ModelCallRecord) :
  h_usage (ml_history l) = totals_fold totals_default 0 archived ->
  h_model_call_count (ml_history l) = N.of_nat (length archived) ->
  NoDup (map mc_call_id (archived ++ ml_records l)) ->
  Forall (fun c => exists raw s k, mc_usage c = normalize_token_usage_with_hints raw s k)
    (archived ++ ml_records l) ->
  Forall (fun c => cache_in_range (call_cache c)) (archived ++ ml_records l) ->
  exists summary, summarize_task_token_usage (archived ++ ml_records l) = Ok summary /\
    cumulative_usage l = totals_of summary.
Proof.
  intros Hu Hn Hnd Hnorm Hrange. eexists. split; [by apply summarize_distinct|].
  unfold cumulative_usage. rewrite Hu, Hn, <- (N.add_0_l (N.of_nat _)), <- totals_fold_app.
  rewrite totals_fold_cache; [done| |done].
  eapply Forall_impl; [exact Hnorm|]. intros c (raw & s & k & Hc). unfold call_cache.
  rewrite Hc. apply normalize_cache_wf.
Qed.

(** ** A concrete coordinator *)

Definition sample_ledger : ModelCallLedger :=
  {| ml_records := []; ml_history := history_default |}.
Definition sample_coordinator : ModelCallCoordinator :=
  {| co_ledger := sample_ledger; co_run_id := "run"; co_trace_id := "trace";
     co_agent_name := "agent"; co_session_id := Some "session"; co_parent_run_id := None;
     co_budget_observer := None; co_budget_admission := None; co_slot_counts := [] |}.
Definition sample_response : LLMResponse :=
  {| lr_content := "hi"; lr_tool_calls := []; lr_raw := [("usage", sample_usage)];
     lr_token_usage := token_usage_default |}.
Definition sample_dispatch (c : ModelCallCoordinator) : Dispatch :=
  dispatch c ("e0", PosInt 1) ("e1", PosInt 2) ("e2", PosInt 3) AgentCycle 1 " Main slot " "b" "m"
    (Responded sample_response).
(** The second call of a slot has an identity of its own. *)
Example sample_dispatch_runs :
  map mc_call_id (ml_records (co_ledger (di_coordinator
    (sample_dispatch (di_coordinator (sample_dispatch sample_coordinator))))))
  = ["op_model_cycle_1_main_slot:attempt:1"; "op_model_cycle_1_main_slot_2:attempt:1"].
Proof. vm_compute. reflexivity. Qed.
Example sample_error_definitive :
  is_definitive_model_error (Request "400: Maximum Context Length is 8192") = true /\
  is_definitive_model_error (Request "timeout") = false.
Proof. vm_compute. split; reflexivity. Qed.

Definition archived_ledger : ModelCallLedger :=
  {| ml_records := [];
     ml_history := {| h_sequence := 1; h_cycle_count := 1; h_model_call_count := 2;
                      h_head_digest := None; h_usage := totals_fold totals_default 0 sample_calls;
                      h_previous_agent_input := None |} |}.
Lemma cumulative_usage_total_witness :
  exists summary, summarize_task_token_usage (sample_calls ++ []) = Ok summary /\
    cumulative_usage archived_ledger = totals_of summary.
Proof.
  refine (cumulative_usage_total archived_ledger sample_calls eq_refl eq_refl _ _ _);
    cbn [ml_records archived_ledger].
  - apply (bool_decide_eq_true_1 _). vm_compute. reflexivity.
  - repeat constructor; by exists sample_usage, None, None.
  - repeat constructor; intros n Hn; vm_compute in Hn; simplify_eq; by vm_compute.
Defined.
