(* ===== verification/History.v ===== *)
(** * The history archive

    [runtime/state/history.rs]: completed cycles and their model calls leave
    the active checkpoint in digest-chained batches; the checkpoint keeps a
    cursor (sequence, counts, head digest, usage totals).  Reading the archive
    checks the chain and rebuilds the records; hydration puts them back into a
    result. *)

From Stdlib Require Import Ascii String NArith Sorted Lia.
From stdpp Require Import base strings list sets.
From S2P Require Import Prelude Json Canonical CheckpointTypes ToolResult Journal TokenUsage.
From S2P Require Import Budget BudgetWire Records ResultCodec Events HostInteraction Checkpoint.

(** ** Values *)

Record CheckpointHistoryRecords := {
  hr_cycles : list CycleRecord;
  hr_model_calls : list ModelCallRecord;
  hr_frontier : CheckpointHistory
}.
Definition history_records_default : CheckpointHistoryRecords :=
  {| hr_cycles := []; hr_model_calls := []; hr_frontier := history_default |}.

Record CheckpointHistoryBatch := {
  hb_payload : Value;
  hb_payload_digest : string;
  hb_sequence : N
}.

Definition HISTORY_SCHEMA : string := "vv-agent.checkpoint-history.v1".

(** [strict_json_value] ([runtime/checkpoint_codec.rs]): the JSON text reader
    that refuses duplicate keys. *)
Class StrictJson := { strict_json_value : string -> result Value }.

(** ** The cursor *)

(** What one archived model call adds to the cursor. *)
Definition archive_call (h : CheckpointHistory) (r : ModelCallRecord) : CheckpointHistory :=
  {| h_sequence := h_sequence h; h_cycle_count := h_cycle_count h;
     h_model_call_count := (h_model_call_count h + 1)%N;
     h_head_digest := h_head_digest h;
     h_usage := totals_append (h_usage h) r (h_model_call_count h =? 0)%N;
     h_previous_agent_input :=
       if (mc_operation r =?? AgentCycle) && (mc_status r =?? CompletedC)
       then Some {| pa_cycle_index := mc_cycle_index r;
                    pa_input_tokens := tu_input_tokens (mc_usage r) |}
       else h_previous_agent_input h |}.
Definition archive_calls : CheckpointHistory -> list ModelCallRecord -> CheckpointHistory :=
  foldl archive_call.

(** The counters and the head that a batch sets. *)
Definition advance_history (h : CheckpointHistory) (sequence cycle_count : N)
    (head_digest : option string) : CheckpointHistory :=
  {| h_sequence := sequence; h_cycle_count := cycle_count;
     h_model_call_count := h_model_call_count h; h_head_digest := head_digest;
     h_usage := h_usage h; h_previous_agent_input := h_previous_agent_input h |}.

Definition history_payload (checkpoint_key : string) (sequence : N) (previous : option string)
    (cycles : list CycleRecord) (calls : list ModelCallRecord) : Value :=
  json_object [
    ("schema_version", Str HISTORY_SCHEMA); ("checkpoint_key", Str checkpoint_key);
    ("sequence", json_u64 sequence); ("previous_digest", json_opt_str previous);
    ("cycles", Array (map cycle_to_dict cycles));
    ("model_calls", Array (map model_call_to_value calls))].

(** ** Archiving *)

Definition max_opt (l : list N) : option N :=
  match l with [] => None | x :: r => Some (foldl N.max x r) end.

(** The last cycle that stays active. *)
Definition retained_cycle (c : Checkpoint) : option N :=
  if is_some (cp_terminal_result c) then cr_index <$> last (cp_cycles c)
  else max_opt (List.filter (fun i => (i <=? cp_cycle_index c)%N) (map cr_index (cp_cycles c))).

Definition journal_call_ids (c : Checkpoint) : list string := omap j_call_id (cp_model_call_journal c).

Definition archived_cycle (retained : N) (cycle : CycleRecord) : bool :=
  (cr_index cycle <? retained)%N.
Definition archived_call (retained : N) (journal_ids : list string) (r : ModelCallRecord) : bool :=
  (mc_cycle_index r <? retained)%N && negb (existsb (String.eqb (mc_call_id r)) journal_ids).

Section Archive.
Context `{Env}.

(** The result of a finished run repeats the active records. *)
Definition refresh_result (c : Checkpoint) : result Checkpoint :=
  match cp_terminal_result c with
  | None => Ok c
  | Some value =>
      let? r := map_err (agent_result_from_dict value) history_invalid in
      let? usage := summarize_task_token_usage (cp_model_calls c) in
      let r := {| ar_status := ar_status r; ar_messages := ar_messages r;
                  ar_cycles := cp_cycles c; ar_completion_reason := ar_completion_reason r;
                  ar_completion_tool_name := ar_completion_tool_name r;
                  ar_partial_output := ar_partial_output r; ar_budget_usage := ar_budget_usage r;
                  ar_budget_exhaustion := ar_budget_exhaustion r;
                  ar_checkpoint_key := ar_checkpoint_key r;
                  ar_resume_observations := ar_resume_observations r;
                  ar_final_answer := ar_final_answer r; ar_wait_reason := ar_wait_reason r;
                  ar_error := ar_error r; ar_error_code := ar_error_code r;
                  ar_shared_state := ar_shared_state r; ar_token_usage := usage |} in
      Ok (set_terminal_result c (Some (agent_result_to_dict r)))
  end.

Definition normalize_checkpoint_history (c : Checkpoint)
    : result (Checkpoint * option CheckpointHistoryBatch) :=
  match retained_cycle c with
  | None => Ok (c, None)
  | Some retained =>
      let cycles := List.filter (archived_cycle retained) (cp_cycles c) in
      let kept_cycles := List.filter (fun x => negb (archived_cycle retained x)) (cp_cycles c) in
      let ids := journal_call_ids c in
      let calls := List.filter (archived_call retained ids) (cp_model_calls c) in
      let kept_calls := List.filter (fun x => negb (archived_call retained ids x))
                          (cp_model_calls c) in
      let c := set_model_calls (set_cycles c kept_cycles) kept_calls in
      if (length cycles =? 0)%nat && (length calls =? 0)%nat then Ok (c, None)
      else
        let h := cp_history c in
        let? sequence := ok_or (checked_add (h_sequence h) 1 ≫= fun n =>
                           if (n <=? MAX_WIRE_INTEGER)%N then Some n else None) history_invalid in
        let payload := history_payload (cp_checkpoint_key c) sequence (h_head_digest h) cycles calls in
        let? digest := sha256_canonical payload in
        let h := archive_calls (advance_history h (h_sequence h)
                   (h_cycle_count h + N.of_nat (length cycles)) (h_head_digest h)) calls in
        let c := set_history c (advance_history h sequence (h_cycle_count h) (Some digest)) in
        let? c := refresh_result c in
        do? validate_checkpoint c ;;
        Ok (c, Some {| hb_payload := payload; hb_payload_digest := digest;
                       hb_sequence := sequence |})
  end.

(** ** Reading the archive *)

Context `{StrictJson}.

Definition history_fields : list string :=
  ["schema_version"; "checkpoint_key"; "sequence"; "previous_digest"; "cycles"; "model_calls"].

Definition batch_identity_ok (checkpoint_key : string) (index : N) (previous : option string)
    (payload : Value) (m : object) : bool :=
  has_exactly history_fields m
  && opt_is (get_str payload "schema_version") HISTORY_SCHEMA
  && opt_is (get_str payload "checkpoint_key") checkpoint_key
  && is_some_and (get_u64 payload "sequence") (N.eqb (index + 1))
  && is_some_and (value_get payload "previous_digest") (value_eqb (json_opt_str previous)).

Definition push_cycle (cycles : list CycleRecord) (value : Value) : result (list CycleRecord) :=
  let? cycle := map_err (cycle_from_dict value) history_invalid in
  fail_if (is_some_and (last cycles) (fun existing => (cr_index cycle <=? cr_index existing)%N))
  with history_invalid ;;
  Ok (cycles ++ [cycle]).

Definition push_call (st : list ModelCallRecord * CheckpointHistory) (r : ModelCallRecord)
    : result (list ModelCallRecord * CheckpointHistory) :=
  let (calls, aggregate) := st in
  fail_if (existsb (fun existing => String.eqb (mc_call_id existing) (mc_call_id r)) calls)
  with history_invalid ;;
  Ok (calls ++ [r], archive_call aggregate r).

(** The state of the reading loop: records, aggregate, digest of the last batch. *)
Record Decoding := {
  dc_cycles : list CycleRecord;
  dc_calls : list ModelCallRecord;
  dc_aggregate : CheckpointHistory;
  dc_previous : option string
}.
Definition decoding_default : Decoding :=
  {| dc_cycles := []; dc_calls := []; dc_aggregate := history_default; dc_previous := None |}.

Definition decode_batch (checkpoint_key : string) (index : N) (st : Decoding) (raw : string)
    : result Decoding :=
  let? payload := map_err (strict_json_value raw) history_invalid in
  let? m := ok_or (as_object payload) history_invalid in
  fail_if (negb (batch_identity_ok checkpoint_key index (dc_previous st) payload m))
  with history_invalid ;;
  let? values := ok_or (value_get payload "cycles" ≫= as_array) history_invalid in
  let? cycles := try_fold push_cycle (dc_cycles st) values in
  let? records := ok_or (value_get payload "model_calls" ≫= as_array) history_invalid in
  let? calls := collect (fun v => ok_or (model_call_from_value v) history_invalid) records in
  fail_if ((length calls =? 0)%nat && (length values =? 0)%nat) with history_invalid ;;
  let? (calls, aggregate) := try_fold push_call (dc_calls st, dc_aggregate st) calls in
  let? digest := sha256_canonical payload in
  Ok {| dc_cycles := cycles; dc_calls := calls; dc_aggregate := aggregate;
        dc_previous := Some digest |}.

Fixpoint decode_batches (checkpoint_key : string) (index : N) (st : Decoding)
    (payloads : list string) : result Decoding :=
  match payloads with
  | [] => Ok st
  | raw :: rest =>
      let? st := decode_batch checkpoint_key index st raw in
      decode_batches checkpoint_key (index + 1) st rest
  end.

Definition decode_checkpoint_history (c : Checkpoint) (payloads : list string)
    : result CheckpointHistoryRecords :=
  fail_if (negb (N.of_nat (length payloads) =? h_sequence (cp_history c))%N)
  with history_invalid ;;
  let? st := decode_batches (cp_checkpoint_key c) 0 decoding_default payloads in
  let aggregate := advance_history (dc_aggregate st) (N.of_nat (length payloads))
                     (N.of_nat (length (dc_cycles st))) (dc_previous st) in
  fail_if (aggregate <>?? cp_history c) with history_invalid ;;
  fail_if (existsb (fun archived => existsb (fun active => (cr_index active =? cr_index archived)%N)
                      (cp_cycles c)) (dc_cycles st)
           || existsb (fun archived => existsb (fun active =>
                         String.eqb (mc_call_id active) (mc_call_id archived)) (cp_model_calls c))
                (dc_calls st))
  with history_invalid ;;
  Ok {| hr_cycles := dc_cycles st; hr_model_calls := dc_calls st; hr_frontier := aggregate |}.

(** ** Hydration *)

Definition hydrate_cycle (cycles : list CycleRecord) (cycle : CycleRecord)
    : result (list CycleRecord) :=
  match List.find (fun existing => (cr_index existing =? cr_index cycle)%N) cycles with
  | Some existing =>
      fail_if (existing <>?? cycle) with history_invalid ;; Ok cycles
  | None => Ok (cycles ++ [cycle])
  end.
Definition hydrate_call (calls : list ModelCallRecord) (call : ModelCallRecord)
    : result (list ModelCallRecord) :=
  fail_if (existsb (fun existing => String.eqb (mc_call_id existing) (mc_call_id call)) calls)
  with history_invalid ;;
  Ok (calls ++ [call]).

(** [prefix] is what the store returned for the checkpoint's key. *)
Definition hydrate_checkpoint_result (prefix : result CheckpointHistoryRecords) (c : Checkpoint)
    (r : AgentResult) : result AgentResult :=
  if (h_sequence (cp_history c) =? 0)%N then Ok r
  else
    let? prefix := prefix in
    fail_if (hr_frontier prefix <>?? cp_history c) with "checkpoint_history_changed" ;;
    let? cycles := try_fold hydrate_cycle (hr_cycles prefix) (ar_cycles r) in
    let? calls := try_fold hydrate_call (hr_model_calls prefix) (cp_model_calls c) in
    let? usage := summarize_task_token_usage calls in
    Ok {| ar_status := ar_status r; ar_messages := ar_messages r;
          ar_cycles := cycles; ar_completion_reason := ar_completion_reason r;
          ar_completion_tool_name := ar_completion_tool_name r;
          ar_partial_output := ar_partial_output r; ar_budget_usage := ar_budget_usage r;
          ar_budget_exhaustion := ar_budget_exhaustion r;
          ar_checkpoint_key := ar_checkpoint_key r;
          ar_resume_observations := ar_resume_observations r;
          ar_final_answer := ar_final_answer r; ar_wait_reason := ar_wait_reason r;
          ar_error := ar_error r; ar_error_code := ar_error_code r;
          ar_shared_state := ar_shared_state r; ar_token_usage := usage |}.
End Archive.

(** ** Lemmas *)

(** *** Splitting *)

Lemma filter_partition {A} (f : A -> bool) (l : list A) :
  l ≡ₚ List.filter f l ++ List.filter (fun x => negb (f x)) l.
Proof.
  induction l as [|x l IH]; cbn; [done|]. destruct (f x); cbn [negb app].
  - by constructor.
  - rewrite <- Permutation_middle. by constructor.
Qed.

Lemma filter_none {A} (f : A -> bool) (l : list A) :
  List.filter f l = [] -> List.filter (fun x => negb (f x)) l = l.
Proof.
  induction l as [|x l IH]; cbn; [done|]. destruct (f x); cbn; [done|]. intros. by rewrite IH.
Qed.

Lemma filter_all_false {A} (f : A -> bool) (l : list A) :
  Forall (fun x => f x = false) l -> List.filter f l = [].
Proof. induction 1 as [|x l Hx _ IH]; cbn; [done|]. by rewrite Hx. Qed.
Lemma filter_all_true {A} (f : A -> bool) (l : list A) :
  Forall (fun x => f x = true) l -> List.filter f l = l.
Proof. induction 1 as [|x l Hx _ IH]; cbn; [done|]. by rewrite Hx, IH. Qed.
Lemma filter_Forall {A} (f : A -> bool) (l : list A) :
  Forall (fun x => f x = true) (List.filter f l).
Proof. apply Forall_forall. intros x Hx%list_elem_of_In. by apply List.filter_In in Hx as [_ ?]. Qed.

Lemma strictly_increasing_tail x l :
  strictly_increasing (x :: l) = true -> strictly_increasing l = true /\ Forall (N.lt x) l.
Proof.
  revert x. induction l as [|y l IH]; intros x; [done|]. cbn [strictly_increasing].
  rewrite andb_true_iff, N.ltb_lt. intros [Hxy Hs]. split; [done|].
  constructor; [done|]. destruct (IH y Hs) as [_ Hall]. eapply Forall_impl; [exact Hall|].
  intros z. cbn. lia.
Qed.

(** On increasing cycles the archived ones are a prefix. *)
Lemma archived_prefix retained cycles :
  strictly_increasing (map cr_index cycles) = true ->
  cycles = List.filter (archived_cycle retained) cycles
           ++ List.filter (fun x => negb (archived_cycle retained x)) cycles.
Proof.
  induction cycles as [|x l IH]; [done|]. intros Hi.
  destruct (strictly_increasing_tail (cr_index x) (map cr_index l) Hi) as [Hs Hall].
  cbn [List.filter]. destruct (archived_cycle retained x) eqn:Hx; cbn [negb app].
  - f_equal. by apply IH.
  - unfold archived_cycle in Hx. apply N.ltb_ge in Hx.
    assert (Hkeep : Forall (fun y => archived_cycle retained y = false) l).
    { apply (proj1 (Forall_fmap cr_index _ l)) in Hall. eapply Forall_impl; [exact Hall|]. intros y Hy. cbn in Hy.
      apply N.ltb_ge. lia. }
    clear IH Hs Hall. f_equal. rewrite (filter_all_false _ l Hkeep), (filter_all_true _ l); [done|].
    eapply Forall_impl; [exact Hkeep|]. intros y Hy. cbn beta. by rewrite Hy.
Qed.

(** *** The cursor *)

Lemma archive_calls_advance calls h s n d :
  archive_calls (advance_history h s n d) calls = advance_history (archive_calls h calls) s n d.
Proof.
  revert h. induction calls as [|r calls IH]; intros h; [done|].
  cbn [archive_calls foldl]. rewrite <- IH. done.
Qed.
Lemma advance_advance h s n d s' n' d' :
  advance_history (advance_history h s n d) s' n' d' = advance_history h s' n' d'.
Proof. done. Qed.
Lemma archive_calls_counts calls h :
  h_sequence (archive_calls h calls) = h_sequence h /\
  h_cycle_count (archive_calls h calls) = h_cycle_count h /\
  h_head_digest (archive_calls h calls) = h_head_digest h /\
  h_model_call_count (archive_calls h calls) = (h_model_call_count h + N.of_nat (length calls))%N.
Proof.
  revert h. induction calls as [|r calls IH]; intros h; cbn [archive_calls foldl length].
  { repeat split. lia. }
  destruct (IH (archive_call h r)) as (? & ? & ? & ?). repeat split; try done.
  unfold archive_calls in *. rewrite H2. cbn [archive_call h_model_call_count]. lia.
Qed.

(** *** Archiving *)

Section ArchiveLemmas.
Context `{Env}.

Lemma refresh_result_frame c c' :
  refresh_result c = Ok c' -> c' = set_terminal_result c (cp_terminal_result c').
Proof. unfold refresh_result. intros Hr. result_inv; [by destruct c|by destruct c']. Qed.

(** What [normalize_checkpoint_history] does: the records below the retained
    cycle leave in one batch, everything else stays. *)
Record archived_into (c c' : Checkpoint) (cycles : list CycleRecord)
    (calls : list ModelCallRecord) (batch : CheckpointHistoryBatch) : Prop := {
  ai_cycles : cp_cycles c = cycles ++ cp_cycles c';
  ai_calls : cp_model_calls c ≡ₚ calls ++ cp_model_calls c';
  ai_order : exists retained, Forall (fun x => (cr_index x < retained)%N) cycles /\
               Forall (fun x => (retained <= cr_index x)%N) (cp_cycles c') /\
               Forall (fun r => (mc_cycle_index r < retained)%N) calls;
  ai_nonempty : (length cycles =? 0)%nat && (length calls =? 0)%nat = false;
  ai_sequence : hb_sequence batch = (h_sequence (cp_history c) + 1)%N;
  ai_payload : hb_payload batch = history_payload (cp_checkpoint_key c) (hb_sequence batch)
                 (h_head_digest (cp_history c)) cycles calls;
  ai_digest : sha256_canonical (hb_payload batch) = Ok (hb_payload_digest batch);
  ai_history : cp_history c' = advance_history (archive_calls (cp_history c) calls)
                 (hb_sequence batch) (h_cycle_count (cp_history c) + N.of_nat (length cycles))
                 (Some (hb_payload_digest batch));
  ai_valid : validate_checkpoint c' = Ok tt;
  ai_frame : c' = set_terminal_result (set_history (set_model_calls (set_cycles c (cp_cycles c'))
                 (cp_model_calls c')) (cp_history c')) (cp_terminal_result c')
}.

Lemma normalize_spec c c' ob :
  validate_checkpoint c = Ok tt ->
  normalize_checkpoint_history c = Ok (c', ob) ->
  match ob with
  | None => c' = c
  | Some batch => exists cycles calls, archived_into c c' cycles calls batch
  end.
Proof.
  intros (Hrec & _)%validate_parts Hn. unfold check_records in Hrec. result_inv. clear Hdo Hdo0.
  apply orb_false_iff in Hif as [_ Hinc%negb_false_iff].
  unfold normalize_checkpoint_history in Hn.
  destruct (retained_cycle c) as [retained|]; [|by result_inv].
  set (cycles := List.filter (archived_cycle retained) (cp_cycles c)) in *.
  set (calls := List.filter (archived_call _ _) (cp_model_calls c)) in *.
  destruct ((length cycles =? 0)%nat && (length calls =? 0)%nat) eqn:Hempty.
  { apply andb_true_iff in Hempty as [He1%Nat.eqb_eq%nil_length_inv He2%Nat.eqb_eq%nil_length_inv].
    result_inv. rewrite (filter_none _ _ He1), (filter_none _ _ He2). by destruct c. }
  set (kept_cycles := List.filter (fun x => negb (archived_cycle retained x)) _) in *.
  set (kept_calls := List.filter (fun x => negb (archived_call retained _ x)) _) in *.
  result_inv. unit_inv. cbn [cp_history cp_checkpoint_key set_model_calls set_cycles] in *.
  destruct (checked_add _ 1) as [n|] eqn:Hadd; [|done]. cbn [mbind option_bind] in Hdo.
  apply checked_add_Some in Hadd as [-> _]. destruct (_ <=? MAX_WIRE_INTEGER)%N; [|done].
  injection Hdo as <-. apply refresh_result_frame in Hdo1.
  exists cycles, calls. rewrite Hdo1. constructor; try done.
  - by apply archived_prefix.
  - apply filter_partition.
  - exists retained. split; [|split].
    + eapply Forall_impl; [apply filter_Forall|]. intros x Hx. by apply N.ltb_lt in Hx.
    + eapply Forall_impl; [apply filter_Forall|]. intros x Hx. cbn beta in Hx.
      by apply negb_true_iff, N.ltb_ge in Hx.
    + eapply Forall_impl; [apply filter_Forall|]. intros x Hx. unfold archived_call in Hx. by bool_inv.
  - cbn [cp_history set_terminal_result set_history]. by rewrite archive_calls_advance.
  - by rewrite <- Hdo1.
Qed.
End ArchiveLemmas.

(** *** Reading back *)

Section ReadLemmas.
Context `{Env} `{StrictJson}.

Lemma decode_batches_app key i st l l' :
  decode_batches key i st (l ++ l')
  = let? st' := decode_batches key i st l in
    decode_batches key (i + N.of_nat (length l)) st' l'.
Proof.
  revert i st. induction l as [|raw l IH]; intros i st; cbn [app decode_batches length].
  { by rewrite N.add_0_r. }
  destruct (decode_batch key i st raw); [|done]. rewrite IH.
  by replace (i + 1 + N.of_nat (length l))%N with (i + N.of_nat (S (length l)))%N by lia.
Qed.

(** Cycles above the ones read so far are read in order. *)
Lemma push_cycles_Ok old cycles :
  Forall cycle_wire_ok cycles ->
  strictly_increasing (map cr_index cycles) = true ->
  Forall (fun o => Forall (fun n => (cr_index o < cr_index n)%N) cycles) old ->
  try_fold push_cycle old (map cycle_to_dict cycles) = Ok (old ++ cycles).
Proof.
  intros Hw. revert old. induction Hw as [|x l Hx _ IH]; intros old Hinc Hord;
    cbn [map try_fold]; [by rewrite app_nil_r|].
  destruct (strictly_increasing_tail (cr_index x) (map cr_index l) Hinc) as [Hinc' Hall].
  apply (proj1 (Forall_fmap cr_index _ l)) in Hall.
  unfold push_cycle at 1. rewrite (proj2 (cycle_wire_iff x) Hx). cbn [map_err].
  assert (Hlast : is_some_and (last old) (fun o => (cr_index x <=? cr_index o)%N) = false).
  { destruct (last old) as [o|] eqn:Ho; [|done]. cbn. apply N.leb_gt.
    rewrite Forall_forall in Hord. apply last_Some_elem_of in Ho.
    specialize (Hord o Ho). by inversion_clear Hord. }
  rewrite Hlast, IH; [by rewrite <- app_assoc|done|].
  apply Forall_app. split; [|by constructor].
  eapply Forall_impl; [exact Hord|]. intros o Ho. by inversion_clear Ho.
Qed.

Lemma call_fresh old r calls :
  NoDup (map mc_call_id (old ++ r :: calls)) ->
  existsb (fun e => String.eqb (mc_call_id e) (mc_call_id r)) old = false.
Proof.
  intros Hnd. apply not_true_iff_false. intros (e & He & Heq%String.eqb_eq)%existsb_exists.
  rewrite map_app in Hnd. apply NoDup_app in Hnd as (_ & Hdis & _). apply (Hdis (mc_call_id e)).
  - apply list_elem_of_fmap. exists e. split; [done|by apply list_elem_of_In].
  - rewrite Heq. by left.
Qed.

Lemma push_calls_Ok old calls h :
  NoDup (map mc_call_id (old ++ calls)) ->
  try_fold push_call (old, h) calls = Ok (old ++ calls, archive_calls h calls).
Proof.
  revert old h. induction calls as [|r calls IH]; intros old h Hnd; cbn [try_fold].
  { by rewrite app_nil_r. }
  unfold push_call at 1. rewrite (call_fresh old r calls) by done.
  rewrite IH; rewrite <- app_assoc; done.
Qed.

Definition call_wire_ok (r : ModelCallRecord) : Prop :=
  model_call_record_check r = Ok tt /\ (mc_attempt r <= U32_MAX)%N /\ (mc_cycle_index r <= U32_MAX)%N.

Lemma read_calls_Ok calls :
  Forall call_wire_ok calls ->
  collect (fun v => ok_or (model_call_from_value v) history_invalid) (map model_call_to_value calls)
  = Ok calls.
Proof.
  intros Hw. apply collect_Ok. eapply Forall_impl; [exact Hw|].
  intros r (Hc & Ha & Hi). by rewrite model_call_wire.
Qed.

Lemma history_payload_reads key n previous cycles calls :
  exists m, history_payload key n previous cycles calls = Object m /\
    has_exactly history_fields m = true /\
    map_get "schema_version" m = Some (Str HISTORY_SCHEMA) /\
    map_get "checkpoint_key" m = Some (Str key) /\ map_get "sequence" m = Some (json_u64 n) /\
    map_get "previous_digest" m = Some (json_opt_str previous) /\
    map_get "cycles" m = Some (Array (map cycle_to_dict cycles)) /\
    map_get "model_calls" m = Some (Array (map model_call_to_value calls)).
Proof. eexists. split; [reflexivity|]. by repeat split. Qed.

(** A batch written by [normalize_checkpoint_history] is read back. *)
Lemma decode_batch_Ok key st raw cycles calls digest index :
  strict_json_value raw
    = Ok (history_payload key (index + 1) (dc_previous st) cycles calls) ->
  sha256_canonical (history_payload key (index + 1) (dc_previous st) cycles calls) = Ok digest ->
  (length cycles =? 0)%nat && (length calls =? 0)%nat = false ->
  Forall cycle_wire_ok cycles -> strictly_increasing (map cr_index cycles) = true ->
  Forall (fun o => Forall (fun n => (cr_index o < cr_index n)%N) cycles) (dc_cycles st) ->
  Forall call_wire_ok calls -> NoDup (map mc_call_id (dc_calls st ++ calls)) ->
  decode_batch key index st raw
  = Ok {| dc_cycles := dc_cycles st ++ cycles; dc_calls := dc_calls st ++ calls;
          dc_aggregate := archive_calls (dc_aggregate st) calls; dc_previous := Some digest |}.
Proof.
  intros Hraw Hdig Hne Hcw Hinc Hord Hrw Hnd. unfold decode_batch, batch_identity_ok.
  rewrite Hraw. cbn [map_err].
  destruct (history_payload_reads key (index + 1) (dc_previous st) cycles calls)
    as (m & Hm & Hf & H1 & H2 & H3 & H4 & H5 & H6).
  rewrite Hdig. rewrite Hm. cbn [as_object ok_or]. unfold get_str, get_u64. cbn [value_get].
  rewrite Hf, H1, H2, H3, H4, H5, H6. cbn [mbind option_bind as_str as_u64 json_u64 opt_is is_some_and as_array].
  rewrite !String.eqb_refl, N.eqb_refl, (proj2 (value_eqb_spec _ _) eq_refl). cbn [andb negb ok_or].
  rewrite push_cycles_Ok by done. rewrite read_calls_Ok by done.
  rewrite length_map, andb_comm, Hne. by rewrite push_calls_Ok.
Qed.

Lemma strictly_increasing_app l l' :
  strictly_increasing (l ++ l') = true -> strictly_increasing l = true.
Proof.
  induction l as [|x l IH]; [done|]. destruct l as [|y l]; [done|].
  cbn [app strictly_increasing] in *. rewrite !andb_true_iff. intros [? ?]. split; [done|].
  by apply IH.
Qed.

Lemma push_call_NoDup st r st' :
  NoDup (map mc_call_id st.1) -> push_call st r = Ok st' -> NoDup (map mc_call_id st'.1).
Proof.
  destruct st as [calls h]. unfold push_call. intros Hnd Hp. result_inv. cbn in *.
  rewrite map_app. apply NoDup_app. split; [done|]. split; [|apply NoDup_singleton].
  intros id (e & -> & He)%list_elem_of_fmap Hin%list_elem_of_singleton.
  apply not_true_iff_false in Hif. apply Hif, existsb_exists. exists e.
  split; [by apply list_elem_of_In|]. by apply String.eqb_eq.
Qed.

Lemma decode_batches_NoDup key i st l st' :
  NoDup (map mc_call_id (dc_calls st)) -> decode_batches key i st l = Ok st' ->
  NoDup (map mc_call_id (dc_calls st')).
Proof.
  revert i st. induction l as [|raw l IH]; intros i st Hnd Hd; cbn [decode_batches] in Hd.
  { by result_inv. }
  destruct (decode_batch key i st raw) as [st1|] eqn:Hb; [|done].
  eapply IH; [|exact Hd]. unfold decode_batch in Hb. result_inv.
  destruct a5 as [calls h]. result_inv. cbn [dc_calls].
  apply (try_fold_inv (fun s => NoDup (map mc_call_id s.1)) _ _ _ _ push_call_NoDup) in Hdo5; done.
Qed.

(** What it means for an archive to match a checkpoint. *)
Lemma decode_history_spec c payloads records :
  decode_checkpoint_history c payloads = Ok records <->
  exists st, decode_batches (cp_checkpoint_key c) 0 decoding_default payloads = Ok st /\
    N.of_nat (length payloads) = h_sequence (cp_history c) /\
    cp_history c = advance_history (dc_aggregate st) (N.of_nat (length payloads))
                     (N.of_nat (length (dc_cycles st))) (dc_previous st) /\
    (forall a b, a ∈ dc_cycles st -> b ∈ cp_cycles c -> cr_index b <> cr_index a) /\
    (forall a b, a ∈ dc_calls st -> b ∈ cp_model_calls c -> mc_call_id b <> mc_call_id a) /\
    records = {| hr_cycles := dc_cycles st; hr_model_calls := dc_calls st;
                 hr_frontier := cp_history c |}.
Proof.
  assert (Hdis : forall {A B} (f : A -> B -> bool) l l',
    existsb (fun a => existsb (f a) l') l = false <->
    forall a b, a ∈ l -> b ∈ l' -> f a b = false).
  { intros A B f l l'. rewrite <- not_true_iff_false, existsb_exists. split.
    - intros Hn a b Ha Hb. destruct (f a b) eqn:E; [|done]. exfalso. apply Hn. exists a.
      split; [by apply list_elem_of_In|]. apply existsb_exists. exists b.
      split; [by apply list_elem_of_In|done].
    - intros Hall (a & Ha & (b & Hb & E)%existsb_exists).
      rewrite (Hall a b) in E by (by apply list_elem_of_In). done. }
  unfold decode_checkpoint_history. split.
  - intros Hd. destruct (_ =? _)%N eqn:Hlen; [|done]. cbn [negb] in Hd.
    destruct (decode_batches _ _ _ _) as [st|] eqn:Hst; [|done]. exists st.
    result_inv. apply negb_false_iff, bool_decide_eq_true in Hif. rewrite <- Hif.
    apply orb_false_iff in Hif0 as [Hc Hr]. rewrite Hdis in Hc, Hr.
    split; [done|]. split; [by apply N.eqb_eq in Hlen; rewrite Hif|]. split; [done|].
    split; [intros a b Ha Hb; apply N.eqb_neq; by apply Hc|].
    split; [intros a b Ha Hb; apply String.eqb_neq; by apply Hr|done].
  - intros (st & -> & Hlen & Hh & Hc & Hr & ->). rewrite Hlen, N.eqb_refl. cbn [negb].
    rewrite <- Hlen, <- Hh, bool_decide_eq_true_2 by done. cbn [negb].
    rewrite (proj2 (Hdis _ _ _ _ _)) by (intros; apply N.eqb_neq; by apply Hc).
    rewrite (proj2 (Hdis _ _ _ _ _)) by (intros; apply String.eqb_neq; by apply Hr). done.
Qed.

Lemma checkpoint_inc c :
  validate_checkpoint c = Ok tt -> strictly_increasing (map cr_index (cp_cycles c)) = true.
Proof.
  intros (Hrec & _)%validate_parts. unfold check_records in Hrec. result_inv.
  by apply orb_false_iff in Hif as [_ Hinc%negb_false_iff].
Qed.

Lemma fresh_app (l l' : list ModelCallRecord) :
  NoDup (map mc_call_id l) -> NoDup (map mc_call_id l') ->
  (forall a b, a ∈ l -> b ∈ l' -> mc_call_id b <> mc_call_id a) ->
  NoDup (map mc_call_id (l ++ l')).
Proof.
  intros Hl Hl' Hd. rewrite map_app. apply NoDup_app. split; [done|]. split; [|done].
  intros id (a & -> & Ha)%list_elem_of_fmap (b & Hb & Hin)%list_elem_of_fmap. by eapply Hd.
Qed.

(** The archive of a run: it decodes against the checkpoint, and its cycles
    precede the active ones. *)
Definition archive_of (c : Checkpoint) (payloads : list string)
    (records : CheckpointHistoryRecords) : Prop :=
  decode_checkpoint_history c payloads = Ok records /\
  Forall (fun a => Forall (fun b => (cr_index a < cr_index b)%N) (cp_cycles c)) (hr_cycles records).

Lemma fresh_split (l l' : list ModelCallRecord) a b :
  NoDup (map mc_call_id (l ++ l')) -> a ∈ l -> b ∈ l' -> mc_call_id b <> mc_call_id a.
Proof.
  rewrite map_app. intros (_ & Hd & _)%NoDup_app Ha Hb Heq.
  apply (Hd (mc_call_id a)); apply list_elem_of_fmap; eauto.
Qed.

(** The batch that an archiving writes extends the archive by its records. *)
Lemma archived_decodes c c' st cycles calls batch payloads raw :
  validate_checkpoint c = Ok tt -> archived_into c c' cycles calls batch ->
  decode_batches (cp_checkpoint_key c) 0 decoding_default payloads = Ok st ->
  N.of_nat (length payloads) = h_sequence (cp_history c) ->
  h_head_digest (cp_history c) = dc_previous st ->
  Forall (fun o => Forall (fun n => (cr_index o < cr_index n)%N) cycles) (dc_cycles st) ->
  NoDup (map mc_call_id (dc_calls st ++ calls)) ->
  Forall cycle_wire_ok cycles -> Forall call_wire_ok calls ->
  strict_json_value raw = Ok (hb_payload batch) ->
  decode_batches (cp_checkpoint_key c') 0 decoding_default (payloads ++ [raw])
  = Ok {| dc_cycles := dc_cycles st ++ cycles; dc_calls := dc_calls st ++ calls;
          dc_aggregate := archive_calls (dc_aggregate st) calls;
          dc_previous := Some (hb_payload_digest batch) |}.
Proof.
  intros Hv [] Hst Hlen Hprev Hord Hnd Hcw Hrw Hraw.
  replace (cp_checkpoint_key c') with (cp_checkpoint_key c) by (by rewrite ai_frame0).
  pose proof (checkpoint_inc c Hv) as Hinc. rewrite ai_cycles0, map_app in Hinc.
  rewrite decode_batches_app, Hst. cbn [decode_batches]. rewrite N.add_0_l, Hlen.
  rewrite ai_payload0, ai_sequence0, Hprev in ai_digest0, Hraw.
  rewrite (decode_batch_Ok _ _ _ cycles calls (hb_payload_digest batch)); try done.
  by eapply strictly_increasing_app.
Qed.

(** Moving records from the active tail to the archive keeps the order. *)
Lemma archived_order c c' cycles calls batch old :
  archived_into c c' cycles calls batch ->
  Forall (fun a => Forall (fun b => (cr_index a < cr_index b)%N) (cp_cycles c)) old ->
  Forall (fun a => Forall (fun b => (cr_index a < cr_index b)%N) cycles) old /\
  Forall (fun a => Forall (fun b => (cr_index a < cr_index b)%N) (cp_cycles c')) (old ++ cycles).
Proof.
  intros [] Hord. rewrite ai_cycles0 in Hord. destruct ai_order0 as (retained & Ha & Hk & _).
  split; [|apply Forall_app; split].
  - eapply Forall_impl; [exact Hord|]. by intros a [? _]%Forall_app.
  - eapply Forall_impl; [exact Hord|]. by intros a [_ ?]%Forall_app.
  - eapply Forall_impl; [exact Ha|]. intros a Hlt. eapply Forall_impl; [exact Hk|].
    intros b Hle. cbn in *. lia.
Qed.

Lemma archive_extends c c' payloads records batch raw :
  validate_checkpoint c = Ok tt -> archive_of c payloads records ->
  Forall cycle_wire_ok (cp_cycles c) -> Forall call_wire_ok (cp_model_calls c) ->
  normalize_checkpoint_history c = Ok (c', Some batch) ->
  strict_json_value raw = Ok (hb_payload batch) ->
  exists records', archive_of c' (payloads ++ [raw]) records' /\
    hr_cycles records' ++ cp_cycles c' = hr_cycles records ++ cp_cycles c /\
    hr_model_calls records' ++ cp_model_calls c' ≡ₚ hr_model_calls records ++ cp_model_calls c.
Proof.
  intros Hv [Hdec Hord] Hcw Hrw Hn Hraw. pose proof (wf_model_calls c (validate_wf c Hv)) as Hids.
  destruct (normalize_spec c c' _ Hv Hn) as (cycles & calls & Harch). pose proof Harch as [].
  apply decode_history_spec in Hdec as (st & Hst & Hlen & Hh & Hdc & Hdr & ->).
  cbn [hr_cycles hr_model_calls] in *.
  destruct (archived_order _ _ _ _ _ _ Harch Hord) as [Hord1 Hord2].
  rewrite ai_cycles0 in Hcw. rewrite ai_calls0 in Hrw, Hids.
  apply Forall_app in Hcw as [Hcw _], Hrw as [Hrw _].
  assert (Hnd : NoDup (map mc_call_id ((dc_calls st ++ calls) ++ cp_model_calls c'))).
  { rewrite <- app_assoc. apply fresh_app; [|done|intros a b Ha Hb; apply (Hdr a b Ha); by rewrite ai_calls0].
    eapply decode_batches_NoDup; [|exact Hst]. constructor. }
  pose proof Hnd as Hnd'. rewrite map_app in Hnd'. apply NoDup_app in Hnd' as [Hnd' _].
  pose proof (archived_decodes c c' st cycles calls batch payloads raw Hv Harch Hst Hlen
                ltac:(by rewrite Hh) Hord1 Hnd' Hcw Hrw Hraw) as Hst'.
  set (st' := {| dc_cycles := _ |}) in Hst'.
  exists {| hr_cycles := dc_cycles st'; hr_model_calls := dc_calls st'; hr_frontier := cp_history c' |}.
  split; [split; [|done]|split].
  - apply decode_history_spec. exists st'. split; [done|]. rewrite ai_history0, ai_sequence0, length_app.
    cbn [dc_aggregate dc_cycles dc_calls dc_previous st' h_sequence advance_history length].
    split; [lia|]. split.
    { rewrite Hh at 1. rewrite archive_calls_advance, advance_advance, length_app.
      f_equal; [lia|]. rewrite Hh. cbn [h_cycle_count advance_history]. lia. }
    split; [|split; [|done]].
    + intros a b Ha Hb. rewrite Forall_forall in Hord2. specialize (Hord2 a Ha).
      rewrite Forall_forall in Hord2. specialize (Hord2 b Hb). cbn in Hord2. lia.
    + intros a b. by apply fresh_split.
  - cbn. by rewrite ai_cycles0, <- app_assoc.
  - cbn. by rewrite ai_calls0, <- app_assoc.
Qed.

(** A result that repeats the active cycles is completed by the archive. *)
Lemma hydrate_cycles_Ok old cycles :
  Forall (fun a => Forall (fun b => (cr_index a < cr_index b)%N) cycles) old ->
  strictly_increasing (map cr_index cycles) = true ->
  try_fold hydrate_cycle old cycles = Ok (old ++ cycles).
Proof.
  revert old. induction cycles as [|x l IH]; intros old Hord Hinc; cbn [try_fold].
  { by rewrite app_nil_r. }
  destruct (strictly_increasing_tail (cr_index x) (map cr_index l) Hinc) as [Hinc' Hall].
  apply (proj1 (Forall_fmap cr_index _ l)) in Hall.
  unfold hydrate_cycle at 1. destruct (List.find _ old) as [e|] eqn:Hf.
  { apply List.find_some in Hf as [He Heq%N.eqb_eq]. rewrite Forall_forall in Hord.
    specialize (Hord e ltac:(by apply list_elem_of_In)). inversion_clear Hord. lia. }
  rewrite IH; [by rewrite <- app_assoc| |done].
  apply Forall_app. split; [|by constructor].
  eapply Forall_impl; [exact Hord|]. intros a Ha. by inversion_clear Ha.
Qed.

Lemma hydrate_calls_Ok old calls :
  NoDup (map mc_call_id (old ++ calls)) -> try_fold hydrate_call old calls = Ok (old ++ calls).
Proof.
  revert old. induction calls as [|r calls IH]; intros old Hnd; cbn [try_fold].
  { by rewrite app_nil_r. }
  unfold hydrate_call at 1. rewrite (call_fresh old r calls) by done.
  rewrite IH; rewrite <- app_assoc; done.
Qed.

Lemma hydrate_Ok c payloads records r :
  validate_checkpoint c = Ok tt -> archive_of c payloads records ->
  (0 < h_sequence (cp_history c))%N -> ar_cycles r = cp_cycles c ->
  exists r', hydrate_checkpoint_result (decode_checkpoint_history c payloads) c r = Ok r' /\
    ar_cycles r' = hr_cycles records ++ cp_cycles c /\
    tt_model_calls (ar_token_usage r') = hr_model_calls records ++ cp_model_calls c /\
    ar_status r' = ar_status r /\ ar_messages r' = ar_messages r.
Proof.
  intros Hv [Hdec Hord] Hseq Hr. unfold hydrate_checkpoint_result. rewrite Hdec.
  apply decode_history_spec in Hdec as (st & Hst & _ & _ & _ & Hdr & ->).
  cbn [hr_cycles hr_model_calls hr_frontier] in *.
  rewrite (proj2 (N.eqb_neq _ 0)) by lia. rewrite bool_decide_eq_true_2 by done. cbn [negb].
  assert (Hnd : NoDup (map mc_call_id (dc_calls st ++ cp_model_calls c))).
  { apply fresh_app; [|exact (wf_model_calls c (validate_wf c Hv))|done].
    eapply decode_batches_NoDup; [|exact Hst]. constructor. }
  rewrite Hr, hydrate_cycles_Ok by (done || by apply checkpoint_inc).
  rewrite hydrate_calls_Ok, summarize_distinct by done. eexists. by repeat split.
Qed.
End ReadLemmas.

(** ** Properties *)

Section HistoryProperties.
Context `{Env}.

(** Archiving a valid checkpoint either leaves it as it is or moves a
    non-empty batch out of it: the archived cycles are the prefix of the active
    ones below the retained cycle, the archived model calls belong to those
    cycles, nothing is lost or duplicated, the batch carries the next sequence
    number and the previous head digest, the cursor counts it, and the smaller
    checkpoint is valid again and otherwise unchanged. *)
Theorem archive_partition (c c' : Checkpoint) (ob : option CheckpointHistoryBatch) :
  validate_checkpoint c = Ok tt ->
  normalize_checkpoint_history c = Ok (c', ob) ->
  match ob with
  | None => c' = c
  | Some batch => exists cycles calls, archived_into c c' cycles calls batch
  end.
Proof. apply normalize_spec. Qed.

(** (C39) The archive is lossless.  If the batches stored so far decode
    against a valid checkpoint and the next batch is stored as a text that
    reads back as its payload, then the longer archive decodes against the
    shrunken checkpoint; archived and active cycles together are the same list
    as before, archived and active model calls together the same records; and
    hydrating a result that carries only the active cycles restores all of
    them. *)
Theorem archive_lossless `{StrictJson} (c c' : Checkpoint) (payloads : list string)
    (records : CheckpointHistoryRecords) (batch : CheckpointHistoryBatch) (raw : string) :
  validate_checkpoint c = Ok tt -> archive_of c payloads records ->
  Forall cycle_wire_ok (cp_cycles c) -> Forall call_wire_ok (cp_model_calls c) ->
  normalize_checkpoint_history c = Ok (c', Some batch) ->
  strict_json_value raw = Ok (hb_payload batch) ->
  exists records', archive_of c' (payloads ++ [raw]) records' /\
    hr_cycles records' ++ cp_cycles c' = hr_cycles records ++ cp_cycles c /\
    hr_model_calls records' ++ cp_model_calls c' ≡ₚ hr_model_calls records ++ cp_model_calls c /\
    forall r, ar_cycles r = cp_cycles c' ->
      exists r', hydrate_checkpoint_result (decode_checkpoint_history c' (payloads ++ [raw])) c' r
                 = Ok r' /\
        ar_cycles r' = hr_cycles records ++ cp_cycles c /\
        tt_model_calls (ar_token_usage r') ≡ₚ hr_model_calls records ++ cp_model_calls c.
Proof.
  intros Hv Ha Hcw Hrw Hn Hraw.
  destruct (archive_extends c c' payloads records batch raw Hv Ha Hcw Hrw Hn Hraw)
    as (records' & Ha' & Hc & Hm).
  exists records'. split; [done|]. split; [done|]. split; [done|]. intros r Hr.
  destruct (normalize_spec c c' _ Hv Hn) as (cycles & calls & []).
  destruct (hydrate_Ok c' (payloads ++ [raw]) records' r ai_valid0 Ha') as (r' & Hh & Hrc & Hrm & _);
    [rewrite ai_history0; cbn; lia|done|].
  exists r'. by rewrite <- Hc, <- Hm, <- Hrc, <- Hrm.
Qed.
End HistoryProperties.

(** *** Witnesses *)

(** Two finished cycles; the first and its model call can be archived. *)
Definition sample_cycle (i : N) : CycleRecord :=
  {| cr_index := i; cr_assistant_message := "done"; cr_tool_calls := []; cr_tool_results := [];
     cr_memory_compacted := false |}.
Definition sample_two_cycles : Checkpoint :=
  set_model_calls (set_cycle_index (set_cycles sample_identity [sample_cycle 1; sample_cycle 2]) 2)
    [sample_record].
Local Abbreviation sample_archived :=
  (@normalize_checkpoint_history toy_env sample_two_cycles).

Definition archived_some (r : result (Checkpoint * option CheckpointHistoryBatch)) : bool :=
  match r with Ok (_, Some _) => true | _ => false end.
Definition archived_batch (r : result (Checkpoint * option CheckpointHistoryBatch)) :=
  match r with
  | Ok (_, Some b) => b
  | _ => {| hb_payload := Null; hb_payload_digest := EmptyString; hb_sequence := 0 |}
  end.
Definition archived_checkpoint (r : result (Checkpoint * option CheckpointHistoryBatch)) :=
  match r with Ok (c, _) => c | Err _ => sample_two_cycles end.
Lemma archived_some_eq r :
  archived_some r = true -> r = Ok (archived_checkpoint r, Some (archived_batch r)).
Proof. by destruct r as [[c [b|]]|]. Qed.

Definition sample_batch : CheckpointHistoryBatch := archived_batch sample_archived.
Definition sample_shrunk : Checkpoint := archived_checkpoint sample_archived.
Definition toy_strict : StrictJson :=
  {| strict_json_value := fun s =>
       if String.eqb s "batch-1" then Ok (hb_payload sample_batch) else Err "json_invalid" |}.

Example sample_archive_runs : archived_some sample_archived = true.
Proof. vm_compute. reflexivity. Qed.
Example sample_two_runs : is_ok (@validate_checkpoint toy_env sample_two_cycles) = true.
Proof. vm_compute. reflexivity. Qed.
Lemma sample_two_valid : @validate_checkpoint toy_env sample_two_cycles = Ok tt.
Proof. exact (is_ok_unit _ sample_two_runs). Qed.
Lemma sample_archived_eq : sample_archived = Ok (sample_shrunk, Some sample_batch).
Proof. exact (archived_some_eq sample_archived sample_archive_runs). Qed.

Lemma archive_partition_witness :
  exists cycles calls, @archived_into toy_env sample_two_cycles sample_shrunk cycles calls sample_batch.
Proof.
  exact (@archive_partition toy_env _ _ _ sample_two_valid sample_archived_eq).
Defined.

Lemma archive_lossless_witness :
  exists records', @archive_of toy_env toy_strict sample_shrunk ["batch-1"] records' /\
    hr_cycles records' ++ cp_cycles sample_shrunk = [sample_cycle 1; sample_cycle 2].
Proof.
  destruct (@archive_lossless toy_env toy_strict sample_two_cycles sample_shrunk []
              history_records_default sample_batch "batch-1" sample_two_valid)
    as (records' & Ha & Hc & _).
  - split; [reflexivity|constructor].
  - repeat constructor; by vm_compute.
  - repeat constructor; by vm_compute.
  - exact sample_archived_eq.
  - reflexivity.
  - exists records'. exact (conj Ha Hc).
Defined.
