(* ===== verification/CheckpointCodec.v ===== *)
(** * The checkpoint codec

    [runtime/checkpoint_codec.rs]: the v12 wire form of a checkpoint as the
    stores persist it.  The writer validates and lists every field; the
    reader refuses unknown and missing fields, decodes the fields in order,
    and validates what it built.  The text reader is [serde_json]'s
    deserializer, which is not part of this crate, driven by a visitor that
    refuses repeated keys, which is. *)

From Stdlib Require Import String NArith ZArith Sorted Lia.
From stdpp Require Import base strings list sets.
From S2P Require Import Prelude Json Canonical CheckpointTypes ToolResult Journal TokenUsage Budget.
From S2P Require Import BudgetWire Records ResultCodec Events HostInteraction Checkpoint History.

(** ** The strict JSON reader *)

(** What the deserializer shows its visitor, in the order of the text. *)
Inductive Json : Type :=
| JUnit
| JBool (b : bool)
| JI64 (z : Z)
| JU64 (n : N)
| JF64 (bits : Z)
| JStr (s : string)
| JSeq (items : list Json)
| JMap (entries : list (string * Json)).

(** [serde_json::Deserializer::from_str], run to the end of the text. *)
Class JsonDeserializer := { json_tokens : string -> option Json }.

(** [Number::from(i64)] and [Number::from_f64]; the bit pattern of the
    negative zero is that of zero. *)
Definition number_from_i64 (z : Z) : Number := if (z <? 0)%Z then NegInt z else PosInt (Z.to_N z).
Definition number_from_f64 (bits : Z) : option Number :=
  if Z.eqb (Z.land (Z.shiftr bits 52) 2047) 2047 then None
  else Some (Float (if Z.eqb bits (2 ^ 63) then 0%Z else bits)).

(** [StrictValueVisitor]: [visit_seq] and [visit_map] over the visitor of the
    elements. *)
Section Visit.
Context (visit : Json -> option Value).
Fixpoint visit_seq (values : list Value) (l : list Json) : option (list Value) :=
  match l with
  | [] => Some values
  | x :: r => value ← visit x; visit_seq (values ++ [value]) r
  end.
Fixpoint visit_map (values : object) (l : list (string * Json)) : option object :=
  match l with
  | [] => Some values
  | (key, x) :: r =>
      if map_contains_key key values then None
      else value ← visit x; visit_map (map_insert key value values) r
  end.
End Visit.

Fixpoint strict_value (j : Json) : option Value :=
  match j with
  | JUnit => Some Null
  | JBool b => Some (Bool b)
  | JI64 z => Some (Num (number_from_i64 z))
  | JU64 n => Some (Num (PosInt n))
  | JF64 bits => Num <$> number_from_f64 bits
  | JStr s => Some (Str s)
  | JSeq l => Array <$> visit_seq strict_value [] l
  | JMap l => Object <$> visit_map strict_value [] l
  end.

#[global] Instance strict_reader `{JsonDeserializer} : StrictJson :=
  {| strict_json_value := fun payload =>
       ok_or (json_tokens payload ≫= strict_value) "checkpoint_json_invalid" |}.

(** ** Aggregated history *)

(** [required_safe_token_count] and [aggregate_cache_totals]. *)
Definition required_safe_token_count (o : option Value) : option (option N) :=
  value ← required_option as_u64 o;
  if is_some_and value (fun n => (MAX_WIRE_INTEGER <? n)%N) then None else Some value.
Definition aggregate_cache_totals (v : Value) : option CacheUsage :=
  cache ← cache_usage_from_value v;
  if negb (opt_is (cu_source cache) "aggregate")
     || existsb (fun o => is_some_and o (fun n => (MAX_WIRE_INTEGER <? n)%N))
          [cu_read_input_tokens cache; cu_write_input_tokens cache;
           cu_uncached_input_tokens cache]
  then None else Some cache.

Definition totals_fields : list string :=
  ["input_tokens"; "output_tokens"; "total_tokens"; "reasoning_tokens"; "cache_usage"].
Definition totals_to_value (t : TaskTokenUsageTotals) : Value :=
  json_object [
    ("input_tokens", json_opt_u64 (to_input_tokens t));
    ("output_tokens", json_opt_u64 (to_output_tokens t));
    ("total_tokens", json_opt_u64 (to_total_tokens t));
    ("reasoning_tokens", json_opt_u64 (to_reasoning_tokens t));
    ("cache_usage", cache_usage_to_value (to_cache_usage t))].
Definition totals_from_value (v : Value) : option TaskTokenUsageTotals :=
  fields ← serde_strict_struct totals_fields v;
  match fields with
  | [a; b; c; d; e] =>
      input ← required_safe_token_count a;
      output ← required_safe_token_count b;
      total ← required_safe_token_count c;
      reasoning ← required_safe_token_count d;
      cache ← e ≫= aggregate_cache_totals;
      Some {| to_input_tokens := input; to_output_tokens := output; to_total_tokens := total;
              to_reasoning_tokens := reasoning; to_cache_usage := cache |}
  | _ => None
  end.

Definition previous_fields : list string := ["cycle_index"; "input_tokens"].
Definition previous_to_value (p : PreviousAgentInput) : Value :=
  json_object [("cycle_index", json_u64 (pa_cycle_index p));
               ("input_tokens", json_opt_u64 (pa_input_tokens p))].
Definition previous_from_value (v : Value) : option PreviousAgentInput :=
  fields ← serde_strict_struct previous_fields v;
  match fields with
  | [a; b] =>
      cycle ← a ≫= as_u32_value;
      input ← required_option as_u64 b;
      Some {| pa_cycle_index := cycle; pa_input_tokens := input |}
  | _ => None
  end.

Definition cursor_fields : list string :=
  ["sequence"; "cycle_count"; "model_call_count"; "head_digest"; "usage"; "previous_agent_input"].
Definition history_to_value (h : CheckpointHistory) : Value :=
  json_object [
    ("sequence", json_u64 (h_sequence h));
    ("cycle_count", json_u64 (h_cycle_count h));
    ("model_call_count", json_u64 (h_model_call_count h));
    ("head_digest", json_opt_str (h_head_digest h));
    ("usage", totals_to_value (h_usage h));
    ("previous_agent_input", opt_to_value previous_to_value (h_previous_agent_input h))].
Definition history_from_value (v : Value) : option CheckpointHistory :=
  fields ← serde_strict_struct cursor_fields v;
  match fields with
  | [a; b; c; d; e; f] =>
      sequence ← a ≫= as_u64;
      cycles ← b ≫= as_u64;
      calls ← c ≫= as_u64;
      head ← required_option as_str d;
      usage ← e ≫= totals_from_value;
      previous ← required_option previous_from_value f;
      Some {| h_sequence := sequence; h_cycle_count := cycles; h_model_call_count := calls;
              h_head_digest := head; h_usage := usage; h_previous_agent_input := previous |}
  | _ => None
  end.

(** ** Field readers *)

Definition status_of_str (s : string) : option CheckpointStatus :=
  if String.eqb s "pending" then Some PendingS
  else if String.eqb s "running" then Some RunningS
  else if String.eqb s "deferred" then Some DeferredS
  else if String.eqb s "host_interaction" then Some HostInteractionS
  else if String.eqb s "suspended" then Some SuspendedS
  else if String.eqb s "wait_user" then Some WaitUserS
  else if String.eqb s "completed" then Some CompletedS
  else if String.eqb s "failed" then Some FailedS
  else if String.eqb s "max_cycles" then Some MaxCyclesS
  else if String.eqb s "reconciliation_required" then Some ReconciliationRequiredS
  else None.
Definition parse_status (m : object) (field : string) : result CheckpointStatus :=
  let? value := required_string m field "checkpoint_status_invalid" in
  ok_or (status_of_str value) "checkpoint_status_invalid".

Definition parse_bool (m : object) (field : string) : result bool :=
  ok_or (map_get field m ≫= as_bool) "checkpoint_status_invalid".

(** [None | Some(Value::Null) => Ok(None)], else the reader. *)
Definition parse_optional {A} (decode : Value -> result A) (o : option Value)
    : result (option A) :=
  match o with
  | None | Some Null => Ok None
  | Some v => let? a := decode v in Ok (Some a)
  end.

Definition parse_list {A} (decode : Value -> result A) (o : option Value) (code : string)
    : result (list A) :=
  let? values := ok_or (o ≫= as_array) code in
  collect decode values.

Definition parse_array (m : object) (field : string) : result (list Value) :=
  ok_or (map_get field m ≫= as_array) "checkpoint_field_invalid".
Definition parse_entries {A} (decode : Value -> result A) (m : object) (field : string)
    : result (list A) :=
  let? values := parse_array m field in
  collect decode values.

Definition parse_object_map (m : object) (field code : string) : result object :=
  ok_or (map_get field m ≫= as_object) code.

Definition parse_optional_string (m : object) (field : string) : result (option string) :=
  match map_get field m with
  | None | Some Null => Ok None
  | Some (Str s) => Ok (Some s)
  | Some _ => Err "checkpoint_claim_invalid"
  end.
Definition parse_optional_u64 (m : object) (field : string) : result (option N) :=
  match map_get field m with
  | None | Some Null => Ok None
  | Some (Num (PosInt n)) => Ok (Some n)
  | Some _ => Err "checkpoint_integer_invalid"
  end.
Definition parse_optional_value (m : object) (field : string) : option Value :=
  get_non_null m field.

Definition decode_history (v : Value) : result CheckpointHistory :=
  ok_or (history_from_value v) history_invalid.
Definition decode_budget (v : Value) : result BudgetUsageSnapshot :=
  ok_or (usage_from_value v) "checkpoint_budget_usage_invalid".
Definition parse_optional_budget : option Value -> result (option BudgetUsageSnapshot) :=
  parse_optional decode_budget.
Definition parse_optional_event_cursor : option Value -> result (option EventCursor) :=
  parse_optional cursor_from_value.
Definition decode_model_call (v : Value) : result ModelCallRecord :=
  ok_or (model_call_from_value v) "checkpoint_model_calls_invalid".
Definition parse_model_calls (o : option Value) : result (list ModelCallRecord) :=
  parse_list decode_model_call o "checkpoint_model_calls_invalid".

Definition KNOWN_FIELDS : list string :=
  ["schema_version"; "run_definition_schema"; "run_definition"; "checkpoint_key"; "task_id";
   "root_run_id"; "trace_id"; "run_definition_digest"; "resume_attempt"; "cycle_index"; "status";
   "cancel_requested"; "active_host_interaction"; "suspended_origin"; "messages"; "cycles";
   "model_calls"; "history"; "shared_state"; "budget_usage"; "event_cursor"; "event_outbox";
   "extension_state"; "model_call_journal"; "tool_journal"; "revision"; "claim_token";
   "claimed_cycle"; "lease_expires_at_ms"; "terminal_result"; "terminal_acknowledged"].

Section Codec.
Context `{Env}.

Definition decode_message (v : Value) : result Message :=
  map_err (message_from_dict v) "checkpoint_messages_invalid".
Definition parse_messages (o : option Value) : result (list Message) :=
  parse_list decode_message o "checkpoint_messages_invalid".
Definition decode_cycle (v : Value) : result CycleRecord :=
  map_err (cycle_from_dict v) "checkpoint_cycles_invalid".
Definition parse_cycles (o : option Value) : result (list CycleRecord) :=
  parse_list decode_cycle o "checkpoint_cycles_invalid".
Definition parse_optional_host_interaction
    : option Value -> result (option HostInteractionRequest) :=
  parse_optional request_from_value.
Definition parse_optional_suspended_origin : option Value -> result (option SuspendedOrigin) :=
  parse_optional origin_from_value.
Definition parse_extensions (o : option Value) : result (list (string * ExtensionStateEntry)) :=
  let? entries := ok_or (o ≫= as_object) "checkpoint_extension_state_invalid" in
  collect (fun '(namespace, v) => let? e := extension_from_value v in Ok (namespace, e)) entries.

(** ** Writing *)

Definition checkpoint_to_map (c : Checkpoint) : object :=
  map_of_list [
    ("schema_version", Str CHECKPOINT_SCHEMA);
    ("run_definition_schema", Str RUN_DEFINITION_SCHEMA);
    ("run_definition", cp_run_definition c);
    ("checkpoint_key", Str (cp_checkpoint_key c));
    ("task_id", Str (cp_task_id c));
    ("root_run_id", Str (cp_root_run_id c));
    ("trace_id", Str (cp_trace_id c));
    ("run_definition_digest", Str (cp_run_definition_digest c));
    ("resume_attempt", json_u64 (cp_resume_attempt c));
    ("cycle_index", json_u64 (cp_cycle_index c));
    ("status", Str (status_as_str (cp_status c)));
    ("cancel_requested", Bool (cp_cancel_requested c));
    ("active_host_interaction", opt_to_value request_to_value (cp_active_host_interaction c));
    ("suspended_origin", opt_to_value origin_to_value (cp_suspended_origin c));
    ("messages", Array (map message_to_dict (cp_messages c)));
    ("cycles", Array (map cycle_to_dict (cp_cycles c)));
    ("model_calls", Array (map model_call_to_value (cp_model_calls c)));
    ("shared_state", Object (cp_shared_state c));
    ("history", history_to_value (cp_history c));
    ("budget_usage", opt_to_value usage_to_value (cp_budget_usage c));
    ("event_cursor", opt_to_value cursor_to_value (cp_event_cursor c));
    ("event_outbox", Array (map outbox_to_value (cp_event_outbox c)));
    ("extension_state",
      Object (map (fun '(namespace, e) => (namespace, extension_to_value e))
                (cp_extension_state c)));
    ("model_call_journal", Array (map entry_to_value (cp_model_call_journal c)));
    ("tool_journal", Array (map entry_to_value (cp_tool_journal c)));
    ("revision", json_u64 (cp_revision c));
    ("claim_token", json_opt_str (cp_claim_token c));
    ("claimed_cycle", json_opt_u64 (cp_claimed_cycle c));
    ("lease_expires_at_ms", json_opt_u64 (cp_lease_expires_at_ms c));
    ("terminal_result", unwrap_or (cp_terminal_result c) Null);
    ("terminal_acknowledged", Bool (cp_terminal_acknowledged c))].

Definition checkpoint_to_value (c : Checkpoint) (max_extension_state_bytes : N) : result Value :=
  do? validate_checkpoint c ;;
  do? validate_extension_state_size (cp_extension_state c) max_extension_state_bytes ;;
  Ok (Object (checkpoint_to_map c)).

Definition checkpoint_to_json (c : Checkpoint) (max_extension_state_bytes : N) : result string :=
  let? value := checkpoint_to_value c max_extension_state_bytes in
  canonical_json_bytes value.

(** ** Reading *)

(** The checks on the whole object. *)
Definition check_envelope (m : object) : result Value :=
  fail_if (negb (only_fields KNOWN_FIELDS m)) with "checkpoint_unknown_field" ;;
  fail_if (negb (opt_is (map_get "schema_version" m ≫= as_str) CHECKPOINT_SCHEMA))
  with "checkpoint_schema_unsupported" ;;
  let? schema := required_string m "run_definition_schema"
                   "checkpoint_definition_schema_unsupported" in
  fail_if (negb (String.eqb schema RUN_DEFINITION_SCHEMA))
  with "checkpoint_definition_schema_unsupported" ;;
  let? run_definition := ok_or (map_get "run_definition" m) "checkpoint_definition_invalid" in
  fail_if (existsb (fun field => negb (map_contains_key field m)) KNOWN_FIELDS)
  with "checkpoint_field_invalid" ;;
  Ok run_definition.

(** The struct literal: fields are decoded in its order. *)
Definition decode_fields (m : object) (run_definition : Value) : result Checkpoint :=
  let? checkpoint_key := required_string m "checkpoint_key" "checkpoint_key_invalid" in
  let? task_id := required_string m "task_id" "checkpoint_value_invalid" in
  let? root_run_id := required_string m "root_run_id" "checkpoint_value_invalid" in
  let? trace_id := required_string m "trace_id" "checkpoint_value_invalid" in
  let? digest := required_string m "run_definition_digest" "checkpoint_digest_invalid" in
  let? attempt := required_u64 m "resume_attempt" "checkpoint_resume_attempt_invalid" in
  let? cycle_index := required_u64 m "cycle_index" "checkpoint_cycle_invalid" in
  let? status := parse_status m "status" in
  let? cancel := parse_bool m "cancel_requested" in
  let? interaction := parse_optional_host_interaction (map_get "active_host_interaction" m) in
  let? origin := parse_optional_suspended_origin (map_get "suspended_origin" m) in
  let? messages := parse_messages (map_get "messages" m) in
  let? cycles := parse_cycles (map_get "cycles" m) in
  let? calls := parse_model_calls (map_get "model_calls" m) in
  let? history := decode_history (unwrap_or (map_get "history" m) Null) in
  let? shared := parse_object_map m "shared_state" "checkpoint_shared_state_invalid" in
  let? budget := parse_optional_budget (map_get "budget_usage" m) in
  let? cursor := parse_optional_event_cursor (map_get "event_cursor" m) in
  let? outbox := parse_entries outbox_from_value m "event_outbox" in
  let? extensions := parse_extensions (map_get "extension_state" m) in
  let? model_journal := parse_entries entry_from_value m "model_call_journal" in
  let? tool_journal := parse_entries entry_from_value m "tool_journal" in
  let? revision := required_u64 m "revision" "checkpoint_revision_invalid" in
  let? claim := parse_optional_string m "claim_token" in
  let? claimed := parse_optional_u64 m "claimed_cycle" in
  let? lease := parse_optional_u64 m "lease_expires_at_ms" in
  let? acknowledged := parse_bool m "terminal_acknowledged" in
  Ok {| cp_schema_version := CHECKPOINT_SCHEMA; cp_run_definition_schema := RUN_DEFINITION_SCHEMA;
        cp_run_definition := run_definition; cp_checkpoint_key := checkpoint_key;
        cp_task_id := task_id; cp_root_run_id := root_run_id; cp_trace_id := trace_id;
        cp_run_definition_digest := digest; cp_resume_attempt := attempt;
        cp_cycle_index := cycle_index; cp_status := status; cp_cancel_requested := cancel;
        cp_active_host_interaction := interaction; cp_suspended_origin := origin;
        cp_messages := messages; cp_cycles := cycles; cp_model_calls := calls;
        cp_history := history; cp_shared_state := shared; cp_budget_usage := budget;
        cp_event_cursor := cursor; cp_event_outbox := outbox; cp_extension_state := extensions;
        cp_model_call_journal := model_journal; cp_tool_journal := tool_journal;
        cp_revision := revision; cp_claim_token := claim; cp_claimed_cycle := claimed;
        cp_lease_expires_at_ms := lease;
        cp_terminal_result := parse_optional_value m "terminal_result";
        cp_terminal_acknowledged := acknowledged |}.

Definition checkpoint_from_value (payload : Value) (max_extension_state_bytes : N)
    : result Checkpoint :=
  let? m := ok_or (as_object payload) "checkpoint_payload_invalid" in
  let? run_definition := check_envelope m in
  let? c := decode_fields m run_definition in
  do? validate_checkpoint c ;;
  do? validate_extension_state_size (cp_extension_state c) max_extension_state_bytes ;;
  Ok c.

Definition checkpoint_from_json `{StrictJson} (payload : string) (max_extension_state_bytes : N)
    : result Checkpoint :=
  let? value := strict_json_value payload in
  checkpoint_from_value value max_extension_state_bytes.
End Codec.

(** ** The strict reader accepts what has one reading *)

Section JsonInd.
Variable P : Json -> Prop.
Hypothesis HUnit : P JUnit.
Hypothesis HBool : forall b, P (JBool b).
Hypothesis HI64 : forall z, P (JI64 z).
Hypothesis HU64 : forall n, P (JU64 n).
Hypothesis HF64 : forall bits, P (JF64 bits).
Hypothesis HStr : forall s, P (JStr s).
Hypothesis HSeq : forall l, Forall P l -> P (JSeq l).
Hypothesis HMap : forall l : list (string * Json), Forall (fun kv => P kv.2) l -> P (JMap l).

Fixpoint Json_nested (j : Json) : P j :=
  match j with
  | JUnit => HUnit
  | JBool b => HBool b
  | JI64 z => HI64 z
  | JU64 n => HU64 n
  | JF64 bits => HF64 bits
  | JStr s => HStr s
  | JSeq l =>
      HSeq l ((fix go l : Forall P l :=
        match l with
        | [] => Forall_nil_2 _
        | x :: r => Forall_cons_2 _ x r (Json_nested x) (go r)
        end) l)
  | JMap l =>
      HMap l ((fix go (l : list (string * Json)) : Forall (fun kv => P kv.2) l :=
        match l with
        | [] => Forall_nil_2 _
        | x :: r => Forall_cons_2 _ x r (Json_nested x.2) (go r)
        end) l)
  end.
End JsonInd.

(** The text spells the value: an object lists each entry of the map once, in
    any order. *)
Inductive spells : Json -> Value -> Prop :=
| spells_unit : spells JUnit Null
| spells_bool b : spells (JBool b) (Bool b)
| spells_i64 z : spells (JI64 z) (Num (number_from_i64 z))
| spells_u64 n : spells (JU64 n) (Num (PosInt n))
| spells_f64 bits n : number_from_f64 bits = Some n -> spells (JF64 bits) (Num n)
| spells_str s : spells (JStr s) (Str s)
| spells_seq l vs : Forall2 spells l vs -> spells (JSeq l) (Array vs)
| spells_map l l' m :
    l ≡ₚ l' -> Forall2 (fun x y => x.1 = y.1 /\ spells x.2 y.2) l' m -> map_wf m ->
    spells (JMap l) (Object m).

Definition same_entry (f : Json -> option Value) (x : string * Json) (y : string * Value) : Prop :=
  x.1 = y.1 /\ f x.2 = Some y.2.

Lemma visit_seq_spec f l values r :
  visit_seq f values l = Some r <->
  exists vs, r = values ++ vs /\ Forall2 (fun x v => f x = Some v) l vs.
Proof.
  revert values. induction l as [|x l IH]; intros values; cbn.
  - split; [intros [= <-]; exists []; by rewrite app_nil_r|].
    intros (vs & -> & Hf). apply Forall2_nil_inv_l in Hf as ->. by rewrite app_nil_r.
  - split.
    + intros (v & Hv & Hr)%bind_Some. apply IH in Hr as (vs & -> & Hf).
      exists (v :: vs). rewrite <- app_assoc. by split; [|constructor].
    + intros (vs & -> & (v & vs' & Hv & Hf & ->)%Forall2_cons_inv_l). rewrite Hv. cbn.
      apply IH. exists vs'. by rewrite <- app_assoc.
Qed.

Lemma visit_map_spec f l values r :
  visit_map f values l = Some r <->
  exists kvs, Forall2 (same_entry f) l kvs /\ NoDup (map fst kvs) /\
    (forall k, k ∈ map fst kvs -> k ∉ map_keys values) /\
    r = foldl (fun m '(k, v) => map_insert k v m) values kvs.
Proof.
  revert values. induction l as [|[k x] l IH]; intros values; cbn [visit_map].
  - split; [intros [= <-]; exists []; repeat split; [constructor..|set_solver]|].
    intros (kvs & Hf & _ & _ & ->). by apply Forall2_nil_inv_l in Hf as ->.
  - destruct (map_contains_key k values) eqn:E.
    + apply map_contains_key_spec in E. split; [done|].
      intros (kvs & ([j v] & kvs' & [Hk _] & _ & ->)%Forall2_cons_inv_l & _ & Hd & _).
      cbn in Hk. subst j. destruct (Hd k); [set_solver|done].
    + assert (Hk : k ∉ map_keys values)
        by (rewrite <- map_contains_key_spec; congruence).
      split.
      * intros (v & Hv & Hr)%bind_Some. apply IH in Hr as (kvs & Hf & Hnd & Hd & ->).
        exists ((k, v) :: kvs). split; [by constructor|]. split.
        -- cbn. constructor; [|done]. intros Hin. apply (Hd k Hin), map_keys_insert. by left.
        -- split; [|done]. cbn. intros j [->|Hj]%elem_of_cons; [done|].
           intros Hin. apply (Hd j Hj), map_keys_insert. by right.
      * intros (kvs & ([j v] & kvs' & [Hj Hv] & Hf & ->)%Forall2_cons_inv_l & Hnd & Hd & ->).
        cbn in Hj, Hv, Hnd, Hd. subst j. rewrite Hv. cbn. apply NoDup_cons in Hnd as [Hn Hnd].
        apply IH. exists kvs'. split; [done|]. split; [done|]. split; [|done].
        intros j Hj [->|Hin]%map_keys_insert; [done|]. apply (Hd j); [set_solver|done].
Qed.

Lemma visit_map_perm f l m :
  visit_map f [] l = Some m <->
  exists l', l ≡ₚ l' /\ Forall2 (same_entry f) l' m /\ map_wf m.
Proof.
  rewrite visit_map_spec. split.
  - intros (kvs & Hf & Hnd & _ & ->). change (foldl _ [] kvs) with (map_of_list kvs).
    apply Forall2_flip in Hf.
    destruct (Permutation_Forall2 (symmetry (map_of_list_perm kvs Hnd)) Hf) as (l' & Hp & Hf').
    exists l'. split; [done|]. split; [by apply Forall2_flip|apply map_of_list_wf].
  - intros (l' & Hp & Hf & Hw).
    destruct (Permutation_Forall2 (symmetry Hp) Hf) as (kvs & Hp' & Hf').
    assert (Hnd : NoDup (map fst kvs)).
    { rewrite <- (Permutation_map fst Hp'). by apply map_wf_NoDup. }
    exists kvs. split; [done|]. split; [done|]. split; [set_solver|].
    change (foldl _ [] kvs) with (map_of_list kvs).
    apply map_wf_unique; [done|apply map_of_list_wf|]. by rewrite map_of_list_perm.
Qed.

Lemma Forall2_agree {A B} (R S : A -> B -> Prop) l m :
  Forall (fun x => forall y, R x y <-> S x y) l -> Forall2 R l m <-> Forall2 S l m.
Proof.
  intros Ha. split; intros Hf; induction Hf as [|x y l m Hx Hf IH]; try constructor;
    apply Forall_cons in Ha as [Hxy Ha]; [by apply Hxy|by apply IH..|by apply Hxy|by apply IH].
Qed.

Lemma strict_value_spells j v : strict_value j = Some v <-> spells j v.
Proof.
  revert v. induction j as [|b|z|n|bits|s|l IH|l IH] using Json_nested; intros v; cbn.
  1-4, 6: split; [intros [= <-]; constructor|by inversion 1].
  - rewrite fmap_Some. split; [intros (n & Hn & ->); by constructor|].
    inversion 1; subst. eauto.
  - rewrite fmap_Some. setoid_rewrite visit_seq_spec. cbn.
    setoid_rewrite (Forall2_agree _ spells l _ IH). split.
    + intros (vs & (vs' & -> & Hf) & ->). by constructor.
    + inversion 1 as [| | | | | |l0 vs Hf|]; subst. eauto.
  - rewrite fmap_Some. setoid_rewrite visit_map_perm.
    assert (Ha : forall l', l ≡ₚ l' -> forall m, Forall2 (same_entry strict_value) l' m
        <-> Forall2 (fun x y => x.1 = y.1 /\ spells x.2 y.2) l' m).
    { intros l' Hp m. apply Forall2_agree. rewrite Hp in IH.
      eapply Forall_impl; [exact IH|]. intros x Hx y. unfold same_entry. split; intros [Hk Hv]; (split; [done|by apply Hx]). }
    split.
    + intros (m & (l' & Hp & Hf & Hw) & ->). econstructor; [exact Hp|by apply Ha|done].
    + inversion 1 as [| | | | | | |l0 l' m Hp Hf Hw]; subst. exists m. split; [|done].
      exists l'. split; [done|]. split; [by apply Ha|done].
Qed.

(** ** Field by field *)

(** A writer and a reader that agree on the values of [ok]; the form they
    share is never [null], which stands for an absent optional. *)
Class Wire {A} (enc : A -> Value) (dec : Value -> result A) (ok : A -> Prop) : Prop := {
  wire_reads a : ok a -> dec (enc a) = Ok a;
  wire_present a : enc a <> Null
}.

Section WireLemmas.
Context {A : Type} (enc : A -> Value) (dec : Value -> result A) (ok : A -> Prop).
Context `{!Wire enc dec ok}.

Lemma wire_optional o :
  (forall a, o = Some a -> ok a) -> parse_optional dec (Some (opt_to_value enc o)) = Ok o.
Proof.
  destruct o as [a|]; [|done]. intros Ha. cbn [opt_to_value parse_optional].
  pose proof (wire_present (enc := enc) a) as Hn.
  rewrite (wire_reads (enc := enc)) by auto. by destruct (enc a).
Qed.
Lemma wire_list l : Forall ok l -> collect dec (map enc l) = Ok l.
Proof.
  intros Hl. apply collect_Ok. eapply Forall_impl; [exact Hl|]. intros a Ha.
  by apply (wire_reads (enc := enc)).
Qed.
End WireLemmas.

Definition count_wire (o : option N) : Prop := forall n, o = Some n -> (n <= MAX_WIRE_INTEGER)%N.
Definition totals_wire_ok (t : TaskTokenUsageTotals) : Prop :=
  count_wire (to_input_tokens t) /\ count_wire (to_output_tokens t)
  /\ count_wire (to_total_tokens t) /\ count_wire (to_reasoning_tokens t)
  /\ cu_source (to_cache_usage t) = Some "aggregate"
  /\ count_wire (cu_read_input_tokens (to_cache_usage t))
  /\ count_wire (cu_write_input_tokens (to_cache_usage t))
  /\ count_wire (cu_uncached_input_tokens (to_cache_usage t)).
Definition history_wire_ok (h : CheckpointHistory) : Prop :=
  totals_wire_ok (h_usage h)
  /\ forall p, h_previous_agent_input h = Some p -> (pa_cycle_index p <= U32_MAX)%N.

Lemma above_wire o : count_wire o -> is_some_and o (fun n => (MAX_WIRE_INTEGER <? n)%N) = false.
Proof. destruct o as [n|]; [|done]. intros Hn. apply N.ltb_ge. by apply Hn. Qed.
Lemma required_opt_u64 o : required_option as_u64 (Some (json_opt_u64 o)) = Some o.
Proof. by destruct o. Qed.
Lemma safe_count_wire o :
  count_wire o -> required_safe_token_count (Some (json_opt_u64 o)) = Some o.
Proof.
  intros Ho. unfold required_safe_token_count. rewrite required_opt_u64. cbn [mbind option_bind].
  by rewrite above_wire.
Qed.

Lemma totals_wire t : totals_wire_ok t -> totals_from_value (totals_to_value t) = Some t.
Proof.
  intros (Hi & Ho & Ht & Hr & Hs & Hcr & Hcw & Hcu). unfold totals_from_value, totals_to_value.
  match goal with |- context [json_object ?l] => change totals_fields with (map fst l) end.
  strict_struct_literal. cbn [map snd mbind option_bind].
  rewrite !safe_count_wire by done. cbn [mbind option_bind]. unfold aggregate_cache_totals.
  rewrite cache_usage_wire. cbn [mbind option_bind existsb]. rewrite Hs, !above_wire by done.
  by destruct t.
Qed.

Lemma previous_wire p :
  (pa_cycle_index p <= U32_MAX)%N -> previous_from_value (previous_to_value p) = Some p.
Proof.
  intros Hp. unfold previous_from_value, previous_to_value.
  match goal with |- context [json_object ?l] => change previous_fields with (map fst l) end.
  strict_struct_literal. cbn [map snd mbind option_bind].
  rewrite as_u32_value_json, required_opt_u64 by done. by destruct p.
Qed.

Lemma required_previous o :
  (forall p, o = Some p -> (pa_cycle_index p <= U32_MAX)%N) ->
  required_option previous_from_value (Some (opt_to_value previous_to_value o)) = Some o.
Proof.
  destruct o as [p|]; [|done]. intros Hp.
  change (Some <$> previous_from_value (previous_to_value p) = Some (Some p)).
  by rewrite previous_wire by auto.
Qed.

#[export] Instance history_codec : Wire history_to_value decode_history history_wire_ok.
Proof.
  split; [|done]. intros h [Ht Hp]. unfold decode_history, history_from_value, history_to_value.
  match goal with |- context [json_object ?l] => change cursor_fields with (map fst l) end.
  strict_struct_literal. cbn [map snd mbind option_bind as_u64 json_u64].
  rewrite required_opt_str. cbn [mbind option_bind]. rewrite totals_wire by done.
  cbn [mbind option_bind]. rewrite required_previous by done. by destruct h.
Qed.

#[export] Instance budget_codec :
  Wire usage_to_value decode_budget
    (fun u => usage_validate u = Ok tt
      /\ sort_unavailable (us_unavailable_dimensions u) = us_unavailable_dimensions u).
Proof.
  split; [|done]. intros u [Hv Hs]. unfold decode_budget. rewrite usage_wire, Hs by done.
  by destruct u.
Qed.

#[export] Instance model_call_codec : Wire model_call_to_value decode_model_call call_wire_ok.
Proof.
  split; [|done]. intros r (Hc & Ha & Hi). unfold decode_model_call. by rewrite model_call_wire.
Qed.

#[export] Instance cursor_codec :
  Wire cursor_to_value cursor_from_value (fun c => cursor_validate c = Ok tt).
Proof. split; [|done]. intros c. apply cursor_roundtrip. Qed.
#[export] Instance cycle_codec `{Env} : Wire cycle_to_dict decode_cycle cycle_wire_ok.
Proof. split; [|done]. intros c Hc%cycle_wire_iff. unfold decode_cycle. by rewrite Hc. Qed.

Section CodecInstances.
Context `{Env}.

#[export] Instance request_codec :
  Wire request_to_value request_from_value (fun r => request_validate r = Ok tt).
Proof. split; [|done]. intros r. apply request_wire. Qed.
#[export] Instance origin_codec :
  Wire origin_to_value origin_from_value (fun o => origin_validate o = Ok tt).
Proof. split; [|done]. intros o. apply origin_wire. Qed.
#[export] Instance message_codec : Wire message_to_dict decode_message message_wire_ok.
Proof. split; [|done]. intros m Hm. unfold decode_message. by rewrite message_wire_dict. Qed.
#[export] Instance outbox_codec :
  Wire outbox_to_value outbox_from_value (fun e => outbox_validate e = Ok tt).
Proof. split; [|done]. intros e. apply outbox_wire. Qed.
#[export] Instance entry_codec :
  Wire entry_to_value entry_from_value
    (fun e => entry_validate e = Ok tt /\ j_response e <> Some Null).
Proof. split; [|done]. intros e [Hv Hn]. by apply entry_wire_roundtrip. Qed.
#[export] Instance extension_codec :
  Wire extension_to_value extension_from_value (fun e => extension_validate e = Ok tt).
Proof.
  split; [|done]. intros e Hv. unfold extension_from_value.
  cbn [extension_to_value json_object as_object ok_or].
  change (has_exactly _ _) with true. change (required_string _ _ _) with (Ok (xs_version e)).
  change (map_get "required" _) with (Some (Bool (xs_required e))).
  change (map_get "state" _) with (Some (xs_state e)). cbn [negb mbind option_bind as_bool ok_or].
  destruct e. cbn in *. by rewrite Hv.
Qed.

Lemma extensions_wire l :
  Forall (fun kv => extension_validate kv.2 = Ok tt) l ->
  parse_extensions
    (Some (Object (map (fun '(namespace, e) => (namespace, extension_to_value e)) l))) = Ok l.
Proof.
  intros Hl. unfold parse_extensions. cbn [mbind option_bind as_object ok_or].
  apply collect_Ok. eapply Forall_impl; [exact Hl|]. intros [k e] He. cbn in He.
  by rewrite (wire_reads (enc := extension_to_value)).
Qed.
End CodecInstances.

(** ** The whole record *)

Section RoundTrip.
Context `{Env}.

(** What the wire form needs beyond validity. *)
Record checkpoint_wire_ok (c : Checkpoint) : Prop := {
  cw_messages : Forall (fun m => Forall openai_call_ok (m_tool_calls m)
                          /\ check_opt artifact_validate (m_artifact_ref m) = Ok tt) (cp_messages c);
  cw_cycles : Forall cycle_wire_ok (cp_cycles c);
  cw_calls : Forall call_wire_ok (cp_model_calls c);
  cw_previous : forall p, h_previous_agent_input (cp_history c) = Some p ->
    (pa_cycle_index p <= U32_MAX)%N;
  cw_cache : count_wire (cu_read_input_tokens (to_cache_usage (h_usage (cp_history c))))
    /\ count_wire (cu_write_input_tokens (to_cache_usage (h_usage (cp_history c))))
    /\ count_wire (cu_uncached_input_tokens (to_cache_usage (h_usage (cp_history c))));
  cw_budget : forall u, cp_budget_usage c = Some u -> usage_validate u = Ok tt
    /\ sort_unavailable (us_unavailable_dimensions u) = us_unavailable_dimensions u;
  cw_responses : Forall (fun e => j_response e <> Some Null) (journals c)
}.

(** What validity already gives the field readers. *)
Record fields_ready (c : Checkpoint) : Prop := {
  fr_schema : cp_schema_version c = CHECKPOINT_SCHEMA;
  fr_definition : cp_run_definition_schema c = RUN_DEFINITION_SCHEMA;
  fr_interaction : forall r, cp_active_host_interaction c = Some r -> request_validate r = Ok tt;
  fr_origin : forall o, cp_suspended_origin c = Some o -> origin_validate o = Ok tt;
  fr_messages : Forall message_wire_ok (cp_messages c);
  fr_history : history_wire_ok (cp_history c);
  fr_cursor : forall x, cp_event_cursor c = Some x -> cursor_validate x = Ok tt;
  fr_outbox : Forall (fun e => outbox_validate e = Ok tt) (cp_event_outbox c);
  fr_extensions : Forall (fun kv => extension_validate kv.2 = Ok tt) (cp_extension_state c);
  fr_model_journal : Forall (fun e => entry_validate e = Ok tt /\ j_response e <> Some Null)
                       (cp_model_call_journal c);
  fr_tool_journal : Forall (fun e => entry_validate e = Ok tt /\ j_response e <> Some Null)
                      (cp_tool_journal c);
  fr_terminal : cp_terminal_result c <> Some Null
}.

Lemma wire_of_above o :
  is_some_and o (fun n => (MAX_WIRE_INTEGER <? n)%N) = false -> count_wire o.
Proof. intros Ho n ->. by apply N.ltb_ge. Qed.
Lemma history_counts h :
  history_validate h = Ok tt ->
  count_wire (to_input_tokens (h_usage h)) /\ count_wire (to_output_tokens (h_usage h))
  /\ count_wire (to_total_tokens (h_usage h)) /\ count_wire (to_reasoning_tokens (h_usage h))
  /\ cu_source (to_cache_usage (h_usage h)) = Some "aggregate".
Proof.
  unfold history_validate. intros Hv. result_inv. bool_inv.
  match goal with Hx : existsb _ [to_input_tokens _; _; _; _; _] = false |- _ =>
    cbn [existsb] in Hx; bool_inv end.
  repeat split; try done; by apply wire_of_above.
Qed.

Lemma opt_checked {A} (f : A -> result unit) (o : option A) :
  check_opt f o = Ok tt -> forall a, o = Some a -> f a = Ok tt.
Proof. by intros Ho a ->. Qed.

Lemma records_ready c :
  check_records c = Ok tt ->
  history_validate (cp_history c) = Ok tt /\
  Forall (fun m => validate_compaction_metadata (m_metadata m) = Ok tt) (cp_messages c).
Proof.
  unfold check_records. intros Hv. result_inv. unit_inv. split; [done|].
  match goal with Hx : try_for_each _ (cp_messages c) = _ |- _ => apply try_for_each_Ok in Hx;
    eapply Forall_impl; [exact Hx|] end.
  cbn. intros m Hm. by apply map_err_Ok in Hm.
Qed.

Lemma host_ready c :
  check_host_interaction c = Ok tt ->
  (forall r, cp_active_host_interaction c = Some r -> request_validate r = Ok tt) /\
  (forall o, cp_suspended_origin c = Some o -> origin_validate o = Ok tt).
Proof.
  unfold check_host_interaction. intros Hv. result_inv. unit_inv.
  split; [|by apply opt_checked]. intros r Hr. rewrite Hr in Hdo. cbn in Hdo.
  unfold check_request_cycle in Hdo. result_inv. by unit_inv.
Qed.

Lemma journal_ready c :
  check_journals c = Ok tt -> Forall (fun e => entry_validate e = Ok tt) (journals c).
Proof. intros (_ & Hj & _)%check_journals_wf. eapply Forall_impl; [exact Hj|]. by intros e []. Qed.

Lemma events_ready c :
  check_extensions_and_events c = Ok tt ->
  (forall x, cp_event_cursor c = Some x -> cursor_validate x = Ok tt) /\
  Forall (fun e => outbox_validate e = Ok tt) (cp_event_outbox c) /\
  Forall (fun kv => extension_validate kv.2 = Ok tt) (cp_extension_state c).
Proof.
  unfold check_extensions_and_events. intros Hv. result_inv. unit_inv.
  apply check_outbox_spec in Hv as (Ho & _). split; [by apply opt_checked|]. split.
  - eapply Forall_impl; [exact Ho|]. by intros e []%verify_payload_spec.
  - apply try_for_each_Ok in Hdo. eapply Forall_impl; [exact Hdo|]. cbn. intros kv Hx.
    result_inv. by unit_inv.
Qed.

Lemma result_ready c : check_terminal_result c = Ok tt -> cp_terminal_result c <> Some Null.
Proof. unfold check_terminal_result. intros Hv Hn. rewrite Hn in Hv. by result_inv. Qed.

Lemma identity_ready c :
  check_identity c = Ok tt ->
  cp_schema_version c = CHECKPOINT_SCHEMA /\ cp_run_definition_schema c = RUN_DEFINITION_SCHEMA.
Proof. unfold check_identity. intros Hv. result_inv. by bool_inv. Qed.

Lemma valid_ready c : validate_checkpoint c = Ok tt -> checkpoint_wire_ok c -> fields_ready c.
Proof.
  intros (Hrec & Hid & _ & _ & Hhost & Hj & Hext & _ & _ & _ & Hterm)%validate_parts Hw.
  destruct Hw as [Hm _ _ Hp (Hr & Hw & Hu) _ Hn].
  apply identity_ready in Hid as [Hs Hd]. apply records_ready in Hrec as [Hh Hc].
  apply host_ready in Hhost as [Hi Ho]. apply events_ready in Hext as (Hcu & Hob & Hex).
  apply journal_ready in Hj. apply history_counts in Hh as (H1 & H2 & H3 & H4 & H5).
  assert (Hjs : Forall (fun e => entry_validate e = Ok tt /\ j_response e <> Some Null)
                  (journals c)) by (by apply Forall_and).
  apply Forall_app in Hjs as [Hjm Hjt].
  split; try done; [|by apply result_ready].
  apply Forall_forall. intros m Hin. rewrite Forall_forall in Hm, Hc.
  destruct (Hm m Hin) as [Hmc Hma]. split; [done|]. split; [done|]. by apply Hc.
Qed.

Lemma envelope_written c : check_envelope (checkpoint_to_map c) = Ok (cp_run_definition c).
Proof. reflexivity. Qed.

Lemma status_written s : status_of_str (status_as_str s) = Some s.
Proof. by destruct s. Qed.
Lemma optional_string_written m k o :
  map_get k m = Some (json_opt_str o) -> parse_optional_string m k = Ok o.
Proof. unfold parse_optional_string. intros ->. by destruct o. Qed.
Lemma optional_u64_written m k o :
  map_get k m = Some (json_opt_u64 o) -> parse_optional_u64 m k = Ok o.
Proof. unfold parse_optional_u64. intros ->. by destruct o. Qed.
Lemma optional_value_written m k o :
  o <> Some Null -> map_get k m = Some (unwrap_or o Null) -> parse_optional_value m k = o.
Proof. unfold parse_optional_value, get_non_null. intros Ho ->. by destruct o as [[]|]. Qed.

(** One field read, then the rest. *)
Ltac read_field proj :=
  match goal with |- match ?p with Ok _ => _ | Err _ => _ end = Ok ?c =>
    let E := fresh "E" in assert (E : p = Ok (proj c)); [|rewrite E; clear E] end.

Lemma fields_written c :
  fields_ready c -> checkpoint_wire_ok c ->
  decode_fields (checkpoint_to_map c) (cp_run_definition c) = Ok c.
Proof.
  intros [] []. unfold decode_fields.
  read_field cp_checkpoint_key; [reflexivity|].
  read_field cp_task_id; [reflexivity|].
  read_field cp_root_run_id; [reflexivity|].
  read_field cp_trace_id; [reflexivity|].
  read_field cp_run_definition_digest; [reflexivity|].
  read_field cp_resume_attempt; [reflexivity|].
  read_field cp_cycle_index; [reflexivity|].
  read_field cp_status; [change (ok_or (status_of_str (status_as_str (cp_status c)))
    "checkpoint_status_invalid" = Ok (cp_status c)); by rewrite status_written|].
  read_field cp_cancel_requested; [reflexivity|].
  read_field cp_active_host_interaction; [exact (wire_optional _ _ _ _ fr_interaction0)|].
  read_field cp_suspended_origin; [exact (wire_optional _ _ _ _ fr_origin0)|].
  read_field cp_messages; [exact (wire_list _ _ _ _ fr_messages0)|].
  read_field cp_cycles; [exact (wire_list _ _ _ _ cw_cycles0)|].
  read_field cp_model_calls; [exact (wire_list _ _ _ _ cw_calls0)|].
  read_field cp_history; [exact (wire_reads _ fr_history0)|].
  read_field cp_shared_state; [reflexivity|].
  read_field cp_budget_usage; [exact (wire_optional _ _ _ _ cw_budget0)|].
  read_field cp_event_cursor; [exact (wire_optional _ _ _ _ fr_cursor0)|].
  read_field cp_event_outbox; [exact (wire_list _ _ _ _ fr_outbox0)|].
  read_field cp_extension_state; [by apply extensions_wire|].
  read_field cp_model_call_journal; [exact (wire_list _ _ _ _ fr_model_journal0)|].
  read_field cp_tool_journal; [exact (wire_list _ _ _ _ fr_tool_journal0)|].
  read_field cp_revision; [reflexivity|].
  read_field cp_claim_token; [by apply optional_string_written|].
  read_field cp_claimed_cycle; [by apply optional_u64_written|].
  read_field cp_lease_expires_at_ms; [by apply optional_u64_written|].
  read_field cp_terminal_acknowledged; [reflexivity|].
  rewrite (optional_value_written _ _ (cp_terminal_result c)) by done.
  destruct c. cbn in *. by subst.
Qed.

Lemma write_read c max v :
  checkpoint_to_value c max = Ok v -> checkpoint_wire_ok c -> checkpoint_from_value v max = Ok c.
Proof.
  unfold checkpoint_to_value. intros Hw Hok. result_inv. unit_inv. unfold checkpoint_from_value.
  cbn [as_object ok_or]. rewrite envelope_written.
  by rewrite fields_written, Hdo, Hdo0 by (done || by apply valid_ready).
Qed.
End RoundTrip.

(** ** What the reader returns can be written *)

Lemma collect_all {A} (dec : Value -> result A) (P : A -> Prop) l r :
  (forall v a, dec v = Ok a -> P a) -> collect dec l = Ok r -> Forall P r.
Proof.
  intros Hd Hc%collect_inv. induction Hc as [|v a l r Hv _ IH]; [constructor|].
  constructor; [by eapply Hd|done].
Qed.
Lemma optional_all {A} (dec : Value -> result A) (P : A -> Prop) o r :
  (forall v a, dec v = Ok a -> P a) -> parse_optional dec o = Ok r ->
  forall a, r = Some a -> P a.
Proof.
  intros Hd Ho a ->. unfold parse_optional in Ho. destruct o as [[]|]; result_inv; eauto.
Qed.

Lemma read_byte_count m k n :
  strict_optional_u64 m k = Ok n -> (unwrap_or n 0 <= MAX_WIRE_INTEGER)%N.
Proof.
  unfold strict_optional_u64. intros Hn. repeat case_match; simplify_eq; cbn; bool_inv; lia.
Qed.
Lemma read_tool_result v r :
  from_dict v = Ok r -> tool_result_validate r = Ok tt /\ byte_counts_wire_safe r.
Proof.
  intros Hr. split; [by eapply from_dict_validates|]. unfold from_dict in Hr.
  result_inv; split; by eapply read_byte_count.
Qed.
Lemma read_u32 v n : as_u32_value v = Some n -> (n <= U32_MAX)%N.
Proof.
  unfold as_u32_value, u32_try_from. intros (m & _ & Hn)%bind_Some.
  case_match; simplify_eq. by bool_inv.
Qed.
Lemma read_cycle `{Env} v c : decode_cycle v = Ok c -> cycle_wire_ok c.
Proof.
  unfold decode_cycle. intros Hc%map_err_Ok. unfold cycle_from_dict in Hc. result_inv.
  split; [|split].
  - cbn. unfold u32_try_from in *. case_match; simplify_eq. by bool_inv.
  - eapply collect_all; [|done]. apply strict_tool_call_object.
  - eapply collect_all; [|done]. apply read_tool_result.
Qed.
Lemma read_call v r : decode_model_call v = Ok r -> call_wire_ok r.
Proof.
  unfold decode_model_call, model_call_from_value. intros Hr. result_inv. option_inv.
  case_match; simplify_eq. split; [by apply is_ok_unit|]. by split; eapply read_u32.
Qed.
Lemma read_message `{Env} v m :
  decode_message v = Ok m -> check_opt artifact_validate (m_artifact_ref m) = Ok tt.
Proof.
  unfold decode_message. intros Hm%map_err_Ok. unfold message_from_dict in Hm. result_inv; cbn.
  all: repeat case_match; result_inv; by unit_inv.
Qed.
Lemma read_totals v t :
  totals_from_value v = Some t ->
  count_wire (cu_read_input_tokens (to_cache_usage t)) /\
  count_wire (cu_write_input_tokens (to_cache_usage t)) /\
  count_wire (cu_uncached_input_tokens (to_cache_usage t)).
Proof.
  unfold totals_from_value, aggregate_cache_totals. intros Ht. option_inv.
  case_match eqn:E; simplify_eq. cbn [existsb] in E. bool_inv.
  repeat split; by apply wire_of_above.
Qed.
Lemma read_previous o p :
  required_option previous_from_value o = Some (Some p) -> (pa_cycle_index p <= U32_MAX)%N.
Proof.
  unfold required_option. intros (v & -> & Hv)%bind_Some.
  assert (Hp : previous_from_value v = Some p).
  { unfold serde_option in Hv. destruct v; simplify_eq;
      apply fmap_Some in Hv as (? & ? & ?); by simplify_eq. }
  unfold previous_from_value in Hp. option_inv. simplify_eq. by eapply read_u32.
Qed.
Lemma read_history v h :
  decode_history v = Ok h ->
  (forall p, h_previous_agent_input h = Some p -> (pa_cycle_index p <= U32_MAX)%N) /\
  count_wire (cu_read_input_tokens (to_cache_usage (h_usage h))) /\
  count_wire (cu_write_input_tokens (to_cache_usage (h_usage h))) /\
  count_wire (cu_uncached_input_tokens (to_cache_usage (h_usage h))).
Proof.
  unfold decode_history, history_from_value. intros Hh. result_inv. option_inv. simplify_eq.
  split; [|by eapply read_totals]. cbn. intros p ->. by eapply read_previous.
Qed.
Lemma read_budget v u :
  decode_budget v = Ok u -> usage_validate u = Ok tt
    /\ sort_unavailable (us_unavailable_dimensions u) = us_unavailable_dimensions u.
Proof.
  unfold decode_budget, usage_from_value, serde_checked. intros Hu. result_inv. option_inv.
  case_match eqn:E; simplify_eq. split; [by apply is_ok_unit|apply sort_unavailable_idem].
Qed.
Lemma get_non_null_present m k : get_non_null m k <> Some Null.
Proof. unfold get_non_null. by destruct (map_get k m) as [[]|]. Qed.
Lemma read_entry `{Env} v e : entry_from_value v = Ok e -> j_response e <> Some Null.
Proof.
  unfold entry_from_value. intros He. result_inv. apply get_non_null_present.
Qed.

Section Reading.
Context `{Env}.

Lemma read_wire_ok m rd c :
  decode_fields m rd = Ok c ->
  Forall (fun x => Forall openai_call_ok (m_tool_calls x)) (cp_messages c) ->
  checkpoint_wire_ok c.
Proof.
  unfold decode_fields. intros Hc Hm. result_inv.
  unfold parse_messages, parse_cycles, parse_model_calls, parse_list, parse_entries in *. result_inv.
  apply read_history in Hdo13 as [Hp Hca]. split; cbn in *; try done.
  - apply Forall_and. split; [done|]. by eapply collect_all; [apply read_message|].
  - by eapply collect_all; [apply read_cycle|].
  - by eapply collect_all; [apply read_call|].
  - by eapply optional_all; [apply read_budget|].
  - by apply Forall_app; split; (eapply collect_all; [apply read_entry|]).
Qed.

Lemma envelope_fields m rd :
  check_envelope m = Ok rd -> (forall k, k ∈ map_keys m <-> k ∈ KNOWN_FIELDS).
Proof.
  unfold check_envelope. intros Hm k. result_inv. bool_inv. split; [by apply only_fields_spec|].
  intros Hk. apply map_contains_key_spec. destruct (map_contains_key k m) eqn:E; [done|].
  assert (Hx : existsb (fun field => negb (map_contains_key field m)) KNOWN_FIELDS = true).
  { apply existsb_exists. exists k. split; [by apply list_elem_of_In|]. by rewrite E. }
  congruence.
Qed.

Lemma read_write v max c :
  checkpoint_from_value v max = Ok c ->
  Forall (fun x => Forall openai_call_ok (m_tool_calls x)) (cp_messages c) ->
  exists v', checkpoint_to_value c max = Ok v' /\ checkpoint_from_value v' max = Ok c.
Proof.
  unfold checkpoint_from_value at 1. intros Hc Hm. result_inv. unit_inv.
  assert (Hw : checkpoint_to_value c max = Ok (Object (checkpoint_to_map c))).
  { unfold checkpoint_to_value. by rewrite Hdo2, Hdo3. }
  exists (Object (checkpoint_to_map c)). split; [done|].
  by eapply write_read, read_wire_ok.
Qed.
End Reading.

(** ** Properties *)


(** The reader is strict.  A text read as a checkpoint is the text of
    one object, with every map in it free of repeated keys, that has exactly
    the known fields; the checkpoint is valid and its extension state is
    within the limit; and, when the arguments of its tool calls print to JSON
    text, it can be written again, and what is written reads back as the same
    checkpoint. *)
Theorem checkpoint_read_strict `{Env} `{JsonDeserializer} (text : string) (max : N) (c : Checkpoint) :
  checkpoint_from_json text max = Ok c ->
  (exists j m, json_tokens text = Some j /\ spells j (Object m) /\
     (forall k, k ∈ map_keys m <-> k ∈ KNOWN_FIELDS)) /\
  validate_checkpoint c = Ok tt /\
  validate_extension_state_size (cp_extension_state c) max = Ok tt /\
  (Forall (fun x => Forall openai_call_ok (m_tool_calls x)) (cp_messages c) ->
   exists v, checkpoint_to_value c max = Ok v /\ checkpoint_from_value v max = Ok c).
Proof.
  unfold checkpoint_from_json. cbn [strict_json_value strict_reader]. intros Hc. result_inv.
  apply bind_Some in Hdo as (j & Hj & Hs%strict_value_spells).
  pose proof (read_write _ _ _ Hc) as Hw. unfold checkpoint_from_value in Hc. result_inv. unit_inv.
  destruct a as [| | | | |m]; try discriminate. cbn in Hdo. simplify_eq.
  split; [|done]. exists j, a0. split; [done|]. split; [done|]. by eapply envelope_fields.
Qed.

(** *** Witnesses *)

(** The tokens of a value as the canonical printer lists it. *)
Fixpoint tokens_of (v : Value) : Json :=
  match v with
  | Null => JUnit
  | Bool b => JBool b
  | Num (PosInt n) => JU64 n
  | Num (NegInt z) => JI64 z
  | Num (Float bits) => JF64 bits
  | Str s => JStr s
  | Array l => JSeq (map tokens_of l)
  | Object m => JMap (map (fun kv => (kv.1, tokens_of kv.2)) m)
  end.
Definition sample_value : Value := Object (@checkpoint_to_map toy_env sample_checkpoint).
Definition toy_tokens : JsonDeserializer := {| json_tokens := fun _ => Some (tokens_of sample_value) |}.

Example sample_writes :
  is_ok (@checkpoint_to_value toy_env sample_checkpoint 1000) = true.
Proof. vm_compute. reflexivity. Qed.
Example sample_reads :
  is_ok (@checkpoint_from_json toy_env (@strict_reader toy_tokens) EmptyString 1000) = true.
Proof. vm_compute. reflexivity. Qed.

Lemma sample_written :
  @checkpoint_to_value toy_env sample_checkpoint 1000 = Ok sample_value.
Proof.
  pose proof sample_writes as Hs. unfold checkpoint_to_value in *.
  destruct (@validate_checkpoint toy_env sample_checkpoint); [|discriminate Hs].
  destruct (@validate_extension_state_size toy_env _ _); [reflexivity|discriminate Hs].
Qed.
Lemma sample_fits : @checkpoint_wire_ok toy_env sample_checkpoint.
Proof.
  split; [done..| | | | | |]; try done.
  - repeat constructor; vm_compute; discriminate.
  - repeat constructor; discriminate.
Qed.
Lemma sample_spelled : spells (tokens_of sample_value) sample_value.
Proof. apply strict_value_spells. vm_compute. reflexivity. Qed.

Lemma checkpoint_read_strict_witness :
  @checkpoint_from_json toy_env (@strict_reader toy_tokens) EmptyString 1000 = Ok sample_checkpoint
  /\ @validate_checkpoint toy_env sample_checkpoint = Ok tt.
Proof.
  assert (Hr : @checkpoint_from_json toy_env (@strict_reader toy_tokens) EmptyString 1000
               = Ok sample_checkpoint).
  { unfold checkpoint_from_json. cbn [strict_json_value strict_reader json_tokens toy_tokens].
    cbn [mbind option_bind]. rewrite (proj2 (strict_value_spells _ _) sample_spelled).
    exact (write_read _ _ _ sample_written sample_fits). }
  exact (conj Hr (proj1 (proj2 (@checkpoint_read_strict toy_env toy_tokens EmptyString 1000
                                   sample_checkpoint Hr)))).
Defined.
