(* ===== verification/Deferred.v ===== *)
(** * Deferred tool batches

    [checkpoint/deferred.rs] (the values) and [runtime/state/deferred.rs] (the
    pure transitions): admission of a model-tool batch whose outcomes arrive
    later, the recovery decision that adopts ambiguous operations into the
    deferred barrier, and the events and receipts of both. *)

From Stdlib Require Import Ascii String NArith Lia.
From stdpp Require Import base strings list sets.
From S2P Require Import Prelude Json Canonical CheckpointTypes ToolResult Journal TokenUsage.
From S2P Require Import Budget BudgetWire Records ResultCodec Events HostInteraction Checkpoint.

(** ** Values *)

Inductive ToolCallOutcome :=
| OutcomeCompleted (r : ToolExecutionResult)
| OutcomeDeferred (handle : DeferredToolHandle)
| OutcomeHostInteraction (r : ToolExecutionResult) (request : HostInteractionRequest).

Definition outcome_validate `{Digest} (o : ToolCallOutcome) : result unit :=
  match o with
  | OutcomeCompleted r =>
      map_err (tool_result_validate r)
        (if (tr_status r =?? Success) && is_some (tr_error_code r)
         then "tool_result_invalid" else "tool_call_outcome_invalid")
  | OutcomeDeferred handle => handle_validate handle
  | OutcomeHostInteraction r request =>
      do? request_validate request ;;
      do? map_err (validate_definitive_result r) "tool_call_outcome_invalid" ;;
      fail_if ((tr_directive r <>?? DContinue)
               || negb (String.eqb (tr_tool_call_id r) (hi_tool_call_id request)))
      with "tool_call_outcome_invalid" ;;
      Ok tt
  end.

Record DeferredBatchEntry := {
  b_operation_id : string;
  b_cycle_index : N;
  b_attempt : N;
  b_request_digest : string;
  b_tool_call_id : string;
  b_tool_name : string;
  b_idempotency_key : option string;
  b_idempotency_support : ToolIdempotency;
  b_outcome : ToolCallOutcome
}.

Definition batch_entry_validate `{Digest} (b : DeferredBatchEntry) : result unit :=
  fail_if (trim_is_empty (b_operation_id b) || trim_is_empty (b_tool_call_id b)
           || trim_is_empty (b_tool_name b)) with "deferred_batch_entry_invalid" ;;
  fail_if ((b_cycle_index b =? 0)%N || (b_attempt b =? 0)%N) with "deferred_batch_entry_invalid" ;;
  do? validate_sha256 (b_request_digest b) ;;
  outcome_validate (b_outcome b).

Definition RECONCILIATION_DECISION_SCHEMA : string := "vv-agent.reconciliation-decision.v1".

Record AcceptDeferredDecision := {
  ad_schema_version : string;
  ad_kind : string;
  ad_handle : DeferredToolHandle
}.

Definition accept_decision_new (handle : DeferredToolHandle) : AcceptDeferredDecision :=
  {| ad_schema_version := RECONCILIATION_DECISION_SCHEMA; ad_kind := "accept_deferred";
     ad_handle := handle |}.
Definition accept_decision_validate (d : AcceptDeferredDecision) : result unit :=
  fail_if (negb (String.eqb (ad_schema_version d) RECONCILIATION_DECISION_SCHEMA)
           || negb (String.eqb (ad_kind d) "accept_deferred"))
  with "reconciliation_decision_invalid" ;;
  handle_validate (ad_handle d).

Inductive DeferredReceiptStatus := ReceiptSucceeded | ReceiptFailed.
#[global] Instance DeferredReceiptStatus_eq_dec : EqDecision DeferredReceiptStatus.
Proof. solve_decision. Defined.

Record DeferredReceipt := {
  dr_handle_key : string;
  dr_handle : DeferredToolHandle;
  dr_result : ToolExecutionResult;
  dr_result_digest : string;
  dr_event_id : string;
  dr_event_payload_digest : string;
  dr_receipt_status : DeferredReceiptStatus
}.

Section Receipts.
Context `{Digest}.

Definition expected_receipt_status (r : ToolExecutionResult) : DeferredReceiptStatus :=
  if tr_status r =?? Success then ReceiptSucceeded else ReceiptFailed.

Definition receipt_validate (x : DeferredReceipt) : result unit :=
  do? handle_validate (dr_handle x) ;;
  let? key := handle_key (dr_handle x) in
  fail_if (negb (String.eqb (dr_handle_key x) key)) with "deferred_receipt_identity_invalid" ;;
  do? validate_definitive_result (dr_result x) ;;
  let h := dr_handle x in
  let? identity := tool_receipt_identity_key (h_checkpoint_key h) (h_operation_id h) (h_attempt h)
                     (tr_tool_call_id (dr_result x)) (h_request_digest h) in
  fail_if (negb (String.eqb (dr_event_id x) ("evt_receipt_" +:+ identity)))
  with "deferred_receipt_identity_invalid" ;;
  let? digest := result_digest (dr_result x) in
  fail_if (negb (String.eqb (dr_result_digest x) digest)) with "deferred_receipt_invalid" ;;
  do? validate_sha256 (dr_event_payload_digest x) ;;
  fail_if (trim_is_empty (dr_event_id x)) with "deferred_receipt_invalid" ;;
  fail_if (dr_receipt_status x <>?? expected_receipt_status (dr_result x))
  with "deferred_receipt_invalid" ;;
  Ok tt.

Definition receipt_new (handle : DeferredToolHandle) (r : ToolExecutionResult)
    (event_id event_payload_digest : string) : result DeferredReceipt :=
  do? handle_validate handle ;;
  do? validate_definitive_result r ;;
  let? digest := result_digest r in
  let? key := handle_key handle in
  let x := {| dr_handle_key := key; dr_handle := handle; dr_result := r; dr_result_digest := digest;
              dr_event_id := event_id; dr_event_payload_digest := event_payload_digest;
              dr_receipt_status := expected_receipt_status r |} in
  do? receipt_validate x ;;
  Ok x.
End Receipts.

Inductive DeferredResolveDecision :=
| AppliedReady (receipt : DeferredReceipt)
| AppliedWaiting (receipt : DeferredReceipt)
| Replayed (receipt : DeferredReceipt)
| NotAdmitted (retryable_error : string)
| ReconciliationRequiredD.
Definition not_admitted : DeferredResolveDecision := NotAdmitted "deferred_resolution_not_admitted".

(** ** Events

    [clock id] is the wall-clock time at which the event [id] is built. *)

Section Transitions.
Context `{Env} (clock : string -> Number).

(** [outbox]: the wire value without the agent name, staged as pending. *)
Definition outbox_of_value (m : object) : result EventOutboxEntry :=
  let m := map_remove "agent_name" m in
  outbox_pending (unwrap_or (map_get "event_id" m ≫= as_str) EmptyString) (Object m).
Definition outbox (e : RunEvent) : result EventOutboxEntry := outbox_of_value (event_to_map e).

Definition deferred_event (c : Checkpoint) (b : DeferredBatchEntry) (handle : DeferredToolHandle)
    : result EventOutboxEntry :=
  let? id := event_id_stable ("evt_deferred_" +:+ b_tool_call_id b +:+ "_deferred") in
  let e := event_new id (cp_root_run_id c) (cp_trace_id c) (cp_task_id c)
             (Some (as_u32 (b_cycle_index b))) (clock id)
             (ToolCallDeferred (b_tool_call_id b) (b_tool_name b) (b_operation_id b)
                (as_u32 (b_attempt b)) handle true None None) in
  let m := map_remove "agent_name" (event_to_map e) in
  let m := map_insert "checkpoint_key" (Str (cp_checkpoint_key c)) m in
  let m := map_insert "operation_kind" (Str "tool") m in
  outbox_pending (unwrap_or (map_get "event_id" m ≫= as_str) EmptyString) (Object m).

Definition journal_batch (e : OperationJournalEntry) (tool_call_id : string)
    (o : ToolCallOutcome) : DeferredBatchEntry :=
  {| b_operation_id := j_operation_id e; b_cycle_index := j_cycle_index e;
     b_attempt := j_attempt e; b_request_digest := j_request_digest e;
     b_tool_call_id := tool_call_id; b_tool_name := unwrap_or (j_tool_name e) EmptyString;
     b_idempotency_key := j_idempotency_key e;
     b_idempotency_support := unwrap_or (j_idempotency_support e) UnknownSupport;
     b_outcome := o |}.

Definition deferred_event_from_journal (c : Checkpoint) (e : OperationJournalEntry)
    : result EventOutboxEntry :=
  let? handle := ok_or (j_deferred_handle e) "operation_deferred_handle_required" in
  deferred_event c (journal_batch e (unwrap_or (j_tool_call_id e) EmptyString)
                      (OutcomeDeferred handle)) handle.

Definition reconciliation_event (c : Checkpoint) (e : OperationJournalEntry)
    : result EventOutboxEntry :=
  let tool_call_id := unwrap_or (j_tool_call_id e) (j_operation_id e) in
  let? id := event_id_stable ("evt_deferred_" +:+ tool_call_id +:+ "_reconciliation") in
  outbox (event_new id (cp_root_run_id c) (cp_trace_id c) (cp_task_id c)
            (Some (as_u32 (j_cycle_index e))) (clock id)
            (ReconciliationResolved (cp_checkpoint_key c) (j_operation_id e) Tool AcceptDeferred
               (Some Recovery))).

Definition tool_status_of (s : ToolResultStatus) : ToolStatus :=
  match s with
  | Success => TSuccess | Error => TError | WaitResponse => TWaitResponse
  | RunningR => TRunning | PendingCompress => TPendingCompress
  end.

Definition completed_event (c : Checkpoint) (b : DeferredBatchEntry) (r : ToolExecutionResult)
    (event_id : string) : result EventOutboxEntry :=
  let? id := event_id_stable event_id in
  outbox (event_new id (cp_root_run_id c) (cp_trace_id c) (cp_task_id c)
            (Some (as_u32 (b_cycle_index b))) (clock id)
            (ToolCallCompleted (b_tool_call_id b) (b_tool_name b) (tool_status_of (tr_status r))
               (tr_directive r) (tr_error_code r) true None (Some (b_operation_id b))
               (Some (as_u32 (b_attempt b))))).

Definition receipt_event (c : Checkpoint) (e : OperationJournalEntry) (r : ToolExecutionResult)
    : result EventOutboxEntry :=
  let? tool_call_id := ok_or (j_tool_call_id e) "tool_receipt_identity_invalid" in
  fail_if (negb (String.eqb tool_call_id (tr_tool_call_id r)))
  with "tool_receipt_identity_invalid" ;;
  let b := journal_batch e tool_call_id (OutcomeCompleted r) in
  let? identity_key := tool_receipt_identity_key (cp_checkpoint_key c) (b_operation_id b)
                         (b_attempt b) (b_tool_call_id b) (b_request_digest b) in
  completed_event c b r ("evt_receipt_" +:+ identity_key).

(** ** Admission *)

Definition has_current_cycle_state (entries : list OperationJournalEntry) (claimed_cycle : N)
    (states : list OperationState) : bool :=
  existsb (fun e => (j_cycle_index e =? claimed_cycle)%N
                    && existsb (fun s => s =?? j_state e) states) entries.

(** The entry enters the deferred barrier under its handle. *)
Definition defer_entry (handle : DeferredToolHandle) (e : OperationJournalEntry)
    : OperationJournalEntry :=
  set_receipt Deferred (j_identity_key e) (j_result_digest e) (j_result e) (j_error e)
    (Some handle) (j_resume_observation e) e.

Definition batch_matches (b : DeferredBatchEntry) (e : OperationJournalEntry) : bool :=
  String.eqb (j_operation_id e) (b_operation_id b) && (j_cycle_index e =? b_cycle_index b)%N
  && (j_attempt e =? b_attempt b)%N && String.eqb (j_request_digest e) (b_request_digest b)
  && opt_is (j_tool_call_id e) (b_tool_call_id b) && opt_is (j_tool_name e) (b_tool_name b).

(** One iteration of the admission loop. *)
Definition admit_one (st : Checkpoint * list DeferredToolHandle) (b : DeferredBatchEntry)
    : result (Checkpoint * list DeferredToolHandle) :=
  let (snapshot, handles) := st in
  do? batch_entry_validate b ;;
  let? index := ok_or (position (batch_matches b) (cp_tool_journal snapshot))
                      "deferred_batch_not_admitted" in
  let? e := ok_or (cp_tool_journal snapshot !! index) "deferred_batch_not_admitted" in
  fail_if ((j_state e <>?? Started) || negb (batch_matches b e))
  with "deferred_batch_not_admitted" ;;
  match b_outcome b with
  | OutcomeHostInteraction _ _ => Err "deferred_batch_not_admitted"
  | OutcomeDeferred handle =>
      fail_if (negb (String.eqb (h_checkpoint_key handle) (cp_checkpoint_key snapshot))
               || negb (String.eqb (h_operation_id handle) (b_operation_id b))
               || negb (h_attempt handle =? b_attempt b)%N
               || negb (String.eqb (h_request_digest handle) (b_request_digest b)))
      with "deferred_handle_invalid" ;;
      let snapshot := set_tool_journal snapshot
                        (<[index := defer_entry handle e]> (cp_tool_journal snapshot)) in
      let? event := deferred_event snapshot b handle in
      Ok (set_event_outbox snapshot (cp_event_outbox snapshot ++ [event]), handles ++ [handle])
  | OutcomeCompleted _ => Err "deferred_admission_completed_outcome_invalid"
  end.

Definition admit_deferred_batch (current : Checkpoint) (expected_revision : N)
    (claim_token : string) (claimed_cycle : N) (entries : list DeferredBatchEntry)
    : result (Checkpoint * list DeferredToolHandle) :=
  if negb (cp_revision current =? expected_revision)%N
     || negb (opt_is (cp_claim_token current) claim_token)
     || negb (is_some_and (cp_claimed_cycle current) (N.eqb claimed_cycle))
     || (cp_status current <>?? RunningS) || (length entries =? 0)%nat
  then Ok (current, [])
  else
    let? (snapshot, handles) := try_fold admit_one (current, []) entries in
    fail_if (has_current_cycle_state (journals snapshot) claimed_cycle [Started])
    with "deferred_batch_incomplete" ;;
    let snapshot := if (0 <? length handles)%nat
                    then release_claim (set_status snapshot DeferredS) else snapshot in
    let? revision := ok_or (checked_add expected_revision 1) "checkpoint_revision_overflow" in
    let snapshot := set_revision snapshot revision in
    do? validate_checkpoint snapshot ;;
    Ok (snapshot, handles).

(** ** Recovery acceptance *)

Definition decision_key (d : AcceptDeferredDecision) : string * N * string :=
  (h_operation_id (ad_handle d), h_attempt (ad_handle d), h_request_digest (ad_handle d)).
Definition key_eqb (a b : string * N * string) : bool :=
  String.eqb a.1.1 b.1.1 && (a.1.2 =? b.1.2)%N && String.eqb a.2 b.2.

Definition accept_matches (claimed_cycle : N) (d : AcceptDeferredDecision)
    (e : OperationJournalEntry) : bool :=
  String.eqb (j_operation_id e) (h_operation_id (ad_handle d))
  && (j_cycle_index e =? claimed_cycle)%N && (j_attempt e =? h_attempt (ad_handle d))%N
  && String.eqb (j_request_digest e) (h_request_digest (ad_handle d))
  && (j_state e =?? Ambiguous).

Definition accept_one (claimed_cycle : N) (st : Checkpoint * list (string * N * string))
    (d : AcceptDeferredDecision) : result (Checkpoint * list (string * N * string)) :=
  let (snapshot, keys) := st in
  do? accept_decision_validate d ;;
  fail_if (existsb (key_eqb (decision_key d)) keys) with "reconciliation_required" ;;
  let? index := ok_or (position (accept_matches claimed_cycle d) (cp_tool_journal snapshot))
                      "reconciliation_required" in
  fail_if (negb (String.eqb (h_checkpoint_key (ad_handle d)) (cp_checkpoint_key snapshot)))
  with "reconciliation_required" ;;
  let? e := ok_or (cp_tool_journal snapshot !! index) "reconciliation_required" in
  let e := defer_entry (ad_handle d) e in
  let snapshot := set_tool_journal snapshot (<[index := e]> (cp_tool_journal snapshot)) in
  let? reconciliation := reconciliation_event snapshot e in
  let? deferred := deferred_event_from_journal snapshot e in
  Ok (set_event_outbox snapshot (cp_event_outbox snapshot ++ [reconciliation; deferred]),
      decision_key d :: keys).

Definition accept_deferred_batch (current : Checkpoint) (expected_revision : N)
    (claim_token : string) (claimed_cycle : N) (decisions : list AcceptDeferredDecision)
    : result (Checkpoint * bool) :=
  if negb (cp_revision current =? expected_revision)%N
     || negb (opt_is (cp_claim_token current) claim_token)
     || negb (is_some_and (cp_claimed_cycle current) (N.eqb claimed_cycle))
     || (cp_resume_attempt current <=? 1)%N || (length decisions =? 0)%nat
  then Ok (current, false)
  else
    fail_if (has_current_cycle_state (cp_model_call_journal current) claimed_cycle
               [Planned; Started; Ambiguous]) with "reconciliation_required" ;;
    let? (snapshot, _) := try_fold (accept_one claimed_cycle) (current, []) decisions in
    fail_if (has_current_cycle_state (journals snapshot) claimed_cycle
               [Planned; Started; Ambiguous]) with "reconciliation_required" ;;
    let snapshot := release_claim (set_status snapshot DeferredS) in
    let? revision := ok_or (checked_add expected_revision 1) "checkpoint_revision_overflow" in
    let snapshot := set_revision snapshot revision in
    do? validate_checkpoint snapshot ;;
    Ok (snapshot, true).

Fixpoint keys_distinct (l : list (string * N * string)) : bool :=
  match l with
  | [] => true
  | k :: r => negb (existsb (key_eqb k) r) && keys_distinct r
  end.

Definition deferred_batch_is_idempotent (current : Checkpoint)
    (decisions : list AcceptDeferredDecision) : bool :=
  if (length decisions =? 0)%nat then false
  else if negb (keys_distinct (map decision_key decisions)) then false
  else
    let deferred := deferred_entries current in
    (length deferred =? length decisions)%nat
    && forallb (fun e =>
         is_some_and (j_deferred_handle e) (fun handle =>
           existsb (fun d => key_eqb (decision_key d)
             (h_operation_id handle, h_attempt handle, h_request_digest handle)) decisions
           && existsb (fun d => ad_handle d =?? handle) decisions)) deferred.
End Transitions.

(** ** Lemmas *)

Section Lemmas.
Context `{Env} (clock : string -> Number).

(** A batch changes the tool journal and appends to the outbox, nothing else. *)
Definition batch_frame (c s : Checkpoint) : Prop :=
  s = set_event_outbox (set_tool_journal c (cp_tool_journal s)) (cp_event_outbox s) /\
  cp_event_outbox c `prefix_of` cp_event_outbox s /\
  map j_operation_id (cp_tool_journal s) = map j_operation_id (cp_tool_journal c).

Lemma batch_frame_refl c : batch_frame c c.
Proof. split; [by destruct c|done]. Qed.
Lemma batch_frame_trans a b c : batch_frame a b -> batch_frame b c -> batch_frame a c.
Proof.
  intros (Hb & Hpb & Hjb) (Hc & Hpc & Hjc). split; [|split; [by etransitivity|congruence]].
  rewrite Hc at 1. rewrite Hb. by destruct a.
Qed.

(** One journal entry replaced by an entry of the same operation, and events
    appended. *)
Lemma batch_frame_step c index e e' events :
  cp_tool_journal c !! index = Some e -> j_operation_id e' = j_operation_id e ->
  batch_frame c (set_event_outbox (set_tool_journal c (<[index := e']> (cp_tool_journal c)))
                   (cp_event_outbox c ++ events)).
Proof.
  intros He Hid. split; [by destruct c|]. split; [by eexists|]. cbn [cp_tool_journal set_event_outbox set_tool_journal].
  rewrite list_fmap_insert. apply list_insert_id. by rewrite list_lookup_fmap, He, Hid.
Qed.

Lemma admit_one_spec s hs b s' hs' :
  admit_one clock (s, hs) b = Ok (s', hs') ->
  batch_frame s s' /\ exists handle, b_outcome b = OutcomeDeferred handle /\ hs' = hs ++ [handle].
Proof.
  unfold admit_one. intros Ha. destruct (b_outcome b) as [| handle |] eqn:Hb; result_inv; [|done..].
  split; [by eapply batch_frame_step|by exists handle].
Qed.

Lemma admit_fold entries s hs s' hs' :
  try_fold (admit_one clock) (s, hs) entries = Ok (s', hs') ->
  batch_frame s s' /\ exists added, hs' = hs ++ added /\
    Forall2 (fun b handle => b_outcome b = OutcomeDeferred handle) entries added.
Proof.
  revert s hs. induction entries as [|b entries IH]; intros s hs Hf; cbn [try_fold] in Hf.
  { result_inv. split; [apply batch_frame_refl|]. exists []. by rewrite app_nil_r. }
  destruct (admit_one clock (s, hs) b) as [[s1 hs1]|] eqn:Hb; [|done].
  apply admit_one_spec in Hb as (Hframe & handle & Hout & ->).
  destruct (IH _ _ Hf) as (Hframe' & added & -> & Hall).
  split; [by eapply batch_frame_trans|]. exists (handle :: added).
  rewrite <- app_assoc. split; [done|by constructor].
Qed.

Lemma accept_one_spec cycle s keys d s' keys' :
  accept_one clock cycle (s, keys) d = Ok (s', keys') ->
  batch_frame s s' /\ keys' = decision_key d :: keys /\
  exists index e, cp_tool_journal s !! index = Some e /\ j_state e = Ambiguous /\
    cp_tool_journal s' = <[index := defer_entry (ad_handle d) e]> (cp_tool_journal s).
Proof.
  unfold accept_one. intros Ha. result_inv.
  apply position_Some in Hdo0 as (e & He & Hmatch). unfold accept_matches in Hmatch. bool_inv.
  simplify_eq. split; [by eapply batch_frame_step|]. split; [done|]. by eexists _, e.
Qed.

Lemma accept_fold cycle decisions s keys s' keys' :
  try_fold (accept_one clock cycle) (s, keys) decisions = Ok (s', keys') ->
  batch_frame s s' /\ keys' = rev (map decision_key decisions) ++ keys.
Proof.
  revert s keys. induction decisions as [|d decisions IH]; intros s keys Hf; cbn [try_fold] in Hf.
  { result_inv. split; [apply batch_frame_refl|done]. }
  destruct (accept_one clock cycle (s, keys) d) as [[s1 keys1]|] eqn:Hd; [|done].
  apply accept_one_spec in Hd as (Hframe & -> & _).
  destruct (IH _ _ Hf) as (Hframe' & ->).
  split; [by eapply batch_frame_trans|]. cbn [map rev]. by rewrite <- app_assoc.
Qed.

Lemma has_current_cycle_state_false l cycle states :
  has_current_cycle_state l cycle states = false ->
  Forall (fun e => j_cycle_index e = cycle -> j_state e ∉ states) l.
Proof.
  intros Hf. apply Forall_forall. intros e He%list_elem_of_In Hc Hs.
  apply not_true_iff_false in Hf. apply Hf, existsb_exists. exists e. split; [done|].
  rewrite Hc, N.eqb_refl. apply existsb_exists. exists (j_state e).
  split; [by apply list_elem_of_In|]. by apply bool_decide_eq_true_2.
Qed.
End Lemmas.

(** ** Properties *)

(** What an admitted batch is. *)
Record admitted `{Env} (current c' : Checkpoint) (expected_revision : N) (claim_token : string)
    (claimed_cycle : N) (entries : list DeferredBatchEntry) (handles : list DeferredToolHandle)
    : Prop := {
  am_advances : advances current c';
  am_owner : cp_revision current = expected_revision /\ cp_claim_token current = Some claim_token /\
             cp_claimed_cycle current = Some claimed_cycle /\ cp_status current = RunningS;
  am_handles : Forall2 (fun b h => b_outcome b = OutcomeDeferred h) entries handles;
  am_waiting : cp_status c' = DeferredS /\ cp_claim_token c' = None;
  am_complete : Forall (fun e => j_cycle_index e = claimed_cycle -> j_state e <> Started) (journals c');
  am_deferred : deferred_entries c' <> [] /\
    Forall (fun e => check_deferred_entry c' e = Ok tt) (deferred_entries c');
  am_frame : c' = set_revision (release_claim (set_status
      (set_event_outbox (set_tool_journal current (cp_tool_journal c')) (cp_event_outbox c'))
      DeferredS)) (expected_revision + 1);
  am_outbox : cp_event_outbox current `prefix_of` cp_event_outbox c'
}.

Section Admission.
Context `{Env} (clock : string -> Number).

Lemma admit_spec current r token cycle entries c' handles :
  admit_deferred_batch clock current r token cycle entries = Ok (c', handles) ->
  (c' = current /\ handles = []) \/ admitted current c' r token cycle entries handles.
Proof.
  unfold admit_deferred_batch. intros Ha.
  match type of Ha with (if ?guard then _ else _) = _ => destruct guard eqn:Hg end;
    [left; by result_inv|right]. bool_inv.
  destruct (try_fold _ _ _) as [[s hs]|] eqn:Hf; [|done].
  apply admit_fold in Hf as ((Hframe & Hprefix & _) & added & -> & Hall). rewrite app_nil_l in Ha.
  assert (Hlen : (0 <? length added)%nat = true).
  { apply Nat.ltb_lt. rewrite <- (Forall2_length _ _ _ Hall). destruct entries; [done|cbn; lia]. }
  rewrite Hlen in Ha. result_inv. unit_inv.
  match goal with E : checked_add _ _ = Some _ |- _ => apply checked_add_Some in E as [-> _] end.
  match goal with E : validate_checkpoint _ = Ok tt |- _ => rename E into Hv end.
  pose proof Hv as (_ & _ & _ & _ & _ & _ & _ & _ & _ & Hst & _)%validate_parts.
  apply check_status_journals_wf in Hst as (_ & Hd & _ & _ & Hdef).
  match goal with E : is_some_and _ _ = true |- _ => rename E into Hcycle end.
  destruct (cp_claimed_cycle current) as [n|] eqn:Hn; [|done]. apply N.eqb_eq in Hcycle. subst n.
  constructor; try done.
  - constructor; [done|cbn; congruence|]. rewrite Hframe. by destruct current.
  - eapply Forall_impl; [by apply has_current_cycle_state_false|]. set_solver.
  - split; [by apply Hd|done].
  - rewrite Hframe. by destruct current.
Qed.
End Admission.

(** Admission of a deferred batch is all or nothing.  The call returns
    the stored checkpoint untouched, or -- only to the owner of the running
    claim, at the revision it expects -- a valid successor in which every
    entry of the batch was deferred under the handle reported for it, no
    operation of the cycle is still running, the claim is released and the run
    waits; nothing but the tool journal, the outbox (by appending), the claim,
    the status and the revision changed. *)
Theorem deferred_admission_atomic `{Env} (clock : string -> Number) (current c' : Checkpoint)
    (expected_revision : N) (claim_token : string) (claimed_cycle : N)
    (entries : list DeferredBatchEntry) (handles : list DeferredToolHandle) :
  admit_deferred_batch clock current expected_revision claim_token claimed_cycle entries
    = Ok (c', handles) ->
  (c' = current /\ handles = []) \/
  admitted current c' expected_revision claim_token claimed_cycle entries handles.
Proof. apply admit_spec. Qed.

Section Acceptance.
Context `{Env} (clock : string -> Number).

Definition is_deferred (e : OperationJournalEntry) : bool := j_state e =?? Deferred.

Lemma filter_insert_length {A} (f : A -> bool) (l : list A) i x y :
  l !! i = Some y -> f y = false -> f x = true ->
  length (List.filter f (<[i := x]> l)) = S (length (List.filter f l)).
Proof.
  revert i. induction l as [|z l IH]; intros [|i] Hl Hy Hx; try done; cbn in *.
  - simplify_eq. by rewrite Hy, Hx.
  - destruct (f z); cbn; by rewrite IH.
Qed.

Lemma filter_insert_elem {A} (f : A -> bool) (l : list A) i x z :
  z ∈ List.filter f (<[i := x]> l) -> z = x \/ z ∈ List.filter f l.
Proof.
  rewrite !list_elem_of_In, !List.filter_In, <- !list_elem_of_In. intros [Hz Hf].
  apply list_elem_of_lookup in Hz as (j & Hj).
  destruct (decide (j = i)) as [->|Hne].
  - left. destruct (decide (i < length l)%nat) as [Hi|Hi].
    + rewrite list_lookup_insert_eq in Hj by done. congruence.
    + apply lookup_lt_Some in Hj. rewrite length_insert in Hj. lia.
  - right. split; [|done]. rewrite list_lookup_insert_ne in Hj by done.
    apply list_elem_of_lookup. eauto.
Qed.

(** While the loop runs, the deferred entries are those it has adopted. *)
Definition adopted (done : list AcceptDeferredDecision) (s : Checkpoint) : Prop :=
  length (deferred_entries s) = length done /\
  Forall (fun e => exists d, d ∈ done /\ j_deferred_handle e = Some (ad_handle d))
    (deferred_entries s).

Lemma accept_one_adopted cycle s keys d s' keys' processed :
  accept_one clock cycle (s, keys) d = Ok (s', keys') ->
  adopted processed s -> adopted (processed ++ [d]) s'.
Proof.
  intros (_ & _ & index & e & He & Hst & Hj)%accept_one_spec [Hlen Hall].
  unfold adopted, deferred_entries in *. rewrite Hj. split.
  - rewrite (filter_insert_length is_deferred _ _ _ e), length_app by
      (first [done|unfold is_deferred; by rewrite Hst|by apply bool_decide_eq_true_2]).
    cbn. unfold is_deferred. lia.
  - apply Forall_forall. intros z [->|Hz]%filter_insert_elem.
    + exists d. split; [set_solver|done].
    + rewrite Forall_forall in Hall. destruct (Hall z Hz) as (d' & ? & ?).
      exists d'. split; [set_solver|done].
Qed.

Lemma accept_fold_adopted cycle decisions s keys s' keys' processed :
  try_fold (accept_one clock cycle) (s, keys) decisions = Ok (s', keys') ->
  adopted processed s -> adopted (processed ++ decisions) s'.
Proof.
  revert s keys processed. induction decisions as [|d decisions IH]; intros s keys processed Hf Ha;
    cbn [try_fold] in Hf.
  { result_inv. by rewrite app_nil_r. }
  destruct (accept_one clock cycle (s, keys) d) as [[s1 keys1]|] eqn:Hd; [|done].
  replace (processed ++ d :: decisions) with ((processed ++ [d]) ++ decisions)
    by by rewrite <- app_assoc.
  eapply IH; [exact Hf|]. by eapply accept_one_adopted.
Qed.

Lemma key_eqb_refl k : key_eqb k k = true.
Proof. unfold key_eqb. by rewrite !String.eqb_refl, N.eqb_refl. Qed.
Lemma key_eqb_sym a b : key_eqb a b = key_eqb b a.
Proof.
  unfold key_eqb. rewrite (String.eqb_sym a.1.1), (N.eqb_sym a.1.2), (String.eqb_sym a.2). done.
Qed.

Lemma keys_distinct_app_one l k :
  keys_distinct (l ++ [k]) = keys_distinct l && negb (existsb (key_eqb k) l).
Proof.
  induction l as [|x l IH]; cbn; [done|]. rewrite IH, existsb_app. cbn. rewrite orb_false_r.
  rewrite (key_eqb_sym x k).
  destruct (existsb (key_eqb x) l), (key_eqb k x), (keys_distinct l),
    (existsb (key_eqb k) l); done.
Qed.

Lemma accept_fold_distinct cycle decisions s keys s' keys' :
  try_fold (accept_one clock cycle) (s, keys) decisions = Ok (s', keys') ->
  keys_distinct (rev keys) = true ->
  keys_distinct (rev keys ++ map decision_key decisions) = true.
Proof.
  revert s keys. induction decisions as [|d decisions IH]; intros s keys Hf Hk;
    cbn [try_fold] in Hf; [by rewrite app_nil_r|].
  destruct (accept_one clock cycle (s, keys) d) as [[s1 keys1]|] eqn:Hd; [|done].
  pose proof Hd as (_ & -> & _)%accept_one_spec.
  assert (Hfresh : existsb (key_eqb (decision_key d)) (rev keys) = false).
  { unfold accept_one in Hd. result_inv. apply not_true_iff_false. intros Hex.
    apply existsb_exists in Hex as (k & Hin & Hkk). apply not_true_iff_false in Hif.
    apply Hif, existsb_exists. exists k. split; [by apply in_rev|done]. }
  cbn [map]. replace (rev keys ++ decision_key d :: map decision_key decisions)
    with (rev (decision_key d :: keys) ++ map decision_key decisions)
    by (cbn [rev]; by rewrite <- app_assoc).
  eapply IH; [exact Hf|]. cbn [rev]. by rewrite keys_distinct_app_one, Hk, Hfresh.
Qed.

(** The batch that was adopted is recognised when it is submitted again. *)
Lemma adopted_idempotent s decisions :
  decisions <> [] -> keys_distinct (map decision_key decisions) = true -> adopted decisions s ->
  deferred_batch_is_idempotent s decisions = true.
Proof.
  intros Hne Hk [Hlen Hall]. unfold deferred_batch_is_idempotent.
  destruct (Nat.eqb_spec (length decisions) 0) as [H0|_]; [by destruct decisions|].
  rewrite Hk, Hlen, Nat.eqb_refl. cbn [negb andb].
  apply forallb_forall. intros e He. rewrite Forall_forall in Hall.
  destruct (Hall e) as (d & Hd & Hh); [by apply list_elem_of_In|]. rewrite Hh. cbn [is_some_and].
  apply andb_true_iff. split; apply existsb_exists; exists d; (split; [by apply list_elem_of_In|]).
  - apply key_eqb_refl.
  - by apply bool_decide_eq_true_2.
Qed.

Lemma accept_spec current r token cycle decisions c' :
  accept_deferred_batch clock current r token cycle decisions = Ok (c', true) ->
  advances current c' /\
  (cp_revision current = r /\ cp_claim_token current = Some token /\
   cp_claimed_cycle current = Some cycle /\ (1 < cp_resume_attempt current)%N) /\
  cp_status c' = DeferredS /\ cp_claim_token c' = None /\
  Forall (fun e => j_cycle_index e = cycle -> j_state e ∉ [Planned; Started; Ambiguous])
    (journals c') /\
  cp_event_outbox current `prefix_of` cp_event_outbox c' /\
  c' = set_revision (release_claim (set_status
      (set_event_outbox (set_tool_journal current (cp_tool_journal c')) (cp_event_outbox c'))
      DeferredS)) (r + 1) /\
  keys_distinct (map decision_key decisions) = true /\
  (deferred_entries current = [] -> deferred_batch_is_idempotent c' decisions = true).
Proof.
  unfold accept_deferred_batch. intros Ha.
  match type of Ha with (if ?guard then _ else _) = _ => destruct guard eqn:Hg end;
    [by result_inv|]. bool_inv.
  destruct (has_current_cycle_state (cp_model_call_journal current) _ _); [done|].
  destruct (try_fold _ _ _) as [[s keys]|] eqn:Hf; [|done].
  pose proof Hf as [(Hframe & Hprefix & _) _]%accept_fold.
  pose proof (accept_fold_distinct _ _ _ _ _ _ Hf eq_refl) as Hk. cbn [rev app] in Hk.
  result_inv. unit_inv.
  match goal with E : checked_add _ _ = Some _ |- _ => apply checked_add_Some in E as [-> _] end.
  match goal with E : is_some_and _ _ = true |- _ => rename E into Hcycle end.
  destruct (cp_claimed_cycle current) as [n|] eqn:Hn; [|done]. apply N.eqb_eq in Hcycle. subst n.
  split; [constructor; [done|cbn; congruence|rewrite Hframe; by destruct current]|].
  split; [done|]. split; [done|]. split; [done|].
  split; [by apply has_current_cycle_state_false|]. split; [done|].
  split; [rewrite Hframe; by destruct current|]. split; [done|].
  intros Hd. apply (adopted_idempotent _ decisions); [by destruct decisions|done|].
  apply (accept_fold_adopted _ _ _ _ _ _ [] Hf). unfold adopted. by rewrite Hd.
Qed.
End Acceptance.

(** Recovery adopts every unresolved operation or none.  Accepting a
    batch of deferred handles succeeds only for the owner of a recovery claim,
    at the revision it expects, with pairwise distinct operations; the
    successor is valid, waits without a claim, and no operation of the cycle
    is left planned, running or ambiguous.  The batch can be submitted again:
    when nothing was deferred before, it is recognised as already applied. *)
Theorem deferred_acceptance_complete `{Env} (clock : string -> Number) (current c' : Checkpoint)
    (expected_revision : N) (claim_token : string) (claimed_cycle : N)
    (decisions : list AcceptDeferredDecision) :
  accept_deferred_batch clock current expected_revision claim_token claimed_cycle decisions
    = Ok (c', true) ->
  advances current c' /\
  (cp_revision current = expected_revision /\ cp_claim_token current = Some claim_token /\
   cp_claimed_cycle current = Some claimed_cycle /\ (1 < cp_resume_attempt current)%N) /\
  cp_status c' = DeferredS /\ cp_claim_token c' = None /\
  Forall (fun e => j_cycle_index e = claimed_cycle -> j_state e ∉ [Planned; Started; Ambiguous])
    (journals c') /\
  keys_distinct (map decision_key decisions) = true /\
  (deferred_entries current = [] -> deferred_batch_is_idempotent c' decisions = true).
Proof. intros (? & ? & ? & ? & ? & _ & _ & ? & ?)%accept_spec. by repeat (split; [done|]). Qed.

(** ** Examples *)

Definition sample_handle : DeferredToolHandle :=
  {| h_schema_version := DEFERRED_HANDLE_SCHEMA; h_checkpoint_key := "key";
     h_operation_id := "op_t"; h_attempt := 1; h_request_digest := sample_digest |}.
Definition sample_batch : DeferredBatchEntry :=
  {| b_operation_id := "op_t"; b_cycle_index := 1; b_attempt := 1;
     b_request_digest := sample_digest; b_tool_call_id := "call_1"; b_tool_name := "read_file";
     b_idempotency_key := Some "idem"; b_idempotency_support := Supported;
     b_outcome := OutcomeDeferred sample_handle |}.
Definition sample_clock : string -> Number := fun _ => PosInt 9.

Local Abbreviation sample_admission :=
  (@admit_deferred_batch toy_env sample_clock sample_checkpoint 3 "owner" 1 [sample_batch]).
Example sample_admission_runs :
  match sample_admission with Ok (_, [_]) => true | _ => false end = true.
Proof. vm_compute. reflexivity. Qed.

Lemma deferred_admission_atomic_witness :
  exists c' handles, sample_admission = Ok (c', handles) /\
    @admitted toy_env sample_checkpoint c' 3 "owner" 1 [sample_batch] handles.
Proof.
  pose proof sample_admission_runs as Hruns.
  destruct sample_admission as [[c' handles]|] eqn:E; [|discriminate Hruns].
  exists c', handles. split; [reflexivity|].
  destruct (@deferred_admission_atomic toy_env sample_clock sample_checkpoint c' 3 "owner" 1
              [sample_batch] handles E) as [[_ Hnil]|Ha]; [exfalso|exact Ha].
  subst handles. discriminate Hruns.
Defined.

(** The same run after a crash: the tool call is ambiguous and a recovery
    claim holds the cycle. *)
Definition sample_recovery : Checkpoint :=
  set_resume_attempt
    (set_tool_journal sample_checkpoint [set_state Ambiguous sample_started_tool]) 2.
Local Abbreviation sample_acceptance :=
  (@accept_deferred_batch toy_env sample_clock sample_recovery 3 "owner" 1
     [accept_decision_new sample_handle]).
Example sample_acceptance_runs :
  match sample_acceptance with Ok (_, true) => true | _ => false end = true.
Proof. vm_compute. reflexivity. Qed.

Lemma deferred_acceptance_complete_witness :
  exists c', sample_acceptance = Ok (c', true) /\
    deferred_batch_is_idempotent c' [accept_decision_new sample_handle] = true.
Proof.
  pose proof sample_acceptance_runs as Hruns.
  destruct sample_acceptance as [[c' [|]]|] eqn:E; [|discriminate Hruns..].
  exists c'. split; [reflexivity|].
  destruct (@deferred_acceptance_complete toy_env sample_clock sample_recovery c' 3 "owner" 1
              [accept_decision_new sample_handle] E) as (_ & _ & _ & _ & _ & _ & Hidem).
  apply Hidem. reflexivity.
Defined.
