(* ===== verification/Orchestrator.v ===== *)
(** * Running one tool call

    [tools/orchestrator.rs] with [tools/dispatcher.rs], [tools/outputs.rs], the
    tool context of [tools/base/context.rs] and the executor interface of
    [tools/executor.rs]: a call of the model passes the checks of its
    arguments, of the policy and of the host's approval before the tool runs,
    and whatever happens it gets one result.

    A tool is a record of functions, the trait [ToolExecutor]; what it does to
    its context is part of its answer.  The fields of the context no code here
    looks at are one value of an arbitrary type.  An operation returns the
    effects it had in order: events for the observer, questions for the host
    and the execution of the tool. *)

From Stdlib Require Import Ascii String NArith ZArith Lia.
From stdpp Require Import base strings list sets.
From S2P Require Import Prelude Json Canonical CheckpointTypes ToolResult Journal TokenUsage.
From S2P Require Import Budget BudgetWire Records ResultCodec ToolPolicy Settings Prompt Text.
From S2P Require Import Events HostInteraction Controller Checkpoint Deferred.

(** ** Results *)

Definition result_success (tool_call_id content : string) : ToolExecutionResult :=
  {| tr_tool_call_id := tool_call_id; tr_content := content; tr_status := Success;
     tr_directive := DContinue; tr_error_code := None; tr_metadata := []; tr_image_url := None;
     tr_image_path := None; tr_truncated := false; tr_truncation_reason := None;
     tr_original_bytes := None; tr_visible_bytes := None; tr_artifact := None; tr_cursor := None |}.
Definition with_outcome (r : ToolExecutionResult) (status : ToolResultStatus) (directive : ToolDirective)
    (error_code : option string) (metadata : object) : ToolExecutionResult :=
  {| tr_tool_call_id := tr_tool_call_id r; tr_content := tr_content r; tr_status := status;
     tr_directive := directive; tr_error_code := error_code; tr_metadata := metadata;
     tr_image_url := tr_image_url r; tr_image_path := tr_image_path r; tr_truncated := tr_truncated r;
     tr_truncation_reason := tr_truncation_reason r; tr_original_bytes := tr_original_bytes r;
     tr_visible_bytes := tr_visible_bytes r; tr_artifact := tr_artifact r; tr_cursor := tr_cursor r |}.
Definition with_call_id (r : ToolExecutionResult) (id : string) : ToolExecutionResult :=
  {| tr_tool_call_id := id; tr_content := tr_content r; tr_status := tr_status r;
     tr_directive := tr_directive r; tr_error_code := tr_error_code r; tr_metadata := tr_metadata r;
     tr_image_url := tr_image_url r; tr_image_path := tr_image_path r; tr_truncated := tr_truncated r;
     tr_truncation_reason := tr_truncation_reason r; tr_original_bytes := tr_original_bytes r;
     tr_visible_bytes := tr_visible_bytes r; tr_artifact := tr_artifact r; tr_cursor := tr_cursor r |}.
Definition with_image (r : ToolExecutionResult) (url path : option string) : ToolExecutionResult :=
  {| tr_tool_call_id := tr_tool_call_id r; tr_content := tr_content r; tr_status := tr_status r;
     tr_directive := tr_directive r; tr_error_code := tr_error_code r; tr_metadata := tr_metadata r;
     tr_image_url := url; tr_image_path := path; tr_truncated := tr_truncated r;
     tr_truncation_reason := tr_truncation_reason r; tr_original_bytes := tr_original_bytes r;
     tr_visible_bytes := tr_visible_bytes r; tr_artifact := tr_artifact r; tr_cursor := tr_cursor r |}.
Definition result_error (tool_call_id content : string) : ToolExecutionResult :=
  with_outcome (result_success tool_call_id content) Error DContinue None [].
Definition with_error_code (r : ToolExecutionResult) (code : string) : ToolExecutionResult :=
  with_outcome r (tr_status r) (tr_directive r) (Some code) (tr_metadata r).

Definition opt_value {A} (f : A -> Value) (o : option A) : Value :=
  match o with Some a => f a | None => Null end.
(** The value under ["vv_agent_recovery"]; [None] is the panic on a truncated
    result without its reason or its sizes. *)
Definition recovery_value (r : ToolExecutionResult) : option Value :=
  reason ← tr_truncation_reason r; original ← tr_original_bytes r; visible ← tr_visible_bytes r;
  Some (json_object [("vv_agent_recovery", json_object (
    [("truncated", Bool true); ("truncation_reason", Str (truncation_reason_value reason));
     ("original_bytes", json_u64 original); ("visible_bytes", json_u64 visible)]
    ++ match tr_artifact r with Some a => [("artifact", artifact_to_value a)] | None => [] end
    ++ match tr_cursor r with Some c => [("cursor", cursor_ref_to_value c)] | None => [] end))]).
Definition to_message `{Digest} (r : ToolExecutionResult) : option Message :=
  content ← (if tr_truncated r then
               recovery ← recovery_value r; encoded ← canonicalizer_to_vec recovery;
               Some (tr_content r +:+ newline +:+ encoded)
             else Some (tr_content r));
  let m := message_tool content (tr_tool_call_id r) in
  Some {| m_role := m_role m; m_content := m_content m; m_name := m_name m;
          m_tool_call_id := m_tool_call_id m; m_tool_calls := m_tool_calls m;
          m_reasoning_content := m_reasoning_content m; m_image_url := m_image_url m;
          m_metadata := if is_some (tr_artifact r)
                        then map_insert "_vv_agent_microcompact_excerpt" (Str (tr_content r)) (m_metadata m)
                        else m_metadata m;
          m_artifact_ref := tr_artifact r |}.

(** *** What a tool prints *)

Inductive ToolOutput :=
| OutText (text : string) (metadata : object)
| OutJson (data : Value) (metadata : object)
| OutImage (url path mime_type : option string) (metadata : object)
| OutFile (path : string) (mime_type : option string) (metadata : object)
| OutError (message : string) (error_code : option string) (retryable : bool) (metadata : object).
Definition output_error (message : string) : ToolOutput := OutError message None false [].
Definition with_code (o : ToolOutput) (code : string) : ToolOutput :=
  match o with
  | OutError message _ retryable metadata => OutError message (Some code) retryable metadata
  | o => o
  end.
Definition retryable (o : ToolOutput) (retryable : bool) : ToolOutput :=
  match o with
  | OutError message code _ metadata => OutError message code retryable metadata
  | o => o
  end.
Definition with_output_metadata (o : ToolOutput) (key : string) (v : Value) : ToolOutput :=
  match o with
  | OutText text metadata => OutText text (map_insert key v metadata)
  | OutJson data metadata => OutJson data (map_insert key v metadata)
  | OutImage url path mime metadata => OutImage url path mime (map_insert key v metadata)
  | OutFile path mime metadata => OutFile path mime (map_insert key v metadata)
  | OutError message code retryable metadata => OutError message code retryable (map_insert key v metadata)
  end.
Section Outputs.
Context `{JsonText}.
Definition typed_result (tool_call_id content output_type : string) (metadata : object) : ToolExecutionResult :=
  with_outcome (result_success tool_call_id content) Success DContinue None
    (map_extend [("output_type", Str output_type)] metadata).
Definition to_result (o : ToolOutput) (tool_call_id : string) : ToolExecutionResult :=
  match o with
  | OutText text metadata =>
      with_outcome (result_success tool_call_id text) Success DContinue None (map_extend [] metadata)
  | OutJson data metadata => typed_result tool_call_id (json_to_string data) "json" metadata
  | OutImage url path mime_type metadata =>
      with_image (typed_result tool_call_id
        (json_to_string (json_object [("url", opt_value Str url); ("path", opt_value Str path);
                                      ("mime_type", opt_value Str mime_type)])) "image" metadata)
        url path
  | OutFile path mime_type metadata =>
      typed_result tool_call_id
        (json_to_string (json_object [("path", Str path); ("mime_type", opt_value Str mime_type)]))
        "file" metadata
  | OutError message error_code retryable metadata =>
      with_outcome
        (result_success tool_call_id
           (json_to_string (json_object [("ok", Bool false); ("error", Str message);
                                         ("error_code", opt_value Str error_code);
                                         ("retryable", Bool retryable)])))
        Error DContinue error_code
        (map_extend (map_of_list [("output_type", Str "error"); ("retryable", Bool retryable)]) metadata)
  end.

(** *** Results without the tool *)

Definition dispatch_error_result (tool_call_id message : string) (error_code : option string)
    : ToolExecutionResult :=
  with_outcome
    (result_success tool_call_id
       (json_to_string (json_object [("ok", Bool false); ("error", Str message);
                                     ("error_code", opt_value Str error_code)])))
    Error DContinue error_code [].
(** A call whose arguments could not be read carries the error. *)
Definition argument_error_result (call : ToolCall) : option ToolExecutionResult :=
  extra ← tc_extra_content call ≫= as_object;
  let error_code := unwrap_or (map_get "argument_error_code" extra ≫= as_str) "invalid_arguments" in
  let error := unwrap_or (map_get "argument_error" extra ≫= as_str) "Invalid tool arguments" in
  Some (dispatch_error_result (tc_id call) error (Some error_code)).
Definition denied_call_error (call : ToolCall) (error_code message : string) (policy_source : option string)
    : ToolExecutionResult :=
  with_outcome
    (result_success (tc_id call)
       (json_to_string (json_object [("ok", Bool false); ("error", Str message);
                                     ("error_code", Str error_code); ("tool_name", Str (tc_name call))])))
    Error DContinue (Some error_code)
    match policy_source with
    | Some source =>
        map_of_list [("mode", Str "permission_denied"); ("policy_source", Str source);
                     ("tool_name", Str (tc_name call)); ("arguments", Object (tc_arguments call));
                     ("message", Str message)]
    | None => []
    end.
Definition policy_denial (call : ToolCall) (policy_source : string) : ToolExecutionResult :=
  denied_call_error call "tool_not_allowed" ("Tool " +:+ tc_name call +:+ " is not allowed for these arguments.")
    (Some policy_source).
Definition timeout_result (call : ToolCall) (seconds : string) : ToolExecutionResult :=
  to_result
    (retryable (with_code (output_error
       ("Tool " +:+ tc_name call +:+ " did not finish within " +:+ seconds
        +:+ " seconds and may still be running. Its outcome and side effects are unknown; "
        +:+ "verify the current state before calling it again.")) "tool_timeout") false)
    (tc_id call).
End Outputs.

(** [needs_tool_call_id]. *)
Definition needs_tool_call_id (value : string) : bool :=
  let stripped := str_trim value in str_is_empty stripped || String.eqb stripped "pending".
Definition normalize_tool_call_id (r : ToolExecutionResult) (id : string) : ToolExecutionResult :=
  if needs_tool_call_id (tr_tool_call_id r) then with_call_id r id else r.
(** [dispatch_tool_call]; [executed] is what the registry answers. *)
Definition normalize_result (call : ToolCall) (r : ToolExecutionResult) : ToolExecutionResult :=
  let r := normalize_tool_call_id r (tc_id call) in
  if (tr_directive r =?? DWaitUser) && (tr_status r =?? Success)
  then with_outcome r WaitResponse (tr_directive r) (tr_error_code r) (tr_metadata r) else r.
Definition dispatch_tool_call `{JsonText} (executed : result ToolExecutionResult) (call : ToolCall)
    : ToolExecutionResult :=
  match argument_error_result call with
  | Some r => r
  | None =>
      match executed with
      | Ok r => normalize_result call r
      | Err _ => dispatch_error_result (tc_id call) ("Unknown tool: " +:+ tc_name call) (Some "tool_not_found")
      end
  end.
(** The orchestrator's own test does not trim the word. *)
Definition fill_call_id (r : ToolExecutionResult) (id : string) : ToolExecutionResult :=
  if trim_is_empty (tr_tool_call_id r) || String.eqb (tr_tool_call_id r) "pending"
  then with_call_id r id else r.

(** ** The context of a tool *)

Section Tools.
Context {X : Type}.

Record ToolContext := {
  tx_tool_call_id : string;
  tx_tool_name : string;
  tx_arguments : object;
  tx_idempotency_key : option string;
  tx_parent_tool_call_id : option (option string);
  tx_checkpoint_key : option string;
  tx_operation_id : option string;
  tx_attempt : N;
  tx_request_digest : option string;
  tx_deferred_outcome : option ToolCallOutcome;
  tx_rest : X
}.
Definition begin_tool_call (c : ToolContext) (call : ToolCall) : ToolContext :=
  {| tx_tool_call_id := tc_id call; tx_tool_name := tc_name call; tx_arguments := tc_arguments call;
     tx_idempotency_key := tx_idempotency_key c;
     tx_parent_tool_call_id :=
       (fun _ => if trim_is_empty (tc_id call) then None else Some (tc_id call)) <$> tx_parent_tool_call_id c;
     tx_checkpoint_key := tx_checkpoint_key c; tx_operation_id := tx_operation_id c;
     tx_attempt := tx_attempt c; tx_request_digest := tx_request_digest c;
     tx_deferred_outcome := tx_deferred_outcome c; tx_rest := tx_rest c |}.
Definition set_idempotency_key (c : ToolContext) (key : option string) : ToolContext :=
  {| tx_tool_call_id := tx_tool_call_id c; tx_tool_name := tx_tool_name c; tx_arguments := tx_arguments c;
     tx_idempotency_key := key; tx_parent_tool_call_id := tx_parent_tool_call_id c;
     tx_checkpoint_key := tx_checkpoint_key c; tx_operation_id := tx_operation_id c;
     tx_attempt := tx_attempt c; tx_request_digest := tx_request_digest c;
     tx_deferred_outcome := tx_deferred_outcome c; tx_rest := tx_rest c |}.
Definition set_deferred_outcome (c : ToolContext) (o : option ToolCallOutcome) : ToolContext :=
  {| tx_tool_call_id := tx_tool_call_id c; tx_tool_name := tx_tool_name c; tx_arguments := tx_arguments c;
     tx_idempotency_key := tx_idempotency_key c; tx_parent_tool_call_id := tx_parent_tool_call_id c;
     tx_checkpoint_key := tx_checkpoint_key c; tx_operation_id := tx_operation_id c;
     tx_attempt := tx_attempt c; tx_request_digest := tx_request_digest c;
     tx_deferred_outcome := o; tx_rest := tx_rest c |}.
Definition set_deferred_identity (c : ToolContext) (checkpoint_key operation_id : string) (attempt : N)
    (request_digest : string) : ToolContext :=
  {| tx_tool_call_id := tx_tool_call_id c; tx_tool_name := tx_tool_name c; tx_arguments := tx_arguments c;
     tx_idempotency_key := tx_idempotency_key c; tx_parent_tool_call_id := tx_parent_tool_call_id c;
     tx_checkpoint_key := Some checkpoint_key; tx_operation_id := Some operation_id; tx_attempt := attempt;
     tx_request_digest := Some request_digest; tx_deferred_outcome := tx_deferred_outcome c;
     tx_rest := tx_rest c |}.
Definition clear_deferred_identity (c : ToolContext) : ToolContext :=
  {| tx_tool_call_id := tx_tool_call_id c; tx_tool_name := tx_tool_name c; tx_arguments := tx_arguments c;
     tx_idempotency_key := tx_idempotency_key c; tx_parent_tool_call_id := tx_parent_tool_call_id c;
     tx_checkpoint_key := None; tx_operation_id := None; tx_attempt := 1; tx_request_digest := None;
     tx_deferred_outcome := tx_deferred_outcome c; tx_rest := tx_rest c |}.
Definition take_deferred_outcome (c : ToolContext) : option ToolCallOutcome * ToolContext :=
  (tx_deferred_outcome c, set_deferred_outcome c None).
Definition requires_checkpoint (tool_call_id : string) : ToolCallOutcome :=
  OutcomeCompleted (with_error_code
    (result_error tool_call_id "Deferred execution requires a durable checkpoint.")
    "deferred_requires_checkpoint").
Definition defer (c : ToolContext) : ToolCallOutcome * ToolContext :=
  let outcome :=
    match tx_checkpoint_key c, tx_operation_id c, tx_request_digest c with
    | Some checkpoint_key, Some operation_id, Some request_digest =>
        if negb (trim_is_empty checkpoint_key) && negb (trim_is_empty operation_id)
           && negb (trim_is_empty request_digest)
        then match handle_new checkpoint_key operation_id (tx_attempt c) request_digest with
             | Ok handle => OutcomeDeferred handle
             | Err _ => requires_checkpoint (tx_tool_call_id c)
             end
        else requires_checkpoint (tx_tool_call_id c)
    | _, _, _ => requires_checkpoint (tx_tool_call_id c)
    end in
  (outcome, set_deferred_outcome c (Some outcome)).
End Tools.
Arguments ToolContext : clear implicits.

(** ** The orchestrator *)

Inductive ApprovalRequirement := NotRequired | RequiredApproval | ProviderApproval.
#[global] Instance ApprovalRequirement_eq_dec : EqDecision ApprovalRequirement.
Proof. solve_decision. Defined.

Inductive ToolLifecycleEvent :=
| Planned (call : ToolCall) (tool_metadata : option ToolMetadata)
| StartedTool (call : ToolCall) (tool_metadata : option ToolMetadata)
| DeferredTool (call : ToolCall) (handle : DeferredToolHandle) (execution_started : bool)
    (duration_ms : option N) (tool_metadata : option ToolMetadata)
| CompletedTool (call : ToolCall) (r : ToolExecutionResult) (execution_started : bool)
    (duration_ms : option N) (tool_metadata : option ToolMetadata).
(** What the orchestrator does to the outside. *)
Inductive ToolEffect :=
| Emitted (e : ToolLifecycleEvent)
| Consulted (requirement : ApprovalRequirement)
| Dispatching
| Executed (call : ToolCall).

(** *** An execution that waits for its result to be final *)

Record DeferredToolLifecycle := {
  dl_call : ToolCall;
  dl_execution_started : bool;
  dl_duration_ms : option N;
  dl_tool_metadata : option ToolMetadata;
  dl_observed : bool
}.
Record DeferredToolExecution := {
  de_result : ToolExecutionResult;
  de_outcome : ToolCallOutcome;
  de_lifecycle : option DeferredToolLifecycle
}.
Definition without_lifecycle (r : ToolExecutionResult) : DeferredToolExecution :=
  {| de_result := r; de_outcome := OutcomeCompleted r; de_lifecycle := None |}.
Definition with_lifecycle (call : ToolCall) (r : ToolExecutionResult) (execution_started : bool)
    (duration_ms : option N) (tool_metadata : option ToolMetadata) (observed : bool)
    : DeferredToolExecution :=
  {| de_result := r; de_outcome := OutcomeCompleted r;
     de_lifecycle := Some {| dl_call := call; dl_execution_started := execution_started;
                             dl_duration_ms := duration_ms; dl_tool_metadata := tool_metadata;
                             dl_observed := observed |} |}.
Definition with_deferred_lifecycle (call : ToolCall) (handle : DeferredToolHandle) (execution_started : bool)
    (duration_ms : option N) (tool_metadata : option ToolMetadata) (observed : bool)
    : DeferredToolExecution :=
  {| de_result := result_error (tc_id call) "Deferred tool execution is waiting for a definitive receipt.";
     de_outcome := OutcomeDeferred handle;
     de_lifecycle := Some {| dl_call := call; dl_execution_started := execution_started;
                             dl_duration_ms := duration_ms; dl_tool_metadata := tool_metadata;
                             dl_observed := observed |} |}.
Definition set_outcome (e : DeferredToolExecution) (o : ToolCallOutcome) : DeferredToolExecution :=
  {| de_result := de_result e; de_outcome := o; de_lifecycle := de_lifecycle e |}.
Definition replace_result (e : DeferredToolExecution) (r : ToolExecutionResult) : DeferredToolExecution :=
  {| de_result := r;
     de_outcome := match de_outcome e with
                   | OutcomeHostInteraction _ request => OutcomeHostInteraction r request
                   | _ => OutcomeCompleted r
                   end;
     de_lifecycle := de_lifecycle e |}.
Definition execution_started (e : DeferredToolExecution) : bool :=
  is_some_and (de_lifecycle e) dl_execution_started.
(** A panic of the observer is caught. *)
Definition emit_lifecycle (observed : bool) (e : ToolLifecycleEvent) : list ToolEffect :=
  if observed then [Emitted e] else [].
Definition complete (e : DeferredToolExecution) : ToolExecutionResult * list ToolEffect :=
  (de_result e,
   match de_lifecycle e with
   | None => []
   | Some l =>
       match de_outcome e with
       | OutcomeCompleted _ =>
           emit_lifecycle (dl_observed l)
             (CompletedTool (dl_call l) (de_result e) (dl_execution_started l) (dl_duration_ms l)
                (dl_tool_metadata l))
       | OutcomeDeferred handle =>
           emit_lifecycle (dl_observed l)
             (DeferredTool (dl_call l) handle (dl_execution_started l) None (dl_tool_metadata l))
       | OutcomeHostInteraction _ _ => []
       end
   end).

Section Orchestrator.
Context `{JsonText} `{Digest} {X : Type}.

(** What running a tool gives: no outcome when its time was over, the context
    it leaves and the time it took. *)
Record ToolRun := {
  rn_outcome : option (result ToolCallOutcome);
  rn_context : ToolContext X;
  rn_elapsed_ms : N
}.
(** [ToolExecutor]; the timeout is the text of its seconds. *)
Record ToolExecutor := {
  te_name : string;
  te_metadata : object;
  te_tool_metadata : option ToolMetadata;
  te_timeout : option string;
  te_validate_arguments : ToolCall -> result (option ToolExecutionResult);
  te_approval_requirement : ToolCall -> ToolContext X -> ApprovalRequirement;
  te_run_outcome : ToolCall -> ToolContext X -> ToolRun
}.
Record ToolRunOptions := {
  ro_planned_tools : option (list string);
  ro_policy : ToolPolicy;
  ro_idempotency_key : option string;
  ro_before_dispatch : option (ToolCall -> ToolContext X -> result unit * ToolContext X);
  ro_observed : bool
}.
Definition options_default : ToolRunOptions :=
  {| ro_planned_tools := None; ro_policy := policy_default; ro_idempotency_key := None;
     ro_before_dispatch := None; ro_observed := false |}.
Definition from_policy (policy : ToolPolicy) : ToolRunOptions :=
  {| ro_planned_tools := None; ro_policy := policy; ro_idempotency_key := None;
     ro_before_dispatch := None; ro_observed := false |}.
(** *** Options *)

Definition set_policy (o : ToolRunOptions) (p : ToolPolicy) : ToolRunOptions :=
  {| ro_planned_tools := ro_planned_tools o; ro_policy := p; ro_idempotency_key := ro_idempotency_key o;
     ro_before_dispatch := ro_before_dispatch o; ro_observed := ro_observed o |}.
Definition set_names (o : ToolRunOptions) (allowed : option (list string)) (disallowed : list string)
    (predicate : option CanUseToolPredicate) : ToolRunOptions :=
  let p := ro_policy o in
  set_policy o {| tp_allowed_tools := allowed; tp_disallowed_tools := disallowed; tp_approval := tp_approval p;
                  tp_can_use_tool := predicate; tp_denied_side_effects := tp_denied_side_effects p;
                  tp_denied_capability_tags := tp_denied_capability_tags p;
                  tp_deny_terminal_tools := tp_deny_terminal_tools p;
                  tp_denied_cost_dimensions := tp_denied_cost_dimensions p |}.
Definition planned_names (o : ToolRunOptions) (tools : list string) : ToolRunOptions :=
  {| ro_planned_tools := Some tools; ro_policy := ro_policy o; ro_idempotency_key := ro_idempotency_key o;
     ro_before_dispatch := ro_before_dispatch o; ro_observed := ro_observed o |}.
Definition options_allow_only (o : ToolRunOptions) (tools : list string) : ToolRunOptions :=
  set_names o (Some tools) (tp_disallowed_tools (ro_policy o)) (tp_can_use_tool (ro_policy o)).
Definition options_disallow (o : ToolRunOptions) (tool : string) : ToolRunOptions :=
  set_names o (tp_allowed_tools (ro_policy o)) (tp_disallowed_tools (ro_policy o) ++ [tool])
    (tp_can_use_tool (ro_policy o)).
Definition can_use_tool (o : ToolRunOptions) (predicate : CanUseToolPredicate) : ToolRunOptions :=
  set_names o (tp_allowed_tools (ro_policy o)) (tp_disallowed_tools (ro_policy o)) (Some predicate).
Definition set_callbacks (o : ToolRunOptions) (idempotency_key : option string)
    (before : option (ToolCall -> ToolContext X -> result unit * ToolContext X)) (observed : bool) : ToolRunOptions :=
  {| ro_planned_tools := ro_planned_tools o; ro_policy := ro_policy o; ro_idempotency_key := idempotency_key;
     ro_before_dispatch := before; ro_observed := observed |}.
Definition with_idempotency_key (o : ToolRunOptions) (key : option string) : ToolRunOptions :=
  set_callbacks o key (ro_before_dispatch o) (ro_observed o).
Definition with_before_dispatch (o : ToolRunOptions)
    (callback : ToolCall -> ToolContext X -> result unit * ToolContext X) : ToolRunOptions :=
  set_callbacks o (ro_idempotency_key o) (Some callback) (ro_observed o).
Definition with_lifecycle_callback (o : ToolRunOptions) : ToolRunOptions :=
  set_callbacks o (ro_idempotency_key o) (ro_before_dispatch o) true.

(** *** The call *)

(** Of tools with the same name the last. *)
Definition from_tools (tools : list ToolExecutor) : list (string * ToolExecutor) :=
  map_of_list (map (fun tool => (te_name tool, tool)) tools).

Definition elapsed_millis (ms : N) : N := N.min ms 9007199254740991.
Definition deferred_without_execution (call : ToolCall) (r : ToolExecutionResult)
    (tool_metadata : option ToolMetadata) (observed : bool) : DeferredToolExecution :=
  with_lifecycle call r false None tool_metadata observed.
(** [ToolPolicy] with the denials of the options and nothing else. *)
Definition denial_policy (p : ToolPolicy) : ToolPolicy :=
  with_denials policy_default (tp_denied_side_effects p) (tp_denied_capability_tags p)
    (tp_deny_terminal_tools p) (tp_denied_cost_dimensions p).
(** The first rule about names and arguments that refuses a call. *)
Definition name_denial (options : ToolRunOptions) (call : ToolCall) : option string :=
  let p := ro_policy options in
  if is_some_and (tp_allowed_tools p) (fun allowed => negb (contains allowed (tc_name call)))
  then Some "allowed_tools"
  else if contains (tp_disallowed_tools p) (tc_name call) then Some "disallowed_tools"
  else if is_some_and (tp_can_use_tool p) (fun predicate => negb (predicate (tc_name call) (tc_arguments call)))
  then Some "can_use_tool"
  else if is_some_and (ro_planned_tools options) (fun planned => negb (contains planned (tc_name call)))
  then Some "planned_name"
  else None.
Definition requirement_of (options : ToolRunOptions) (tool : ToolExecutor) (call : ToolCall)
    (context : ToolContext X) : ApprovalRequirement :=
  match tp_approval (ro_policy options) with
  | NeverApproval => NotRequired
  | AlwaysApproval => RequiredApproval
  | DefaultApproval | OnRequestApproval => te_approval_requirement tool call context
  end.

(** The tool runs, and its outcome becomes an execution. *)
Definition settle_run (tool : ToolExecutor) (call : ToolCall) (observed : bool) (run : ToolRun)
    : result DeferredToolExecution * ToolContext X :=
  let elapsed := elapsed_millis (rn_elapsed_ms run) in
  match rn_outcome run with
  | None =>
      (Ok (with_lifecycle call (timeout_result call (unwrap_or (te_timeout tool) EmptyString)) true
             (Some elapsed) (te_tool_metadata tool) observed), rn_context run)
  | Some (Err e) => (Err e, rn_context run)
  | Some (Ok outcome) =>
      let '(marker, context) := take_deferred_outcome (rn_context run) in
      (match unwrap_or marker outcome with
       | OutcomeHostInteraction r request =>
           do? outcome_validate (OutcomeHostInteraction r request) ;;
           Ok (set_outcome (with_lifecycle call r true (Some elapsed) (te_tool_metadata tool) observed)
                 (OutcomeHostInteraction r request))
       | OutcomeCompleted r =>
           Ok (with_lifecycle call (fill_call_id r (tc_id call)) true (Some elapsed) (te_tool_metadata tool)
                 observed)
       | OutcomeDeferred handle =>
           Ok (with_deferred_lifecycle call handle true None (te_tool_metadata tool) observed)
       end, context)
  end.
(** Behind the approval: the last callback, and the tool. *)
Definition run_approved (options : ToolRunOptions) (tool : ToolExecutor) (call : ToolCall)
    (context : ToolContext X) : result DeferredToolExecution * ToolContext X * list ToolEffect :=
  let '(ready, context, dispatching) :=
    match ro_before_dispatch options with
    | Some callback => let '(r, c) := callback call context in (r, c, [Dispatching])
    | None => (Ok tt, context, [])
    end in
  match ready with
  | Err e => (Err e, context, dispatching)
  | Ok _ =>
      let '(execution, context) :=
        settle_run tool call (ro_observed options) (te_run_outcome tool call context) in
      (execution, context,
       dispatching ++ emit_lifecycle (ro_observed options) (StartedTool call (te_tool_metadata tool))
       ++ [Executed call])
  end.
Definition run_one_deferred (tools : list (string * ToolExecutor)) (call : ToolCall) (context : ToolContext X)
    (options : ToolRunOptions)
    (approval : ToolCall -> ApprovalRequirement -> ToolContext X -> object -> option ToolExecutionResult)
    : result DeferredToolExecution * ToolContext X * list ToolEffect :=
  match argument_error_result call with
  | Some r => (Ok (without_lifecycle r), context, [])
  | None =>
      let tool := map_get (tc_name call) tools in
      let tool_metadata := tool ≫= te_tool_metadata in
      let observed := ro_observed options in
      let planned := emit_lifecycle observed (Planned call tool_metadata) in
      let refuse (r : ToolExecutionResult) (m : option ToolMetadata) (context : ToolContext X)
                 (effects : list ToolEffect) :=
        (Ok (deferred_without_execution call r m observed), context, planned ++ effects) in
      match (match tool with Some tool => te_validate_arguments tool call | None => Ok None end) with
      | Err e => (Err e, context, planned)
      | Ok (Some r) => refuse r tool_metadata context []
      | Ok None =>
          match name_denial options call, tool with
          | Some source, _ => refuse (policy_denial call source) tool_metadata context []
          | None, None =>
              refuse (denied_call_error call "tool_not_found" ("Unknown tool: " +:+ tc_name call) None) None context []
          | None, Some tool =>
              match metadata_denial_source (denial_policy (ro_policy options)) tool_metadata with
              | Some source => refuse (policy_denial call source) tool_metadata context []
              | None =>
                  let context := set_idempotency_key (begin_tool_call context call) (ro_idempotency_key options) in
                  let requirement := requirement_of options tool call context in
                  match approval call requirement context (te_metadata tool) with
                  | Some r => refuse (fill_call_id r (tc_id call)) tool_metadata context [Consulted requirement]
                  | None =>
                      let '(execution, context, effects) := run_approved options tool call context in
                      (execution, context, planned ++ [Consulted requirement] ++ effects)
                  end
              end
          end
      end
  end.
(** *** The other ways to run a call *)

Definition run_one_with_approval_and_metadata (tools : list (string * ToolExecutor)) (call : ToolCall)
    (context : ToolContext X) (options : ToolRunOptions)
    (approval : ToolCall -> ApprovalRequirement -> ToolContext X -> object -> option ToolExecutionResult)
    : result ToolExecutionResult * ToolContext X * list ToolEffect :=
  let '(execution, context, effects) := run_one_deferred tools call context options approval in
  match execution with
  | Err e => (Err e, context, effects)
  | Ok execution => let '(r, completed) := complete execution in (Ok r, context, effects ++ completed)
  end.
Definition run_one_with_approval (tools : list (string * ToolExecutor)) (call : ToolCall) (context : ToolContext X)
    (options : ToolRunOptions) (approval : ToolCall -> ApprovalRequirement -> ToolContext X -> option ToolExecutionResult)
    : result ToolExecutionResult * ToolContext X * list ToolEffect :=
  run_one_with_approval_and_metadata tools call context options
    (fun call requirement context _ => approval call requirement context).
Definition run_one (tools : list (string * ToolExecutor)) (call : ToolCall) (context : ToolContext X)
    (options : ToolRunOptions) : result ToolExecutionResult * ToolContext X * list ToolEffect :=
  run_one_with_approval tools call context options (fun _ _ _ => None).
Definition run_one_outcome (tools : list (string * ToolExecutor)) (call : ToolCall) (context : ToolContext X)
    (options : ToolRunOptions) : result ToolCallOutcome * ToolContext X * list ToolEffect :=
  let '(execution, context, effects) := run_one_deferred tools call context options (fun _ _ _ _ => None) in
  (match execution with Ok e => Ok (de_outcome e) | Err e => Err e end, context, effects).
(** A result a hook gave instead of the tool. *)
Definition observe_result_without_execution (tools : list (string * ToolExecutor)) (call : ToolCall)
    (r : ToolExecutionResult) (options : ToolRunOptions) : DeferredToolExecution * list ToolEffect :=
  match argument_error_result call with
  | Some _ => (without_lifecycle r, [])
  | None =>
      let tool_metadata := map_get (tc_name call) tools ≫= te_tool_metadata in
      (deferred_without_execution call r tool_metadata (ro_observed options),
       emit_lifecycle (ro_observed options) (Planned call tool_metadata))
  end.
End Orchestrator.
Arguments ToolRun : clear implicits.
Arguments ToolExecutor : clear implicits.
Arguments ToolRunOptions : clear implicits.

(** ** What a call passes before its tool runs *)

Section Gates.
Context `{JsonText} `{Digest} {X : Type}.

(** The context a tool is asked with. *)
Definition call_context (options : ToolRunOptions X) (call : ToolCall) (context : ToolContext X) : ToolContext X :=
  set_idempotency_key (begin_tool_call context call) (ro_idempotency_key options).
(** The checks of a call, in the words of the policy. *)
Record Permitted (tools : list (string * ToolExecutor X)) (options : ToolRunOptions X)
    (approval : ToolCall -> ApprovalRequirement -> ToolContext X -> object -> option ToolExecutionResult)
    (call : ToolCall) (context : ToolContext X) (tool : ToolExecutor X) : Prop := {
  pm_arguments_read : argument_error_result call = None;
  pm_known : map_get (tc_name call) tools = Some tool;
  pm_arguments_valid : te_validate_arguments tool call = Ok None;
  pm_allowed : forall allowed, tp_allowed_tools (ro_policy options) = Some allowed -> tc_name call ∈ allowed;
  pm_not_disallowed : tc_name call ∉ tp_disallowed_tools (ro_policy options);
  pm_predicate : allows_arguments (ro_policy options) (tc_name call) (tc_arguments call) = true;
  pm_planned : forall planned, ro_planned_tools options = Some planned -> tc_name call ∈ planned;
  pm_metadata : metadata_denial_source (ro_policy options) (te_tool_metadata tool) = None;
  pm_approved :
    approval call (requirement_of options tool call (call_context options call context))
      (call_context options call context) (te_metadata tool) = None
}.
Definition is_executed (e : ToolEffect) : bool := match e with Executed _ => true | _ => false end.
Definition executions (log : list ToolEffect) : list ToolEffect := List.filter is_executed log.

Lemma name_denial_None (options : ToolRunOptions X) call :
  name_denial options call = None <->
  (forall allowed, tp_allowed_tools (ro_policy options) = Some allowed -> tc_name call ∈ allowed) /\
  (tc_name call ∉ tp_disallowed_tools (ro_policy options)) /\
  allows_arguments (ro_policy options) (tc_name call) (tc_arguments call) = true /\
  (forall planned, ro_planned_tools options = Some planned -> tc_name call ∈ planned).
Proof.
  unfold name_denial, allows_arguments. set (p := ro_policy options).
  assert (Hl : forall o : option (list string),
    is_some_and o (fun l => negb (contains l (tc_name call))) = false <->
    forall l, o = Some l -> tc_name call ∈ l).
  { intros [l|]; cbn; [|by split]. rewrite negb_false_iff, contains_spec. split; [by intros ? ? [= <-]|auto]. }
  assert (Hp : is_some_and (tp_can_use_tool p) (fun f => negb (f (tc_name call) (tc_arguments call))) = false <->
               is_none_or (tp_can_use_tool p) (fun f => f (tc_name call) (tc_arguments call)) = true).
  { destruct (tp_can_use_tool p); cbn; [by rewrite negb_false_iff|done]. }
  rewrite <- (Hl (tp_allowed_tools p)), <- (Hl (ro_planned_tools options)), <- Hp, <- contains_spec, not_true_iff_false.
  clear. repeat destruct (is_some_and _ _); destruct (contains _ _); naive_solver.
Qed.
Lemma denial_policy_same (p : ToolPolicy) m :
  metadata_denial_source (denial_policy p) m = metadata_denial_source p m.
Proof. by destruct m. Qed.
Lemma executions_app a b : executions (a ++ b) = executions a ++ executions b.
Proof. apply List.filter_app. Qed.
Lemma executions_lifecycle o e : executions (emit_lifecycle o e) = [].
Proof. by destruct o. Qed.

Lemma run_one_permitted tools call (context : ToolContext X) options approval r context' log :
  run_one_deferred tools call context options approval = (r, context', log) ->
  (executions log = [Executed call] /\ exists tool, Permitted tools options approval call context tool /\
     match ro_before_dispatch options with
     | Some callback => is_ok (callback call (call_context options call context)).1 = true
     | None => True
     end) \/
  (executions log = [] /\ forall tool, Permitted tools options approval call context tool ->
     exists callback e, ro_before_dispatch options = Some callback /\
       (callback call (call_context options call context)).1 = Err e).
Proof.
  unfold run_one_deferred. intros Hr.
  destruct (argument_error_result call) as [r0|] eqn:Hargs.
  { injection Hr as <- <- <-. right. split; [done|]. intros tool [Hp _ _ _ _ _ _ _ _]. congruence. }
  destruct (match map_get (tc_name call) tools with Some tool => te_validate_arguments tool call | None => Ok None end)
    as [[r0|]|e0] eqn:Hvalid.
  { injection Hr as <- <- <-. right. rewrite executions_app, executions_lifecycle. split; [done|].
    intros tool [_ Hk Hv _ _ _ _ _ _]. rewrite Hk in Hvalid. congruence. }
  2: { injection Hr as <- <- <-. right. rewrite executions_lifecycle. split; [done|].
       intros tool [_ Hk Hv _ _ _ _ _ _]. rewrite Hk in Hvalid. congruence. }
  destruct (name_denial options call) as [source|] eqn:Hname.
  { injection Hr as <- <- <-. right. rewrite executions_app, executions_lifecycle. split; [done|].
    intros tool [_ _ _ Ha Hd Hu Hpl _ _].
    assert (name_denial options call = None) as Hnone by (by apply name_denial_None). congruence. }
  destruct (map_get (tc_name call) tools) as [tool|] eqn:Htool.
  2: { injection Hr as <- <- <-. right. rewrite executions_app, executions_lifecycle. split; [done|].
       intros tool [_ Hk _ _ _ _ _ _ _]. congruence. }
  cbn [mbind option_bind] in Hr. rewrite denial_policy_same in Hr.
  destruct (metadata_denial_source (ro_policy options) (te_tool_metadata tool)) as [source|] eqn:Hmeta.
  { injection Hr as <- <- <-. right. rewrite executions_app, executions_lifecycle. split; [done|].
    intros tool' [_ Hk _ _ _ _ _ Hm _]. congruence. }
  fold (call_context options call context) in Hr.
  destruct (approval call _ (call_context options call context) (te_metadata tool)) as [r0|] eqn:Happ.
  { injection Hr as <- <- <-. right. rewrite executions_app, executions_lifecycle. split; [done|].
    intros tool' [_ Hk _ _ _ _ _ _ Ha]. assert (tool' = tool) as -> by congruence. congruence. }
  apply name_denial_None in Hname as (Hallow & Hdis & Huse & Hplan).
  assert (Hpermit : Permitted tools options approval call context tool) by (by split).
  unfold run_approved in Hr.
  destruct (ro_before_dispatch options) as [callback|] eqn:Hbefore.
  - destruct (callback call (call_context options call context)) as [[[]|e] c1] eqn:Hcb.
    + destruct (settle_run _ _ _ _) as [execution c2]. injection Hr as <- <- <-. left.
      split; [by destruct (ro_observed options)|]. by exists tool.
    + injection Hr as <- <- <-. right. split; [by destruct (ro_observed options)|].
      intros tool' _. exists callback, e. by rewrite Hcb.
  - destruct (settle_run _ _ _ _) as [execution c2]. injection Hr as <- <- <-. left.
    split; [by destruct (ro_observed options)|]. by exists tool.
Qed.

(** (C26) A tool runs exactly when its call passes every check: its arguments
    were read and fit its schema, it is registered, the allow list, the deny
    list, the predicate of the policy and the plan of the cycle admit its
    name, no denial of the policy hits its metadata, the host's approval does
    not stop it, and the last callback before the dispatch succeeds.  It then
    runs once, and in every other case not at all. *)
Theorem tool_runs_permitted tools call (context : ToolContext X) options approval r context' log :
  run_one_deferred tools call context options approval = (r, context', log) ->
  (executions log = [Executed call] /\ exists tool, Permitted tools options approval call context tool /\
     match ro_before_dispatch options with
     | Some callback => is_ok (callback call (call_context options call context)).1 = true
     | None => True
     end) \/
  (executions log = [] /\ forall tool, Permitted tools options approval call context tool ->
     exists callback e, ro_before_dispatch options = Some callback /\
       (callback call (call_context options call context)).1 = Err e).
Proof. apply run_one_permitted. Qed.
End Gates.

(** *** The result of a call *)

Section Ids.
Context `{JsonText} `{Digest} {X : Type}.

(** An id that is the call's, or is replaced by it. *)
Definition id_ok (id : string) (call : ToolCall) : Prop := needs_tool_call_id id = true \/ id = tc_id call.
Definition outcome_id_ok (o : ToolCallOutcome) (call : ToolCall) : Prop :=
  match o with
  | OutcomeCompleted r | OutcomeHostInteraction r _ => id_ok (tr_tool_call_id r) call
  | OutcomeDeferred _ => True
  end.
(** No mark of an earlier call is left in a context. *)
Definition unmarked (context : ToolContext X) : Prop := tx_deferred_outcome context = None.
(** A tool that does not answer under another id, and does not mark its
    context before its time is over. *)
Record tool_keeps_ids (tool : ToolExecutor X) : Prop := {
  tk_arguments call r : te_validate_arguments tool call = Ok (Some r) -> id_ok (tr_tool_call_id r) call;
  tk_outcome call context o :
    rn_outcome (te_run_outcome tool call context) = Some (Ok o) -> outcome_id_ok o call;
  tk_marker call context o : unmarked context ->
    tx_deferred_outcome (rn_context (te_run_outcome tool call context)) = Some o -> outcome_id_ok o call;
  tk_timeout call context : unmarked context -> rn_outcome (te_run_outcome tool call context) = None ->
    unmarked (rn_context (te_run_outcome tool call context))
}.
Lemma fill_id_ok r call : id_ok (tr_tool_call_id r) call -> id_ok (tr_tool_call_id (fill_call_id r (tc_id call))) call.
Proof. unfold fill_call_id. destruct (_ || _); [by right|done]. Qed.
Lemma settle_id tool call observed run e context :
  settle_run (X := X) tool call observed run = (Ok e, context) ->
  (forall o, rn_outcome run = Some (Ok o) -> outcome_id_ok o call) ->
  (forall o, tx_deferred_outcome (rn_context run) = Some o -> outcome_id_ok o call) ->
  (rn_outcome run = None -> unmarked (rn_context run)) ->
  id_ok (tr_tool_call_id (de_result e)) call /\ unmarked context.
Proof.
  unfold settle_run. destruct (rn_outcome run) as [[o|]|]; [|done|]; intros He Ho Hm Ht.
  2: { injection He as <- <-. split; [by right|by apply Ht]. }
  cbn [take_deferred_outcome] in He.
  assert (Hu : outcome_id_ok (unwrap_or (tx_deferred_outcome (rn_context run)) o) call).
  { destruct (tx_deferred_outcome (rn_context run)); cbn; auto. }
  destruct (unwrap_or _ o) as [r|handle|r request].
  - injection He as <- <-. by split; [apply fill_id_ok|].
  - injection He as <- <-. by split; [right|].
  - destruct (outcome_validate _) as [[]|]; [|done]. injection He as <- <-. by split.
Qed.
Lemma run_one_deferred_id tools call (context : ToolContext X) options approval e context' log :
  run_one_deferred tools call context options approval = (Ok e, context', log) -> unmarked context ->
  (forall name tool, map_get name tools = Some tool -> tool_keeps_ids tool) ->
  (forall requirement c m r, approval call requirement c m = Some r -> id_ok (tr_tool_call_id r) call) ->
  (forall callback c, ro_before_dispatch options = Some callback -> unmarked c -> unmarked (callback call c).2) ->
  id_ok (tr_tool_call_id (de_result e)) call /\ unmarked context'.
Proof.
  unfold run_one_deferred. intros Hr Hmark Htools Happroval Hbefore.
  destruct (argument_error_result call) as [r0|] eqn:Hargs.
  { injection Hr as <- <- <-. unfold argument_error_result in Hargs.
    apply bind_Some in Hargs as (extra & _ & [= <-]). by split; [right|]. }
  destruct (map_get (tc_name call) tools) as [tool|] eqn:Htool.
  2: { destruct (name_denial _ _); injection Hr as <- <- <-; by split; [right|]. }
  destruct (Htools _ _ Htool) as [Hargs_ok Hout Hkeeps Htime].
  destruct (te_validate_arguments tool call) as [[r0|]|] eqn:Hv; [|..|done].
  { injection Hr as <- <- <-. by split; [apply Hargs_ok|]. }
  destruct (name_denial options call); [injection Hr as <- <- <-; by split; [right|]|].
  destruct (metadata_denial_source _ _); [injection Hr as <- <- <-; by split; [right|]|].
  destruct (approval _ _ _ _) as [r0|] eqn:Ha.
  { injection Hr as <- <- <-. split; [|done]. apply fill_id_ok. by eapply Happroval. }
  unfold run_approved in Hr.
  set (c0 := set_idempotency_key (begin_tool_call context call) (ro_idempotency_key options)) in Hr.
  assert (Hc1 : exists ready c1 d, (match ro_before_dispatch options with
      | Some callback => let '(r, c) := callback call c0 in (r, c, [Dispatching])
      | None => (Ok tt, c0, [])
      end) = (ready, c1, d) /\ unmarked c1).
  { destruct (ro_before_dispatch options) as [callback|]; [|by eexists _, _, _].
    pose proof (Hbefore callback c0 eq_refl Hmark) as Hc. destruct (callback call c0). by eexists _, _, _. }
  destruct Hc1 as (ready & c1 & d & Heq & Hc1). rewrite Heq in Hr. destruct ready as [[]|]; [|done].
  destruct (settle_run _ _ _ _) as [execution c2] eqn:Hs. injection Hr as -> <- <-.
  eapply settle_id; [done|apply Hout|intros o; by apply Hkeeps|by apply Htime].
Qed.
Lemma normalize_id r call :
  id_ok (tr_tool_call_id r) call -> tr_tool_call_id (normalize_tool_call_id r (tc_id call)) = tc_id call.
Proof. unfold normalize_tool_call_id. intros [->| Hid]; [done|]. by destruct (needs_tool_call_id _). Qed.

Definition emitted (log : list ToolEffect) : list ToolLifecycleEvent :=
  omap (fun e => match e with Emitted e => Some e | _ => None end) log.
(** An observed call is announced first, reported started exactly when its
    tool runs, and reported completed or deferred once, with the result it
    ends with, unless it turned into a question to the host. *)
Theorem lifecycle_observed tools call (context : ToolContext X) options approval e context' log :
  run_one_deferred tools call context options approval = (Ok e, context', log) ->
  argument_error_result call = None -> ro_observed options = true ->
  exists metadata metadata',
    emitted log = Planned call metadata :: (if execution_started e then [StartedTool call metadata] else []) /\
    executions log = (if execution_started e then [Executed call] else []) /\
    emitted (complete e).2
    = match de_outcome e with
      | OutcomeCompleted _ =>
          [CompletedTool call (de_result e) (execution_started e) (de_lifecycle e ≫= dl_duration_ms) metadata']
      | OutcomeDeferred handle => [DeferredTool call handle true None metadata']
      | OutcomeHostInteraction _ _ => []
      end.
Proof.
  unfold run_one_deferred. intros Hr Harg Hobs. rewrite Harg, Hobs in Hr.
  destruct (match map_get (tc_name call) tools with Some tool => te_validate_arguments tool call | None => Ok None end)
    as [[r0|]|]; [injection Hr as <- <- <-; by eexists _, _|..|done].
  destruct (name_denial options call); [injection Hr as <- <- <-; by eexists _, _|].
  destruct (map_get (tc_name call) tools) as [tool|]; [|injection Hr as <- <- <-; by eexists _, _].
  destruct (metadata_denial_source _ _); [injection Hr as <- <- <-; by eexists _, _|].
  destruct (approval _ _ _ _); [injection Hr as <- <- <-; by eexists _, _|].
  unfold run_approved in Hr. rewrite Hobs in Hr.
  assert (Hd : exists ready c1 d, (match ro_before_dispatch options with
      | Some callback => let '(r, c) := callback call
          (set_idempotency_key (begin_tool_call context call) (ro_idempotency_key options)) in (r, c, [Dispatching])
      | None => (Ok tt, set_idempotency_key (begin_tool_call context call) (ro_idempotency_key options), [])
      end) = (ready, c1, d) /\ (d = [] \/ d = [Dispatching])).
  { destruct (ro_before_dispatch options) as [callback|]; [destruct (callback _ _)|]; eexists _, _, _; eauto. }
  destruct Hd as (ready & c1 & d & Hd & Hshape). rewrite Hd in Hr. destruct ready as [[]|]; [|done].
  destruct (settle_run _ _ _ _) as [execution c2] eqn:Hs. injection Hr as -> <- <-.
  assert (Hst : execution_started e = true /\ exists l, de_lifecycle e = Some l /\ dl_observed l = true /\
    dl_call l = call /\ dl_execution_started l = true).
  { unfold settle_run in Hs. destruct (rn_outcome _) as [[o|]|]; [|done|].
    2: { injection Hs as <- <-. split; [done|]. by eexists. }
    cbn [take_deferred_outcome] in Hs. destruct (unwrap_or _ o) as [r|handle|r request].
    3: destruct (outcome_validate _) as [[]|]; [|done].
    all: injection Hs as <- <-; split; [done|]; by eexists. }
  destruct Hst as (Hst & l & Hl & Hlo & Hlc & Hle). rewrite Hst.
  eexists _, (dl_tool_metadata l). split_and!.
  - by destruct Hshape as [-> | ->].
  - by destruct Hshape as [-> | ->].
  - unfold complete. rewrite Hl. cbn [snd mbind option_bind]. rewrite Hlo, Hlc, Hle.
    by destruct (de_outcome e).
Qed.
End Ids.

(** ** Examples *)

Definition brace_json : JsonText :=
  {| json_from_str := fun _ => None; json_error_text := fun _ => EmptyString; json_to_string := fun _ => "{}" |}.
Definition echo_tool : ToolExecutor unit :=
  {| te_name := "echo"; te_metadata := []; te_tool_metadata := None; te_timeout := None;
     te_validate_arguments := fun _ => Ok None; te_approval_requirement := fun _ _ => NotRequired;
     te_run_outcome := fun _ c =>
       {| rn_outcome := Some (Ok (OutcomeCompleted (result_success "pending" "done"))); rn_context := c;
          rn_elapsed_ms := 1 |} |}.
Definition echo_call (name id : string) : ToolCall :=
  {| tc_id := id; tc_name := name; tc_arguments := []; tc_extra_content := None |}.
Definition echo_context : ToolContext unit :=
  {| tx_tool_call_id := EmptyString; tx_tool_name := EmptyString; tx_arguments := []; tx_idempotency_key := None;
     tx_parent_tool_call_id := None; tx_checkpoint_key := None; tx_operation_id := None; tx_attempt := 1;
     tx_request_digest := None; tx_deferred_outcome := None; tx_rest := tt |}.
Definition no_approval : ToolCall -> ApprovalRequirement -> ToolContext unit -> object -> option ToolExecutionResult :=
  fun _ _ _ _ => None.
Definition echo_run (name : string) : result DeferredToolExecution * ToolContext unit * list ToolEffect :=
  @run_one_deferred brace_json toy_digest unit (from_tools [echo_tool]) (echo_call name "call-1") echo_context options_default no_approval.
(** A known tool runs and answers under the id of the call, an unknown one
    is answered without running. *)
Example echo_runs :
  map (fun name => (match (echo_run name).1.1 with
                    | Ok e => (tr_tool_call_id (de_result e), tr_error_code (de_result e))
                    | Err e => (e, None)
                    end, executions (echo_run name).2)) ["echo"; "shell"]
  = [(("call-1", None), [Executed (echo_call "echo" "call-1")]); (("call-1", Some "tool_not_found"), [])].
Proof. vm_compute. reflexivity. Qed.
Lemma tool_runs_permitted_witness :
  exists tool, @Permitted brace_json unit (from_tools [echo_tool]) options_default no_approval
                 (echo_call "echo" "call-1") echo_context tool.
Proof.
  assert (Hr : @run_one_deferred brace_json toy_digest unit (from_tools [echo_tool]) (echo_call "echo" "call-1") echo_context
                 options_default no_approval
               = ((echo_run "echo").1.1, (echo_run "echo").1.2, (echo_run "echo").2)) by (vm_compute; reflexivity).
  destruct (@tool_runs_permitted brace_json toy_digest unit (from_tools [echo_tool]) (echo_call "echo" "call-1") echo_context
              options_default no_approval _ _ _ Hr) as [[_ (tool & Hp & _)]|[Hnone _]]; [by exists tool|].
  exfalso. vm_compute in Hnone. discriminate Hnone.
Defined.
