(* ===== verification/ToolRunner.v ===== *)
(** * The tools of a cycle

    [runtime/hooks/manager.rs] and [runtime/tool_call_runner]: the calls of a
    turn run one after the other, each between the hooks of the host, until
    one of them ends the turn or the user interrupts it; the rest is answered
    without running.

    Hooks are host code, functions of the events of the source; the task of a
    run is fixed and left out of them.  The cancellation token and the queue
    of steering messages are functions of how often they were asked.  [None]
    is a panic. *)

From Stdlib Require Import Ascii String NArith ZArith Lia.
From stdpp Require Import base strings list sets.
From S2P Require Import Prelude Json Canonical CheckpointTypes ToolResult Journal TokenUsage.
From S2P Require Import Budget BudgetWire Records ResultCodec ToolPolicy Settings Prompt Text.
From S2P Require Import Workspace MessageSanitizer SessionMemory Memory MemorySafety.
From S2P Require Import Events HostInteraction Controller Checkpoint ModelCalls Deferred Orchestrator.

(** ** Hooks *)

Record BeforeLlmPatch := {
  lp_messages : option (list Message);
  lp_tool_schemas : option (list Value)
}.
Record BeforeToolCallPatch := {
  cp_call : option ToolCall;
  cp_result : option ToolExecutionResult
}.
Section Hooks.
Context {X : Type}.
Record RuntimeHook := {
  hk_before_memory_compact : N -> list Message -> object -> option (list Message);
  hk_before_llm : N -> list Message -> list Value -> object -> option BeforeLlmPatch;
  hk_after_llm : N -> list Message -> list Value -> LLMResponse -> object -> option LLMResponse;
  hk_before_tool_call : N -> ToolCall -> ToolContext X -> option BeforeToolCallPatch;
  hk_after_tool_call : N -> ToolCall -> ToolContext X -> ToolExecutionResult -> option ToolExecutionResult
}.
Definition apply_before_memory_compact (hooks : list RuntimeHook) (cycle_index : N) (messages : list Message)
    (shared_state : object) : list Message :=
  foldl (fun current hook => unwrap_or (hk_before_memory_compact hook cycle_index current shared_state) current)
    messages hooks.
Definition apply_before_llm (hooks : list RuntimeHook) (cycle_index : N) (messages : list Message)
    (tool_schemas : list Value) (shared_state : object) : list Message * list Value :=
  foldl (fun current hook =>
    match hk_before_llm hook cycle_index current.1 current.2 shared_state with
    | Some patch => (unwrap_or (lp_messages patch) current.1, unwrap_or (lp_tool_schemas patch) current.2)
    | None => current
    end) (messages, tool_schemas) hooks.
Definition apply_after_llm (hooks : list RuntimeHook) (cycle_index : N) (messages : list Message)
    (tool_schemas : list Value) (response : LLMResponse) (shared_state : object) : LLMResponse :=
  foldl (fun current hook =>
    unwrap_or (hk_after_llm hook cycle_index messages tool_schemas current shared_state) current)
    response hooks.
(** The first hook with a result ends the chain. *)
Fixpoint apply_before_tool_call (hooks : list RuntimeHook) (cycle_index : N) (call : ToolCall)
    (context : ToolContext X) : ToolCall * option ToolExecutionResult :=
  match hooks with
  | [] => (call, None)
  | hook :: rest =>
      match hk_before_tool_call hook cycle_index call context with
      | None => apply_before_tool_call rest cycle_index call context
      | Some patch =>
          let call := unwrap_or (cp_call patch) call in
          match cp_result patch with
          | Some r => (call, Some r)
          | None => apply_before_tool_call rest cycle_index call context
          end
      end
  end.
Definition apply_after_tool_call (hooks : list RuntimeHook) (cycle_index : N) (call : ToolCall)
    (context : ToolContext X) (r : ToolExecutionResult) : ToolExecutionResult :=
  foldl (fun current hook => unwrap_or (hk_after_tool_call hook cycle_index call context current) current) r hooks.
End Hooks.
Arguments RuntimeHook : clear implicits.

(** ** The tools of a cycle *)

(** What of the task the runner reads. *)
Record ToolTask := {
  tt_metadata : object;
  tt_native_multimodal : bool
}.
Definition apply_tool_use_behavior (task : ToolTask) (call : ToolCall) (r : ToolExecutionResult)
    : ToolExecutionResult * option CompletionReason :=
  if (tr_directive r <>?? DContinue) || (tr_status r <>?? Success) then (r, None)
  else
    let behavior := unwrap_or (map_get "_vv_agent_tool_use_behavior" (tt_metadata task) ≫= as_str) "run_llm_again" in
    let should_stop :=
      if String.eqb behavior "stop_on_first_tool" then true
      else if String.eqb behavior "stop_at_tool_names"
      then is_some_and (map_get "_vv_agent_stop_at_tool_names" (tt_metadata task) ≫= as_array)
             (existsb (fun name => as_str name =?? Some (tc_name call)))
      else false in
    if should_stop
    then (with_outcome r (tr_status r) DFinish (tr_error_code r) (tr_metadata r),
          Some (if String.eqb behavior "stop_on_first_tool" then StopOnFirstTool else StopAtToolName))
    else (r, None).
Section Skipped.
Context `{JsonText}.
Definition skipped_tool_result (call : ToolCall) (error_code message : string) : ToolExecutionResult :=
  with_outcome
    (result_success (tc_id call)
       (json_to_string (json_object [("ok", Bool false); ("error", Str message); ("error_code", Str error_code)])))
    Error DContinue (Some error_code) [].
End Skipped.
Definition image_notification_from_tool_result (r : ToolExecutionResult) (include_image : bool) : option Message :=
  if negb include_image then None
  else
    match tr_image_url r with
    | Some url =>
        let m := message_user match tr_image_path r with
                              | Some path => "[Image loaded] " +:+ path
                              | None => EmptyString
                              end in
        Some {| m_role := m_role m; m_content := m_content m; m_name := m_name m;
                m_tool_call_id := m_tool_call_id m; m_tool_calls := m_tool_calls m;
                m_reasoning_content := m_reasoning_content m; m_image_url := Some url;
                m_metadata := tr_metadata r; m_artifact_ref := m_artifact_ref m |}
    | None => (fun path => message_user ("[Image loaded] " +:+ path)) <$> tr_image_path r
    end.

Record ToolRunOutcome := {
  to_directive_result : option ToolExecutionResult;
  to_completion_reason : option CompletionReason;
  to_completion_tool_name : option string;
  to_interruption_messages : list Message
}.
Definition outcome_none : ToolRunOutcome :=
  {| to_directive_result := None; to_completion_reason := None; to_completion_tool_name := None;
     to_interruption_messages := [] |}.

Section ToolRunner.
Context `{JsonText} `{Digest} {X : Type}.

(** What a run has done so far. *)
Record RunState := {
  rs_messages : list Message;
  rs_tool_results : list ToolExecutionResult;
  rs_images : list Message;
  rs_reported : list (ToolCall * ToolExecutionResult);
  rs_context : ToolContext X;
  rs_effects : list ToolEffect
}.
Record ToolRunRequest := {
  rr_task : ToolTask;
  rr_cycle_index : N;
  rr_hooks : list (RuntimeHook X);
  rr_tools : list (string * ToolExecutor X);
  rr_interruptions : option (nat -> list Message);
  rr_cancelled : nat -> option string
}.
(** The result of a call goes to the conversation, the record of the cycle
    and the observer. *)
Definition record_result (st : RunState) (call : ToolCall) (r : ToolExecutionResult) : option RunState :=
  m ← to_message r;
  Some {| rs_messages := rs_messages st ++ [m]; rs_tool_results := rs_tool_results st ++ [r];
          rs_images := rs_images st; rs_reported := rs_reported st ++ [(call, r)];
          rs_context := rs_context st; rs_effects := rs_effects st |}.
Definition add_image (st : RunState) (image : option Message) : RunState :=
  {| rs_messages := rs_messages st; rs_tool_results := rs_tool_results st;
     rs_images := rs_images st ++ match image with Some m => [m] | None => [] end;
     rs_reported := rs_reported st; rs_context := rs_context st; rs_effects := rs_effects st |}.
Definition after_call (st : RunState) (context : ToolContext X) (effects : list ToolEffect) : RunState :=
  {| rs_messages := rs_messages st; rs_tool_results := rs_tool_results st; rs_images := rs_images st;
     rs_reported := rs_reported st; rs_context := context; rs_effects := rs_effects st ++ effects |}.
Fixpoint skip_rest (st : RunState) (calls : list ToolCall) (error_code message : string) : option RunState :=
  match calls with
  | [] => Some st
  | call :: rest =>
      st ← record_result st call (skipped_tool_result call error_code message);
      skip_rest st rest error_code message
  end.
(** One call: the hooks, the tool, the hooks again. *)
Definition run_call (request : ToolRunRequest) (call : ToolCall) (context : ToolContext X)
    : result (ToolCall * ToolExecutionResult * option CompletionReason) * ToolContext X * list ToolEffect :=
  let '(patched_call, short_circuit) :=
    apply_before_tool_call (rr_hooks request) (rr_cycle_index request) call context in
  let '(execution, context, effects) :=
    match short_circuit with
    | Some r =>
        let '(execution, effects) :=
          observe_result_without_execution (rr_tools request) patched_call
            (normalize_tool_call_id r (tc_id call)) options_default in
        (Ok execution, context, effects)
    | None => run_one_deferred (rr_tools request) patched_call context options_default (fun _ _ _ _ => None)
    end in
  match execution with
  | Err e => (Err e, context, effects)
  | Ok execution =>
      let r := normalize_tool_call_id (de_result execution) (tc_id patched_call) in
      let r := apply_after_tool_call (rr_hooks request) (rr_cycle_index request) patched_call context r in
      let r := normalize_tool_call_id r (tc_id patched_call) in
      let '(r, behavior_reason) := apply_tool_use_behavior (rr_task request) patched_call r in
      let '(r, completed) := complete (replace_result execution r) in
      (Ok (patched_call, r, behavior_reason), context, effects ++ completed)
  end.
Definition directive_reason (d : ToolDirective) : CompletionReason :=
  match d with DWaitUser => WaitUserR | _ => ToolFinish end.
Definition skip_words (d : ToolDirective) : string * string :=
  match d with
  | DWaitUser => ("skipped_due_to_wait_user", "Tool skipped because a previous tool requested user input.")
  | DFinish => ("skipped_due_to_finish", "Tool skipped because a previous tool finished the task.")
  | DContinue => ("skipped_due_to_directive", "Tool skipped.")
  end.
(** The loop over the calls; [None] is a panic. *)
Fixpoint run_calls (request : ToolRunRequest) (index : nat) (calls : list ToolCall) (st : RunState)
    : option (result ToolRunOutcome * RunState) :=
  match calls with
  | [] => Some (Ok outcome_none, st)
  | call :: rest =>
      match rr_cancelled request index with
      | Some e => Some (Err e, st)
      | None =>
          let '(answer, context, effects) := run_call request call (rs_context st) in
          let st := after_call st context effects in
          match answer with
          | Err e => Some (Err e, st)
          | Ok (patched_call, r, behavior_reason) =>
              st ← record_result
                     (add_image st (image_notification_from_tool_result r (tt_native_multimodal (rr_task request))))
                     call r;
              if tr_directive r <>?? DContinue then
                let '(error_code, message) := skip_words (tr_directive r) in
                st ← skip_rest st rest error_code message;
                Some (Ok {| to_directive_result := Some r;
                            to_completion_reason :=
                              match behavior_reason with
                              | Some reason => Some reason
                              | None => Some (directive_reason (tr_directive r))
                              end;
                            to_completion_tool_name := Some (tc_name patched_call);
                            to_interruption_messages := [] |}, st)
              else
                match (match rr_interruptions request with Some provider => provider index | None => [] end) with
                | [] => run_calls request (S index) rest st
                | pending =>
                    st ← skip_rest st rest "skipped_due_to_steering" "Tool skipped due to queued steering message.";
                    Some (Ok {| to_directive_result := None; to_completion_reason := None;
                                to_completion_tool_name := None; to_interruption_messages := pending |}, st)
                end
          end
      end
  end.
(** The messages of images come behind the results. *)
Definition run_tools (request : ToolRunRequest) (calls : list ToolCall) (context : ToolContext X)
    (messages : list Message) (tool_results : list ToolExecutionResult)
    : option (result ToolRunOutcome * RunState) :=
  x ← run_calls request 0 calls
        {| rs_messages := messages; rs_tool_results := tool_results; rs_images := []; rs_reported := [];
           rs_context := context; rs_effects := [] |};
  Some match x with
       | (Err e, st) => (Err e, st)
       | (Ok o, st) =>
           (Ok o, {| rs_messages := rs_messages st ++ rs_images st; rs_tool_results := rs_tool_results st;
                     rs_images := rs_images st; rs_reported := rs_reported st; rs_context := rs_context st;
                     rs_effects := rs_effects st |})
       end.
End ToolRunner.
Arguments RunState : clear implicits.
Arguments ToolRunRequest : clear implicits.

(** *** Every call of a turn is answered *)

Section Answered.
Context `{JsonText} `{Digest} {X : Type}.

(** A hook that does not move a call or a result to another id. *)
Record hook_keeps_ids (hook : RuntimeHook X) : Prop := {
  hi_before cycle call context patch :
    hk_before_tool_call hook cycle call context = Some patch ->
    (forall c, cp_call patch = Some c -> tc_id c = tc_id call) /\
    (forall r, cp_result patch = Some r -> id_ok (tr_tool_call_id r) call);
  hi_after cycle call context r r' :
    hk_after_tool_call hook cycle call context r = Some r' -> id_ok (tr_tool_call_id r') call
}.
Record keeps_ids (request : ToolRunRequest X) : Prop := {
  ki_hooks : Forall hook_keeps_ids (rr_hooks request);
  ki_tools : forall name tool, map_get name (rr_tools request) = Some tool -> tool_keeps_ids tool
}.
Lemma id_ok_same id call call' : tc_id call' = tc_id call -> id_ok id call' -> id_ok id call.
Proof. unfold id_ok. by intros ->. Qed.
Lemma before_tool_call_id hooks cycle context : Forall hook_keeps_ids hooks -> forall call c r,
  apply_before_tool_call hooks cycle call context = (c, r) ->
  tc_id c = tc_id call /\ (forall x, r = Some x -> id_ok (tr_tool_call_id x) call).
Proof.
  induction 1 as [|hook hooks Hk _ IH]; intros call c r Ha; cbn [apply_before_tool_call] in Ha.
  - by injection Ha as <- <-.
  - destruct (hk_before_tool_call hook cycle call context) as [patch|] eqn:Hb; [|by apply IH].
    destruct (hi_before _ Hk _ _ _ _ Hb) as [Hc Hr].
    assert (Hid : tc_id (unwrap_or (cp_call patch) call) = tc_id call)
      by (destruct (cp_call patch); [by apply Hc|done]).
    destruct (cp_result patch) as [x|].
    + injection Ha as <- <-. split; [done|]. intros y [= <-]. by apply Hr.
    + destruct (IH _ _ _ Ha) as [Hc' Hr']. split; [congruence|]. intros y Hy.
      eapply id_ok_same; [exact Hid|by apply Hr'].
Qed.
Lemma after_tool_call_id hooks cycle context call : Forall hook_keeps_ids hooks -> forall r,
  id_ok (tr_tool_call_id r) call -> id_ok (tr_tool_call_id (apply_after_tool_call hooks cycle call context r)) call.
Proof.
  unfold apply_after_tool_call. induction 1 as [|hook hooks Hk _ IH]; intros r Hr; cbn [foldl]; [done|].
  apply IH. destruct (hk_after_tool_call hook cycle call context r) as [r'|] eqn:Ha; [|done].
  by eapply hi_after.
Qed.
Lemma behavior_id task call r : tr_tool_call_id (apply_tool_use_behavior task call r).1 = tr_tool_call_id r.
Proof. unfold apply_tool_use_behavior. destruct (_ || _); [done|]. by destruct (if String.eqb _ _ then _ else _). Qed.
Lemma run_call_id (request : ToolRunRequest X) call context patched r reason context' effects :
  run_call request call context = (Ok (patched, r, reason), context', effects) -> keeps_ids request ->
  unmarked context -> tr_tool_call_id r = tc_id call /\ unmarked context'.
Proof.
  unfold run_call. intros Hr [Hh Ht] Hmark.
  destruct (apply_before_tool_call _ _ _ _) as [c short] eqn:Hb.
  destruct (before_tool_call_id _ _ _ Hh _ _ _ Hb) as [Hc Hshort].
  assert (Hexec : exists execution c1 eff, (match short with
      | Some x => let '(ex, ef) := observe_result_without_execution (rr_tools request) c
                    (normalize_tool_call_id x (tc_id call)) options_default in (Ok ex, context, ef)
      | None => run_one_deferred (rr_tools request) c context options_default (fun _ _ _ _ => None)
      end) = (execution, c1, eff) /\
      forall e, execution = Ok e -> id_ok (tr_tool_call_id (de_result e)) c /\ unmarked c1).
  { destruct short as [x|].
    - destruct (observe_result_without_execution _ _ _ _) as [ex ef] eqn:Ho. eexists _, _, _. split; [done|].
      intros e [= <-]. unfold observe_result_without_execution in Ho.
      assert (de_result ex = normalize_tool_call_id x (tc_id call)) as ->
        by (destruct (argument_error_result c); by injection Ho as <- <-).
      rewrite normalize_id by by apply Hshort. by split; [right|].
    - destruct (run_one_deferred _ _ _ _ _) as [[ex c1] ef] eqn:Ho. eexists _, _, _. split; [done|].
      intros e ->. by eapply run_one_deferred_id. }

  destruct Hexec as (execution & c1 & eff & Heq & Hid). rewrite Heq in Hr.
  destruct execution as [e|]; [|done]. cbn zeta in Hr. destruct (Hid e eq_refl) as [Hide Hc1].
  set (r1 := normalize_tool_call_id (apply_after_tool_call _ _ _ _ _) _) in Hr.
  assert (Hr1 : tr_tool_call_id r1 = tc_id c).
  { apply normalize_id, after_tool_call_id; [done|]. rewrite normalize_id by done. by right. }
  pose proof (behavior_id (rr_task request) c r1) as Hbeh.
  destruct (apply_tool_use_behavior _ _ _) as [r2 reason2]. cbn in Hr, Hbeh. injection Hr as _ <- _ <- _. split; [congruence|done].
Qed.

(** What a run adds for the calls it went through. *)
Record grows (st st' : RunState X) (calls : list ToolCall) (results : list ToolExecutionResult)
    (answers images : list Message) : Prop := {
  gr_results : rs_tool_results st' = rs_tool_results st ++ results;
  gr_messages : rs_messages st' = rs_messages st ++ answers;
  gr_images : rs_images st' = rs_images st ++ images;
  gr_reported : rs_reported st' = rs_reported st ++ zip calls results;
  gr_ids : map tr_tool_call_id results = map tc_id calls;
  gr_answer_ids : map m_tool_call_id answers = map (fun c => Some (tc_id c)) calls;
  gr_tools : Forall (fun m => is_role RTool m = true) answers;
  gr_plain : Forall (fun m => is_role RUser m = true /\ m_tool_calls m = []) images;
  gr_unnamed : Forall (fun m => named_summary m = false) answers /\ Forall (fun m => named_summary m = false) images
}.
Lemma grows_refl st : grows st st [] [] [] [].
Proof. split; rewrite ?app_nil_r; by repeat constructor. Qed.
Lemma grows_trans a b c calls1 calls2 r1 r2 m1 m2 i1 i2 :
  grows a b calls1 r1 m1 i1 -> grows b c calls2 r2 m2 i2 ->
  grows a c (calls1 ++ calls2) (r1 ++ r2) (m1 ++ m2) (i1 ++ i2).
Proof.
  intros [Ha1 Ha2 Ha3 Ha4 Ha5 Ha6 Ha7 Ha8 [Ha9 Ha10]] [Hb1 Hb2 Hb3 Hb4 Hb5 Hb6 Hb7 Hb8 [Hb9 Hb10]].
  split; [by rewrite Hb1, Ha1, app_assoc|by rewrite Hb2, Ha2, app_assoc|by rewrite Hb3, Ha3, app_assoc| | | |
          by apply Forall_app|by apply Forall_app|by split; apply Forall_app].
  - rewrite Hb4, Ha4, zip_with_app, app_assoc; [done|].
    apply (f_equal length) in Ha5. by rewrite !length_map in Ha5.
  - by rewrite !map_app, Ha5, Hb5.
  - by rewrite !map_app, Ha6, Hb6.
Qed.
Lemma to_message_tool r m :
  to_message r = Some m ->
  is_role RTool m = true /\ m_tool_call_id m = Some (tr_tool_call_id r) /\ named_summary m = false.
Proof.
  unfold to_message. intros Hm. apply bind_Some in Hm as (content & _ & [= <-]). split; [|done].
  by apply bool_decide_eq_true.
Qed.
Lemma record_grows st call r st' :
  record_result st call r = Some st' -> tr_tool_call_id r = tc_id call ->
  exists m, grows st st' [call] [r] [m] [].
Proof.
  unfold record_result. intros Hr Hid. apply bind_Some in Hr as (m & Hm & [= <-]). exists m.
  destruct (to_message_tool _ _ Hm) as (Ht & Hi & Hn).
  split; cbn; rewrite ?app_nil_r, ?Hi, ?Hid; try done; [by constructor|]. by split; constructor.
Qed.
Lemma skip_grows calls code message : forall st st',
  skip_rest st calls code message = Some st' -> exists results answers, grows st st' calls results answers [].
Proof.
  induction calls as [|call calls IH]; intros st st' Hs; cbn [skip_rest] in Hs.
  - injection Hs as <-. eexists _, _. apply grows_refl.
  - apply bind_Some in Hs as (st1 & Hr & Hs). destruct (record_grows _ _ _ _ Hr eq_refl) as [m Hg].
    destruct (IH _ _ Hs) as (results & answers & Hg').
    eexists _, _. exact (grows_trans _ _ _ _ _ _ _ _ _ _ _ Hg Hg').
Qed.
Lemma call_grows st context effects image call r st' :
  record_result (add_image (after_call st context effects) image) call r = Some st' ->
  tr_tool_call_id r = tc_id call ->
  (forall m, image = Some m -> is_role RUser m = true /\ m_tool_calls m = [] /\ named_summary m = false) ->
  exists m images, grows st st' [call] [r] [m] images.
Proof.
  intros Hr Hid Him. destruct (record_grows _ _ _ _ Hr Hid) as [m [H1' H2' H3' H4' H5' H6' H7' H8' [H9' _]]].
  exists m, match image with Some x => [x] | None => [] end. split; [done|done| |done|done|done|done| |split; [done|]].
  - by rewrite H3', app_nil_r.
  - destruct image; [|constructor]. constructor; [split; by apply Him|constructor].
  - destruct image; [|constructor]. constructor; [by apply Him|constructor].
Qed.
Lemma image_plain r include m :
  image_notification_from_tool_result r include = Some m ->
  is_role RUser m = true /\ m_tool_calls m = [] /\ named_summary m = false.
Proof.
  unfold image_notification_from_tool_result. destruct (negb include); [done|].
  destruct (tr_image_url r); [intros [= <-]; split; [by apply bool_decide_eq_true|done]|].
  intros (path & _ & ->)%fmap_Some. split; [by apply bool_decide_eq_true|done].
Qed.
Lemma run_calls_grows (request : ToolRunRequest X) calls : keeps_ids request -> forall index st out st',
  unmarked (rs_context st) ->
  run_calls request index calls st = Some (Ok out, st') ->
  exists results answers images, grows st st' calls results answers images.
Proof.
  intros Hk. induction calls as [|call rest IH]; intros index st out st' Hmark Hr; cbn [run_calls] in Hr.
  - injection Hr as <- <-. eexists _, _, _. apply grows_refl.
  - destruct (rr_cancelled request index); [done|].
    destruct (run_call request call (rs_context st)) as [[answer context] effects] eqn:Hcall.
    destruct answer as [[[patched r] reason]|]; [|done].
    apply bind_Some in Hr as (st1 & Hrec & Hr). destruct (run_call_id _ _ _ _ _ _ _ _ Hcall Hk Hmark) as [Hid Hmark1].
    destruct (call_grows _ _ _ _ _ _ _ Hrec Hid (image_plain _ _)) as (m & images & Hg).
    assert (unmarked (rs_context st1)) by (by apply bind_Some in Hrec as (? & _ & [= <-])).
    assert (Hrest : exists results answers images', grows st1 st' rest results answers images').
    { destruct (negb (bool_decide _)).
      - destruct (skip_words (tr_directive r)) as [code message].
        apply bind_Some in Hr as (st2 & Hs & [= _ <-]). destruct (skip_grows _ _ _ _ _ Hs) as (rs & an & Hg').
        by eexists _, _, _.
      - destruct (match rr_interruptions request with Some provider => provider index | None => [] end).
        + by eapply IH.
        + apply bind_Some in Hr as (st2 & Hs & [= _ <-]). destruct (skip_grows _ _ _ _ _ Hs) as (rs & an & Hg').
          by eexists _, _, _. }
    destruct Hrest as (results & answers & images' & Hg').
    eexists _, _, _. exact (grows_trans _ _ _ _ _ _ _ _ _ _ _ Hg Hg').
Qed.

(** What a run adds to the conversation, the record and the observer. *)
Record turn_answers (calls : list ToolCall) (messages : list Message) (tool_results results : list ToolExecutionResult)
    (answers images : list Message) (st : RunState X) : Prop := {
  ta_results : rs_tool_results st = tool_results ++ results;
  ta_ids : map tr_tool_call_id results = map tc_id calls;
  ta_reported : rs_reported st = zip calls results;
  ta_messages : rs_messages st = messages ++ answers ++ images;
  ta_answer_ids : map m_tool_call_id answers = map (fun c => Some (tc_id c)) calls;
  ta_tools : Forall (fun m => is_role RTool m = true) answers;
  ta_plain : Forall (fun m => is_role RUser m = true /\ m_tool_calls m = []) images;
  ta_unnamed : Forall (fun m => named_summary m = false) (answers ++ images)
}.
Lemma run_tools_answers (request : ToolRunRequest X) calls context messages tool_results out st :
  run_tools request calls context messages tool_results = Some (Ok out, st) -> keeps_ids request ->
  unmarked context ->
  exists results answers images, turn_answers calls messages tool_results results answers images st.
Proof.
  unfold run_tools. intros Hr Hk Hmark. apply bind_Some in Hr as ([r st0] & Hr & Hout).
  destruct r as [o|]; [|done]. injection Hout as -> <-.
  destruct (run_calls_grows _ _ Hk _ (Build_RunState _ _ _ _ context _) _ _ Hmark Hr) as (results & answers & images & [Hg1 Hg2 Hg3 Hg4 Hg5 Hg6 Hg7 Hg8 [Hg9 Hg10]]).
  cbn [rs_messages rs_tool_results rs_images rs_reported] in *. cbn [app] in Hg3, Hg4.
  exists results, answers, images. split; [done|done|done| |done|done|done|by apply Forall_app].
  cbn [rs_messages]. by rewrite Hg2, Hg3, app_assoc.
Qed.
Lemma turn_protocol calls before m tool_results results answers images (st : RunState X) :
  turn_answers calls (before ++ [m]) tool_results results answers images st ->
  Protocol false before -> is_role RAssistant m = true -> m_tool_calls m = calls ->
  NoDup (map tc_id calls) -> "" ∉ map tc_id calls -> Protocol false (rs_messages st).
Proof.
  intros [_ _ _ Hmsgs Hids Htools Hplain _] Hbefore Hrole Hcalls Hnd Hne. rewrite Hmsgs, <- app_assoc.
  apply protocol_app; [done|]. cbn [app].
  assert (Himages : Protocol false images).
  { apply loose_protocol. eapply Forall_impl; [exact Hplain|]. intros x [Hu Hc]. by apply user_loose. }
  assert (Hlen : length answers = length (call_ids m)).
  { apply (f_equal length) in Hids. rewrite !length_map in Hids. by rewrite call_ids_length, Hcalls. }
  destruct calls as [|call calls].
  - destruct answers; [|done]. cbn [app]. apply protocol_plain; [by apply role_tool_assistant| |done].
    unfold has_calls. by rewrite Hcalls.
  - apply protocol_turn; [|done|done]. split; [done|unfold has_calls; by rewrite Hcalls|
      unfold call_ids; by rewrite Hcalls|unfold call_ids; by rewrite Hcalls|done|].
    rewrite Hids, Hlen, firstn_all. unfold call_ids. rewrite Hcalls. by rewrite map_map.
Qed.

End Answered.

(** ** Examples *)

(** The user interrupts behind the first call. *)
Definition echo_request : ToolRunRequest unit :=
  {| rr_task := {| tt_metadata := []; tt_native_multimodal := true |}; rr_cycle_index := 1; rr_hooks := [];
     rr_tools := from_tools [echo_tool];
     rr_interruptions := Some (fun index => if (index =? 0)%nat then [message_user "stop"] else []);
     rr_cancelled := fun _ => None |}.
Definition echo_calls : list ToolCall := [echo_call "echo" "call-1"; echo_call "echo" "call-2"].
Definition echo_turn : Message :=
  let m := message_new RAssistant EmptyString in
  {| m_role := m_role m; m_content := m_content m; m_name := m_name m; m_tool_call_id := m_tool_call_id m;
     m_tool_calls := echo_calls; m_reasoning_content := m_reasoning_content m; m_image_url := m_image_url m;
     m_metadata := m_metadata m; m_artifact_ref := m_artifact_ref m |}.
Definition empty_run : RunState unit :=
  {| rs_messages := []; rs_tool_results := []; rs_images := []; rs_reported := []; rs_context := echo_context;
     rs_effects := [] |}.
Definition echo_outcome : result ToolRunOutcome * RunState unit :=
  unwrap_or (@run_tools brace_json toy_digest unit echo_request echo_calls echo_context
    [message_user "go"; echo_turn] []) (Err EmptyString, empty_run).
Example echo_turn_runs :
  map tr_error_code (rs_tool_results echo_outcome.2) = [None; Some "skipped_due_to_steering"] /\
  executions (rs_effects echo_outcome.2) = [Executed (echo_call "echo" "call-1")].
Proof. vm_compute. split; reflexivity. Qed.
Lemma echo_keeps_ids : keeps_ids echo_request.
Proof.
  split; [constructor|]. change (rr_tools echo_request) with (map_insert "echo" echo_tool []). intros name tool Ht.
  assert (tool = echo_tool) as ->.
  { destruct (decide (name = "echo")) as [->|Hne]; [by rewrite map_get_insert_eq in Ht; injection Ht|].
    by rewrite map_get_insert_ne in Ht by done. }
  split; [done| | |done]; intros call context o.
  - intros [= <-]. by left.
  - cbn. intros ->. done.
Qed.

(** *** A mark that outlives its call

    A tool that asks to be deferred and then runs out of time leaves its mark
    in the context, and the next tool that completes is answered with it: the
    second call gets the error of the first one, under the first one's id. *)
Definition slow_tool : ToolExecutor unit :=
  {| te_name := "slow"; te_metadata := []; te_tool_metadata := None; te_timeout := Some "1";
     te_validate_arguments := fun _ => Ok None; te_approval_requirement := fun _ _ => NotRequired;
     te_run_outcome := fun _ c => {| rn_outcome := None; rn_context := (defer c).2; rn_elapsed_ms := 1000 |} |}.
Definition slow_request : ToolRunRequest unit :=
  {| rr_task := {| tt_metadata := []; tt_native_multimodal := true |}; rr_cycle_index := 1; rr_hooks := [];
     rr_tools := from_tools [slow_tool; echo_tool]; rr_interruptions := None; rr_cancelled := fun _ => None |}.
Example stale_mark_answers_next_call :
  (fun x => (map tr_tool_call_id (rs_tool_results x.2), map tr_error_code (rs_tool_results x.2)))
  <$> @run_tools brace_json toy_digest unit slow_request [echo_call "slow" "call-1"; echo_call "echo" "call-2"]
        echo_context [] []
  = Some (["call-1"; "call-1"], [Some "tool_timeout"; Some "deferred_requires_checkpoint"]).
Proof. vm_compute. reflexivity. Qed.
