(* ===== verification/CycleRunner.v ===== *)
(** * One cycle of an agent

    [runtime/cycle_runner.rs]: a cycle compacts the conversation, asks the
    model, compacting harder each time the prompt was too long, and adds the
    answer to the conversation.

    The client of the model is a function of the number of the attempt and of
    the request, the cancellation token a function of how often it was asked;
    the planned tool schemas are those of the registry and the task, which a
    cycle does not change.  The memory manager's callbacks are functions: what
    they record with the coordinator is not part of the state here. *)

From Stdlib Require Import Ascii String NArith ZArith Lia.
From stdpp Require Import base strings list sets pretty.
From S2P Require Import Prelude Json Canonical CheckpointTypes ToolResult Journal TokenUsage.
From S2P Require Import Budget BudgetWire Records ResultCodec ToolPolicy Settings Prompt Text.
From S2P Require Import Workspace MessageSanitizer SessionMemory Memory MemorySafety.
From S2P Require Import Events HostInteraction Controller Checkpoint ModelCalls Deferred Orchestrator ToolRunner.

(** ** Errors *)

Definition MAX_PROMPT_TOO_LONG_RETRIES : nat := 3.
Definition PROMPT_TOO_LONG_PATTERNS : list string :=
  ["prompt is too long"; "prompt_too_long"; "context_length_exceeded"; "maximum context length";
   "request too large"; "too many tokens"].
Definition is_prompt_too_long_error (e : LlmError) : bool :=
  let text := to_ascii_lowercase (llm_error_text e) in
  existsb (fun pattern => str_contains pattern text) PROMPT_TOO_LONG_PATTERNS.
(** The text of [CompactionExhaustedError]. *)
Definition compaction_exhausted_text (attempts : nat) (last_error : option string) : string :=
  "Context compaction failed after " +:+ pretty (N.of_nat attempts) +:+ " consecutive attempts. Last error: "
  +:+ unwrap_or last_error "None".
(** [RuntimeMemoryCallbackError], a box of any value. *)
Inductive CallbackError := BoxedLlmError (e : LlmError) | BoxedOther.
Definition memory_callback_error (e : CallbackError) : LlmError :=
  match e with
  | BoxedLlmError e => e
  | BoxedOther => Request "memory inference control flow: RuntimeMemoryCallbackError { .. }"
  end.

(** ** Responses *)

Definition assistant_message_from_response (r : LLMResponse) : Message :=
  let m := message_new RAssistant (lr_content r) in
  {| m_role := m_role m; m_content := m_content m; m_name := m_name m; m_tool_call_id := m_tool_call_id m;
     m_tool_calls := lr_tool_calls r;
     m_reasoning_content :=
       (reasoning ← map_get "reasoning_content" (lr_raw r) ≫= as_str;
        if str_is_empty reasoning then None else Some reasoning);
     m_image_url := m_image_url m; m_metadata := m_metadata m; m_artifact_ref := m_artifact_ref m |}.
Definition cycle_from_response (index : N) (r : LLMResponse) (tool_results : list ToolExecutionResult) : CycleRecord :=
  {| cr_index := index; cr_assistant_message := lr_content r; cr_tool_calls := lr_tool_calls r;
     cr_tool_results := tool_results; cr_memory_compacted := false |}.
Definition coordinator_new (ledger : ModelCallLedger) (run_id trace_id agent_name : string)
    (session_id parent_run_id : option string)
    (budget_observer : option (N -> TokenUsage -> ModelCallBudgetUpdate)) : ModelCallCoordinator :=
  {| co_ledger := ledger; co_run_id := run_id; co_trace_id := trace_id; co_agent_name := agent_name;
     co_session_id := session_id; co_parent_run_id := parent_run_id; co_budget_observer := budget_observer;
     co_budget_admission := None; co_slot_counts := [] |}.

(** ** The cycle *)

Section Cycle.
Context `{JsonText} `{DG : Digest} `{Tokenizer} `{JsonPrefix} `{WorkspaceBackend} {X : Type}.

Record CycleContext := {
  cc_cancelled : nat -> option string;
  cc_metadata : object;
  cc_coordinator : option ModelCallCoordinator
}.
Record CycleRunRequest := {
  cq_task_id : string;
  cq_model : string;
  cq_model_settings : option ModelSettings;
  cq_messages : list Message;
  cq_cycle_index : N;
  cq_previous_prompt_tokens : option N;
  cq_recent_tool_call_ids : option (list string);
  cq_shared_state : option object;
  cq_context : option CycleContext
}.
(** [CycleRunner], with the clock of the coordinator. *)
Record CycleRunner := {
  cu_client : nat -> LlmRequest -> Invocation;
  cu_stamps : nat -> Stamp * Stamp * Stamp;
  cu_tool_schemas : list Value;
  cu_hooks : list (RuntimeHook X)
}.
(** What a cycle changes; [cs_attempts] are the requests it dispatched and
    how they ended. *)
Record CycleState := {
  cs_messages : list Message;
  cs_compacted : bool;
  cs_memory : MemoryManager CallbackError;
  cs_workspace : ws;
  cs_coordinator : ModelCallCoordinator;
  cs_attempts : list (LlmRequest * DispatchOutcome);
  cs_events : list RunEvent
}.
Inductive CycleEnd (A : Type) := Finished (a : A) | Failed (e : LlmError) | CyclePanic.
Arguments Finished {A}.
Arguments Failed {A}.
Arguments CyclePanic {A}.

Definition set_memory (st : CycleState) (messages : list Message) (compacted : bool)
    (memory : MemoryManager CallbackError) (w : ws) : CycleState :=
  {| cs_messages := messages; cs_compacted := compacted; cs_memory := memory; cs_workspace := w;
     cs_coordinator := cs_coordinator st; cs_attempts := cs_attempts st; cs_events := cs_events st |}.
Definition add_attempt (st : CycleState) (request : LlmRequest) (d : Dispatch) : CycleState :=
  {| cs_messages := cs_messages st; cs_compacted := cs_compacted st; cs_memory := cs_memory st;
     cs_workspace := cs_workspace st; cs_coordinator := di_coordinator d;
     cs_attempts := cs_attempts st ++ [(request, di_outcome d)]; cs_events := cs_events st ++ di_events d |}.
Definition shared_state_of (request : CycleRunRequest) : object := unwrap_or (cq_shared_state request) [].
Definition check_context_cancelled (request : CycleRunRequest) (count : nat) : option LlmError :=
  context ← cq_context request; Request <$> cc_cancelled context count.
Definition resolved (request : CycleRunRequest) (key default : string) : string :=
  unwrap_or (context ← cq_context request; map_get key (cc_metadata context) ≫= as_str) default.
Definition operation_slot (retries : nat) : string :=
  if (retries =? 0)%nat then "main" else "prompt_too_long_" +:+ pretty (N.of_nat retries).

(** One pass of the loop, up to the answer of the model. *)
Definition attempt (runner : CycleRunner) (request : CycleRunRequest) (retries : nat) (st : CycleState)
    : CycleEnd (LlmRequest * DispatchOutcome) * CycleState :=
  let '(messages, tool_schemas) :=
    apply_before_llm (cu_hooks runner) (cq_cycle_index request) (cs_messages st) (cu_tool_schemas runner)
      (shared_state_of request) in
  let '(surface, memory) := validate_model_recovery_surface (cs_memory st) messages tool_schemas in
  let st := set_memory st (cs_messages st) (cs_compacted st) memory (cs_workspace st) in
  match surface with
  | Err e => (Failed (Request e), st)
  | Ok _ =>
      match check_context_cancelled request (S retries) with
      | Some e => (Failed e, st)
      | None =>
          let llm_request := {| rq_messages := messages; rq_tools := tool_schemas;
                                rq_model_settings := cq_model_settings request |} in
          let '(s0, s1, s2) := cu_stamps runner retries in
          let d := dispatch (cs_coordinator st) s0 s1 s2 AgentCycle (cq_cycle_index request)
                     (operation_slot retries) (resolved request "_vv_agent_resolved_backend" "direct")
                     (resolved request "_vv_agent_resolved_model" (cq_model request))
                     (cu_client runner retries llm_request) in
          (Finished (llm_request, di_outcome d), add_attempt st llm_request d)
      end
  end.
(** [(0.2 * f64::from(retries)).min(0.95)]. *)
Definition f64_fifth : f64 := 4596373779694328218%Z.
Definition retry_ratio (retries : nat) : f64 :=
  let ratio := f64_mul f64_fifth (f64_of_N (N.of_nat retries)) in
  if f64_lt f64_max_drop ratio then f64_max_drop else ratio.
(** The first compaction after a refusal is a forced one, the later ones keep
    ever fewer messages. *)
Definition compact_again (request : CycleRunRequest) (retries : nat) (st : CycleState) : option LlmError * CycleState :=
  if (retries =? 1)%nat then
    match compact_for_cycle_with_usage_observed (cs_memory st) (cs_messages st) (cq_cycle_index request) true None
            (cq_recent_tool_call_ids request) None (cs_workspace st) with
    | (inr e, memory, w) =>
        (Some (memory_callback_error e), set_memory st (cs_messages st) (cs_compacted st) memory w)
    | (inl o, memory, w) => (None, set_memory st (mo_messages o) true memory w)
    end
  else
    match emergency_compact_observed (cs_memory st) (cs_messages st) (retry_ratio retries)
            (Some (cq_cycle_index request)) with
    | (inr e, memory) =>
        (Some (memory_callback_error e), set_memory st (cs_messages st) (cs_compacted st) memory (cs_workspace st))
    | (inl messages, memory) => (None, set_memory st messages true memory (cs_workspace st))
    end.
(** The loop; [remaining] retries are left. *)
Fixpoint ask_until_fits (runner : CycleRunner) (request : CycleRunRequest) (remaining retries : nat) (st : CycleState)
    : CycleEnd (LLMResponse * LlmRequest) * CycleState :=
  match attempt runner request retries st with
  | (Failed e, st) => (Failed e, st)
  | (CyclePanic, st) | (Finished (_, ResumedPanic), st) => (CyclePanic, st)
  | (Finished (llm_request, Dispatched response _ _), st) => (Finished (response, llm_request), st)
  | (Finished (_, DispatchError e), st) =>
      if is_prompt_too_long_error e then
        match remaining with
        | O => (Failed (CompactionExhausted (compaction_exhausted_text (S retries) (Some (llm_error_text e)))), st)
        | S remaining =>
            match compact_again request (S retries) st with
            | (Some e, st) => (Failed e, st)
            | (None, st) => ask_until_fits runner request remaining (S retries) st
            end
        end
      else (Failed e, st)
  end.
Definition cycle_coordinator (request : CycleRunRequest) : ModelCallCoordinator :=
  unwrap_or (cq_context request ≫= cc_coordinator)
    (coordinator_new {| ml_records := []; ml_history := history_default |} (cq_task_id request) (cq_task_id request)
       (cq_task_id request) None None None).
Definition cycle_begin (request : CycleRunRequest) (memory : MemoryManager CallbackError) (w : ws) : CycleState :=
  {| cs_messages := cq_messages request; cs_compacted := false; cs_memory := memory; cs_workspace := w;
     cs_coordinator := cycle_coordinator request; cs_attempts := []; cs_events := [] |}.
(** What comes behind the answer of the model. *)
Definition finish_cycle (runner : CycleRunner) (request : CycleRunRequest) (response : LLMResponse)
    (llm_request : LlmRequest) (st : CycleState) : CycleEnd (list Message * CycleRecord) * CycleState :=
  match check_context_cancelled request (S (length (cs_attempts st))) with
  | Some e => (Failed e, st)
  | None =>
      let response := apply_after_llm (cu_hooks runner) (cq_cycle_index request) (rq_messages llm_request)
                        (rq_tools llm_request) response (shared_state_of request) in
      let cycle := cycle_from_response (cq_cycle_index request) response [] in
      (Finished (rq_messages llm_request ++ [assistant_message_from_response response],
                 {| cr_index := cr_index cycle; cr_assistant_message := cr_assistant_message cycle;
                    cr_tool_calls := cr_tool_calls cycle; cr_tool_results := cr_tool_results cycle;
                    cr_memory_compacted := cs_compacted st |}), st)
  end.
Definition run_cycle (runner : CycleRunner) (request : CycleRunRequest) (memory : MemoryManager CallbackError) (w : ws)
    : CycleEnd (list Message * CycleRecord) * CycleState :=
  let st := cycle_begin request memory w in
  match check_context_cancelled request 0 with
  | Some e => (Failed e, st)
  | None =>
      let messages := apply_before_memory_compact (cu_hooks runner) (cq_cycle_index request) (cq_messages request)
                        (shared_state_of request) in
      match compact_for_cycle_with_usage_observed memory messages (cq_cycle_index request) false
              (cq_previous_prompt_tokens request) (cq_recent_tool_call_ids request) None w with
      | (inr e, memory, w) => (Failed (memory_callback_error e), set_memory st messages false memory w)
      | (inl o, memory, w) =>
          match ask_until_fits runner request MAX_PROMPT_TOO_LONG_RETRIES 0
                  (set_memory st (mo_messages o) (mo_changed o) memory w) with
          | (Failed e, st) => (Failed e, st)
          | (CyclePanic, st) => (CyclePanic, st)
          | (Finished (response, llm_request), st) => finish_cycle runner request response llm_request st
          end
      end
  end.
End Cycle.
Arguments CycleRunner : clear implicits.
Arguments Finished {A}.
Arguments Failed {A}.
Arguments CyclePanic {A}.

(** ** Attempts *)

Section Attempts.
Context `{JsonText} `{DG : Digest} `{Tokenizer} `{JsonPrefix} `{WorkspaceBackend} {X : Type}.

(** An attempt the model refused because of the length of its prompt. *)
Definition too_long (a : LlmRequest * DispatchOutcome) : Prop :=
  exists e, a.2 = DispatchError e /\ is_prompt_too_long_error e = true.
Lemma dispatch_responded c s0 s1 s2 operation cycle slot backend model v r usage exhaustion :
  di_outcome (dispatch c s0 s1 s2 operation cycle slot backend model v) = Dispatched r usage exhaustion ->
  v = Responded r.
Proof.
  unfold dispatch. destruct (check_admission _ _); [done|]. destruct (new_identity _ _ _ _ _ _ _ _) as [[i|] c1]; [|done].
  destruct v; cbv zeta; destruct (commit_terminal _ _) as [[c2 events]|]; try done. by intros [= <- _ _].
Qed.
Lemma attempt_spec (runner : CycleRunner X) request retries st r st' :
  attempt runner request retries st = (r, st') ->
  cs_messages st' = cs_messages st /\ cs_compacted st' = cs_compacted st /\
  mg_config (cs_memory st') = mg_config (cs_memory st) /\
  match r with
  | Finished (rq, out) =>
      cs_attempts st' = cs_attempts st ++ [(rq, out)] /\
      rq_messages rq = (apply_before_llm (cu_hooks runner) (cq_cycle_index request) (cs_messages st)
                          (cu_tool_schemas runner) (shared_state_of request)).1 /\
      (forall response usage exhaustion, out = Dispatched response usage exhaustion ->
         cu_client runner retries rq = Responded response)
  | Failed e => cs_attempts st' = cs_attempts st
  | CyclePanic => False
  end.
Proof.
  unfold attempt. destruct (apply_before_llm _ _ _ _ _) as [messages schemas].
  assert (Hcfg : mg_config (validate_model_recovery_surface (cs_memory st) messages schemas).2 = mg_config (cs_memory st)).
  { unfold validate_model_recovery_surface. by destruct (validate_all_metadata _). }
  destruct (validate_model_recovery_surface _ _ _) as [[[]|e] memory]; cbn in Hcfg; [|by intros [= <- <-]].
  destruct (check_context_cancelled _ _); [by intros [= <- <-]|].
  destruct (cu_stamps runner retries) as [[s0 s1] s2]. intros [= <- <-].
  split_and!; [done|done|done|done|done|]. intros response usage exhaustion. apply dispatch_responded.
Qed.
Lemma compact_again_spec request retries st r st' :
  compact_again request retries st = (r, st') ->
  cs_attempts st' = cs_attempts st /\ (r = None -> cs_compacted st' = true).
Proof.
  unfold compact_again. destruct (retries =? 1)%nat.
  - by destruct (compact_for_cycle_with_usage_observed _ _ _ _ _ _ _ _) as [[[o|] memory] w]; intros [= <- <-].
  - by destruct (emergency_compact_observed _ _ _ _) as [[ms|] memory]; intros [= <- <-].
Qed.

(** How a loop over refused attempts ends. *)
Definition attempts_end (runner : CycleRunner X) (r : CycleEnd (LLMResponse * LlmRequest))
    (attempts : list (LlmRequest * DispatchOutcome)) : Prop :=
  match r with
  | Finished (response, rq) =>
      exists refused usage exhaustion, Forall too_long refused /\
        attempts = refused ++ [(rq, Dispatched response usage exhaustion)] /\
        cu_client runner (length refused) rq = Responded response
  | Failed e =>
      (Forall too_long attempts /\ length attempts = S MAX_PROMPT_TOO_LONG_RETRIES /\
         exists text, e = CompactionExhausted (compaction_exhausted_text 4 (Some text))) \/
      (exists refused rq, Forall too_long refused /\ attempts = refused ++ [(rq, DispatchError e)] /\
         is_prompt_too_long_error e = false) \/
      (Forall too_long attempts /\ length attempts <= MAX_PROMPT_TOO_LONG_RETRIES)
  | CyclePanic => exists refused rq, Forall too_long refused /\ attempts = refused ++ [(rq, ResumedPanic)]
  end.
(** The loop as a relation, one rule for each way through it. *)
Inductive Asked (runner : CycleRunner X) (request : CycleRunRequest)
    : nat -> nat -> CycleState -> CycleEnd (LLMResponse * LlmRequest) -> CycleState -> Prop :=
| asked_stopped remaining retries st e st1 :
    attempt runner request retries st = (Failed e, st1) -> Asked runner request remaining retries st (Failed e) st1
| asked_answered remaining retries st rq response usage exhaustion st1 :
    attempt runner request retries st = (Finished (rq, Dispatched response usage exhaustion), st1) ->
    Asked runner request remaining retries st (Finished (response, rq)) st1
| asked_panicked remaining retries st rq st1 :
    attempt runner request retries st = (Finished (rq, ResumedPanic), st1) ->
    Asked runner request remaining retries st CyclePanic st1
| asked_refused remaining retries st rq e st1 :
    attempt runner request retries st = (Finished (rq, DispatchError e), st1) -> is_prompt_too_long_error e = false ->
    Asked runner request remaining retries st (Failed e) st1
| asked_exhausted retries st rq e st1 :
    attempt runner request retries st = (Finished (rq, DispatchError e), st1) -> is_prompt_too_long_error e = true ->
    Asked runner request 0 retries st
      (Failed (CompactionExhausted (compaction_exhausted_text (S retries) (Some (llm_error_text e))))) st1
| asked_stuck remaining retries st rq e st1 e' st2 :
    attempt runner request retries st = (Finished (rq, DispatchError e), st1) -> is_prompt_too_long_error e = true ->
    compact_again request (S retries) st1 = (Some e', st2) ->
    Asked runner request (S remaining) retries st (Failed e') st2
| asked_again remaining retries st rq e st1 st2 r st' :
    attempt runner request retries st = (Finished (rq, DispatchError e), st1) -> is_prompt_too_long_error e = true ->
    compact_again request (S retries) st1 = (None, st2) ->
    Asked runner request remaining (S retries) st2 r st' ->
    Asked runner request (S remaining) retries st r st'.
Lemma ask_until_fits_asked (runner : CycleRunner X) request remaining : forall retries st r st',
  ask_until_fits runner request remaining retries st = (r, st') -> Asked runner request remaining retries st r st'.
Proof.
  induction remaining as [|remaining IH]; intros retries st r st' Hr; cbn [ask_until_fits] in Hr;
    destruct (attempt runner request retries st) as [[[rq [response usage exhaustion|e|]]|e|] st1] eqn:Ha;
    try (injection Hr as <- <-; by eauto using Asked).
  2,4: by apply attempt_spec in Ha as (_ & _ & _ & []).
  all: destruct (is_prompt_too_long_error e) eqn:He; [|injection Hr as <- <-; by eapply asked_refused].
  - injection Hr as <- <-. by eapply asked_exhausted.
  - destruct (compact_again request (S retries) st1) as [[e'|] st2] eqn:Hc.
    + injection Hr as <- <-. by eapply asked_stuck.
    + eapply asked_again; [done..|]. by apply IH.
Qed.
Lemma asked_attempts (runner : CycleRunner X) request remaining retries st r st' :
  Asked runner request remaining retries st r st' ->
  Forall too_long (cs_attempts st) -> length (cs_attempts st) = retries ->
  remaining + retries = MAX_PROMPT_TOO_LONG_RETRIES ->
  attempts_end runner r (cs_attempts st').
Proof.
  assert (Hnext : forall retries st rq e st1,
    attempt runner request retries st = (Finished (rq, DispatchError e), st1) -> is_prompt_too_long_error e = true ->
    Forall too_long (cs_attempts st) -> length (cs_attempts st) = retries ->
    Forall too_long (cs_attempts st1) /\ length (cs_attempts st1) = S retries).
  { intros k s rq e s1 (_ & _ & _ & -> & _)%attempt_spec He Hall Hlen. rewrite length_app, Nat.add_1_r, Hlen.
    split; [|done]. apply Forall_app. split; [done|]. constructor; [by exists e|constructor]. }
  induction 1 as [remaining retries st e st1 Ha|remaining retries st rq response usage exhaustion st1 Ha|
    remaining retries st rq st1 Ha|remaining retries st rq e st1 Ha He|retries st rq e st1 Ha He|
    remaining retries st rq e st1 e' st2 Ha He Hc|remaining retries st rq e st1 st2 r st' Ha He Hc _ IH];
    intros Hall Hlen Hmax.
  - apply attempt_spec in Ha as (_ & _ & _ & Ha). right. right. rewrite Ha. split; [done|lia].
  - apply attempt_spec in Ha as (_ & _ & _ & Ha & _ & Hresp). exists (cs_attempts st), usage, exhaustion.
    rewrite Hlen. split_and!; [done|done|by eapply Hresp].
  - apply attempt_spec in Ha as (_ & _ & _ & Ha & _). by exists (cs_attempts st), rq.
  - apply attempt_spec in Ha as (_ & _ & _ & Ha & _). right. left. by exists (cs_attempts st), rq.
  - destruct (Hnext _ _ _ _ _ Ha He Hall Hlen) as [Hall1 Hlen1]. left. cbn in Hmax. subst retries.
    split_and!; [done|congruence|]. exists (llm_error_text e). by rewrite Hmax.
  - destruct (Hnext _ _ _ _ _ Ha He Hall Hlen) as [Hall1 Hlen1]. destruct (compact_again_spec _ _ _ _ _ Hc) as [Hatt _].
    right. right. rewrite Hatt. split; [done|lia].
  - destruct (Hnext _ _ _ _ _ Ha He Hall Hlen) as [Hall1 Hlen1]. destruct (compact_again_spec _ _ _ _ _ Hc) as [Hatt _].
    apply IH; [by rewrite Hatt|by rewrite Hatt|lia].
Qed.
Lemma attempts_end_bound (runner : CycleRunner X) remaining retries request st r st' :
  Asked runner request remaining retries st r st' -> length (cs_attempts st) = retries ->
  length (cs_attempts st') <= S (remaining + retries) /\
  (forall a, r = Finished a -> S retries <= length (cs_attempts st') /\
     cs_compacted st' = cs_compacted st || (S retries <? length (cs_attempts st'))%nat).
Proof.
  assert (Hone : forall retries st rq out st1, attempt runner request retries st = (Finished (rq, out), st1) ->
    length (cs_attempts st) = retries ->
    length (cs_attempts st1) = S retries /\ cs_compacted st1 = cs_compacted st).
  { intros k s rq out s1 (_ & Hc & _ & -> & _)%attempt_spec Hlen. rewrite length_app, Hlen, Nat.add_1_r. done. }
  induction 1 as [remaining retries st e st1 Ha|remaining retries st rq response usage exhaustion st1 Ha|
    remaining retries st rq st1 Ha|remaining retries st rq e st1 Ha He|retries st rq e st1 Ha He|
    remaining retries st rq e st1 e' st2 Ha He Hc|remaining retries st rq e st1 st2 r st' Ha He Hc _ IH];
    intros Hlen.
  - apply attempt_spec in Ha as (_ & _ & _ & ->). split; [lia|done].
  - destruct (Hone _ _ _ _ _ Ha Hlen) as [-> ->]. split; [lia|]. intros _ _. split; [lia|]. by rewrite Nat.ltb_irrefl, orb_false_r.
  - destruct (Hone _ _ _ _ _ Ha Hlen) as [-> _]. split; [lia|done].
  - destruct (Hone _ _ _ _ _ Ha Hlen) as [-> _]. split; [lia|done].
  - destruct (Hone _ _ _ _ _ Ha Hlen) as [-> _]. split; [lia|done].
  - destruct (Hone _ _ _ _ _ Ha Hlen) as [Hl _]. destruct (compact_again_spec _ _ _ _ _ Hc) as [-> _].
    split; [lia|done].
  - destruct (Hone _ _ _ _ _ Ha Hlen) as [Hl _]. destruct (compact_again_spec _ _ _ _ _ Hc) as [Hatt Hcomp].
    destruct IH as [IH1 IH2]; [by rewrite Hatt|]. split; [lia|]. intros a Hfin.
    destruct (IH2 a Hfin) as [Hmore ->]. split; [lia|]. rewrite Hcomp by done. cbn [orb].
    assert ((S retries <? length (cs_attempts st'))%nat = true) as -> by (apply Nat.ltb_lt; lia).
    by rewrite orb_true_r.
Qed.

(** (C24) A cycle asks the model at most four times and stops for a reason.
    Every attempt but the last was refused because the prompt was too long.
    A cycle that finishes got the answer of its last attempt, and its
    conversation is the one of that request followed by the answer, as the
    hooks left it; the cycle is marked compacted as soon as an attempt was
    refused.  It ends with an exhausted compaction when the fourth attempt
    was refused as well; otherwise it fails with the model's other error, or
    between the attempts, or because it was cancelled behind the answer. *)
Theorem cycle_attempts_bounded (runner : CycleRunner X) request memory w r st :
  run_cycle runner request memory w = (r, st) ->
  length (cs_attempts st) <= 4 /\
  match r with
  | Finished (next, cycle) =>
      exists refused rq response usage exhaustion,
        cs_attempts st = refused ++ [(rq, Dispatched response usage exhaustion)] /\ Forall too_long refused /\
        cu_client runner (length refused) rq = Responded response /\
        let answer := apply_after_llm (cu_hooks runner) (cq_cycle_index request) (rq_messages rq) (rq_tools rq)
                        response (shared_state_of request) in
        next = rq_messages rq ++ [assistant_message_from_response answer] /\
        cr_tool_calls cycle = lr_tool_calls answer /\ cr_assistant_message cycle = lr_content answer /\
        (refused <> [] -> cr_memory_compacted cycle = true)
  | Failed e =>
      (Forall too_long (cs_attempts st) /\ length (cs_attempts st) = 4 /\
         exists text, e = CompactionExhausted (compaction_exhausted_text 4 (Some text))) \/
      (exists refused rq, Forall too_long refused /\ cs_attempts st = refused ++ [(rq, DispatchError e)] /\
         is_prompt_too_long_error e = false) \/
      (Forall too_long (cs_attempts st) /\ length (cs_attempts st) <= 3) \/
      check_context_cancelled request (S (length (cs_attempts st))) = Some e
  | CyclePanic => exists refused rq, Forall too_long refused /\ cs_attempts st = refused ++ [(rq, ResumedPanic)]
  end.
Proof.
  unfold run_cycle. destruct (check_context_cancelled request 0).
  { intros [= <- <-]. split; [cbn; lia|]. right. right. left. split; [constructor|cbn; lia]. }
  destruct (compact_for_cycle_with_usage_observed _ _ _ _ _ _ _ _) as [[[o|e] memory1] w1].
  2: { intros [= <- <-]. split; [cbn; lia|]. right. right. left. split; [constructor|cbn; lia]. }
  destruct (ask_until_fits _ _ _ _ _) as [r0 st0] eqn:Hask. apply ask_until_fits_asked in Hask.
  pose proof (asked_attempts _ _ _ _ _ _ _ Hask (Forall_nil_2 _) eq_refl eq_refl) as Hend.
  destruct (attempts_end_bound _ _ _ _ _ _ _ Hask eq_refl) as [Hbound Hcomp]. cbn in Hbound.
  destruct r0 as [[response rq]|e|].
  2: { intros [= <- <-]. split; [lia|]. destruct Hend as [?|[?|?]]; [by left|right; by left|right; right; by left]. }
  2: { intros [= <- <-]. by split; [lia|]. }
  destruct Hend as (refused & usage & exhaustion & Hall & Hatt & Hclient). unfold finish_cycle.
  destruct (check_context_cancelled _ _) eqn:Hcancel.
  { intros [= <- <-]. split; [lia|]. right. right. by right. }
  intros [= <- <-]. split; [lia|]. exists refused, rq, response, usage, exhaustion.
  split_and!; [done|done|done|done|done|done|]. intros Hne. cbn [cr_memory_compacted].
  destruct (Hcomp _ eq_refl) as [_ ->]. apply orb_true_iff. right. rewrite Hatt, length_app.
  destruct refused; [done|]. apply Nat.ltb_lt. cbn. lia.
Qed.
End Attempts.

(** ** The conversation *)

Section Conversation.
Context `{JsonText} `{DG : Digest} `{Tokenizer} `{JsonPrefix} `{WL : WorkspaceLaws} {X : Type}.

(** A conversation a run can go on with: every call has its results and a
    summary is not part of a turn. *)
Definition sound_conversation (ms : list Message) : Prop := Protocol false ms /\ summaries_loose ms.
(** A hook that keeps conversations sound. *)
Record hook_keeps_sound (hook : RuntimeHook X) : Prop := {
  hs_compact cycle ms shared ms' : hk_before_memory_compact hook cycle ms shared = Some ms' ->
    sound_conversation ms -> sound_conversation ms';
  hs_llm cycle ms schemas shared patch ms' : hk_before_llm hook cycle ms schemas shared = Some patch ->
    lp_messages patch = Some ms' -> sound_conversation ms -> sound_conversation ms'
}.
Lemma before_compact_sound hooks cycle shared : Forall hook_keeps_sound hooks -> forall ms,
  sound_conversation ms -> sound_conversation (apply_before_memory_compact hooks cycle ms shared).
Proof.
  unfold apply_before_memory_compact. induction 1 as [|hook hooks Hk _ IH]; intros ms Hs; cbn [foldl]; [done|].
  apply IH. destruct (hk_before_memory_compact _ _ _ _) eqn:He; [by eapply hs_compact|done].
Qed.
Lemma before_llm_sound hooks cycle shared : Forall hook_keeps_sound hooks -> forall ms schemas,
  sound_conversation ms -> sound_conversation (apply_before_llm hooks cycle ms schemas shared).1.
Proof.
  unfold apply_before_llm. induction 1 as [|hook hooks Hk _ IH]; intros ms schemas Hs; cbn [foldl]; [done|].
  cbn [fst snd]. destruct (hk_before_llm _ _ _ _ _) as [patch|] eqn:He; [|by apply IH].
  apply IH. destruct (lp_messages patch) eqn:Hm; [by eapply hs_llm|done].
Qed.
Lemma compact_cycle_sound (mg : MemoryManager CallbackError) ms cycle force total recent w o mg' w' :
  compact_for_cycle_with_usage_observed mg ms cycle force total recent None w = (inl o, mg', w') ->
  sound_conversation ms -> sound_conversation (mo_messages o).
Proof.
  intros Hc [Hp Hl]. destruct (compact_inner_sound _ _ _ _ _ _ _ Hc I) as [[_ _ Hs _] _]. by apply Hs.
Qed.
Lemma compact_again_sound request retries st st' :
  compact_again request retries st = (None, st') -> sound_conversation (cs_messages st) ->
  sound_conversation (cs_messages st').
Proof.
  unfold compact_again. destruct (retries =? 1)%nat.
  - destruct (compact_for_cycle_with_usage_observed _ _ _ _ _ _ _ _) as [[[o|] memory] w] eqn:Hc; intros [= <-] Hs.
    by eapply compact_cycle_sound.
  - unfold emergency_compact_observed. destruct (summarize_prefix _ _ _ _ _) as [[out changed]|] eqn:Hc;
      intros [= <-] [Hp Hl]. destruct (compressed_sound _ _ _ _ _ _ _ Hc) as (_ & Hs & _). by apply Hs.
Qed.
Lemma asked_sound (runner : CycleRunner X) request remaining retries st r st' :
  Asked runner request remaining retries st r st' -> Forall hook_keeps_sound (cu_hooks runner) ->
  sound_conversation (cs_messages st) -> Forall (fun a => sound_conversation (rq_messages a.1)) (cs_attempts st) ->
  Forall (fun a => sound_conversation (rq_messages a.1)) (cs_attempts st').
Proof.
  intros Hasked Hhooks.
  assert (Hone : forall retries st r st1, attempt runner request retries st = (r, st1) ->
    sound_conversation (cs_messages st) -> Forall (fun a => sound_conversation (rq_messages a.1)) (cs_attempts st) ->
    sound_conversation (cs_messages st1) /\ Forall (fun a => sound_conversation (rq_messages a.1)) (cs_attempts st1)).
  { intros k s r0 s1 (Hm & _ & _ & Ha)%attempt_spec Hs Hall. rewrite Hm. split; [done|].
    destruct r0 as [[rq out]|e|]; [|by rewrite Ha|done]. destruct Ha as (-> & Hrq & _).
    apply Forall_app. split; [done|]. constructor; [|constructor]. cbn [fst]. rewrite Hrq. by apply before_llm_sound. }
  induction Hasked as [remaining retries st e st1 Ha|remaining retries st rq response usage exhaustion st1 Ha|
    remaining retries st rq st1 Ha|remaining retries st rq e st1 Ha He|retries st rq e st1 Ha He|
    remaining retries st rq e st1 e' st2 Ha He Hc|remaining retries st rq e st1 st2 r st' Ha He Hc _ IH];
    intros Hs Hall; destruct (Hone _ _ _ _ Ha Hs Hall) as [Hs1 Hall1]; try done;
    destruct (compact_again_spec _ _ _ _ _ Hc) as [Hatt _]; [by rewrite Hatt|].
  apply IH; [by eapply compact_again_sound|by rewrite Hatt].
Qed.
Lemma turn_sound calls before m tool_results results answers images (st : RunState X) :
  turn_answers calls (before ++ [m]) tool_results results answers images st ->
  sound_conversation before -> is_role RAssistant m = true -> named_summary m = false -> m_tool_calls m = calls ->
  NoDup (map tc_id calls) -> "" ∉ map tc_id calls -> sound_conversation (rs_messages st).
Proof.
  intros Ht [Hp Hl] Hrole Hname Hcalls Hnd Hne. split; [by eapply turn_protocol|].
  intros x Hx Hn. rewrite (ta_messages _ _ _ _ _ _ _ Ht), <- app_assoc in Hx.
  apply elem_of_app in Hx as [Hx|[Hx%list_elem_of_singleton|Hx]%elem_of_app]; [by apply Hl|congruence|].
  pose proof (ta_unnamed _ _ _ _ _ _ _ Ht) as Hu. rewrite Forall_forall in Hu. apply Hu in Hx. congruence.
Qed.

End Conversation.

(** ** Examples *)

Definition cycle_manager : MemoryManager CallbackError :=
  {| mg_config := sample_memory_config; mg_session_memory := None;
     mg_runtime_callbacks := {| rc_session_memory := None; rc_memory_compaction := None |};
     mg_has_workspace := true; mg_artifact_namespace := "task"; mg_tool_result_retentions := [];
     mg_recovery_tool_available := true |}.
Definition calling_response : LLMResponse :=
  {| lr_content := "running"; lr_tool_calls := echo_calls; lr_raw := []; lr_token_usage := token_usage_default |}.
(** A model that refuses the first [refusals] requests. *)
Definition cycle_runner (refusals : nat) : CycleRunner unit :=
  {| cu_client := fun n _ => if (n <? refusals)%nat then Refused (Request "Prompt is TOO long") else Responded calling_response;
     cu_stamps := fun _ => (("e0", PosInt 1), ("e1", PosInt 2), ("e2", PosInt 3));
     cu_tool_schemas := []; cu_hooks := [] |}.
Definition cycle_request : CycleRunRequest :=
  {| cq_task_id := "task"; cq_model := "model"; cq_model_settings := None;
     cq_messages := [message_new RSystem "be brief"; message_user "read it"; message_user "go on"];
     cq_cycle_index := 1; cq_previous_prompt_tokens := None; cq_recent_tool_call_ids := None;
     cq_shared_state := None; cq_context := None |}.
Definition cycle_run (refusals : nat) : CycleEnd (list Message * CycleRecord) * CycleState :=
  @run_cycle memory_json toy_digest plain_tokenizer sample_prefix memory_backend unit (cycle_runner refusals)
    cycle_request cycle_manager memory_workspace_default.
Definition cycle_result (refusals : nat) : list Message * CycleRecord :=
  match (cycle_run refusals).1 with
  | Finished a => a
  | _ => ([], cycle_from_response 0 calling_response [])
  end.
(** The calls of a cycle have slots of their own, and the fourth refusal ends
    it. *)
Example cycle_runs :
  map (fun n => (map mc_call_id (ml_records (co_ledger (cs_coordinator (cycle_run n).2))),
                 match (cycle_run n).1 with
                 | Finished (next, cycle) => (map m_role next, cr_memory_compacted cycle)
                 | Failed (CompactionExhausted _) => ([], true)
                 | _ => ([], false)
                 end)) [1; 5]
  = [(["op_model_cycle_1_main:attempt:1"; "op_model_cycle_1_prompt_too_long_1:attempt:1"],
      ([RSystem; RUser; RUser; RAssistant], true));
     (["op_model_cycle_1_main:attempt:1"; "op_model_cycle_1_prompt_too_long_1:attempt:1";
       "op_model_cycle_1_prompt_too_long_2:attempt:1"; "op_model_cycle_1_prompt_too_long_3:attempt:1"],
      ([], true))].
Proof. vm_compute. reflexivity. Qed.
Lemma cycle_attempts_bounded_witness :
  length (cs_attempts (cycle_run 1).2) <= 4 /\
  exists refused rq, Forall too_long refused /\
    cu_client (cycle_runner 1) (length refused) rq = Responded calling_response.
Proof.
  assert (Hr : @run_cycle memory_json toy_digest plain_tokenizer sample_prefix memory_backend unit (cycle_runner 1)
                 cycle_request cycle_manager memory_workspace_default
               = (Finished (cycle_result 1), (cycle_run 1).2)) by (vm_compute; reflexivity).
  destruct (@cycle_attempts_bounded memory_json toy_digest plain_tokenizer sample_prefix memory_backend unit
              (cycle_runner 1) cycle_request cycle_manager memory_workspace_default _ _ Hr) as [Hl Hend].
  split; [exact Hl|]. destruct (cycle_result 1) as [next cycle].
  destruct Hend as (refused & rq & response & usage & exhaustion & _ & Hall & Hclient & _).
  exists refused, rq. split; [exact Hall|]. cbn [cycle_runner cu_client] in Hclient |- *.
  destruct (length refused <? 1)%nat; [congruence|reflexivity].
Defined.

Lemma cycle_messages_sound : sound_conversation (cq_messages cycle_request).
Proof.
  split.
  - do 3 (apply protocol_plain; [done|done|]). constructor.
  - intros m Hm Hn. cbn in Hm. repeat apply elem_of_cons in Hm as [->|Hm]; try done. by apply elem_of_nil in Hm.
Qed.
Definition cycle_tools : result ToolRunOutcome * RunState unit :=
  unwrap_or (@run_tools memory_json toy_digest unit echo_request (cr_tool_calls (cycle_result 1).2) echo_context
    (cycle_result 1).1 (cr_tool_results (cycle_result 1).2)) (Err EmptyString, empty_run).
