(* ===== verification/Approval.v ===== *)
(** * Approvals

    [approval.rs], the decisions of [tools/policy.rs] and
    [runtime/engine/approval.rs]: a tool that needs approval waits for a
    decision of the host, which may come from the provider the run asks, from
    another thread that resolves the request in the broker, or from the
    cancellation of the run.

    The broker is shared between threads and every operation of it holds its
    lock, so an operation is one step.  What other threads do between the
    steps of a run is a list of operations; [ap_grants] records, beside the
    state of the code, every decision the broker accepted. *)

From Stdlib Require Import Ascii String NArith ZArith Lia.
From stdpp Require Import base strings list sets gmap.
From S2P Require Import Prelude Json Canonical CheckpointTypes ToolResult Journal TokenUsage.
From S2P Require Import Budget BudgetWire Records ResultCodec ToolPolicy Settings Prompt Text.
From S2P Require Import Events HostInteraction Controller Checkpoint Deferred Orchestrator.

(** ** Decisions *)

Inductive ApprovalDecision :=
| Approved
| ApprovedForSession
| Denied (reason : string)
| TimedOut (reason : string)
| NeedsApproval
| Detailed (decision : ApprovalDecision) (reason : option string) (metadata : object).
Definition decision_with_reason (d : ApprovalDecision) (reason : string) : ApprovalDecision :=
  match d with
  | Denied _ => Denied reason
  | TimedOut _ => TimedOut reason
  | Detailed decision _ metadata => Detailed decision (Some reason) metadata
  | d => Detailed d (Some reason) []
  end.
Definition decision_with_metadata (d : ApprovalDecision) (metadata : object) : ApprovalDecision :=
  match d with
  | Detailed decision reason existing => Detailed decision reason (map_extend existing metadata)
  | d => Detailed d None metadata
  end.
Fixpoint decision_action (d : ApprovalDecision) : string :=
  match d with
  | Approved => "allow"
  | ApprovedForSession => "allow_session"
  | Denied _ => "deny"
  | TimedOut _ => "timeout"
  | NeedsApproval => "needs_approval"
  | Detailed decision _ _ => decision_action decision
  end.
Definition is_approved (d : ApprovalDecision) : bool :=
  String.eqb (decision_action d) "allow" || String.eqb (decision_action d) "allow_session".
Fixpoint decision_reason (d : ApprovalDecision) : string :=
  match d with
  | Denied reason | TimedOut reason => reason
  | Detailed decision reason _ => unwrap_or reason (decision_reason decision)
  | _ => EmptyString
  end.
Definition decision_metadata (d : ApprovalDecision) : option object :=
  match d with Detailed _ _ metadata => Some metadata | _ => None end.

(** ** The broker *)

Record ApprovalRequest := {
  ar_request_id : string;
  ar_run_id : string;
  ar_trace_id : string;
  ar_agent_name : string;
  ar_cycle_index : N;
  ar_tool_call_id : string;
  ar_tool_name : string;
  ar_arguments : Value;
  ar_preview : string;
  ar_metadata : object
}.
Record PendingApproval := {
  pe_request : ApprovalRequest;
  pe_decision : option ApprovalDecision
}.
Record ApprovalBroker := {
  ab_pending : gmap string PendingApproval;
  ab_session_allowed_tools : gset string;
  ab_cancel_decision : option ApprovalDecision
}.
Definition broker_default : ApprovalBroker :=
  {| ab_pending := ∅; ab_session_allowed_tools := ∅; ab_cancel_decision := None |}.
Definition set_pending (b : ApprovalBroker) (pending : gmap string PendingApproval) : ApprovalBroker :=
  {| ab_pending := pending; ab_session_allowed_tools := ab_session_allowed_tools b;
     ab_cancel_decision := ab_cancel_decision b |}.
Definition register (b : ApprovalBroker) (request : ApprovalRequest) : ApprovalBroker :=
  let decision :=
    match ab_cancel_decision b with
    | Some d => Some d
    | None => if bool_decide (ar_tool_name request ∈ ab_session_allowed_tools b) then Some ApprovedForSession else None
    end in
  set_pending b (<[ar_request_id request := {| pe_request := request; pe_decision := decision |}]> (ab_pending b)).
(** A request without a decision. *)
Definition undecided (b : ApprovalBroker) (request_id : string) : option ApprovalRequest :=
  entry ← ab_pending b !! request_id;
  match pe_decision entry with None => Some (pe_request entry) | Some _ => None end.
Definition broker_pending_request (b : ApprovalBroker) (request_id : string) : option ApprovalRequest :=
  undecided b request_id.
(** The decision that is stored, and the request it is for. *)
Definition resolve (b : ApprovalBroker) (request_id : string) (decision : ApprovalDecision)
    : result (ApprovalRequest * ApprovalDecision) * ApprovalBroker :=
  match undecided b request_id with
  | None => (Err ("unknown approval request: " +:+ request_id), b)
  | Some request =>
      let decision := unwrap_or (ab_cancel_decision b) decision in
      (Ok (request, decision),
       {| ab_pending := <[request_id := {| pe_request := request; pe_decision := Some decision |}]> (ab_pending b);
          ab_session_allowed_tools :=
            if String.eqb (decision_action decision) "allow_session"
            then {[ ar_tool_name request ]} ∪ ab_session_allowed_tools b else ab_session_allowed_tools b;
          ab_cancel_decision := ab_cancel_decision b |})
  end.
Definition allows_tool_for_session (b : ApprovalBroker) (tool_name : string) : bool :=
  is_none (ab_cancel_decision b) && bool_decide (tool_name ∈ ab_session_allowed_tools b).
Definition broker_discard (b : ApprovalBroker) (request_id : string) : bool * ApprovalBroker :=
  (is_some (ab_pending b !! request_id), set_pending b (delete request_id (ab_pending b))).
Definition decide_entry (decision : ApprovalDecision) (entry : PendingApproval) : PendingApproval :=
  match pe_decision entry with
  | None => {| pe_request := pe_request entry; pe_decision := Some decision |}
  | Some _ => entry
  end.
Definition cancel_pending (b : ApprovalBroker) (reason : string) : nat * ApprovalBroker :=
  let decision := Denied reason in
  (size (filter (fun x => is_none (pe_decision x.2) = true) (ab_pending b)),
   {| ab_pending := decide_entry decision <$> ab_pending b;
      ab_session_allowed_tools := ab_session_allowed_tools b; ab_cancel_decision := Some decision |}).
Definition reset_cancelled (b : ApprovalBroker) : ApprovalBroker :=
  {| ab_pending := ab_pending b; ab_session_allowed_tools := ab_session_allowed_tools b; ab_cancel_decision := None |}.

(** *** Threads *)

Record Approvals := {
  ap_broker : ApprovalBroker;
  ap_grants : list (ApprovalRequest * ApprovalDecision)
}.
Definition set_broker (a : Approvals) (b : ApprovalBroker) : Approvals :=
  {| ap_broker := b; ap_grants := ap_grants a |}.
Definition resolve_step (a : Approvals) (request_id : string) (decision : ApprovalDecision) : Approvals :=
  match resolve (ap_broker a) request_id decision with
  | (Ok grant, b) => {| ap_broker := b; ap_grants := ap_grants a ++ [grant] |}
  | (Err _, b) => set_broker a b
  end.
(** What another thread may do; a waiter takes its decision away. *)
Inductive BrokerOp :=
| OpRegister (request : ApprovalRequest)
| OpResolve (request_id : string) (decision : ApprovalDecision)
| OpDiscard (request_id : string)
| OpCancel (reason : string)
| OpReset.
Definition do_op (a : Approvals) (op : BrokerOp) : Approvals :=
  match op with
  | OpRegister request => set_broker a (register (ap_broker a) request)
  | OpResolve request_id decision => resolve_step a request_id decision
  | OpDiscard request_id => set_broker a (broker_discard (ap_broker a) request_id).2
  | OpCancel reason => set_broker a (cancel_pending (ap_broker a) reason).2
  | OpReset => set_broker a (reset_cancelled (ap_broker a))
  end.
Definition do_ops (a : Approvals) (ops : list BrokerOp) : Approvals := foldl do_op a ops.

(** *** Waiting *)

(** A turn of the loop: whether the time was over before it went to sleep,
    what happened while it slept, and whether the time woke it. *)
Record Wake := {
  wk_expired : bool;
  wk_others : list BrokerOp;
  wk_timed_out : bool
}.
Definition decided (a : Approvals) (request_id : string) : option ApprovalDecision :=
  ab_pending (ap_broker a) !! request_id ≫= pe_decision.
Definition remove_request (a : Approvals) (request_id : string) : Approvals :=
  set_broker a (broker_discard (ap_broker a) request_id).2.
Definition approval_timed_out : ApprovalDecision := TimedOut "Approval request timed out.".
(** [None] is a waiter that still sleeps. *)
Fixpoint wait_blocking (request_id : string) (timeout : bool) (wakes : list Wake) (a : Approvals)
    : option ApprovalDecision * Approvals :=
  match decided a request_id with
  | Some d => (Some d, remove_request a request_id)
  | None =>
      match wakes with
      | [] => (None, a)
      | wake :: rest =>
          if timeout && wk_expired wake then (Some approval_timed_out, remove_request a request_id)
          else
            let a := do_ops a (wk_others wake) in
            if timeout && wk_timed_out wake && is_none (decided a request_id)
            then (Some approval_timed_out, remove_request a request_id)
            else wait_blocking request_id timeout rest a
      end
  end.

(** ** The run's side *)

Section Provider.
Context `{JsonText}.

Record ApprovalProvider := {
  pv_should_request : ApprovalRequest -> bool;
  pv_decide : ApprovalRequest -> result (option ApprovalDecision)
}.
(** What a run looks at; [ah_cancelled] is the token, a function of how often
    it was looked at, [ah_cancel_first] says whether it beats the provider, and
    [ah_others] what other threads do before the steps of the run. *)
Record ApprovalHost := {
  ah_context : option (object * option ApprovalProvider * bool);
  ah_timeout : bool;
  ah_cancelled : option (nat -> bool);
  ah_cancel_first : bool;
  ah_fresh_id : string;
  ah_others : nat -> list BrokerOp;
  ah_wakes : list Wake;
  ah_task_id : string;
  ah_task_metadata : object
}.
Inductive ApprovalProviderOutcome :=
| ProviderDecided (decision : option ApprovalDecision)
| ProviderCancelled.
Definition await_provider_decision (host : ApprovalHost) (answer : result (option ApprovalDecision))
    : result ApprovalProviderOutcome :=
  match ah_cancelled host with
  | None => let? d := answer in Ok (ProviderDecided d)
  | Some cancelled =>
      if cancelled 1%nat || ah_cancel_first host then Ok ProviderCancelled
      else let? d := answer in Ok (ProviderDecided d)
  end.
(** A token that is cancelled already calls back at once; a later
    cancellation is an operation of the thread that cancels. *)
Definition bind_request_cancellation (host : ApprovalHost) (request_id : string) (a : Approvals) : Approvals :=
  match ah_cancelled host with
  | Some cancelled => if cancelled 0%nat then resolve_step a request_id (Denied "Operation was cancelled") else a
  | None => a
  end.
Definition controls_cancelled (host : ApprovalHost) : bool :=
  match ah_cancelled host with Some cancelled => cancelled 2%nat | None => false end.
(** The first key that is there, when it holds a text. *)
Definition pick_text (candidates : list (option Value)) (default : string) : string :=
  match (foldl (fun found v => match found with Some _ => found | None => v end) None candidates) ≫= as_str with
  | Some s => if trim_is_empty s then default else s
  | None => default
  end.
Definition for_tool_call (request_id run_id trace_id agent_name : string) (cycle_index : N) (call : ToolCall)
    : ApprovalRequest :=
  let arguments := Object (tc_arguments call) in
  {| ar_request_id := request_id; ar_run_id := run_id; ar_trace_id := trace_id; ar_agent_name := agent_name;
     ar_cycle_index := cycle_index; ar_tool_call_id := tc_id call; ar_tool_name := tc_name call;
     ar_arguments := arguments; ar_preview := tc_name call +:+ " " +:+ json_to_string arguments;
     ar_metadata := [] |}.
Definition request_of (host : ApprovalHost) (identity : object) (cycle_index : N) (call : ToolCall)
    (tool_metadata : object) : ApprovalRequest :=
  let task := ah_task_metadata host in
  let run_id := pick_text [map_get "_vv_agent_run_id" identity; map_get "_vv_agent_run_id" task] (ah_task_id host) in
  let trace_id := pick_text [map_get "_vv_agent_trace_id" identity; map_get "trace_id" identity;
                             map_get "_vv_agent_trace_id" task; map_get "trace_id" task] run_id in
  let agent_name := pick_text [map_get "_vv_agent_agent_name" identity; map_get "_vv_agent_agent_name" task;
                               map_get "agent_name" task] (ah_task_id host) in
  let request := for_tool_call (ah_fresh_id host) run_id trace_id agent_name cycle_index call in
  let session_id := pick_text [map_get "_vv_agent_session_id" identity; map_get "_vv_agent_session_id" task] EmptyString in
  let metadata := map_insert "tool_metadata" (Object tool_metadata) (ar_metadata request) in
  {| ar_request_id := ar_request_id request; ar_run_id := ar_run_id request; ar_trace_id := ar_trace_id request;
     ar_agent_name := ar_agent_name request; ar_cycle_index := ar_cycle_index request;
     ar_tool_call_id := ar_tool_call_id request; ar_tool_name := ar_tool_name request;
     ar_arguments := ar_arguments request; ar_preview := ar_preview request;
     ar_metadata := if str_is_empty session_id then metadata else map_insert "session_id" (Str session_id) metadata |}.

(** *** Results *)

Definition approval_error_result (call : ToolCall) (error_code message : string) : ToolExecutionResult :=
  with_outcome
    (result_success (tc_id call)
       (json_to_string (json_object [("ok", Bool false); ("error", Str message); ("error_code", Str error_code);
                                     ("tool_name", Str (tc_name call))])))
    Error DContinue (Some error_code) [].
Definition approval_resolution_error_result (call : ToolCall) (request_id action error_code message : string)
    : ToolExecutionResult :=
  with_outcome (approval_error_result call error_code message) Error DContinue (Some error_code)
    (map_of_list [("mode", Str "approval_resolved"); ("request_id", Str request_id); ("tool_name", Str (tc_name call));
                  ("arguments", Object (tc_arguments call)); ("action", Str action); ("message", Str message)]).
Definition approval_required_result (interruption_id : string) (call : ToolCall) : ToolExecutionResult :=
  let message := "Approval required for tool " +:+ tc_name call +:+ "." in
  with_outcome (result_success (tc_id call) message) WaitResponse DWaitUser (Some "tool_approval_required")
    (map_of_list [("mode", Str "approval_requested"); ("approval_required", Bool true);
                  ("approval_interruption_id", Str interruption_id); ("request_id", Str interruption_id);
                  ("tool_name", Str (tc_name call)); ("arguments", Object (tc_arguments call));
                  ("message", Str message)]).
Definition canonical_approval_message (reason default : string) : string :=
  if trim_is_empty reason then default else reason.
Definition decision_result (call : ToolCall) (request_id : string) (d : ApprovalDecision) : option ToolExecutionResult :=
  let action := decision_action d in
  if String.eqb action "allow" || String.eqb action "allow_session" then None
  else if String.eqb action "deny" then
    Some (approval_resolution_error_result call request_id "deny" "tool_approval_denied"
            (canonical_approval_message (decision_reason d) ("Approval denied for tool " +:+ tc_name call +:+ ".")))
  else if String.eqb action "timeout" then
    Some (approval_resolution_error_result call request_id "timeout" "tool_approval_timeout"
            (canonical_approval_message (decision_reason d) "Approval request timed out."))
  else Some (approval_error_result call "approval_unresolved" "Approval was not resolved.").

(** *** The whole *)

Definition local_approval_result (host : ApprovalHost) (call : ToolCall) (requirement : ApprovalRequirement)
    : option ToolExecutionResult :=
  if requirement =?? RequiredApproval then Some (approval_required_result (ah_fresh_id host) call) else None.
(** The lines the run logs: their name and fields. *)
Definition log_fields (request : ApprovalRequest) : object :=
  [("task_id", Str (ar_run_id request)); ("agent_name", Str (ar_agent_name request));
   ("cycle", json_u64 (ar_cycle_index request)); ("request_id", Str (ar_request_id request));
   ("tool_call_id", Str (ar_tool_call_id request)); ("tool_name", Str (ar_tool_name request))].
Definition requested_line (request : ApprovalRequest) : string * object :=
  ("approval_requested",
   map_of_list (log_fields request ++
     [("preview", Str (ar_preview request));
      ("message", Str ("Approval required for tool " +:+ ar_tool_name request +:+ "."));
      ("arguments", ar_arguments request)])).
Definition resolved_line (request : ApprovalRequest) (d : ApprovalDecision) : string * object :=
  ("approval_resolved",
   map_of_list (log_fields request ++
     [("action", Str (decision_action d)); ("reason", Str (decision_reason d));
      ("decision_metadata", Object (unwrap_or (decision_metadata d) []))])).
(** The request is registered; [None] is a run that still waits. *)
Definition await_approval (host : ApprovalHost) (provider : ApprovalProvider) (call : ToolCall)
    (request : ApprovalRequest) (a : Approvals)
    : option (result (option ToolExecutionResult)) * Approvals * list (string * object) :=
  let a := set_broker a (register (ap_broker a) request) in
  let id := ar_request_id request in
  let a := bind_request_cancellation host id (do_ops a (ah_others host 1)) in
  let a := do_ops a (ah_others host 2) in
  match await_provider_decision host (pv_decide provider request) with
  | Err e => (Some (Err e), remove_request a id, [requested_line request])
  | Ok outcome =>
      let a :=
        match outcome with
        | ProviderDecided (Some d) =>
            if String.eqb (decision_action d) "needs_approval" then a else resolve_step a id d
        | _ => a
        end in
      match wait_blocking id (ah_timeout host) (ah_wakes host) (do_ops a (ah_others host 3)) with
      | (None, a) => (None, a, [requested_line request])
      | (Some d, a) =>
          (Some (Ok (if controls_cancelled host
                     then Some (approval_error_result call "tool_execution_cancelled" "Operation was cancelled")
                     else decision_result call id d)), a, [requested_line request; resolved_line request d])
      end
  end.
Definition approval_provider_result (host : ApprovalHost) (cycle_index : N) (call : ToolCall)
    (requirement : ApprovalRequirement) (tool_metadata : object) (a : Approvals)
    : option (result (option ToolExecutionResult)) * Approvals * list (string * object) :=
  if requirement =?? NotRequired then (Some (Ok None), a, [])
  else
    match ah_context host with
    | Some (identity, Some provider, true) =>
        let a := do_ops a (ah_others host 0) in
        if allows_tool_for_session (ap_broker a) (tc_name call) then (Some (Ok None), a, [])
        else
          let request := request_of host identity cycle_index call tool_metadata in
          if pv_should_request provider request then await_approval host provider call request a
          else (Some (Ok None), a, [])
    | _ => (Some (Ok (local_approval_result host call requirement)), a, [])
    end.
End Provider.

(** ** What a decision rests on *)

Definition session_granted (a : Approvals) (tool_name : string) : Prop :=
  exists r d, (r, d) ∈ ap_grants a /\ ar_tool_name r = tool_name /\ decision_action d = "allow_session".
Definition granted (a : Approvals) (r : ApprovalRequest) (d : ApprovalDecision) : Prop :=
  (r, d) ∈ ap_grants a \/ (d = ApprovedForSession /\ session_granted a (ar_tool_name r)).
Record approvals_ok (a : Approvals) : Prop := {
  ao_keys id e : ab_pending (ap_broker a) !! id = Some e -> ar_request_id (pe_request e) = id;
  ao_decided id e d : ab_pending (ap_broker a) !! id = Some e -> pe_decision e = Some d -> is_approved d = true ->
    granted a (pe_request e) d;
  ao_session tool : tool ∈ ab_session_allowed_tools (ap_broker a) -> session_granted a tool;
  ao_cancel d : ab_cancel_decision (ap_broker a) = Some d -> is_approved d = false
}.
Lemma approvals_start : approvals_ok {| ap_broker := broker_default; ap_grants := [] |}.
Proof. split; cbn; [intros id e Hl|intros id e d Hl|set_solver|done]; by rewrite lookup_empty in Hl. Qed.
Lemma undecided_spec b id r :
  undecided b id = Some r -> exists e, ab_pending b !! id = Some e /\ pe_request e = r /\ pe_decision e = None.
Proof.
  unfold undecided. intros (e & He & Hr)%bind_Some. exists e. destruct (pe_decision e); [done|]. by injection Hr as <-.
Qed.
Lemma session_more a grants tool :
  session_granted a tool -> session_granted {| ap_broker := ap_broker a; ap_grants := ap_grants a ++ grants |} tool.
Proof. intros (r & d & Hin & Hrest). exists r, d. split; [cbn; set_solver|done]. Qed.
Lemma granted_more a b grants r d :
  granted a r d -> granted {| ap_broker := b; ap_grants := ap_grants a ++ grants |} r d.
Proof. intros [Hin|[-> Hs]]; [left; cbn; set_solver|right; split; [done|by apply session_more]]. Qed.

Lemma register_ok a r : approvals_ok a -> approvals_ok (set_broker a (register (ap_broker a) r)).
Proof.
  intros [Hk Hd Hs Hc]. split; cbn; [| |done|done].
  - intros id e [[<- <-]|[_ He]]%lookup_insert_Some; [done|by apply Hk].
  - intros id e d [[<- <-]|[_ He]]%lookup_insert_Some Hdec Happ; [|by eapply Hd]. cbn in Hdec |- *.
    destruct (ab_cancel_decision (ap_broker a)) as [c|] eqn:Hcancel.
    + injection Hdec as ->. by rewrite (Hc d) in Happ.
    + destruct (bool_decide_reflect (ar_tool_name r ∈ ab_session_allowed_tools (ap_broker a))); [|done].
      injection Hdec as <-. right. split; [done|by apply Hs].
Qed.
Lemma resolve_ok a id d : approvals_ok a -> approvals_ok (resolve_step a id d).
Proof.
  intros [Hk Hd Hs Hc]. unfold resolve_step, resolve.
  destruct (undecided (ap_broker a) id) as [r|] eqn:Hu; [|by split].
  apply undecided_spec in Hu as (e & He & <- & _). set (d' := unwrap_or _ d).
  assert (Hself : (pe_request e, d') ∈ ap_grants a ++ [(pe_request e, d')]) by set_solver.
  split; cbn [ap_broker ab_pending ab_session_allowed_tools ab_cancel_decision].
  - intros id0 e0 [[<- <-]|[_ He0]]%lookup_insert_Some; [exact (Hk _ _ He)|by apply Hk].
  - intros id0 e0 d0 [[<- <-]|[_ He0]]%lookup_insert_Some Hdec Happ.
    + cbn in Hdec |- *. injection Hdec as <-. by left.
    + apply granted_more. by eapply Hd.
  - intros tool. destruct (String.eqb_spec (decision_action d') "allow_session") as [Hact|Hact].
    + intros [Heq%elem_of_singleton|Hin]%elem_of_union; [subst tool; by exists (pe_request e), d'|].
      by apply (session_more a), Hs.
    + intros Hin. by apply (session_more a), Hs.
  - done.
Qed.
Lemma discard_ok a id : approvals_ok a -> approvals_ok (remove_request a id).
Proof.
  intros [Hk Hd Hs Hc]. split; cbn; [| |done|done].
  - intros id0 e [_ He]%lookup_delete_Some. by apply Hk.
  - intros id0 e d [_ He]%lookup_delete_Some. by apply (Hd id0).
Qed.
Lemma cancel_ok a reason : approvals_ok a -> approvals_ok (set_broker a (cancel_pending (ap_broker a) reason).2).
Proof.
  intros [Hk Hd Hs Hc]. split; cbn; [| |done|by intros d [= <-]].
  - intros id e (e0 & <- & He)%lookup_fmap_Some. rewrite <- (Hk _ _ He). unfold decide_entry. by destruct (pe_decision e0).
  - intros id e d (e0 & <- & He)%lookup_fmap_Some Hdec Happ. unfold decide_entry in *.
    destruct (pe_decision e0) as [d0|] eqn:Hd0; [eapply Hd; [exact He|congruence|done]|]. cbn in Hdec. injection Hdec as <-. done.
Qed.
Lemma do_op_ok a op : approvals_ok a -> approvals_ok (do_op a op).
Proof.
  intros Ha. destruct op; cbn [do_op].
  - by apply register_ok.
  - by apply resolve_ok.
  - by apply discard_ok.
  - by apply cancel_ok.
  - destruct Ha. by split.
Qed.
Lemma do_ops_ok ops : forall a, approvals_ok a -> approvals_ok (do_ops a ops).
Proof. induction ops as [|op ops IH]; intros a Ha; [done|]. by apply IH, do_op_ok. Qed.

(** The request under an id is the one that was registered, as long as nobody
    registers another one under it. *)
Definition holds_request (id : string) (r : ApprovalRequest) (a : Approvals) : Prop :=
  forall e, ab_pending (ap_broker a) !! id = Some e -> pe_request e = r.
Definition leaves_id (id : string) (op : BrokerOp) : Prop :=
  match op with OpRegister r => ar_request_id r <> id | _ => True end.
Lemma resolve_holds id r a id' d : holds_request id r a -> holds_request id r (resolve_step a id' d).
Proof.
  intros Hr e. unfold resolve_step, resolve. destruct (undecided (ap_broker a) id') as [r'|] eqn:Hu; [|apply Hr].
  apply undecided_spec in Hu as (e' & He' & <- & _).
  cbn. intros [[-> <-]|[_ He]]%lookup_insert_Some; [exact (Hr _ He')|by apply Hr].
Qed.
Lemma remove_holds id r a id' : holds_request id r a -> holds_request id r (remove_request a id').
Proof. intros Hr e. cbn. intros [_ He]%lookup_delete_Some. by apply Hr. Qed.
Lemma do_op_holds id r a op : leaves_id id op -> holds_request id r a -> holds_request id r (do_op a op).
Proof.
  intros Hl Hr. destruct op; cbn [do_op].
  - intros e. cbn. intros [[Heq _]|[_ He]]%lookup_insert_Some; [done|by apply Hr].
  - by apply resolve_holds.
  - by apply remove_holds.
  - intros e. cbn. intros (e0 & <- & He)%lookup_fmap_Some. rewrite <- (Hr _ He). unfold decide_entry. by destruct (pe_decision e0).
  - exact Hr.
Qed.
Lemma do_ops_holds id r ops : Forall (leaves_id id) ops -> forall a,
  holds_request id r a -> holds_request id r (do_ops a ops).
Proof. induction 1 as [|op ops Hop _ IH]; intros a Hr; [done|]. by apply IH, do_op_holds. Qed.

(** A decision a waiter takes was granted to its request, and the request is
    gone. *)
Lemma wait_spec id r timeout wakes : Forall (fun w => Forall (leaves_id id) (wk_others w)) wakes -> forall a d a',
  approvals_ok a -> holds_request id r a -> wait_blocking id timeout wakes a = (Some d, a') ->
  approvals_ok a' /\ ab_pending (ap_broker a') !! id = None /\ (is_approved d = true -> granted a' r d).
Proof.
  assert (Htake : forall a d, approvals_ok a -> holds_request id r a -> decided a id = Some d ->
    approvals_ok (remove_request a id) /\ ab_pending (ap_broker (remove_request a id)) !! id = None /\
    (is_approved d = true -> granted (remove_request a id) r d)).
  { intros a d Ha Hr (e & He & Hdec)%bind_Some. split_and!; [by apply discard_ok|apply lookup_delete_eq|].
    intros Happ. rewrite <- (Hr _ He). exact (ao_decided _ Ha _ _ _ He Hdec Happ). }
  induction 1 as [|wake rest Hw _ IH]; intros a d a' Ha Hr; cbn [wait_blocking];
    (destruct (decided a id) as [d0|] eqn:Hd; [intros [= <- <-]; by apply Htake|]); [done|].
  destruct (timeout && wk_expired wake).
  { intros [= <- <-]. split_and!; [by apply discard_ok|apply lookup_delete_eq|done]. }
  destruct (timeout && wk_timed_out wake && _).
  { intros [= <- <-]. split_and!; [by apply discard_ok, do_ops_ok|apply lookup_delete_eq|done]. }
  apply IH; [by apply do_ops_ok|by apply do_ops_holds].
Qed.

(** *** A tool that needs approval *)

Section Granted.
Context `{JsonText}.

Lemma decision_result_None call id d : decision_result call id d = None -> is_approved d = true.
Proof.
  unfold decision_result, is_approved. destruct (_ || _); [done|].
  destruct (String.eqb _ "deny"); [done|]. by destruct (String.eqb _ "timeout").
Qed.
Lemma bind_ok host id a : approvals_ok a -> approvals_ok (bind_request_cancellation host id a).
Proof.
  intros Ha. unfold bind_request_cancellation. destruct (ah_cancelled host) as [c|]; [|done].
  destruct (c _); [by apply resolve_ok|done].
Qed.
Lemma bind_holds host id r a : holds_request id r a -> holds_request id r (bind_request_cancellation host id a).
Proof.
  intros Hr. unfold bind_request_cancellation. destruct (ah_cancelled host) as [c|]; [|done].
  destruct (c _); [by apply resolve_holds|done].
Qed.
(** The ids of the run's requests are its own. *)
Record own_ids (host : ApprovalHost) : Prop := {
  oi_others n : Forall (leaves_id (ah_fresh_id host)) (ah_others host n);
  oi_wakes : Forall (fun w => Forall (leaves_id (ah_fresh_id host)) (wk_others w)) (ah_wakes host)
}.
Lemma await_spec host provider call request a a' log :
  await_approval host provider call request a = (Some (Ok None), a', log) -> ar_request_id request = ah_fresh_id host ->
  own_ids host -> approvals_ok a ->
  approvals_ok a' /\ controls_cancelled host = false /\ exists d, is_approved d = true /\ granted a' request d.
Proof.
  unfold await_approval. intros Hr Hid [Ho Hw] Ha. rewrite Hid in Hr.
  set (a1 := set_broker a (register (ap_broker a) request)) in Hr.
  assert (Ha1 : approvals_ok a1) by by apply register_ok.
  assert (Hh1 : holds_request (ah_fresh_id host) request a1).
  { intros e. unfold a1. cbn. rewrite Hid, lookup_insert_eq. by intros [= <-]. }
  set (a2 := do_ops (bind_request_cancellation host _ _) _) in Hr.
  assert (Ha2 : approvals_ok a2) by by apply do_ops_ok, bind_ok, do_ops_ok.
  assert (Hh2 : holds_request (ah_fresh_id host) request a2) by by apply do_ops_holds, bind_holds, do_ops_holds.
  destruct (await_provider_decision _ _) as [outcome|]; [|done].
  set (a3 := match outcome with ProviderDecided (Some d) => _ | _ => a2 end) in Hr.
  assert (Ha3 : approvals_ok a3 /\ holds_request (ah_fresh_id host) request a3).
  { unfold a3. destruct outcome as [[d|]|]; [|done|done]. destruct (String.eqb _ _); [done|].
    split; [by apply resolve_ok|by apply resolve_holds]. }
  destruct Ha3 as [Ha3 Hh3]. destruct (wait_blocking _ _ _ _) as [[d|] a4] eqn:Hwait; [|done].
  destruct (wait_spec _ request _ _ Hw _ _ _ (do_ops_ok _ _ Ha3) (do_ops_holds _ _ _ (Ho 3) _ Hh3) Hwait)
    as (Ha4 & _ & Hg).
  injection Hr as Hres <- _. destruct (controls_cancelled host); [done|].
  apply decision_result_None in Hres. split_and!; [done|done|]. exists d. split; [done|by apply Hg].
Qed.

(** What the pass of a call rests on. *)
Definition pass_reason (host : ApprovalHost) (cycle : N) (call : ToolCall) (requirement : ApprovalRequirement)
    (metadata : object) (a : Approvals) : Prop :=
  requirement = NotRequired \/
  match ah_context host with
  | Some (identity, Some provider, true) =>
      let request := request_of host identity cycle call metadata in
      pv_should_request provider request = false \/
      session_granted a (tc_name call) \/
      (controls_cancelled host = false /\ exists d, is_approved d = true /\ granted a request d)
  | _ => requirement = ProviderApproval
  end.
Lemma approved_before_run host cycle call requirement metadata a a' log :
  approval_provider_result host cycle call requirement metadata a = (Some (Ok None), a', log) ->
  own_ids host -> approvals_ok a ->
  approvals_ok a' /\ pass_reason host cycle call requirement metadata a'.
Proof.
  unfold approval_provider_result, local_approval_result, pass_reason. intros Hr Hown Ha.
  destruct (bool_decide_reflect (requirement = NotRequired)) as [->|Hreq]; [injection Hr as <- _; by split; [|left]|].
  assert (Hlocal : forall a0 : Approvals,
    (Some (Ok (if requirement =?? RequiredApproval then Some (approval_required_result (ah_fresh_id host) call) else None)), a0, [])
    = (Some (Ok None), a', log) -> requirement = ProviderApproval /\ a0 = a').
  { intros a0. destruct (bool_decide_reflect (requirement = RequiredApproval)); [done|]. intros [= -> _].
    by destruct requirement. }
  destruct (ah_context host) as [[[identity [provider|]] [|]]|];
    try (destruct (Hlocal _ Hr) as [Hp <-]; split; [done|by right]).
  pose proof (do_ops_ok (ah_others host 0) a Ha) as Ha0. set (a0 := do_ops a _) in *.
  destruct (allows_tool_for_session (ap_broker a0) (tc_name call)) eqn:Hs.
  { injection Hr as <- _. split; [done|]. right. right. left. apply Ha0.
    apply andb_true_iff in Hs as [_ Hs]. by apply bool_decide_eq_true in Hs. }
  destruct (pv_should_request provider _) eqn:Hask.
  - destruct (await_spec _ _ _ _ _ _ _ Hr eq_refl Hown Ha0) as (Ha' & Hc & Hg). split; [done|]. right. right. right. done.
  - injection Hr as <- _. split; [done|]. right. by left.
Qed.
(** What the engine makes of the answer. *)
Definition engine_approval (call : ToolCall) (answer : result (option ToolExecutionResult))
    : option ToolExecutionResult :=
  match answer with
  | Ok r => r
  | Err _ => Some (approval_error_result call "approval_provider_error" "Approval provider failed.")
  end.

End Granted.

(** *** Cancellation *)

Definition not_reset (op : BrokerOp) : Prop := match op with OpReset => False | _ => True end.
Record closed (before : gmap string PendingApproval) (a : Approvals) : Prop := {
  cb_cancel : exists d, ab_cancel_decision (ap_broker a) = Some d /\ is_approved d = false;
  cb_decided id e : ab_pending (ap_broker a) !! id = Some e ->
    exists d, pe_decision e = Some d /\ (is_approved d = true -> before !! id = Some e)
}.
Lemma closed_cancel a reason :
  closed (ab_pending (ap_broker a)) (do_op a (OpCancel reason)).
Proof.
  split; [by eexists|]. cbn. intros id e (e0 & <- & He)%lookup_fmap_Some. unfold decide_entry.
  destruct (pe_decision e0) as [d|] eqn:Hd; [by exists d|]. by exists (Denied reason).
Qed.
Lemma closed_step before a op : not_reset op -> closed before a -> closed before (do_op a op).
Proof.
  intros Hop [(c & Hc & Hno) Hd]. destruct op; cbn [do_op]; [| | | |done].
  - split; [by exists c|]. cbn. rewrite Hc. intros id e [[<- <-]|[_ He]]%lookup_insert_Some; [|by apply Hd].
    exists c. split; [done|]. by rewrite Hno.
  - unfold resolve_step, resolve. destruct (undecided _ _) as [r|] eqn:Hu; [|by split; [exists c|]].
    apply undecided_spec in Hu as (e & He & _ & Hnone). destruct (Hd _ _ He) as (d & Hsome & _). congruence.
  - split; [by exists c|]. cbn. intros id e [_ He]%lookup_delete_Some. by apply Hd.
  - split; [by eexists|]. cbn. intros id e (e0 & <- & He)%lookup_fmap_Some.
    destruct (Hd _ _ He) as (d & Hdec & Hin). unfold decide_entry. rewrite Hdec. by exists d.
Qed.
Lemma closed_steps before ops : Forall not_reset ops -> forall a, closed before a -> closed before (do_ops a ops).
Proof. induction 1 as [|op ops Hop _ IH]; intros a Ha; [done|]. by apply IH, closed_step. Qed.

(** A cancelled broker decides nothing in favour of a tool until it is
    reset: whatever the threads do after the cancellation, what is approved
    was approved before it, no request waits for a decision, and no tool is
    allowed for the session. *)
Theorem cancelled_broker_closed a reason ops :
  Forall not_reset ops ->
  let b := ap_broker (do_ops (do_op a (OpCancel reason)) ops) in
  (forall id e d, ab_pending b !! id = Some e -> pe_decision e = Some d -> is_approved d = true ->
     ab_pending (ap_broker a) !! id = Some e) /\
  (forall id, broker_pending_request b id = None) /\
  (forall tool, allows_tool_for_session b tool = false).
Proof.
  intros Hops b. destruct (closed_steps _ _ Hops _ (closed_cancel a reason)) as [(c & Hc & Hno) Hd].
  fold b in Hc, Hd. split_and!.
  - intros id e d He Hdec Happ. destruct (Hd _ _ He) as (d' & Hdec' & Hin). apply Hin. congruence.
  - intros id. unfold broker_pending_request, undecided. destruct (ab_pending b !! id) as [e|] eqn:He; [|done].
    destruct (Hd _ _ He) as (d' & Hdec' & _). cbn. by rewrite Hdec'.
  - intros tool. unfold allows_tool_for_session. by rewrite Hc.
Qed.

(** ** Examples *)

Definition asking_provider : ApprovalProvider :=
  {| pv_should_request := fun _ => true; pv_decide := fun _ => Ok (Some NeedsApproval) |}.
(** The provider passes the question on, and another thread answers it while
    the run waits. *)
Definition asking_host (answer : list BrokerOp) : ApprovalHost :=
  {| ah_context := Some ([], Some asking_provider, true); ah_timeout := true; ah_cancelled := None;
     ah_cancel_first := false; ah_fresh_id := "approval-1"; ah_others := fun _ => [];
     ah_wakes := [{| wk_expired := false; wk_others := answer; wk_timed_out := false |};
                  {| wk_expired := true; wk_others := []; wk_timed_out := false |}];
     ah_task_id := "task"; ah_task_metadata := [] |}.
Definition no_approvals : Approvals := {| ap_broker := broker_default; ap_grants := [] |}.
Definition ask_approval (answer : list BrokerOp)
    : option (result (option ToolExecutionResult)) * Approvals * list (string * object) :=
  @approval_provider_result brace_json (asking_host answer) 1 (echo_call "echo" "call-1") RequiredApproval []
    no_approvals.
Example approval_runs :
  map (fun answer => match (ask_approval answer).1.1 with
                     | Some (Ok r) => (r ≫= tr_error_code)
                     | _ => Some "waiting"
                     end)
    [[OpResolve "approval-1" Approved]; [OpResolve "approval-1" (Denied "no")]; [OpCancel "stop"]; []]
  = [None; Some "tool_approval_denied"; Some "tool_approval_denied"; Some "tool_approval_timeout"].
Proof. vm_compute. reflexivity. Qed.
Definition always_options : ToolRunOptions unit :=
  from_policy {| tp_allowed_tools := None; tp_disallowed_tools := []; tp_approval := AlwaysApproval;
                 tp_can_use_tool := None; tp_denied_side_effects := []; tp_denied_capability_tags := [];
                 tp_deny_terminal_tools := false; tp_denied_cost_dimensions := [] |}.
Definition approving_host : ApprovalHost := asking_host [OpResolve "approval-1" Approved].
(** The approval step of a run as the engine passes it to the orchestrator. *)
Definition approval_step (call : ToolCall) (requirement : ApprovalRequirement) (context : ToolContext unit)
    (metadata : object) : option ToolExecutionResult :=
  match (@approval_provider_result brace_json approving_host 1 call requirement metadata no_approvals).1.1 with
  | Some answer => @engine_approval brace_json call answer
  | None => None
  end.
Definition approved_run : result DeferredToolExecution * ToolContext unit * list ToolEffect :=
  @run_one_deferred brace_json toy_digest unit (from_tools [echo_tool]) (echo_call "echo" "call-1") echo_context
    always_options approval_step.
Lemma cancelled_broker_closed_witness :
  allows_tool_for_session
    (ap_broker (do_ops (do_op (ask_approval [OpResolve "approval-1" ApprovedForSession]).1.2 (OpCancel "stop"))
                  [OpResolve "approval-1" Approved; OpDiscard "approval-1"])) "echo" = false.
Proof.
  assert (Hops : Forall not_reset [OpResolve "approval-1" Approved; OpDiscard "approval-1"]) by (repeat constructor).
  exact (proj2 (proj2 (cancelled_broker_closed (ask_approval [OpResolve "approval-1" ApprovedForSession]).1.2 "stop"
    [OpResolve "approval-1" Approved; OpDiscard "approval-1"] Hops)) "echo").
Defined.
