(* ===== verification/Cancellation.v ===== *)
(** * Cancellation tokens

    [runtime/cancellation.rs]: a token is cancelled once, with a reason, and
    then calls back whoever registered with it; a child of a token registers
    its own cancellation.

    Tokens are shared, so they live in a heap and a token is an index.  A
    callback of the host is a name, and calling it is an effect; a panic of it
    is caught.  The callbacks a cancellation still has to run are a list, a
    child's callbacks in front of those of its parent that come later, which
    is the order of the nested calls.  The scopes are the stack of one
    thread. *)

From Stdlib Require Import Ascii String NArith ZArith Lia.
From stdpp Require Import base strings list sets.
From S2P Require Import Prelude.

(** ** Tokens *)

Inductive Callback :=
| HostCallback (name : nat)
| ChildCallback (child : nat).
Record CancellationState := {
  cx_cancelled : bool;
  cx_reason : option string;
  cx_callbacks : list Callback
}.
Definition token_default : CancellationState := {| cx_cancelled := false; cx_reason := None; cx_callbacks := [] |}.

Definition default_reason : string := "Operation was cancelled".
Definition normal_reason (reason : string) : string := if trim_is_empty reason then default_reason else reason.
Definition cancelled_state (reason : string) : CancellationState :=
  {| cx_cancelled := true; cx_reason := Some reason; cx_callbacks := [] |}.
Definition is_cancelled (h : list CancellationState) (token : nat) : bool :=
  match h !! token with Some st => cx_cancelled st | None => false end.
Definition reason (h : list CancellationState) (token : nat) : option string := h !! token ≫= cx_reason.
Definition check (h : list CancellationState) (token : nat) : result unit :=
  if is_cancelled h token then Err (unwrap_or (reason h token) default_reason) else Ok tt.

(** The callbacks to run, each with the reason of the token it was registered
    with; [None] when the fuel is over. *)
Fixpoint run_callbacks (fuel : nat) (work : list (Callback * string)) (h : list CancellationState) : option (list CancellationState * list nat) :=
  match work, fuel with
  | [], _ => Some (h, [])
  | _, O => None
  | (HostCallback name, _) :: rest, S fuel =>
      x ← run_callbacks fuel rest h; Some (x.1, name :: x.2)
  | (ChildCallback child, r) :: rest, S fuel =>
      match h !! child with
      | Some st =>
          if cx_cancelled st then run_callbacks fuel rest h
          else run_callbacks fuel (map (fun c => (c, normal_reason r)) (cx_callbacks st) ++ rest)
                 (<[child := cancelled_state (normal_reason r)]> h)
      | None => run_callbacks fuel rest h
      end
  end.
(** A bound on the callbacks that can run. *)
Definition heap_callbacks (h : list CancellationState) : nat := foldr (fun st n => length (cx_callbacks st) + n) 0 h.
Definition cancel_with_reason (h : list CancellationState) (token : nat) (r : string) : option (list CancellationState * list nat) :=
  run_callbacks (S (heap_callbacks h)) [(ChildCallback token, r)] h.
Definition cancel (h : list CancellationState) (token : nat) : option (list CancellationState * list nat) := cancel_with_reason h token default_reason.
Definition on_cancel (h : list CancellationState) (token : nat) (callback : Callback) : option (list CancellationState * list nat) :=
  match h !! token with
  | None => None
  | Some st =>
      if cx_cancelled st
      then run_callbacks (S (heap_callbacks h)) [(callback, unwrap_or (cx_reason st) default_reason)] h
      else Some (<[token := {| cx_cancelled := false; cx_reason := cx_reason st;
                               cx_callbacks := cx_callbacks st ++ [callback] |}]> h, [])
  end.
Definition child (h : list CancellationState) (token : nat) : option (nat * list CancellationState) :=
  x ← on_cancel (h ++ [token_default]) token (ChildCallback (length h));
  Some (length h, x.1).

(** *** Scopes *)

Definition enter_scope (scopes : list nat) (token : option nat) : list nat * bool :=
  match token with Some token => (scopes ++ [token], true) | None => (scopes, false) end.
Definition drop_scope (scopes : list nat) (active : bool) : list nat :=
  if active then take (length scopes - 1) scopes else scopes.
Definition child_of_current (scopes : list nat) (h : list CancellationState) : option (nat * list CancellationState) :=
  token ← last scopes; child h token.

(** ** Propagation *)

(** The tokens a cancellation reaches. *)
Inductive Under (h : list CancellationState) : nat -> nat -> Prop :=
| under_self token : Under h token token
| under_child token parent st c :
    Under h token parent -> h !! parent = Some st -> cx_cancelled st = false ->
    ChildCallback c ∈ cx_callbacks st -> Under h token c.
Definition host_callbacks (st : CancellationState) : list nat :=
  omap (fun c => match c with HostCallback name => Some name | ChildCallback _ => None end) (cx_callbacks st).
Lemma heap_insert h i st st' :
  h !! i = Some st ->
  heap_callbacks (<[i := st']> h) + length (cx_callbacks st) = heap_callbacks h + length (cx_callbacks st').
Proof.
  unfold heap_callbacks. revert i. induction h as [|x h IH]; intros [|i] Hi; [done|done|injection Hi as ->; cbn; lia|].
  change (<[S i := st']> (x :: h)) with (x :: <[i := st']> h). cbn in Hi. specialize (IH _ Hi). cbn [foldr]. rewrite <- !Nat.add_assoc. by f_equal.
Qed.
(** The fuel is enough. *)
Lemma run_callbacks_total fuel : forall work h,
  length work + heap_callbacks h <= fuel -> is_Some (run_callbacks fuel work h).
Proof.
  induction fuel as [|fuel IH]; intros work h Hf; destruct work as [|[[name|c] r] rest]; cbn [run_callbacks];
    cbn [length] in Hf; try (by eexists); try lia.
  - destruct (IH rest h) as [x Hx]; [lia|]. rewrite Hx. by eexists.
  - destruct (h !! c) as [st|] eqn:Hc; [|apply IH; lia]. destruct (cx_cancelled st); [apply IH; lia|].
    apply IH. rewrite length_app, length_map. pose proof (heap_insert _ _ _ (cancelled_state (normal_reason r)) Hc) as Hi.
    cbn [cancelled_state cx_callbacks length] in Hi. lia.
Qed.

Lemma normal_idem r : normal_reason (normal_reason r) = normal_reason r.
Proof. unfold normal_reason at 2 3. destruct (trim_is_empty r) eqn:Hr; [done|]. unfold normal_reason. by rewrite Hr. Qed.
(** The callbacks of the tokens cancelled between two heaps. *)
Definition fired (h h' : list CancellationState) : list nat :=
  concat (zip_with (fun st st' => if cx_cancelled st' && negb (cx_cancelled st) then host_callbacks st else []) h h').
Definition hosts (work : list (Callback * string)) : list nat :=
  omap (fun x => match x.1 with HostCallback name => Some name | ChildCallback _ => None end) work.
Lemma fired_refl h : fired h h = [].
Proof. unfold fired. induction h as [|st h IH]; [done|]. cbn. by destruct (cx_cancelled st). Qed.
Lemma fired_insert h : forall h' i st r,
  h !! i = Some st -> cx_cancelled st = false -> length h' = length h -> is_cancelled h' i = true ->
  fired h h' ≡ₚ host_callbacks st ++ fired (<[i := cancelled_state r]> h) h'.
Proof.
  unfold fired, is_cancelled. induction h as [|x h IH]; intros [|x' h'] [|i] st r Hi Hc Hl Hx; try done.
  - injection Hi as ->. cbn in Hx |- *. by rewrite Hc, Hx.
  - change (<[S i := cancelled_state r]> (x :: h)) with (x :: <[i := cancelled_state r]> h). cbn in Hi, Hx.
    cbn [zip_with concat].
    rewrite (IH h' i st r Hi Hc (eq_add_S _ _ Hl) Hx). rewrite !app_assoc. f_equiv. apply Permutation_app_comm.
Qed.
Lemma hosts_app a b : hosts (a ++ b) = hosts a ++ hosts b.
Proof. apply omap_app. Qed.
Lemma hosts_callbacks st r : hosts (map (fun c => (c, r)) (cx_callbacks st)) = host_callbacks st.
Proof. unfold hosts, host_callbacks. induction (cx_callbacks st) as [|[n|c] l IH]; [done|..]; cbn; by rewrite IH. Qed.
Lemma under_insert h i st r a b :
  h !! i = Some st -> Under (<[i := cancelled_state r]> h) a b -> Under h a b.
Proof.
  intros Hi. induction 1 as [token|token parent st' c _ IH Hp Hlive Hin]; [constructor|].
  apply list_lookup_insert_Some in Hp as [(_ & <- & _)|[_ Hp]]; [done|]. by eapply under_child.
Qed.

Lemma under_trans h a b c : Under h a b -> Under h b c -> Under h a c.
Proof. intros Hab Hbc. induction Hbc as [|? ? ? ? _ IH]; [done|]. eapply under_child; [by apply IH|done..]. Qed.

(** What running callbacks does. *)
Record Propagated (work : list (Callback * string)) (r : string) (h h' : list CancellationState) (log : list nat) : Prop := {
  pg_length : length h' = length h;
  pg_each i st : h !! i = Some st -> h' !! i = Some st \/
    (cx_cancelled st = false /\ h' !! i = Some (cancelled_state r) /\
     exists root x, (ChildCallback root, x) ∈ work /\ Under h root i);
  pg_roots root x : (ChildCallback root, x) ∈ work -> root < length h -> is_cancelled h' root = true;
  pg_children i st c : h !! i = Some st -> cx_cancelled st = false -> is_cancelled h' i = true ->
    ChildCallback c ∈ cx_callbacks st -> c < length h -> is_cancelled h' c = true;
  pg_log : log ≡ₚ hosts work ++ fired h h'
}.
Lemma is_cancelled_insert h i st r j :
  h !! i = Some st -> is_cancelled h j = true -> is_cancelled (<[i := cancelled_state r]> h) j = true.
Proof.
  intros Hi Hj. unfold is_cancelled in *. destruct (decide (i = j)) as [->|Hne].
  - rewrite list_lookup_insert_eq; [done|]. by eapply lookup_lt_Some.
  - by rewrite list_lookup_insert_ne.
Qed.
Lemma each_cancelled work r h h' log i :
  Propagated work r h h' log -> is_cancelled h i = true -> is_cancelled h' i = true.
Proof.
  unfold is_cancelled. intros Hp Hi. destruct (h !! i) as [st|] eqn:Hst; [|done].
  destruct (pg_each _ _ _ _ _ Hp _ _ Hst) as [->|(_ & -> & _)]; done.
Qed.
Lemma propagated_skip work rest r h h' log :
  Propagated rest r h h' log -> (forall x, x ∈ rest -> x ∈ work) -> hosts work = hosts rest ->
  (forall root x, (ChildCallback root, x) ∈ work -> (ChildCallback root, x) ∈ rest \/
     (root < length h -> is_cancelled h root = true)) ->
  Propagated work r h h' log.
Proof.
  intros Hp Hsub Hhosts Hroots. split.
  - apply Hp.
  - intros i st Hi. destruct (pg_each _ _ _ _ _ Hp i st Hi) as [?|(Hc & Hi' & root & x & Hin & Hu)]; [by left|].
    right. split_and!; [done|done|]. exists root, x. split; [by apply Hsub|done].
  - intros root x Hin Hlt. destruct (Hroots _ _ Hin) as [Hr|Hr]; [by eapply pg_roots|].
    eapply each_cancelled; [exact Hp|by apply Hr].
  - apply Hp.
  - rewrite Hhosts. apply Hp.
Qed.
(** A token is cancelled, and its callbacks come next. *)
Lemma propagated_child c x rest r h st h' log :
  h !! c = Some st -> cx_cancelled st = false ->
  Propagated (map (fun cb => (cb, r)) (cx_callbacks st) ++ rest) r (<[c := cancelled_state r]> h) h' log ->
  Propagated ((ChildCallback c, x) :: rest) r h h' log.
Proof.
  intros Hc Hlive Hp. pose proof (lookup_lt_Some _ _ _ Hc) as Hlt.
  assert (Hlen : length h' = length h) by (by rewrite (pg_length _ _ _ _ _ Hp), length_insert).
  assert (Hself : is_cancelled h' c = true).
  { eapply each_cancelled; [exact Hp|]. unfold is_cancelled. by rewrite list_lookup_insert_eq. }
  assert (Hroot : forall d y, (ChildCallback d, y) ∈ map (fun cb => (cb, r)) (cx_callbacks st) ++ rest ->
                  ChildCallback d ∈ cx_callbacks st \/ (ChildCallback d, y) ∈ rest).
  { intros d y [Hin|Hin]%elem_of_app; [|by right]. apply list_elem_of_fmap in Hin as (cb & [= <- _] & Hin). by left. }
  split; [done| | | |].
  - intros i st0 Hi. destruct (decide (i = c)) as [->|Hne].
    + assert (st0 = st) as -> by congruence. right. split_and!; [done| |exists c, x; split; [left|constructor]].
      destruct (pg_each _ _ _ _ _ Hp c (cancelled_state r)) as [?|(? & _)]; [by apply list_lookup_insert_eq|done|done].
    + destruct (pg_each _ _ _ _ _ Hp i st0) as [?|(Hl & Hi' & d & y & Hin & Hu)];
        [by rewrite list_lookup_insert_ne|by left|]. right. split_and!; [done|done|].
      apply (under_insert _ _ _ _ _ _ Hc) in Hu. destruct (Hroot _ _ Hin) as [Hd|Hd]; [|exists d, y; split; [by right|done]].
      exists c, x. split; [left|]. eapply under_trans; [|exact Hu]. by eapply under_child; [constructor|..].
  - intros root y [[= -> _]|Hin]%elem_of_cons Hr; [done|].
    eapply pg_roots; [exact Hp|apply elem_of_app; by right|by rewrite length_insert].
  - intros i st0 d Hi Hl Hi' Hin Hd. destruct (decide (i = c)) as [->|Hne].
    + assert (st0 = st) as -> by congruence. eapply (pg_roots _ _ _ _ _ Hp d r); [|by rewrite length_insert].
      apply elem_of_app. left. by apply (list_elem_of_fmap_2 (fun cb => (cb, r))) in Hin.
    + eapply (pg_children _ _ _ _ _ Hp i st0 d); [by rewrite list_lookup_insert_ne|done|done|done|by rewrite length_insert].
  - rewrite (pg_log _ _ _ _ _ Hp), hosts_app, hosts_callbacks. cbn [hosts omap list_omap fst].
    rewrite (fired_insert h h' c st r Hc Hlive Hlen Hself). fold (hosts rest).
    rewrite !app_assoc. f_equiv. apply Permutation_app_comm.
Qed.
Lemma run_callbacks_spec fuel : forall work h h' log r,
  run_callbacks fuel work h = Some (h', log) -> Forall (fun x => normal_reason x.2 = r) work ->
  Propagated work r h h' log.
Proof.
  induction fuel as [|fuel IH]; intros work h h' log r Hr Hw; destruct work as [|[[name|c] x] rest];
    cbn [run_callbacks] in Hr; try done.
  1,2: injection Hr as <- <-; split; [done|by left|by intros ? ? ?%elem_of_nil| |by rewrite fired_refl];
    intros i st c Hi Hl Hc; unfold is_cancelled in Hc; rewrite Hi in Hc; congruence.
  - apply bind_Some in Hr as ([h1 log1] & Hr & [= <- <-]). apply Forall_cons in Hw as [_ Hw].
    specialize (IH _ _ _ _ _ Hr Hw). destruct IH as [H1 H2 H3 H4 H5]. split; [done| | |done|].
    + intros i st Hi. destruct (H2 i st Hi) as [?|(Hc & Hi' & root & y & Hin & Hu)]; [by left|]. right.
      split_and!; [done|done|]. exists root, y. split; [by right|done].
    + intros root y [[=]|Hin]%elem_of_cons. by apply (H3 root y).
    + cbn [hosts omap list_omap fst]. cbn [app]. by apply perm_skip.
  - apply Forall_cons in Hw as [Hx Hw]. cbn [snd] in Hx. destruct (h !! c) as [st|] eqn:Hc.
    2: { eapply propagated_skip; [by eapply IH|by right|done|].
         intros root y [[= -> _]|Hin]%elem_of_cons; [|by left]. right. intros Hlt%lookup_lt_is_Some. rewrite Hc in Hlt. by destruct Hlt. }
    destruct (cx_cancelled st) eqn:Hl.
    + eapply propagated_skip; [by eapply IH|by right|done|].
      intros root y [[= -> _]|Hin]%elem_of_cons; [|by left]. right. intros _. unfold is_cancelled. by rewrite Hc.
    + rewrite Hx in Hr. eapply propagated_child; [exact Hc|done|]. apply (IH _ _ _ _ _ Hr).
      apply Forall_app. split; [|done]. apply Forall_forall. intros y Hy.
      apply list_elem_of_fmap in Hy as (cb & -> & _). cbn. rewrite <- Hx. apply normal_idem.
Qed.

(** A child is a token of the heap. *)
Definition heap_ok (h : list CancellationState) : Prop :=
  forall i st c, h !! i = Some st -> ChildCallback c ∈ cx_callbacks st -> c < length h.
Lemma run_callbacks_ok fuel work h h' log r :
  run_callbacks fuel work h = Some (h', log) -> Forall (fun x => normal_reason x.2 = r) work -> heap_ok h -> heap_ok h'.
Proof.
  intros Hrun Hw Hok i st c Hi Hin. pose proof (run_callbacks_spec _ _ _ _ _ _ Hrun Hw) as Hp.
  rewrite (pg_length _ _ _ _ _ Hp). pose proof (lookup_lt_Some _ _ _ Hi) as Hlt. rewrite (pg_length _ _ _ _ _ Hp) in Hlt.
  apply lookup_lt_is_Some in Hlt as [st0 Hst0].
  destruct (pg_each _ _ _ _ _ Hp _ _ Hst0) as [Hsame|(_ & Hnew & _)].
  - rewrite Hsame in Hi. injection Hi as <-. by eapply Hok.
  - rewrite Hnew in Hi. injection Hi as <-. by apply elem_of_nil in Hin.
Qed.
Lemma on_cancel_ok h token callback h' log :
  on_cancel h token callback = Some (h', log) -> heap_ok h ->
  (forall c, callback = ChildCallback c -> c < length h) -> heap_ok h'.
Proof.
  unfold on_cancel. intros Hc Hok Hcb. destruct (h !! token) as [st|] eqn:Hst; [|done].
  destruct (cx_cancelled st).
  - eapply run_callbacks_ok; [exact Hc|constructor; [done|constructor]|done].
  - injection Hc as <- _. intros i st' c. rewrite length_insert.
    intros [(_ & <- & _)|[_ Hi]]%list_lookup_insert_Some; [|by apply (Hok i st' c)].
    intros [Hin|Hin%list_elem_of_singleton]%elem_of_app; [by eapply Hok|by apply Hcb].
Qed.
Lemma child_ok h token c h' : child h token = Some (c, h') -> heap_ok h -> heap_ok h'.
Proof.
  unfold child. intros Hc Hok. apply bind_Some in Hc as ([h1 log] & Hc & [= _ <-]).
  eapply on_cancel_ok; [exact Hc| |intros c0 [= <-]; rewrite length_app; cbn; lia].
  intros i st c0 Hi Hin. rewrite length_app. cbn.
  apply lookup_app_Some in Hi as [Hi|[_ Hi]]; [pose proof (Hok _ _ _ Hi Hin); lia|].
  apply list_lookup_singleton_Some in Hi as [_ <-]. by apply elem_of_nil in Hin.
Qed.

(** (C28) Cancelling a token cancels all that is under it and nothing else.
    The cancellation ends; every live token it reaches through live parents
    is cancelled with the given reason, every other token stays as it was,
    also the parent; a token that was cancelled keeps its reason; and the
    host's callbacks of exactly the tokens that are cancelled now run, each
    once. *)
Theorem cancellation_propagates h token r :
  heap_ok h -> token < length h ->
  exists h' log, cancel_with_reason h token r = Some (h', log) /\ length h' = length h /\
    (forall i st, h !! i = Some st ->
       (cx_cancelled st = false -> Under h token i -> h' !! i = Some (cancelled_state (normal_reason r))) /\
       (cx_cancelled st = true \/ ~ Under h token i -> h' !! i = Some st)) /\
    log ≡ₚ fired h h'.
Proof.
  intros Hwf Ht. unfold cancel_with_reason.
  destruct (run_callbacks_total (S (heap_callbacks h)) [(ChildCallback token, r)] h) as [[h' log] Hrun]; [cbn; lia|].
  assert (Hwork : Forall (fun x : Callback * string => normal_reason x.2 = normal_reason r) [(ChildCallback token, r)])
    by (constructor; [done|constructor]).
  pose proof (run_callbacks_spec _ _ _ _ _ _ Hrun Hwork) as [Hlen Heach Hroots Hchildren Hlog].
  exists h', log. split_and!; [done|done| |done].
  assert (Hunder : forall i st, Under h token i -> h !! i = Some st -> is_cancelled h' i = true).
  { intros i st Hu. revert st. induction Hu as [token|token parent stp c Hu IH Hp Hl Hin]; intros st Hst.
    - eapply (Hroots token r); [left|done].
    - eapply (Hchildren parent stp c); [done|done|by eapply IH|done|exact (Hwf _ _ _ Hp Hin)]. }
  intros i st Hi. destruct (Heach i st Hi) as [Hsame|(Hl & Hnew & root & x & Hin%list_elem_of_singleton & Hu)].
  - split; [|done]. intros Hl Hu. specialize (Hunder _ _ Hu Hi). unfold is_cancelled in Hunder. rewrite Hsame in Hunder. congruence.
  - injection Hin as -> ->. split; [done|]. intros [Hc|Hn]; [congruence|done].
Qed.

(** ** Examples *)

(** A token with a child and a grandchild, each with a callback. *)
Definition sample_heap : list CancellationState :=
  unwrap_or (
    x ← on_cancel [token_default] 0 (HostCallback 10);
    y ← child x.1 0; x ← on_cancel y.2 y.1 (HostCallback 11);
    y ← child x.1 y.1; x ← on_cancel y.2 y.1 (HostCallback 12); Some x.1) [].
Example cancellation_runs :
  (fun x => (map cx_cancelled x.1, map cx_reason x.1, x.2)) <$> cancel_with_reason sample_heap 1 " "
  = Some ([false; true; true], [None; Some default_reason; Some default_reason], [11; 12]) /\
  (fun x => x.2) <$> cancel sample_heap 0 = Some [10; 11; 12].
Proof. vm_compute. split; reflexivity. Qed.
Lemma sample_heap_ok : heap_ok sample_heap.
Proof.
  intros i st c Hi Hin. assert (Hall : forallb (fun st => forallb (fun cb => match cb with
    | ChildCallback c => (c <? length sample_heap)%nat | HostCallback _ => true end) (cx_callbacks st)) sample_heap = true)
    by (vm_compute; reflexivity).
  rewrite List.forallb_forall in Hall. specialize (Hall st). rewrite List.forallb_forall in Hall.
  apply Nat.ltb_lt. apply (Hall ltac:(by apply list_elem_of_In; eapply list_elem_of_lookup_2)
    (ChildCallback c) ltac:(by apply list_elem_of_In)).
Qed.
Lemma cancellation_propagates_witness :
  exists h' log, cancel_with_reason sample_heap 1 "stop" = Some (h', log) /\ length h' = 3.
Proof.
  assert (Ht : 1 < length sample_heap) by (vm_compute; lia).
  destruct (cancellation_propagates sample_heap 1 "stop" sample_heap_ok Ht) as (h' & log & Hc & Hl & _).
  exists h', log. split; [exact Hc|exact Hl].
Defined.
