(* ===== verification/Transitions.v ===== *)
(** * Checkpoint transitions

    [runtime/state/transitions.rs]: the pure functions every store applies
    inside its compare-and-set.  Each takes the stored checkpoint, the caller's
    snapshot and the caller's expectations, and answers [None] (the caller
    lost the race), an error, or the checkpoint to store next. *)

From Stdlib Require Import Ascii String NArith Sorted Lia.
From stdpp Require Import base strings list sets relations.
From S2P Require Import Prelude Json Canonical CheckpointTypes ToolResult Journal TokenUsage.
From S2P Require Import Budget BudgetWire Records ResultCodec Events HostInteraction Checkpoint Deferred.

Definition claim_invalid : string := "checkpoint_claim_invalid".

(** ** Claims *)

Definition claim_candidate (c : Checkpoint) (cycle_index now_ms : N) (mode : ClaimMode)
    : result bool :=
  fail_if (cycle_index =? 0)%N || (MAX_WIRE_INTEGER <? cycle_index)%N with claim_invalid ;;
  fail_if (MAX_WIRE_INTEGER <? now_ms)%N with claim_invalid ;;
  if is_some (cp_terminal_result c) || is_terminal (cp_status c) then Ok false
  else if negb (match cp_status c with RunningS | ReconciliationRequiredS => true | _ => false end)
  then Ok false
  else if checked_add (cp_cycle_index c) 1 <>?? Some cycle_index then Ok false
  else if ((cp_status c =?? ReconciliationRequiredS) || has_ambiguous_operation c)
          && (mode <>?? Recovery) then Ok false
  else match cp_lease_expires_at_ms c with
       | Some expiry =>
           if (now_ms <? expiry)%N then Ok false
           else if mode <>?? Recovery then Ok false
           else Ok true
       | None => Ok true
       end.

Definition revision_overflow : string := "checkpoint_revision_overflow".

Definition apply_claim (c : Checkpoint) (cycle_index : N) (claim_token : string) (lease : N)
    (mode : ClaimMode) : result Checkpoint :=
  fail_if trim_is_empty claim_token || (MAX_WIRE_INTEGER <? lease)%N with claim_invalid ;;
  let? revision := ok_or (checked_add (cp_revision c) 1) revision_overflow in
  let c := set_revision c revision in
  let? c := (if mode =?? Recovery then
               let? attempt := ok_or (checked_add (cp_resume_attempt c) 1)
                                     "checkpoint_resume_attempt_invalid" in
               Ok (set_resume_attempt c attempt)
             else Ok c) in
  Ok (set_claim (set_status c RunningS) (Some claim_token) (Some cycle_index) (Some lease)).

(** [slice::get(..n)]. *)
Definition get_prefix {A} (n : nat) (l : list A) : option (list A) :=
  if (n <=? length l)%nat then Some (take n l) else None.

Fixpoint take_while {A} (f : A -> bool) (l : list A) : list A :=
  match l with
  | [] => []
  | x :: r => if f x then x :: take_while f r else []
  end.

Definition committed_count (c : Checkpoint) : nat :=
  length (take_while (fun cycle => (cr_index cycle <=? cp_cycle_index c)%N) (cp_cycles c)).

Definition checkpoint_definition_matches (current snapshot : Checkpoint) : bool :=
  let committed := committed_count current in
  let active := checked_add (cp_cycle_index current) 1 in
  String.eqb (cp_schema_version current) (cp_schema_version snapshot)
  && String.eqb (cp_run_definition_schema current) (cp_run_definition_schema snapshot)
  && String.eqb (cp_checkpoint_key current) (cp_checkpoint_key snapshot)
  && String.eqb (cp_task_id current) (cp_task_id snapshot)
  && String.eqb (cp_root_run_id current) (cp_root_run_id snapshot)
  && String.eqb (cp_trace_id current) (cp_trace_id snapshot)
  && String.eqb (cp_run_definition_digest current) (cp_run_definition_digest snapshot)
  && value_eqb (cp_run_definition current) (cp_run_definition snapshot)
  && (cp_resume_attempt current =? cp_resume_attempt snapshot)%N
  && Bool.eqb (cp_terminal_acknowledged current) (cp_terminal_acknowledged snapshot)
  && (cp_history current =?? cp_history snapshot)
  && (get_prefix (length (cp_model_calls current)) (cp_model_calls snapshot)
      =?? Some (cp_model_calls current))
  && forallb (fun record => Some (mc_cycle_index record) =?? active)
       (drop (length (cp_model_calls current)) (cp_model_calls snapshot))
  && (get_prefix committed (cp_cycles snapshot) =?? Some (take committed (cp_cycles current)))
  && forallb (fun cycle => Some (cr_index cycle) =?? active)
       (drop committed (cp_cycles snapshot)).

Definition claim_matches (current snapshot : Checkpoint) (claim_token : string)
    (expected_revision : N) : bool :=
  (cp_revision current =? expected_revision)%N
  && (cp_revision snapshot =? expected_revision)%N
  && opt_is (cp_claim_token current) claim_token
  && (cp_claimed_cycle current =?? cp_claimed_cycle snapshot)
  && String.eqb (cp_checkpoint_key current) (cp_checkpoint_key snapshot)
  && is_none (cp_terminal_result current)
  && checkpoint_definition_matches current snapshot.

(** ** Progress, receipts, suspension, commit *)

Section Transitions.
Context `{Env} (clock : string -> Number).

(** The outbox and the cursor of the stored checkpoint are authoritative: the
    caller may only add events, and a cancellation request is never lost. *)
Definition merge_authoritative_fields (current snapshot : Checkpoint) : result Checkpoint :=
  let snapshot := set_cancel_requested snapshot
                    (cp_cancel_requested snapshot || cp_cancel_requested current) in
  let? event_outbox := try_fold append_event_outbox_once (cp_event_outbox current)
                         (cp_event_outbox snapshot) in
  Ok (set_event_cursor (set_event_outbox snapshot event_outbox) (cp_event_cursor current)).

(** Every transition ends in the same way: the revision the caller expected
    plus one, and a valid checkpoint. *)
Definition seal (snapshot : Checkpoint) (expected_revision : N) : result Checkpoint :=
  let? revision := ok_or (checked_add expected_revision 1) revision_overflow in
  let snapshot := set_revision snapshot revision in
  do? validate_checkpoint snapshot ;;
  Ok snapshot.

Definition prepare_progress (current snapshot : Checkpoint) (claim_token : string)
    (expected_revision : N) : result (option Checkpoint) :=
  if negb (claim_matches current snapshot claim_token expected_revision) then Ok None
  else
    let snapshot := set_claim snapshot (cp_claim_token current) (cp_claimed_cycle current)
                      (cp_lease_expires_at_ms current) in
    let? snapshot := merge_authoritative_fields current snapshot in
    let? snapshot := seal snapshot expected_revision in
    Ok (Some snapshot).

Definition unknown_tool_observation (e : OperationJournalEntry) : ResumeObservation :=
  {| obs_operation_id := j_operation_id e; obs_operation_kind := Tool;
     obs_cycle_index := j_cycle_index e; obs_state := Ambiguous;
     obs_risk := "unknown_tool_side_effect"; obs_idempotency_support := j_idempotency_support e |}.

Definition receipt_target (operation_id : string) (attempt : N) (tool_call_id request_digest : string)
    (claimed_cycle : N) (e : OperationJournalEntry) : bool :=
  String.eqb (j_operation_id e) operation_id && (j_attempt e =? attempt)%N
  && opt_is (j_tool_call_id e) tool_call_id
  && String.eqb (j_request_digest e) request_digest && (j_cycle_index e =? claimed_cycle)%N.

(** The observation an unknown outcome is recorded with: the caller's snapshot
    must carry it on the same, ambiguous, operation. *)
Definition receipt_observation (e : OperationJournalEntry) (source : option OperationJournalEntry)
    (r : ToolExecutionResult) : result (option ResumeObservation) :=
  if opt_is (tr_error_code r) "tool_outcome_unknown" then
    let expected := unknown_tool_observation e in
    fail_if (source ≫= j_resume_observation) <>?? Some expected
    with "checkpoint_journal_integrity_mismatch" ;;
    Ok (Some expected)
  else Ok None.

(** The assignments to the entry; the last branch is [unreachable!] in the
    source, [validate_definitive_result] having refused every other status. *)
Definition receipt_entry (identity_key result_digest : string) (r : ToolExecutionResult)
    (observation : option ResumeObservation) (e : OperationJournalEntry)
    : result OperationJournalEntry :=
  match tr_status r with
  | Success => Ok (set_receipt Succeeded (Some identity_key) (Some result_digest)
                     (Some (to_dict r)) None None observation e)
  | Error => Ok (set_receipt Failed (Some identity_key) (Some result_digest)
                   (Some (to_dict r)) (Some (operation_error_from_tool_result r)) None observation e)
  | _ => Err "unreachable"
  end.

Definition prepare_tool_receipt (current checkpoint : Checkpoint) (operation_id : string)
    (attempt : N) (tool_call_id request_digest : string) (r : ToolExecutionResult)
    (claim_token : string) (expected_revision claimed_cycle : N) : result (option Checkpoint) :=
  fail_if trim_is_empty claim_token || is_none (cp_claim_token current)
          || is_none (cp_claim_token checkpoint)
  with "checkpoint_claim_required" ;;
  fail_if negb (opt_is (cp_claim_token current) claim_token)
          || negb (opt_is (cp_claim_token checkpoint) claim_token)
          || negb (is_some_and (cp_claimed_cycle current) (N.eqb claimed_cycle))
          || negb (is_some_and (cp_claimed_cycle checkpoint) (N.eqb claimed_cycle))
  with "checkpoint_claim_conflict" ;;
  fail_if negb (cp_revision current =? expected_revision)%N
          || negb (cp_revision checkpoint =? expected_revision)%N
  with "checkpoint_revision_conflict" ;;
  if (cp_status current <>?? RunningS) || is_some (cp_terminal_result current)
     || negb (checkpoint_definition_matches current checkpoint) then Ok None
  else
    let target := receipt_target operation_id attempt tool_call_id request_digest claimed_cycle in
    match position (fun e => target e && ((j_state e =?? Started) || (j_state e =?? Ambiguous)))
                   (cp_tool_journal current) with
    | None => Ok None
    | Some index =>
        do? validate_definitive_result r ;;
        let? identity_key := tool_receipt_identity_key (cp_checkpoint_key current) operation_id
                               attempt tool_call_id request_digest in
        let? result_digest := tool_result_digest r in
        let? e := ok_or (cp_tool_journal current !! index) "unreachable" in
        let source := List.find (fun s => (j_kind s =?? j_kind e) && target s
                                          && (j_state s =?? Ambiguous))
                        (cp_tool_journal checkpoint) in
        let? observation := receipt_observation e source r in
        let? e := receipt_entry identity_key result_digest r observation e in
        let updated := set_tool_journal current (<[index := e]> (cp_tool_journal current)) in
        do? entry_validate e ;;
        let? event := receipt_event clock updated e r in
        let? event_outbox := try_fold append_event_outbox_once (cp_event_outbox updated ++ [event])
                               (cp_event_outbox checkpoint) in
        let updated := set_event_outbox updated event_outbox in
        let? updated := seal updated expected_revision in
        Ok (Some updated)
    end.

Definition prepare_suspend (current snapshot : Checkpoint) (claim_token : string)
    (expected_revision : N) : result (option Checkpoint) :=
  if negb (claim_matches current snapshot claim_token expected_revision)
     || negb (has_ambiguous_operation snapshot) then Ok None
  else
    let? snapshot := merge_authoritative_fields current snapshot in
    let snapshot := release_claim (set_status snapshot ReconciliationRequiredS) in
    let? snapshot := seal snapshot expected_revision in
    Ok (Some snapshot).

Definition unresolved (s : OperationState) : bool :=
  match s with Started | Deferred | Ambiguous => true | _ => false end.

Definition is_pending (e : EventOutboxEntry) : bool := String.eqb (ob_state e) "pending".

Definition prepare_commit (current snapshot : Checkpoint) (claim_token : string)
    (expected_revision : N) : result (option Checkpoint) :=
  if negb (claim_matches current snapshot claim_token expected_revision) then Ok None
  else
    fail_if cp_cancel_requested current || cp_cancel_requested snapshot
    with "checkpoint_cycle_cancel_requested" ;;
    match cp_claimed_cycle current with
    | None => Ok None
    | Some claimed_cycle =>
        if negb (cp_cycle_index snapshot =? claimed_cycle)%N then Ok None
        else
          fail_if existsb (fun e => unresolved (j_state e)) (journals snapshot)
          with "checkpoint_cycle_unresolved" ;;
          do? validate_model_journal_accounting snapshot ;;
          let snapshot := set_event_outbox snapshot
                            (List.filter is_pending (cp_event_outbox snapshot)) in
          let snapshot := set_tool_journal (set_model_call_journal snapshot []) [] in
          let snapshot := release_claim (set_cancel_requested snapshot false) in
          let? snapshot := seal snapshot expected_revision in
          Ok (Some snapshot)
    end.

(** ** Finalisation *)

Definition terminal_closure_reason (c : Checkpoint) : option string :=
  match terminal_error_code c with
  | None => None
  | Some code =>
      if String.eqb code "operator_abort_with_unknown_outcome" then Some "operator_abort"
      else if String.eqb code "cancelled" || String.eqb code "cancelled_with_unknown_outcome"
      then Some "cancelled"
      else if String.eqb code "checkpoint_lease_lost" || String.eqb code "lease_lost"
              || String.eqb code "lease_lost_with_unknown_outcome"
      then Some "lease_lost"
      else None
  end.

(** [(operation_id, kind rank, cycle_index)]. *)
Definition ObservationKey : Type := string * N * N.

Definition observation_kind_rank (k : OperationKind) : N :=
  match k with Model => 0 | Tool => 1 end.

Definition observation_key (v : Value) : option ObservationKey :=
  operation_id ← get_str v "operation_id";
  kind ← get_str v "operation_kind";
  operation_kind ← (if String.eqb kind "model" then Some 0%N
                    else if String.eqb kind "tool" then Some 1%N else None);
  cycle_index ← get_u64 v "cycle_index";
  Some (operation_id, operation_kind, cycle_index).

Definition key_le (a b : ObservationKey) : bool :=
  match String.compare a.1.1 b.1.1 with
  | Lt => true
  | Gt => false
  | Eq => (a.1.2 <? b.1.2)%N || ((a.1.2 =? b.1.2)%N && (a.2 <=? b.2)%N)
  end.
(** [Option]'s order: [None] first. *)
Definition opt_key_le (a b : option ObservationKey) : bool :=
  match a, b with
  | None, _ => true
  | Some _, None => false
  | Some x, Some y => key_le x y
  end.
Definition okey_eqb (a b : option ObservationKey) : bool :=
  match a, b with
  | None, None => true
  | Some x, Some y => String.eqb x.1.1 y.1.1 && (x.1.2 =? y.1.2)%N && (x.2 =? y.2)%N
  | _, _ => false
  end.

(** [Vec::dedup_by]: the first of a run of equals stays. *)
Fixpoint dedup_from (last : Value) (l : list Value) : list Value :=
  match l with
  | [] => []
  | x :: r => if okey_eqb (observation_key x) (observation_key last) then dedup_from last r
              else x :: dedup_from x r
  end.
Definition dedup (l : list Value) : list Value :=
  match l with [] => [] | x :: r => x :: dedup_from x r end.

Definition closure_error : OperationError :=
  {| oe_code := "tool_cancelled";
     oe_message := "Tool execution ended before a definitive receipt; external effect remains unknown.";
     oe_retryable := false |}.

(** One iteration over the tool journal: an open entry becomes a failed one
    that keeps no result and remembers that its effect is unknown. *)
Definition close_entry (checkpoint_key : string) (e : OperationJournalEntry)
    : result (OperationJournalEntry * option ResumeObservation) :=
  if negb (open_state (j_state e)) then Ok (e, None)
  else
    let observation := unknown_tool_observation e in
    let? identity := tool_receipt_identity_key checkpoint_key (j_operation_id e) (j_attempt e)
                       (unwrap_or (j_tool_call_id e) EmptyString) (j_request_digest e) in
    let e := set_receipt Failed (Some identity) None None (Some closure_error) None
               (Some observation) e in
    do? entry_validate e ;;
    Ok (e, Some observation).

Definition is_terminal_run_event (e : EventOutboxEntry) : bool :=
  let type := get_str (ob_event e) "type" in
  opt_is type "run_cancelled" || opt_is type "run_completed" || opt_is type "run_failed"
  || (opt_is type "run_state_changed"
      && is_some_and (get_str (ob_event e) "state") (fun s => negb (String.eqb s "running"))).

(** The event goes in front of the first terminal event of the run. *)
Definition append_event_once (c : Checkpoint) (event_id : string) (event : Value)
    : result Checkpoint :=
  let? entry := outbox_pending event_id event in
  let? appended := append_event_outbox_once (cp_event_outbox c) entry in
  if (length appended =? length (cp_event_outbox c))%nat then Ok (set_event_outbox c appended)
  else
    let rest := removelast appended in
    let entry := List.last appended entry in
    Ok (set_event_outbox c
          match position is_terminal_run_event rest with
          | Some index => take index rest ++ entry :: drop index rest
          | None => rest ++ [entry]
          end).

(** The event that tells the cycle was abandoned. *)
Definition stage_cycle_aborted (c : Checkpoint) (logical_cycle : N) (reason : string)
    : result Checkpoint :=
  let? event_cycle := ok_or (u32_try_from (saturating_sub logical_cycle 1))
                            "checkpoint_cycle_invalid" in
  let? event_id := event_id_stable ("evt_cycle_aborted_" +:+ reason) in
  let event := event_new event_id (cp_root_run_id c) (cp_trace_id c) (cp_task_id c)
                 (Some event_cycle) (clock event_id) (CycleAborted logical_cycle reason) in
  append_event_once c event_id (event_to_value event).

(** The observations of the result, with those of the closed operations
    replaced, sorted and without duplicates. *)
Definition closure_key (o : ResumeObservation) : option ObservationKey :=
  Some (obs_operation_id o, observation_kind_rank Tool, obs_cycle_index o).
Definition merge_observations (observations : list Value) (closures : list ResumeObservation)
    : list Value :=
  let closed_operation_ids := map closure_key closures in
  let retained := List.filter (fun o => is_none (observation_key o)
          || negb (existsb (okey_eqb (observation_key o)) closed_operation_ids)) observations in
  dedup (stable_sort (fun a b => opt_key_le (observation_key a) (observation_key b))
           (retained ++ map observation_to_value closures)).

Definition close_unresolved_tools (c : Checkpoint) (reason : string) : result Checkpoint :=
  let observations := unwrap_or (v ← cp_terminal_result c; o ← value_get v "resume_observations";
                                 as_array o) [] in
  (* [logical_cycle] is computed and bounded as [active_cycle] does it *)
  let? logical_cycle := active_cycle c in
  let? closed := collect (close_entry (cp_checkpoint_key c)) (cp_tool_journal c) in
  let closures := omap snd closed in
  let c := set_tool_journal c (map fst closed) in
  let? c := (if (0 <? length closures)%nat || (0 <? length observations)%nat
             then stage_cycle_aborted c logical_cycle reason else Ok c) in
  match cp_terminal_result c ≫= as_object with
  | None => Ok c
  | Some m =>
      Ok (set_terminal_result c (Some (Object
            (map_insert "resume_observations" (Array (merge_observations observations closures)) m))))
  end.

Definition kept_after_terminal (e : EventOutboxEntry) : bool :=
  let type := get_str (ob_event e) "type" in
  is_pending e || opt_is type "tool_call_completed" || opt_is type "run_state_changed"
  || opt_is type "run_cancelled" || opt_is type "run_failed" || opt_is type "cycle_aborted".

Definition prepare_terminal_snapshot (snapshot : Checkpoint) (expected_revision : N)
    : result Checkpoint :=
  fail_if is_none (cp_terminal_result snapshot) with "checkpoint_terminal_result_required" ;;
  fail_if negb (is_terminal (cp_status snapshot)) with status_invalid ;;
  let closure_reason := terminal_closure_reason snapshot in
  let? snapshot :=
    match closure_reason with
    | None => Ok snapshot
    | Some reason =>
        let snapshot := match cp_claimed_cycle snapshot with
                        | Some cycle => set_cycle_index snapshot (saturating_sub cycle 1)
                        | None => snapshot
                        end in
        let? snapshot := close_unresolved_tools snapshot reason in
        Ok (set_model_call_journal snapshot [])
    end in
  do? validate_model_journal_accounting snapshot ;;
  let snapshot := set_event_outbox snapshot
                    (List.filter kept_after_terminal (cp_event_outbox snapshot)) in
  let snapshot := if is_none closure_reason
                  then set_tool_journal (set_model_call_journal snapshot []) [] else snapshot in
  seal (release_claim snapshot) expected_revision.

Definition prepare_finalize (current snapshot : Checkpoint) (expected_revision : N)
    : result (option Checkpoint) :=
  if negb (cp_revision current =? expected_revision)%N
     || negb (cp_revision snapshot =? expected_revision)%N
     || negb (checkpoint_definition_matches current snapshot)
     || is_some (cp_claim_token current) || is_some (cp_terminal_result current) then Ok None
  else
    let? snapshot := merge_authoritative_fields current snapshot in
    let? snapshot := prepare_terminal_snapshot snapshot expected_revision in
    Ok (Some snapshot).

Definition prepare_finalize_claimed (current snapshot : Checkpoint) (claim_token : string)
    (expected_revision : N) : result (option Checkpoint) :=
  if negb (claim_matches current snapshot claim_token expected_revision) then Ok None
  else
    let? snapshot := merge_authoritative_fields current snapshot in
    let? snapshot := prepare_terminal_snapshot snapshot expected_revision in
    Ok (Some snapshot).

(** ** Delivery and acknowledgement *)

Definition deliver (e : EventOutboxEntry) (cursor : Value) : EventOutboxEntry :=
  {| ob_event_id := ob_event_id e; ob_payload_digest := ob_payload_digest e;
     ob_state := "delivered"; ob_event := ob_event e; ob_cursor := Some cursor |}.

(** [iter().enumerate().filter(..)]: the positions whose entry has the id. *)
Definition matching_indices (event_id : string) (outbox : list EventOutboxEntry) : list nat :=
  omap id (imap (fun i e => if String.eqb (ob_event_id e) event_id then Some i else None) outbox).

Definition prepare_event_delivery (current : Checkpoint) (claim_token : option string)
    (expected_revision : N) (event_id payload_digest : string) (cursor : EventCursor)
    : result (option Checkpoint) :=
  fail_if trim_is_empty event_id with "checkpoint_event_outbox_invalid" ;;
  do? validate_sha256 payload_digest ;;
  do? cursor_validate cursor ;;
  fail_if negb (opt_is (cur_last_event_id cursor) event_id)
  with "checkpoint_event_cursor_invalid" ;;
  if negb (cp_revision current =? expected_revision)%N || (cp_claim_token current <>?? claim_token)
  then Ok None
  else match matching_indices event_id (cp_event_outbox current) with
  | [index] =>
      let? e := ok_or (cp_event_outbox current !! index) "unreachable" in
      if negb (is_pending e) || negb (String.eqb (ob_payload_digest e) payload_digest) then Ok None
      else
        let snapshot := set_event_outbox current
              (<[index := deliver e (cursor_to_value cursor)]> (cp_event_outbox current)) in
        let? snapshot := seal (set_event_cursor snapshot (Some cursor)) expected_revision in
        Ok (Some snapshot)
  | _ => Ok None
  end.

Definition prepare_ack (current : Checkpoint) (expected_revision : N) : result (option Checkpoint) :=
  if negb (cp_revision current =? expected_revision)%N || is_none (cp_terminal_result current)
     || is_some (cp_claim_token current) || cp_terminal_acknowledged current then Ok None
  else
    let? snapshot := seal (set_terminal_acknowledged current true) expected_revision in
    Ok (Some snapshot).
End Transitions.

(** ** Lemmas *)

Section Lemmas.
Context `{Env} (clock : string -> Number).

Lemma seal_spec s r c' :
  seal s r = Ok c' -> c' = set_revision s (r + 1) /\ validate_checkpoint c' = Ok tt.
Proof.
  unfold seal. intros Hs. result_inv. apply checked_add_Some in Hdo as [-> _]. by unit_inv.
Qed.

Lemma get_prefix_Some {A} n (l k : list A) : get_prefix n l = Some k -> k `prefix_of` l.
Proof.
  unfold get_prefix. destruct (n <=? length l)%nat; [|done]. intros [= <-]. apply prefix_take.
Qed.

(** What the definition check lets a caller's snapshot change. *)
Lemma definition_matches_spec current snapshot :
  checkpoint_definition_matches current snapshot = true ->
  run_identity snapshot = run_identity current /\
  cp_resume_attempt snapshot = cp_resume_attempt current /\
  cp_terminal_acknowledged snapshot = cp_terminal_acknowledged current /\
  cp_history snapshot = cp_history current /\
  cp_model_calls current `prefix_of` cp_model_calls snapshot /\
  take (committed_count current) (cp_cycles current) `prefix_of` cp_cycles snapshot.
Proof.
  unfold checkpoint_definition_matches, run_identity. intros Hm. bool_inv.
  repeat match goal with
  | E : value_eqb _ _ = true |- _ => apply value_eqb_spec in E
  | E : Bool.eqb _ _ = true |- _ => apply Bool.eqb_prop in E
  | E : get_prefix _ _ = Some _ |- _ => apply get_prefix_Some in E
  end.
  repeat split; congruence.
Qed.

Lemma claim_matches_spec current snapshot token r :
  claim_matches current snapshot token r = true ->
  cp_revision current = r /\ cp_claim_token current = Some token /\
  cp_claimed_cycle snapshot = cp_claimed_cycle current /\ cp_terminal_result current = None /\
  checkpoint_definition_matches current snapshot = true.
Proof. unfold claim_matches. intros Hm. bool_inv. by repeat split. Qed.

Lemma merge_spec current snapshot s :
  merge_authoritative_fields current snapshot = Ok s ->
  exists outbox, cp_event_outbox current `prefix_of` outbox /\
    s = set_event_cursor (set_event_outbox (set_cancel_requested snapshot
          (cp_cancel_requested snapshot || cp_cancel_requested current)) outbox)
          (cp_event_cursor current).
Proof.
  unfold merge_authoritative_fields. cbn zeta. intros Hm. result_inv.
  eexists. split; [by eapply append_all_prefix|done].
Qed.

(** What no transition undoes. *)
Record monotone (c c' : Checkpoint) : Prop := {
  mono_resume : (cp_resume_attempt c <= cp_resume_attempt c')%N;
  mono_cancel : cp_cancel_requested c = true -> cp_cancel_requested c' = true;
  mono_acknowledged : cp_terminal_acknowledged c = true -> cp_terminal_acknowledged c' = true;
  mono_history : cp_history c' = cp_history c;
  mono_calls : cp_model_calls c `prefix_of` cp_model_calls c'
}.

(** The facts a caller's snapshot brings into a transition it may make. *)
Ltac match_inv :=
  repeat match goal with
  | E : claim_matches _ _ _ _ = true |- _ =>
      apply claim_matches_spec in E as (<- & ? & ? & ? & E)
  | E : checkpoint_definition_matches _ _ = true |- _ =>
      apply definition_matches_spec in E as (? & ? & ? & ? & ? & ?)
  | E : merge_authoritative_fields _ _ = Ok _ |- _ => apply merge_spec in E as (? & ? & ->)
  | E : seal _ _ = Ok _ |- _ => apply seal_spec in E as [-> ?]
  end.

Lemma orb_sticky a b : b = true -> a || b = true.
Proof. intros ->. apply orb_true_r. Qed.

(** [advances] and [monotone] of a checkpoint assembled by field assignments. *)
Ltac assembled :=
  split; [constructor; [assumption|first [reflexivity|cbn; congruence]|
                        first [assumption|cbv [run_identity] in *; cbn in *; congruence]]
         |constructor; cbn in *;
            [first [lia|congruence]|first [apply orb_sticky|congruence]|congruence|congruence
            |first [assumption|reflexivity]]].

Lemma progress_spec current snapshot token r c' :
  prepare_progress current snapshot token r = Ok (Some c') ->
  (advances current c' /\ monotone current c') /\
  cp_revision current = r /\ cp_claim_token current = Some token /\
  cp_terminal_result current = None /\
  cp_claim_token c' = Some token /\ cp_lease_expires_at_ms c' = cp_lease_expires_at_ms current /\
  cp_event_outbox current `prefix_of` cp_event_outbox c'.
Proof.
  unfold prepare_progress. intros Hp. result_inv. bool_inv. match_inv.
  split; [assembled|by repeat split].
Qed.

Lemma suspend_spec current snapshot token r c' :
  prepare_suspend current snapshot token r = Ok (Some c') ->
  (advances current c' /\ monotone current c') /\
  cp_revision current = r /\ cp_claim_token current = Some token /\
  cp_terminal_result current = None /\
  cp_claim_token c' = None /\ cp_status c' = ReconciliationRequiredS /\
  has_ambiguous_operation c' = true /\
  cp_event_outbox current `prefix_of` cp_event_outbox c'.
Proof.
  unfold prepare_suspend. intros Hp. result_inv. bool_inv. match_inv.
  split; [assembled|by repeat split].
Qed.

Lemma commit_spec current snapshot token r c' :
  prepare_commit current snapshot token r = Ok (Some c') ->
  (advances current c' /\ monotone current c') /\
  cp_revision current = r /\ cp_claim_token current = Some token /\
  cp_terminal_result current = None /\
  cp_claim_token c' = None /\ cp_claimed_cycle current = Some (cp_cycle_index c') /\
  journals c' = [] /\ cp_cancel_requested current = false /\ cp_cancel_requested c' = false /\
  cp_event_outbox c' = List.filter is_pending (cp_event_outbox snapshot) /\
  Forall (fun e => closed (j_state e) = true \/ j_state e = Planned) (journals snapshot).
Proof.
  unfold prepare_commit. intros Hp. result_inv. bool_inv. match_inv. unit_inv.
  split; [assembled|]. repeat split; try done; [cbn; congruence|].
  apply Forall_forall. intros e He%list_elem_of_In.
  destruct (unresolved (j_state e)) eqn:Hu.
  - exfalso. apply not_true_iff_false in Hif2. apply Hif2, existsb_exists. by exists e.
  - destruct (j_state e); try done; auto.
Qed.

(** *** Closing the operations of a run that ends early *)

(** The closure of one entry: the identity, attempt and request stay; an open
    entry is closed as failed, without a result, with its effect recorded as
    unknown; a closed entry stays as it is. *)
Lemma close_entry_spec key e e' o :
  close_entry key e = Ok (e', o) ->
  closed (j_state e') = true /\ j_operation_id e' = j_operation_id e /\
  j_attempt e' = j_attempt e /\ j_request_digest e' = j_request_digest e /\
  (if open_state (j_state e)
   then o = Some (unknown_tool_observation e) /\ j_state e' = Failed /\ j_result e' = None /\
        j_error e' = Some closure_error /\ j_resume_observation e' = o /\
        entry_validate e' = Ok tt
   else o = None /\ e' = e).
Proof.
  unfold close_entry. intros Hc. destruct (open_state (j_state e)) eqn:Ho; cbn [negb] in Hc;
    result_inv; unit_inv; [by repeat split|].
  split; [by destruct (j_state e')|by repeat split].
Qed.

Lemma append_event_once_frame c id ev c' :
  append_event_once c id ev = Ok c' -> c' = set_event_outbox c (cp_event_outbox c').
Proof.
  unfold append_event_once. intros Ha. result_inv; by destruct c.
Qed.

Lemma stage_cycle_aborted_frame c n reason c' :
  stage_cycle_aborted clock c n reason = Ok c' -> c' = set_event_outbox c (cp_event_outbox c').
Proof.
  unfold stage_cycle_aborted. intros Ha. result_inv. by eapply append_event_once_frame.
Qed.

(** What closing changes: the tool journal, the outbox and the result. *)
Definition closure_frame (c s : Checkpoint) : Prop :=
  s = set_terminal_result (set_event_outbox (set_tool_journal c (cp_tool_journal s))
        (cp_event_outbox s)) (cp_terminal_result s).

Lemma close_unresolved_frame c reason s :
  close_unresolved_tools clock c reason = Ok s ->
  closure_frame c s /\ is_some (cp_terminal_result s) = is_some (cp_terminal_result c) /\
  exists closed_entries, Forall2 (fun e x => close_entry (cp_checkpoint_key c) e = Ok x)
      (cp_tool_journal c) closed_entries /\ cp_tool_journal s = map fst closed_entries.
Proof.
  unfold close_unresolved_tools, closure_frame. intros Hc.
  destruct (active_cycle c); [|done]. destruct (collect _ _) as [closed_entries|] eqn:Hcol; [|done].
  apply collect_inv in Hcol. cbn zeta in Hc.
  match type of Hc with
  | match ?step with Ok _ => _ | Err _ => _ end = _ => destruct step as [c1|] eqn:Hst; [|done]
  end.
  assert (Hc1 : c1 = set_event_outbox (set_tool_journal c (map fst closed_entries))
                       (cp_event_outbox c1)).
  { destruct (_ || _); [|result_inv; by destruct c].
    by apply stage_cycle_aborted_frame in Hst. }
  rewrite Hc1 in Hc. cbn in Hc.
  destruct (cp_terminal_result c) as [v|] eqn:Ht; cbn in Hc;
    [destruct (as_object v)|]; result_inv; (split; [destruct c; cbn in *; by subst|]);
    (split; [cbn; by rewrite ?Ht|by exists closed_entries]).
Qed.

(** What finalisation leaves of the snapshot: it belongs to the same run,
    carries the result under the same status, and holds no claim. *)
Lemma terminal_snapshot_spec s r c' :
  prepare_terminal_snapshot clock s r = Ok c' ->
  validate_checkpoint c' = Ok tt /\ cp_revision c' = (r + 1)%N /\
  run_identity c' = run_identity s /\ cp_resume_attempt c' = cp_resume_attempt s /\
  cp_cancel_requested c' = cp_cancel_requested s /\
  cp_terminal_acknowledged c' = cp_terminal_acknowledged s /\
  cp_history c' = cp_history s /\ cp_model_calls c' = cp_model_calls s /\
  cp_status c' = cp_status s /\ cp_claim_token c' = None /\
  is_some (cp_terminal_result c') = true.
Proof.
  unfold prepare_terminal_snapshot. intros Hp.
  destruct (terminal_closure_reason s) as [reason|]; cbn [is_none is_some negb] in Hp;
    result_inv; bool_inv; match_inv; unit_inv.
  - match goal with E : close_unresolved_tools _ _ _ = Ok _ |- _ =>
      apply close_unresolved_frame in E as (Hframe & Hsome & _) end.
    split; [assumption|]. rewrite Hframe. cbn. rewrite Hsome.
    destruct (cp_claimed_cycle s); by repeat split.
  - by repeat split.
Qed.

Lemma finalized_spec current snapshot s c' :
  checkpoint_definition_matches current snapshot = true ->
  merge_authoritative_fields current snapshot = Ok s ->
  prepare_terminal_snapshot clock s (cp_revision current) = Ok c' ->
  (advances current c' /\ monotone current c') /\
  cp_claim_token c' = None /\ cp_status c' = cp_status snapshot /\
  is_some (cp_terminal_result c') = true.
Proof.
  intros Hd Hm
    (Hv & Hr & Hid & Hres & Hcancel & Hack & Hh & Hcalls & Hst & Ht & Hsome)%terminal_snapshot_spec.
  match_inv. cbn in Hres, Hcancel, Hack, Hh, Hcalls.
  split; [|done].
  split; constructor; try congruence.
  - by rewrite Hid.
  - by rewrite Hres, H1.
  - rewrite Hcancel. apply orb_sticky.
Qed.

Lemma finalize_spec current snapshot r c' :
  prepare_finalize clock current snapshot r = Ok (Some c') ->
  (advances current c' /\ monotone current c') /\
  cp_revision current = r /\ cp_claim_token current = None /\ cp_terminal_result current = None /\
  cp_claim_token c' = None /\ cp_status c' = cp_status snapshot /\
  is_some (cp_terminal_result c') = true.
Proof.
  unfold prepare_finalize. intros Hp. result_inv. bool_inv. subst r.
  destruct (finalized_spec current snapshot a c') as (? & ? & ?); try done.
Qed.

Lemma finalize_claimed_spec current snapshot token r c' :
  prepare_finalize_claimed clock current snapshot token r = Ok (Some c') ->
  (advances current c' /\ monotone current c') /\
  cp_revision current = r /\ cp_claim_token current = Some token /\
  cp_terminal_result current = None /\
  cp_claim_token c' = None /\ cp_status c' = cp_status snapshot /\
  is_some (cp_terminal_result c') = true.
Proof.
  unfold prepare_finalize_claimed. intros Hp. result_inv. bool_inv.
  apply claim_matches_spec in Hif as (<- & ? & _ & ? & Hd).
  destruct (finalized_spec current snapshot a c') as (? & ? & ?); try done.
Qed.

Lemma ack_spec current r c' :
  prepare_ack current r = Ok (Some c') ->
  (advances current c' /\ monotone current c') /\ cp_revision current = r /\
  is_some (cp_terminal_result current) = true /\ cp_claim_token current = None /\
  cp_terminal_acknowledged current = false /\
  c' = set_revision (set_terminal_acknowledged current true) (r + 1).
Proof.
  unfold prepare_ack. intros Hp. result_inv. bool_inv. subst r. match_inv.
  split; [assembled|by repeat split].
Qed.

Lemma matching_indices_elem id l i :
  i ∈ matching_indices id l -> exists e, l !! i = Some e /\ ob_event_id e = id.
Proof.
  unfold matching_indices. rewrite list_elem_of_omap. intros (o & Ho & Hi). cbn in Hi. subst o.
  apply elem_of_lookup_imap in Ho as (j & e & Ho & He).
  destruct (String.eqb_spec (ob_event_id e) id) as [Hid|]; [|done]. simplify_eq. eauto.
Qed.

Lemma delivery_spec current token r id digest cursor c' :
  prepare_event_delivery current token r id digest cursor = Ok (Some c') ->
  (advances current c' /\ monotone current c') /\ cp_revision current = r /\
  cp_claim_token current = token /\
  exists i e, cp_event_outbox current !! i = Some e /\ ob_event_id e = id /\
    ob_payload_digest e = digest /\ is_pending e = true /\
    c' = set_revision (set_event_cursor (set_event_outbox current
           (<[i := deliver e (cursor_to_value cursor)]> (cp_event_outbox current))) (Some cursor))
           (r + 1).
Proof.
  unfold prepare_event_delivery. intros Hp.
  destruct (matching_indices id (cp_event_outbox current)) as [|i [|]] eqn:Hmatch; result_inv.
  bool_inv. match_inv. subst r.
  split; [assembled|]. split; [done|]. split; [done|]. exists i, a1.
  destruct (matching_indices_elem id (cp_event_outbox current) i) as (e & He & <-).
  { rewrite Hmatch. by left. }
  by simplify_eq.
Qed.

Lemma definitive_status r :
  validate_definitive_result r = Ok tt -> tr_status r = Success \/ tr_status r = Error.
Proof.
  unfold validate_definitive_result. intros Hv. result_inv. destruct (tr_status r); auto; done.
Qed.

(** The entry a receipt writes. *)
Lemma receipt_entry_spec identity digest r o e e' :
  receipt_entry identity digest r o e = Ok e' ->
  closed (j_state e') = true /\ j_operation_id e' = j_operation_id e /\
  j_attempt e' = j_attempt e /\ j_tool_call_id e' = j_tool_call_id e /\
  j_request_digest e' = j_request_digest e /\
  j_identity_key e' = Some identity /\ j_result e' = Some (to_dict r) /\
  j_result_digest e' = Some digest /\ j_resume_observation e' = o /\
  (j_state e' = Succeeded <-> tr_status r = Success).
Proof.
  unfold receipt_entry. intros He. destruct (tr_status r); result_inv; by repeat split.
Qed.

Lemma receipt_event_id c e r ev :
  receipt_event clock c e r = Ok ev ->
  exists identity, tool_receipt_identity_key (cp_checkpoint_key c) (j_operation_id e) (j_attempt e)
      (tr_tool_call_id r) (j_request_digest e) = Ok identity /\
    ob_event_id ev = "evt_receipt_" +:+ identity.
Proof.
  unfold receipt_event, completed_event, outbox, outbox_of_value, outbox_pending, event_id_stable.
  intros He. result_inv. bool_inv. subst. unit_inv. eexists. split; [eassumption|].
  reflexivity.
Qed.

Lemma receipt_spec current checkpoint op attempt call digest r token rev cycle c' :
  prepare_tool_receipt clock current checkpoint op attempt call digest r token rev cycle
    = Ok (Some c') ->
  (advances current c' /\ monotone current c') /\
  cp_revision current = rev /\ cp_claim_token current = Some token /\
  cp_terminal_result current = None /\ cp_claim_token c' = Some token /\
  cp_event_outbox current `prefix_of` cp_event_outbox c' /\
  exists index e e' identity,
    cp_tool_journal current !! index = Some e /\
    receipt_target op attempt call digest cycle e = true /\
    (j_state e = Started \/ j_state e = Ambiguous) /\
    tool_receipt_identity_key (cp_checkpoint_key current) op attempt call digest = Ok identity /\
    j_identity_key e' = Some identity /\ j_result e' = Some (to_dict r) /\
    (j_state e' = Succeeded <-> tr_status r = Success) /\ closed (j_state e') = true /\
    cp_tool_journal c' = <[index := e']> (cp_tool_journal current).
Proof.
  unfold prepare_tool_receipt. intros Hp.
  destruct (position _ _) as [index|] eqn:Hpos; result_inv; try done.
  apply position_Some in Hpos as (e & He & Hmatch). bool_inv. unit_inv. subst rev.
  apply receipt_entry_spec in Hdo4 as (? & ? & ? & ? & ? & ? & ? & ? & ? & ?).
  apply append_all_prefix in Hdo7. apply prefix_app_l in Hdo7. match_inv.
  split; [assembled|]. repeat (split; [done|]).
  exists index, e, a4, a0. simplify_eq. repeat (split; [done|]). split; [|by repeat (split; [done|])].
  match goal with E : _ || _ = true |- _ => apply orb_true_iff in E as [E|E] end; bool_inv; auto.
Qed.

Lemma claim_candidate_true c cycle now mode :
  claim_candidate c cycle now mode = Ok true <->
  (0 < cycle <= MAX_WIRE_INTEGER)%N /\ (now <= MAX_WIRE_INTEGER)%N /\
  cp_terminal_result c = None /\
  (cp_status c = RunningS \/ cp_status c = ReconciliationRequiredS) /\
  cycle = (cp_cycle_index c + 1)%N /\
  (mode = Continue -> cp_status c = RunningS /\ has_ambiguous_operation c = false /\
                      cp_lease_expires_at_ms c = None) /\
  (forall expiry, cp_lease_expires_at_ms c = Some expiry -> (expiry <= now)%N).
Proof.
  unfold claim_candidate. split.
  - intros Hc. result_inv; try discriminate; bool_inv;
      match goal with E : checked_add _ _ = Some _ |- _ =>
        apply checked_add_Some in E as [-> _] end.
    all: repeat match goal with |- _ /\ _ => split end.
    all: try lia; try done.
    all: try (destruct (cp_status c); try done; by auto).
    all: intros; simplify_eq; try done.
    destruct (cp_status c), (has_ambiguous_operation c); done.
  - intros ((Hpos & Hmax) & Hnow & Ht & Hs & -> & Hm & Hl).
    destruct (N.eqb_spec (cp_cycle_index c + 1) 0); [lia|].
    destruct (N.ltb_spec MAX_WIRE_INTEGER (cp_cycle_index c + 1)); [lia|].
    destruct (N.ltb_spec MAX_WIRE_INTEGER now); [lia|].
    rewrite Ht. unfold checked_add.
    destruct (N.leb_spec (cp_cycle_index c + 1) U64_MAX); [|unfold U64_MAX, MAX_WIRE_INTEGER in *; lia].
    rewrite bool_decide_eq_true_2 by done.
    destruct mode.
    + destruct (Hm eq_refl) as (-> & -> & ->). done.
    + rewrite (bool_decide_eq_true_2 (Recovery = Recovery)) by done. rewrite andb_false_r.
      destruct (cp_lease_expires_at_ms c) as [expiry|]; [|by destruct Hs as [-> | ->]].
      specialize (Hl expiry eq_refl). destruct (N.ltb_spec now expiry); [lia|].
      by destruct Hs as [-> | ->].
Qed.

Lemma apply_claim_spec c cycle token lease mode c' :
  apply_claim c cycle token lease mode = Ok c' ->
  c' = set_claim (set_status (set_resume_attempt (set_revision c (cp_revision c + 1))
         (cp_resume_attempt c + (if mode =?? Recovery then 1 else 0))) RunningS)
         (Some token) (Some cycle) (Some lease).
Proof.
  unfold apply_claim. intros Hc. result_inv;
    repeat match goal with E : checked_add _ _ = Some _ |- _ =>
      apply checked_add_Some in E as [-> _] end; [done|].
  rewrite N.add_0_r. by destruct c.
Qed.
End Lemmas.

(** ** The kernel as a transition system

    One step is one compare-and-set that succeeded: the stored checkpoint on
    the left, the checkpoint that replaces it on the right. *)

Section System.
Context `{Env} (clock : string -> Number).

(** [kernel_write c actor r c']: a caller that presents the claim token [actor]
    (or none) and expects revision [r] replaces [c] by [c']. *)
Inductive kernel_write (c : Checkpoint) : option string -> N -> Checkpoint -> Prop :=
| write_progress snapshot token r c' :
    prepare_progress c snapshot token r = Ok (Some c') -> kernel_write c (Some token) r c'
| write_receipt snapshot op attempt call digest result token r cycle c' :
    prepare_tool_receipt clock c snapshot op attempt call digest result token r cycle
      = Ok (Some c') -> kernel_write c (Some token) r c'
| write_suspend snapshot token r c' :
    prepare_suspend c snapshot token r = Ok (Some c') -> kernel_write c (Some token) r c'
| write_commit snapshot token r c' :
    prepare_commit c snapshot token r = Ok (Some c') -> kernel_write c (Some token) r c'
| write_finalize snapshot r c' :
    prepare_finalize clock c snapshot r = Ok (Some c') -> kernel_write c None r c'
| write_finalize_claimed snapshot token r c' :
    prepare_finalize_claimed clock c snapshot token r = Ok (Some c') ->
    kernel_write c (Some token) r c'
| write_delivery token r id digest cursor c' :
    prepare_event_delivery c token r id digest cursor = Ok (Some c') -> kernel_write c token r c'
| write_ack r c' :
    prepare_ack c r = Ok (Some c') -> kernel_write c None r c'
| write_admit r token cycle entries c' handle handles :
    admit_deferred_batch clock c r token cycle entries = Ok (c', handle :: handles) ->
    kernel_write c (Some token) r c'
| write_accept r token cycle decisions c' :
    accept_deferred_batch clock c r token cycle decisions = Ok (c', true) ->
    kernel_write c (Some token) r c'.

Inductive kernel_step (c : Checkpoint) : Checkpoint -> Prop :=
| step_claim cycle token now lease mode c' :
    claim_candidate c cycle now mode = Ok true ->
    apply_claim c cycle token lease mode = Ok c' -> validate_checkpoint c' = Ok tt ->
    kernel_step c c'
| step_write actor r c' : kernel_write c actor r c' -> kernel_step c c'.

Lemma claim_step_spec c cycle token now lease mode c' :
  claim_candidate c cycle now mode = Ok true ->
  apply_claim c cycle token lease mode = Ok c' -> validate_checkpoint c' = Ok tt ->
  (advances c c' /\ monotone c c') /\ cp_terminal_result c = None /\
  cp_claim_token c' = Some token /\ cp_status c' = RunningS.
Proof.
  intros (_ & _ & Ht & _)%claim_candidate_true -> %apply_claim_spec Hv.
  split; [split; constructor; try done; cbn; lia|done].
Qed.

Lemma admit_step_spec c r token cycle entries c' handle handles :
  admit_deferred_batch clock c r token cycle entries = Ok (c', handle :: handles) ->
  (advances c c' /\ monotone c c') /\ cp_terminal_result c' = cp_terminal_result c /\
  cp_claim_token c = Some token /\ cp_revision c = r.
Proof.
  intros [[_ ?]|[? (? & ? & ? & ?) ? ? ? ? Hframe ?]]%admit_spec; [done|].
  split; [split; [done|]|rewrite Hframe; by destruct c].
  rewrite Hframe. constructor; try done; cbn; lia.
Qed.

Lemma accept_step_spec c r token cycle decisions c' :
  accept_deferred_batch clock c r token cycle decisions = Ok (c', true) ->
  (advances c c' /\ monotone c c') /\ cp_terminal_result c' = cp_terminal_result c /\
  cp_claim_token c = Some token /\ cp_revision c = r.
Proof.
  intros (? & (? & ? & ? & ?) & ? & ? & ? & ? & Hframe & _)%accept_spec.
  split; [split; [done|]|rewrite Hframe; by destruct c].
  rewrite Hframe. constructor; try done; cbn; lia.
Qed.

Lemma kernel_write_spec c actor r c' :
  kernel_write c actor r c' ->
  (advances c c' /\ monotone c c') /\ cp_claim_token c = actor /\ cp_revision c = r.
Proof.
  destruct 1 as [? ? ? ? Hp|? ? ? ? ? ? ? ? ? ? Hp|? ? ? ? Hp|? ? ? ? Hp|? ? ? Hp|? ? ? ? Hp
    |? ? ? ? ? ? Hp|? ? Hp|? ? ? ? ? ? ? Hp|? ? ? ? ? Hp].
  - apply progress_spec in Hp; naive_solver.
  - apply receipt_spec in Hp; naive_solver.
  - apply suspend_spec in Hp; naive_solver.
  - apply commit_spec in Hp; naive_solver.
  - apply finalize_spec in Hp; naive_solver.
  - apply finalize_claimed_spec in Hp; naive_solver.
  - apply delivery_spec in Hp; naive_solver.
  - apply ack_spec in Hp; naive_solver.
  - apply admit_step_spec in Hp; naive_solver.
  - apply accept_step_spec in Hp; naive_solver.
Qed.

Lemma kernel_step_advances c c' : kernel_step c c' -> advances c c' /\ monotone c c'.
Proof. destruct 1; [by eapply claim_step_spec|by eapply kernel_write_spec]. Qed.

#[global] Instance monotone_preorder : PreOrder monotone.
Proof.
  split; [intros c; constructor; done|].
  intros a b c [? ? ? ? ?] [? ? ? ? ?]. constructor; [lia|auto..|congruence|by etransitivity].
Qed.

Lemma kernel_steps_monotone c c' :
  rtc kernel_step c c' ->
  run_identity c' = run_identity c /\ monotone c c' /\ (cp_revision c <= cp_revision c')%N /\
  (c' = c \/ validate_checkpoint c' = Ok tt /\ (cp_revision c < cp_revision c')%N).
Proof.
  induction 1 as [c|a b c Hs _ (Hid & Hm & Hr & Hv)]; [by repeat split; auto|].
  apply kernel_step_advances in Hs as [[Hv1 Hr1 Hid1] Hm1].
  split; [congruence|]. split; [by etransitivity|]. split; [lia|]. right.
  destruct Hv as [->|[Hv ?]]; split; (done || lia).
Qed.

(** A valid checkpoint with a result holds no claim. *)
Lemma terminal_unclaimed c v :
  validate_checkpoint c = Ok tt -> cp_terminal_result c = Some v -> cp_claim_token c = None.
Proof.
  intros Hv%validate_wf Ht. destruct Hv as [Hclaim _ _ _ _ _ _ _ _ _ _ _ _].
  destruct (cp_claim_token c); [|done]. destruct Hclaim as (_ & _ & _ & _ & Hnone). congruence.
Qed.

(** What may still change on a finished run. *)
Definition bookkeeping (c c' : Checkpoint) : Prop :=
  c' = set_revision (set_terminal_acknowledged (set_event_cursor
         (set_event_outbox c (cp_event_outbox c')) (cp_event_cursor c'))
         (cp_terminal_acknowledged c')) (cp_revision c') /\
  map ob_event_id (cp_event_outbox c') = map ob_event_id (cp_event_outbox c) /\
  map ob_event (cp_event_outbox c') = map ob_event (cp_event_outbox c).

#[global] Instance bookkeeping_preorder : PreOrder bookkeeping.
Proof.
  split; [intros c; split; [by destruct c|done]|].
  intros a b c (Hb & Hb1 & Hb2) (Hc & Hc1 & Hc2). split; [|split; congruence].
  rewrite Hc at 1. rewrite Hb. by destruct a.
Qed.

Lemma insert_deliver_map {B} (f : EventOutboxEntry -> B) (l : list EventOutboxEntry) i e v :
  l !! i = Some e -> f (deliver e v) = f e -> map f (<[i := deliver e v]> l) = map f l.
Proof.
  intros He Hf. rewrite list_fmap_insert. apply list_insert_id.
  by rewrite list_lookup_fmap, He, Hf.
Qed.

Lemma kernel_step_terminal c c' v :
  validate_checkpoint c = Ok tt -> cp_terminal_result c = Some v -> kernel_step c c' ->
  bookkeeping c c'.
Proof.
  intros Hvalid Ht Hs. pose proof (terminal_unclaimed _ _ Hvalid Ht) as Hclaim.
  destruct Hs as [? ? ? ? ? ? Hc Ha Hv|? ? ? [? ? ? ? Hp|? ? ? ? ? ? ? ? ? ? Hp|? ? ? ? Hp|? ? ? ? Hp
    |? ? ? Hp|? ? ? ? Hp|? ? ? ? ? ? Hp|? ? Hp|? ? ? ? ? ? ? Hp|? ? ? ? ? Hp]].
  - destruct (claim_step_spec _ _ _ _ _ _ _ Hc Ha Hv) as (_ & ? & _). congruence.
  - apply progress_spec in Hp as (_ & _ & ? & _). congruence.
  - apply receipt_spec in Hp as (_ & _ & ? & _). congruence.
  - apply suspend_spec in Hp as (_ & _ & ? & _). congruence.
  - apply commit_spec in Hp as (_ & _ & ? & _). congruence.
  - apply finalize_spec in Hp as (_ & _ & _ & ? & _). congruence.
  - apply finalize_claimed_spec in Hp as (_ & _ & ? & _). congruence.
  - apply delivery_spec in Hp as (_ & <- & _ & i & e & He & _ & _ & _ & ->).
    split; [by destruct c|]. cbn [set_revision set_event_cursor set_event_outbox cp_event_outbox].
    by split; apply insert_deliver_map.
  - apply ack_spec in Hp as (_ & _ & _ & _ & _ & ->). split; [by destruct c|done].
  - apply admit_step_spec in Hp as (_ & _ & ? & _). congruence.
  - apply accept_step_spec in Hp as (_ & _ & ? & _). congruence.
Qed.

Lemma kernel_steps_terminal c c' v :
  validate_checkpoint c = Ok tt -> cp_terminal_result c = Some v -> rtc kernel_step c c' ->
  bookkeeping c c'.
Proof.
  intros Hv Ht Hs. revert Hv Ht. induction Hs as [c|a b c Hs _ IH]; intros Hv Ht; [done|].
  pose proof (kernel_step_terminal _ _ _ Hv Ht Hs) as Hab.
  apply kernel_step_advances in Hs as [[Hvb _ _] _].
  transitivity b; [done|]. apply IH; [done|]. rewrite (proj1 Hab). by destruct a.
Qed.
End System.

(** ** Observations *)

Section Observations.

Lemma okey_eqb_spec a b : okey_eqb a b = true <-> a = b.
Proof.
  destruct a as [[[s n] m]|], b as [[[s' n'] m']|]; cbn; try done.
  rewrite !andb_true_iff, String.eqb_eq, !N.eqb_eq. naive_solver.
Qed.

Lemma string_compare_gt a b : String.compare a b = Gt <-> str_lt b a.
Proof. unfold str_lt. rewrite String.compare_antisym. destruct (String.compare b a); cbn; by split. Qed.

Lemma opt_key_le_total a b : opt_key_le a b = false -> opt_key_le b a = true.
Proof.
  destruct a as [[[s n] m]|], b as [[[s' n'] m']|]; cbn; try done. unfold key_le. cbn.
  rewrite (String.compare_antisym s' s). destruct (String.compare s s') eqn:E; cbn; try done.
  destruct (N.ltb_spec n n'), (N.eqb_spec n n'), (N.leb_spec m m'), (N.ltb_spec n' n),
    (N.eqb_spec n' n), (N.leb_spec m' m); cbn; try done; lia.
Qed.

Lemma key_le_trans a b c : key_le a b = true -> key_le b c = true -> key_le a c = true.
Proof.
  destruct a as [[s n] m], b as [[s' n'] m'], c as [[s'' n''] m'']. unfold key_le. cbn.
  destruct (String.compare s s') eqn:E; [|intros _|done].
  - apply string_compare_eq in E as ->. destruct (String.compare s' s''); try done.
    destruct (N.ltb_spec n n'), (N.eqb_spec n n'), (N.leb_spec m m'), (N.ltb_spec n' n''),
      (N.eqb_spec n' n''), (N.leb_spec m' m''), (N.ltb_spec n n''), (N.eqb_spec n n''),
      (N.leb_spec m m''); cbn; try done; lia.
  - destruct (String.compare s' s'') eqn:E'; intros; try done.
    + apply string_compare_eq in E' as ->. by rewrite E.
    + by rewrite (str_lt_trans s s' s'').
Qed.

Lemma opt_key_le_trans a b c :
  opt_key_le a b = true -> opt_key_le b c = true -> opt_key_le a c = true.
Proof. destruct a, b, c; cbn; try done. apply key_le_trans. Qed.

Lemma opt_key_le_antisym a b : opt_key_le a b = true -> opt_key_le b a = true -> a = b.
Proof.
  destruct a as [[[s n] m]|], b as [[[s' n'] m']|]; cbn; try done. unfold key_le. cbn.
  rewrite (String.compare_antisym s' s). destruct (String.compare s s') eqn:E; cbn; try done.
  apply string_compare_eq in E as ->.
  destruct (N.ltb_spec n n'), (N.eqb_spec n n'), (N.leb_spec m m'), (N.ltb_spec n' n),
    (N.eqb_spec n' n), (N.leb_spec m' m); cbn; try done; intros; try lia; by replace m' with m by lia; subst.
Qed.

Definition value_le (a b : Value) : bool := opt_key_le (observation_key a) (observation_key b).

Lemma dedup_from_elem last l v : v ∈ dedup_from last l -> v ∈ l.
Proof.
  revert last. induction l as [|x l IH]; intros last; cbn; [done|].
  destruct (okey_eqb _ _); [intros H%IH; set_solver|].
  intros [->|H%IH]%elem_of_cons; set_solver.
Qed.

Lemma dedup_from_keys last l k :
  k ∈ map observation_key l ->
  k = observation_key last \/ k ∈ map observation_key (dedup_from last l).
Proof.
  revert last. induction l as [|x l IH]; intros last; cbn; [set_solver|].
  intros [->|Hk]%elem_of_cons.
  - destruct (okey_eqb _ _) eqn:E; [left; by apply okey_eqb_spec in E|right; set_solver].
  - destruct (okey_eqb _ _) eqn:E; [by apply IH|].
    destruct (IH x Hk) as [->|?]; right; cbn; set_solver.
Qed.

(** On a sorted list [dedup] leaves strictly increasing keys. *)
Lemma dedup_from_sorted last l :
  StronglySorted (fun a b => value_le a b = true) (last :: l) ->
  StronglySorted (fun a b => value_le a b = true) (last :: dedup_from last l) /\
  NoDup (map observation_key (last :: dedup_from last l)).
Proof.
  revert last. induction l as [|x l IH]; intros last Hs; cbn [dedup_from].
  { split; [done|]. cbn. apply NoDup_singleton. }
  inversion_clear Hs as [|? ? Hl Hall]. inversion_clear Hall as [|? ? Hx Hall'].
  inversion Hl as [|? ? Hl' Hxall]; subst.
  destruct (okey_eqb _ _) eqn:E.
  - apply IH. by constructor.
  - destruct (IH x Hl) as [Hs' Hnd]. split.
    + constructor; [done|]. constructor; [done|]. apply Forall_forall.
      intros v Hv%dedup_from_elem. rewrite Forall_forall in Hall'. by apply Hall'.
    + cbn [map]. rewrite NoDup_cons. split; [|done].
      intros [Heq|Hin]%elem_of_cons.
      { apply not_true_iff_false in E. apply E. by apply okey_eqb_spec. }
      apply list_elem_of_fmap in Hin as (v & Hk & Hv).
      apply dedup_from_elem in Hv. rewrite Forall_forall in Hxall.
      specialize (Hxall v Hv). unfold value_le in *. rewrite <- Hk in Hxall.
      apply not_true_iff_false in E. apply E, okey_eqb_spec. by apply opt_key_le_antisym.
Qed.

Lemma dedup_sorted l :
  StronglySorted (fun a b => value_le a b = true) l ->
  StronglySorted (fun a b => value_le a b = true) (dedup l) /\ NoDup (map observation_key (dedup l)).
Proof.
  destruct l as [|x l]; cbn [dedup]; [intros; split; constructor|apply dedup_from_sorted].
Qed.
Lemma dedup_elem l v : v ∈ dedup l -> v ∈ l.
Proof.
  destruct l as [|x l]; cbn; [done|]. intros [->|H%dedup_from_elem]%elem_of_cons; set_solver.
Qed.
Lemma dedup_keys l k : k ∈ map observation_key (dedup l) <-> k ∈ map observation_key l.
Proof.
  split.
  - intros (v & -> & Hv%dedup_elem)%list_elem_of_fmap. apply list_elem_of_fmap. eauto.
  - destruct l as [|x l]; cbn; [done|]. intros [->|Hk]%elem_of_cons; [set_solver|].
    destruct (dedup_from_keys x l k Hk); set_solver.
Qed.

Lemma observation_to_value_key o :
  observation_key (observation_to_value o)
  = Some (obs_operation_id o, observation_kind_rank (obs_operation_kind o), obs_cycle_index o).
Proof. unfold observation_key, observation_to_value. by destruct o as [? []]. Qed.
End Observations.

(** ** Properties *)

(** (C4) When a cycle may be claimed.  The claim is granted exactly when the
    cycle is the next one of an unfinished run that is running or waits for
    reconciliation, any lease on it has expired, and -- unless the caller
    comes in recovery mode -- nobody holds a lease at all and no operation is
    ambiguous.  So a live lease is never taken over, and an interrupted cycle
    is only re-entered through recovery. *)
Theorem claim_candidate_exact (c : Checkpoint) (cycle_index now_ms : N) (mode : ClaimMode) :
  claim_candidate c cycle_index now_ms mode = Ok true <->
  (0 < cycle_index <= MAX_WIRE_INTEGER)%N /\ (now_ms <= MAX_WIRE_INTEGER)%N /\
  cp_terminal_result c = None /\
  (cp_status c = RunningS \/ cp_status c = ReconciliationRequiredS) /\
  cycle_index = (cp_cycle_index c + 1)%N /\
  (mode = Continue -> cp_status c = RunningS /\ has_ambiguous_operation c = false /\
                      cp_lease_expires_at_ms c = None) /\
  (forall expiry, cp_lease_expires_at_ms c = Some expiry -> (expiry <= now_ms)%N).
Proof. apply claim_candidate_true. Qed.

(** (C1) Safety of the kernel.  From a valid checkpoint, every sequence of
    claims and writes -- progress, receipts, suspension, commit, both
    finalisations, event delivery, acknowledgement, deferred admission and
    acceptance, in any order and by any callers -- leads to a valid checkpoint
    of the same run, at a revision that grew with every step, with the same
    archived history, at least the same resume attempt, every model call
    still on record, and cancellation and acknowledgement never withdrawn. *)
Theorem kernel_safe `{Env} (clock : string -> Number) (c c' : Checkpoint) :
  validate_checkpoint c = Ok tt -> rtc (kernel_step clock) c c' ->
  validate_checkpoint c' = Ok tt /\ checkpoint_wf c' /\ run_identity c' = run_identity c /\
  monotone c c' /\ (c' = c \/ (cp_revision c < cp_revision c')%N).
Proof.
  intros Hv (Hid & Hm & _ & Hor)%kernel_steps_monotone.
  assert (Hv' : validate_checkpoint c' = Ok tt) by (by destruct Hor as [->|[? _]]).
  repeat (split; [done || by apply validate_wf|]). by destruct Hor as [->|[_ ?]]; auto.
Qed.


(** (C3) Writers are fenced.  After any step, a write that still expects the
    revision before it is refused, however much later it arrives; and a write
    is accepted only with the claim token stored at that moment (or without
    one when none is stored). *)
Theorem stale_writer_fenced `{Env} (clock : string -> Number) (c c1 c2 : Checkpoint) :
  kernel_step clock c c1 -> rtc (kernel_step clock) c1 c2 ->
  (forall actor c3, ~ kernel_write clock c2 actor (cp_revision c) c3) /\
  (forall actor r c3, kernel_write clock c2 actor r c3 ->
     cp_claim_token c2 = actor /\ cp_revision c2 = r).
Proof.
  intros [[_ Hr _] _]%kernel_step_advances (_ & _ & Hle & _)%kernel_steps_monotone.
  split; [|intros actor r c3 Hw%kernel_write_spec; naive_solver].
  intros actor c3 (_ & _ & Heq)%kernel_write_spec. lia.
Qed.

(** A recorded receipt closes exactly one operation.  It is accepted
    only from the claim owner at the stored revision, and only for a started
    or ambiguous tool call with that operation id, attempt, call id, request
    digest and cycle; the new checkpoint is a valid successor that differs
    from the stored one in that one journal entry -- now closed, holding the
    result and the identity derived from the operation, succeeded exactly when
    the tool did -- and in events appended to the outbox. *)
Theorem tool_receipt_recorded `{Env} (clock : string -> Number) (current checkpoint : Checkpoint)
    (op : string) (attempt : N) (call digest : string) (r : ToolExecutionResult) (token : string)
    (rev cycle : N) (c' : Checkpoint) :
  prepare_tool_receipt clock current checkpoint op attempt call digest r token rev cycle
    = Ok (Some c') ->
  (advances current c' /\ monotone current c') /\
  cp_revision current = rev /\ cp_claim_token current = Some token /\
  cp_terminal_result current = None /\ cp_claim_token c' = Some token /\
  cp_event_outbox current `prefix_of` cp_event_outbox c' /\
  exists index e e' identity,
    cp_tool_journal current !! index = Some e /\
    receipt_target op attempt call digest cycle e = true /\
    (j_state e = Started \/ j_state e = Ambiguous) /\
    tool_receipt_identity_key (cp_checkpoint_key current) op attempt call digest = Ok identity /\
    j_identity_key e' = Some identity /\ j_result e' = Some (to_dict r) /\
    (j_state e' = Succeeded <-> tr_status r = Success) /\ closed (j_state e') = true /\
    cp_tool_journal c' = <[index := e']> (cp_tool_journal current).
Proof. apply receipt_spec. Qed.

(** The observations stored with an early end.  Merging the closed
    operations into the observations of the result yields a list in key order
    without duplicate keys, which mentions exactly the operations either side
    mentions, and in which a closed tool operation is described by its
    closure and not by an earlier observation. *)
Theorem merge_observations_exact (observations : list Value) (closures : list ResumeObservation) :
  Forall (fun o => obs_operation_kind o = Tool) closures ->
  let merged := merge_observations observations closures in
  StronglySorted (fun a b => value_le a b = true) merged /\
  NoDup (map observation_key merged) /\
  (forall k, k ∈ map observation_key merged <->
             k ∈ map observation_key observations \/ k ∈ map closure_key closures) /\
  (forall v, v ∈ merged -> observation_key v ∈ map closure_key closures ->
             v ∈ map observation_to_value closures).
Proof.
  intros Htool merged. unfold merged, merge_observations.
  set (retained := List.filter _ _). set (l := retained ++ _).
  assert (Hkeys : map observation_key (map observation_to_value closures) = map closure_key closures).
  { rewrite map_map. apply List.map_ext_in. intros o Ho%list_elem_of_In.
    rewrite Forall_forall in Htool. rewrite observation_to_value_key. unfold closure_key.
    by rewrite (Htool o Ho). }
  assert (Hsort : stable_sort value_le l ≡ₚ l) by apply stable_sort_perm.
  assert (Hret : forall v, v ∈ retained <->
            v ∈ observations /\ (observation_key v ∉ map closure_key closures)).
  { intros v. unfold retained. rewrite !list_elem_of_In, List.filter_In, <- !list_elem_of_In.
    apply and_iff_compat_l. rewrite orb_true_iff, is_none_true, negb_true_iff.
    rewrite <- not_true_iff_false, existsb_exists. split.
    - intros [Hn|Hn] Hin.
      + rewrite Hn in Hin. apply list_elem_of_fmap in Hin as (? & ? & _). done.
      + apply Hn. exists (observation_key v).
        split; [by apply list_elem_of_In|by apply okey_eqb_spec].
    - intros Hni. right. intros (k & Hk & <-%okey_eqb_spec). by apply Hni, list_elem_of_In. }
  destruct (dedup_sorted (stable_sort value_le l)) as [Hss Hnd].
  { apply stable_sort_sorted; [|intros ? ? ?; apply opt_key_le_trans].
    intros ? ?. apply opt_key_le_total. }
  split; [done|]. split; [done|]. split.
  - intros k. rewrite dedup_keys. rewrite Hsort. unfold l. rewrite map_app, elem_of_app, Hkeys.
    split; [intros [(v & -> & [Hv _]%Hret)%list_elem_of_fmap|?]; [left|by right]|].
    + apply list_elem_of_fmap. eauto.
    + intros [(v & -> & Hv)%list_elem_of_fmap|?]; [|by right].
      destruct (decide (observation_key v ∈ map closure_key closures)) as [|Hni]; [by right|left].
      apply list_elem_of_fmap. exists v. split; [done|]. by apply Hret.
  - intros v Hv%dedup_elem Hk. rewrite Hsort in Hv. apply elem_of_app in Hv as [[_ Hv]%Hret|Hv]; done.
Qed.

(** The closure of a tool journal, entry by entry. *)
Definition entry_closed_as (e e' : OperationJournalEntry) : Prop :=
  closed (j_state e') = true /\ j_operation_id e' = j_operation_id e /\
  j_attempt e' = j_attempt e /\ j_request_digest e' = j_request_digest e /\
  (if open_state (j_state e)
   then j_state e' = Failed /\ j_result e' = None /\ j_error e' = Some closure_error /\
        j_resume_observation e' = Some (unknown_tool_observation e)
   else e' = e).

Lemma closed_journal `{Env} key l closed_entries :
  Forall2 (fun e x => close_entry key e = Ok x) l closed_entries ->
  Forall2 entry_closed_as l (map fst closed_entries).
Proof.
  induction 1 as [|e [e' o] l closed_entries Hc _ IH]; cbn; constructor; [|done].
  apply close_entry_spec in Hc as (? & ? & ? & ? & Hcase). repeat (split; [done|]).
  destruct (open_state (j_state e)); naive_solver.
Qed.

Lemma terminal_snapshot_journals `{Env} clock s r c' :
  prepare_terminal_snapshot clock s r = Ok c' ->
  cp_model_call_journal c' = [] /\
  match terminal_closure_reason s with
  | Some _ => Forall2 entry_closed_as (cp_tool_journal s) (cp_tool_journal c')
  | None => cp_tool_journal c' = []
  end.
Proof.
  unfold prepare_terminal_snapshot. intros Hp.
  destruct (terminal_closure_reason s) as [reason|]; cbn [is_none is_some negb] in Hp;
    result_inv; apply seal_spec in Hp as [-> _]; [|done].
  match goal with E : close_unresolved_tools _ _ _ = Ok _ |- _ =>
    apply close_unresolved_frame in E as (Hframe & _ & entries & Hall & Hj) end.
  cbn. split; [done|]. rewrite Hj. apply closed_journal in Hall.
  by destruct (cp_claimed_cycle s).
Qed.

(** No operation is left open by an early end.  When a run is finalised
    because the operator aborted it, it was cancelled or its lease was lost,
    every tool call of the snapshot keeps its place and identity; one that was
    still open is closed as failed without a result and with the observation
    that its effect is unknown, one that was closed stays untouched, and the
    model journal is emptied.  On any other end both journals are emptied.
    Either way the stored checkpoint is valid, holds the result and no claim. *)
Theorem finalize_closes_operations `{Env} (clock : string -> Number) (s c' : Checkpoint)
    (expected_revision : N) :
  prepare_terminal_snapshot clock s expected_revision = Ok c' ->
  validate_checkpoint c' = Ok tt /\ cp_claim_token c' = None /\
  is_some (cp_terminal_result c') = true /\ cp_status c' = cp_status s /\
  cp_model_call_journal c' = [] /\
  match terminal_closure_reason s with
  | Some _ => Forall2 entry_closed_as (cp_tool_journal s) (cp_tool_journal c')
  | None => cp_tool_journal c' = []
  end.
Proof.
  intros Hp. pose proof (terminal_snapshot_journals _ _ _ _ Hp) as [? ?].
  apply terminal_snapshot_spec in Hp as (? & _ & _ & _ & _ & _ & _ & _ & ? & ? & ?).
  by repeat (split; [done|]).
Qed.

(** A delivery marks one event.  It is accepted only at the stored
    revision and with the stored claim token, for a pending event of that id
    and payload digest; that entry becomes delivered with the cursor, the
    cursor moves to it, and nothing else but the revision changes.  The same
    delivery is not accepted again on the result. *)
Theorem event_delivery_exact `{Env} (current c' : Checkpoint) (token : option string) (r : N)
    (id digest : string) (cursor : EventCursor) :
  prepare_event_delivery current token r id digest cursor = Ok (Some c') ->
  advances current c' /\ cp_revision current = r /\ cp_claim_token current = token /\
  cur_last_event_id cursor = Some id /\
  (exists i e, cp_event_outbox current !! i = Some e /\ ob_event_id e = id /\
     ob_payload_digest e = digest /\ is_pending e = true /\
     c' = set_revision (set_event_cursor (set_event_outbox current
            (<[i := deliver e (cursor_to_value cursor)]> (cp_event_outbox current))) (Some cursor))
            (r + 1)) /\
  prepare_event_delivery c' token r id digest cursor = Ok None.
Proof.
  intros Hp. pose proof (delivery_spec _ _ _ _ _ _ _ Hp) as ([Hadv _] & Hr & Htok & Hex).
  assert (Hcur : cur_last_event_id cursor = Some id)
    by (unfold prepare_event_delivery in Hp; result_inv; by bool_inv).
  repeat (split; [done|]). destruct Hadv as [_ Hrev _].
  unfold prepare_event_delivery in *. result_inv.
  destruct (N.eqb_spec (cp_revision c') r) as [Heq|_]; [lia|done].
Qed.

(** ** Examples *)

Section Examples.
Local Existing Instance toy_env.

Definition ran {A} (r : result (option A)) : bool :=
  match r with Ok (Some _) => true | _ => false end.

Lemma ran_true {A} (r : result (option A)) : ran r = true -> exists a, r = Ok (Some a).
Proof. destruct r as [[a|]|]; try done. eauto. Qed.

Example sample_valid : validate_checkpoint sample_checkpoint = Ok tt.
Proof. vm_compute. reflexivity. Qed.
Example sample_progress_runs :
  ran (prepare_progress sample_checkpoint sample_checkpoint "owner" 3) = true.
Proof. vm_compute. reflexivity. Qed.

(** A finished run. *)
Definition sample_terminal : Checkpoint :=
  set_terminal_result (set_status sample_identity CompletedS)
    (Some (agent_result_to_dict (sample_agent_result CompletedA None []))).
Example sample_terminal_valid : validate_checkpoint sample_terminal = Ok tt.
Proof. vm_compute. reflexivity. Qed.
Example sample_ack_runs : ran (prepare_ack sample_terminal 0) = true.
Proof. vm_compute. reflexivity. Qed.

Example sample_receipt_runs :
  ran (prepare_tool_receipt sample_clock sample_checkpoint sample_checkpoint "op_t" 1 "call_1"
         sample_digest sample_result "owner" 3 1) = true.
Proof. vm_compute. reflexivity. Qed.

(** The claimed run, cancelled while the tool call is still open. *)
Definition sample_cancelled : Checkpoint :=
  set_terminal_result (set_status sample_checkpoint FailedS)
    (Some (agent_result_to_dict (sample_agent_result FailedA
       (Some {| ae_code := "cancelled"; ae_message := "stopped"; ae_retryable := false |})
       [sample_record]))).
Example sample_cancelled_runs :
  is_ok (prepare_terminal_snapshot sample_clock sample_cancelled 3) = true.
Proof. vm_compute. reflexivity. Qed.

Definition sample_cursor : EventCursor :=
  cursor_new {| cap_id := "store"; cap_version := "v1" |} (sequence_cursor 0) (Some "evt_model_started").
Definition sample_event_digest : string :=
  match sample_model_events with e :: _ => ob_payload_digest e | [] => EmptyString end.
Example sample_delivery_runs :
  ran (prepare_event_delivery sample_checkpoint (Some "owner") 3 "evt_model_started"
         sample_event_digest sample_cursor) = true.
Proof. vm_compute. reflexivity. Qed.

Lemma kernel_safe_witness :
  exists c', prepare_progress sample_checkpoint sample_checkpoint "owner" 3 = Ok (Some c') /\
    validate_checkpoint c' = Ok tt /\ checkpoint_wf c'.
Proof.
  destruct (ran_true _ sample_progress_runs) as [c' E]. exists c'. split; [exact E|].
  destruct (kernel_safe sample_clock sample_checkpoint c' sample_valid
    (rtc_once _ _ (step_write sample_clock _ _ _ _ (write_progress sample_clock _ _ _ _ _ E))))
    as (H1 & H2 & _).
  exact (conj H1 H2).
Defined.


Lemma stale_writer_fenced_witness :
  exists c', prepare_progress sample_checkpoint sample_checkpoint "owner" 3 = Ok (Some c') /\
    forall c3, ~ kernel_write sample_clock c' (Some "owner") 3 c3.
Proof.
  destruct (ran_true _ sample_progress_runs) as [c' E]. exists c'. split; [exact E|].
  intros c3. exact (proj1 (stale_writer_fenced sample_clock sample_checkpoint c' c'
    (step_write sample_clock _ _ _ _ (write_progress sample_clock _ _ _ _ _ E)) (rtc_refl _ c'))
    (Some "owner") c3).
Defined.

Lemma tool_receipt_recorded_witness :
  exists c', prepare_tool_receipt sample_clock sample_checkpoint sample_checkpoint "op_t" 1 "call_1"
      sample_digest sample_result "owner" 3 1 = Ok (Some c') /\ advances sample_checkpoint c'.
Proof.
  destruct (ran_true _ sample_receipt_runs) as [c' E]. exists c'. split; [exact E|].
  exact (proj1 (proj1 (tool_receipt_recorded sample_clock sample_checkpoint sample_checkpoint "op_t"
    1 "call_1" sample_digest sample_result "owner" 3 1 c' E))).
Defined.

Lemma merge_observations_exact_witness :
  let merged := merge_observations [] [unknown_tool_observation sample_started_tool] in
  map observation_key merged = [Some ("op_t", 1%N, 1%N)] /\ NoDup (map observation_key merged).
Proof.
  intros merged. split; [vm_compute; reflexivity|].
  exact (proj1 (proj2 (merge_observations_exact [] [unknown_tool_observation sample_started_tool]
    ltac:(repeat constructor)))).
Defined.

Lemma finalize_closes_operations_witness :
  exists c', prepare_terminal_snapshot sample_clock sample_cancelled 3 = Ok c' /\
    Forall2 entry_closed_as (cp_tool_journal sample_cancelled) (cp_tool_journal c').
Proof.
  pose proof sample_cancelled_runs as Hruns.
  destruct (prepare_terminal_snapshot sample_clock sample_cancelled 3) as [c'|] eqn:E;
    [|discriminate Hruns].
  exists c'. split; [reflexivity|].
  exact (proj2 (proj2 (proj2 (proj2 (proj2
    (finalize_closes_operations sample_clock sample_cancelled c' 3 E)))))).
Defined.

Lemma event_delivery_exact_witness :
  exists c', prepare_event_delivery sample_checkpoint (Some "owner") 3 "evt_model_started"
      sample_event_digest sample_cursor = Ok (Some c') /\ advances sample_checkpoint c'.
Proof.
  destruct (ran_true _ sample_delivery_runs) as [c' E]. exists c'. split; [exact E|].
  exact (proj1 (event_delivery_exact sample_checkpoint c' (Some "owner") 3 "evt_model_started"
    sample_event_digest sample_cursor E)).
Defined.
End Examples.
