(* ===== verification/Store.v ===== *)
(** * The in-memory checkpoint store

    [runtime/stores/memory.rs] and [memory_impl_core.rs]: the state of
    [InMemoryCheckpointStore] and the operations that create, claim, advance,
    end and archive checkpoints.  An operation is a state transformer that may
    fail; what it wrote before failing stays written.  The locks of the source
    make each operation atomic; a poisoned lock is not modelled. *)

From Stdlib Require Import Ascii String NArith Lia.
From stdpp Require Import base strings list sets gmap relations.
From S2P Require Import Prelude Json Canonical CheckpointTypes ToolResult Journal TokenUsage.
From S2P Require Import Budget BudgetWire Records ResultCodec Events HostInteraction Controller.
From S2P Require Import Checkpoint History Deferred Transitions.

(** ** State *)

Record WakeLease := { wl_claim_token : string; wl_lease_expires_at_ms : N }.
#[global] Instance WakeLease_eq_dec : EqDecision WakeLease.
Proof. solve_decision. Defined.

Record ControllerLedger := {
  lg_host_interactions : list (string * HostInteractionRecord);
  lg_notifications : list (string * HostInteractionNotificationRecord);
  lg_command_receipts : list (string * (ControllerCommandReceipt * ControllerCommandResolution));
  lg_commands : list (string * ControllerCommand);
  lg_wake_leases : list (string * WakeLease)
}.
Definition ledger_default : ControllerLedger :=
  {| lg_host_interactions := []; lg_notifications := []; lg_command_receipts := [];
     lg_commands := []; lg_wake_leases := [] |}.

Record ArchivedHistory := { ah_payloads : list string; ah_call_ids : gset string }.
Definition archived_default : ArchivedHistory := {| ah_payloads := []; ah_call_ids := ∅ |}.

Record Store := {
  st_checkpoints : list (string * Checkpoint);
  st_history : list (string * ArchivedHistory);
  st_deferred_receipts : list (string * DeferredReceipt);
  st_ledger : ControllerLedger
}.
Definition store_new : Store :=
  {| st_checkpoints := []; st_history := []; st_deferred_receipts := [];
     st_ledger := ledger_default |}.

Definition set_checkpoints (s : Store) (v : list (string * Checkpoint)) : Store :=
  {| st_checkpoints := v; st_history := st_history s;
     st_deferred_receipts := st_deferred_receipts s; st_ledger := st_ledger s |}.
Definition set_store_history (s : Store) (v : list (string * ArchivedHistory)) : Store :=
  {| st_checkpoints := st_checkpoints s; st_history := v;
     st_deferred_receipts := st_deferred_receipts s; st_ledger := st_ledger s |}.
Definition set_deferred_receipts (s : Store) (v : list (string * DeferredReceipt)) : Store :=
  {| st_checkpoints := st_checkpoints s; st_history := st_history s;
     st_deferred_receipts := v; st_ledger := st_ledger s |}.
Definition set_ledger (s : Store) (v : ControllerLedger) : Store :=
  {| st_checkpoints := st_checkpoints s; st_history := st_history s;
     st_deferred_receipts := st_deferred_receipts s; st_ledger := v |}.

(** ** Effects *)

Definition M (A : Type) : Type := Store -> result A * Store.
#[global] Instance M_ret : MRet M := fun A a s => (Ok a, s).
#[global] Instance M_bind : MBind M := fun A B f m s =>
  match m s with
  | (Ok a, s') => f a s'
  | (Err e, s') => (Err e, s')
  end.
Definition lift {A} (r : result A) : M A := fun s => (r, s).
Definition throw {A} (e : string) : M A := fun s => (Err e, s).
Definition get_store : M Store := fun s => (Ok s, s).
Definition modify (f : Store -> Store) : M unit := fun s => (Ok tt, f s).
(** [if b { return Err(..) }]. *)
Definition reject (b : bool) (e : string) : M unit := if b then throw e else mret tt.

Section Store.
Context `{Env} `{StrictJson} (clock : string -> Number).

(** ** History *)

(** The call ids of a batch, read from its payload. *)
Definition payload_call_ids (payload : Value) : list string :=
  omap (fun record => get_str record "call_id")
    (unwrap_or (value_get payload "model_calls" ≫= as_array) []).

Definition put_archive (key : string) (a : ArchivedHistory) : M unit :=
  modify (fun s => set_store_history s (map_insert key a (st_history s))).

Definition persist_history (c : Checkpoint) : M Checkpoint :=
  s ← get_store;
  reject (is_some_and (map_get (cp_checkpoint_key c) (st_history s)) (fun a =>
            existsb (fun r => bool_decide (mc_call_id r ∈ ah_call_ids a)) (cp_model_calls c)))
         history_invalid;;
  normalized ← lift (normalize_checkpoint_history c);
  let c := normalized.1 in
  match normalized.2 with
  | None => mret c
  | Some batch =>
      (* [entry(..).or_default()] leaves the empty archive behind on failure *)
      let archive := unwrap_or (map_get (cp_checkpoint_key c) (st_history s)) archived_default in
      put_archive (cp_checkpoint_key c) archive;;
      reject (negb (N.of_nat (length (ah_payloads archive)) + 1 =? hb_sequence batch)%N)
             history_invalid;;
      payload ← lift (canonical_json_bytes (hb_payload batch));
      put_archive (cp_checkpoint_key c)
        {| ah_payloads := ah_payloads archive ++ [payload];
           ah_call_ids := ah_call_ids archive ∪ list_to_set (payload_call_ids (hb_payload batch)) |};;
      mret c
  end.

(** ** Creation and reading *)

Definition put_checkpoint (key : string) (c : Checkpoint) : M unit :=
  modify (fun s => set_checkpoints s (map_insert key c (st_checkpoints s))).

Definition save_checkpoint (c : Checkpoint) : M unit :=
  lift (validate_checkpoint c);;
  c ← persist_history c;
  put_checkpoint (cp_checkpoint_key c) c.

Definition create_checkpoint (c : Checkpoint) : M bool :=
  lift (validate_checkpoint_creation c);;
  s ← get_store;
  if map_contains_key (cp_checkpoint_key c) (st_checkpoints s) then mret false
  else put_checkpoint (cp_checkpoint_key c) c;; mret true.

Definition load_checkpoint (key : string) : M (option Checkpoint) :=
  s ← get_store; mret (map_get key (st_checkpoints s)).

Definition load_checkpoint_history (key : string) : M CheckpointHistoryRecords :=
  s ← get_store;
  match map_get key (st_checkpoints s) with
  | None => mret history_records_default
  | Some c =>
      lift (decode_checkpoint_history c
              (unwrap_or (ah_payloads <$> map_get key (st_history s)) []))
  end.

Definition list_checkpoints : M (list string) :=
  s ← get_store; mret (map_keys (st_checkpoints s)).

(** ** Claims *)

Definition claim_args_invalid (claim_token : string) (lease now : N) : bool :=
  trim_is_empty claim_token || (lease <=? now)%N.

Definition response_unresolved (key : string) (r : HostInteractionRecord) : bool :=
  String.eqb (ir_checkpoint_key r) key
  && (String.eqb (ir_state r) "resolved_pending" || String.eqb (ir_state r) "resolved_claimed").

Definition claim_checkpoint (key : string) (cycle_index : N) (claim_token : string)
    (lease now : N) (mode : ClaimMode) : M (option Checkpoint) :=
  reject (claim_args_invalid claim_token lease now) claim_invalid;;
  s ← get_store;
  match map_get key (st_checkpoints s) with
  | None => mret None
  | Some current =>
      reject (existsb (fun kv => response_unresolved key kv.2)
                (lg_host_interactions (st_ledger s))) "host_interaction_recovery_required";;
      free ← lift (claim_candidate current cycle_index now mode);
      if negb free then mret None
      else
        claimed ← lift (apply_claim current cycle_index claim_token lease mode);
        lift (validate_checkpoint claimed);;
        put_checkpoint key claimed;;
        mret (Some claimed)
  end.

Definition renew_checkpoint_claim (key claim_token : string) (lease now : N)
    : M CheckpointRenewalOutcome :=
  reject (claim_args_invalid claim_token lease now) claim_invalid;;
  s ← get_store;
  match map_get key (st_checkpoints s) with
  | None => mret (ClaimLost 0)
  | Some c =>
      if negb (opt_is (cp_claim_token c) claim_token)
         || is_none_or (cp_lease_expires_at_ms c) (fun expiry => (expiry <=? now)%N)
      then mret (ClaimLost (cp_revision c))
      else
        put_checkpoint key (set_claim c (cp_claim_token c) (cp_claimed_cycle c) (Some lease));;
        mret (if cp_cancel_requested c then CancelRequested lease else Renewed lease)
  end.

(** ** Writes *)

(** The shape the writes share: read the checkpoint under the key, prepare the
    next one, archive its history and store it; [false] when the checkpoint is
    gone or the caller lost the race. *)
Definition update_checkpoint (key : string) (prepare : Checkpoint -> result (option Checkpoint))
    : M bool :=
  s ← get_store;
  match map_get key (st_checkpoints s) with
  | None => mret false
  | Some current =>
      prepared ← lift (prepare current);
      match prepared with
      | None => mret false
      | Some updated =>
          updated ← persist_history updated;
          put_checkpoint (cp_checkpoint_key updated) updated;;
          mret true
      end
  end.

Definition progress_checkpoint (c : Checkpoint) (claim_token : string) (expected : N) : M bool :=
  update_checkpoint (cp_checkpoint_key c)
    (fun current => prepare_progress current c claim_token expected).
Definition suspend_checkpoint (c : Checkpoint) (claim_token : string) (expected : N) : M bool :=
  update_checkpoint (cp_checkpoint_key c)
    (fun current => prepare_suspend current c claim_token expected).
Definition commit_checkpoint (c : Checkpoint) (claim_token : string) (expected : N) : M bool :=
  update_checkpoint (cp_checkpoint_key c)
    (fun current => prepare_commit current c claim_token expected).
Definition finalize_checkpoint (c : Checkpoint) (expected : N) : M bool :=
  update_checkpoint (cp_checkpoint_key c)
    (fun current => prepare_finalize clock current c expected).
Definition finalize_claimed_checkpoint (c : Checkpoint) (claim_token : string) (expected : N)
    : M bool :=
  update_checkpoint (cp_checkpoint_key c)
    (fun current => prepare_finalize_claimed clock current c claim_token expected).

Definition record_tool_receipt (c : Checkpoint) (operation_id : string) (attempt : N)
    (tool_call_id request_digest : string) (r : ToolExecutionResult) (claim_token : string)
    (expected claimed_cycle : N) : M bool :=
  lift (validate_definitive_result r);;
  identity_key ← lift (tool_receipt_identity_key (cp_checkpoint_key c) operation_id attempt
                         tool_call_id request_digest);
  digest ← lift (tool_result_digest r);
  s ← get_store;
  match map_get (cp_checkpoint_key c) (st_checkpoints s) with
  | None => mret false
  | Some current =>
      match List.find (fun e => opt_is (j_identity_key e) identity_key) (cp_tool_journal current) with
      | Some existing =>
          if opt_is (j_result_digest existing) digest then mret true
          else throw "tool_receipt_conflict"
      | None =>
          update_checkpoint (cp_checkpoint_key c) (fun current =>
            prepare_tool_receipt clock current c operation_id attempt tool_call_id request_digest
              r claim_token expected claimed_cycle)
      end
  end.

(** These two store the checkpoint under the key they were called with. *)
Definition update_checkpoint_at (key : string)
    (prepare : Checkpoint -> result (option Checkpoint)) : M bool :=
  s ← get_store;
  match map_get key (st_checkpoints s) with
  | None => mret false
  | Some current =>
      prepared ← lift (prepare current);
      match prepared with
      | None => mret false
      | Some updated =>
          updated ← persist_history updated;
          put_checkpoint key updated;;
          mret true
      end
  end.
Definition acknowledge_terminal (key : string) (expected : N) : M bool :=
  update_checkpoint_at key (fun current => prepare_ack current expected).
Definition record_event_delivery (key : string) (claim_token : option string) (expected : N)
    (event_id payload_digest : string) (cursor : EventCursor) : M bool :=
  update_checkpoint_at key (fun current =>
    prepare_event_delivery current claim_token expected event_id payload_digest cursor).

(** ** Deferred batches *)

Record DeferredBatchAdmission := {
  da_checkpoint : Checkpoint;
  da_handles : list DeferredToolHandle
}.

Definition store_admit_deferred_batch (key : string) (expected : N) (claim_token : string)
    (claimed_cycle : N) (entries : list DeferredBatchEntry) : M DeferredBatchAdmission :=
  s ← get_store;
  current ← lift (ok_or (map_get key (st_checkpoints s)) "checkpoint_not_found");
  admitted ← lift (admit_deferred_batch clock current expected claim_token claimed_cycle entries);
  reject (cp_revision admitted.1 =? cp_revision current)%N "checkpoint_revision_conflict";;
  updated ← persist_history admitted.1;
  put_checkpoint key updated;;
  mret {| da_checkpoint := updated; da_handles := admitted.2 |}.

Definition store_accept_deferred_batch (key : string) (expected : N) (claim_token : string)
    (claimed_cycle : N) (decisions : list AcceptDeferredDecision) : M DeferredBatchAdmission :=
  s ← get_store;
  current ← lift (ok_or (map_get key (st_checkpoints s)) "checkpoint_not_found");
  let handles := map ad_handle decisions in
  if deferred_batch_is_idempotent current decisions
  then mret {| da_checkpoint := current; da_handles := handles |}
  else
    accepted ← lift (accept_deferred_batch clock current expected claim_token claimed_cycle decisions);
    reject (negb accepted.2) "reconciliation_required";;
    updated ← persist_history accepted.1;
    put_checkpoint key updated;;
    mret {| da_checkpoint := updated; da_handles := handles |}.

(** *** Resolution of a deferred operation *)

Definition resolve_matches (handle : DeferredToolHandle) (e : OperationJournalEntry) : bool :=
  String.eqb (j_operation_id e) (h_operation_id handle) && (j_attempt e =? h_attempt handle)%N
  && String.eqb (j_request_digest e) (h_request_digest handle).

(** The assignments to the entry; any other status is [unreachable!] after
    [validate_definitive_result]. *)
Definition resolve_entry (identity_key digest : string) (r : ToolExecutionResult)
    (e : OperationJournalEntry) : result OperationJournalEntry :=
  match tr_status r with
  | Success => Ok (set_receipt Succeeded (Some identity_key) (Some digest) (Some (to_dict r))
                     (j_error e) None (j_resume_observation e) e)
  | Error => Ok (set_receipt Failed (Some identity_key) (Some digest) (Some (to_dict r))
                   (Some (operation_error_from_tool_result r)) None
                   (if opt_is (tr_error_code r) "tool_outcome_unknown"
                    then Some (unknown_tool_observation e) else j_resume_observation e) e)
  | _ => Err "unreachable"
  end.

Definition has_deferred (c : Checkpoint) : bool :=
  existsb (fun e => j_state e =?? Deferred) (cp_tool_journal c).
Definition resolved_status (c : Checkpoint) : CheckpointStatus :=
  if cp_status c =?? SuspendedS then SuspendedS
  else if has_deferred c then DeferredS else RunningS.

(** The checkpoint after the entry at [index] is closed, and its event. *)
Definition resolve_checkpoint (c : Checkpoint) (index : nat) (e : OperationJournalEntry)
    (r : ToolExecutionResult) : result (Checkpoint * EventOutboxEntry) :=
  let? event := receipt_event clock c e r in
  let? identity := tool_receipt_identity_key (cp_checkpoint_key c) (j_operation_id e) (j_attempt e)
                     (unwrap_or (j_tool_call_id e) EmptyString) (j_request_digest e) in
  let? digest := tool_result_digest r in
  let? e := resolve_entry identity digest r e in
  let updated := set_tool_journal c (<[index := e]> (cp_tool_journal c)) in
  let updated := set_event_outbox updated (cp_event_outbox updated ++ [event]) in
  let updated := set_status updated (resolved_status updated) in
  let? revision := ok_or (checked_add (cp_revision c) 1) revision_overflow in
  let updated := set_revision updated revision in
  do? validate_checkpoint updated ;;
  Ok (updated, event).

Definition stale : string := "deferred_resolution_stale".

Definition resolve_deferred (handle : DeferredToolHandle) (r : ToolExecutionResult)
    : M DeferredResolveDecision :=
  lift (validate_definitive_result r);;
  key ← lift (handle_key handle);
  s ← get_store;
  match map_get key (st_deferred_receipts s) with
  | Some receipt =>
      known ← lift (result_digest (dr_result receipt));
      digest ← lift (result_digest r);
      if String.eqb known digest then mret (Replayed receipt)
      else throw "deferred_resolution_conflict"
  | None =>
      c ← lift (ok_or (map_get (h_checkpoint_key handle) (st_checkpoints s)) stale);
      index ← lift (ok_or (position (resolve_matches handle) (cp_tool_journal c)) stale);
      e ← lift (ok_or (cp_tool_journal c !! index) stale);
      if j_state e =?? Started then mret not_admitted
      else if j_state e =?? Ambiguous then mret ReconciliationRequiredD
      else
        reject (is_some (cp_claim_token c)) "deferred_checkpoint_claimed";;
        reject ((j_state e <>?? Deferred) || (j_deferred_handle e <>?? Some handle)) stale;;
        reject (negb (opt_is (j_tool_call_id e) (tr_tool_call_id r))) stale;;
        resolved ← lift (resolve_checkpoint c index e r);
        receipt ← lift (receipt_new handle r (ob_event_id resolved.2) (ob_payload_digest resolved.2));
        updated ← persist_history resolved.1;
        modify (fun s => set_deferred_receipts s (map_insert key receipt (st_deferred_receipts s)));;
        put_checkpoint (cp_checkpoint_key updated) updated;;
        mret (if has_deferred resolved.1 || (cp_status resolved.1 =?? SuspendedS)
              then AppliedWaiting receipt else AppliedReady receipt)
  end.
End Store.

(** ** Running an operation *)

Lemma bind_run {A B} (m : M A) (f : A -> M B) s r s' :
  (m ≫= f) s = (r, s') ->
  (exists a s1, m s = (Ok a, s1) /\ f a s1 = (r, s')) \/ (exists e, m s = (Err e, s') /\ r = Err e).
Proof.
  unfold mbind, M_bind. destruct (m s) as [[a|e] s1] eqn:E; intros Hr.
  - left. by exists a, s1.
  - right. exists e. by simplify_eq.
Qed.

(** [store_inv] follows an operation through its branches. *)
Ltac store_step_inv :=
  match goal with
  | H : (mbind _ _) _ = (_, _) |- _ =>
      let H' := fresh "Hrun" in
      apply bind_run in H as [(? & ? & H' & H)|(? & H' & ?)]; [|first [discriminate|subst]]
  | H : lift _ _ = (_, _) |- _ => unfold lift in H; simplify_eq H; clear H; intros; subst
  | H : get_store _ = (_, _) |- _ => unfold get_store in H; simplify_eq H; clear H; intros; subst
  | H : modify _ _ = (_, _) |- _ => unfold modify in H; simplify_eq H; clear H; intros; subst
  | H : throw _ _ = (_, _) |- _ => unfold throw in H; simplify_eq H; clear H; intros; subst
  | H : reject ?b _ _ = (_, _) |- _ => unfold reject in H; let E := fresh "Hrej" in destruct b eqn:E
  | H : mret _ _ = (_, _) |- _ => unfold mret, M_ret in H; simplify_eq H; clear H; intros; subst
  | H : (match ?x with _ => _ end) _ = (_, _) |- _ =>
      let E := fresh "Hcase" in destruct x eqn:E
  end.
Ltac store_inv := repeat (cbv zeta in *; store_step_inv).

Ltac store_eta := repeat match goal with s : Store |- _ => destruct s end.

Section Archiving.
Context `{Env} `{StrictJson}.

(** What archiving does to the rest of the store: nothing. *)
Lemma persist_history_frame c s r s' :
  persist_history c s = (r, s') ->
  s' = set_store_history s (st_history s') /\
  (forall c', r = Ok c' -> exists ob, normalize_checkpoint_history c = Ok (c', ob)).
Proof.
  unfold persist_history, put_archive. intros Hp.
  store_inv; (split; [by store_eta|intros; simplify_eq]).
  all: match goal with E : normalize_checkpoint_history _ = Ok ?p |- _ => destruct p; simplify_eq/=; eauto end.
Qed.

End Archiving.

(** [persisted] replaces an archiving by what it leaves unchanged. *)
Ltac persisted :=
  match goal with
  | H : persist_history _ ?s = (?r, ?s1) |- _ =>
      let E := fresh "Hs1" in let N := fresh "Hnorm" in
      apply persist_history_frame in H as [E N];
      try (destruct (N _ eq_refl) as [? ?]; clear N); rewrite E; clear E
  end.

Section Lemmas.
Context `{Env} `{StrictJson}.

(** ** Operations and their effect *)

Inductive StoreOp :=
| OpCreate (c : Checkpoint)
| OpClaim (key : string) (cycle : N) (token : string) (lease now : N) (mode : ClaimMode)
| OpRenew (key token : string) (lease now : N)
| OpProgress (c : Checkpoint) (token : string) (expected : N)
| OpSuspend (c : Checkpoint) (token : string) (expected : N)
| OpCommit (c : Checkpoint) (token : string) (expected : N)
| OpFinalize (c : Checkpoint) (expected : N)
| OpFinalizeClaimed (c : Checkpoint) (token : string) (expected : N)
| OpReceipt (c : Checkpoint) (operation : string) (attempt : N) (call digest : string)
    (r : ToolExecutionResult) (token : string) (expected cycle : N)
| OpAcknowledge (key : string) (expected : N)
| OpDelivery (key : string) (token : option string) (expected : N) (event digest : string)
    (cursor : EventCursor)
| OpAdmit (key : string) (expected : N) (token : string) (cycle : N)
    (entries : list DeferredBatchEntry)
| OpAccept (key : string) (expected : N) (token : string) (cycle : N)
    (decisions : list AcceptDeferredDecision)
| OpResolve (handle : DeferredToolHandle) (r : ToolExecutionResult).

Definition discard {A} (m : M A) : M unit := m ≫= fun _ => mret tt.
Definition run_op (clock : string -> Number) (op : StoreOp) : M unit :=
  match op with
  | OpCreate c => discard (create_checkpoint c)
  | OpClaim key cycle token lease now mode =>
      discard (claim_checkpoint key cycle token lease now mode)
  | OpRenew key token lease now => discard (renew_checkpoint_claim key token lease now)
  | OpProgress c token r => discard (progress_checkpoint c token r)
  | OpSuspend c token r => discard (suspend_checkpoint c token r)
  | OpCommit c token r => discard (commit_checkpoint c token r)
  | OpFinalize c r => discard (finalize_checkpoint clock c r)
  | OpFinalizeClaimed c token r => discard (finalize_claimed_checkpoint clock c token r)
  | OpReceipt c op attempt call digest x token r cycle =>
      discard (record_tool_receipt clock c op attempt call digest x token r cycle)
  | OpAcknowledge key r => discard (acknowledge_terminal key r)
  | OpDelivery key token r event digest cursor =>
      discard (record_event_delivery key token r event digest cursor)
  | OpAdmit key r token cycle entries =>
      discard (store_admit_deferred_batch clock key r token cycle entries)
  | OpAccept key r token cycle decisions =>
      discard (store_accept_deferred_batch clock key r token cycle decisions)
  | OpResolve handle x => discard (resolve_deferred clock handle x)
  end.

(** One change of a stored checkpoint: a claim, a kernel write or the
    resolution of a deferred call followed by archiving, or a renewal. *)
Inductive checkpoint_step (clock : string -> Number) (c c' : Checkpoint) : Prop :=
| cs_claim cycle token lease now mode :
    claim_candidate c cycle now mode = Ok true ->
    apply_claim c cycle token lease mode = Ok c' -> validate_checkpoint c' = Ok tt ->
    (now < lease)%N -> checkpoint_step clock c c'
| cs_write actor r d ob :
    kernel_write clock c actor r d -> normalize_checkpoint_history d = Ok (c', ob) ->
    checkpoint_step clock c c'
| cs_resolve index e x d event ob :
    cp_claim_token c = None -> cp_tool_journal c !! index = Some e -> j_state e = Deferred ->
    resolve_checkpoint clock c index e x = Ok (d, event) ->
    normalize_checkpoint_history d = Ok (c', ob) -> checkpoint_step clock c c'
| cs_renew token expiry lease now :
    cp_claim_token c = Some token -> cp_lease_expires_at_ms c = Some expiry ->
    (now < expiry)%N -> (now < lease)%N ->
    c' = set_claim c (cp_claim_token c) (cp_claimed_cycle c) (Some lease) ->
    checkpoint_step clock c c'.

Definition keyed (s : Store) : Prop :=
  forall k c, map_get k (st_checkpoints s) = Some c -> cp_checkpoint_key c = k.

(** At most one checkpoint changes, by a step or by its creation. *)
Definition store_effect (clock : string -> Number) (s s' : Store) : Prop :=
  st_checkpoints s' = st_checkpoints s \/
  exists k c', st_checkpoints s' = map_insert k c' (st_checkpoints s) /\
    match map_get k (st_checkpoints s) with
    | None => validate_checkpoint_creation c' = Ok tt /\ cp_checkpoint_key c' = k
    | Some c => checkpoint_step clock c c'
    end.

Lemma run_identity_key c c' :
  run_identity c' = run_identity c -> cp_checkpoint_key c' = cp_checkpoint_key c.
Proof. unfold run_identity. congruence. Qed.

Lemma normalize_frame c c' ob :
  validate_checkpoint c = Ok tt -> normalize_checkpoint_history c = Ok (c', ob) ->
  validate_checkpoint c' = Ok tt /\ run_identity c' = run_identity c /\
  cp_revision c' = cp_revision c /\ cp_claim_token c' = cp_claim_token c /\
  cp_status c' = cp_status c /\ cp_tool_journal c' = cp_tool_journal c.
Proof.
  intros Hv Hn. pose proof (normalize_spec _ _ _ Hv Hn) as Hs. destruct ob as [batch|].
  - destruct Hs as (cycles & calls & Hai). split; [exact (ai_valid _ _ _ _ _ Hai)|].
    rewrite (ai_frame _ _ _ _ _ Hai). by destruct c.
  - by subst.
Qed.

Lemma resolve_spec clock c index e x d event :
  cp_tool_journal c !! index = Some e -> resolve_checkpoint clock c index e x = Ok (d, event) ->
  advances c d /\ monotone c d.
Proof.
  intros He Hr. unfold resolve_checkpoint in Hr. result_inv. unit_inv.
  apply checked_add_Some in Hdo3 as [-> _].
  split; constructor; cbn; try done; try lia. 
Qed.

Record op_effect {A} (clock : string -> Number) (s : Store) (r : result A) (s' : Store) : Prop := {
  oe_checkpoints : store_effect clock s s';
  oe_failed : forall e, r = Err e ->
    st_checkpoints s' = st_checkpoints s /\ st_deferred_receipts s' = st_deferred_receipts s;
  oe_receipts : forall k x, map_get k (st_deferred_receipts s) = Some x ->
    map_get k (st_deferred_receipts s') = Some x;
  oe_ledger : st_ledger s' = st_ledger s
}.

Lemma effect_same {A} clock s (r : result A) h : op_effect clock s r (set_store_history s h).
Proof. constructor; [by left|done..]. Qed.
Lemma effect_refl {A} clock s (r : result A) : op_effect clock s r s.
Proof. constructor; [by left|done..]. Qed.

(** The state after the checkpoint under [k] was replaced. *)
Lemma effect_put {A} clock s (a : A) h k c c' :
  map_get k (st_checkpoints s) = Some c -> checkpoint_step clock c c' ->
  op_effect clock s (Ok a)
    (set_checkpoints (set_store_history s h)
       (map_insert k c' (st_checkpoints (set_store_history s h)))).
Proof.
  intros Hk Hs. constructor; [|done..]. right. exists k, c'. split; [done|]. by rewrite Hk.
Qed.

Lemma discard_effect {A} clock (m : M A) s r s' :
  (forall x, m s = (x, s') -> op_effect clock s x s') ->
  discard m s = (r, s') -> op_effect clock s r s'.
Proof.
  unfold discard. intros Hm Hr. store_inv.
  - destruct (Hm _ Hrun). constructor; try done.
  - destruct (Hm _ Hrun). constructor; try done. intros e' [= <-]. by apply (oe_failed0 x).
Qed.

Lemma write_step clock c actor r d c' ob :
  kernel_write clock c actor r d -> normalize_checkpoint_history d = Ok (c', ob) ->
  checkpoint_step clock c c' /\ cp_checkpoint_key c' = cp_checkpoint_key c.
Proof.
  intros Hw Hn. split; [by eapply cs_write|]. apply kernel_write_spec in Hw as [[[Hv _ Hid] _] _].
  destruct (normalize_frame _ _ _ Hv Hn) as (_ & Hid' & _).
  apply run_identity_key. congruence.
Qed.

Lemma update_effect clock key prepare s r s' :
  keyed s ->
  (forall c d, prepare c = Ok (Some d) -> exists actor n, kernel_write clock c actor n d) ->
  update_checkpoint key prepare s = (r, s') -> op_effect clock s r s'.
Proof.
  intros Hk Hp Hu. unfold update_checkpoint, put_checkpoint in Hu.
  store_inv; try apply effect_refl; persisted; [|apply effect_same].
  match goal with E : prepare _ = Ok (Some _), N : normalize_checkpoint_history _ = _ |- _ =>
    destruct (Hp _ _ E) as (actor & n & Hw); destruct (write_step _ _ _ _ _ _ _ Hw N) as [Hs ->] end.
  rewrite (Hk _ _ Hcase). by eapply effect_put.
Qed.
Lemma update_at_effect clock key prepare s r s' :
  (forall c d, prepare c = Ok (Some d) -> exists actor n, kernel_write clock c actor n d) ->
  update_checkpoint_at key prepare s = (r, s') -> op_effect clock s r s'.
Proof.
  intros Hp Hu. unfold update_checkpoint_at, put_checkpoint in Hu.
  store_inv; try apply effect_refl; persisted; [|apply effect_same].
  match goal with E : prepare _ = Ok (Some _), N : normalize_checkpoint_history _ = _ |- _ =>
    destruct (Hp _ _ E) as (actor & n & Hw); destruct (write_step _ _ _ _ _ _ _ Hw N) as [Hs _] end.
  by eapply effect_put.
Qed.

Lemma create_effect clock c s r s' : create_checkpoint c s = (r, s') -> op_effect clock s r s'.
Proof.
  unfold create_checkpoint, put_checkpoint. intros Hr. store_inv; try apply effect_refl.
  constructor; [|done..]. right. eexists _, _. split; [done|].
  unfold map_contains_key in Hcase. apply is_some_false in Hcase as ->. by unit_inv.
Qed.

(** The same without archiving. *)
Lemma effect_put_plain {A} clock s (a : A) k c c' :
  map_get k (st_checkpoints s) = Some c -> checkpoint_step clock c c' ->
  op_effect clock s (Ok a) (set_checkpoints s (map_insert k c' (st_checkpoints s))).
Proof.
  intros Hk Hs. constructor; [|done..]. right. exists k, c'. split; [done|]. by rewrite Hk.
Qed.

Lemma claim_effect clock key cycle token lease now mode s r s' :
  claim_checkpoint key cycle token lease now mode s = (r, s') -> op_effect clock s r s'.
Proof.
  unfold claim_checkpoint, put_checkpoint, claim_args_invalid. intros Hr.
  store_inv; try apply effect_refl. bool_inv. unit_inv. simplify_eq.
  eapply effect_put_plain; [done|]. by eapply cs_claim.
Qed.

Lemma renew_effect clock key token lease now s r s' :
  renew_checkpoint_claim key token lease now s = (r, s') -> op_effect clock s r s'.
Proof.
  unfold renew_checkpoint_claim, put_checkpoint, claim_args_invalid. intros Hr.
  store_inv; try apply effect_refl. bool_inv.
  match goal with E : is_none_or (cp_lease_expires_at_ms ?c) _ = false |- _ =>
    destruct (cp_lease_expires_at_ms c) eqn:El; [cbn in E|done] end.
  bool_inv. eapply effect_put_plain; [done|]. by eapply cs_renew.
Qed.

Lemma receipt_effect clock c op attempt call digest x token n cycle s r s' :
  keyed s ->
  record_tool_receipt clock c op attempt call digest x token n cycle s = (r, s') ->
  op_effect clock s r s'.
Proof.
  intros Hk. unfold record_tool_receipt. intros Hr.
  repeat match goal with
  | Hu : update_checkpoint _ _ _ = _ |- _ => fail 1
  | _ => store_step_inv
  end; try apply effect_refl.
  eapply update_effect; [done| |done]. intros current d Hd. eexists _, _. eapply write_receipt, Hd.
Qed.

Lemma admit_effect clock key n token cycle entries s r s' :
  store_admit_deferred_batch clock key n token cycle entries s = (r, s') -> op_effect clock s r s'.
Proof.
  unfold store_admit_deferred_batch, put_checkpoint. intros Hr.
  store_inv; try apply effect_refl; persisted; [|apply effect_same]. bool_inv.
  match goal with E : admit_deferred_batch _ _ _ _ _ _ = Ok ?p, K : ok_or (map_get _ _) _ = Ok _ |- _ =>
    destruct p as [d [|handle handles]] eqn:Ep; apply ok_or_Ok in K; pose proof E as Hadm end.
  - exfalso. destruct (admit_spec _ _ _ _ _ _ _ _ Hadm) as [[-> _]|Hall]; [done|].
    pose proof (am_handles _ _ _ _ _ _ _ Hall) as Hf. apply Forall2_nil_inv_r in Hf as ->.
    unfold admit_deferred_batch in Hadm. cbn [length Nat.eqb] in Hadm. rewrite orb_true_r in Hadm.
    by simplify_eq.
  - eapply effect_put; [done|]. eapply cs_write; [by eapply write_admit|done].
Qed.

Lemma accept_effect clock key n token cycle decisions s r s' :
  store_accept_deferred_batch clock key n token cycle decisions s = (r, s') ->
  op_effect clock s r s'.
Proof.
  unfold store_accept_deferred_batch, put_checkpoint. intros Hr.
  store_inv; try apply effect_refl; persisted; [|apply effect_same]. bool_inv.
  match goal with E : accept_deferred_batch _ _ _ _ _ _ = Ok ?p, K : ok_or (map_get _ _) _ = Ok _ |- _ =>
    destruct p as [d []]; [|done]; apply ok_or_Ok in K end.
  eapply effect_put; [done|]. eapply cs_write; [by eapply write_accept|done].
Qed.

Lemma resolve_effect clock handle x s r s' :
  keyed s -> resolve_deferred clock handle x s = (r, s') -> op_effect clock s r s'.
Proof.
  intros Hk. unfold resolve_deferred, put_checkpoint. intros Hr.
  store_inv; try apply effect_refl; persisted; [|apply effect_same].
  bool_inv. match goal with
  | C : ok_or (map_get _ _) _ = Ok ?c, J : ok_or (cp_tool_journal ?c !! ?i) _ = Ok ?e,
    R : resolve_checkpoint _ ?c ?i ?e _ = Ok ?p, N : normalize_checkpoint_history _ = _ |- _ =>
      apply ok_or_Ok in C, J; pose proof C as HC; destruct p as [d event];
      destruct (resolve_spec _ _ _ _ _ _ _ J R) as [[Hv _ Hid] _];
      destruct (normalize_frame _ _ _ Hv N) as (_ & Hid' & _);
      assert (Hkey : cp_checkpoint_key c = h_checkpoint_key handle) by (by apply Hk in C)
  end.
  rewrite (run_identity_key _ _ Hid'), (run_identity_key _ _ Hid), Hkey. constructor; [|done|..|done].
  - right. eexists _, _. split; [done|]. cbn. rewrite HC. by eapply cs_resolve.
  - cbn. intros k y Hy. rewrite map_get_insert. destruct (String.eqb_spec k x2); congruence.
Qed.

Lemma run_op_effect clock op s r s' :
  keyed s -> run_op clock op s = (r, s') -> op_effect clock s r s'.
Proof.
  intros Hk Hr. destruct op; cbn [run_op] in Hr; (eapply discard_effect; [|exact Hr]); intros y Hy.
  - by eapply create_effect.
  - by eapply claim_effect.
  - by eapply renew_effect.
  - eapply update_effect; [done| |exact Hy]. intros ? ? Hd. eexists _, _. eapply write_progress, Hd.
  - eapply update_effect; [done| |exact Hy]. intros ? ? Hd. eexists _, _. eapply write_suspend, Hd.
  - eapply update_effect; [done| |exact Hy]. intros ? ? Hd. eexists _, _. eapply write_commit, Hd.
  - eapply update_effect; [done| |exact Hy]. intros ? ? Hd. eexists _, _. eapply write_finalize, Hd.
  - eapply update_effect; [done| |exact Hy]. intros ? ? Hd. eexists _, _.
    eapply write_finalize_claimed, Hd.
  - by eapply receipt_effect.
  - eapply update_at_effect; [|exact Hy]. intros ? ? Hd. eexists _, _. eapply write_ack, Hd.
  - eapply update_at_effect; [|exact Hy]. intros ? ? Hd. eexists _, _. eapply write_delivery, Hd.
  - by eapply admit_effect.
  - by eapply accept_effect.
  - by eapply resolve_effect.
Qed.

(** *** Validity *)

(** Only [check_claim] reads the lease. *)
Lemma lease_validate c l l' :
  validate_checkpoint (set_lease c (Some l)) = Ok tt -> (l' <= MAX_WIRE_INTEGER)%N ->
  validate_checkpoint (set_lease c (Some l')) = Ok tt.
Proof.
  intros Hv Hl. assert (Hc : check_claim (set_lease c (Some l)) = Ok tt) 
    by (by apply validate_parts in Hv as (_ & _ & ? & _)).
  assert (Hc' : check_claim (set_lease c (Some l')) = Ok tt).
  { unfold check_claim in *. cbn [cp_claim_token cp_claimed_cycle cp_lease_expires_at_ms set_lease
      cp_cycle_index] in *.
    destruct (cp_claim_token c), (cp_claimed_cycle c); try done. cbn [existsb is_some negb andb orb] in *.
    result_inv. bool_inv. rewrite (proj2 (N.ltb_ge _ _) Hl). by repeat case_match. }
  unfold validate_checkpoint in *. rewrite Hc in Hv. rewrite Hc'. exact Hv.
Qed.

(** A stored checkpoint is valid, except that a renewal may have moved its
    lease beyond the wire bound. *)
Definition overleased (c : Checkpoint) : Prop :=
  exists lease l, cp_lease_expires_at_ms c = Some lease /\ (MAX_WIRE_INTEGER < lease)%N /\
    validate_checkpoint (set_lease c (Some l)) = Ok tt.
Definition stored_ok (c : Checkpoint) : Prop := validate_checkpoint c = Ok tt \/ overleased c.

Lemma set_lease_same c : set_lease c (cp_lease_expires_at_ms c) = c.
Proof. by destruct c. Qed.
Lemma renewed_lease c lease :
  set_claim c (cp_claim_token c) (cp_claimed_cycle c) (Some lease) = set_lease c (Some lease).
Proof. by destruct c. Qed.

Lemma renew_ok c expiry lease :
  cp_lease_expires_at_ms c = Some expiry -> stored_ok c -> stored_ok (set_lease c (Some lease)).
Proof.
  intros He Hok.
  assert (Hl : exists l, validate_checkpoint (set_lease c (Some l)) = Ok tt).
  { destruct Hok as [Hv|(? & l & _ & _ & Hv)]; [exists expiry|by exists l].
    rewrite <- He. by rewrite set_lease_same. }
  destruct Hl as [l Hv]. destruct (N.le_gt_cases lease MAX_WIRE_INTEGER).
  - left. by eapply lease_validate.
  - right. exists lease, l. by destruct c.
Qed.

Lemma creation_valid c : validate_checkpoint_creation c = Ok tt -> validate_checkpoint c = Ok tt.
Proof. unfold validate_checkpoint_creation. intros Hc. result_inv. by unit_inv. Qed.

Lemma step_ok clock c c' : checkpoint_step clock c c' -> stored_ok c -> stored_ok c'.
Proof.
  intros [|? ? ? ? Hw Hn|? ? ? ? ? ? ? Hj ? Hr Hn|? ? ? ? ? Hl ? ? ->] Hok.
  - by left.
  - left. apply kernel_write_spec in Hw as [[[Hv _ _] _] _]. by eapply normalize_frame.
  - left. destruct (resolve_spec _ _ _ _ _ _ _ Hj Hr) as [[Hv _ _] _]. by eapply normalize_frame.
  - rewrite renewed_lease. by eapply renew_ok.
Qed.

(** *** What is kept *)

Definition calls_seen (c : Checkpoint) : N :=
  h_model_call_count (cp_history c) + N.of_nat (length (cp_model_calls c)).
Record preserved (c c' : Checkpoint) : Prop := {
  pv_identity : run_identity c' = run_identity c;
  pv_revision : (cp_revision c <= cp_revision c')%N;
  pv_resume : (cp_resume_attempt c <= cp_resume_attempt c')%N;
  pv_cancel : cp_cancel_requested c = true -> cp_cancel_requested c' = true;
  pv_acknowledged : cp_terminal_acknowledged c = true -> cp_terminal_acknowledged c' = true;
  pv_sequence : (h_sequence (cp_history c) <= h_sequence (cp_history c'))%N;
  pv_calls : (calls_seen c <= calls_seen c')%N
}.
#[global] Instance preserved_preorder : PreOrder preserved.
Proof.
  split; [intros c; constructor; done|].
  intros a b c [] []. constructor; [congruence|lia|lia|auto|auto|lia|lia].
Qed.

Lemma advances_preserved c d : advances c d -> monotone c d -> preserved c d.
Proof.
  intros [? ? ?] [? ? ? Hh Hc]. constructor; try done; [lia|by rewrite Hh|].
  unfold calls_seen. rewrite Hh. apply prefix_length in Hc. lia.
Qed.

Lemma normalize_preserved c c' ob :
  validate_checkpoint c = Ok tt -> normalize_checkpoint_history c = Ok (c', ob) -> preserved c c'.
Proof.
  intros Hv Hn. pose proof (normalize_spec _ _ _ Hv Hn) as Hs. destruct ob as [batch|]; [|by subst].
  destruct Hs as (cycles & calls & Hai).
  pose proof (ai_history _ _ _ _ _ Hai) as Hh. pose proof (ai_sequence _ _ _ _ _ Hai) as Hq.
  pose proof (ai_calls _ _ _ _ _ Hai) as Hp%Permutation_length. rewrite length_app in Hp.
  pose proof (ai_frame _ _ _ _ _ Hai) as Hf.
  destruct (archive_calls_counts calls (cp_history c)) as (_ & _ & _ & Hn').
  constructor; [|by rewrite Hf; destruct c..| |].
  - rewrite Hf. by destruct c.
  - rewrite Hh. cbn. lia.
  - unfold calls_seen. rewrite Hh, Hp. cbn [advance_history h_model_call_count]. rewrite Hn'. lia.
Qed.

Lemma step_preserved clock c c' : checkpoint_step clock c c' -> preserved c c'.
Proof.
  intros [cycle token lease now mode Hc Ha Hv _|? ? d ? Hw Hn|? ? ? d ? ? ? Hj ? Hr Hn|? ? ? ? ? Hl ? ? ->].
  - destruct (claim_step_spec _ _ _ _ _ _ _ Hc Ha Hv) as [[? ?] _]. by apply advances_preserved.
  - apply kernel_write_spec in Hw as [[Hadv Hm] _]. transitivity d; [by apply advances_preserved|].
    eapply normalize_preserved; [apply (adv_valid _ _ Hadv)|done].
  - destruct (resolve_spec _ _ _ _ _ _ _ Hj Hr) as [Hadv Hm].
    transitivity d; [by apply advances_preserved|].
    eapply normalize_preserved; [apply (adv_valid _ _ Hadv)|done].
  - by constructor.
Qed.

(** *** Sequences of operations *)

Definition store_ok (s : Store) : Prop :=
  keyed s /\ forall k c, map_get k (st_checkpoints s) = Some c -> stored_ok c.

Lemma store_ok_new : store_ok store_new.
Proof. by split. Qed.

Lemma effect_ok {A} clock s (r : result A) s' : op_effect clock s r s' -> store_ok s -> store_ok s'.
Proof.
  intros [[Heq|(k & c' & Heq & Hk)] _ _ _] [Hkeyed Hok]; unfold store_ok, keyed; rewrite Heq; [done|].
  assert (Hc : stored_ok c' /\ cp_checkpoint_key c' = k).
  { destruct (map_get k (st_checkpoints s)) as [c|] eqn:Ec.
    - split; [eapply step_ok; [done|by eapply Hok]|].
      apply step_preserved in Hk as [Hid _ _ _ _ _ _].
      rewrite (run_identity_key _ _ Hid). by apply Hkeyed.
    - destruct Hk as [Hcr <-]. split; [|done]. left. by apply creation_valid. }
  split; intros j x; rewrite map_get_insert; destruct (String.eqb_spec j k) as [->|].
  - intros [= <-]. apply Hc.
  - apply Hkeyed.
  - intros [= <-]. apply Hc.
  - apply Hok.
Qed.

Definition store_step (s s' : Store) : Prop :=
  exists clock op, snd (run_op clock op s) = s'.

Lemma store_step_effect s s' :
  store_ok s -> store_step s s' -> exists clock r, op_effect (A := unit) clock s r s'.
Proof.
  intros [Hk _] (clock & op & Hr). destruct (run_op clock op s) as [r s1] eqn:E. cbn in Hr. subst.
  exists clock, r. by eapply run_op_effect.
Qed.

Lemma store_steps_ok s s' : store_ok s -> rtc store_step s s' -> store_ok s'.
Proof.
  intros Hok Hs. revert Hok. induction Hs as [|a b c Hs _ IH]; intros Hok; [done|].
  apply IH. destruct (store_step_effect _ _ Hok Hs) as (clock & r & He). by eapply effect_ok.
Qed.

Lemma effect_preserved {A} clock s (r : result A) s' k c :
  op_effect clock s r s' -> map_get k (st_checkpoints s) = Some c ->
  exists c', map_get k (st_checkpoints s') = Some c' /\ preserved c c'.
Proof.
  intros [[Heq|(j & c' & Heq & Hj)] _ _ _] Hk; rewrite Heq; [by exists c|].
  rewrite map_get_insert. destruct (String.eqb_spec k j) as [->|]; [|by exists c].
  exists c'. split; [done|]. rewrite Hk in Hj. by eapply step_preserved.
Qed.

Lemma store_steps_preserved s s' k c :
  store_ok s -> rtc store_step s s' -> map_get k (st_checkpoints s) = Some c ->
  exists c', map_get k (st_checkpoints s') = Some c' /\ preserved c c'.
Proof.
  intros Hok Hs. revert c Hok. induction Hs as [|a b s' Hs _ IH]; intros c Hok Hk; [by exists c|].
  destruct (store_step_effect _ _ Hok Hs) as (clock & r & He).
  destruct (effect_preserved _ _ _ _ _ _ He Hk) as (c1 & Hk1 & Hp1).
  destruct (IH c1 (effect_ok _ _ _ _ He Hok) Hk1) as (c2 & Hk2 & Hp2).
  exists c2. split; [done|]. by transitivity c1.
Qed.

(** *** Receipts *)

Lemma find_insert_other {A} (f : A -> bool) (l : list A) i x :
  List.find f l = None -> is_Some (l !! i) -> f x = true -> List.find f (<[i := x]> l) = Some x.
Proof.
  revert i. induction l as [|y l IH]; intros i Hn Hi Hx; [by destruct Hi|].
  cbn in Hn. destruct (f y) eqn:Ey; [done|]. destruct i as [|i]; cbn; [by rewrite Hx|].
  rewrite Ey. by apply IH.
Qed.

(** The entry a recorded receipt is kept in. *)
Lemma receipt_kept clock current c op attempt call digest x token n cycle d identity xd :
  prepare_tool_receipt clock current c op attempt call digest x token n cycle = Ok (Some d) ->
  tool_receipt_identity_key (cp_checkpoint_key current) op attempt call digest = Ok identity ->
  tool_result_digest x = Ok xd ->
  List.find (fun e => opt_is (j_identity_key e) identity) (cp_tool_journal current) = None ->
  exists e, List.find (fun e => opt_is (j_identity_key e) identity) (cp_tool_journal d) = Some e /\
    j_result_digest e = Some xd.
Proof.
  unfold prepare_tool_receipt. intros Hp Hi Hx Hn.
  destruct (position _ _) as [index|] eqn:Hpos; result_inv; try done.
  apply position_Some in Hpos as (e & He & _). simplify_eq.
  match goal with E : receipt_entry _ _ _ _ _ = Ok ?e' |- _ =>
    apply receipt_entry_spec in E as (_ & _ & _ & _ & _ & Hid & _ & Hd & _); exists e' end.
  split; [|done]. match goal with E : seal _ _ = Ok _ |- _ => apply seal_spec in E as [-> _] end.
  cbn [cp_tool_journal set_revision set_event_outbox set_tool_journal].
  apply find_insert_other; [done|by eexists|]. by apply opt_is_true.
Qed.

Lemma update_run key prepare s s' :
  update_checkpoint key prepare s = (Ok true, s') ->
  exists c d c' ob, map_get key (st_checkpoints s) = Some c /\ prepare c = Ok (Some d) /\
    normalize_checkpoint_history d = Ok (c', ob) /\
    st_checkpoints s' = map_insert (cp_checkpoint_key c') c' (st_checkpoints s).
Proof.
  unfold update_checkpoint, put_checkpoint. intros Hu. store_inv. persisted.
  by eexists _, _, _, _.
Qed.

Lemma record_receipt_kept clock c op attempt call digest x token n cycle s s' :
  keyed s ->
  record_tool_receipt clock c op attempt call digest x token n cycle s = (Ok true, s') ->
  validate_definitive_result x = Ok tt /\
  exists identity xd c' e,
    tool_receipt_identity_key (cp_checkpoint_key c) op attempt call digest = Ok identity /\
    tool_result_digest x = Ok xd /\
    map_get (cp_checkpoint_key c) (st_checkpoints s') = Some c' /\
    List.find (fun e => opt_is (j_identity_key e) identity) (cp_tool_journal c') = Some e /\
    j_result_digest e = Some xd.
Proof.
  intros Hk. unfold record_tool_receipt. intros Hr.
  repeat match goal with
  | Hu : update_checkpoint _ _ _ = _ |- _ => fail 1
  | _ => store_step_inv
  end; unit_inv; (split; [done|]).
  - eexists _, _, _, _. repeat (split; [done|]). by apply opt_is_true.
  - apply update_run in Hr as (cur & d & c' & ob & Hcur & Hp & Hn & ->).
    rewrite Hcur in Hcase. injection Hcase as <-.
    assert (Hcp : cp_checkpoint_key cur = cp_checkpoint_key c) by (by apply Hk).
    destruct (receipt_spec _ _ _ _ _ _ _ _ _ _ _ _ Hp) as [[[Hv _ Hid] _] _].
    destruct (normalize_frame _ _ _ Hv Hn) as (_ & Hid' & _ & _ & _ & Hj).
    assert (Hkey : cp_checkpoint_key c' = cp_checkpoint_key c).
    { rewrite (run_identity_key _ _ Hid'), (run_identity_key _ _ Hid). done. }
    match goal with I : tool_receipt_identity_key _ _ _ _ _ = Ok _, X : tool_result_digest _ = Ok _,
      F : List.find _ _ = None |- _ =>
      rewrite <- Hcp in I;
      destruct (receipt_kept _ _ _ _ _ _ _ _ _ _ _ _ _ _ Hp I X F) as (e & He & Hd); rewrite Hcp in I end.
    eexists _, _, c', e. repeat (split; [done|]). rewrite Hkey, Hj.
    split; [apply map_get_insert_eq|done].
Qed.

(** *** Recovery *)

(** [result_replay] runs a sequence of checks whose outcomes are known. *)
Ltac result_replay :=
  repeat match goal with
  | E : ?t = Ok _ |- context [match ?t with Ok _ => _ | Err _ => _ end] => rewrite E
  | E : ?b = false |- context [if ?b then _ else _] => rewrite E
  end.

(** A valid claimed checkpoint stays valid when somebody else takes it over. *)
Lemma takeover_valid c old token lease :
  validate_checkpoint c = Ok tt -> cp_status c = RunningS -> cp_claim_token c = Some old ->
  trim_is_empty token = false -> (lease <= MAX_WIRE_INTEGER)%N ->
  (cp_revision c < MAX_WIRE_INTEGER)%N -> (cp_resume_attempt c < MAX_WIRE_INTEGER)%N ->
  (cp_cycle_index c < MAX_WIRE_INTEGER)%N ->
  validate_checkpoint
    (set_claim (set_status (set_resume_attempt (set_revision c (cp_revision c + 1))
       (cp_resume_attempt c + 1)) RunningS) (Some token) (Some (cp_cycle_index c + 1)) (Some lease))%N
  = Ok tt.
Proof.
  intros Hv Hs Ho Ht Hl Hr Ha Hc. set (c' := set_claim _ _ _ _).
  assert (Hst : cp_status c' = cp_status c) by (by rewrite Hs).
  assert (Hid : check_identity c' = Ok tt).
  { apply validate_parts in Hv as (_ & Hid & _). unfold check_identity in *.
    cbn [c' set_claim set_lease set_claimed_cycle set_claim_token set_status set_resume_attempt
      set_revision cp_schema_version cp_run_definition_schema cp_run_definition
      cp_run_definition_digest cp_checkpoint_key cp_task_id cp_root_run_id cp_trace_id
      cp_resume_attempt cp_cycle_index cp_revision] in *.
    result_inv. result_replay. bool_inv.
    rewrite !orb_false_intro by (first [apply N.ltb_ge|apply N.eqb_neq]; lia). done. }
  assert (Hcl : check_claim c' = Ok tt).
  { unfold check_claim. cbn -[MAX_WIRE_INTEGER trim_is_empty checked_add]. rewrite Ht.
    unfold checked_add. rewrite (proj2 (N.leb_le _ _)) by (unfold MAX_WIRE_INTEGER, U64_MAX in *; lia).
    cbn. rewrite N.eqb_refl. cbn.
    rewrite !(proj2 (N.ltb_ge _ _)), (proj2 (N.eqb_neq _ _)) by lia. done. }
  assert (Hcy : cp_claimed_cycle c = Some (cp_cycle_index c + 1)%N).
  { apply validate_wf in Hv. pose proof (wf_claim _ Hv) as Hw. rewrite Ho in Hw. tauto. }
  unfold validate_checkpoint in *. rewrite Hid, Hcl.
  destruct (check_identity c), (check_claim c); try (by result_inv).
  destruct c. cbn in Hs, Ho, Hcy. subst. exact Hv.
Qed.

(** ** Properties *)


(** A renewal only compares the lease with the clock, so it accepts a
    lease that no other operation would.  The renewed checkpoint is valid
    exactly when the lease is at most 2^53-1; past that bound no progress of
    the owner is accepted any more and, at every time a caller may pass, no
    other claim either. *)
Theorem renewal_bound key token (lease now expiry : N) (s : Store) (c : Checkpoint) :
  map_get key (st_checkpoints s) = Some c -> validate_checkpoint c = Ok tt ->
  cp_claim_token c = Some token -> cp_lease_expires_at_ms c = Some expiry ->
  (now < expiry)%N -> (now < lease)%N ->
  let renewed := set_lease c (Some lease) in
  renew_checkpoint_claim key token lease now s
    = (Ok (if cp_cancel_requested c then CancelRequested lease else Renewed lease),
       set_checkpoints s (map_insert key renewed (st_checkpoints s))) /\
  (validate_checkpoint renewed = Ok tt <-> (lease <= MAX_WIRE_INTEGER)%N) /\
  ((MAX_WIRE_INTEGER < lease)%N ->
     (forall snapshot r d, prepare_progress renewed snapshot token r <> Ok (Some d)) /\
     (forall cycle now' mode, claim_candidate renewed cycle now' mode <> Ok true)).
Proof.
  intros Hk Hv Ht Hl Hn Hlease renewed.
  assert (Htok : trim_is_empty token = false).
  { apply validate_wf in Hv. pose proof (wf_claim _ Hv) as Hw. rewrite Ht in Hw. tauto. }
  assert (Hbound : forall d, validate_checkpoint d = Ok tt -> cp_claim_token d = Some token ->
    exists l, cp_lease_expires_at_ms d = Some l /\ (l <= MAX_WIRE_INTEGER)%N).
  { intros d Hd%validate_wf Hdt. pose proof (wf_claim _ Hd) as Hw. rewrite Hdt in Hw. tauto. }
  split; [|split].
  - unfold renew_checkpoint_claim, claim_args_invalid, reject, mbind, M_bind, get_store.
    rewrite Htok, (proj2 (N.leb_gt _ _) Hlease). cbn [orb mret M_ret]. rewrite Hk, Ht, Hl.
    cbn [is_none_or]. rewrite (proj2 (opt_is_true _ _) eq_refl), (proj2 (N.leb_gt _ _) Hn). cbn [negb orb].
    unfold put_checkpoint, modify, mret, M_ret, renewed. rewrite <- Ht. by rewrite renewed_lease.
  - split.
    + intros Hr. destruct (Hbound renewed Hr Ht) as (l & [= <-] & ?). done.
    + intros Hle. apply (lease_validate c expiry); [|done]. rewrite <- Hl. by rewrite set_lease_same.
  - intros Hgt. split.
    + intros snapshot r d (Hadv & _ & _ & _ & Hdt & Hdl & _)%progress_spec.
      destruct (Hbound d (adv_valid _ _ (proj1 Hadv)) Hdt) as (l & Hdl' & Hle).
      rewrite Hdl in Hdl'. cbn in Hdl'. simplify_eq. lia.
    + intros cycle now' mode (_ & Hnow & _ & _ & _ & _ & Hexp)%claim_candidate_true.
      specialize (Hexp lease eq_refl). lia.
Qed.

(** Recording a tool receipt is idempotent.  Once a receipt was
    accepted, the same call with the same result succeeds again and changes
    nothing, whatever claim it comes with, and a different result for the same
    call is refused without a change. *)
Theorem tool_receipt_idempotent clock (c : Checkpoint) op attempt call digest
    (x : ToolExecutionResult) token n cycle (s s' : Store) :
  store_ok s ->
  record_tool_receipt clock c op attempt call digest x token n cycle s = (Ok true, s') ->
  (forall clock' token' n' cycle',
     record_tool_receipt clock' c op attempt call digest x token' n' cycle' s' = (Ok true, s')) /\
  (forall clock' x' token' n' cycle' xd',
     validate_definitive_result x' = Ok tt -> tool_result_digest x' = Ok xd' ->
     tool_result_digest x <> Ok xd' ->
     record_tool_receipt clock' c op attempt call digest x' token' n' cycle' s'
       = (Err "tool_receipt_conflict", s')).
Proof.
  intros [Hk _] Hr. apply record_receipt_kept in Hr as (Hx & identity & xd & c' & e & Hi & Hd & Hg & Hf & He);
    [|done].
  split.
  - intros. unfold record_tool_receipt, mbind, M_bind, lift, get_store. rewrite Hx, Hi, Hd, Hg, Hf, He.
    by rewrite (proj2 (opt_is_true _ _) eq_refl).
  - intros clock' x' token' n' cycle' xd' Hx' Hd' Hne.
    unfold record_tool_receipt, mbind, M_bind, lift, get_store. rewrite Hx', Hi, Hd', Hg, Hf, He.
    replace (opt_is (Some xd) xd') with false; [done|]. symmetry. apply opt_is_false.
    rewrite Hd in Hne. congruence.
Qed.

Lemma receipt_new_result handle x id digest receipt :
  receipt_new handle x id digest = Ok receipt ->
  (dr_result receipt = x /\ dr_handle receipt = handle) /\ exists xd, result_digest x = Ok xd.
Proof. unfold receipt_new. intros Hr. result_inv. unit_inv. split; [done|by eexists]. Qed.

Lemma resolve_applied clock handle x s s' receipt d :
  resolve_deferred clock handle x s = (Ok d, s') ->
  d = AppliedReady receipt \/ d = AppliedWaiting receipt ->
  validate_definitive_result x = Ok tt /\ dr_result receipt = x /\ dr_handle receipt = handle /\
  exists key xd, handle_key handle = Ok key /\ result_digest x = Ok xd /\
    map_get key (st_deferred_receipts s') = Some receipt.
Proof.
  unfold resolve_deferred, put_checkpoint. intros Hr Hd. store_inv; try (by destruct Hd).
  persisted. match goal with E : receipt_new _ _ _ _ = Ok ?rc |- _ =>
    apply receipt_new_result in E as [[Hres Hhd] [xd Hxd]];
    assert (rc = receipt) as -> by (destruct Hd; repeat case_match; by simplify_eq) end.
  unit_inv. split; [done|]. split; [done|]. split; [done|]. eexists _, xd. repeat (split; [done|]).
  cbn. apply map_get_insert_eq.
Qed.

End Lemmas.

(** ** Examples *)

Section Examples.
Local Existing Instance toy_env.
Local Existing Instance toy_strict.

Lemma run_split {A} (m : M A) s x : fst (m s) = x -> m s = (x, snd (m s)).
Proof. intros <-. apply surjective_pairing. Qed.

Definition sample_store : Store := set_checkpoints store_new [("key", sample_checkpoint)].
Lemma sample_store_ok : store_ok sample_store.
Proof.
  assert (Hget : forall k c, map_get k (st_checkpoints sample_store) = Some c ->
    k = "key" /\ c = sample_checkpoint).
  { intros k c. unfold sample_store, set_checkpoints, st_checkpoints, map_get.
    destruct (String.eqb_spec k "key"); [|discriminate]. intros E. injection E as <-. by split. }
  split; intros k c [-> ->]%Hget; [reflexivity|]. left. exact sample_valid.
Qed.

Local Abbreviation sample_op := (OpProgress sample_checkpoint "owner" 3).
Example sample_op_runs : fst (run_op sample_clock sample_op sample_store) = Ok tt.
Proof. vm_compute. reflexivity. Qed.

(** A run is created, then claimed. *)
Definition sample_created : Store := snd (run_op sample_clock (OpCreate sample_identity) store_new).
Definition sample_claimed : Store :=
  snd (run_op sample_clock (OpClaim "key" 1 "owner" 1000 0 Continue) sample_created).
Definition revision_of (s : Store) : option N := cp_revision <$> map_get "key" (st_checkpoints s).
Example sample_created_runs : revision_of sample_created = Some 0%N /\ revision_of sample_claimed = Some 1%N.
Proof. vm_compute. split; reflexivity. Qed.
Lemma stored_at s r : revision_of s = Some r -> exists c, map_get "key" (st_checkpoints s) = Some c.
Proof. unfold revision_of. destruct (map_get _ _) as [c|]; [by exists c|done]. Qed.
Lemma renewal_bound_witness :
  validate_checkpoint (set_lease sample_checkpoint (Some 9007199254740992%N)) <> Ok tt.
Proof.
  destruct (renewal_bound "key" "owner" 9007199254740992 10 1000 sample_store sample_checkpoint
    eq_refl sample_valid eq_refl eq_refl ltac:(lia) ltac:(lia)) as (_ & Hv & _).
  intros Hle%Hv. unfold MAX_WIRE_INTEGER in Hle. lia.
Defined.

Local Abbreviation sample_receipt :=
  (record_tool_receipt sample_clock sample_checkpoint "op_t" 1 "call_1" sample_digest sample_result
     "owner" 3 1).
Example sample_record_runs : fst (sample_receipt sample_store) = Ok true.
Proof. vm_compute. reflexivity. Qed.
Lemma tool_receipt_idempotent_witness :
  sample_receipt (snd (sample_receipt sample_store)) = (Ok true, snd (sample_receipt sample_store)).
Proof.
  exact (proj1 (tool_receipt_idempotent sample_clock sample_checkpoint "op_t" 1 "call_1" sample_digest
    sample_result "owner" 3 1 sample_store _ sample_store_ok (run_split _ _ _ sample_record_runs))
    sample_clock "owner" 3%N 1%N).
Defined.

(** The started call of the sample run is deferred, then resolved. *)
Definition sample_deferred : Store :=
  snd (run_op sample_clock (OpAdmit "key" 3 "owner" 1 [Deferred.sample_batch]) sample_store).
Lemma sample_deferred_ok : store_ok sample_deferred.
Proof.
  exact (store_steps_ok sample_store _ sample_store_ok
    (rtc_once _ _ (ex_intro _ sample_clock
       (ex_intro _ (OpAdmit "key" 3 "owner" 1 [Deferred.sample_batch]) eq_refl)))).
Qed.
Local Abbreviation sample_resolution :=
  (resolve_deferred sample_clock Deferred.sample_handle sample_result).
Definition applied_receipt (r : result DeferredResolveDecision) : option DeferredReceipt :=
  match r with Ok (AppliedReady x) => Some x | _ => None end.
Lemma applied_receipt_eq r x : applied_receipt r = Some x -> r = Ok (AppliedReady x).
Proof. destruct r as [[]|]; try done. by intros [= ->]. Qed.
Example sample_resolution_runs :
  is_some (applied_receipt (fst (sample_resolution sample_deferred))) = true.
Proof. vm_compute. reflexivity. Qed.
End Examples.
