(* ===== verification/StoreController.v ===== *)
(** * Controller operations of the in-memory store

    [runtime/stores/memory_controller.rs], [memory_impl_controller.rs] and the
    [controller_helpers.rs] they call: host interactions, controller commands,
    their receipts and wakes, the notification outbox and deletion.  The
    ledger is part of the store's state ([Store.v]). *)

From Stdlib Require Import Ascii String NArith Lia.
From stdpp Require Import base strings list sets gmap relations pretty.
From S2P Require Import Prelude Json Canonical CheckpointTypes ToolResult Journal TokenUsage.
From S2P Require Import Budget BudgetWire Records ResultCodec Events HostInteraction Controller.
From S2P Require Import Checkpoint History Deferred Transitions Store.

Definition conflict : string := "host_interaction_conflict".
Definition command_stale : string := "controller_command_stale".
Definition outbox_stale : string := "controller_command_outbox_stale".
Definition command_conflict : string := "controller_command_conflict".
Definition notification_stale : string := "notification_stale".

(** ** Ledger access *)

Definition set_host_interactions (l : ControllerLedger)
    (v : list (string * HostInteractionRecord)) : ControllerLedger :=
  {| lg_host_interactions := v; lg_notifications := lg_notifications l;
     lg_command_receipts := lg_command_receipts l; lg_commands := lg_commands l;
     lg_wake_leases := lg_wake_leases l |}.
Definition set_notifications (l : ControllerLedger)
    (v : list (string * HostInteractionNotificationRecord)) : ControllerLedger :=
  {| lg_host_interactions := lg_host_interactions l; lg_notifications := v;
     lg_command_receipts := lg_command_receipts l; lg_commands := lg_commands l;
     lg_wake_leases := lg_wake_leases l |}.
Definition set_command_receipts (l : ControllerLedger)
    (v : list (string * (ControllerCommandReceipt * ControllerCommandResolution)))
    : ControllerLedger :=
  {| lg_host_interactions := lg_host_interactions l; lg_notifications := lg_notifications l;
     lg_command_receipts := v; lg_commands := lg_commands l; lg_wake_leases := lg_wake_leases l |}.
Definition set_commands (l : ControllerLedger) (v : list (string * ControllerCommand))
    : ControllerLedger :=
  {| lg_host_interactions := lg_host_interactions l; lg_notifications := lg_notifications l;
     lg_command_receipts := lg_command_receipts l; lg_commands := v;
     lg_wake_leases := lg_wake_leases l |}.
Definition set_wake_leases (l : ControllerLedger) (v : list (string * WakeLease))
    : ControllerLedger :=
  {| lg_host_interactions := lg_host_interactions l; lg_notifications := lg_notifications l;
     lg_command_receipts := lg_command_receipts l; lg_commands := lg_commands l;
     lg_wake_leases := v |}.

Definition update_ledger (f : ControllerLedger -> ControllerLedger) : M unit :=
  modify (fun s => set_ledger s (f (st_ledger s))).
Definition put_host_record (id : string) (r : HostInteractionRecord) : M unit :=
  update_ledger (fun l => set_host_interactions l (map_insert id r (lg_host_interactions l))).
Definition put_notification (id : string) (n : HostInteractionNotificationRecord) : M unit :=
  update_ledger (fun l => set_notifications l (map_insert id n (lg_notifications l))).
Definition put_receipt (id : string) (r : ControllerCommandReceipt)
    (resolution : ControllerCommandResolution) : M unit :=
  update_ledger (fun l =>
    set_command_receipts l (map_insert id (r, resolution) (lg_command_receipts l))).
Definition put_command (id : string) (c : ControllerCommand) : M unit :=
  update_ledger (fun l => set_commands l (map_insert id c (lg_commands l))).

(** ** Records with a changed field *)

Definition with_outbox (r : ControllerCommandReceipt) (state : string) (attempt : N)
    : ControllerCommandReceipt :=
  {| rc_schema_version := rc_schema_version r; rc_command_id := rc_command_id r;
     rc_command_digest := rc_command_digest r; rc_handle := rc_handle r;
     rc_resume_attempt := rc_resume_attempt r; rc_expected_revision := rc_expected_revision r;
     rc_resulting_revision := rc_resulting_revision r;
     rc_resulting_status := rc_resulting_status r; rc_outbox_state := state;
     rc_outbox_action := rc_outbox_action r; rc_outbox_destination := rc_outbox_destination r;
     rc_outbox_attempt := attempt |}.

(** State, response, response digest, command and the two revisions; then the
    claim and the last error. *)
Definition with_record_state (r : HostInteractionRecord) (state : string)
    (response : option HostInteractionResponse) (digest command : option string)
    (resolved consumed : option N) (token : option string) (lease : option N)
    (error : option string) : HostInteractionRecord :=
  {| ir_schema_version := ir_schema_version r; ir_record_id := ir_record_id r;
     ir_checkpoint_key := ir_checkpoint_key r; ir_interaction_id := ir_interaction_id r;
     ir_logical_cycle := ir_logical_cycle r; ir_attempt := ir_attempt r; ir_claim_token := token;
     ir_lease_expires_at_ms := lease; ir_request := ir_request r;
     ir_request_digest := ir_request_digest r; ir_state := state; ir_response := response;
     ir_response_digest := digest; ir_command_id := command; ir_resolved_revision := resolved;
     ir_consumed_revision := consumed; ir_last_error := error |}.

Definition with_notification (n : HostInteractionNotificationRecord)
    (state : NotificationOutboxState) (token : option string) (lease : option N) (attempt : N)
    (delivered aborted : option N) (reason error : option string)
    : HostInteractionNotificationRecord :=
  {| nr_notification_id := nr_notification_id n; nr_checkpoint_key := nr_checkpoint_key n;
     nr_record_id := nr_record_id n; nr_payload := nr_payload n;
     nr_payload_digest := nr_payload_digest n; nr_outbox_state := state; nr_claim_token := token;
     nr_lease_expires_at_ms := lease; nr_attempt := attempt; nr_delivered_at_ms := delivered;
     nr_aborted_at_ms := aborted; nr_abort_reason := reason; nr_last_error := error |}.

(** ** [memory.rs] and [memory_controller.rs] *)

Definition resolution_with_receipt (resolution : ControllerCommandResolution)
    (receipt : ControllerCommandReceipt) : ControllerCommandResolution :=
  match resolution with
  | Applied _ wake => Applied receipt wake
  | ReplayedC _ wake => ReplayedC receipt wake
  | Rejected error => Rejected error
  end.
Definition replay_resolution (resolution : ControllerCommandResolution)
    : ControllerCommandResolution :=
  match resolution with
  | Applied receipt wake | ReplayedC receipt wake => ReplayedC receipt wake
  | Rejected error => Rejected error
  end.

(** ** Admission contexts ([checkpoint/controller_host.rs]) *)

Record HostInteractionAdmissionContext := {
  hx_checkpoint_key : string;
  hx_expected_revision : N;
  hx_claim_token : string;
  hx_claimed_cycle : N;
  hx_now_ms : N;
  hx_lease_expires_at_ms : N;
  hx_cycle_snapshot : option Checkpoint
}.
Definition context_validate (x : HostInteractionAdmissionContext) : result unit :=
  fail_if (blank_or_long CONTROLLER_COMMAND_MAX_UTF8_BYTES (hx_checkpoint_key x))
  with claim_required ;;
  fail_if (blank_or_long CONTROLLER_COMMAND_MAX_UTF8_BYTES (hx_claim_token x))
  with claim_required ;;
  fail_if ((hx_claimed_cycle x =? 0)%N || exceeds MAX_WIRE_INTEGER (hx_claimed_cycle x))
  with claim_required ;;
  fail_if (exceeds MAX_WIRE_INTEGER (hx_expected_revision x) || exceeds MAX_WIRE_INTEGER (hx_now_ms x)
           || exceeds MAX_WIRE_INTEGER (hx_lease_expires_at_ms x)) with claim_required ;;
  fail_if (hx_lease_expires_at_ms x =? 0)%N with claim_required ;;
  Ok tt.
Definition context_new (checkpoint_key : string) (expected_revision : N) (claim_token : string)
    (claimed_cycle now_ms lease_expires_at_ms : N) : result HostInteractionAdmissionContext :=
  let x := {| hx_checkpoint_key := checkpoint_key; hx_expected_revision := expected_revision;
              hx_claim_token := claim_token; hx_claimed_cycle := claimed_cycle;
              hx_now_ms := now_ms; hx_lease_expires_at_ms := lease_expires_at_ms;
              hx_cycle_snapshot := None |} in
  do? context_validate x ;;
  Ok x.
Definition validate_live_lease (x : HostInteractionAdmissionContext) : result unit :=
  fail_if (hx_lease_expires_at_ms x <=? hx_now_ms x)%N with claim_required ;; Ok tt.

(** ** [controller_helpers.rs] *)

Section Controllers.
Context `{Env} (clock : string -> Number).

Definition host_tool_result (snapshot : Checkpoint) (request : HostInteractionRequest)
    : result ToolExecutionResult :=
  let? cycle := ok_or (List.find (fun c => (cr_index c =? hi_logical_cycle request)%N)
                         (cp_cycles snapshot)) conflict in
  fail_if (map tc_id (cr_tool_calls cycle) <>?? map tr_tool_call_id (cr_tool_results cycle))
  with conflict ;;
  let? r := ok_or (List.find (fun r => String.eqb (tr_tool_call_id r) (hi_tool_call_id request))
                     (cr_tool_results cycle)) conflict in
  do? outcome_validate (OutcomeHostInteraction r request) ;;
  Ok r.

Definition validate_host_tool_receipt_replay (current : Checkpoint)
    (request : HostInteractionRequest) (x : HostInteractionAdmissionContext) : result unit :=
  fail_if (cp_revision current <=? hx_expected_revision x)%N with "host_interaction_stale" ;;
  check_opt (fun snapshot =>
    let? a := host_tool_result current request in
    let? b := host_tool_result snapshot request in
    fail_if (a <>?? b) with conflict ;; Ok tt) (hx_cycle_snapshot x).

Definition validate_host_recovery_cycle (current : Checkpoint) (request : HostInteractionRequest)
    : result unit :=
  if checked_add (cp_cycle_index current) 1 =?? Some (hi_logical_cycle request) then Ok tt
  else
    fail_if (negb (cp_cycle_index current =? hi_logical_cycle request)%N)
    with recovery_stale ;;
    do? host_tool_result current request ;; Ok tt.

Definition host_entry_matches (request : HostInteractionRequest) (e : OperationJournalEntry) : bool :=
  String.eqb (j_operation_id e) (hi_operation_id request)
  && opt_is (j_tool_call_id e) (hi_tool_call_id request)
  && (j_cycle_index e =? hi_logical_cycle request)%N.

Definition prepare_host_interaction_cycle (current : Checkpoint) (request : HostInteractionRequest)
    (x : HostInteractionAdmissionContext) : result Checkpoint :=
  fail_if (cp_cancel_requested current) with "checkpoint_cancel_requested" ;;
  match hx_cycle_snapshot x with
  | None =>
      fail_if (negb (length (cp_model_call_journal current) =? 0)%nat
               || negb (length (cp_tool_journal current) =? 0)%nat) with conflict ;;
      Ok current
  | Some completed =>
      fail_if (negb (checkpoint_definition_matches current completed)
               || negb (String.eqb (cp_checkpoint_key completed) (cp_checkpoint_key current))
               || negb (cp_revision completed =? cp_revision current)%N
               || ((cr_index <$> last (cp_cycles completed)) <>?? Some (hi_logical_cycle request)))
      with "host_interaction_stale" ;;
      let? r := host_tool_result completed request in
      let? e := ok_or (List.find (host_entry_matches request) (cp_tool_journal current)) conflict in
      let? receipt := prepare_tool_receipt clock current current (j_operation_id e) (j_attempt e)
                        (hi_tool_call_id request) (j_request_digest e) r (hx_claim_token x)
                        (hx_expected_revision x) (hx_claimed_cycle x) in
      let? updated := ok_or receipt conflict in
      fail_if (existsb (fun e => negb (closed (j_state e))) (journals updated)) with conflict ;;
      let updated := set_messages updated (cp_messages completed) in
      let updated := Checkpoint.set_cycles updated (cp_cycles completed) in
      let updated := set_shared_state updated (cp_shared_state completed) in
      let updated := set_extension_state updated (cp_extension_state completed) in
      let updated := set_budget_usage updated (cp_budget_usage completed) in
      let updated := set_cycle_index updated (hi_logical_cycle request) in
      Ok (set_tool_journal (set_model_call_journal updated []) [])
  end.

(** *** Control events *)

Definition with_extra_field (e : RunEvent) (k : string) (v : Value) : RunEvent :=
  {| ev_event_id := ev_event_id e; ev_run_id := ev_run_id e; ev_trace_id := ev_trace_id e;
     ev_session_id := ev_session_id e; ev_parent_event_id := ev_parent_event_id e;
     ev_parent_run_id := ev_parent_run_id e; ev_created_at := ev_created_at e;
     ev_cycle_index := ev_cycle_index e; ev_agent_name := ev_agent_name e;
     ev_metadata := ev_metadata e; ev_payload := ev_payload e;
     ev_extra_fields := map_insert k v (ev_extra_fields e) |}.
Definition with_metadata (e : RunEvent) (k : string) (v : Value) : RunEvent :=
  {| ev_event_id := ev_event_id e; ev_run_id := ev_run_id e; ev_trace_id := ev_trace_id e;
     ev_session_id := ev_session_id e; ev_parent_event_id := ev_parent_event_id e;
     ev_parent_run_id := ev_parent_run_id e; ev_created_at := ev_created_at e;
     ev_cycle_index := ev_cycle_index e; ev_agent_name := ev_agent_name e;
     ev_metadata := map_insert k v (ev_metadata e); ev_payload := ev_payload e;
     ev_extra_fields := ev_extra_fields e |}.
(** [entry(k).or_insert(v)]. *)
Definition with_extra_default (e : RunEvent) (k : string) (v : Value) : RunEvent :=
  if map_contains_key k (ev_extra_fields e) then e else with_extra_field e k v.
Definition with_extra_opt (e : RunEvent) (k : string) (v : option string) : RunEvent :=
  match v with Some s => with_extra_field e k (Str s) | None => e end.

Definition with_completion_details (e : RunEvent) (reason : option CompletionReason)
    (tool_name partial_output : option string) : RunEvent :=
  let e := with_extra_opt e "completion_reason" (completion_reason_value <$> reason) in
  let e := with_extra_opt e "completion_tool_name" tool_name in
  with_extra_opt e "partial_output" partial_output.

Definition with_budget_details (e : RunEvent) (usage : option BudgetUsageSnapshot)
    (exhaustion : option BudgetExhaustion) : RunEvent :=
  let e := match usage with
    | None => e
    | Some usage =>
        let e := with_extra_field e "budget_usage" (usage_to_value usage) in
        let e := match ev_payload e with
                 | RunCancelled _ => e
                 | _ => with_extra_default e "completion_tool_name" Null
                 end in
        let e := with_extra_default e "partial_output" Null in
        match ev_payload e with
        | RunFailed _ => with_extra_default e "status" (Str "failed")
        | _ => e
        end
    end in
  match exhaustion with
  | Some x => with_extra_field e "budget_exhaustion" (exhaustion_to_value x)
  | None => e
  end.

Definition control_event_kind (p : RunEventPayload) : string :=
  match p with
  | RunStateChanged _ => "run_state_changed"
  | CheckpointResumed _ _ => "checkpoint_resumed"
  | RunCancelled _ => "run_cancelled"
  | RunFailed _ => "run_failed"
  | _ => "control"
  end.
Definition control_event_id (command_id kind : string) : string :=
  "controller-" +:+ command_id +:+ "-" +:+ kind.
Definition positive_cycle (c : Checkpoint) : option N :=
  u32_try_from (cp_cycle_index c) ≫= fun n => if (0 <? n)%N then Some n else None.

Definition push_event (c : Checkpoint) (event_id : string) (e : RunEvent) : result Checkpoint :=
  let? entry := outbox_pending event_id (event_to_value e) in
  Ok (set_event_outbox c (cp_event_outbox c ++ [entry])).

Definition append_control_event_with_completion (c : Checkpoint) (command_id : string)
    (payload : RunEventPayload) (r : option AgentResult) : result Checkpoint :=
  let cycle_index := match payload with
                     | CheckpointResumed _ _ => u32_try_from (cp_cycle_index c)
                     | _ => positive_cycle c
                     end in
  let id := control_event_id command_id (control_event_kind payload) in
  let e := event_new id (cp_root_run_id c) (cp_trace_id c) "vv-agent" cycle_index (clock id) payload in
  let e := match r with
    | None => e
    | Some r =>
        let e := with_completion_details e (ar_completion_reason r) (ar_completion_tool_name r)
                   (ar_partial_output r) in
        let e := with_budget_details e (ar_budget_usage r) (ar_budget_exhaustion r) in
        match ar_error_code r with
        | Some code => with_metadata e "error_code" (Str code)
        | None => e
        end
    end in
  do? map_err (event_id_stable id) "event_identity_conflict" ;;
  push_event c id e.
Definition append_control_event (c : Checkpoint) (command_id : string) (payload : RunEventPayload)
    : result Checkpoint := append_control_event_with_completion c command_id payload None.
Definition append_control_event_with_result (c : Checkpoint) (command_id : string)
    (payload : RunEventPayload) (r : AgentResult) : result Checkpoint :=
  append_control_event_with_completion c command_id payload (Some r).

Definition append_cancel_requested_event (c : Checkpoint) (command_id : string) : result Checkpoint :=
  let id := control_event_id command_id "run_state_changed" in
  let e := event_new id (cp_root_run_id c) (cp_trace_id c) "vv-agent" (positive_cycle c) (clock id)
             (RunStateChanged "running") in
  let e := with_extra_field e "cancel_requested"
             (json_object [("from", Bool false); ("to", Bool true)]) in
  do? map_err (event_id_stable id) "event_identity_conflict" ;;
  push_event c id e.

(** [Err] is the panic of a ledger with a repeated call id, which validation
    excludes. *)
Definition control_result (c : Checkpoint) (reason : CompletionReason) (error : string)
    (code : option string) : result AgentResult :=
  let r := failed_with_code (unwrap_or code "agent_failed") error false in
  let? usage := summarize_task_token_usage (cp_model_calls c) in
  Ok {| ar_status := ar_status r; ar_messages := cp_messages c; ar_cycles := cp_cycles c;
        ar_completion_reason := Some reason;
        ar_completion_tool_name := ar_completion_tool_name r;
        ar_partial_output := ar_partial_output r; ar_budget_usage := cp_budget_usage c;
        ar_budget_exhaustion := ar_budget_exhaustion r;
        ar_checkpoint_key := Some (cp_checkpoint_key c);
        ar_resume_observations := ar_resume_observations r; ar_final_answer := ar_final_answer r;
        ar_wait_reason := ar_wait_reason r; ar_error := ar_error r; ar_error_code := code;
        ar_shared_state := cp_shared_state c; ar_token_usage := usage |}.

(** ** Controller commands *)

Definition claim_expired (c : Checkpoint) (now_ms : N) : bool :=
  is_some (cp_claim_token c) && is_some_and (cp_lease_expires_at_ms c) (fun l => (l <=? now_ms)%N).

(** The checks before any change. *)
Definition command_guard (c : Checkpoint) (command : ControllerCommand) (now_ms : N) : result unit :=
  let handle := cc_handle command in
  let v := cc_command command in
  fail_if (negb (String.eqb (cp_root_run_id c) (ch_run_id handle))
           || negb (String.eqb (cp_trace_id c) (ch_trace_id handle))) with command_stale ;;
  fail_if (negb (cp_resume_attempt c =? cc_resume_attempt command)%N
           || negb (cp_revision c =? cc_expected_revision command)%N) with command_stale ;;
  fail_if (is_some (cp_terminal_result c) || is_terminal (cp_status c))
  with "controller_command_terminal" ;;
  fail_if (is_some (cp_claim_token c) && negb (claim_expired c now_ms) && (v <>?? Cancel))
  with "controller_command_claim_active" ;;
  fail_if (has_ambiguous_operation c && (v <>?? Controller.Abort)
           && negb ((v =?? Cancel) && is_some (cp_claim_token c)))
  with "controller_command_ambiguity_requires_reconciliation" ;;
  fail_if (((cp_status c =?? DeferredS) || has_deferred c)
           && negb (match v with Suspend | Resume | Cancel => true | _ => false end))
  with "controller_command_deferred_pending" ;;
  Ok tt.

(** An expired claim is taken away by a cancellation or a suspension. *)
Definition release_expired (c : Checkpoint) (v : ControllerCommandVariant) (now_ms : N)
    : result Checkpoint :=
  if claim_expired c now_ms && match v with Cancel | Suspend => true | _ => false end then
    let? c := (if v =?? Cancel then
                 let? attempt := ok_or (checked_add (cp_resume_attempt c) 1)
                                       "checkpoint_resume_attempt_invalid" in
                 Ok (set_cancel_requested (set_resume_attempt c attempt) true)
               else Ok c) in
    Ok (release_claim c)
  else Ok c.

(** What a command produces: the checkpoint, the wake, and the host record it
    rewrites. *)
Definition CommandEffect : Type :=
  Checkpoint * ControllerCommandWake * option (string * HostInteractionRecord).

Definition pending_request (c : Checkpoint) : option HostInteractionRequest :=
  match cp_status c, cp_active_host_interaction c, cp_suspended_origin c with
  | HostInteractionS, Some request, _ => Some request
  | SuspendedS, _, Some origin =>
      if String.eqb (so_status origin) "host_interaction"
      then so_active_host_interaction origin else None
  | _, _, _ => None
  end.

Definition apply_response (current updated : Checkpoint) (records : list (string * HostInteractionRecord))
    (command_id interaction_id : string) (logical_cycle : N)
    (operation_id tool_call_id request_digest : string) (response : HostInteractionMessage)
    : result CommandEffect :=
  let? pending := ok_or (pending_request current) cc_state in
  fail_if (negb (String.eqb (hi_interaction_id pending) interaction_id)
           || negb (hi_logical_cycle pending =? logical_cycle)%N
           || negb (String.eqb (hi_operation_id pending) operation_id)
           || negb (String.eqb (hi_tool_call_id pending) tool_call_id)
           || negb (String.eqb (hi_request_digest pending) request_digest)) with command_stale ;;
  let? record_id := record_id_for (cp_checkpoint_key current) pending in
  let? record := ok_or (map_get record_id records) command_stale in
  fail_if (negb (String.eqb (ir_state record) "active") || (ir_request record <>?? pending))
  with command_stale ;;
  let? resolved := response_new interaction_id logical_cycle operation_id tool_call_id
                     request_digest command_id response in
  let record := with_record_state record "resolved_pending" (Some resolved)
                  (Some (hr_response_digest resolved)) (Some command_id)
                  (Some (cp_revision current + 1)%N) (ir_consumed_revision record)
                  (ir_claim_token record) (ir_lease_expires_at_ms record) (ir_last_error record) in
  do? record_validate record ;;
  let '(updated, wake) :=
    if cp_status current =?? HostInteractionS
    then (set_active_host_interaction (set_status updated RunningS) None, wake_recovery logical_cycle)
    else (set_suspended_origin (set_active_host_interaction (set_status updated SuspendedS) None)
            (Some (origin_host_interaction pending)), wake_none) in
  let updated := set_revision updated (cp_revision current + 1)%N in
  do? validate_checkpoint updated ;;
  Ok (updated, wake, Some (record_id, record)).

Definition suspended_from (c : Checkpoint) : result SuspendedOrigin :=
  match cp_status c with
  | RunningS => Ok origin_running
  | DeferredS => Ok {| so_status := "deferred"; so_active_host_interaction := None |}
  | HostInteractionS =>
      let? request := ok_or (cp_active_host_interaction c) cc_state in
      Ok (origin_host_interaction request)
  | _ => Err cc_state
  end.

Definition apply_suspend (current updated : Checkpoint) (command_id : string) : result CommandEffect :=
  let? origin := suspended_from current in
  let updated := set_suspended_origin
                   (set_active_host_interaction (set_status updated SuspendedS) None) (Some origin) in
  let updated := set_revision updated (cp_revision current + 1)%N in
  let? updated := append_control_event updated command_id (RunStateChanged "suspended") in
  do? validate_checkpoint updated ;;
  Ok (updated, wake_none, None).

(** Where a suspended run goes back to. *)
Definition resumed (current updated : Checkpoint) (records : list (string * HostInteractionRecord))
    (origin : SuspendedOrigin) : result (Checkpoint * ControllerCommandWake) :=
  let status := so_status origin in
  let running cycle :=
    Ok (set_suspended_origin (set_status updated RunningS) None, wake_recovery cycle) in
  if String.eqb status "deferred" && has_deferred current then
    Ok (set_suspended_origin (set_status updated DeferredS) None, wake_none)
  else if String.eqb status "running" || String.eqb status "deferred" then
    running (saturating_add (cp_cycle_index current) 1)
  else if String.eqb status "host_interaction" then
    let? request := ok_or (so_active_host_interaction origin) cc_state in
    let? record_id := record_id_for (cp_checkpoint_key current) request in
    if is_some_and (map_get record_id records) (fun r => String.eqb (ir_state r) "resolved_pending")
    then running (hi_logical_cycle request)
    else Ok (set_suspended_origin (set_active_host_interaction
               (set_status updated HostInteractionS) (Some request)) None, wake_none)
  else Err cc_state.

Definition apply_resume (current updated : Checkpoint) (records : list (string * HostInteractionRecord))
    (command_id : string) : result CommandEffect :=
  fail_if (cp_status current <>?? SuspendedS) with cc_state ;;
  let? origin := ok_or (cp_suspended_origin current) cc_state in
  let? next := resumed current updated records origin in
  let updated := set_revision next.1 (cp_revision current + 1)%N in
  let? updated := append_control_event updated command_id
                    (CheckpointResumed (cp_checkpoint_key current) (cp_resume_attempt current)) in
  do? validate_checkpoint updated ;;
  Ok (updated, next.2, None).

(** The run ends: the shape cancellation and abort share. *)
Definition end_run (current updated : Checkpoint) (command_id reason : string) (r : AgentResult)
    (payload : RunEventPayload) : result CommandEffect :=
  let updated := set_suspended_origin
                   (set_active_host_interaction (set_status updated FailedS) None) None in
  let updated := set_terminal_result (release_claim updated) (Some (agent_result_to_dict r)) in
  let? updated := close_unresolved_tools clock updated reason in
  let updated := set_revision (set_model_call_journal updated []) (cp_revision current + 1)%N in
  let? updated := append_control_event updated command_id (RunStateChanged "failed") in
  let? updated := append_control_event_with_result updated command_id payload r in
  do? validate_checkpoint updated ;;
  Ok (updated, wake_none, None).

Definition apply_cancel (current updated : Checkpoint) (command_id : string) (now_ms : N)
    : result CommandEffect :=
  if is_some (cp_claim_token current) && negb (claim_expired current now_ms) then
    let? updated := (if cp_cancel_requested current then Ok updated
                     else append_cancel_requested_event (set_cancel_requested updated true)
                            command_id) in
    do? validate_checkpoint updated ;;
    Ok (updated, wake_none, None)
  else
    let? r := control_result current CancelledR "Operation was cancelled"
                (Some "cancelled_with_unknown_outcome") in
    end_run current updated command_id "cancelled" r (RunCancelled "Operation was cancelled").

Definition abort_observation (e : OperationJournalEntry) : ResumeObservation :=
  {| obs_operation_id := j_operation_id e; obs_operation_kind := j_kind e;
     obs_cycle_index := j_cycle_index e; obs_state := j_state e;
     obs_risk := "operator abort leaves the external operation outcome unknown";
     obs_idempotency_support := j_idempotency_support e |}.
Definition with_observations (r : AgentResult) (l : list ResumeObservation) : AgentResult :=
  {| ar_status := ar_status r; ar_messages := ar_messages r; ar_cycles := ar_cycles r;
     ar_completion_reason := ar_completion_reason r;
     ar_completion_tool_name := ar_completion_tool_name r; ar_partial_output := ar_partial_output r;
     ar_budget_usage := ar_budget_usage r; ar_budget_exhaustion := ar_budget_exhaustion r;
     ar_checkpoint_key := ar_checkpoint_key r; ar_resume_observations := l;
     ar_final_answer := ar_final_answer r; ar_wait_reason := ar_wait_reason r;
     ar_error := ar_error r; ar_error_code := ar_error_code r;
     ar_shared_state := ar_shared_state r; ar_token_usage := ar_token_usage r |}.

Definition apply_abort (current updated : Checkpoint) (command_id : string) : result CommandEffect :=
  fail_if (cp_status current <>?? ReconciliationRequiredS) with cc_state ;;
  let observation := abort_observation
                       <$> List.find (fun e => j_state e =?? Ambiguous) (journals current) in
  let? r := control_result current FailedR "Operator accepted that the external outcome is unknown."
              (Some "operator_abort_with_unknown_outcome") in
  let r := with_observations r (option_list observation) in
  end_run current updated command_id "operator_abort" r (RunFailed "failed").

Definition command_effect (current : Checkpoint) (records : list (string * HostInteractionRecord))
    (command : ControllerCommand) (now_ms : N) : result CommandEffect :=
  do? command_guard current command now_ms ;;
  let? updated := release_expired current (cc_command command) now_ms in
  let id := cc_command_id command in
  match cc_command command with
  | HostInteractionResponseV interaction cycle operation call digest response =>
      apply_response current updated records id interaction cycle operation call digest response
  | Suspend => apply_suspend current updated id
  | Resume => apply_resume current updated records id
  | Cancel => apply_cancel current updated id now_ms
  | Controller.Abort => apply_abort current updated id
  end.

Definition command_receipt (command : ControllerCommand) (updated : Checkpoint)
    (wake : ControllerCommandWake) : ControllerCommandReceipt :=
  {| rc_schema_version := CONTROLLER_COMMAND_RECEIPT_SCHEMA; rc_command_id := cc_command_id command;
     rc_command_digest := cc_command_digest command; rc_handle := cc_handle command;
     rc_resume_attempt := cc_resume_attempt command;
     rc_expected_revision := cc_expected_revision command;
     rc_resulting_revision := cp_revision updated;
     rc_resulting_status := status_as_str (cp_status updated);
     rc_outbox_state := if String.eqb (cw_action wake) "recovery_dispatch" then "pending"
                        else "delivered";
     rc_outbox_action := cw_action wake; rc_outbox_destination := cw_destination wake;
     rc_outbox_attempt := 0 |}.

(** The host record is written before the receipt is checked, the checkpoint
    after it. *)
Definition apply_controller_command (command : ControllerCommand) (now_ms : N)
    : M (ControllerCommandReceipt * ControllerCommandResolution) :=
  s ← get_store;
  current ← lift (ok_or (map_get (ch_checkpoint_key (cc_handle command)) (st_checkpoints s))
                        command_stale);
  effect ← lift (command_effect current (lg_host_interactions (st_ledger s)) command now_ms);
  let '(updated, wake, record) := effect in
  match record with Some (id, r) => put_host_record id r | None => mret tt end;;
  let receipt := command_receipt command updated wake in
  lift (command_receipt_validate receipt);;
  put_checkpoint (cp_checkpoint_key current) updated;;
  mret (receipt, Applied receipt wake).

(** The form Redis uses: one checkpoint and at most one host record. *)
Definition apply_controller_command_single (c : Checkpoint) (record : option HostInteractionRecord)
    (command : ControllerCommand) (now_ms : N)
    : result (Checkpoint * option HostInteractionRecord * ControllerCommandReceipt
              * ControllerCommandResolution) :=
  let records := match record with Some r => [(ir_record_id r, r)] | None => [] end in
  let s := {| st_checkpoints := [(cp_checkpoint_key c, c)]; st_history := [];
              st_deferred_receipts := []; st_ledger := set_host_interactions ledger_default records |} in
  let '(r, s) := apply_controller_command command now_ms s in
  let? applied := r in
  let? updated := ok_or (map_get (cp_checkpoint_key c) (st_checkpoints s))
                        "controller_command_internal" in
  Ok (updated, snd <$> head (lg_host_interactions (st_ledger s)), applied.1, applied.2).

(** ** Admission of commands *)

Definition record_command (command : ControllerCommand) (receipt : ControllerCommandReceipt)
    (resolution : ControllerCommandResolution) : M unit :=
  put_receipt (cc_command_id command) receipt resolution;;
  put_command (cc_command_id command) command.

Definition admit_controller_command (command : ControllerCommand) (now_ms : N)
    : M ControllerCommandReceipt :=
  lift (command_validate command);;
  s ← get_store;
  match map_get (cc_command_id command) (lg_command_receipts (st_ledger s)) with
  | Some (receipt, _) =>
      if String.eqb (rc_command_digest receipt) (cc_command_digest command) then mret receipt
      else throw command_conflict
  | None =>
      applied ← apply_controller_command command now_ms;
      record_command command applied.1 applied.2;;
      mret applied.1
  end.

(** [match apply(..)]: a stale or terminal command is answered, not failed.
    [error.to_string()] is the code followed by a message; the model keeps the
    code. *)
Definition rejectable (code : string) : bool :=
  String.eqb code command_stale || String.eqb code "controller_command_terminal".

Definition resolve_controller_command (command : ControllerCommand) (now_ms : N)
    : M ControllerCommandResolution :=
  lift (command_validate command);;
  s ← get_store;
  match map_get (cc_command_id command) (lg_command_receipts (st_ledger s)) with
  | Some (receipt, resolution) =>
      if String.eqb (rc_command_digest receipt) (cc_command_digest command)
      then mret (replay_resolution resolution)
      else throw command_conflict
  | None => fun s =>
      match apply_controller_command command now_ms s with
      | (Ok (receipt, resolution), s') =>
          (record_command command receipt resolution;; mret resolution) s'
      | (Err e, s') => if rejectable e then (Ok (Rejected e), s') else (Err e, s')
      end
  end.

Definition get_controller_command_receipt (command_id : string)
    : M (option ControllerCommandReceipt) :=
  s ← get_store; mret (fst <$> map_get command_id (lg_command_receipts (st_ledger s))).
Definition get_controller_command (command_id : string) : M (option ControllerCommand) :=
  s ← get_store; mret (map_get command_id (lg_commands (st_ledger s))).

(** ** Host interactions *)

Definition host_interaction_outcome (request : HostInteractionRequest) (revision : N)
    (status record_id : string) (n : HostInteractionNotificationRecord)
    : result HostInteractionOutcome :=
  let outcome :=
    {| ho_schema_version := HOST_INTERACTION_OUTCOME_SCHEMA;
       ho_interaction_id := hi_interaction_id request;
       ho_logical_cycle := hi_logical_cycle request; ho_checkpoint_revision := revision;
       ho_status := status; ho_outbox_state := "pending"; ho_record_id := record_id;
       ho_notification_id := nr_notification_id n;
       ho_notification_payload_digest := nr_payload_digest n;
       ho_notification_outbox_action := "host_interaction_notification";
       ho_notification_outbox_destination := "host_interaction_observer" |} in
  do? host_outcome_validate outcome ;;
  Ok outcome.

Definition retained_interaction (x : HostInteractionAdmissionContext)
    (request : HostInteractionRequest) (kv : string * HostInteractionRecord) : bool :=
  String.eqb (ir_checkpoint_key kv.2) (hx_checkpoint_key x)
  && String.eqb (ir_interaction_id kv.2) (hi_interaction_id request).

(** A request that was admitted before: answered from the ledger alone. *)
Definition replay_interaction (s : Store) (request : HostInteractionRequest)
    (x : HostInteractionAdmissionContext) (record_id : string) (existing : HostInteractionRecord)
    : result HostInteractionOutcome :=
  fail_if (ir_request existing <>?? request) with conflict ;;
  let? c := ok_or (map_get (ir_checkpoint_key existing) (st_checkpoints s)) conflict in
  do? validate_host_tool_receipt_replay c request x ;;
  let? notification_id := notification_id_for record_id in
  let? n := ok_or (map_get notification_id (lg_notifications (st_ledger s))) conflict in
  host_interaction_outcome request (cp_revision c) "replayed" record_id n.

(** The caller owns the claimed cycle the request names, and its lease is the
    stored one and has not run out. *)
Definition admission_live (c : Checkpoint) (request : HostInteractionRequest)
    (x : HostInteractionAdmissionContext) : bool :=
  (cp_status c =?? RunningS) && (cp_revision c =? hx_expected_revision x)%N
  && opt_is (cp_claim_token c) (hx_claim_token x)
  && (cp_claimed_cycle c =?? Some (hx_claimed_cycle x))
  && (hi_logical_cycle request =? hx_claimed_cycle x)%N
  && (cp_lease_expires_at_ms c =?? Some (hx_lease_expires_at_ms x))
  && is_ok (validate_live_lease x).

Definition notification_for (key : string) (request : HostInteractionRequest) (record_id : string)
    : result HostInteractionNotificationRecord :=
  let? id := notification_id_for record_id in
  let payload :=
    {| np_schema_version := HOST_INTERACTION_NOTIFICATION_SCHEMA; np_notification_id := id;
       np_record_id := record_id; np_interaction_id := hi_interaction_id request;
       np_logical_cycle := hi_logical_cycle request; np_status := "host_interaction";
       np_wait_reason := "host_interaction"; np_prompt := hi_prompt request |} in
  do? payload_validate payload ;;
  let? digest := payload_digest payload in
  let n := {| nr_notification_id := id; nr_checkpoint_key := key; nr_record_id := record_id;
              nr_payload := payload; nr_payload_digest := digest; nr_outbox_state := PendingN;
              nr_claim_token := None; nr_lease_expires_at_ms := None; nr_attempt := 0;
              nr_delivered_at_ms := None; nr_aborted_at_ms := None; nr_abort_reason := None;
              nr_last_error := None |} in
  do? notification_validate n ;;
  Ok n.

Definition active_record (key : string) (request : HostInteractionRequest) (record_id : string)
    : result HostInteractionRecord :=
  let r := {| ir_schema_version := HOST_INTERACTION_RECORD_SCHEMA; ir_record_id := record_id;
              ir_checkpoint_key := key; ir_interaction_id := hi_interaction_id request;
              ir_logical_cycle := hi_logical_cycle request; ir_attempt := 0;
              ir_claim_token := None; ir_lease_expires_at_ms := None; ir_request := request;
              ir_request_digest := hi_request_digest request; ir_state := "active";
              ir_response := None; ir_response_digest := None; ir_command_id := None;
              ir_resolved_revision := None; ir_consumed_revision := None; ir_last_error := None |} in
  do? record_validate r ;;
  Ok r.

(** The checkpoint that waits for the host, and the event that asks. *)
Definition waiting_checkpoint (current : Checkpoint) (request : HostInteractionRequest)
    (x : HostInteractionAdmissionContext) (record_id : string) : result Checkpoint :=
  let? cycle := ok_or (u32_try_from (hi_logical_cycle request)) "host_interaction_cycle_invalid" in
  let? id := map_err (event_id_stable ("host-interaction-requested-" +:+ record_id))
               "event_identity_conflict" in
  let e := event_new id (cp_root_run_id current) (cp_trace_id current) "vv-agent"
             (Some (saturating_sub cycle 1)) (clock id)
             (HostInteractionRequested (cp_checkpoint_key current) (cp_resume_attempt current)
                (hi_interaction_id request) (hi_logical_cycle request) (hi_operation_id request)
                (hi_tool_call_id request) (hi_request_digest request) (hi_prompt request)) in
  let? updated := prepare_host_interaction_cycle current request x in
  let updated := set_active_host_interaction (set_status updated HostInteractionS) (Some request) in
  let updated := release_claim updated in
  let? revision := ok_or (checked_add (cp_revision current) 1) revision_overflow in
  let? updated := push_event (set_revision updated revision) id e in
  do? validate_checkpoint updated ;;
  Ok updated.

Definition produce_host_interaction (request : HostInteractionRequest)
    (x : HostInteractionAdmissionContext) : M HostInteractionOutcome :=
  lift (request_validate request);;
  lift (context_validate x);;
  s ← get_store;
  match List.find (retained_interaction x request) (lg_host_interactions (st_ledger s)) with
  | Some (record_id, existing) => lift (replay_interaction s request x record_id existing)
  | None =>
      let key := hx_checkpoint_key x in
      current ← lift (ok_or (map_get key (st_checkpoints s)) claim_required);
      reject (negb (admission_live current request x)) claim_required;;
      record_id ← lift (record_id_for key request);
      match map_get record_id (lg_host_interactions (st_ledger s)) with
      | Some existing =>
          if (ir_request existing =?? request)
             && String.eqb (ir_checkpoint_key existing) (cp_checkpoint_key current)
             && (ir_logical_cycle existing =? hi_logical_cycle request)%N
          then
            id ← lift (notification_id_for record_id);
            n ← lift (ok_or (map_get id (lg_notifications (st_ledger s))) conflict);
            lift (host_interaction_outcome request (cp_revision current) "replayed" record_id n)
          else throw conflict
      | None =>
          n ← lift (notification_for key request record_id);
          record ← lift (active_record key request record_id);
          updated ← lift (waiting_checkpoint current request x record_id);
          outcome ← lift (host_interaction_outcome request (cp_revision updated) "admitted"
                            record_id n);
          updated ← persist_history updated;
          put_checkpoint key updated;;
          put_host_record record_id record;;
          put_notification (nr_notification_id n) n;;
          mret outcome
      end
  end.

Definition find_resolved_pending_host_interaction (key : string)
    : M (option HostInteractionRecord) :=
  s ← get_store;
  match List.filter (fun r => String.eqb (ir_checkpoint_key r) key
                              && String.eqb (ir_state r) "resolved_pending")
          (map snd (lg_host_interactions (st_ledger s))) with
  | [] => mret None
  | [r] => mret (Some r)
  | _ => throw recovery_stale
  end.

Definition recovery_identity_matches (c : Checkpoint) (r : HostInteractionRecord)
    (e : HostInteractionRecoveryEnvelope) : bool :=
  String.eqb (cp_checkpoint_key c) (re_checkpoint_key e)
  && String.eqb (cp_root_run_id c) (re_run_id e) && String.eqb (cp_trace_id c) (re_trace_id e)
  && String.eqb (ir_record_id r) (re_record_id e)
  && String.eqb (ir_checkpoint_key r) (re_checkpoint_key e)
  && (ir_logical_cycle r =? re_logical_cycle e)%N
  && String.eqb (ir_interaction_id r) (re_interaction_id e)
  && String.eqb (hi_operation_id (ir_request r)) (re_operation_id e)
  && String.eqb (hi_tool_call_id (ir_request r)) (re_tool_call_id e)
  && String.eqb (ir_request_digest r) (re_request_digest e)
  && opt_is (ir_command_id r) (re_command_id e).

Definition recovery_lease_deadline (now_ms : N) : N := saturating_add now_ms 300000.

Definition recovery_result (kind record_id : string) (revision : N) (consumed : option N)
    (attempt : N) (claim_state : string) : result HostInteractionRecoveryResult :=
  let r := {| rr_schema_version := HOST_INTERACTION_RECOVERY_RESULT_SCHEMA; rr_kind := kind;
              rr_record_id := record_id; rr_checkpoint_revision := Some revision;
              rr_consumed_revision := consumed; rr_claim_mode := "recovery";
              rr_resume_attempt := Some attempt; rr_injection_count := 1;
              rr_checkpoint_execution_claim_state := claim_state; rr_error := None |} in
  do? recovery_result_validate r ;;
  Ok r.

(** The barrier of the recovery: the record waits, nobody holds the run. *)
Definition recovery_admissible (c : Checkpoint) (r : HostInteractionRecord)
    (e : HostInteractionRecoveryEnvelope) : bool :=
  recovery_identity_matches c r e && (cp_revision c =? re_expected_revision e)%N
  && (cp_resume_attempt c =? re_resume_attempt e)%N && (cp_status c =?? RunningS)
  && is_none (cp_claim_token c) && negb (has_ambiguous_operation c)
  && String.eqb (ir_state r) "resolved_pending".

(** The checkpoint with the response injected and claimed for recovery. *)
Definition consumed_checkpoint (current : Checkpoint) (record : HostInteractionRecord)
    (e : HostInteractionRecoveryEnvelope) (now_ms : N) : result Checkpoint :=
  let? response := ok_or (ir_response record) recovery_stale in
  let token := "host-recovery:" +:+ ir_record_id record +:+ ":" +:+ pretty (re_resume_attempt e + 1)%N in
  let? claimed_cycle := ok_or (checked_add (cp_cycle_index current) 1) "checkpoint_cycle_invalid" in
  do? validate_host_recovery_cycle current (ir_request record) ;;
  let updated := set_messages current
                   (cp_messages current ++ [message_user (hm_content (hr_response response))]) in
  let? attempt := ok_or (checked_add (re_resume_attempt e) 1) "checkpoint_resume_attempt_overflow" in
  let updated := set_claim (set_resume_attempt updated attempt) (Some token) (Some claimed_cycle)
                   (Some (recovery_lease_deadline now_ms)) in
  let? revision := ok_or (checked_add (re_expected_revision e) 1) revision_overflow in
  let updated := set_revision updated revision in
  let? cycle := ok_or (u32_try_from (cp_cycle_index current)) recovery_stale in
  let? id := map_err (event_id_stable
               ("host-interaction-response-consumed-" +:+ ir_record_id record))
               "event_identity_conflict" in
  let event := event_new id (cp_root_run_id current) (cp_trace_id current) "vv-agent" (Some cycle)
             (clock id)
             (HostInteractionResponseConsumed (cp_checkpoint_key current) (cp_resume_attempt updated)
                (ir_interaction_id record) (ir_logical_cycle record)
                (hi_operation_id (ir_request record)) (hi_tool_call_id (ir_request record))
                (ir_request_digest record) (hr_command_id response) (hr_response_digest response)
                (cp_revision updated)) in
  let? updated := push_event updated id event in
  do? validate_checkpoint updated ;;
  Ok updated.

Definition claim_and_consume_host_interaction_response (e : HostInteractionRecoveryEnvelope)
    (now_ms : N) : M HostInteractionRecoveryResult :=
  lift (envelope_validate e);;
  s ← get_store;
  current ← lift (ok_or (map_get (re_checkpoint_key e) (st_checkpoints s)) recovery_stale);
  record ← lift (ok_or (map_get (re_record_id e) (lg_host_interactions (st_ledger s)))
                       recovery_stale);
  if String.eqb (ir_state record) "consumed" then
    reject (negb (recovery_identity_matches current record e)) recovery_stale;;
    lift (recovery_result "replayed" (ir_record_id record) (cp_revision current)
            (ir_consumed_revision record) (cp_resume_attempt current)
            (if is_some (cp_claim_token current) then "retained" else "released"))
  else
    reject (negb (recovery_admissible current record e)) recovery_stale;;
    updated ← lift (consumed_checkpoint current record e now_ms);
    let consumed := with_record_state record "consumed" (ir_response record)
                      (ir_response_digest record) (ir_command_id record)
                      (ir_resolved_revision record) (Some (cp_revision updated)) None None
                      (ir_last_error record) in
    lift (record_validate consumed);;
    updated ← persist_history updated;
    put_checkpoint (re_checkpoint_key e) updated;;
    put_host_record (ir_record_id consumed) consumed;;
    lift (recovery_result "applied" (ir_record_id consumed) (cp_revision updated)
            (ir_consumed_revision consumed) (cp_resume_attempt updated) "retained").

Definition reap_host_interaction_record (record_id key : string) (now_ms : N) : M bool :=
  s ← get_store;
  match map_get record_id (lg_host_interactions (st_ledger s)) with
  | None => mret false
  | Some record =>
      if negb (String.eqb (ir_checkpoint_key record) key)
         || negb (String.eqb (ir_state record) "resolved_claimed") || is_none (ir_claim_token record)
      then mret false
      else match map_get key (st_checkpoints s) with
      | None => mret false
      | Some c =>
          if (cp_status c <>?? RunningS) || (cp_claim_token c <>?? ir_claim_token record)
             || is_none (cp_claim_token c)
             || is_none_or (cp_lease_expires_at_ms c) (fun lease => (now_ms <? lease)%N)
             || is_none_or (ir_lease_expires_at_ms record) (fun lease => (now_ms <? lease)%N)
          then mret false
          else
            let updated := with_record_state record "resolved_pending" (ir_response record)
                             (ir_response_digest record) (ir_command_id record)
                             (ir_resolved_revision record) (ir_consumed_revision record) None None
                             (Some "host_interaction_response_claim_expired") in
            lift (record_validate updated);;
            put_host_record record_id updated;;
            mret true
      end
  end.

(** ** Notifications *)

Definition claim_host_interaction_notification (id digest token : string) (lease now_ms : N)
    : M (option HostInteractionNotificationRecord) :=
  reject (trim_is_empty token || (lease <=? now_ms)%N) notification_conflict;;
  s ← get_store;
  match map_get id (lg_notifications (st_ledger s)) with
  | None => mret None
  | Some row =>
      reject (negb (String.eqb (nr_payload_digest row) digest)) notification_conflict;;
      match nr_outbox_state row with
      | DeliveredN | AbortedN => mret (Some row)
      | _ =>
          reject ((nr_outbox_state row =?? ClaimedN) && negb (opt_is (nr_claim_token row) token)
                  && is_some_and (nr_lease_expires_at_ms row) (fun l => (now_ms <? l)%N))
                 notification_stale;;
          attempt ← lift (ok_or (checked_add (nr_attempt row) 1) notification_conflict);
          let updated := with_notification row ClaimedN (Some token) (Some lease) attempt
                           (nr_delivered_at_ms row) (nr_aborted_at_ms row) (nr_abort_reason row)
                           (nr_last_error row) in
          lift (notification_validate updated);;
          put_notification id updated;;
          mret (Some updated)
      end
  end.

Definition get_host_interaction_notification (id : string)
    : M (option HostInteractionNotificationRecord) :=
  s ← get_store; mret (map_get id (lg_notifications (st_ledger s))).

Definition complete_host_interaction_notification (id digest token : string) (attempt : N)
    (outcome : string) (now_ms : N) (error : option string)
    : M (option HostInteractionNotificationRecord) :=
  reject (negb (one_of outcome ["delivered"; "ambiguous"])) notification_conflict;;
  s ← get_store;
  match map_get id (lg_notifications (st_ledger s)) with
  | None => mret None
  | Some row =>
      reject (negb (String.eqb (nr_payload_digest row) digest)) notification_conflict;;
      reject ((nr_outbox_state row <>?? ClaimedN) || negb (opt_is (nr_claim_token row) token)
              || negb (nr_attempt row =? attempt)%N) notification_stale;;
      let delivered := String.eqb outcome "delivered" in
      let updated := with_notification row (if delivered then DeliveredN else AmbiguousN) None None
                       (nr_attempt row) (if delivered then Some now_ms else None)
                       (nr_aborted_at_ms row) (nr_abort_reason row) error in
      lift (notification_validate updated);;
      put_notification id updated;;
      mret (Some updated)
  end.

Definition reconcile_host_interaction_notification (id digest outcome : string) (now_ms : N)
    (abort_reason : option string) : M (option HostInteractionNotificationRecord) :=
  reject (negb (one_of outcome ["delivered"; "retry"; "abort"])) notification_conflict;;
  reject (String.eqb outcome "abort"
          && is_none_or abort_reason (blank_or_long HOST_INTERACTION_CONTENT_MAX_UTF8_BYTES))
         notification_conflict;;
  s ← get_store;
  match map_get id (lg_notifications (st_ledger s)) with
  | None => mret None
  | Some row =>
      reject (negb (String.eqb (nr_payload_digest row) digest)) notification_conflict;;
      let target := if String.eqb outcome "delivered" then DeliveredN
                    else if String.eqb outcome "retry" then PendingN else AbortedN in
      if nr_outbox_state row =?? target then mret (Some row)
      else
        reject (nr_outbox_state row <>?? AmbiguousN) notification_stale;;
        let updated := with_notification row target (nr_claim_token row)
                         (nr_lease_expires_at_ms row) (nr_attempt row)
                         (if target =?? DeliveredN then Some now_ms else None)
                         (if target =?? AbortedN then Some now_ms else None)
                         (if target =?? AbortedN then abort_reason else None) (nr_last_error row) in
        lift (notification_validate updated);;
        put_notification id updated;;
        mret (Some updated)
  end.

(** ** Wakes *)

Definition put_wake_lease (id : string) (lease : WakeLease) : M unit :=
  update_ledger (fun l => set_wake_leases l (map_insert id lease (lg_wake_leases l))).
Definition remove_wake_lease (id : string) : M unit :=
  update_ledger (fun l => set_wake_leases l (map_remove id (lg_wake_leases l))).
Definition put_updated_receipt (id : string) (r : ControllerCommandReceipt)
    (resolution : ControllerCommandResolution) : M unit :=
  put_receipt id r (resolution_with_receipt resolution r).

Definition claim_controller_command_wake (id digest token : string) (lease now_ms : N)
    : M (option ControllerCommandReceipt) :=
  reject (trim_is_empty token || (lease <=? now_ms)%N) cc_outbox;;
  s ← get_store;
  match map_get id (lg_command_receipts (st_ledger s)) with
  | None => mret None
  | Some (receipt, resolution) =>
      reject (negb (String.eqb (rc_command_digest receipt) digest)) command_conflict;;
      if String.eqb (rc_outbox_action receipt) "none"
         || String.eqb (rc_outbox_state receipt) "delivered"
         || String.eqb (rc_outbox_state receipt) "ambiguous"
      then
        reject (String.eqb (rc_outbox_state receipt) "ambiguous") outbox_stale;;
        mret (Some receipt)
      else
        let held := is_some_and (map_get id (lg_wake_leases (st_ledger s))) (fun l =>
                      String.eqb (rc_outbox_state receipt) "claimed"
                      && (now_ms <? wl_lease_expires_at_ms l)%N) in
        let own := is_some_and (map_get id (lg_wake_leases (st_ledger s))) (fun l =>
                     String.eqb (wl_claim_token l) token) in
        if held then (if own then mret (Some receipt) else throw outbox_stale)
        else
          attempt ← lift (ok_or (checked_add (rc_outbox_attempt receipt) 1) cc_outbox);
          let updated := with_outbox receipt "claimed" attempt in
          lift (command_receipt_validate updated);;
          put_wake_lease id {| wl_claim_token := token; wl_lease_expires_at_ms := lease |};;
          put_updated_receipt id updated resolution;;
          mret (Some updated)
  end.

Definition complete_controller_command_wake (id digest token : string) (attempt : N)
    (outcome : string) : M (option ControllerCommandReceipt) :=
  reject (negb (one_of outcome ["delivered"; "ambiguous"])) cc_outbox;;
  s ← get_store;
  match map_get id (lg_command_receipts (st_ledger s)) with
  | None => mret None
  | Some (receipt, resolution) =>
      reject (negb (String.eqb (rc_command_digest receipt) digest)) command_conflict;;
      if one_of (rc_outbox_state receipt) ["delivered"; "ambiguous"] then
        if String.eqb (rc_outbox_state receipt) outcome then mret (Some receipt)
        else throw command_stale
      else
        reject (negb (String.eqb (rc_outbox_state receipt) "claimed")
                || negb (rc_outbox_attempt receipt =? attempt)%N
                || is_none_or (map_get id (lg_wake_leases (st_ledger s)))
                     (fun l => negb (String.eqb (wl_claim_token l) token))) outbox_stale;;
        let updated := with_outbox receipt outcome (rc_outbox_attempt receipt) in
        lift (command_receipt_validate updated);;
        remove_wake_lease id;;
        put_updated_receipt id updated resolution;;
        mret (Some updated)
  end.

Definition reconcile_controller_command_wake (id digest outcome : string)
    : M (option ControllerCommandReceipt) :=
  reject (negb (one_of outcome ["delivered"; "retry"])) cc_outbox;;
  s ← get_store;
  match map_get id (lg_command_receipts (st_ledger s)) with
  | None => mret None
  | Some (receipt, resolution) =>
      reject (negb (String.eqb (rc_command_digest receipt) digest)) command_conflict;;
      reject (negb (String.eqb (rc_outbox_state receipt) "ambiguous")) outbox_stale;;
      let updated := with_outbox receipt outcome (rc_outbox_attempt receipt) in
      lift (command_receipt_validate updated);;
      put_updated_receipt id updated resolution;;
      mret (Some updated)
  end.

(** The wakes of a checkpoint that wait, or whose claim has run out. *)
Definition wake_waits (l : ControllerLedger) (key : string) (now_ms : N) (id : string)
    (receipt : ControllerCommandReceipt) : bool :=
  String.eqb (ch_checkpoint_key (rc_handle receipt)) key
  && String.eqb (rc_outbox_action receipt) "recovery_dispatch"
  && (String.eqb (rc_outbox_state receipt) "pending"
      || (String.eqb (rc_outbox_state receipt) "claimed"
          && is_some_and (map_get id (lg_wake_leases l))
               (fun lease => (wl_lease_expires_at_ms lease <=? now_ms)%N))).
Definition candidate_le (a b : N * string) : bool :=
  (a.1 <? b.1)%N || ((a.1 =? b.1)%N && match String.compare a.2 b.2 with Gt => false | _ => true end).
Definition wake_candidates (l : ControllerLedger) (key : string) (now_ms : N) : list (N * string) :=
  stable_sort candidate_le
    (omap (fun kv : string * (ControllerCommandReceipt * ControllerCommandResolution) =>
             if wake_waits l key now_ms kv.1 kv.2.1
             then Some (rc_expected_revision kv.2.1, kv.1) else None) (lg_command_receipts l)).

Definition wake_record_of (r : ControllerCommandReceipt) : result ControllerCommandWakeRecord :=
  let? outbox_id := controller_receipt_outbox_id (rc_command_id r) (rc_command_digest r) in
  from_receipt_lifecycle r outbox_id (rc_outbox_attempt r) None None None None.

(** One round of the loop: an expired claim goes back to pending. *)
Definition reap_one (key : string) (now_ms : N) (id : string)
    : M (option ControllerCommandWakeRecord) :=
  s ← get_store;
  match map_get id (lg_command_receipts (st_ledger s)) with
  | None => mret None
  | Some (receipt, resolution) =>
      if negb (String.eqb (ch_checkpoint_key (rc_handle receipt)) key)
         || negb (String.eqb (rc_outbox_action receipt) "recovery_dispatch") then mret None
      else if String.eqb (rc_outbox_state receipt) "pending" then
        r ← lift (wake_record_of receipt); mret (Some r)
      else match map_get id (lg_wake_leases (st_ledger s)) with
      | None => mret None
      | Some lease =>
          if negb (String.eqb (rc_outbox_state receipt) "claimed")
             || (now_ms <? wl_lease_expires_at_ms lease)%N then mret None
          else
            let updated := with_outbox receipt "pending" (rc_outbox_attempt receipt) in
            lift (command_receipt_validate updated);;
            remove_wake_lease id;;
            put_updated_receipt id updated resolution;;
            r ← lift (wake_record_of updated);
            mret (Some r)
      end
  end.
Fixpoint reap_all (key : string) (now_ms : N) (ids : list string)
    : M (list ControllerCommandWakeRecord) :=
  match ids with
  | [] => mret []
  | id :: rest =>
      r ← reap_one key now_ms id;
      l ← reap_all key now_ms rest;
      mret (option_list r ++ l)
  end.
Definition reap_controller_command_wakes (key : string) (now_ms : N)
    : M (list ControllerCommandWakeRecord) :=
  s ← get_store;
  reap_all key now_ms (map snd (wake_candidates (st_ledger s) key now_ms)).

(** ** Deletion *)

Definition delete_checkpoint (key : string) : M unit :=
  modify (fun s =>
    let other k := negb (String.eqb k key) in
    let l := st_ledger s in
    let receipts := map_retain (fun _ r => other (ch_checkpoint_key (rc_handle r.1)))
                      (lg_command_receipts l) in
    {| st_checkpoints := map_remove key (st_checkpoints s);
       st_history := map_remove key (st_history s);
       st_deferred_receipts := map_retain (fun _ r => other (h_checkpoint_key (dr_handle r)))
                                 (st_deferred_receipts s);
       st_ledger :=
         {| lg_host_interactions := map_retain (fun _ r => other (ir_checkpoint_key r))
                                      (lg_host_interactions l);
            lg_notifications := map_retain (fun _ n => other (nr_checkpoint_key n))
                                  (lg_notifications l);
            lg_command_receipts := receipts;
            lg_commands := map_retain (fun _ c => other (ch_checkpoint_key (cc_handle c)))
                             (lg_commands l);
            lg_wake_leases := map_retain (fun id _ => map_contains_key id receipts)
                                (lg_wake_leases l) |} |}).
End Controllers.
