(* ===== verification/ApiMoves.v ===== *)
(** * Moves of the store's interface

    The whole interface of the in-memory store as one list of operations, the
    abstract moves it may make, and the proof that every operation of
    [Store.v] and [StoreController.v] is such moves: the fence and the effect
    of controller commands, host interactions, notifications and wakes. *)

From Stdlib Require Import Ascii String NArith Lia Sorting.Sorted.
From stdpp Require Import base strings list sets gmap relations pretty.
From S2P Require Import Prelude Json Canonical CheckpointTypes ToolResult Journal TokenUsage.
From S2P Require Import Budget BudgetWire Records ResultCodec Events HostInteraction Controller.
From S2P Require Import Checkpoint History Deferred Transitions Store StoreController.

Section Commands.
Context `{Env} `{StrictJson} (clock : string -> Number).

(** ** Events *)

Lemma push_event_frame c id e c' :
  push_event c id e = Ok c' -> exists x, c' = set_event_outbox c (cp_event_outbox c ++ [x]).
Proof. unfold push_event. intros Hp. result_inv. by eexists. Qed.
Lemma control_event_frame c id p r c' :
  append_control_event_with_completion clock c id p r = Ok c' ->
  exists x, c' = set_event_outbox c (cp_event_outbox c ++ [x]).
Proof. unfold append_control_event_with_completion. intros Hp. result_inv. by eapply push_event_frame. Qed.
Lemma cancel_event_frame c id c' :
  append_cancel_requested_event clock c id = Ok c' ->
  exists x, c' = set_event_outbox c (cp_event_outbox c ++ [x]).
Proof. unfold append_cancel_requested_event. intros Hp. result_inv. by eapply push_event_frame. Qed.

(** ** Commands *)

(** What a command may not touch. *)
Definition untouched (c c' : Checkpoint) : Prop :=
  run_identity c' = run_identity c /\ cp_model_calls c' = cp_model_calls c /\
  cp_history c' = cp_history c /\ cp_messages c' = cp_messages c /\ cp_cycles c' = cp_cycles c /\
  cp_shared_state c' = cp_shared_state c /\ cp_cycle_index c' = cp_cycle_index c /\
  cp_terminal_acknowledged c' = cp_terminal_acknowledged c.

Lemma release_expired_frame c v now c' :
  release_expired c v now = Ok c' ->
  untouched c c' /\ cp_revision c' = cp_revision c /\ cp_event_outbox c' = cp_event_outbox c /\
  (cp_resume_attempt c <= cp_resume_attempt c')%N /\
  (cp_cancel_requested c = true -> cp_cancel_requested c' = true) /\
  (claim_expired c now = false -> c' = c).
Proof.
  unfold release_expired. destruct (claim_expired c now); cbn [andb]; intros Hr;
    [|result_inv; by repeat split; auto].
  destruct v; cbn in Hr; result_inv; unfold untouched;
    repeat match goal with E : checked_add _ _ = Some _ |- _ => apply checked_add_Some in E as [-> _] end;
    repeat split; cbn; auto; lia.
Qed.

Definition live_claim (c : Checkpoint) (now : N) : bool :=
  is_some (cp_claim_token c) && negb (claim_expired c now).

(** Where each command leads. *)
Definition command_target (c : Checkpoint) (now : N) (v : ControllerCommandVariant) (c' : Checkpoint)
    : Prop :=
  match v with
  | HostInteractionResponseV _ _ _ _ _ _ =>
      cp_active_host_interaction c' = None /\
      (cp_status c = HostInteractionS /\ cp_status c' = RunningS \/
       cp_status c = SuspendedS /\ cp_status c' = SuspendedS)
  | Suspend => cp_status c' = SuspendedS
  | Resume => cp_status c = SuspendedS /\ cp_suspended_origin c' = None /\
              (cp_status c' = RunningS \/ cp_status c' = DeferredS \/ cp_status c' = HostInteractionS)
  | Cancel =>
      if live_claim c now then cp_cancel_requested c' = true /\ cp_status c' = cp_status c
      else cp_status c' = FailedS
  | Controller.Abort => cp_status c = ReconciliationRequiredS /\ cp_status c' = FailedS
  end.

Record commanded (c : Checkpoint) (command : ControllerCommand) (now : N) (c' : Checkpoint) : Prop := {
  cm_fence : cp_root_run_id c = ch_run_id (cc_handle command) /\
    cp_trace_id c = ch_trace_id (cc_handle command) /\
    cp_resume_attempt c = cc_resume_attempt command /\
    cp_revision c = cc_expected_revision command;
  cm_open : cp_terminal_result c = None /\ is_terminal (cp_status c) = false;
  cm_claim : live_claim c now = true -> cc_command command = Cancel;
  cm_valid : validate_checkpoint c' = Ok tt;
  cm_untouched : untouched c c';
  cm_revision : cp_revision c' = if live_claim c now then cp_revision c else (cp_revision c + 1)%N;
  cm_owner : live_claim c now = true -> cp_claim_token c' = cp_claim_token c;
  cm_resume : (cp_resume_attempt c <= cp_resume_attempt c')%N;
  cm_cancel : cp_cancel_requested c = true -> cp_cancel_requested c' = true;
  cm_target : command_target c now (cc_command command) c'
}.

Lemma end_run_frame c u id reason r p c' wake rec :
  end_run clock c u id reason r p = Ok (c', wake, rec) ->
  validate_checkpoint c' = Ok tt /\ untouched u c' /\ cp_revision c' = (cp_revision c + 1)%N /\
  cp_status c' = FailedS /\ cp_resume_attempt c' = cp_resume_attempt u /\
  cp_cancel_requested c' = cp_cancel_requested u /\ wake = wake_none /\ rec = None.
Proof.
  unfold end_run, append_control_event, append_control_event_with_result. intros Hr. result_inv.
  unit_inv.
  match goal with E : close_unresolved_tools _ _ _ = Ok _ |- _ =>
    apply close_unresolved_frame in E as (E & _); unfold closure_frame in E end.
  repeat match goal with E : append_control_event_with_completion _ _ _ _ _ = Ok _ |- _ =>
    apply control_event_frame in E as [? ->] end.
  split; [done|]. match goal with E : _ = set_terminal_result _ _ |- _ => rewrite E end.
  unfold untouched. by repeat split.
Qed.

Lemma untouched_trans a b c : untouched a b -> untouched b c -> untouched a c.
Proof. unfold untouched. intros (?&?&?&?&?&?&?&?) (?&?&?&?&?&?&?&?). by repeat split; congruence. Qed.
Lemma untouched_refl a : untouched a a.
Proof. by repeat split. Qed.

Lemma response_frame c u records id i n op call digest msg c' wake rec :
  apply_response c u records id i n op call digest msg = Ok (c', wake, rec) ->
  validate_checkpoint c' = Ok tt /\ untouched u c' /\ cp_revision c' = (cp_revision c + 1)%N /\
  cp_resume_attempt c' = cp_resume_attempt u /\ cp_cancel_requested c' = cp_cancel_requested u /\
  cp_active_host_interaction c' = None /\
  (cp_status c = HostInteractionS /\ cp_status c' = RunningS \/
   cp_status c = SuspendedS /\ cp_status c' = SuspendedS).
Proof.
  unfold apply_response. intros Hr.
  destruct (pending_request c) as [pending|] eqn:Hp; [|done]. cbn [ok_or] in Hr.
  assert (Hs : cp_status c = HostInteractionS \/ cp_status c = SuspendedS).
  { unfold pending_request in Hp. repeat case_match; try done; auto. }
  destruct Hs as [Hs|Hs]; rewrite Hs in Hr.
  - rewrite bool_decide_eq_true_2 in Hr by done. result_inv. unit_inv. unfold untouched.
    repeat split; auto.
  - rewrite bool_decide_eq_false_2 in Hr by done. result_inv. unit_inv. unfold untouched.
    repeat split; auto.
Qed.

Lemma suspend_frame c u id c' wake rec :
  apply_suspend clock c u id = Ok (c', wake, rec) ->
  validate_checkpoint c' = Ok tt /\ untouched u c' /\ cp_revision c' = (cp_revision c + 1)%N /\
  cp_resume_attempt c' = cp_resume_attempt u /\ cp_cancel_requested c' = cp_cancel_requested u /\
  cp_status c' = SuspendedS.
Proof.
  unfold apply_suspend, append_control_event. intros Hr. result_inv. unit_inv.
  match goal with E : append_control_event_with_completion _ _ _ _ _ = Ok _ |- _ =>
    apply control_event_frame in E as [? ->] end.
  split; [done|]. unfold untouched. by repeat split.
Qed.

Lemma resume_frame c u records id c' wake rec :
  apply_resume clock c u records id = Ok (c', wake, rec) ->
  validate_checkpoint c' = Ok tt /\ untouched u c' /\ cp_revision c' = (cp_revision c + 1)%N /\
  cp_resume_attempt c' = cp_resume_attempt u /\ cp_cancel_requested c' = cp_cancel_requested u /\
  cp_status c = SuspendedS /\ cp_suspended_origin c' = None /\
  (cp_status c' = RunningS \/ cp_status c' = DeferredS \/ cp_status c' = HostInteractionS).
Proof.
  unfold apply_resume, append_control_event. intros Hr. result_inv. unit_inv. bool_inv.
  match goal with E : append_control_event_with_completion _ _ _ _ _ = Ok _ |- _ =>
    apply control_event_frame in E as [? ->] end.
  split; [done|]. unfold resumed in *. cbv zeta in *.
  repeat match goal with
  | E : (if ?b then _ else _) = Ok _ |- _ => destruct b
  | E : match ?b with Ok _ => _ | Err _ => _ end = Ok _ |- _ => destruct b
  end; result_inv; unfold untouched; repeat split; auto.
Qed.

Lemma cancel_frame c u id now c' wake rec :
  apply_cancel clock c u id now = Ok (c', wake, rec) ->
  validate_checkpoint c' = Ok tt /\ untouched u c' /\
  cp_resume_attempt c' = cp_resume_attempt u /\
  (cp_cancel_requested u = true -> cp_cancel_requested c' = true) /\
  (if live_claim c now
   then cp_revision c' = cp_revision u /\ cp_claim_token c' = cp_claim_token u /\
        cp_status c' = cp_status u /\
        (cp_cancel_requested c = cp_cancel_requested u -> cp_cancel_requested c' = true)
   else cp_revision c' = (cp_revision c + 1)%N /\ cp_status c' = FailedS).
Proof.
  unfold apply_cancel, live_claim. intros Hr. destruct (is_some _ && negb _).
  - destruct (cp_cancel_requested c) eqn:Hc.
    + result_inv. unit_inv. split; [done|]. split; [apply untouched_refl|]. repeat split; auto.
    + result_inv. unit_inv.
      match goal with E : append_cancel_requested_event _ _ _ = Ok _ |- _ =>
        apply cancel_event_frame in E as [? ->] end.
      split; [done|]. unfold untouched. by repeat split.
  - result_inv.
    apply end_run_frame in Hr as (Hv & Hu & Hrev & Hst & Hres & Hcan & _).
    split; [done|]. split; [done|]. split; [done|]. split; [congruence|done].
Qed.

Lemma guard_spec c command now :
  command_guard c command now = Ok tt ->
  (cp_root_run_id c = ch_run_id (cc_handle command) /\
   cp_trace_id c = ch_trace_id (cc_handle command) /\
   cp_resume_attempt c = cc_resume_attempt command /\
   cp_revision c = cc_expected_revision command) /\
  (cp_terminal_result c = None /\ is_terminal (cp_status c) = false) /\
  (live_claim c now = true -> cc_command command = Cancel).
Proof.
  unfold command_guard, live_claim. cbv zeta. intros Hg. result_inv. bool_inv.
  split; [done|]. split; [done|]. intros Hl.
  match goal with E : _ && _ && negb (bool_decide (_ = Cancel)) = false |- _ =>
    rewrite Hl in E; cbn [andb] in E end.
  by bool_inv.
Qed.

Lemma command_effect_spec c records command now c' wake rec :
  command_effect clock c records command now = Ok (c', wake, rec) -> commanded c command now c'.
Proof.
  unfold command_effect. intros Hc. result_inv. unit_inv.
  apply guard_spec in Hdo as (Hf & Ho & Hl).
  apply release_expired_frame in Hdo0 as (Hu & Hrev & _ & Hres & Hcan & Hsame).
  assert (Hdead : cc_command command <> Cancel -> live_claim c now = false).
  { intros Hne. destruct (live_claim c now); [|done]. by rewrite Hl in Hne. }
  destruct (cc_command command) as [i n op call digest msg| | | |] eqn:Ev.
  - apply response_frame in Hc as (Hv & Hu' & Hr' & Ha & Hq & Hact & Hst).
    pose proof (Hdead ltac:(done)) as Hd.
    constructor; rewrite ?Ev, ?Hd; try done; [by eapply untouched_trans|by rewrite Ha|by rewrite Hq].
  - apply suspend_frame in Hc as (Hv & Hu' & Hr' & Ha & Hq & Hst).
    pose proof (Hdead ltac:(done)) as Hd.
    constructor; rewrite ?Ev, ?Hd; try done; [by eapply untouched_trans|by rewrite Ha|by rewrite Hq].
  - apply resume_frame in Hc as (Hv & Hu' & Hr' & Ha & Hq & Hst).
    pose proof (Hdead ltac:(done)) as Hd.
    constructor; rewrite ?Ev, ?Hd; try done; [by eapply untouched_trans|by rewrite Ha|by rewrite Hq].
  - apply cancel_frame in Hc as (Hv & Hu' & Ha & Hq & Hst).
    constructor; rewrite ?Ev; try done.
    + by eapply untouched_trans.
    + destruct (live_claim c now); [|tauto]. destruct Hst as (-> & _). done.
    + intros Hlive. rewrite Hlive in Hst. assert (claim_expired c now = false) as Hne.
      { unfold live_claim in Hlive. bool_inv. done. }
      rewrite (Hsame Hne) in Hst. tauto.
    + rewrite Ha. exact Hres.
    + auto.
    + cbn [command_target]. destruct (live_claim c now) eqn:Hlive; [|tauto].
      assert (claim_expired c now = false) as Hne.
      { unfold live_claim in Hlive. bool_inv. done. }
      rewrite (Hsame Hne) in Hst. destruct Hst as (_ & _ & Hst & Hcr). split; [by apply Hcr|done].
  - unfold apply_abort in Hc. result_inv. bool_inv.
    apply end_run_frame in Hc as (Hv & Hu' & Hr' & Hst & Ha & Hq & _).
    pose proof (Hdead ltac:(done)) as Hd.
    constructor; rewrite ?Ev, ?Hd; try done; [by eapply untouched_trans|by rewrite Ha|by rewrite Hq].
Qed.
End Commands.

(** ** The interface *)

Section Interface.
Context `{Env} `{StrictJson}.

(** Every operation of the store's interface that may change it, deletion
    apart. *)
Inductive ApiOp :=
| ApiCore (op : StoreOp)
| ApiProduce (request : HostInteractionRequest) (x : HostInteractionAdmissionContext)
| ApiAdmitCommand (command : ControllerCommand) (now : N)
| ApiResolveCommand (command : ControllerCommand) (now : N)
| ApiConsume (e : HostInteractionRecoveryEnvelope) (now : N)
| ApiReapRecord (record_id key : string) (now : N)
| ApiClaimNotification (id digest token : string) (lease now : N)
| ApiCompleteNotification (id digest token : string) (attempt : N) (outcome : string) (now : N)
    (error : option string)
| ApiReconcileNotification (id digest outcome : string) (now : N) (reason : option string)
| ApiClaimWake (id digest token : string) (lease now : N)
| ApiCompleteWake (id digest token : string) (attempt : N) (outcome : string)
| ApiReconcileWake (id digest outcome : string)
| ApiReapWakes (key : string) (now : N).

Definition run_api (clock : string -> Number) (op : ApiOp) : M unit :=
  match op with
  | ApiCore op => run_op clock op
  | ApiProduce request x => discard (produce_host_interaction clock request x)
  | ApiAdmitCommand command now => discard (admit_controller_command clock command now)
  | ApiResolveCommand command now => discard (resolve_controller_command clock command now)
  | ApiConsume e now => discard (claim_and_consume_host_interaction_response clock e now)
  | ApiReapRecord id key now => discard (reap_host_interaction_record id key now)
  | ApiClaimNotification id digest token lease now =>
      discard (claim_host_interaction_notification id digest token lease now)
  | ApiCompleteNotification id digest token attempt outcome now error =>
      discard (complete_host_interaction_notification id digest token attempt outcome now error)
  | ApiReconcileNotification id digest outcome now reason =>
      discard (reconcile_host_interaction_notification id digest outcome now reason)
  | ApiClaimWake id digest token lease now =>
      discard (claim_controller_command_wake id digest token lease now)
  | ApiCompleteWake id digest token attempt outcome =>
      discard (complete_controller_command_wake id digest token attempt outcome)
  | ApiReconcileWake id digest outcome =>
      discard (reconcile_controller_command_wake id digest outcome)
  | ApiReapWakes key now => discard (reap_controller_command_wakes key now)
  end.

(** ** What an operation may do

    The abstract store: one guarded change of the checkpoint and the ledger at
    a time. *)

Definition settled (n : HostInteractionNotificationRecord) : bool :=
  match nr_outbox_state n with DeliveredN | AbortedN => true | _ => false end.

Inductive notification_move (n n' : HostInteractionNotificationRecord) : Prop :=
| nm_claim token lease now :
    settled n = false ->
    (nr_outbox_state n = ClaimedN ->
       nr_claim_token n = Some token \/
       forall expiry, nr_lease_expires_at_ms n = Some expiry -> (expiry <= now)%N) ->
    (now < lease)%N -> nr_outbox_state n' = ClaimedN -> nr_claim_token n' = Some token ->
    nr_lease_expires_at_ms n' = Some lease -> nr_attempt n' = (nr_attempt n + 1)%N ->
    notification_move n n'
| nm_complete :
    nr_outbox_state n = ClaimedN ->
    nr_outbox_state n' = DeliveredN \/ nr_outbox_state n' = AmbiguousN ->
    nr_attempt n' = nr_attempt n -> notification_move n n'
| nm_reconcile :
    nr_outbox_state n = AmbiguousN ->
    nr_outbox_state n' = DeliveredN \/ nr_outbox_state n' = PendingN \/ nr_outbox_state n' = AbortedN ->
    nr_attempt n' = nr_attempt n -> notification_move n n'.

Definition notification_body (n : HostInteractionNotificationRecord) :=
  (nr_notification_id n, nr_checkpoint_key n, nr_record_id n, nr_payload n, nr_payload_digest n).

(** The wake of a receipt and its lease: [wake_move old lease new lease']. *)
Inductive wake_move (r : ControllerCommandReceipt) (lease : option WakeLease)
    : ControllerCommandReceipt -> option WakeLease -> Prop :=
| wm_claim token expiry now :
    (now < expiry)%N ->
    rc_outbox_state r = "pending" \/
      rc_outbox_state r = "claimed" /\
      (forall l, lease = Some l -> (wl_lease_expires_at_ms l <= now)%N) ->
    wake_move r lease (with_outbox r "claimed" (rc_outbox_attempt r + 1))
      (Some {| wl_claim_token := token; wl_lease_expires_at_ms := expiry |})
| wm_complete l outcome :
    rc_outbox_state r = "claimed" -> lease = Some l -> outcome = "delivered" \/ outcome = "ambiguous" ->
    wake_move r lease (with_outbox r outcome (rc_outbox_attempt r)) None
| wm_expire l now :
    rc_outbox_state r = "claimed" -> lease = Some l -> (wl_lease_expires_at_ms l <= now)%N ->
    wake_move r lease (with_outbox r "pending" (rc_outbox_attempt r)) None.

Definition put_lease (id : string) (lease : option WakeLease) (l : list (string * WakeLease))
    : list (string * WakeLease) :=
  match lease with Some w => map_insert id w l | None => map_remove id l end.

Definition host_body (r : HostInteractionRecord) :=
  (ir_record_id r, ir_checkpoint_key r, ir_interaction_id r, ir_logical_cycle r, ir_request r,
   ir_request_digest r).

(** The ledger after the parts that change were replaced. *)
Definition admitted_ledger (l : ControllerLedger) (record_id : string) (r : HostInteractionRecord)
    (n : HostInteractionNotificationRecord) : ControllerLedger :=
  set_notifications (set_host_interactions l (map_insert record_id r (lg_host_interactions l)))
    (map_insert (nr_notification_id n) n (lg_notifications l)).
Definition commanded_ledger (l : ControllerLedger) (command : ControllerCommand)
    (record : option (string * HostInteractionRecord)) (receipt : ControllerCommandReceipt)
    (resolution : ControllerCommandResolution) : ControllerLedger :=
  let l := match record with
           | Some (id, r) => set_host_interactions l (map_insert id r (lg_host_interactions l))
           | None => l
           end in
  set_commands
    (set_command_receipts l
       (map_insert (cc_command_id command) (receipt, resolution) (lg_command_receipts l)))
    (map_insert (cc_command_id command) command (lg_commands l)).
Definition consumed_record (r : HostInteractionRecord) (c : Checkpoint) : HostInteractionRecord :=
  with_record_state r "consumed" (ir_response r) (ir_response_digest r) (ir_command_id r)
    (ir_resolved_revision r) (Some (cp_revision c)) None None (ir_last_error r).
Definition reaped_record (r : HostInteractionRecord) : HostInteractionRecord :=
  with_record_state r "resolved_pending" (ir_response r) (ir_response_digest r) (ir_command_id r)
    (ir_resolved_revision r) (ir_consumed_revision r) None None
    (Some "host_interaction_response_claim_expired").

Inductive api_move (s : Store) : Store -> Prop :=
| am_history h : api_move s (set_store_history s h)
| am_core clock op : api_move s (snd (run_op clock op s))
| am_admit clock request x c d c' ob h record_id r n :
    request_validate request = Ok tt ->
    map_get (hx_checkpoint_key x) (st_checkpoints s) = Some c ->
    admission_live c request x = true ->
    record_id_for (hx_checkpoint_key x) request = Ok record_id ->
    map_get record_id (lg_host_interactions (st_ledger s)) = None ->
    notification_for (hx_checkpoint_key x) request record_id = Ok n ->
    active_record (hx_checkpoint_key x) request record_id = Ok r ->
    waiting_checkpoint clock c request x record_id = Ok d ->
    normalize_checkpoint_history d = Ok (c', ob) ->
    api_move s (set_ledger
      (set_checkpoints (set_store_history s h)
         (map_insert (hx_checkpoint_key x) c' (st_checkpoints s)))
      (admitted_ledger (st_ledger s) record_id r n))
| am_command clock command now c c' wake record :
    command_validate command = Ok tt ->
    map_get (cc_command_id command) (lg_command_receipts (st_ledger s)) = None ->
    map_get (ch_checkpoint_key (cc_handle command)) (st_checkpoints s) = Some c ->
    command_effect clock c (lg_host_interactions (st_ledger s)) command now
      = Ok (c', wake, record) ->
    api_move s (set_ledger
      (set_checkpoints s (map_insert (cp_checkpoint_key c) c' (st_checkpoints s)))
      (commanded_ledger (st_ledger s) command record (command_receipt command c' wake)
         (Applied (command_receipt command c' wake) wake)))
| am_consume clock e now c r d c' ob h :
    map_get (re_checkpoint_key e) (st_checkpoints s) = Some c ->
    map_get (re_record_id e) (lg_host_interactions (st_ledger s)) = Some r ->
    recovery_admissible c r e = true ->
    consumed_checkpoint clock c r e now = Ok d ->
    record_validate (consumed_record r d) = Ok tt ->
    normalize_checkpoint_history d = Ok (c', ob) ->
    api_move s (set_ledger
      (set_checkpoints (set_store_history s h)
         (map_insert (re_checkpoint_key e) c' (st_checkpoints s)))
      (set_host_interactions (st_ledger s)
         (map_insert (re_record_id e) (consumed_record r d) (lg_host_interactions (st_ledger s)))))
| am_reap_record id r :
    map_get id (lg_host_interactions (st_ledger s)) = Some r -> ir_state r = "resolved_claimed" ->
    record_validate (reaped_record r) = Ok tt ->
    api_move s (set_ledger s (set_host_interactions (st_ledger s)
      (map_insert id (reaped_record r) (lg_host_interactions (st_ledger s)))))
| am_notify id n n' :
    map_get id (lg_notifications (st_ledger s)) = Some n -> notification_move n n' ->
    notification_body n' = notification_body n -> notification_validate n' = Ok tt ->
    api_move s (set_ledger s (set_notifications (st_ledger s)
      (map_insert id n' (lg_notifications (st_ledger s)))))
| am_wake id r resolution r' lease' :
    map_get id (lg_command_receipts (st_ledger s)) = Some (r, resolution) ->
    wake_move r (map_get id (lg_wake_leases (st_ledger s))) r' lease' ->
    command_receipt_validate r' = Ok tt ->
    api_move s (set_ledger s (set_wake_leases
      (set_command_receipts (st_ledger s)
         (map_insert id (r', resolution_with_receipt resolution r')
            (lg_command_receipts (st_ledger s))))
      (put_lease id lease' (lg_wake_leases (st_ledger s)))))
| am_settle_wake id r resolution :
    map_get id (lg_command_receipts (st_ledger s)) = Some (r, resolution) ->
    rc_outbox_state r = "ambiguous" ->
    command_receipt_validate (with_outbox r "delivered" (rc_outbox_attempt r)) = Ok tt ->
    let r' := with_outbox r "delivered" (rc_outbox_attempt r) in
    api_move s (set_ledger s (set_command_receipts (st_ledger s)
      (map_insert id (r', resolution_with_receipt resolution r')
         (lg_command_receipts (st_ledger s))))).

(** ** The operations are such moves *)

(** An operation that fails changes neither a checkpoint, nor a deferred
    receipt, nor the ledger. *)
Record refined {A} (s : Store) (r : result A) (s' : Store) : Prop := {
  rf_moves : rtc api_move s s';
  rf_failed : forall e, r = Err e ->
    st_checkpoints s' = st_checkpoints s /\ st_deferred_receipts s' = st_deferred_receipts s /\
    st_ledger s' = st_ledger s
}.

Lemma refined_refl {A} s (r : result A) : refined s r s.
Proof. by split. Qed.
Lemma refined_history {A} s (r : result A) h : refined s r (set_store_history s h).
Proof. split; [|done]. apply rtc_once. constructor. Qed.
Lemma refined_move {A} s (a : A) s' : api_move s s' -> refined s (Ok a) s'.
Proof. intros Hm. split; [|done]. by apply rtc_once. Qed.

Lemma discard_refined {A} (m : M A) s r s' :
  (forall x, m s = (x, s') -> refined s x s') -> discard m s = (r, s') -> refined s r s'.
Proof.
  unfold discard. intros Hm Hr. store_inv.
  - destruct (Hm _ Hrun). by split.
  - destruct (Hm _ Hrun). split; [done|]. intros e' [= <-]. by apply (rf_failed0 x).
Qed.

Definition wake_shape (w : ControllerCommandWake) : Prop :=
  w = wake_none \/ exists n, w = wake_recovery n.
Lemma resumed_wake c u records origin next : resumed c u records origin = Ok next -> wake_shape next.2.
Proof.
  unfold resumed, wake_shape. cbv zeta. intros Hr.
  repeat match type of Hr with
  | (if ?b then _ else _) = _ => destruct b
  | match ?b with Ok _ => _ | Err _ => _ end = _ => destruct b
  end; simplify_eq/=; eauto.
Qed.

(** The host record a command rewrites was active. *)
Definition resolves (records : list (string * HostInteractionRecord)) (id : string)
    (r' : HostInteractionRecord) : Prop :=
  exists r, map_get id records = Some r /\ ir_state r = "active" /\ host_body r' = host_body r /\
    ir_state r' = "resolved_pending" /\ record_validate r' = Ok tt.

Lemma response_ledger c u records id i n op call digest msg c' wake rec :
  apply_response c u records id i n op call digest msg = Ok (c', wake, rec) ->
  wake_shape wake /\ forall id r', rec = Some (id, r') -> resolves records id r'.
Proof.
  unfold apply_response. destruct (bool_decide (cp_status c = HostInteractionS)); intros He.
  all: result_inv; unit_inv; bool_inv; split; [unfold wake_shape; eauto|].
  all: intros j r' [= <- <-]; eexists; split; [eassumption|]; by repeat split.
Qed.
Lemma command_effect_ledger clock command c records now c' wake record :
  command_effect clock c records command now = Ok (c', wake, record) ->
  wake_shape wake /\ forall id r', record = Some (id, r') -> resolves records id r'.
Proof.
  unfold command_effect. intros He. result_inv. destruct (cc_command command).
  - by eapply response_ledger.
  - unfold apply_suspend in He. result_inv. split; [by left|done].
  - unfold apply_resume in He. result_inv. split; [by eapply resumed_wake|done].
  - unfold apply_cancel in He. destruct (is_some _ && negb _).
    + result_inv; (split; [by left|done]).
    + result_inv. apply end_run_frame in He as (_ & _ & _ & _ & _ & _ & -> & ->).
      split; [by left|done].
  - unfold apply_abort in He. result_inv. apply end_run_frame in He as (_ & _ & _ & _ & _ & _ & -> & ->).
    split; [by left|done].
Qed.

Lemma valid_revision c : validate_checkpoint c = Ok tt -> (cp_revision c <= MAX_WIRE_INTEGER)%N.
Proof.
  intros (_ & Hi & _)%validate_parts. unfold check_identity in Hi. result_inv. bool_inv. lia.
Qed.

(** The receipt of a command that was carried out is well formed, so nothing
    fails once the host record is written. *)
Lemma command_receipt_ok clock command c records now c' wake record :
  command_validate command = Ok tt ->
  command_effect clock c records command now = Ok (c', wake, record) ->
  command_receipt_validate (command_receipt command c' wake) = Ok tt.
Proof.
  intros Hv He. destruct (command_effect_ledger _ _ _ _ _ _ _ _ He) as [Hw _].
  apply command_effect_spec in He. pose proof (valid_revision _ (cm_valid _ _ _ _ He)) as Hr.
  unfold command_validate in Hv. result_inv. unit_inv. bool_inv.
  unfold command_receipt_validate, command_receipt. cbn [rc_schema_version rc_command_id
    rc_command_digest rc_handle rc_resume_attempt rc_expected_revision rc_resulting_revision
    rc_resulting_status rc_outbox_state rc_outbox_action rc_outbox_destination rc_outbox_attempt].
  repeat match goal with
  | E : blank_or_long _ _ = false |- _ => rewrite E; clear E
  | E : exceeds _ _ = false |- _ => rewrite E; clear E
  | E : validate_sha256 _ = Ok _ |- _ => rewrite E; clear E
  | E : controller_handle_validate _ = Ok _ |- _ => rewrite E; clear E
  | E : _ <> 0%N |- _ => rewrite (proj2 (N.eqb_neq _ _) E); clear E
  end.
  rewrite String.eqb_refl. unfold exceeds. rewrite (proj2 (N.ltb_ge _ _) Hr).
  destruct Hw as [->|[n ->]]; destruct (cp_status c'); reflexivity.
Qed.

(** *** Commands *)

Lemma apply_command_run clock command now s r s' :
  command_validate command = Ok tt -> apply_controller_command clock command now s = (r, s') ->
  (exists e, r = Err e /\ s' = s) \/
  exists c c' wake record,
    map_get (ch_checkpoint_key (cc_handle command)) (st_checkpoints s) = Some c /\
    command_effect clock c (lg_host_interactions (st_ledger s)) command now
      = Ok (c', wake, record) /\
    r = Ok (command_receipt command c' wake, Applied (command_receipt command c' wake) wake) /\
    s' = set_ledger
      (set_checkpoints s (map_insert (cp_checkpoint_key c) c' (st_checkpoints s)))
      (match record with
       | Some (id, r) => set_host_interactions (st_ledger s)
                           (map_insert id r (lg_host_interactions (st_ledger s)))
       | None => st_ledger s
       end).
Proof.
  intros Hv. unfold apply_controller_command, put_host_record, update_ledger, put_checkpoint.
  intros Hr. store_inv; try (left; eexists; by split).
  all: match goal with E : command_effect _ _ _ _ _ = Ok (_, _, _) |- _ =>
    pose proof (command_receipt_ok _ _ _ _ _ _ _ _ Hv E) as Hok end.
  all: try (rewrite Hok in *; discriminate).
  all: right; result_inv; do 4 eexists; repeat (split; [eassumption || reflexivity|]); by store_eta.
Qed.
(** The store after [apply_controller_command] and after it was recorded. *)
Definition commanded_store (s : Store) (command : ControllerCommand) (c c' : Checkpoint)
    (wake : ControllerCommandWake) (record : option (string * HostInteractionRecord)) : Store :=
  set_ledger (set_checkpoints s (map_insert (cp_checkpoint_key c) c' (st_checkpoints s)))
    (commanded_ledger (st_ledger s) command record (command_receipt command c' wake)
       (Applied (command_receipt command c' wake) wake)).

Lemma record_command_run s command (c c' : Checkpoint) wake record :
  let receipt := command_receipt command c' wake in
  record_command command receipt (Applied receipt wake)
    (set_ledger (set_checkpoints s (map_insert (cp_checkpoint_key c) c' (st_checkpoints s)))
      (match record with
       | Some (id, r) => set_host_interactions (st_ledger s)
                           (map_insert id r (lg_host_interactions (st_ledger s)))
       | None => st_ledger s
       end))
  = (Ok tt, commanded_store s command c c' wake record).
Proof. destruct record as [[]|]; by store_eta. Qed.

(** A command under a new id is carried out and recorded in one move, or
    fails without a change. *)
Lemma admit_command_run clock command now s r s' :
  admit_controller_command clock command now s = (r, s') ->
  (s' = s /\ forall receipt, r = Ok receipt -> exists resolution,
     map_get (cc_command_id command) (lg_command_receipts (st_ledger s)) = Some (receipt, resolution)) \/
  exists c c' wake record, command_validate command = Ok tt /\
    map_get (cc_command_id command) (lg_command_receipts (st_ledger s)) = None /\
    map_get (ch_checkpoint_key (cc_handle command)) (st_checkpoints s) = Some c /\
    command_effect clock c (lg_host_interactions (st_ledger s)) command now = Ok (c', wake, record) /\
    r = Ok (command_receipt command c' wake) /\ s' = commanded_store s command c c' wake record.
Proof.
  unfold admit_controller_command. intros Hr.
  store_inv; unit_inv; try (left; split; [done|]; intros ? [= <-]; by eexists).
  all: match goal with E : apply_controller_command _ _ _ _ = _ |- _ =>
    apply apply_command_run in E as [(? & ? & ->)|(c & c' & wake & record & Hc & He & Hres & ->)];
    [..|assumption]; simplify_eq end; try (left; split; [done|]; intros ? [=]).
  cbn [fst snd] in Hrun0. rewrite record_command_run in Hrun0. simplify_eq.
  right. do 4 eexists. by repeat (split; [eassumption|]).
Qed.
Lemma resolve_command_run clock command now s r s' :
  resolve_controller_command clock command now s = (r, s') ->
  s' = s \/
  exists c c' wake record, command_validate command = Ok tt /\
    map_get (cc_command_id command) (lg_command_receipts (st_ledger s)) = None /\
    map_get (ch_checkpoint_key (cc_handle command)) (st_checkpoints s) = Some c /\
    command_effect clock c (lg_host_interactions (st_ledger s)) command now = Ok (c', wake, record) /\
    r = Ok (Applied (command_receipt command c' wake) wake) /\
    s' = commanded_store s command c c' wake record.
Proof.
  unfold resolve_controller_command. intros Hr. store_inv; unit_inv; try (by left).
  match type of Hr with context [apply_controller_command _ _ _ ?s] =>
    destruct (apply_controller_command clock command now s) as [r1 s1] eqn:E end.
  apply apply_command_run in E as [(e & -> & ->)|(c & c' & wake & record & Hc & He & -> & ->)];
    [destruct (rejectable e); simplify_eq; by left| |assumption].
  apply bind_run in Hr as [([] & s2 & E & Hr)|(? & E & ->)]; rewrite record_command_run in E; simplify_eq.
  store_inv. right. do 4 eexists. by repeat (split; [eassumption|]).
Qed.

Lemma am_commanded clock command now s c c' wake record :
  command_validate command = Ok tt ->
  map_get (cc_command_id command) (lg_command_receipts (st_ledger s)) = None ->
  map_get (ch_checkpoint_key (cc_handle command)) (st_checkpoints s) = Some c ->
  command_effect clock c (lg_host_interactions (st_ledger s)) command now = Ok (c', wake, record) ->
  api_move s (commanded_store s command c c' wake record).
Proof. intros. by eapply am_command. Qed.
Lemma admit_command_refined clock command now s r s' :
  admit_controller_command clock command now s = (r, s') -> refined s r s'.
Proof.
  intros [[-> _]|(c & c' & wake & record & Hv & Hf & Hc & He & -> & ->)]%admit_command_run;
    [apply refined_refl|]. apply refined_move. by eapply am_commanded.
Qed.
Lemma resolve_command_refined clock command now s r s' :
  resolve_controller_command clock command now s = (r, s') -> refined s r s'.
Proof.
  intros [->|(c & c' & wake & record & Hv & Hf & Hc & He & -> & ->)]%resolve_command_run;
    [apply refined_refl|]. apply refined_move. by eapply am_commanded.
Qed.

(** *** Host interactions *)

Lemma am_to s a b : api_move s a -> a = b -> api_move s b.
Proof. by intros ? <-. Qed.

Lemma produce_refined clock request x s r s' :
  produce_host_interaction clock request x s = (r, s') -> refined s r s'.
Proof.
  unfold produce_host_interaction, put_checkpoint, put_host_record, put_notification, update_ledger.
  intros Hr. store_inv; unit_inv; try apply refined_refl; persisted; [|apply refined_history].
  apply refined_move. result_inv. bool_inv.
  eapply am_to; [by eapply am_admit|by store_eta].
Qed.

(** The recovery injects the response and takes the claim. *)
Record recovered (c : Checkpoint) (r : HostInteractionRecord) (now : N) (d : Checkpoint) : Prop := {
  rv_advances : advances c d;
  rv_monotone : monotone c d;
  rv_resume : cp_resume_attempt d = (cp_resume_attempt c + 1)%N;
  rv_injected : exists response, ir_response r = Some response /\
    cp_messages d = cp_messages c ++ [message_user (hm_content (hr_response response))];
  rv_claimed : is_some (cp_claim_token d) = true /\
    cp_claimed_cycle d = Some (cp_cycle_index c + 1)%N /\
    cp_lease_expires_at_ms d = Some (recovery_lease_deadline now);
  rv_status : cp_status d = cp_status c
}.
Lemma consumed_spec clock c r e now d :
  recovery_admissible c r e = true -> consumed_checkpoint clock c r e now = Ok d -> recovered c r now d.
Proof.
  unfold recovery_admissible, consumed_checkpoint. intros Ha Hc. result_inv. unit_inv. bool_inv.
  repeat match goal with E : checked_add _ _ = Some _ |- _ => apply checked_add_Some in E as [-> _] end.
  match goal with E : push_event _ _ _ = Ok _ |- _ => apply push_event_frame in E as [x ->] end.
  constructor.
  - constructor; [done|cbn; congruence|done].
  - constructor; cbn; try done. lia.
  - cbn. congruence.
  - eexists. by split.
  - done.
  - done.
Qed.

Lemma recovery_record_id c r e : recovery_admissible c r e = true -> re_record_id e = ir_record_id r.
Proof. unfold recovery_admissible, recovery_identity_matches. intros Ha. by bool_inv. Qed.

Lemma applied_result_ok r d c' :
  record_validate (consumed_record r d) = Ok tt -> validate_checkpoint d = Ok tt ->
  validate_checkpoint c' = Ok tt ->
  is_ok (recovery_result "applied" (ir_record_id r) (cp_revision c') (Some (cp_revision d))
           (cp_resume_attempt c') "retained") = true.
Proof.
  intros Hr Hd Hc. apply valid_revision in Hd. pose proof (valid_revision _ Hc) as Hcr.
  apply validate_parts in Hc as (_ & Hi & _). unfold check_identity in Hi.
  unfold record_validate in Hr. cbn [consumed_record with_record_state ir_record_id] in Hr.
  result_inv. bool_inv. unfold blank_or_long in *. bool_inv.
  unfold recovery_result, recovery_result_validate, exceeds. cbn.
  repeat match goal with
  | E : trim_is_empty _ = false |- _ => rewrite E; clear E
  | E : (_ <= MAX_WIRE_INTEGER)%N |- _ => rewrite (proj2 (N.ltb_ge _ _) E); clear E
  | E : _ <> 0%N |- _ => rewrite (proj2 (N.eqb_neq _ _) E); clear E
  end.
  reflexivity.
Qed.

Lemma consume_refined clock e now s r s' :
  claim_and_consume_host_interaction_response clock e now s = (r, s') -> refined s r s'.
Proof.
  unfold claim_and_consume_host_interaction_response, put_checkpoint, put_host_record, update_ledger.
  intros Hr. store_inv; unit_inv; try apply refined_refl; persisted; [|apply refined_history].
  bool_inv. result_inv.
  match goal with E : consumed_checkpoint _ _ _ _ _ = Ok _, A : recovery_admissible _ _ _ = true |- _ =>
    pose proof (consumed_spec _ _ _ _ _ _ A E) as [Hadv _ _ _ _ _] end.
  pose proof (adv_valid _ _ Hadv) as Hd. 
  match goal with E : normalize_checkpoint_history _ = Ok _ |- _ =>
    destruct (normalize_frame _ _ _ Hd E) as (Hv & _) end.
  match goal with E : record_validate _ = Ok tt |- _ =>
    pose proof (applied_result_ok _ _ _ E Hd Hv) as Hok end.
  destruct (recovery_result _ _ _ _ _ _) as [a|]; [|done]. apply refined_move.
  eapply am_to; [by eapply am_consume|].
  match goal with A : recovery_admissible _ _ _ = true |- _ => rewrite (recovery_record_id _ _ _ A) end.
  by store_eta.
Qed.

Lemma reap_record_refined id key now s r s' :
  reap_host_interaction_record id key now s = (r, s') -> refined s r s'.
Proof.
  unfold reap_host_interaction_record, put_host_record, update_ledger.
  intros Hr. store_inv; unit_inv; try apply refined_refl. bool_inv.
  apply refined_move. by eapply am_reap_record.
Qed.

(** *** Notifications *)

Lemma claim_notification_refined id digest token lease now s r s' :
  claim_host_interaction_notification id digest token lease now s = (r, s') -> refined s r s'.
Proof.
  unfold claim_host_interaction_notification, put_notification, update_ledger.
  intros Hr. store_inv; unit_inv; try apply refined_refl.
  all: apply refined_move; eapply am_notify; [eassumption| |reflexivity|eassumption]; bool_inv.
  all: match goal with E : ok_or (checked_add _ _) _ = Ok _ |- _ =>
    apply ok_or_Ok, checked_add_Some in E as [-> _] end.
  all: eapply nm_claim; try reflexivity; try eassumption; [by unfold settled; case_match|].
  all: intros Hcl; simplify_eq; try (rewrite Hcl in Hcase0; discriminate).
  rewrite bool_decide_eq_true_2 in Hrej1 by done. cbn [andb] in Hrej1.
  apply andb_false_iff in Hrej1 as [Hown|Hexp]; [left; by bool_inv|right].
  intros expiry He. rewrite He in Hexp. by apply N.ltb_ge.
Qed.

Lemma complete_notification_refined id digest token attempt outcome now error s r s' :
  complete_host_interaction_notification id digest token attempt outcome now error s = (r, s') ->
  refined s r s'.
Proof.
  unfold complete_host_interaction_notification, put_notification, update_ledger.
  intros Hr. store_inv; unit_inv; try apply refined_refl.
  all: apply refined_move; eapply am_notify; [eassumption| |reflexivity|eassumption]; bool_inv.
  all: eapply nm_complete; [done| |reflexivity]; cbn; case_match; auto.
Qed.

Lemma reconcile_notification_refined id digest outcome now reason s r s' :
  reconcile_host_interaction_notification id digest outcome now reason s = (r, s') ->
  refined s r s'.
Proof.
  unfold reconcile_host_interaction_notification, put_notification, update_ledger.
  intros Hr. store_inv; unit_inv; try apply refined_refl.
  all: apply refined_move; eapply am_notify; [eassumption| |reflexivity|eassumption]; bool_inv.
  all: eapply nm_reconcile; [done| |reflexivity]; cbn; repeat case_match; auto.
Qed.

(** *** Wakes *)

Lemma receipt_state r :
  command_receipt_validate r = Ok tt ->
  rc_outbox_state r = "pending" \/ rc_outbox_state r = "claimed" \/
  rc_outbox_state r = "delivered" \/ rc_outbox_state r = "ambiguous".
Proof.
  unfold command_receipt_validate. intros Hr. result_inv. bool_inv.
  match goal with E : one_of _ _ = true |- _ => unfold one_of, outbox_states in E; cbn in E end.
  repeat match goal with E : _ || _ = true |- _ => apply orb_true_iff in E as [E|E] end; bool_inv; auto.
  done.
Qed.

(** What the operations on wakes rely on: stored receipts are valid. *)
Definition receipts_valid (s : Store) : Prop :=
  forall id r resolution, map_get id (lg_command_receipts (st_ledger s)) = Some (r, resolution) ->
    command_receipt_validate r = Ok tt.

Lemma claim_wake_refined id digest token lease now s r s' :
  receipts_valid s ->
  claim_controller_command_wake id digest token lease now s = (r, s') -> refined s r s'.
Proof.
  intros Hval. unfold claim_controller_command_wake, put_wake_lease, put_updated_receipt, put_receipt, update_ledger.
  intros Hr. store_inv; unit_inv; try apply refined_refl. bool_inv.
  match goal with E : ok_or (checked_add _ _) _ = Ok _ |- _ =>
    apply ok_or_Ok, checked_add_Some in E as [-> _] end.
  apply refined_move. eapply am_to.
  { eapply am_wake; [eassumption| |eassumption]. eapply (wm_claim _ _ token lease); [eassumption|].
    match goal with E : map_get id (lg_command_receipts _) = Some (?r, _) |- _ =>
      pose proof (receipt_state _ (Hval _ _ _ E)) as Hst end.
    destruct Hst as [|[Hst|[|]]]; [by left|right|done..]. split; [done|]. intros l El.
    rewrite El, Hst in Hcase1. by apply N.ltb_ge. }
  by store_eta.
Qed.

Lemma complete_wake_refined id digest token attempt outcome s r s' :
  complete_controller_command_wake id digest token attempt outcome s = (r, s') -> refined s r s'.
Proof.
  unfold complete_controller_command_wake, remove_wake_lease, put_updated_receipt, put_receipt, update_ledger.
  intros Hr. store_inv; unit_inv; try apply refined_refl. bool_inv.
  match goal with E : is_none_or (map_get id ?m) _ = false |- _ =>
    destruct (map_get id m) as [l|] eqn:El; [|discriminate] end.
  apply refined_move. eapply am_to.
  { eapply am_wake; [eassumption| |eassumption]. eapply wm_complete; [done|done|].
    unfold one_of in *. cbn in *. repeat match goal with E : _ || _ = true |- _ => apply orb_true_iff in E as [E|E] end; bool_inv; auto. done. }
  by store_eta.
Qed.

Lemma retry_rejected r attempt : command_receipt_validate (with_outbox r "retry" attempt) <> Ok tt.
Proof.
  intros Hr%receipt_state. cbn in Hr. by destruct Hr as [|[|[]]].
Qed.
Lemma reconcile_wake_refined id digest outcome s r s' :
  reconcile_controller_command_wake id digest outcome s = (r, s') -> refined s r s'.
Proof.
  unfold reconcile_controller_command_wake, put_updated_receipt, put_receipt, update_ledger.
  intros Hr. store_inv; unit_inv; try apply refined_refl. bool_inv.
  assert (outcome = "delivered") as ->.
  { unfold one_of in *. cbn in *. repeat match goal with E : _ || _ = true |- _ => apply orb_true_iff in E as [E|E] end; bool_inv; subst; try done.
    edestruct retry_rejected. eassumption. }
  apply refined_move. by eapply am_settle_wake.
Qed.

Lemma reap_one_moves key now id s r s' :
  reap_one key now id s = (r, s') -> rtc api_move s s'.
Proof.
  unfold reap_one, remove_wake_lease, put_updated_receipt, put_receipt, update_ledger.
  intros Hr. store_inv; unit_inv; try done. all: bool_inv.
  all: apply rtc_once; (eapply am_to; [eapply am_wake; [eassumption|by eapply wm_expire|eassumption]|by store_eta]).
Qed.
End Interface.
