(* ===== verification/ApiSafety.v ===== *)
(** * Safety of the store's interface

    The invariant of every store the interface can reach, and what a sequence
    of operations keeps: checkpoints, host records, notifications, receipts and
    their wakes; then what the store promises its callers: the refinement of
    the whole interface, fenced and idempotent commands, host interactions
    admitted and answered once, notifications and wakes that settle, deferred
    calls resolved once, and deletion. *)

From Stdlib Require Import Ascii String NArith Lia Sorting.Sorted.
From stdpp Require Import base strings list sets gmap relations pretty.
From S2P Require Import Prelude Json Canonical CheckpointTypes ToolResult Journal TokenUsage.
From S2P Require Import Budget BudgetWire Records ResultCodec Events HostInteraction Controller.
From S2P Require Import Checkpoint History Deferred Transitions Store StoreController ApiMoves.


Section Safety.
Context `{Env} `{StrictJson}.

(** ** Invariant *)

(** *** The checkpoint that waits *)

(** The run stops for the host: the claim is released, the request is active,
    and the journals of the finished cycle are closed. *)
Record waits (c : Checkpoint) (request : HostInteractionRequest) (d : Checkpoint) : Prop := {
  wt_advances : advances c d;
  wt_monotone : monotone c d;
  wt_status : cp_status d = HostInteractionS /\ cp_active_host_interaction d = Some request;
  wt_released : cp_claim_token d = None /\ cp_claimed_cycle d = None /\ cp_lease_expires_at_ms d = None
}.
Lemma prepare_cycle_monotone clock c request x u :
  prepare_host_interaction_cycle clock c request x = Ok u ->
  monotone c u /\ run_identity u = run_identity c.
Proof.
  unfold prepare_host_interaction_cycle. destruct (hx_cycle_snapshot x) as [completed|]; intros Hp;
    result_inv; [|by split; [constructor|]].
  match goal with E : prepare_tool_receipt _ _ _ _ _ _ _ _ _ _ _ = Ok (Some _) |- _ =>
    apply receipt_spec in E as ([[_ _ Hid] []] & _) end.
  split; [by constructor|done].
Qed.
Lemma waiting_spec clock c request x record_id d :
  waiting_checkpoint clock c request x record_id = Ok d -> waits c request d.
Proof.
  unfold waiting_checkpoint. intros Hw. result_inv. unit_inv.
  match goal with E : push_event _ _ _ = Ok _ |- _ => apply push_event_frame in E as [y ->] end.
  match goal with E : prepare_host_interaction_cycle _ _ _ _ = Ok _ |- _ =>
    apply prepare_cycle_monotone in E as [[] Hid] end.
  match goal with E : checked_add _ _ = Some _ |- _ => apply checked_add_Some in E as [-> _] end.
  constructor; [constructor; [done|done|done]|by constructor|done|done].
Qed.

(** *** Checkpoints *)

Lemma stored_put s k c c' :
  store_ok s -> map_get k (st_checkpoints s) = Some c -> validate_checkpoint c' = Ok tt ->
  run_identity c' = run_identity c ->
  keyed (set_checkpoints s (map_insert k c' (st_checkpoints s))) /\
  forall j x, map_get j (map_insert k c' (st_checkpoints s)) = Some x -> stored_ok x.
Proof.
  intros [Hk Hok] Hc Hv Hid. apply run_identity_key in Hid. rewrite (Hk _ _ Hc) in Hid.
  split; intros j x; cbn; rewrite map_get_insert; destruct (String.eqb_spec j k) as [->|].
  - by intros [= <-].
  - apply Hk.
  - intros [= <-]. by left.
  - apply Hok.
Qed.

(** One change of a checkpoint through the interface. *)
Definition checkpoint_change (s s' : Store) : Prop :=
  st_checkpoints s' = st_checkpoints s \/
  exists k c c', st_checkpoints s' = map_insert k c' (st_checkpoints s) /\
    map_get k (st_checkpoints s) = Some c /\ validate_checkpoint c' = Ok tt /\ preserved c c'.

Lemma commanded_preserved c command now c' : commanded c command now c' -> preserved c c'.
Proof.
  intros [_ _ _ _ (Hid & Hm & Hh & _ & _ & _ & _ & Hack) Hr _ Ha Hcan _].
  constructor; [done| |done|done|congruence|by rewrite Hh|unfold calls_seen; by rewrite Hm, Hh].
  destruct (live_claim c now); lia.
Qed.
Lemma archived_preserved c d c' ob :
  advances c d -> monotone c d -> normalize_checkpoint_history d = Ok (c', ob) ->
  validate_checkpoint c' = Ok tt /\ preserved c c'.
Proof.
  intros Ha Hm Hn. pose proof (adv_valid _ _ Ha) as Hd.
  split; [by destruct (normalize_frame _ _ _ Hd Hn)|].
  transitivity d; [by apply advances_preserved|by eapply normalize_preserved].
Qed.

(** Every move that is not a kernel operation. *)
Lemma move_change s s' :
  store_ok s -> api_move s s' -> (exists clock op, s' = snd (run_op clock op s)) \/ checkpoint_change s s'.
Proof.
  intros [Hk _] Hm. destruct Hm as [h|clock op|clock request x c d c' ob h record_id r n ? Hc ? ? ? ? ? Hw Hn
    |clock command now c c' wake record ? ? Hc He|clock e now c r d c' ob h Hc ? Ha Hd ? Hn| | | |];
    try (right; by left).
  - left. by exists clock, op.
  - right. right. apply waiting_spec in Hw as [Hadv Hmono _ _].
    destruct (archived_preserved _ _ _ _ Hadv Hmono Hn). by do 3 eexists.
  - right. right. apply command_effect_spec in He. rewrite (Hk _ _ Hc). do 3 eexists.
    repeat (split; [done|]). split; [by destruct He|by eapply commanded_preserved].
  - right. right. destruct (consumed_spec _ _ _ _ _ _ Ha Hd) as [Hadv Hmono _ _ _ _].
    destruct (archived_preserved _ _ _ _ Hadv Hmono Hn). by do 3 eexists.
Qed.

Lemma change_ok s s' : checkpoint_change s s' -> store_ok s -> store_ok s'.
Proof.
  intros [He|(k & c & c' & He & Hc & Hv & Hp)] Hok; unfold store_ok, keyed; rewrite He; [done|].
  eapply stored_put; [done|done|done|]. apply Hp.
Qed.
Lemma move_store_ok s s' : api_move s s' -> store_ok s -> store_ok s'.
Proof.
  intros Hm Hok. destruct (move_change _ _ Hok Hm) as [(clock & op & ->)|Hc]; [|by eapply change_ok].
  eapply store_steps_ok; [done|]. apply rtc_once. by exists clock, op.
Qed.
Lemma move_preserved s s' k c :
  store_ok s -> api_move s s' -> map_get k (st_checkpoints s) = Some c ->
  exists c', map_get k (st_checkpoints s') = Some c' /\ preserved c c'.
Proof.
  intros Hok Hm Hk. destruct (move_change _ _ Hok Hm) as [(clock & op & ->)|Hc].
  - eapply store_steps_preserved; [done| |done]. apply rtc_once. by exists clock, op.
  - destruct Hc as [->|(j & c0 & c' & -> & Hj & _ & Hp)]; [by exists c|].
    rewrite map_get_insert. destruct (String.eqb_spec k j) as [->|]; [|by exists c].
    exists c'. split; [done|]. congruence.
Qed.

(** *** The ledger *)

Record ledger_ok (l : ControllerLedger) : Prop := {
  lo_hosts id r : map_get id (lg_host_interactions l) = Some r ->
    ir_record_id r = id /\ record_validate r = Ok tt;
  lo_notifications id n : map_get id (lg_notifications l) = Some n ->
    nr_notification_id n = id /\ notification_validate n = Ok tt /\
    notification_id_for (nr_record_id n) = Ok id /\
    exists r, map_get (nr_record_id n) (lg_host_interactions l) = Some r /\
      ir_checkpoint_key r = nr_checkpoint_key n;
  lo_receipts id r resolution : map_get id (lg_command_receipts l) = Some (r, resolution) ->
    rc_command_id r = id /\ command_receipt_validate r = Ok tt /\
    (exists wake, resolution = Applied r wake) /\
    exists command, map_get id (lg_commands l) = Some command /\
      rc_handle r = cc_handle command /\ rc_command_digest r = cc_command_digest command;
  lo_leases id : is_Some (map_get id (lg_wake_leases l)) <->
    exists r resolution, map_get id (lg_command_receipts l) = Some (r, resolution) /\
      rc_outbox_state r = "claimed"
}.

Lemma ledger_ok_default : ledger_ok ledger_default.
Proof.
  constructor; try done. intros id. split; [by intros [? ?]|by intros (? & ? & ? & _)].
Qed.
Lemma notification_for_spec key request record_id n :
  notification_for key request record_id = Ok n ->
  notification_id_for record_id = Ok (nr_notification_id n) /\ nr_record_id n = record_id /\
  nr_checkpoint_key n = key /\ nr_outbox_state n = PendingN /\ nr_attempt n = 0%N /\
  notification_validate n = Ok tt.
Proof. unfold notification_for. intros Hn. result_inv. by unit_inv. Qed.
Lemma active_record_spec key request record_id r :
  active_record key request record_id = Ok r ->
  ir_record_id r = record_id /\ ir_checkpoint_key r = key /\ ir_request r = request /\
  ir_state r = "active" /\ record_validate r = Ok tt.
Proof. unfold active_record. intros Hn. result_inv. by unit_inv. Qed.

Ltac insert_cases :=
  match goal with
  | E : map_get ?i (map_insert ?j _ _) = Some _ |- _ =>
      rewrite map_get_insert in E; destruct (String.eqb_spec i j) as [->|]; simplify_eq
  end.

Lemma hosts_ok l id r :
  ledger_ok l -> ir_record_id r = id -> record_validate r = Ok tt ->
  (forall r0, map_get id (lg_host_interactions l) = Some r0 ->
     ir_checkpoint_key r = ir_checkpoint_key r0) ->
  ledger_ok (set_host_interactions l (map_insert id r (lg_host_interactions l))).
Proof.
  intros [Hh Hn Hr Hl] Hid Hv Hkey. constructor; cbn; try done.
  - intros j x Hx. insert_cases; [done|auto].
  - intros j n Hj. destruct (Hn _ _ Hj) as (? & ? & ? & x & Hx & Hxk). repeat (split; [done|]).
    rewrite map_get_insert. destruct (String.eqb_spec (nr_record_id n) id) as [E|]; [|by exists x].
    exists r. split; [done|]. rewrite E in Hx. by rewrite (Hkey _ Hx).
Qed.
Lemma notifications_ok l id n :
  ledger_ok l -> nr_notification_id n = id -> notification_validate n = Ok tt ->
  notification_id_for (nr_record_id n) = Ok id ->
  (exists r, map_get (nr_record_id n) (lg_host_interactions l) = Some r /\
     ir_checkpoint_key r = nr_checkpoint_key n) ->
  ledger_ok (set_notifications l (map_insert id n (lg_notifications l))).
Proof.
  intros [] Hid Hv Hi Hhost. constructor; cbn; try done. intros j x Hx. insert_cases; [done|auto].
Qed.
Lemma wake_ok l id r resolution r' lease' :
  map_wf (lg_wake_leases l) -> ledger_ok l ->
  map_get id (lg_command_receipts l) = Some (r, resolution) ->
  (exists st a, r' = with_outbox r st a) -> command_receipt_validate r' = Ok tt ->
  (is_Some lease' <-> rc_outbox_state r' = "claimed") ->
  ledger_ok (set_wake_leases
    (set_command_receipts l
       (map_insert id (r', resolution_with_receipt resolution r') (lg_command_receipts l)))
    (put_lease id lease' (lg_wake_leases l))).
Proof.
  intros Hwf [Hh Hn Hr Hl] Hid (st & a & ->) Hv Hlease. destruct (Hr _ _ _ Hid) as (Hi & _ & [w ->] & Hc).
  constructor; cbn; try done.
  - intros j x res Hx. insert_cases; [|auto]. split; [done|]. split; [done|]. split; [by exists w|done].
  - intros j. rewrite map_get_insert. specialize (Hl j).
    assert (Hp : map_get j (put_lease id lease' (lg_wake_leases l))
      = if String.eqb j id then lease' else map_get j (lg_wake_leases l)).
    { destruct lease'; cbn; [apply map_get_insert|by apply map_get_remove]. }
    rewrite Hp. destruct (String.eqb_spec j id) as [->|]; [|done]. rewrite Hlease.
    split; [intros ?; by do 2 eexists|]. by intros (? & ? & [= <- <-] & ?).
Qed.
Lemma settle_ok l id r resolution :
  ledger_ok l -> map_get id (lg_command_receipts l) = Some (r, resolution) ->
  rc_outbox_state r = "ambiguous" ->
  let r' := with_outbox r "delivered" (rc_outbox_attempt r) in
  command_receipt_validate r' = Ok tt ->
  ledger_ok (set_command_receipts l
       (map_insert id (r', resolution_with_receipt resolution r') (lg_command_receipts l))).
Proof.
  intros [Hh Hn Hr Hl] Hid Hst r' Hv. destruct (Hr _ _ _ Hid) as (Hi & _ & [w ->] & Hc).
  constructor; cbn; try done.
  - intros j x res Hx. insert_cases; [|auto]. split; [done|]. split; [done|]. split; [by exists w|done].
  - intros j. rewrite map_get_insert. rewrite (Hl j).
    destruct (String.eqb_spec j id) as [->|]; [|done]. rewrite Hid.
    split; [|by intros (? & ? & [= <- <-] & ?)]. intros (? & ? & [= <- <-] & E). by rewrite Hst in E.
Qed.
Lemma command_ok l clock command c records now c' wake record :
  ledger_ok l -> records = lg_host_interactions l -> command_validate command = Ok tt ->
  map_get (cc_command_id command) (lg_command_receipts l) = None ->
  command_effect clock c records command now = Ok (c', wake, record) ->
  ledger_ok (commanded_ledger l command record (command_receipt command c' wake)
    (Applied (command_receipt command c' wake) wake)).
Proof.
  intros Hok -> Hv Hf He. pose proof (command_receipt_ok _ _ _ _ _ _ _ _ Hv He) as Hrc.
  destruct (command_effect_ledger _ _ _ _ _ _ _ _ He) as [Hw Hrec].
  unfold commanded_ledger.
  assert (Hok' : exists l', ledger_ok l' /\ lg_command_receipts l' = lg_command_receipts l /\
    l' = match record with
         | Some (id, r) => set_host_interactions l (map_insert id r (lg_host_interactions l))
         | None => l end).
  { destruct record as [[id r']|]; [|by exists l].
    destruct (Hrec _ _ eq_refl) as (r & Hr & _ & Hb & _ & Hrv).
    eexists (set_host_interactions l _). split; [|split; reflexivity].
    destruct (lo_hosts _ Hok _ _ Hr) as [Hid _]. unfold host_body in Hb.
    apply hosts_ok; [done|congruence|done|]. intros r0 Hr0. congruence. }
  destruct Hok' as (l' & [Hh Hn Hr Hl] & El & <-). rewrite <- El in Hf.
  set (receipt := command_receipt command c' wake).
  assert (Hst : rc_outbox_state receipt <> "claimed").
  { destruct Hw as [->|[n ->]]; discriminate. }
  constructor; cbn; try done.
  - intros j x res Hx. insert_cases.
    + split; [done|]. split; [done|]. split; [by eexists|]. exists command.
      by rewrite map_get_insert_eq.
    + destruct (Hr _ _ _ Hx) as (? & ? & ? & ?). rewrite map_get_insert_ne by congruence. done.
  - intros j. rewrite map_get_insert. destruct (String.eqb_spec j (cc_command_id command)) as [->|]; [|done].
    rewrite (Hl _), Hf. split; [by intros (? & ? & ? & _)|]. by intros (? & ? & [= <- <-] & ?).
Qed.

Lemma move_ledger_ok s s' :
  keyed s -> map_wf (lg_wake_leases (st_ledger s)) -> api_move s s' ->
  ledger_ok (st_ledger s) -> ledger_ok (st_ledger s').
Proof.
  intros Hk Hwf Hm Hok. destruct Hm as [h|clock op|clock request x c d c' ob h record_id r n ? Hc ? ? Hnew Hn Hr ? ?
    |clock command now c c' wake record Hv Hf Hc He|clock e now c r d c' ob h Hc Hr Ha Hd Hv Hn
    |id r Hr Hst Hv|id n n' Hn Hm Hb Hv|id r res r' lease' Hr Hm Hv|id r res Hr Hst Hv]; cbn; try done.
  - destruct (run_op clock op s) as [r s1] eqn:E. cbn.
    by rewrite (oe_ledger _ _ _ _ (run_op_effect _ _ _ _ _ Hk E)).
  - apply notification_for_spec in Hn as (Hi & <- & Hnk & _ & _ & Hnv).
    apply active_record_spec in Hr as (? & ? & _ & _ & Hrv).
    apply (notifications_ok (set_host_interactions _ _)); try done.
    + apply hosts_ok; [done|done|done|]. intros r0 Hr0. congruence.
    + exists r. cbn. rewrite map_get_insert_eq. split; [done|congruence].
  - by eapply command_ok.
  - destruct (lo_hosts _ Hok _ _ Hr) as [Hi _]. apply hosts_ok; try done. intros r0 Hr0.
    simplify_eq. done.
  - destruct (lo_hosts _ Hok _ _ Hr) as [Hi _]. apply hosts_ok; try done. intros r0 Hr0.
    simplify_eq. done.
  - destruct (lo_notifications _ Hok _ _ Hn) as (Hi & _ & Hid & r & Hr & Hrk).
    unfold notification_body in Hb. apply notifications_ok; [done|congruence|done|congruence|].
    exists r. split; congruence.
  - eapply wake_ok; try done; [destruct Hm; by do 2 eexists|].
    destruct Hm as [|l outcome ? ? Ho|]; cbn; [by split; [|eexists]| |by split; [intros []|]].
    split; [by intros []|]. by destruct Ho as [-> | ->].
  - by apply settle_ok.
Qed.

(** *** Order of the maps *)

Definition sorted (s : Store) : Prop :=
  map_wf (st_checkpoints s) /\ map_wf (st_history s) /\ map_wf (st_deferred_receipts s) /\
  map_wf (lg_host_interactions (st_ledger s)) /\ map_wf (lg_notifications (st_ledger s)) /\
  map_wf (lg_command_receipts (st_ledger s)) /\ map_wf (lg_commands (st_ledger s)) /\
  map_wf (lg_wake_leases (st_ledger s)).

(** An operation that keeps the maps in order, built from such operations. *)
Class Ordered {A} (m : M A) : Prop := ordered : forall s, sorted s -> sorted (snd (m s)).

#[local] Instance ordered_bind {A B} (m : M A) (f : A -> M B) :
  Ordered m -> (forall a, Ordered (f a)) -> Ordered (m ≫= f).
Proof.
  intros Hm Hf s Hs. unfold mbind, M_bind. pose proof (Hm s Hs) as H1.
  destruct (m s) as [[a|e] s1]; [by apply Hf|done].
Qed.
#[local] Instance ordered_ret {A} (a : A) : Ordered (mret (M := M) a).
Proof. by intros s. Qed.
#[local] Instance ordered_lift {A} (r : result A) : Ordered (lift r).
Proof. by intros s. Qed.
#[local] Instance ordered_throw {A} e : Ordered (A := A) (throw e).
Proof. by intros s. Qed.
#[local] Instance ordered_get : Ordered get_store.
Proof. by intros s. Qed.
#[local] Instance ordered_reject b e : Ordered (reject b e).
Proof. unfold reject. by destruct b; intros s. Qed.
#[local] Instance ordered_modify f : (forall s, sorted s -> sorted (f s)) -> Ordered (modify f).
Proof. intros Hf s. apply Hf. Qed.
#[local] Hint Resolve map_insert_wf map_remove_wf map_retain_wf : core.

Create HintDb ordered_ops discriminated.
Ltac ordered :=
  repeat first
    [ solve [eauto 1 with ordered_ops nocore]
    | progress intros
    | match goal with |- Ordered (match ?x with _ => _ end) => destruct x end
    | simple apply ordered_bind | simple apply ordered_ret | simple apply ordered_lift
    | simple apply ordered_throw | simple apply ordered_get | simple apply ordered_reject ];
  try (simple apply ordered_modify; unfold sorted; cbn; intros; destruct_and?; repeat split; auto).

Lemma ordered_persist c : Ordered (persist_history c).
Proof. unfold persist_history, put_archive. ordered. Qed.
#[local] Hint Resolve ordered_persist : ordered_ops.

Lemma ordered_update key prepare : Ordered (update_checkpoint key prepare).
Proof. unfold update_checkpoint, put_checkpoint. ordered. Qed.
#[local] Hint Resolve ordered_update : ordered_ops.
Lemma run_op_ordered clock op : Ordered (run_op clock op).
Proof.
  destruct op; unfold run_op, discard, create_checkpoint, claim_checkpoint, renew_checkpoint_claim,
    progress_checkpoint, suspend_checkpoint, commit_checkpoint, finalize_checkpoint,
    finalize_claimed_checkpoint, record_tool_receipt, acknowledge_terminal,
    record_event_delivery, update_checkpoint_at, store_admit_deferred_batch, store_accept_deferred_batch,
    resolve_deferred, put_checkpoint; ordered.
Qed.

Lemma ordered_ledger f :
  (forall l, let w l := map_wf (lg_host_interactions l) /\ map_wf (lg_notifications l) /\
     map_wf (lg_command_receipts l) /\ map_wf (lg_commands l) /\ map_wf (lg_wake_leases l) in
     w l -> w (f l)) -> Ordered (update_ledger f).
Proof.
  intros Hf. apply ordered_modify. unfold sorted. cbn. intros s (?&?&?&?&?&?&?&?).
  repeat (split; [assumption|]). apply Hf. by repeat split.
Qed.
Lemma ordered_put_host id r : Ordered (put_host_record id r).
Proof. apply ordered_ledger. cbn. intuition. Qed.
Lemma ordered_put_notification id n : Ordered (put_notification id n).
Proof. apply ordered_ledger. cbn. intuition. Qed.
Lemma ordered_put_receipt id r x : Ordered (put_receipt id r x).
Proof. apply ordered_ledger. cbn. intuition. Qed.
Lemma ordered_put_command id c : Ordered (put_command id c).
Proof. apply ordered_ledger. cbn. intuition. Qed.
Lemma ordered_put_lease id w : Ordered (put_wake_lease id w).
Proof. apply ordered_ledger. cbn. intuition. Qed.
Lemma ordered_remove_lease id : Ordered (remove_wake_lease id).
Proof. apply ordered_ledger. cbn. intuition. Qed.
#[local] Hint Resolve ordered_put_host ordered_put_notification ordered_put_receipt
  ordered_put_command ordered_put_lease ordered_remove_lease run_op_ordered : ordered_ops.

Lemma ordered_apply clock command now : Ordered (apply_controller_command clock command now).
Proof. unfold apply_controller_command, put_checkpoint. ordered. Qed.
#[local] Hint Resolve ordered_apply : ordered_ops.
Lemma ordered_resolve clock command now : Ordered (resolve_controller_command clock command now).
Proof.
  unfold resolve_controller_command. ordered. intros s Hs.
  pose proof (ordered_apply clock command now s Hs) as H1.
  destruct (apply_controller_command clock command now s) as [[[]|e] s1]; [|by destruct (rejectable e)].
  assert (Ho : Ordered (record_command command c c0 ;; mret c0)) by (unfold record_command; ordered).
  by apply Ho.
Qed.
Lemma ordered_reap_all key now ids : Ordered (reap_all key now ids).
Proof. induction ids; cbn [reap_all]; unfold reap_one, put_updated_receipt; ordered; done. Qed.
#[local] Hint Resolve ordered_resolve ordered_reap_all : ordered_ops.

Lemma run_api_ordered clock op : Ordered (run_api clock op).
Proof.
  destruct op; unfold run_api, discard, produce_host_interaction, admit_controller_command,
    record_command, claim_and_consume_host_interaction_response, reap_host_interaction_record,
    claim_host_interaction_notification, complete_host_interaction_notification,
    reconcile_host_interaction_notification, claim_controller_command_wake,
    complete_controller_command_wake, reconcile_controller_command_wake,
    reap_controller_command_wakes, put_updated_receipt, put_checkpoint; ordered.
Qed.
Lemma delete_ordered key : Ordered (delete_checkpoint key).
Proof. unfold delete_checkpoint. ordered. Qed.

(** *** The whole store *)

Record api_ok (s : Store) : Prop := {
  ao_store : store_ok s;
  ao_ledger : ledger_ok (st_ledger s);
  ao_sorted : sorted s
}.
Lemma api_ok_new : api_ok store_new.
Proof.
  split; [apply store_ok_new|apply ledger_ok_default|]. repeat split; constructor.
Qed.
Lemma api_ok_receipts s : api_ok s -> receipts_valid s.
Proof. intros [_ Hl _] id r res Hr. apply (lo_receipts _ Hl _ _ _ Hr). Qed.

(** Wakes are the only operation that moves more than once, so only there an
    error can come after a change. *)
Definition atomic (op : ApiOp) : bool := match op with ApiReapWakes _ _ => false | _ => true end.

Lemma reap_all_moves key now ids s r s' : reap_all key now ids s = (r, s') -> rtc api_move s s'.
Proof.
  revert s r. induction ids as [|id ids IH]; cbn [reap_all]; intros s r Hr; store_inv; [done|..].
  - etrans; [by eapply reap_one_moves|by eapply IH].
  - etrans; [by eapply reap_one_moves|by eapply IH].
  - by eapply reap_one_moves.
Qed.

Lemma core_refined clock op s r s' : keyed s -> run_op clock op s = (r, s') -> refined s r s'.
Proof.
  intros Hk Hr. split.
  - apply rtc_once. eapply am_to; [apply (am_core _ clock op)|by rewrite Hr].
  - intros e ->. destruct (run_op_effect _ _ _ _ _ Hk Hr) as [_ Hf _ Hl].
    by destruct (Hf e eq_refl).
Qed.

Lemma run_api_moves clock op s r s' :
  api_ok s -> run_api clock op s = (r, s') ->
  rtc api_move s s' /\ (atomic op = true -> refined s r s').
Proof.
  intros Hok. destruct (atomic op) eqn:Ha.
  - intros Hr. assert (Href : refined s r s'); [|split; [apply Href|done]].
    destruct op; try discriminate; [by eapply core_refined; [apply (ao_store _ Hok)|]|..];
      (eapply discard_refined; [|exact Hr]); intros.
    + by eapply produce_refined.
    + by eapply admit_command_refined.
    + by eapply resolve_command_refined.
    + by eapply consume_refined.
    + by eapply reap_record_refined.
    + by eapply claim_notification_refined.
    + by eapply complete_notification_refined.
    + by eapply reconcile_notification_refined.
    + eapply claim_wake_refined; [by apply api_ok_receipts|done].
    + by eapply complete_wake_refined.
    + by eapply reconcile_wake_refined.
  - destruct op; try discriminate. intros Hr. split; [|done].
    unfold run_api, discard, reap_controller_command_wakes in Hr. store_inv; by eapply reap_all_moves.
Qed.

(** *** Deletion *)

Lemma other_spec k key : negb (String.eqb k key) = true <-> k <> key.
Proof. rewrite negb_true_iff. apply String.eqb_neq. Qed.

Lemma delete_ledger_ok key s :
  sorted s -> ledger_ok (st_ledger s) -> ledger_ok (st_ledger (snd (delete_checkpoint key s))).
Proof.
  intros (_&_&_&Wh&Wn&Wr&Wc&Wl) [Hh Hn Hr Hl]. constructor; cbn.
  - intros id r [Hg _]%retain_get; auto.
  - intros id n [Hg Ho]%retain_get; [|done]. destruct (Hn _ _ Hg) as (? & ? & ? & r & Hr' & Hk).
    repeat (split; [done|]). exists r. split; [|done]. apply retain_get; [done|]. by rewrite Hk.
  - intros id r res [Hg Ho]%retain_get; [|done]. destruct (Hr _ _ _ Hg) as (? & ? & ? & c & Hc & Hhd & Hd).
    repeat (split; [done|]). exists c. split; [|done]. apply retain_get; [done|]. split; [done|].
    by rewrite <- Hhd.
  - intros id. rewrite map_get_retain by done. unfold map_contains_key.
    specialize (Hl id). rewrite map_get_retain by done.
    destruct (map_get id (lg_command_receipts (st_ledger s))) as [[r res]|];
      destruct (map_get id (lg_wake_leases (st_ledger s))) as [w|]; cbn;
      try (destruct (negb _)); cbn; naive_solver.
Qed.
Lemma delete_checkpoints key s j :
  sorted s -> map_get j (st_checkpoints (snd (delete_checkpoint key s)))
    = if String.eqb j key then None else map_get j (st_checkpoints s).
Proof. intros [Hwf _]. cbn. by apply map_get_remove. Qed.
Lemma delete_store_ok key s :
  sorted s -> store_ok s -> store_ok (snd (delete_checkpoint key s)).
Proof.
  intros Hs [Hk Hok]. split; intros j c; rewrite (delete_checkpoints key s j Hs);
    destruct (String.eqb j key); try done; [apply Hk|apply Hok].
Qed.

(** *** Steps *)

(** A step of the interface; a key that is kept is not deleted. *)
Inductive api_step (kept : string -> Prop) (s : Store) : Store -> Prop :=
| as_op clock op : api_step kept s (snd (run_api clock op s))
| as_delete key : ~ kept key -> api_step kept s (snd (delete_checkpoint key s)).

Lemma move_leases_wf s s' :
  keyed s -> api_move s s' -> map_wf (lg_wake_leases (st_ledger s)) ->
  map_wf (lg_wake_leases (st_ledger s')).
Proof.
  intros Hk Hm Hw. destruct Hm as [h|clock op|clock request x c d c' ob h record_id r n
    |clock command now c c' wake record|clock e now c r d c' ob h|id r|id n n'|id r res r' lease'|id r res];
    cbn; try done.
  - destruct (run_op clock op s) as [r s1] eqn:E. cbn.
    by rewrite (oe_ledger _ _ _ _ (run_op_effect _ _ _ _ _ Hk E)).
  - by destruct record as [[]|].
  - destruct lease'; cbn; auto using map_insert_wf, map_remove_wf.
Qed.
Lemma moves_ok s s' :
  rtc api_move s s' -> store_ok s -> ledger_ok (st_ledger s) -> map_wf (lg_wake_leases (st_ledger s)) ->
  store_ok s' /\ ledger_ok (st_ledger s') /\ map_wf (lg_wake_leases (st_ledger s')).
Proof.
  induction 1 as [|a b c Hm _ IH]; intros Hs Hl Hw; [done|].
  apply IH; [by eapply move_store_ok|eapply move_ledger_ok; [apply Hs|done..]|].
  eapply move_leases_wf; [apply Hs|done..].
Qed.
Lemma step_api_ok kept s s' : api_step kept s s' -> api_ok s -> api_ok s'.
Proof.
  intros [clock op|key _] Hok; pose proof Hok as [Hs Hl Ho].
  - destruct (run_api clock op s) as [r s1] eqn:E. destruct (run_api_moves _ _ _ _ _ Hok E) as [Hm _].
    destruct (moves_ok _ _ Hm Hs Hl ltac:(apply Ho)) as (Hs' & Hl' & _). split; [done|done|].
    pose proof (run_api_ordered clock op s Ho) as Hord. by rewrite E in Hord.
  - split; [by apply delete_store_ok|by apply delete_ledger_ok|by apply delete_ordered].
Qed.
Lemma steps_api_ok kept s s' : rtc (api_step kept) s s' -> api_ok s -> api_ok s'.
Proof. induction 1; eauto using step_api_ok. Qed.

(** What every move and every deletion of another key keep is kept by every
    step. *)
Lemma steps_invariant kept (P : Store -> Prop) s s' :
  (forall a b, store_ok a -> ledger_ok (st_ledger a) -> api_move a b -> P a -> P b) ->
  (forall a key, sorted a -> ~ kept key -> P a -> P (snd (delete_checkpoint key a))) ->
  P s -> api_ok s -> rtc (api_step kept) s s' -> P s'.
Proof.
  intros Hmove Hdel HP Hok Hr. revert HP Hok.
  induction Hr as [a|a b c Hstep _ IH]; intros HP Hok; [done|].
  pose proof (step_api_ok _ _ _ Hstep Hok) as Hok'. apply IH; [|done]. clear IH Hok'.
  destruct Hstep as [clock op|key Hkey]; [|apply Hdel; [apply Hok|done..]].
  destruct (run_api clock op a) as [r s1] eqn:E. cbn.
  destruct (run_api_moves _ _ _ _ _ Hok E) as [Hm _]. destruct Hok as [Hs Hl (_&_&_&_&_&_&_&Hw)].
  clear E. revert HP Hs Hl Hw. induction Hm as [a|a b d Hm _ IH]; intros HP Hs Hl Hw; [done|].
  destruct (moves_ok a b (rtc_once _ _ Hm) Hs Hl Hw) as (Hs' & Hl' & Hw').
  apply IH; [exact (Hmove _ _ Hs Hl Hm HP)|done|done|done].
Qed.
Lemma steps_keep {T} (get : Store -> option T) (R : T -> T -> Prop) `{!PreOrder R} key s s' x :
  (forall a b y, store_ok a -> ledger_ok (st_ledger a) -> api_move a b -> get a = Some y ->
     exists y', get b = Some y' /\ R y y') ->
  (forall a k y, sorted a -> key <> k -> R x y -> get a = Some y ->
     get (snd (delete_checkpoint k a)) = Some y) ->
  api_ok s -> rtc (api_step (eq key)) s s' -> get s = Some x -> exists x', get s' = Some x' /\ R x x'.
Proof.
  intros Hmove Hdel Hok Hr Hx.
  apply (steps_invariant (eq key) (fun a => exists y, get a = Some y /\ R x y) s); try done; [..|by exists x].
  - intros a b Hs Hl Hm (y & Hy & Ry). destruct (Hmove _ _ _ Hs Hl Hm Hy) as (z & Hz & Rz).
    exists z. split; [done|]. by transitivity y.
  - intros a k Ho Hk (y & Hy & Ry). exists y. split; [|done]. by apply Hdel.
Qed.

(** ** What is kept *)

(** A host record keeps what was asked; once answered it keeps the answer;
    once consumed it does not change. *)
Record host_le (r r' : HostInteractionRecord) : Prop := {
  hl_body : host_body r' = host_body r;
  hl_answer : ir_state r <> "active" ->
    ir_state r' <> "active" /\ ir_response r' = ir_response r /\ ir_command_id r' = ir_command_id r;
  hl_consumed : ir_state r = "consumed" -> r' = r
}.
#[global] Instance host_le_preorder : PreOrder host_le.
Proof.
  split; [by constructor|]. intros a b c [] []. constructor; [congruence| |].
  - intros Ha. destruct (hl_answer0 Ha) as (Hb & ? & ?). destruct (hl_answer1 Hb) as (? & ? & ?).
    split; [done|]. split; congruence.
  - intros Ha. pose proof (hl_consumed0 Ha). subst. auto.
Qed.

(** A notification keeps its payload, its attempts only grow, and once it is
    delivered or aborted it does not change. *)
Record notification_le (n n' : HostInteractionNotificationRecord) : Prop := {
  nl_body : notification_body n' = notification_body n;
  nl_attempt : (nr_attempt n <= nr_attempt n')%N;
  nl_settled : settled n = true -> n' = n
}.
#[global] Instance notification_le_preorder : PreOrder notification_le.
Proof.
  split; [by constructor|]. intros a b c [] []. constructor; [congruence|lia|].
  intros Ha. pose proof (nl_settled0 Ha). subst. auto.
Qed.

(** The receipt of a command keeps everything but the state of its wake, whose
    attempts only grow; a delivered wake is final, and an ambiguous one can
    only become delivered. *)
Record receipt_le (r r' : ControllerCommandReceipt) : Prop := {
  rl_body : exists st a, r' = with_outbox r st a;
  rl_attempt : (rc_outbox_attempt r <= rc_outbox_attempt r')%N;
  rl_delivered : rc_outbox_state r = "delivered" -> r' = r;
  rl_ambiguous : rc_outbox_state r = "ambiguous" ->
    r' = r \/ r' = with_outbox r "delivered" (rc_outbox_attempt r)
}.
Lemma with_outbox_same r : with_outbox r (rc_outbox_state r) (rc_outbox_attempt r) = r.
Proof. by destruct r. Qed.
#[global] Instance receipt_le_preorder : PreOrder receipt_le.
Proof.
  split.
  - intros r. constructor; try done; [|by left]. do 2 eexists. symmetry. apply with_outbox_same.
  - intros a b c [(st & n & Hb) Hn Hd Ha] [(st' & n' & Hc) Hn' Hd' Ha']. constructor.
    + exists st', n'. by subst.
    + lia.
    + intros E. transitivity b; [apply Hd'; by rewrite (Hd E)|by apply Hd].
    + intros E. destruct (Ha E) as [Eb|Eb].
      * rewrite <- Eb. apply Ha'. by rewrite Eb.
      * right. transitivity b; [apply Hd'; by rewrite Eb|done].
Qed.

Definition host_at (id : string) (s : Store) : option HostInteractionRecord :=
  map_get id (lg_host_interactions (st_ledger s)).
Definition notification_at (id : string) (s : Store) : option HostInteractionNotificationRecord :=
  map_get id (lg_notifications (st_ledger s)).
Definition receipt_at (id : string) (s : Store) : option ControllerCommandReceipt :=
  fst <$> map_get id (lg_command_receipts (st_ledger s)).

Lemma core_ledger clock op s : keyed s -> st_ledger (snd (run_op clock op s)) = st_ledger s.
Proof.
  intros Hk. destruct (run_op clock op s) as [r s1] eqn:E.
  apply (oe_ledger _ _ _ _ (run_op_effect _ _ _ _ _ Hk E)).
Qed.

(** The record under [id] after the one under [j] was replaced. *)
Lemma put_keeps {T} (R : T -> T -> Prop) `{!PreOrder R} id j (m : list (string * T)) v x :
  map_get id m = Some x -> (forall y, map_get j m = Some y -> R y v) ->
  exists x', map_get id (map_insert j v m) = Some x' /\ R x x'.
Proof.
  intros Hx Hy. rewrite map_get_insert. destruct (String.eqb_spec id j) as [->|]; [|by exists x].
  exists v. split; [done|]. by apply Hy.
Qed.

Lemma host_moves_keep id a b r :
  store_ok a -> ledger_ok (st_ledger a) -> api_move a b -> host_at id a = Some r ->
  exists r', host_at id b = Some r' /\ host_le r r'.
Proof.
  intros [Hk _] Hl Hm Hr. unfold host_at in *.
  destruct Hm as [h|clock op|clock request x c d c' ob h record_id r1 n ? ? ? ? Hf
    |clock command now c c' wake record ? ? ? He|clock e now c r1 d c' ob h ? H1 Ha
    |j r1 H1 Hst|j n n'|j r1 res r' lease'|j r1 res];
    cbn [set_ledger st_ledger set_store_history]; try (by exists r).
  - rewrite core_ledger by done. by exists r.
  - unfold admitted_ledger. cbn. apply (put_keeps host_le); [done|]. intros y Hy. congruence.
  - destruct (command_effect_ledger _ _ _ _ _ _ _ _ He) as [_ Hrec].
    destruct record as [[j r']|]; cbn; [|by exists r].
    apply (put_keeps host_le); [done|]. intros y Hy.
    destruct (Hrec _ _ eq_refl) as (r1 & Hr1 & Hst & Hb & _ & _).
    assert (y = r1) as -> by congruence.
    constructor; [done|intros Hne; by destruct Hne|]. intros E. by rewrite Hst in E.
  - cbn. apply (put_keeps host_le); [done|]. intros y Hy. simplify_eq.
    unfold recovery_admissible in Ha. bool_inv.
    constructor; [done|intros _; repeat split; done|]. intros E. congruence.
  - cbn. apply (put_keeps host_le); [done|]. intros y Hy. simplify_eq.
    constructor; [done|intros _; repeat split; done|]. intros E. congruence.
Qed.

(** Two records whose notifications would have the same id: a collision of
    SHA-256. *)
Definition notification_collision : Prop :=
  exists a b id, a <> b /\ notification_id_for a = Ok id /\ notification_id_for b = Ok id.

Definition notification_kept (n n' : HostInteractionNotificationRecord) : Prop :=
  notification_le n n' \/ notification_collision.
#[global] Instance notification_kept_preorder : PreOrder notification_kept.
Proof.
  split; [by left|]. intros a b c [] []; try (by right). left. by transitivity b.
Qed.

Lemma move_notification n n' :
  notification_move n n' -> notification_body n' = notification_body n -> notification_le n n'.
Proof.
  intros Hm Hb. unfold settled in *. constructor; [done| |]; destruct Hm; try lia; unfold settled in *;
    repeat case_match; try done; congruence.
Qed.
Lemma notification_moves_keep id a b n :
  store_ok a -> ledger_ok (st_ledger a) -> api_move a b -> notification_at id a = Some n ->
  exists n', notification_at id b = Some n' /\ notification_kept n n'.
Proof.
  intros [Hk _] Hl Hm Hn. unfold notification_at in *.
  destruct Hm as [h|clock op|clock request x c d c' ob h record_id r1 n1 ? ? ? ? Hf Hnew
    |clock command now c c' wake record ? ? ? He|clock e now c r1 d c' ob h ? H1 Ha
    |j r1 H1 Hst|j n1 n' Hj Hmv Hb|j r1 res r' lease'|j r1 res];
    cbn [set_ledger st_ledger set_store_history]; try (by exists n).
  - rewrite core_ledger by done. by exists n.
  - unfold admitted_ledger. cbn. apply (put_keeps notification_kept); [done|]. intros y Hy. right.
    apply notification_for_spec in Hnew as (Hi & Hrec & _).
    destruct (lo_notifications _ Hl _ _ Hy) as (_ & _ & Hid & r & Hr & _).
    exists record_id, (nr_record_id y), (nr_notification_id n1). split; [congruence|done].
  - destruct record as [[]|]; by exists n.
  - cbn. apply (put_keeps notification_kept); [done|]. intros y Hy. left.
    assert (y = n1) as -> by congruence. by apply move_notification.
Qed.

Lemma wake_receipt_le r lease r' lease' : wake_move r lease r' lease' -> receipt_le r r'.
Proof.
  intros [token expiry now _ Hst|l outcome Hst _ _|l now Hst _ _];
    (constructor; [by do 2 eexists|cbn; lia|intros E|intros E]);
    destruct_or?; destruct_and?; congruence.
Qed.
Lemma receipt_moves_keep id a b r :
  store_ok a -> ledger_ok (st_ledger a) -> api_move a b -> receipt_at id a = Some r ->
  exists r', receipt_at id b = Some r' /\ receipt_le r r'.
Proof.
  intros [Hk _] Hl Hm Hr. unfold receipt_at in *.
  apply fmap_Some in Hr as ([r0 res] & Hr & ->). cbn [fst].
  assert (Hput : forall j r' res', (forall y, map_get j (lg_command_receipts (st_ledger a)) = Some y -> receipt_le y.1 r') ->
    exists x, fst <$> map_get id (map_insert j (r', res') (lg_command_receipts (st_ledger a))) = Some x /\ receipt_le r0 x).
  { intros j r' res' Hj. rewrite map_get_insert. destruct (String.eqb_spec id j) as [->|].
    - exists r'. split; [done|]. by apply (Hj (r0, res)).
    - exists r0. by rewrite Hr. }
  destruct Hm as [h|clock op|clock request x c d c' ob h record_id r1 n1 ? ? ? ? Hf Hnew
    |clock command now c c' wake record ? Hf ? He|clock e now c r1 d c' ob h ? H1 Ha
    |j r1 H1 Hst|j n1 n' Hj Hmv Hb|j r1 res1 r' lease' Hj Hmv|j r1 res1 Hj Hst Hv r'];
    cbn [set_ledger st_ledger set_store_history]; try (exists r0; cbn; by rewrite Hr).
  - exists r0. rewrite core_ledger by done. by rewrite Hr.
  - assert (El : lg_command_receipts (commanded_ledger (st_ledger a) command record
      (command_receipt command c' wake) (Applied (command_receipt command c' wake) wake))
      = map_insert (cc_command_id command) (command_receipt command c' wake,
          Applied (command_receipt command c' wake) wake) (lg_command_receipts (st_ledger a)))
      by (by destruct record as [[]|]).
    rewrite El. apply Hput. intros y Hy. congruence.
  - apply Hput. intros y Hy. rewrite Hj in Hy. injection Hy as <-. by eapply wake_receipt_le.
  - apply Hput. intros y Hy. rewrite Hj in Hy. injection Hy as <-. cbn [fst].
    constructor; [by do 2 eexists|cbn; lia|congruence|by right].
Qed.

(** ** Sequences of steps *)

Lemma steps_checkpoint key s s' c :
  api_ok s -> rtc (api_step (eq key)) s s' -> map_get key (st_checkpoints s) = Some c ->
  exists c', map_get key (st_checkpoints s') = Some c' /\ preserved c c'.
Proof.
  intros Hok Hr Hc. apply (steps_keep (fun s => map_get key (st_checkpoints s)) preserved key s); try done.
  - intros a b y Ha _ Hm Hy. by eapply move_preserved.
  - intros a k y Ho Hk _ Hy. rewrite delete_checkpoints by done.
    by rewrite (proj2 (String.eqb_neq key k)).
Qed.
Lemma steps_host key id s s' r :
  api_ok s -> rtc (api_step (eq key)) s s' -> host_at id s = Some r -> ir_checkpoint_key r = key ->
  exists r', host_at id s' = Some r' /\ host_le r r'.
Proof.
  intros Hok Hr Hc Hkey. apply (steps_keep (host_at id) host_le key s); try done.
  - intros a b y Ha Hl Hm Hy. by eapply host_moves_keep.
  - intros a k y Ho Hk [Hb _ _] Hy. unfold host_at in *. cbn. apply retain_get; [apply Ho|].
    split; [done|]. apply other_spec. unfold host_body in Hb. congruence.
Qed.
Lemma steps_notification key id s s' n :
  api_ok s -> rtc (api_step (eq key)) s s' -> notification_at id s = Some n -> nr_checkpoint_key n = key ->
  notification_collision \/ exists n', notification_at id s' = Some n' /\ notification_le n n'.
Proof.
  intros Hok Hr Hc Hkey. revert Hok Hr.
  apply (steps_invariant (eq key) (fun a => notification_collision \/
    exists n', notification_at id a = Some n' /\ notification_le n n')).
  - intros a b Ha Hl Hm [|(y & Hy & Hle)]; [by left|].
    destruct (notification_moves_keep _ _ _ _ Ha Hl Hm Hy) as (z & Hz & [|]); [right|by left].
    exists z. split; [done|]. by transitivity y.
  - intros a k Ho Hk [|(y & Hy & Hle)]; [by left|right]. exists y. split; [|done].
    unfold notification_at in *. cbn. apply retain_get; [apply Ho|]. split; [done|]. apply other_spec.
    pose proof (nl_body _ _ Hle) as Hb. unfold notification_body in Hb. congruence.
  - right. by exists n.
Qed.
Lemma steps_receipt key id s s' r :
  api_ok s -> rtc (api_step (eq key)) s s' -> receipt_at id s = Some r ->
  ch_checkpoint_key (rc_handle r) = key ->
  exists r', receipt_at id s' = Some r' /\ receipt_le r r'.
Proof.
  intros Hok Hr Hc Hkey. apply (steps_keep (receipt_at id) receipt_le key s); try done.
  - intros a b y Ha Hl Hm Hy. by eapply receipt_moves_keep.
  - intros a k y Ho Hk [(st & n & ->) _ _ _] Hy. unfold receipt_at in *.
    apply fmap_Some in Hy as ([y' res] & Hy & E). cbn in E. subst y'.
    apply fmap_Some. exists (with_outbox r st n, res). split; [|done]. cbn.
    apply retain_get; [apply Ho|]. split; [done|]. apply other_spec. cbn. congruence.
Qed.

Definition deferred_at (id : string) (s : Store) : option DeferredReceipt :=
  map_get id (st_deferred_receipts s).
Lemma deferred_moves_keep id a b x :
  store_ok a -> ledger_ok (st_ledger a) -> api_move a b -> deferred_at id a = Some x ->
  exists x', deferred_at id b = Some x' /\ x = x'.
Proof.
  intros [Hk _] _ Hm Hx. destruct Hm; try (by exists x). unfold deferred_at in *.
  destruct (run_op clock op a) as [r s1] eqn:E. cbn. exists x. split; [|done].
  by apply (oe_receipts _ _ _ _ (run_op_effect _ _ _ _ _ Hk E)).
Qed.
Lemma steps_deferred key id s s' x :
  api_ok s -> rtc (api_step (eq key)) s s' -> deferred_at id s = Some x ->
  h_checkpoint_key (dr_handle x) = key -> deferred_at id s' = Some x.
Proof.
  intros Hok Hr Hx Hkey.
  destruct (steps_keep (deferred_at id) eq key s s' x) as (y & Hy & <-); try done.
  - intros a b y Ha Hl Hm Hy. by eapply deferred_moves_keep.
  - intros a k y Ho Hk <- Hy. unfold deferred_at in *. cbn. apply retain_get; [apply Ho|].
    split; [done|]. apply other_spec. congruence.
Qed.

(** *** Replays of commands *)

Lemma step_to kept clock op s s' : snd (run_api clock op s) = s' -> api_step kept s s'.
Proof. intros <-. apply as_op. Qed.

Lemma commanded_receipt_at s command c c' wake record :
  map_get (cc_command_id command)
    (lg_command_receipts (st_ledger (commanded_store s command c c' wake record)))
  = Some (command_receipt command c' wake, Applied (command_receipt command c' wake) wake).
Proof. destruct record as [[]|]; apply map_get_insert_eq. Qed.

Lemma receipt_at_stored s id r :
  ledger_ok (st_ledger s) -> receipt_at id s = Some r ->
  exists wake, map_get id (lg_command_receipts (st_ledger s)) = Some (r, Applied r wake).
Proof.
  intros Hl [[r0 res] [Hr ->]]%fmap_Some. destruct (lo_receipts _ Hl _ _ _ Hr) as (_ & _ & [w ->] & _).
  by exists w.
Qed.

(** ** Properties *)

(** (C8) What holds of every store the whole interface can reach, deletions
    included: each checkpoint is stored under its own key and valid up to a
    renewed lease, the maps are in order, every host record, notification and
    receipt is valid and stored under its own id, a notification belongs to a
    stored host record of the same checkpoint, a receipt has its command, and
    a wake is leased exactly while it is claimed.  From there on a checkpoint
    lasts until its key is deleted, with the identity of its run; its revision,
    resume attempts, cancellation, acknowledgement, archive and number of
    model calls never go back. *)
Theorem interface_safe (s s' : Store) (k : string) (c : Checkpoint) :
  rtc (api_step (fun _ => False)) store_new s -> rtc (api_step (eq k)) s s' ->
  map_get k (st_checkpoints s) = Some c ->
  api_ok s /\ cp_checkpoint_key c = k /\ (validate_checkpoint c = Ok tt \/ overleased c) /\
  exists c', map_get k (st_checkpoints s') = Some c' /\ preserved c c'.
Proof.
  intros Hs Hs' Hk. pose proof (steps_api_ok _ _ _ Hs api_ok_new) as Hok.
  split; [done|]. destruct (ao_store _ Hok) as [Hkeyed Hst]. split; [by apply Hkeyed|].
  split; [by apply (Hst k)|]. by eapply steps_checkpoint.
Qed.


(** (C10) Controller commands are fenced.  A command under a new id that is
    accepted was addressed to the stored run at exactly its revision and resume
    attempt, the run had not ended, and nobody else held a live claim unless
    the command cancels.  It moves the run where the command leads, one
    revision further (a cancellation under a live claim only raises the flag
    and leaves revision and claim alone), touches no message, cycle, model
    call, shared state or archive, and answers with the receipt of exactly
    that state. *)
Theorem command_fenced clock (command : ControllerCommand) (now : N) (s s' : Store)
    (receipt : ControllerCommandReceipt) :
  api_ok s -> receipt_at (cc_command_id command) s = None ->
  admit_controller_command clock command now s = (Ok receipt, s') ->
  exists c c', map_get (ch_checkpoint_key (cc_handle command)) (st_checkpoints s) = Some c /\
    map_get (ch_checkpoint_key (cc_handle command)) (st_checkpoints s') = Some c' /\
    commanded c command now c' /\
    receipt_at (cc_command_id command) s' = Some receipt /\
    rc_command_digest receipt = cc_command_digest command /\
    rc_resulting_revision receipt = cp_revision c' /\
    rc_resulting_status receipt = status_as_str (cp_status c').
Proof.
  intros Hok Hnew Ha. destruct (admit_command_run _ _ _ _ _ _ Ha)
    as [[-> Hr]|(c & c' & wake & record & Hv & Hf & Hc & He & [= ->] & ->)].
  - destruct (Hr _ eq_refl) as [res E]. unfold receipt_at in Hnew. by rewrite E in Hnew.
  - destruct (ao_store _ Hok) as [Hk _]. exists c, c'. split; [done|].
    split; [cbn; rewrite (Hk _ _ Hc); apply map_get_insert_eq|].
    split; [by eapply command_effect_spec|]. split; [|done].
    unfold receipt_at. by rewrite commanded_receipt_at.
Qed.

(** (C11) A command is carried out once.  After it was accepted, and whatever
    the store did since without deleting its checkpoint, admitting it again
    answers with the stored receipt, which differs from the first one only in
    the state of its wake, resolving it answers that it was replayed, and a
    different command under the same id is refused; none of them changes the
    store. *)
Theorem command_once clock (command : ControllerCommand) (now : N) (s s' s'' : Store)
    (receipt : ControllerCommandReceipt) :
  api_ok s -> receipt_at (cc_command_id command) s = None ->
  admit_controller_command clock command now s = (Ok receipt, s') ->
  rtc (api_step (eq (ch_checkpoint_key (cc_handle command)))) s' s'' ->
  exists r wake, receipt_le receipt r /\
    (forall clock' now', admit_controller_command clock' command now' s'' = (Ok r, s'') /\
       resolve_controller_command clock' command now' s'' = (Ok (ReplayedC r wake), s'')) /\
    (forall clock' now' other, cc_command_id other = cc_command_id command ->
       cc_command_digest other <> cc_command_digest command -> command_validate other = Ok tt ->
       admit_controller_command clock' other now' s'' = (Err command_conflict, s'') /\
       resolve_controller_command clock' other now' s'' = (Err command_conflict, s'')).
Proof.
  intros Hok Hnew Ha Hs. assert (Hok' : api_ok s').
  { eapply step_api_ok; [|exact Hok]. eapply (step_to (eq "") clock (ApiAdmitCommand command now)).
    cbn. unfold discard, mbind, M_bind. by rewrite Ha. }
  destruct (admit_command_run _ _ _ _ _ _ Ha)
    as [[-> Hr]|(c & c' & w & record & Hv & Hf & Hc & He & [= ->] & ->)].
  { destruct (Hr _ eq_refl) as [res E]. unfold receipt_at in Hnew. by rewrite E in Hnew. }
  assert (Hat : receipt_at (cc_command_id command) (commanded_store s command c c' w record)
    = Some (command_receipt command c' w)) by (unfold receipt_at; by rewrite commanded_receipt_at).
  destruct (steps_receipt _ _ _ _ _ Hok' Hs Hat eq_refl) as (r & Hr & Hle).
  destruct (receipt_at_stored _ _ _ (ao_ledger _ (steps_api_ok _ _ _ Hs Hok')) Hr) as [wake Hg].
  assert (Hd : rc_command_digest r = cc_command_digest command).
  { destruct (rl_body _ _ Hle) as (? & ? & ->). done. }
  exists r, wake. split; [done|].
  unfold admit_controller_command, resolve_controller_command, mbind, M_bind, lift, get_store. split.
  - intros. rewrite Hv, Hg, Hd, String.eqb_refl. done.
  - intros clock' now' other Hid Hne Hov. rewrite Hov, Hid, Hg, Hd.
    rewrite (proj2 (String.eqb_neq _ _)) by congruence. done.
Qed.

(** Notifications settle.  Until its checkpoint is deleted, and unless
    two records collide under SHA-256, a notification keeps its payload and
    its attempts only grow; one that was delivered or aborted never changes
    again, claiming it hands it back unchanged; and a completion that quotes
    an earlier attempt is refused without a change. *)
Theorem notification_settles (id : string) (n : HostInteractionNotificationRecord) (s s' : Store) :
  api_ok s -> notification_at id s = Some n ->
  rtc (api_step (eq (nr_checkpoint_key n))) s s' ->
  notification_collision \/
  exists n', notification_at id s' = Some n' /\ notification_body n' = notification_body n /\
    (nr_attempt n <= nr_attempt n')%N /\
    (settled n = true -> n' = n /\ forall token lease now,
       trim_is_empty token = false -> (now < lease)%N ->
       claim_host_interaction_notification id (nr_payload_digest n) token lease now s'
         = (Ok (Some n), s')) /\
    ((nr_attempt n < nr_attempt n')%N -> forall token outcome now error,
       one_of outcome ["delivered"; "ambiguous"] = true ->
       complete_host_interaction_notification id (nr_payload_digest n) token (nr_attempt n) outcome
         now error s' = (Err notification_stale, s')).
Proof.
  intros Hok Hn Hs. destruct (steps_notification _ _ _ _ _ Hok Hs Hn eq_refl)
    as [|(n' & Hn' & [Hb Ha Hf])]; [by left|right].
  exists n'. split; [done|]. split; [done|]. split; [done|]. split.
  - intros Hset. pose proof (Hf Hset) as ->. split; [done|]. intros token lease now Ht Hl.
    unfold claim_host_interaction_notification, reject, mbind, M_bind, get_store, mret, M_ret.
    rewrite Ht, (proj2 (N.leb_gt _ _) Hl). cbn [orb]. unfold notification_at in Hn'.
    rewrite Hn', String.eqb_refl. cbn [negb]. unfold settled in Hset. by destruct (nr_outbox_state n).
  - intros Hlt token outcome now error Ho. assert (Hd : nr_payload_digest n' = nr_payload_digest n).
    { unfold notification_body in Hb. congruence. }
    unfold complete_host_interaction_notification, reject, mbind, M_bind, get_store, mret, M_ret.
    rewrite Ho. cbn [negb]. unfold notification_at in Hn'. rewrite Hn', Hd, String.eqb_refl. cbn [negb].
    rewrite (proj2 (N.eqb_neq (nr_attempt n') (nr_attempt n))) by lia. by rewrite orb_true_r.
Qed.

(** Wakes settle.  Until its checkpoint is deleted, the receipt of a
    command changes only in the state of its wake: attempts grow, a delivered
    wake is final, an ambiguous one can only become delivered.  Asking to
    retry it, one of the two outcomes reconciliation accepts, always fails
    and changes nothing. *)
Theorem wake_settles (id : string) (r : ControllerCommandReceipt) (s s' : Store) :
  api_ok s -> receipt_at id s = Some r ->
  rtc (api_step (eq (ch_checkpoint_key (rc_handle r)))) s s' ->
  exists r', receipt_at id s' = Some r' /\ (exists st a, r' = with_outbox r st a) /\
    (rc_outbox_attempt r <= rc_outbox_attempt r')%N /\
    (rc_outbox_state r = "delivered" -> r' = r) /\
    (rc_outbox_state r = "ambiguous" ->
       r' = r \/ r' = with_outbox r "delivered" (rc_outbox_attempt r)) /\
    (rc_outbox_state r' = "claimed" <-> is_Some (map_get id (lg_wake_leases (st_ledger s')))) /\
    (forall digest, exists e, reconcile_controller_command_wake id digest "retry" s' = (Err e, s')).
Proof.
  intros Hok Hr Hs. destruct (steps_receipt _ _ _ _ _ Hok Hs Hr eq_refl) as (r' & Hr' & []).
  pose proof (ao_ledger _ (steps_api_ok _ _ _ Hs Hok)) as Hl.
  destruct (receipt_at_stored _ _ _ Hl Hr') as [w Hg].
  exists r'. repeat (split; [done|]). split.
  - rewrite (lo_leases _ Hl id), Hg. split; [intros ?; by do 2 eexists|].
    by intros (? & ? & [= <- <-] & ?).
  - intros digest. unfold reconcile_controller_command_wake, reject, mbind, M_bind, get_store, mret, M_ret, lift.
    change (one_of "retry" ["delivered"; "retry"]) with true. cbn [negb]. rewrite Hg.
    destruct (String.eqb (rc_command_digest r') digest); [|by eexists].
    destruct (String.eqb (rc_outbox_state r') "ambiguous"); [|by eexists]. cbn.
    destruct (command_receipt_validate (with_outbox r' "retry" _)) as [[]|e] eqn:E; [|by eexists].
    by destruct (retry_rejected _ _ E).
Qed.

(** *** Host interactions *)

Lemma normalize_host c c' ob :
  validate_checkpoint c = Ok tt -> normalize_checkpoint_history c = Ok (c', ob) ->
  cp_active_host_interaction c' = cp_active_host_interaction c /\ cp_messages c' = cp_messages c /\
  cp_resume_attempt c' = cp_resume_attempt c /\
  cp_lease_expires_at_ms c' = cp_lease_expires_at_ms c.
Proof.
  intros Hv Hn. pose proof (normalize_spec _ _ _ Hv Hn) as Hs. destruct ob as [batch|]; [|by subst].
  destruct Hs as (cycles & calls & Hai). rewrite (ai_frame _ _ _ _ _ Hai). by destruct c.
Qed.

Lemma admission_live_spec c request x :
  admission_live c request x = true ->
  cp_status c = RunningS /\ cp_revision c = hx_expected_revision x /\
  cp_claim_token c = Some (hx_claim_token x) /\
  cp_claimed_cycle c = Some (hi_logical_cycle request) /\
  cp_lease_expires_at_ms c = Some (hx_lease_expires_at_ms x) /\
  (hx_now_ms x < hx_lease_expires_at_ms x)%N.
Proof.
  unfold admission_live, validate_live_lease. intros Hl. bool_inv.
  destruct (N.leb_spec (hx_lease_expires_at_ms x) (hx_now_ms x)); [done|].
  repeat (split; [congruence|]). done.
Qed.

(** A request whose interaction is on record is never admitted again. *)
Lemma produce_recorded clock request x s id r :
  host_at id s = Some r -> ir_checkpoint_key r = hx_checkpoint_key x ->
  ir_interaction_id r = hi_interaction_id request ->
  snd (produce_host_interaction clock request x s) = s.
Proof.
  intros Hr Hk Hi. unfold produce_host_interaction, mbind, M_bind, lift, get_store.
  destruct (request_validate request); [|done]. destruct (context_validate x); [|done].
  destruct (List.find _ _) as [[]|] eqn:E; [done|]. exfalso.
  apply map_get_elem, list_elem_of_In in Hr. pose proof (List.find_none _ _ E _ Hr) as Hf.
  unfold retained_interaction in Hf. cbn [snd] in Hf. rewrite Hk, Hi, !String.eqb_refl in Hf. done.
Qed.

Lemma record_interaction r :
  record_validate r = Ok tt -> ir_interaction_id r = hi_interaction_id (ir_request r).
Proof. unfold record_validate. intros Hr. result_inv. by bool_inv. Qed.

Lemma outcome_status request n st id note o :
  host_interaction_outcome request n st id note = Ok o ->
  ho_status o = st /\ ho_record_id o = id /\ ho_notification_id o = nr_notification_id note /\
  ho_checkpoint_revision o = n.
Proof. unfold host_interaction_outcome. intros Ho. result_inv. done. Qed.

Lemma produce_run clock request x s o s' :
  produce_host_interaction clock request x s = (Ok o, s') ->
  ho_status o = "replayed" /\ s' = s \/
  exists c d c' ob h r n, map_get (hx_checkpoint_key x) (st_checkpoints s) = Some c /\
    admission_live c request x = true /\ host_at (ho_record_id o) s = None /\
    notification_for (hx_checkpoint_key x) request (ho_record_id o) = Ok n /\
    active_record (hx_checkpoint_key x) request (ho_record_id o) = Ok r /\
    waiting_checkpoint clock c request x (ho_record_id o) = Ok d /\
    normalize_checkpoint_history d = Ok (c', ob) /\
    ho_status o = "admitted" /\ ho_notification_id o = nr_notification_id n /\
    ho_checkpoint_revision o = cp_revision d /\
    s' = set_ledger (set_checkpoints (set_store_history s h)
           (map_insert (hx_checkpoint_key x) c' (st_checkpoints s)))
           (admitted_ledger (st_ledger s) (ho_record_id o) r n).
Proof.
  unfold produce_host_interaction, put_checkpoint, put_host_record, put_notification, update_ledger.
  intros Hr. store_inv; unit_inv.
  - left. unfold replay_interaction in *. result_inv.
    match goal with E : host_interaction_outcome _ _ _ _ _ = _ |- _ => by apply outcome_status in E as (? & _) end.
  - left. match goal with E : host_interaction_outcome _ _ _ _ _ = _ |- _ => by apply outcome_status in E as (? & _) end.
  - right. persisted. result_inv. bool_inv.
    match goal with E : host_interaction_outcome _ _ _ _ _ = _ |- _ =>
      apply outcome_status in E as (Est & Eid & Ent & Erev) end. subst.
    do 7 eexists. repeat (split; [eassumption|]). by store_eta.
Qed.

Lemma consume_run clock e now s res s' :
  claim_and_consume_host_interaction_response clock e now s = (Ok res, s') ->
  rr_kind res = "replayed" /\ s' = s \/
  exists c r d c' ob h, map_get (re_checkpoint_key e) (st_checkpoints s) = Some c /\
    host_at (re_record_id e) s = Some r /\ recovery_admissible c r e = true /\
    consumed_checkpoint clock c r e now = Ok d /\ normalize_checkpoint_history d = Ok (c', ob) /\
    rr_kind res = "applied" /\
    s' = set_ledger (set_checkpoints (set_store_history s h)
           (map_insert (re_checkpoint_key e) c' (st_checkpoints s)))
           (set_host_interactions (st_ledger s) (map_insert (re_record_id e) (consumed_record r d)
              (lg_host_interactions (st_ledger s)))).
Proof.
  unfold claim_and_consume_host_interaction_response, put_checkpoint, put_host_record, update_ledger.
  intros Hr. store_inv; unit_inv.
  - left. unfold recovery_result in *. result_inv. done.
  - right. persisted. unfold recovery_result in *. result_inv. bool_inv.
    match goal with A : recovery_admissible _ _ _ = true |- _ => rewrite <- (recovery_record_id _ _ _ A) end.
    do 6 eexists. repeat (split; [eassumption || reflexivity|]). by store_eta.
Qed.
Lemma consume_consumed clock e now s r :
  host_at (re_record_id e) s = Some r -> ir_state r = "consumed" ->
  snd (claim_and_consume_host_interaction_response clock e now s) = s.
Proof.
  intros Hr Hst. unfold claim_and_consume_host_interaction_response, mbind, M_bind, lift, get_store.
  destruct (envelope_validate e); [|done].
  destruct (map_get (re_checkpoint_key e) (st_checkpoints s)); [|done]. cbn [ok_or].
  unfold host_at in Hr. rewrite Hr. cbn [ok_or]. rewrite Hst, String.eqb_refl.
  unfold reject, throw, mret, M_ret. by destruct (negb _).
Qed.

(** (C12) A host interaction is admitted once, and whole.  A request is
    either answered from the record of an earlier admission, without a change,
    or admitted: the caller owned the claimed cycle at the stored revision and
    lease, and in one step the checkpoint waits for the host with its claim
    released, one revision further, an active record holds the request and a
    pending notification announces it.  As long as the checkpoint is not
    deleted, producing the same interaction again changes nothing. *)
Theorem interaction_admitted_once clock (request : HostInteractionRequest)
    (x : HostInteractionAdmissionContext) (s s' : Store) (o : HostInteractionOutcome) :
  api_ok s -> produce_host_interaction clock request x s = (Ok o, s') ->
  ho_status o = "replayed" /\ s' = s \/
  ho_status o = "admitted" /\
  (exists c c', map_get (hx_checkpoint_key x) (st_checkpoints s) = Some c /\
     cp_status c = RunningS /\ cp_revision c = hx_expected_revision x /\
     cp_claim_token c = Some (hx_claim_token x) /\
     cp_claimed_cycle c = Some (hi_logical_cycle request) /\
     cp_lease_expires_at_ms c = Some (hx_lease_expires_at_ms x) /\
     (hx_now_ms x < hx_lease_expires_at_ms x)%N /\
     map_get (hx_checkpoint_key x) (st_checkpoints s') = Some c' /\
     cp_revision c' = (cp_revision c + 1)%N /\ ho_checkpoint_revision o = cp_revision c' /\
     cp_status c' = HostInteractionS /\ cp_active_host_interaction c' = Some request /\
     cp_claim_token c' = None) /\
  (exists r n, host_at (ho_record_id o) s = None /\ host_at (ho_record_id o) s' = Some r /\
     ir_request r = request /\ ir_state r = "active" /\
     notification_at (ho_notification_id o) s' = Some n /\ nr_record_id n = ho_record_id o /\
     nr_outbox_state n = PendingN) /\
  (forall s'' clock' x', rtc (api_step (eq (hx_checkpoint_key x))) s' s'' ->
     hx_checkpoint_key x' = hx_checkpoint_key x ->
     snd (produce_host_interaction clock' request x' s'') = s'').
Proof.
  intros Hok Hp. assert (Hok' : api_ok s').
  { eapply step_api_ok; [|exact Hok]. eapply (step_to (eq "") clock (ApiProduce request x)).
    cbn. unfold discard, mbind, M_bind. by rewrite Hp. }
  destruct (produce_run _ _ _ _ _ _ Hp)
    as [|(c & d & c' & ob & h & r & n & Hc & Hlive & Hnew & Hn & Hr & Hw & Hnorm & Hst & Hni & Hrev & ->)];
    [by left|right].
  apply waiting_spec in Hw as [Hadv _ [Hds Hda] (Hdt & _)]. pose proof (adv_valid _ _ Hadv) as Hdv.
  destruct (normalize_frame _ _ _ Hdv Hnorm) as (_ & _ & Er & Et & Es & _).
  destruct (normalize_host _ _ _ Hdv Hnorm) as (Eact & _).
  pose proof (active_record_spec _ _ _ _ Hr) as (Eid & Ekey & Ereq & Estate & Erv).
  pose proof (notification_for_spec _ _ _ _ Hn) as (_ & Enr & _ & Ens & _).
  assert (Hat : forall s1, host_at (ho_record_id o) (set_ledger s1 (admitted_ledger (st_ledger s) (ho_record_id o) r n)) = Some r)
    by (intros; apply map_get_insert_eq).
  split; [done|]. split; [|split].
  - apply admission_live_spec in Hlive as (? & ? & ? & ? & ? & ?).
    exists c, c'. rewrite Er, Es, Et, Eact. repeat (split; [done|]).
    split; [apply map_get_insert_eq|]. split; [by apply (adv_revision _ _ Hadv)|]. done.
  - exists r, n. split; [done|]. split; [by apply Hat|]. split; [done|]. split; [done|].
    split; [rewrite Hni; apply map_get_insert_eq|done].
  - intros s'' clock' x' Hs Hx.
    destruct (steps_host _ _ _ _ _ Hok' Hs (Hat _) Ekey) as (r' & Hr' & [Hb _ _]).
    unfold host_body in Hb. eapply produce_recorded; [exact Hr'|congruence|].
    apply record_interaction in Erv. congruence.
Qed.

(** (C13) A host response is injected exactly once.  The recovery that applies
    a response found its record waiting and nobody holding the run; it appends
    the response as one user message, takes the claim for the next cycle, and
    raises revision and resume attempt by one.  From then on, until the
    checkpoint is deleted, the record stays consumed and no recovery for it
    changes anything: at most it is answered as replayed. *)
Theorem response_consumed_once clock (e : HostInteractionRecoveryEnvelope) (now : N) (s s' : Store)
    (res : HostInteractionRecoveryResult) :
  api_ok s -> claim_and_consume_host_interaction_response clock e now s = (Ok res, s') ->
  rr_kind res = "replayed" /\ s' = s \/
  rr_kind res = "applied" /\
  (exists c c' r response, map_get (re_checkpoint_key e) (st_checkpoints s) = Some c /\
     host_at (re_record_id e) s = Some r /\ ir_state r = "resolved_pending" /\
     cp_status c = RunningS /\ cp_claim_token c = None /\
     cp_revision c = re_expected_revision e /\ cp_resume_attempt c = re_resume_attempt e /\
     ir_response r = Some response /\
     map_get (re_checkpoint_key e) (st_checkpoints s') = Some c' /\
     cp_messages c' = cp_messages c ++ [message_user (hm_content (hr_response response))] /\
     cp_revision c' = (cp_revision c + 1)%N /\ cp_resume_attempt c' = (cp_resume_attempt c + 1)%N /\
     is_some (cp_claim_token c') = true /\
     cp_lease_expires_at_ms c' = Some (recovery_lease_deadline now)) /\
  (forall s'', rtc (api_step (eq (re_checkpoint_key e))) s' s'' ->
     option_map ir_state (host_at (re_record_id e) s'') = Some "consumed" /\
     forall clock' e' now', re_record_id e' = re_record_id e ->
       snd (claim_and_consume_host_interaction_response clock' e' now' s'') = s'' /\
       forall res', fst (claim_and_consume_host_interaction_response clock' e' now' s'') = Ok res' ->
         rr_kind res' = "replayed").
Proof.
  intros Hok Hp. assert (Hok' : api_ok s').
  { eapply step_api_ok; [|exact Hok]. eapply (step_to (eq "") clock (ApiConsume e now)).
    cbn. unfold discard, mbind, M_bind. by rewrite Hp. }
  destruct (consume_run _ _ _ _ _ _ Hp)
    as [|(c & r & d & c' & ob & h & Hc & Hr & Ha & Hd & Hn & Hk & ->)]; [by left|right].
  destruct (consumed_spec _ _ _ _ _ _ Ha Hd) as [Hadv _ Hres (response & Hresp & Hmsg) (Ht & _ & Hl) _].
  pose proof (adv_valid _ _ Hadv) as Hdv.
  destruct (normalize_frame _ _ _ Hdv Hn) as (_ & _ & Er & Et & _ & _).
  destruct (normalize_host _ _ _ Hdv Hn) as (_ & Em & Eres & El).
  split; [done|]. split.
  - exists c, c', r, response. rewrite Er, Et, Em, Eres, El. pose proof Ha as Hadm.
    unfold recovery_admissible in Hadm. bool_inv. repeat (split; [done|]).
    split; [apply map_get_insert_eq|]. split; [done|]. split; [apply (adv_revision _ _ Hadv)|done].
  - intros s'' Hs.
    assert (Hkey : ir_checkpoint_key (consumed_record r d) = re_checkpoint_key e).
    { unfold recovery_admissible, recovery_identity_matches in Ha. by bool_inv. }
    destruct (steps_host _ (re_record_id e) _ _ (consumed_record r d) Hok' Hs
      (map_get_insert_eq _ _ _) Hkey) as (r' & Hr' & [_ _ Hcons]).
    rewrite (Hcons eq_refl) in Hr'. rewrite Hr'. split; [done|]. intros clock' e' now' He. rewrite <- He in Hr'.
    split; [by eapply consume_consumed|]. intros res' Hf.
    destruct (claim_and_consume_host_interaction_response clock' e' now' s'') as [f s1] eqn:E.
    cbn in Hf. subst f. destruct (consume_run _ _ _ _ _ _ E)
      as [[? _]|(c1 & r1 & d1 & c2 & ob1 & h1 & _ & Hr1 & Ha1 & _)]; [done|].
    rewrite Hr' in Hr1. injection Hr1 as <-. unfold recovery_admissible in Ha1. by bool_inv.
Qed.

(** Deletion is complete and touches nothing else.  Afterwards the store
    holds exactly what it held before, except what belongs to the deleted key:
    its checkpoint and archive, its deferred receipts, host records,
    notifications, commands with their receipts, and the leases of their
    wakes. *)
Theorem deletion_complete (key : string) (s : Store) :
  api_ok s ->
  let s' := snd (delete_checkpoint key s) in
  (forall k c, map_get k (st_checkpoints s') = Some c <->
     map_get k (st_checkpoints s) = Some c /\ k <> key) /\
  (forall k h, map_get k (st_history s') = Some h <-> map_get k (st_history s) = Some h /\ k <> key) /\
  (forall id x, deferred_at id s' = Some x <->
     deferred_at id s = Some x /\ h_checkpoint_key (dr_handle x) <> key) /\
  (forall id r, host_at id s' = Some r <-> host_at id s = Some r /\ ir_checkpoint_key r <> key) /\
  (forall id n, notification_at id s' = Some n <->
     notification_at id s = Some n /\ nr_checkpoint_key n <> key) /\
  (forall id r, receipt_at id s' = Some r <->
     receipt_at id s = Some r /\ ch_checkpoint_key (rc_handle r) <> key) /\
  (forall id c, map_get id (lg_commands (st_ledger s')) = Some c <->
     map_get id (lg_commands (st_ledger s)) = Some c /\ ch_checkpoint_key (cc_handle c) <> key) /\
  (forall id w, map_get id (lg_wake_leases (st_ledger s')) = Some w <->
     map_get id (lg_wake_leases (st_ledger s)) = Some w /\ is_Some (receipt_at id s')).
Proof.
  intros Hok s'. destruct (ao_sorted _ Hok) as (W1&W2&W3&W4&W5&W6&W7&W8).
  assert (Hrem : forall V (m : list (string * V)) k v, map_wf m ->
    map_get k (map_remove key m) = Some v <-> map_get k m = Some v /\ k <> key).
  { intros V m k v Hm. rewrite map_get_remove by done. destruct (String.eqb_spec k key); [|tauto].
    by split; [|intros []]. }
  assert (Hret : forall V f (m : list (string * V)) id v (P : Prop), map_wf m ->
    (f id v = true <-> P) -> map_get id (map_retain f m) = Some v <-> map_get id m = Some v /\ P).
  { intros V f m id v P Hm Hf. rewrite retain_get by done. by rewrite Hf. }
  assert (Hrc : forall id r, receipt_at id s' = Some r <->
     receipt_at id s = Some r /\ ch_checkpoint_key (rc_handle r) <> key).
  { intros id r. unfold receipt_at. rewrite !fmap_Some. split.
    - intros ([r0 res] & [Hg Ho]%retain_get & ->); [|done]. split; [by exists (r0, res)|by apply other_spec].
    - intros [([r0 res] & Hg & ->) Ho]. exists (r0, res). split; [|done].
      apply retain_get; [done|]. split; [done|by apply other_spec]. }
  split; [intros; by apply Hrem|]. split; [intros; by apply Hrem|].
  split; [intros; apply Hret; [done|apply other_spec]|].
  split; [intros; apply Hret; [done|apply other_spec]|].
  split; [intros; apply Hret; [done|apply other_spec]|]. split; [exact Hrc|].
  split; [intros; apply Hret; [done|apply other_spec]|].
  intros id w. apply Hret; [done|]. unfold map_contains_key, receipt_at. 
  change (lg_command_receipts (st_ledger s')) with (map_retain
    (fun (_ : string) r => negb (String.eqb (ch_checkpoint_key (rc_handle r.1)) key)) (lg_command_receipts (st_ledger s))).
  destruct (map_get id (map_retain _ _)); cbn.
  - split; [by eexists|done].
  - split; [done|by intros []].
Qed.

(** (C14) A deferred call is resolved once.  After a resolution was applied,
    and after whatever the store did since without deleting the checkpoint,
    the same result for the same handle is answered with the first receipt and
    a different one is refused, both without a change. *)
Theorem deferred_resolution_once clock (handle : DeferredToolHandle) (x : ToolExecutionResult)
    (s s' s'' : Store) (d : DeferredResolveDecision) (receipt : DeferredReceipt) :
  api_ok s -> resolve_deferred clock handle x s = (Ok d, s') ->
  d = AppliedReady receipt \/ d = AppliedWaiting receipt ->
  rtc (api_step (eq (h_checkpoint_key handle))) s' s'' ->
  (forall clock', resolve_deferred clock' handle x s'' = (Ok (Replayed receipt), s'')) /\
  (forall clock' x' xd', validate_definitive_result x' = Ok tt -> result_digest x' = Ok xd' ->
     result_digest x <> Ok xd' ->
     resolve_deferred clock' handle x' s'' = (Err "deferred_resolution_conflict", s'')).
Proof.
  intros Hok Hr Hd Hs. assert (Hok' : api_ok s').
  { eapply step_api_ok; [|exact Hok]. eapply (step_to (eq "") clock (ApiCore (OpResolve handle x))).
    cbn. unfold discard, mbind, M_bind. by rewrite Hr. }
  destruct (resolve_applied _ _ _ _ _ _ _ Hr Hd) as (Hx & Hres & Hhd & key & xd & Hkey & Hxd & Hg).
  assert (Hg' : map_get key (st_deferred_receipts s'') = Some receipt).
  { eapply (steps_deferred (h_checkpoint_key handle)); [exact Hok'|done|done|congruence]. }
  split; intros; unfold resolve_deferred, mbind, M_bind, lift, get_store.
  - rewrite Hx, Hkey, Hg', Hres, Hxd. by rewrite String.eqb_refl.
  - match goal with E : validate_definitive_result _ = _, F : result_digest _ = Ok ?y |- _ =>
      rewrite E, Hkey, Hg', Hres, Hxd, F; replace (String.eqb xd y) with false; [done|] end.
    symmetry. apply String.eqb_neq. congruence.
Qed.

(** *** Reaping *)

Lemma map_elem_get {V} k (v : V) (m : list (string * V)) : map_wf m -> (k, v) ∈ m -> map_get k m = Some v.
Proof.
  intros Hwf%map_wf_NoDup. unfold map_keys in Hwf. induction m as [|[j w] m IH]; [set_solver|].
  cbn in Hwf. apply NoDup_cons in Hwf as [Hnin Hnd]. cbn. intros [E|Hin]%elem_of_cons.
  - simplify_eq. by rewrite String.eqb_refl.
  - destruct (String.eqb_spec k j) as [->|]; [|by apply IH]. destruct Hnin.
    apply list_elem_of_fmap. by exists (j, v).
Qed.

Lemma receipt_with_state r :
  command_receipt_validate r = Ok tt -> rc_outbox_action r = "recovery_dispatch" ->
  command_receipt_validate (with_outbox r "pending" (rc_outbox_attempt r)) = Ok tt.
Proof.
  unfold command_receipt_validate. intros Hr Ha. cbn [with_outbox rc_schema_version rc_command_id
    rc_command_digest rc_handle rc_resume_attempt rc_expected_revision rc_resulting_revision
    rc_resulting_status rc_outbox_state rc_outbox_action rc_outbox_destination rc_outbox_attempt].
  rewrite Ha in *. result_inv. reflexivity.
Qed.
Lemma handle_key_ok h :
  controller_handle_validate h = Ok tt ->
  blank_or_long CONTROLLER_COMMAND_MAX_UTF8_BYTES (ch_checkpoint_key h) = false.
Proof. unfold controller_handle_validate. intros Hh. cbn [try_for_each] in Hh. unfold blank_or_long. destruct (trim_is_empty _ || _); done. Qed.
Lemma wake_record_ok r :
  command_receipt_validate r = Ok tt -> rc_outbox_action r = "recovery_dispatch" ->
  rc_outbox_state r = "pending" ->
  is_ok (controller_receipt_outbox_id (rc_command_id r) (rc_command_digest r)) = true ->
  exists w, wake_record_of r = Ok w /\ wr_command_id w = rc_command_id r /\
    wr_outbox_state w = "pending".
Proof.
  intros Hr Ha Hst Hid. unfold wake_record_of.
  destruct (controller_receipt_outbox_id _ _) as [id|] eqn:Eid; [|done].
  unfold from_receipt_lifecycle. rewrite Hr, N.eqb_refl. cbn [negb].
  assert (Hw : wake_record_validate
    {| wr_command_id := rc_command_id r; wr_command_digest := rc_command_digest r;
       wr_checkpoint_key := ch_checkpoint_key (rc_handle r); wr_handle := rc_handle r;
       wr_resume_attempt := rc_resume_attempt r; wr_expected_revision := rc_expected_revision r;
       wr_resulting_revision := rc_resulting_revision r;
       wr_resulting_status := rc_resulting_status r; wr_outbox_id := id;
       wr_outbox_state := rc_outbox_state r; wr_outbox_action := rc_outbox_action r;
       wr_outbox_destination := rc_outbox_destination r; wr_attempt := rc_outbox_attempt r;
       wr_claim_token := None; wr_lease_expires_at_ms := None; wr_delivered_at_ms := None;
       wr_last_error := None |} = Ok tt).
  { unfold command_receipt_validate in Hr. unfold wake_record_validate, wake_action_ok.
    cbn [wr_command_id wr_command_digest wr_checkpoint_key wr_handle wr_resume_attempt
      wr_expected_revision wr_resulting_revision wr_resulting_status wr_outbox_id wr_outbox_state
      wr_outbox_action wr_outbox_destination wr_attempt wr_claim_token wr_lease_expires_at_ms
      wr_delivered_at_ms wr_last_error].
    rewrite Ha, Hst in *. unfold receipt_action_ok in Hr. result_inv. unit_inv.
    rewrite (handle_key_ok _ Hdo0), ?Hdo, ?Eid, !String.eqb_refl. cbn [map_err negb orb].
    rewrite ?Hif1. cbn in Hif5. apply negb_false_iff in Hif5. rewrite Hif5. reflexivity. }
  rewrite Hw. eexists. split; [done|]. by split.
Qed.

Definition lease_at (id : string) (s : Store) : option WakeLease :=
  map_get id (lg_wake_leases (st_ledger s)).

(** One waiting wake. *)
Lemma reap_one_run key now id s r :
  ledger_ok (st_ledger s) -> map_wf (lg_wake_leases (st_ledger s)) ->
  receipt_at id s = Some r -> wake_waits (st_ledger s) key now id r = true ->
  is_ok (controller_receipt_outbox_id (rc_command_id r) (rc_command_digest r)) = true ->
  exists w s', reap_one key now id s = (Ok (Some w), s') /\ wr_command_id w = id /\
    receipt_at id s' = Some (with_outbox r "pending" (rc_outbox_attempt r)) /\
    (forall j, j <> id -> receipt_at j s' = receipt_at j s /\ lease_at j s' = lease_at j s).
Proof.
  intros Hl Hwf Hr Hw Hid. destruct (receipt_at_stored _ _ _ Hl Hr) as [wake Hg].
  destruct (lo_receipts _ Hl _ _ _ Hg) as (Eid & Hv & _). unfold wake_waits in Hw.
  apply andb_true_iff in Hw as [[Hk Ha]%andb_true_iff Hst].
  apply String.eqb_eq in Ha. pose proof (receipt_with_state _ Hv Ha) as Hv'.
  unfold reap_one, mbind, M_bind, get_store, lift. rewrite Hg, Hk, Ha. cbn [negb orb String.eqb].
  destruct (String.eqb_spec (rc_outbox_state r) "pending") as [Hp|Hp].
  - destruct (wake_record_ok r Hv Ha Hp Hid) as (w & Hwr & Hwid & _).
    exists w, s. rewrite Hwr. split; [done|]. split; [congruence|].
    rewrite <- Hp, with_outbox_same. by split.
  - cbn [orb] in Hst. apply andb_true_iff in Hst as [Hc Hlease].
    destruct (map_get id (lg_wake_leases (st_ledger s))) as [lease|] eqn:El; [|done]. cbn in Hlease.
    rewrite Hc. rewrite (proj2 (N.ltb_ge _ _)) by (by apply N.leb_le). cbn [negb orb].
    rewrite Hv'. destruct (wake_record_ok _ Hv' Ha eq_refl Hid) as (w & Hwr & Hwid & _).
    eexists w, _. unfold remove_wake_lease, put_updated_receipt, put_receipt, update_ledger, modify.
    rewrite Hwr. split; [reflexivity|]. split; [cbn in Hwid; congruence|]. split.
    + unfold receipt_at. cbn. by rewrite map_get_insert_eq.
    + intros j Hj. unfold receipt_at, lease_at. cbn.
      rewrite map_get_insert_ne, map_get_remove by done. by rewrite (proj2 (String.eqb_neq _ _) Hj).
Qed.
Lemma candidate_spec l key now id :
  map_wf (lg_command_receipts l) ->
  id ∈ map snd (wake_candidates l key now) <->
  exists r res, map_get id (lg_command_receipts l) = Some (r, res) /\ wake_waits l key now id r = true.
Proof.
  intros Hwf. unfold wake_candidates. rewrite list_elem_of_fmap. split.
  - intros ([n j] & -> & Hin). cbn [snd]. rewrite stable_sort_perm in Hin.
    apply list_elem_of_omap in Hin as ([i [r res]] & Hin & Hw). cbn [fst snd] in Hw.
    destruct (wake_waits l key now i r) eqn:E; [|done]. simplify_eq.
    exists r, res. split; [by apply map_elem_get|done].
  - intros (r & res & Hg & Hw). exists (rc_expected_revision r, id). split; [done|].
    rewrite stable_sort_perm. apply list_elem_of_omap. exists (id, (r, res)).
    split; [by apply map_get_elem|]. cbn [fst snd]. by rewrite Hw.
Qed.
Lemma candidates_NoDup l key now :
  map_wf (lg_command_receipts l) -> NoDup (map snd (wake_candidates l key now)).
Proof.
  intros Hwf. unfold wake_candidates. rewrite stable_sort_perm. apply map_wf_NoDup in Hwf.
  unfold map_keys in Hwf. induction (lg_command_receipts l) as [|[id [r res]] m IH]; cbn; [constructor|].
  apply NoDup_cons in Hwf as [Hnin Hnd]. destruct (wake_waits l key now id r); [|by apply IH].
  cbn. constructor; [|by apply IH]. intros ([n j] & Ej & Hin)%list_elem_of_fmap. cbn in Ej. subst j.
  apply list_elem_of_omap in Hin as ([i [r' res']] & Hin & Hw). cbn in Hw. case_match; [|done].
  simplify_eq. apply Hnin, list_elem_of_fmap. by exists (id, (r', res')).
Qed.

Lemma reap_all_run key now ids s :
  api_ok s -> NoDup ids ->
  (forall id digest, is_ok (controller_receipt_outbox_id id digest) = true) ->
  (forall id, id ∈ ids -> exists r, receipt_at id s = Some r /\ wake_waits (st_ledger s) key now id r = true) ->
  exists l s', reap_all key now ids s = (Ok l, s') /\ map wr_command_id l = ids /\
    (forall id r, id ∈ ids -> receipt_at id s = Some r ->
       receipt_at id s' = Some (with_outbox r "pending" (rc_outbox_attempt r))) /\
    (forall j, j ∉ ids -> receipt_at j s' = receipt_at j s).
Proof.
  intros [Hs Hl Ho] Hnd Hdig. assert (Hwf : map_wf (lg_wake_leases (st_ledger s))) by apply Ho.
  clear Ho. revert s Hs Hl Hwf. induction ids as [|id ids IH]; intros s Hs Hl Hwf Hw.
  { exists [], s. repeat split; try done. intros ? ? Hin. by apply not_elem_of_nil in Hin. }
  apply NoDup_cons in Hnd as [Hnin Hnd].
  destruct (Hw id ltac:(left)) as (r & Hr & Hwr).
  destruct (reap_one_run key now id s r Hl Hwf Hr Hwr (Hdig _ _)) as (w & s1 & Hone & Hwid & Hat & Hoth).
  pose proof (reap_one_moves _ _ _ _ _ _ Hone) as Hm.
  destruct (moves_ok _ _ Hm Hs Hl Hwf) as (Hs1 & Hl1 & Hw1).
  destruct (IH Hnd s1 Hs1 Hl1 Hw1) as (l & s2 & Hall & Hids & Hin & Hout).
  { intros j Hj. destruct (Hw j ltac:(by right)) as (rj & Hrj & Hwj). exists rj.
    destruct (Hoth j) as [-> Elease]; [congruence|]. split; [done|].
    unfold wake_waits, lease_at in *. by rewrite Elease. }
  exists (w :: l), s2. cbn [reap_all]. unfold mbind, M_bind, mret, M_ret. rewrite Hone, Hall.
  split; [done|]. split; [cbn; congruence|]. split.
  - intros i ri [->|Hi]%elem_of_cons Hri.
    + rewrite Hout by done. simplify_eq. done.
    + apply Hin; [done|]. destruct (Hoth i) as [-> _]; [congruence|done].
  - intros j Hj. apply not_elem_of_cons in Hj as [Hj Hj']. rewrite Hout by done. by apply Hoth.
Qed.

Lemma candidate_le_total a b : candidate_le a b = false -> candidate_le b a = true.
Proof.
  unfold candidate_le. destruct a as [n i], b as [m j]. cbn [fst snd].
  intros [H1%N.ltb_ge H2]%orb_false_iff. destruct (N.ltb_spec m n) as [|Hmn]; [done|].
  assert (n = m) as -> by lia. rewrite N.eqb_refl in *. cbn [andb orb] in *.
  rewrite String.compare_antisym in H2. by destruct (String.compare j i).
Qed.
Lemma candidate_le_trans a b c : candidate_le a b = true -> candidate_le b c = true -> candidate_le a c = true.
Proof.
  unfold candidate_le. destruct a as [n i], b as [m j], c as [p k]. cbn [fst snd].
  intros [Hab%N.ltb_lt|[->%N.eqb_eq Hij]%andb_true_iff]%orb_true_iff [Hbc%N.ltb_lt|[->%N.eqb_eq Hjk]%andb_true_iff]%orb_true_iff.
  - rewrite (proj2 (N.ltb_lt n p)) by lia. done.
  - rewrite (proj2 (N.ltb_lt n p)) by lia. done.
  - rewrite (proj2 (N.ltb_lt m p)) by lia. done.
  - rewrite N.eqb_refl. apply orb_true_iff. right. cbn [andb].
    destruct (String.compare i j) eqn:Eij; try done.
    + by apply string_compare_eq in Eij as ->.
    + destruct (String.compare j k) eqn:Ejk; try done.
      * apply string_compare_eq in Ejk as <-. by rewrite Eij.
      * by rewrite (str_lt_trans i j k Eij Ejk).
Qed.

(** No wake is lost.  When identifiers can be computed, reaping the wakes
    of a checkpoint succeeds: it returns, ordered by revision and id, exactly
    the wakes that wait or whose claim has run out, every one of them is
    pending afterwards and free to be claimed, and every other receipt is as it
    was. *)
Theorem wakes_reaped (key : string) (now : N) (s : Store) :
  api_ok s -> (forall id digest, is_ok (controller_receipt_outbox_id id digest) = true) ->
  exists l s', reap_controller_command_wakes key now s = (Ok l, s') /\
    map wr_command_id l = map snd (wake_candidates (st_ledger s) key now) /\
    StronglySorted (fun a b => candidate_le a b = true) (wake_candidates (st_ledger s) key now) /\
    (forall id r, receipt_at id s = Some r ->
       if wake_waits (st_ledger s) key now id r
       then id ∈ map wr_command_id l /\
            receipt_at id s' = Some (with_outbox r "pending" (rc_outbox_attempt r))
       else ~ id ∈ map wr_command_id l /\ receipt_at id s' = Some r).
Proof.
  intros Hok Hdig. assert (Hwf : map_wf (lg_command_receipts (st_ledger s))) by apply (ao_sorted _ Hok).
  assert (Hcand : forall id, id ∈ map snd (wake_candidates (st_ledger s) key now) <->
    exists r, receipt_at id s = Some r /\ wake_waits (st_ledger s) key now id r = true).
  { intros id. rewrite candidate_spec by done. unfold receipt_at. split.
    - intros (r & res & -> & ?). by exists r.
    - intros (r & ([r0 res] & ? & ->)%fmap_Some & ?). by exists r0, res. }
  destruct (reap_all_run key now _ s Hok (candidates_NoDup _ key now Hwf) Hdig)
    as (l & s' & Hrun & Hids & Hin & Hout); [intros id; apply Hcand|].
  exists l, s'. split; [exact Hrun|]. split; [done|].
  split; [apply stable_sort_sorted; [apply candidate_le_total|apply candidate_le_trans]|].
  intros id r Hr. rewrite Hids. destruct (wake_waits (st_ledger s) key now id r) eqn:E.
  - assert (Hi : id ∈ map snd (wake_candidates (st_ledger s) key now)) by (apply Hcand; by exists r).
    split; [done|]. by apply Hin.
  - assert (Hi : id ∉ map snd (wake_candidates (st_ledger s) key now)).
    { intros (r' & Hr' & E')%Hcand. congruence. }
    split; [done|]. by rewrite Hout.
Qed.
End Safety.

(** ** Examples

    One run through the interface: created, claimed, suspended for the host,
    answered, woken and recovered. *)

Section Examples.
Local Existing Instance toy_env.
Local Existing Instance toy_strict.

Definition ask : HostInteractionRequest :=
  ok_value
    {| hi_schema_version := ""; hi_interaction_id := ""; hi_logical_cycle := 0;
       hi_operation_id := ""; hi_tool_call_id := ""; hi_request_digest := ""; hi_prompt := "" |}
    (request_new "ask_1" 1 "op_t" "call_1" "Proceed?").
Definition ask_context : HostInteractionAdmissionContext :=
  {| hx_checkpoint_key := "key"; hx_expected_revision := 1; hx_claim_token := "owner";
     hx_claimed_cycle := 1; hx_now_ms := 10; hx_lease_expires_at_ms := 1000;
     hx_cycle_snapshot := None |}.
Definition sample_asked : Store := snd (run_api sample_clock (ApiProduce ask ask_context) sample_claimed).
Definition run_command (id : string) (attempt revision : N) (v : ControllerCommandVariant)
    : ControllerCommand :=
  ok_value
    {| cc_schema_version := ""; cc_command_id := ""; cc_command_digest := "";
       cc_handle := {| ch_checkpoint_key := "key"; ch_run_id := "run"; ch_trace_id := "trace" |};
       cc_resume_attempt := 0; cc_expected_revision := 0; cc_command := v |}
    (command_new id {| ch_checkpoint_key := "key"; ch_run_id := "run"; ch_trace_id := "trace" |}
       attempt revision v).
Definition answer : ControllerCommand :=
  run_command "answer" 1 2
    (HostInteractionResponseV "ask_1" 1 "op_t" "call_1" (hi_request_digest ask)
       {| hm_role := "user"; hm_content := "yes" |}).
Definition sample_answered : Store :=
  snd (run_api sample_clock (ApiAdmitCommand answer 20) sample_asked).
Definition ask_record : string := ok_value "" (record_id_for "key" ask).
Definition recovery : HostInteractionRecoveryEnvelope :=
  {| re_schema_version := HOST_INTERACTION_RECOVERY_SCHEMA; re_record_id := ask_record;
     re_checkpoint_key := "key"; re_run_id := "run"; re_trace_id := "trace";
     re_claim_mode := "recovery"; re_resume_attempt := 1; re_expected_revision := 3;
     re_logical_cycle := 1; re_interaction_id := "ask_1"; re_operation_id := "op_t";
     re_tool_call_id := "call_1"; re_request_digest := hi_request_digest ask;
     re_command_id := "answer" |}.
Definition sample_recovered : Store :=
  snd (claim_and_consume_host_interaction_response sample_clock recovery 30 sample_answered).

(** Every one of these stores is reachable. *)
Lemma stepped (kept : string -> Prop) clock op s : api_ok s -> api_ok (snd (run_api clock op s)).
Proof. exact (step_api_ok kept s _ (as_op kept s clock op)). Qed.
Lemma created_ok : api_ok sample_created.
Proof. exact (stepped (eq "") sample_clock (ApiCore (OpCreate sample_identity)) _ api_ok_new). Qed.
Lemma claimed_ok : api_ok sample_claimed.
Proof.
  exact (stepped (eq "") sample_clock (ApiCore (OpClaim "key" 1 "owner" 1000 0 Continue)) _ created_ok).
Qed.
Lemma asked_ok : api_ok sample_asked.
Proof. exact (stepped (eq "") sample_clock (ApiProduce ask ask_context) _ claimed_ok). Qed.
Lemma answered_ok : api_ok sample_answered.
Proof. exact (stepped (eq "") sample_clock (ApiAdmitCommand answer 20) _ asked_ok). Qed.

Lemma created_step kept : api_step kept store_new sample_created.
Proof. exact (step_to kept sample_clock (ApiCore (OpCreate sample_identity)) _ _ eq_refl). Qed.
Lemma claimed_step kept : api_step kept sample_created sample_claimed.
Proof.
  exact (step_to kept sample_clock (ApiCore (OpClaim "key" 1 "owner" 1000 0 Continue)) _ _ eq_refl).
Qed.
Lemma interface_safe_witness :
  exists c c', map_get "key" (st_checkpoints sample_created) = Some c /\
    map_get "key" (st_checkpoints sample_claimed) = Some c' /\ preserved c c'.
Proof.
  destruct (stored_at _ _ (proj1 sample_created_runs)) as [c Hc].
  destruct (interface_safe sample_created sample_claimed "key" c
    (rtc_once _ _ (created_step _)) (rtc_once _ _ (claimed_step _)) Hc) as (_ & _ & _ & c' & Hc' & Hp).
  exists c, c'. split; [exact Hc|]. split; [exact Hc'|exact Hp].
Defined.

(** A stale answer is refused. *)
Local Abbreviation late := (run_api sample_clock (ApiAdmitCommand answer 20) sample_claimed).
Example late_fails : fst late = Err command_stale.
Proof. vm_compute. reflexivity. Qed.

Local Abbreviation answering := (admit_controller_command sample_clock answer 20 sample_asked).
Definition receipt_of (r : result ControllerCommandReceipt) : option ControllerCommandReceipt :=
  match r with Ok x => Some x | Err _ => None end.
Lemma receipt_of_eq r x : receipt_of r = Some x -> r = Ok x.
Proof. destruct r; [by intros [= ->]|done]. Qed.
Example answering_runs :
  is_none (receipt_at (cc_command_id answer) sample_asked) = true /\
  is_some (receipt_of (fst answering)) = true.
Proof. vm_compute. split; reflexivity. Qed.
Lemma not_received : receipt_at (cc_command_id answer) sample_asked = None.
Proof.
  destruct answering_runs as [Hn _]. by destruct (receipt_at (cc_command_id answer) sample_asked).
Qed.
Lemma command_fenced_witness :
  exists c c', map_get "key" (st_checkpoints (snd answering)) = Some c' /\
    commanded c answer 20 c'.
Proof.
  destruct (receipt_of (fst answering)) as [x|] eqn:E;
    [|pose proof (proj2 answering_runs) as Hr; rewrite E in Hr; discriminate Hr].
  destruct (command_fenced sample_clock answer 20 sample_asked _ x asked_ok not_received
    (run_split _ _ _ (receipt_of_eq _ _ E))) as (c & c' & _ & Hc' & Hm & _).
  exists c, c'. split; [exact Hc'|exact Hm].
Defined.
Lemma command_once_witness :
  exists r, admit_controller_command sample_clock answer 40 (snd answering) = (Ok r, snd answering).
Proof.
  destruct (receipt_of (fst answering)) as [x|] eqn:E;
    [|pose proof (proj2 answering_runs) as Hr; rewrite E in Hr; discriminate Hr].
  destruct (command_once sample_clock answer 20 sample_asked _ _ x asked_ok not_received
    (run_split _ _ _ (receipt_of_eq _ _ E)) (rtc_refl _ _)) as (r & wake & _ & Hr & _).
  exists r. exact (proj1 (Hr sample_clock 40%N)).
Defined.

(** The notification of the question is claimed, then claimed again after its
    lease ran out. *)
Lemma present {A B} (f : A -> B) (o : option A) (b : B) : f <$> o = Some b -> exists a, o = Some a.
Proof. destruct o as [a|]; [by exists a|done]. Qed.
Definition note_of (s : Store) : option HostInteractionNotificationRecord :=
  snd <$> head (lg_notifications (st_ledger s)).
Definition note_id : string := default "" (nr_notification_id <$> note_of sample_asked).
Definition note_digest : string := default "" (nr_payload_digest <$> note_of sample_asked).
Definition note_claim (token : string) (lease now : N) : ApiOp :=
  ApiClaimNotification note_id note_digest token lease now.
Definition noted : Store := snd (run_api sample_clock (note_claim "first" 100 50) sample_asked).
Definition noted_again : Store := snd (run_api sample_clock (note_claim "second" 300 200) noted).
Example notes_run : nr_attempt <$> notification_at note_id noted = Some 1%N /\
  nr_attempt <$> notification_at note_id noted_again = Some 2%N.
Proof. vm_compute. repeat split. Qed.
Lemma noted_ok : api_ok noted.
Proof. exact (stepped (eq "") sample_clock (note_claim "first" 100 50) _ asked_ok). Qed.
Lemma noted_step kept : api_step kept noted noted_again.
Proof. exact (step_to kept sample_clock (note_claim "second" 300 200) _ _ eq_refl). Qed.
Lemma notification_settles_witness :
  notification_collision \/
  exists n n', notification_at note_id noted = Some n /\ notification_at note_id noted_again = Some n' /\
    (nr_attempt n <= nr_attempt n')%N.
Proof.
  destruct (present nr_attempt (notification_at note_id noted) 1%N (proj1 notes_run)) as [n E].
  destruct (notification_settles note_id n noted noted_again noted_ok E (rtc_once _ _ (noted_step _)))
    as [Hc|(n' & Hn' & _ & Ha & _)]; [left; exact Hc|right].
  exists n, n'. split; [exact E|]. split; [exact Hn'|exact Ha].
Defined.

(** The wake of the answer is claimed and its delivery is in doubt. *)
Definition wake_claimed : Store :=
  snd (run_api sample_clock (ApiClaimWake "answer" (cc_command_digest answer) "worker" 100 50)
         sample_answered).
Definition wake_doubtful : Store :=
  snd (run_api sample_clock
         (ApiCompleteWake "answer" (cc_command_digest answer) "worker" 1 "ambiguous") wake_claimed).
Example wakes_run : rc_outbox_state <$> receipt_at "answer" sample_answered = Some "pending" /\
  rc_outbox_state <$> receipt_at "answer" wake_claimed = Some "claimed" /\
  rc_outbox_state <$> receipt_at "answer" wake_doubtful = Some "ambiguous".
Proof. vm_compute. repeat split. Qed.
Lemma wake_claimed_ok : api_ok wake_claimed.
Proof.
  exact (stepped (eq "") sample_clock
    (ApiClaimWake "answer" (cc_command_digest answer) "worker" 100 50) _ answered_ok).
Qed.
Lemma wake_doubtful_ok : api_ok wake_doubtful.
Proof.
  exact (stepped (eq "") sample_clock
    (ApiCompleteWake "answer" (cc_command_digest answer) "worker" 1 "ambiguous") _ wake_claimed_ok).
Qed.
Lemma wake_settles_witness :
  exists e, reconcile_controller_command_wake "answer" (cc_command_digest answer) "retry" wake_doubtful
    = (Err e, wake_doubtful).
Proof.
  destruct (present rc_outbox_state (receipt_at "answer" wake_doubtful) "ambiguous"
    (proj2 (proj2 wakes_run))) as [r E].
  destruct (wake_settles "answer" r wake_doubtful wake_doubtful wake_doubtful_ok E (rtc_refl _ _))
    as (r' & _ & _ & _ & _ & _ & _ & He).
  exact (He (cc_command_digest answer)).
Defined.

Lemma toy_outbox_id id digest : is_ok (controller_receipt_outbox_id id digest) = true.
Proof. reflexivity. Qed.
Lemma wakes_reaped_witness :
  exists l s', reap_controller_command_wakes "key" 100 wake_claimed = (Ok l, s') /\
    map wr_command_id l = map snd (wake_candidates (st_ledger wake_claimed) "key" 100).
Proof.
  destruct (wakes_reaped "key" 100 wake_claimed wake_claimed_ok toy_outbox_id) as (l & s' & Hr & Hl & _).
  exists l, s'. split; [exact Hr|exact Hl].
Defined.

Local Abbreviation asking := (produce_host_interaction sample_clock ask ask_context sample_claimed).
Definition value_of {A} (r : result A) : option A := match r with Ok x => Some x | Err _ => None end.
Lemma value_of_eq {A} (r : result A) x : value_of r = Some x -> r = Ok x.
Proof. destruct r; [by intros [= ->]|done]. Qed.
Example asking_runs : (ho_status <$> value_of (fst asking)) = Some "admitted".
Proof. vm_compute. reflexivity. Qed.
Lemma interaction_admitted_once_witness :
  snd (produce_host_interaction sample_clock ask ask_context (snd asking)) = snd asking.
Proof.
  destruct (value_of (fst asking)) as [o|] eqn:E;
    [|pose proof asking_runs as Hr; rewrite E in Hr; discriminate Hr].
  destruct (interaction_admitted_once sample_clock ask ask_context sample_claimed _ o claimed_ok
    (run_split _ _ _ (value_of_eq _ _ E))) as [[Hs _]|(_ & _ & _ & Hrep)].
  - pose proof asking_runs as Hr. rewrite E in Hr. cbn in Hr. congruence.
  - exact (Hrep _ sample_clock ask_context (rtc_refl _ _) eq_refl).
Defined.

Local Abbreviation recovering :=
  (claim_and_consume_host_interaction_response sample_clock recovery 30 sample_answered).
Example recovering_runs : (rr_kind <$> value_of (fst recovering)) = Some "applied".
Proof. vm_compute. reflexivity. Qed.
Lemma response_consumed_once_witness :
  snd (claim_and_consume_host_interaction_response sample_clock recovery 40 (snd recovering))
  = snd recovering.
Proof.
  destruct (value_of (fst recovering)) as [res|] eqn:E;
    [|pose proof recovering_runs as Hr; rewrite E in Hr; discriminate Hr].
  destruct (response_consumed_once sample_clock recovery 30 sample_answered _ res answered_ok
    (run_split _ _ _ (value_of_eq _ _ E))) as [[Hs _]|(_ & _ & Hrep)].
  - pose proof recovering_runs as Hr. rewrite E in Hr. cbn in Hr. congruence.
  - exact (proj1 (proj2 (Hrep _ (rtc_refl _ _)) sample_clock recovery 40%N eq_refl)).
Defined.

Lemma deletion_complete_witness :
  map_get "key" (st_checkpoints (snd (delete_checkpoint "key" sample_answered))) = None.
Proof.
  pose proof (proj1 (deletion_complete "key" sample_answered answered_ok)) as Hc.
  destruct (map_get "key" (st_checkpoints (snd (delete_checkpoint "key" sample_answered)))) as [c|] eqn:E;
    [|reflexivity].
  exfalso. exact (proj2 (proj1 (Hc "key" c) E) eq_refl).
Defined.

(** A started call is deferred, then resolved. *)
Lemma core_step kept clock op s : api_step kept s (snd (run_op clock op s)).
Proof. exact (as_op kept s clock (ApiCore op)). Qed.
Lemma deferring_step kept : api_step kept sample_store sample_deferred.
Proof. unfold sample_deferred. apply core_step. Qed.
Lemma deferred_store_ok : api_ok sample_deferred.
Proof.
  assert (Hs : api_ok sample_store).
  { split; [exact sample_store_ok|exact ledger_ok_default|].
    repeat split; apply keys_sorted_wf; reflexivity. }
  exact (step_api_ok (eq "") sample_store sample_deferred (deferring_step (eq "")) Hs).
Qed.
Local Abbreviation resolving :=
  (resolve_deferred sample_clock Deferred.sample_handle sample_result sample_deferred).
Lemma deferred_resolution_once_witness :
  exists receipt,
    resolve_deferred sample_clock Deferred.sample_handle sample_result (snd resolving)
    = (Ok (Replayed receipt), snd resolving).
Proof.
  destruct (applied_receipt (fst resolving)) as [x|] eqn:E;
    [|pose proof sample_resolution_runs as Hr; rewrite E in Hr; discriminate Hr].
  exists x.
  exact (proj1 (deferred_resolution_once sample_clock Deferred.sample_handle sample_result
    sample_deferred _ _ (AppliedReady x) x deferred_store_ok (run_split _ _ _ (applied_receipt_eq _ _ E))
    (or_introl eq_refl) (rtc_refl _ _)) sample_clock).
Defined.
End Examples.
