(* ===== verification/Driver.v ===== *)
(** * The checkpoint resume driver: state, persistence and recovery

    [runtime/checkpoint_resume.rs], [checkpoint_resume/persistence.rs] and
    [checkpoint_resume/recovery.rs]: the controller a process keeps for the run
    it executes.  It holds a copy of the checkpoint, changes it in memory and
    writes it to the store, and it is the only part of the runtime that calls
    the outside world: it delivers events, asks the host to reconcile, and
    (in [DriverOps.v]) calls the model.

    A driver operation has type [D A]: it takes the [World] (the driver, the
    store, and a log of what reached the outside) and returns a result and the
    world; like the source it keeps what it changed before it failed.
    Everything the driver observes but does not control is a function of the
    number of the observation: the clocks, fresh identifiers, the event sink,
    the heartbeat thread, and [host_interfere], what the other processes did to
    the store before the driver's next call. *)

From Stdlib Require Import Ascii String NArith Lia.
From stdpp Require Import base strings list sets gmap pretty.
From S2P Require Import Prelude Json Canonical CheckpointTypes ToolResult Journal TokenUsage.
From S2P Require Import Budget BudgetWire Records ResultCodec Events HostInteraction Controller.
From S2P Require Import Checkpoint History Deferred Transitions Store StoreController.
From S2P Require Import ToolPolicy Settings ModelCalls.

(** ** Configuration *)

Inductive AmbiguousModelPolicy := RequireModelReconciliation | RetryWithDuplicateRisk.
#[global] Instance AmbiguousModelPolicy_eq_dec : EqDecision AmbiguousModelPolicy.
Proof. solve_decision. Defined.
Inductive AmbiguousToolPolicy := RequireToolReconciliation | RetryIdempotentOnly | SurfaceToModel.
#[global] Instance AmbiguousToolPolicy_eq_dec : EqDecision AmbiguousToolPolicy.
Proof. solve_decision. Defined.

(** [store] only tells whether a store is configured; the store itself is part
    of the world. *)
Record CheckpointConfig := {
  cf_store : bool;
  cf_store_ref : option CapabilityRef;
  cf_key : option string;
  cf_resume_policy : ResumePolicy;
  cf_ambiguous_model_policy : AmbiguousModelPolicy;
  cf_ambiguous_tool_policy : AmbiguousToolPolicy;
  cf_required_extension_namespaces : list string;
  cf_max_extension_state_bytes : N;
  cf_credential_slots : list string;
  cf_capability_refs : list (string * CapabilityRef)
}.

Fixpoint slots_ordered (previous : option string) (slots : list string) : result unit :=
  match slots with
  | [] => Ok tt
  | slot :: rest =>
      do? map_err (validate_pointer slot) "checkpoint_credential_slots_invalid" ;;
      fail_if (is_some_and previous (fun p => match utf16_cmp p slot with Lt => false | _ => true end))
      with "checkpoint_credential_slots_invalid" ;;
      slots_ordered (Some slot) rest
  end.
Fixpoint namespaces_distinct (seen : list string) (namespaces : list string) : result unit :=
  match namespaces with
  | [] => Ok tt
  | namespace :: rest =>
      do? validate_extension_namespace namespace ;;
      fail_if (existsb (String.eqb namespace) seen) with "checkpoint_extension_namespace_duplicate" ;;
      namespaces_distinct (namespace :: seen) rest
  end.
Fixpoint windows_sorted (l : list string) : bool :=
  match l with
  | a :: (b :: _) as rest => (match String.compare a b with Gt => false | _ => true end) && windows_sorted rest
  | _ => true
  end.
Definition config_validate (c : CheckpointConfig) : result unit :=
  fail_if (Bool.eqb (cf_store c) (is_some (cf_store_ref c)))
  with "checkpoint_store_selection_invalid" ;;
  do? match cf_store_ref c with Some r => validate_capability_ref r | None => Ok tt end ;;
  do? match cf_key c, cf_resume_policy c with
      | None, New => Ok tt
      | None, _ => Err "checkpoint_key_required"
      | Some key, _ => validate_checkpoint_key key
      end ;;
  fail_if (MAX_WIRE_INTEGER <? cf_max_extension_state_bytes c)%N
  with "checkpoint_extension_limit_invalid" ;;
  do? slots_ordered None (cf_credential_slots c) ;;
  do? namespaces_distinct [] (cf_required_extension_namespaces c) ;;
  fail_if (negb (windows_sorted (cf_required_extension_namespaces c)))
  with "checkpoint_extension_namespace_invalid" ;;
  try_for_each (fun kv => do? validate_capability_slot kv.1 ;; validate_capability_ref kv.2)
    (cf_capability_refs c).

(** ** The driver *)

Definition DEFAULT_CHECKPOINT_LEASE_MS : N := 300000.

(** A [CheckpointExtension]; its snapshot and its restore are the host's. *)
Record Extension := { x_version : string; x_required : bool }.

Record Driver := {
  d_config : CheckpointConfig;
  d_task_id : string;
  d_run_id : string;
  d_trace_id : string;
  d_agent_name : string;
  d_run_definition : Value;
  d_run_definition_digest : string;
  d_initial_messages : list Message;
  d_initial_shared_state : object;
  d_initial_budget_usage : option BudgetUsageSnapshot;
  d_extensions : list (string * Extension);
  d_preloaded_checkpoint : option Checkpoint;
  d_checkpoint : option Checkpoint;
  d_created : bool;
  d_first_claim_is_recovery : bool;
  d_owned_claim_token : option string;
  d_lease_duration_ms : N;
  (* the lease the heartbeat knows of, while it runs *)
  d_heartbeat : option N;
  d_model_accounting : option ModelCallCoordinator
}.
Definition driver_eta (d : Driver) : Driver :=
  {| d_config := d_config d; d_task_id := d_task_id d; d_run_id := d_run_id d;
     d_trace_id := d_trace_id d; d_agent_name := d_agent_name d;
     d_run_definition := d_run_definition d; d_run_definition_digest := d_run_definition_digest d;
     d_initial_messages := d_initial_messages d; d_initial_shared_state := d_initial_shared_state d;
     d_initial_budget_usage := d_initial_budget_usage d; d_extensions := d_extensions d;
     d_preloaded_checkpoint := d_preloaded_checkpoint d; d_checkpoint := d_checkpoint d;
     d_created := d_created d; d_first_claim_is_recovery := d_first_claim_is_recovery d;
     d_owned_claim_token := d_owned_claim_token d; d_lease_duration_ms := d_lease_duration_ms d;
     d_heartbeat := d_heartbeat d; d_model_accounting := d_model_accounting d |}.

Section DriverSetters.
Implicit Type d : Driver.
Definition set_d_config d (v : CheckpointConfig) : Driver := ltac:(set_field driver_eta d_config d v).
Definition set_d_preloaded d (v : option Checkpoint) : Driver :=
  ltac:(set_field driver_eta d_preloaded_checkpoint d v).
Definition set_d_checkpoint d (v : option Checkpoint) : Driver :=
  ltac:(set_field driver_eta d_checkpoint d v).
Definition set_d_created d (v : bool) : Driver := ltac:(set_field driver_eta d_created d v).
Definition set_d_recovery d (v : bool) : Driver :=
  ltac:(set_field driver_eta d_first_claim_is_recovery d v).
Definition set_d_owned d (v : option string) : Driver :=
  ltac:(set_field driver_eta d_owned_claim_token d v).
Definition set_d_lease d (v : N) : Driver := ltac:(set_field driver_eta d_lease_duration_ms d v).
Definition set_d_heartbeat d (v : option N) : Driver := ltac:(set_field driver_eta d_heartbeat d v).
Definition set_d_accounting d (v : option ModelCallCoordinator) : Driver :=
  ltac:(set_field driver_eta d_model_accounting d v).
End DriverSetters.

(** [CheckpointControllerRequest] and [CheckpointResumeController::new]. *)
Record ControllerRequest := {
  cq_config : CheckpointConfig;
  cq_task_id : string;
  cq_run_id : string;
  cq_trace_id : string;
  cq_agent_name : string;
  cq_run_definition : Value;
  cq_run_definition_digest : string;
  cq_initial_messages : list Message;
  cq_initial_shared_state : object;
  cq_initial_budget_usage : option BudgetUsageSnapshot;
  cq_extensions : list (string * Extension);
  cq_preloaded_checkpoint : option Checkpoint
}.
Fixpoint register_extensions (known : list (string * Extension)) (l : list (string * Extension))
    : result (list (string * Extension)) :=
  match l with
  | [] => Ok known
  | (namespace, extension) :: rest =>
      fail_if (map_contains_key namespace known) with "checkpoint_extension_namespace_duplicate" ;;
      register_extensions (map_insert namespace extension known) rest
  end.
Definition controller_new (q : ControllerRequest) : result Driver :=
  do? config_validate (cq_config q) ;;
  fail_if (negb (cf_store (cq_config q))) with "checkpoint_store_unavailable" ;;
  let? extensions := register_extensions [] (cq_extensions q) in
  Ok {| d_config := cq_config q; d_task_id := cq_task_id q; d_run_id := cq_run_id q;
        d_trace_id := cq_trace_id q; d_agent_name := cq_agent_name q;
        d_run_definition := cq_run_definition q;
        d_run_definition_digest := cq_run_definition_digest q;
        d_initial_messages := cq_initial_messages q;
        d_initial_shared_state := cq_initial_shared_state q;
        d_initial_budget_usage := cq_initial_budget_usage q; d_extensions := extensions;
        d_preloaded_checkpoint := cq_preloaded_checkpoint q; d_checkpoint := None;
        d_created := false; d_first_claim_is_recovery := false; d_owned_claim_token := None;
        d_lease_duration_ms := DEFAULT_CHECKPOINT_LEASE_MS; d_heartbeat := None;
        d_model_accounting := None |}.

(** ** The outside world *)

Class Host := {
  host_interfere : nat -> Store -> Store;
  host_now : nat -> result N;
  host_stamp : nat -> Number;
  host_uuid : nat -> string;
  (* the heartbeat thread: whether it starts, the error it recorded, and the
     lease it has renewed the one last known to *)
  host_spawn : nat -> bool;
  host_beat_error : nat -> option string;
  host_beat_expiry : nat -> N -> N;
  host_sink : nat -> RunEvent -> result unit;
  host_event_store : option (nat -> string -> string -> RunEvent -> result EventCursor);
  host_reconcile : option (nat -> ResumeObservation -> result ReconciliationDecision);
  host_snapshot : nat -> string -> result Value;
  host_restore : nat -> string -> Value -> result unit
}.

(** What reaches the outside: the store after each call, an event the sink
    accepted, a call of the model. *)
Inductive Effect :=
| StoreAfter (s : Store)
| Delivered (e : RunEvent)
| Invoked (operation_id : string) (attempt : N).

Record World := {
  w_driver : Driver;
  w_store : Store;
  w_tick : nat;
  w_log : list Effect
}.

Definition D (A : Type) : Type := World -> result A * World.
#[global] Instance D_ret : MRet D := fun A a w => (Ok a, w).
#[global] Instance D_bind : MBind D := fun A B f m w =>
  match m w with
  | (Ok a, w') => f a w'
  | (Err e, w') => (Err e, w')
  end.
Definition d_lift {A} (r : result A) : D A := fun w => (r, w).
Definition d_throw {A} (e : string) : D A := fun w => (Err e, w).
Definition d_reject (b : bool) (e : string) : D unit := if b then d_throw e else mret tt.
(** Run to the result, errors included. *)
Definition d_try {A} (m : D A) : D (result A) := fun w => let '(r, w') := m w in (Ok r, w').
Definition get_driver : D Driver := fun w => (Ok (w_driver w), w).
Definition modify_driver (f : Driver -> Driver) : D unit := fun w =>
  (Ok tt, {| w_driver := f (w_driver w); w_store := w_store w; w_tick := w_tick w;
             w_log := w_log w |}).
Definition tick : D nat := fun w =>
  (Ok (w_tick w), {| w_driver := w_driver w; w_store := w_store w; w_tick := S (w_tick w);
                     w_log := w_log w |}).
Definition emit (x : Effect) : D unit := fun w =>
  (Ok tt, {| w_driver := w_driver w; w_store := w_store w; w_tick := w_tick w;
             w_log := w_log w ++ [x] |}).
(** [for x in l { f(x)? }]. *)
Fixpoint d_for {A} (f : A -> D unit) (l : list A) : D unit :=
  match l with [] => mret tt | x :: r => f x;; d_for f r end.

Section Driver.
Context `{Env} `{StrictJson} `{Host}.

(** A call of the store: other processes go first. *)
Definition call {A} (m : (string -> Number) -> M A) : D A := fun w =>
  let n := w_tick w in
  let '(r, s) := m (fun _ => host_stamp n) (host_interfere n (w_store w)) in
  (r, {| w_driver := w_driver w; w_store := s; w_tick := S n; w_log := w_log w ++ [StoreAfter s] |}).
Definition now_ms : D N := n ← tick; d_lift (host_now n).

(** ** The local checkpoint ([persistence.rs]) *)

Definition require_checkpoint : D Checkpoint :=
  d ← get_driver; d_lift (ok_or (d_checkpoint d) "checkpoint_not_admitted").
Definition put_local (c : Checkpoint) : D unit := modify_driver (fun d => set_d_checkpoint d (Some c)).
(** [let checkpoint = self.require_checkpoint_mut()?; ...]. *)
Definition with_checkpoint (f : Checkpoint -> Checkpoint) : D unit :=
  c ← require_checkpoint; put_local (f c).
Definition checkpoint_key : D string := c ← require_checkpoint; mret (cp_checkpoint_key c).

Definition reload : D unit :=
  key ← checkpoint_key;
  loaded ← call (fun _ => load_checkpoint key);
  modify_driver (fun d => set_d_checkpoint d loaded);;
  d_reject (is_none loaded) "checkpoint_not_found".

(** ** Leases and heartbeat *)

Definition lease_lost : string := "checkpoint_lease_lost".
Definition claim_active : string := "checkpoint_claim_active".
Definition store_conflict : string := "checkpoint_store_conflict".
Definition journal_mismatch : string := "checkpoint_journal_integrity_mismatch".

(** [heartbeat.lease_expires_at_ms.load(..).or(checkpoint.lease_expires_at_ms)]. *)
Definition known_expiry (lease : option N) : D (option N) :=
  d ← get_driver;
  match d_heartbeat d with
  | Some expiry => n ← tick; mret (Some (host_beat_expiry n expiry))
  | None => mret lease
  end.
Definition heartbeat_error : D (option string) :=
  d ← get_driver;
  match d_heartbeat d with Some _ => n ← tick; mret (host_beat_error n) | None => mret None end.

Definition assert_heartbeat : D unit :=
  failed ← heartbeat_error;
  match failed with
  | Some e => d_throw e
  | None =>
      d ← get_driver;
      match d_checkpoint d with
      | None => mret tt
      | Some c =>
          match cp_claim_token c with
          | None => mret tt
          | Some claim_token =>
              d_reject (negb (opt_is (d_owned_claim_token d) claim_token)) lease_lost;;
              known ← known_expiry (cp_lease_expires_at_ms c);
              expiry ← d_lift (ok_or known lease_lost);
              now ← now_ms;
              d_reject (expiry <=? now)%N lease_lost
          end
      end
  end.

Definition stop_heartbeat : D unit := modify_driver (fun d => set_d_heartbeat d None).
Definition start_heartbeat : D unit :=
  stop_heartbeat;;
  c ← require_checkpoint;
  _ ← d_lift (ok_or (cp_claim_token c) claim_active);
  expiry ← d_lift (ok_or (cp_lease_expires_at_ms c) claim_active);
  n ← tick;
  d_reject (negb (host_spawn n)) lease_lost;;
  modify_driver (fun d => set_d_heartbeat d (Some expiry)).

Definition renew_heartbeat_once (renew : N -> N -> M CheckpointRenewalOutcome)
    (lease_duration_ms known : N) : D (option N) :=
  now ← now_ms;
  d_reject (known <=? now)%N lease_lost;;
  expiry ← d_lift (ok_or (checked_add now lease_duration_ms) "checkpoint_claim_invalid");
  outcome ← d_try (call (fun _ => renew expiry now));
  match outcome with
  | Ok (ClaimLost _) => d_throw lease_lost
  | Ok _ =>
      observed ← now_ms;
      if (known <=? observed)%N || (expiry <=? observed)%N then d_throw lease_lost
      else mret (Some expiry)
  | Err _ =>
      observed ← now_ms;
      if (observed <? known)%N then mret None else d_throw lease_lost
  end.

Definition renew_claim_before_dispatch : D unit :=
  assert_heartbeat;;
  c ← require_checkpoint;
  claim_token ← d_lift (ok_or (cp_claim_token c) claim_active);
  known ← known_expiry (cp_lease_expires_at_ms c);
  known ← d_lift (ok_or known claim_active);
  d ← get_driver;
  renewed ← renew_heartbeat_once (renew_checkpoint_claim (cp_checkpoint_key c) claim_token)
              (d_lease_duration_ms d) known;
  expiry ← d_lift (ok_or renewed lease_lost);
  (* [fetch_max] on what the heartbeat thread left there *)
  n ← tick;
  modify_driver (fun d => set_d_heartbeat d
    ((fun e => N.max (host_beat_expiry n e) expiry) <$> d_heartbeat d));;
  with_checkpoint (fun c => set_lease c (Some expiry));;
  reload;;
  c ← require_checkpoint;
  d_reject (cp_cancel_requested c) "checkpoint_cancel_requested".

(** ** Extensions *)

Fixpoint snapshot_each (required : list string) (extensions : list (string * Extension))
    (acc : list (string * ExtensionStateEntry)) : D (list (string * ExtensionStateEntry)) :=
  match extensions with
  | [] => mret acc
  | (namespace, x) :: rest =>
      n ← tick;
      state ← d_lift (host_snapshot n namespace);
      snapshot_each required rest
        (map_insert namespace
           {| xs_version := x_version x;
              xs_required := x_required x || existsb (String.eqb namespace) required;
              xs_state := state |} acc)
  end.
Definition keep_entry (acc : list (string * ExtensionStateEntry)) (kv : string * ExtensionStateEntry)
    : list (string * ExtensionStateEntry) :=
  if map_contains_key kv.1 acc then acc else map_insert kv.1 kv.2 acc.
Definition snapshot_extensions_into (c : Checkpoint) : D Checkpoint :=
  d ← get_driver;
  snapshot ← snapshot_each (cf_required_extension_namespaces (d_config d)) (d_extensions d) [];
  let snapshot := fold_left keep_entry (cp_extension_state c) snapshot in
  d_lift (validate_extension_state_size snapshot (cf_max_extension_state_bytes (d_config d)));;
  mret (set_extension_state c snapshot).
Definition snapshot_extensions : D unit :=
  c ← require_checkpoint; c ← snapshot_extensions_into c; put_local c.

Definition extension_missing : string := "checkpoint_extension_missing".
Definition restore_one (kv : string * ExtensionStateEntry) : D unit :=
  d ← get_driver;
  match map_get kv.1 (d_extensions d) with
  | None => d_reject (xs_required kv.2) extension_missing
  | Some x =>
      d_reject (negb (String.eqb (x_version x) (xs_version kv.2)))
        "checkpoint_extension_version_mismatch";;
      n ← tick;
      d_lift (host_restore n kv.1 (xs_state kv.2))
  end.
Definition restore_extensions : D unit :=
  c ← require_checkpoint;
  d_for restore_one (cp_extension_state c);;
  d ← get_driver;
  d_reject (existsb (fun namespace => negb (map_contains_key namespace (cp_extension_state c)))
              (cf_required_extension_namespaces (d_config d))) extension_missing.

(** ** Writing the checkpoint *)

Definition progress : D unit :=
  assert_heartbeat;;
  snapshot_extensions;;
  c ← require_checkpoint;
  claim_token ← d_lift (ok_or (cp_claim_token c) claim_active);
  ok ← call (fun _ => progress_checkpoint c claim_token (cp_revision c));
  d_reject (negb ok) store_conflict;;
  reload.

(** [retained_cycles]: the cycles that are not archived yet. *)
Definition retained_cycles (c : Checkpoint) (cycles : list CycleRecord) : list CycleRecord :=
  let cutoff := if (0 <? h_sequence (cp_history c))%N then cr_index <$> head (cp_cycles c) else None in
  List.filter (fun cycle => is_none_or cutoff (fun n => (n <=? cr_index cycle)%N)) cycles.
Definition refresh_snapshot (messages : list Message) (cycles : list CycleRecord)
    (shared_state : object) (budget_usage : option BudgetUsageSnapshot) : D unit :=
  with_checkpoint (fun c =>
    set_budget_usage (set_shared_state (set_cycles (set_messages c messages)
      (retained_cycles c cycles)) shared_state) budget_usage);;
  snapshot_extensions.
Definition set_budget_snapshot (budget_usage : option BudgetUsageSnapshot) : D unit :=
  modify_driver (fun d => set_d_checkpoint d
    ((fun c => set_budget_usage c budget_usage) <$> d_checkpoint d)).

Definition definition_mismatch : string := "checkpoint_definition_mismatch".
Definition validate_existing_definition (c : Checkpoint) : D unit :=
  stored ← d_lift (run_definition_digest (cp_run_definition c));
  d_reject (negb (String.eqb (cp_run_definition_digest c) stored)) definition_mismatch;;
  d ← get_driver;
  current ← d_lift (run_definition_digest (d_run_definition d));
  d_reject (negb (String.eqb (d_run_definition_digest d) current)) definition_mismatch;;
  d_reject (negb (value_eqb (cp_run_definition c) (d_run_definition d))) definition_mismatch.
Definition refresh_authoritative : D Checkpoint :=
  reload;; c ← require_checkpoint; validate_existing_definition c;; require_checkpoint.

Definition model_request_projection (r : LlmRequest) (backend model : string) : D Value :=
  c ← require_checkpoint;
  d_reject (trim_is_empty backend || trim_is_empty model) journal_mismatch;;
  mret (model_projection (unwrap_or (value_get (cp_run_definition c) "output_schema") Null)
          r backend model).

(** ** Looking up operations *)

Definition journal_of (kind : OperationKind) (c : Checkpoint) : list OperationJournalEntry :=
  match kind with Model => cp_model_call_journal c | Tool => cp_tool_journal c end.
Definition set_journal (kind : OperationKind) (c : Checkpoint) (l : list OperationJournalEntry)
    : Checkpoint :=
  match kind with Model => set_model_call_journal c l | Tool => set_tool_journal c l end.
Definition is_operation (operation_id : string) (e : OperationJournalEntry) : bool :=
  String.eqb (j_operation_id e) operation_id.
Definition is_tool_call (cycle_index : N) (tool_call_id : string) (e : OperationJournalEntry) : bool :=
  (j_cycle_index e =? cycle_index)%N && opt_is (j_tool_call_id e) tool_call_id.

Definition find_operation (kind : OperationKind) (operation_id : string)
    : D (option OperationJournalEntry) :=
  d ← get_driver;
  mret (d_checkpoint d ≫= fun c => List.find (is_operation operation_id) (journal_of kind c)).
Definition find_tool_call (cycle_index : N) (tool_call_id : string)
    : D (option OperationJournalEntry) :=
  d ← get_driver;
  mret (d_checkpoint d ≫= fun c => List.find (is_tool_call cycle_index tool_call_id)
                                     (cp_tool_journal c)).
(** [let entry = self.find_..._mut(..)?; ...; entry.validate()?]: the first
    entry that matches is replaced by what the assignments leave of it, also
    when the check that ends them fails. *)
Definition update_first (kind : OperationKind) (select : OperationJournalEntry -> bool)
    (f : OperationJournalEntry -> OperationJournalEntry * result unit) : D unit :=
  c ← require_checkpoint;
  match position select (journal_of kind c) with
  | None => d_throw journal_mismatch
  | Some index =>
      match journal_of kind c !! index with
      | None => d_throw journal_mismatch
      | Some e =>
          let '(e', r) := f e in
          put_local (set_journal kind c (<[index := e']> (journal_of kind c)));;
          d_lift r
      end
  end.
Definition update_operation (kind : OperationKind) (operation_id : string) := 
  update_first kind (is_operation operation_id).
Definition update_tool_call (cycle_index : N) (tool_call_id : string) :=
  update_first Tool (is_tool_call cycle_index tool_call_id).
(** [entry.state = state; entry.validate()?]. *)
Definition assign_state (s : OperationState) (e : OperationJournalEntry)
    : OperationJournalEntry * result unit :=
  let e' := set_state s e in (e', entry_validate e').

Definition has_durable_tool_receipt (cycle_index : N) (tool_call_id : string) : D bool :=
  found ← find_tool_call cycle_index tool_call_id;
  d ← get_driver;
  mret (match found with
        | None => false
        | Some e => is_some_and (d_checkpoint d) (fun c => existsb (fun outbox =>
            opt_is (get_str (ob_event outbox) "type") "tool_call_completed"
            && opt_is (get_str (ob_event outbox) "tool_call_id") tool_call_id
            && opt_is (get_str (ob_event outbox) "operation_id") (j_operation_id e)
            && is_some_and (get_u64 (ob_event outbox) "attempt") (N.eqb (j_attempt e)))
            (cp_event_outbox c))
        end).
Definition deferred_tool_identity (cycle_index : N) (tool_call_id : string)
    : D (option (string * string * N * string)) :=
  found ← find_tool_call cycle_index tool_call_id;
  d ← get_driver;
  mret (e ← found; c ← d_checkpoint d;
        Some (cp_checkpoint_key c, j_operation_id e, j_attempt e, j_request_digest e)).
Definition unresolved_operation : D (option OperationJournalEntry) :=
  d ← get_driver;
  mret (d_checkpoint d ≫= fun c =>
    List.find (fun e => match j_state e with Started | Ambiguous => true | _ => false end)
      (journals c)).

(** ** Events *)

Definition nul : string := String (ascii_of_N 0) EmptyString.
Definition digest32 (source : string) : string := String.substring 0 32 (sha256_hex source).
Definition stable_event_id_for (key event_type : string) (coordinates : list string) : string :=
  "evt_" +:+ digest32 (fold_left (fun s x => s +:+ nul +:+ x) coordinates (key +:+ nul +:+ event_type)).
Definition stable_event_id (event_type : string) (coordinates : list string) : D string :=
  key ← checkpoint_key; mret (stable_event_id_for key event_type coordinates).
Definition tool_idempotency_key (key : string) (cycle_index : N) (call_id : string) : string :=
  "idem_" +:+ digest32 (key +:+ nul +:+ pretty cycle_index +:+ nul +:+ call_id).

Definition outbox_invalid : string := "checkpoint_event_outbox_invalid".
Definition with_event_id (e : RunEvent) (id : string) : result RunEvent :=
  let? id := map_err (event_id_stable id) outbox_invalid in
  Ok {| ev_event_id := id; ev_run_id := ev_run_id e; ev_trace_id := ev_trace_id e;
        ev_session_id := ev_session_id e; ev_parent_event_id := ev_parent_event_id e;
        ev_parent_run_id := ev_parent_run_id e; ev_created_at := ev_created_at e;
        ev_cycle_index := ev_cycle_index e; ev_agent_name := ev_agent_name e;
        ev_metadata := ev_metadata e; ev_payload := ev_payload e;
        ev_extra_fields := ev_extra_fields e |}.
(** [RunEvent::new] draws a random id, which the stable one replaces. *)
Definition checkpoint_event (cycle_index : N) (payload : RunEventPayload) (event_id : string)
    : D RunEvent :=
  d ← get_driver;
  n ← tick;
  d_lift (with_event_id (event_new (host_uuid n) (d_run_id d) (d_trace_id d) (d_agent_name d)
                           (Some cycle_index) (host_stamp n) payload) event_id).

Definition queue_event (c : Checkpoint) (e : RunEvent) : result Checkpoint :=
  let? candidate := outbox_pending (ev_event_id e) (event_to_value e) in
  let? outbox := append_event_outbox_once (cp_event_outbox c) candidate in
  Ok (set_event_outbox c outbox).
Definition queue_outbox_event (e : RunEvent) : D unit :=
  c ← require_checkpoint; c ← d_lift (queue_event c e); put_local c.
Definition queue_outbox_entry (e : EventOutboxEntry) : D unit :=
  c ← require_checkpoint;
  outbox ← d_lift (append_event_outbox_once (cp_event_outbox c) e);
  put_local (set_event_outbox c outbox).

Definition raw_event_cursor (event_id : string) : EventCursor :=
  cursor_new {| cap_id := "events.raw-sink"; cap_version := "1" |}
    (json_object [("event_id", Str event_id)]) (Some event_id).

Definition delivery_failed : string := "checkpoint_event_delivery_failed".
(** The code of [deliver_pending_outbox] below when [fuel] is spent; no run of
    the source has it. *)
Definition out_of_fuel : string := "out_of_fuel".

(** A pending event goes to the event store and to the sink. *)
Definition hand_over (pending : EventOutboxEntry) : D (RunEvent * EventCursor) :=
  d_lift (verify_payload pending);;
  event ← d_lift (ok_or (event_from_value (ob_event pending)) outbox_invalid);
  cursor ← match host_event_store with
           | Some append => n ← tick; d_lift (map_err (append n (ob_event_id pending)
                                        (ob_payload_digest pending) event) delivery_failed)
           | None => mret (raw_event_cursor (ob_event_id pending))
           end;
  n ← tick;
  d_lift (map_err (host_sink n event) delivery_failed);;
  mret (event, cursor).
(** Its delivery is recorded, by this driver or already by another. *)
Definition settle_delivery (pending : EventOutboxEntry) (cursor : EventCursor) : D unit :=
  c ← require_checkpoint;
  recorded ← call (fun _ => record_event_delivery (cp_checkpoint_key c) (cp_claim_token c)
                              (cp_revision c) (ob_event_id pending) (ob_payload_digest pending)
                              cursor);
  reload;;
  if (recorded : bool) then mret tt
  else
    c ← require_checkpoint;
    d_reject (negb (is_some_and (find_entry (ob_event_id pending) (cp_event_outbox c)) (fun e =>
                String.eqb (ob_state e) "delivered"
                && String.eqb (ob_payload_digest e) (ob_payload_digest pending)
                && is_some_and (ob_cursor e) (value_eqb (cursor_to_value cursor)))))
      store_conflict.
(** One turn of the loop: whether there was something to deliver. *)
Definition deliver_one : D bool :=
  c ← require_checkpoint;
  match List.find is_pending (cp_event_outbox c) with
  | None => mret false
  | Some pending =>
      x ← hand_over pending;
      emit (Delivered x.1);;
      settle_delivery pending x.2;;
      mret true
  end.
Fixpoint deliver_pending_outbox (fuel : nat) : D unit :=
  match fuel with
  | O => d_throw out_of_fuel
  | S fuel => more ← deliver_one; if (more : bool) then deliver_pending_outbox fuel else mret tt
  end.

(** The payloads the driver builds and nothing else inspects, in wire form. *)
Definition other_event (tag : string) (fields : list (string * Value)) : RunEventPayload :=
  OtherPayload (map_of_list (("type", Str tag) :: fields)).
Definition checkpoint_created (key : string) : RunEventPayload :=
  other_event "checkpoint_created" [("checkpoint_key", Str key); ("resume_attempt", json_u64 1)].
Definition operation_replayed (key : string) (e : OperationJournalEntry) : RunEventPayload :=
  other_event "operation_replayed"
    [("checkpoint_key", Str key); ("operation_id", Str (j_operation_id e));
     ("operation_kind", kind_to_value (j_kind e)); ("receipt_state", state_to_value (j_state e))].
Definition operation_ambiguous (key : string) (e : OperationJournalEntry) (o : ResumeObservation)
    : RunEventPayload :=
  other_event "operation_ambiguous"
    [("checkpoint_key", Str key); ("operation_id", Str (j_operation_id e));
     ("operation_kind", kind_to_value (j_kind e)); ("risk", Str (obs_risk o));
     ("idempotency_support", opt_to_value idempotency_to_value (obs_idempotency_support o))].
Definition reconciliation_required (key : string) (e : OperationJournalEntry) (o : ResumeObservation)
    : RunEventPayload :=
  other_event "reconciliation_required"
    [("checkpoint_key", Str key); ("operation_id", Str (j_operation_id e));
     ("operation_kind", kind_to_value (j_kind e));
     ("interruption_reason", Str "resume_requires_reconciliation");
     ("resume_observation", observation_to_value o)].
Definition model_retry_duplicate_risk (key : string) (e : OperationJournalEntry) : RunEventPayload :=
  other_event "model_retry_duplicate_risk"
    [("checkpoint_key", Str key); ("operation_id", Str (j_operation_id e));
     ("operation_kind", kind_to_value Model); ("risk", Str "duplicate_model_request_and_cost")].

(** ** Results and reconciliation ([checkpoint_resume.rs]) *)

Definition observation (e : OperationJournalEntry) : ResumeObservation :=
  {| obs_operation_id := j_operation_id e; obs_operation_kind := j_kind e;
     obs_cycle_index := j_cycle_index e; obs_state := Ambiguous;
     obs_risk := match j_kind e with
                 | Model => "duplicate_model_request_and_cost"
                 | Tool => "unknown_tool_side_effect"
                 end;
     obs_idempotency_support := j_idempotency_support e |}.

Definition last_assistant_output (cycles : list CycleRecord) : option string :=
  cr_assistant_message <$>
  List.find (fun c => negb (trim_is_empty (cr_assistant_message c))) (rev cycles).

(** A result that interrupts the run; [Err] is the panic of the token summary
    on a repeated call id. *)
Definition interrupted_result (c : Checkpoint) (status : AgentStatus) (messages : list Message)
    (cycles : list CycleRecord) (shared_state : object) (observations : list ResumeObservation)
    (wait_reason : option string) : result AgentResult :=
  let? usage := summarize_task_token_usage (cp_model_calls c) in
  Ok {| ar_status := status; ar_messages := messages; ar_cycles := cycles;
        ar_completion_reason := None; ar_completion_tool_name := None;
        ar_partial_output := last_assistant_output cycles; ar_budget_usage := cp_budget_usage c;
        ar_budget_exhaustion := None; ar_checkpoint_key := Some (cp_checkpoint_key c);
        ar_resume_observations := observations; ar_final_answer := None;
        ar_wait_reason := wait_reason; ar_error := None; ar_error_code := None;
        ar_shared_state := shared_state; ar_token_usage := usage |}.
Definition reconciliation_result (c : Checkpoint) (o : ResumeObservation) : result AgentResult :=
  interrupted_result c ReconciliationRequiredA (cp_messages c) (cp_cycles c) (cp_shared_state c)
    [o] None.
Definition deferred_result (messages : list Message) (cycles : list CycleRecord)
    (shared_state : object) : D AgentResult :=
  c ← require_checkpoint;
  d_lift (interrupted_result c DeferredA messages cycles shared_state [] (Some "deferred_pending")).

Definition abort_code : string := "operator_abort_with_unknown_outcome".
Definition operator_abort_result (c : Checkpoint) (o : ResumeObservation) : result AgentResult :=
  let? r := reconciliation_result c o in
  Ok {| ar_status := FailedA; ar_messages := ar_messages r; ar_cycles := ar_cycles r;
        ar_completion_reason := Some FailedR; ar_completion_tool_name := ar_completion_tool_name r;
        ar_partial_output := ar_partial_output r; ar_budget_usage := ar_budget_usage r;
        ar_budget_exhaustion := ar_budget_exhaustion r; ar_checkpoint_key := ar_checkpoint_key r;
        ar_resume_observations := ar_resume_observations r; ar_final_answer := ar_final_answer r;
        ar_wait_reason := ar_wait_reason r;
        ar_error := Some {| ae_code := abort_code;
          ae_message := "Operator accepted that the external outcome is unknown.";
          ae_retryable := false |};
        ar_error_code := Some abort_code; ar_shared_state := ar_shared_state r;
        ar_token_usage := ar_token_usage r |}.

Definition decision_invalid : string := "reconciliation_decision_invalid".
Definition panic : string := "panic".
Definition tool_error (tool_call_id content code : string) (metadata : object) : ToolExecutionResult :=
  {| tr_tool_call_id := tool_call_id; tr_content := content; tr_status := Error;
     tr_directive := DContinue; tr_error_code := Some code; tr_metadata := metadata;
     tr_image_url := None; tr_image_path := None; tr_truncated := false;
     tr_truncation_reason := None; tr_original_bytes := None; tr_visible_bytes := None;
     tr_artifact := None; tr_cursor := None |}.
Definition decided_result (e : OperationJournalEntry) (x : ReconciliationDecision)
    : result (option ToolExecutionResult) :=
  match rd_kind x with
  | ReplaySuccess =>
      let? value := ok_or (rd_result x) decision_invalid in
      let? r := map_err (from_dict value) decision_invalid in
      Ok (Some r)
  | RecordFailure =>
      let? error := ok_or (rd_error x) panic in
      Ok (Some (tool_error (unwrap_or (j_tool_call_id e) EmptyString) (re_message error)
                  (re_code error)
                  (if re_retryable error then [("retryable", Bool true)] else [])))
  | _ => Ok None
  end.
Definition reconciliation_tool_result (e : OperationJournalEntry) (x : ReconciliationDecision)
    : result (option ToolExecutionResult) :=
  match j_kind e with
  | Model => Ok None
  | Tool =>
      let? decided := decided_result e x in
      match decided with
      | None => Ok None
      | Some r =>
          fail_if (negb (String.eqb (tr_tool_call_id r) (unwrap_or (j_tool_call_id e) EmptyString)))
          with decision_invalid ;;
          do? validate_definitive_result r ;;
          Ok (Some r)
      end
  end.

(** Assignments to an entry, up to the first that fails. *)
Definition assign {A} (e : OperationJournalEntry) (r : result A)
    (k : A -> OperationJournalEntry * result unit) : OperationJournalEntry * result unit :=
  match r with Ok a => k a | Err code => (e, Err code) end.
Definition checked (e : OperationJournalEntry) : OperationJournalEntry * result unit :=
  (e, entry_validate e).
Definition set_response (s : OperationState) (response : option Value) (error : option OperationError)
    (e : OperationJournalEntry) : OperationJournalEntry :=
  {| j_kind := j_kind e; j_operation_id := j_operation_id e; j_cycle_index := j_cycle_index e;
     j_attempt := j_attempt e; j_state := s; j_request_digest := j_request_digest e;
     j_idempotency_key := j_idempotency_key e; j_identity_key := j_identity_key e;
     j_result_digest := j_result_digest e; j_response := response; j_error := error;
     j_tool_call_id := j_tool_call_id e; j_tool_name := j_tool_name e;
     j_arguments := j_arguments e; j_idempotency_support := j_idempotency_support e;
     j_result := j_result e; j_deferred_handle := j_deferred_handle e;
     j_resume_observation := j_resume_observation e; j_model_operation := j_model_operation e;
     j_backend := j_backend e; j_model := j_model e; j_call_id := j_call_id e |}.
(** The identity key, then the digest of the result, then the rest. *)
Definition assign_receipt (key : string) (e : OperationJournalEntry) (r : ToolExecutionResult)
    (observation : option ResumeObservation) (k : OperationJournalEntry -> OperationJournalEntry * result unit)
    : OperationJournalEntry * result unit :=
  assign e (tool_receipt_identity_key key (j_operation_id e) (j_attempt e)
              (unwrap_or (j_tool_call_id e) EmptyString) (j_request_digest e)) (fun identity =>
  assign (set_receipt (j_state e) (Some identity) (j_result_digest e) (j_result e) (j_error e)
            (j_deferred_handle e) (j_resume_observation e) e) (tool_result_digest r) (fun digest =>
  k (set_receipt (j_state e) (Some identity) (Some digest) (Some (to_dict r)) (j_error e) None
       observation e))).
Definition apply_reconciliation_decision (e : OperationJournalEntry) (x : ReconciliationDecision)
    (key : string) (unknown_tool_observation : option ResumeObservation)
    : OperationJournalEntry * result unit :=
  match rd_kind x with
  | Retry => retry e
  | ReplaySuccess =>
      match j_kind e with
      | Model =>
          checked (set_receipt Succeeded (j_identity_key e) (j_result_digest e) None None
                     (j_deferred_handle e) (j_resume_observation e)
                     (set_response Succeeded (rd_response x) None e))
      | Tool =>
          assign e (let? r := reconciliation_tool_result e x in ok_or r panic) (fun r =>
          assign_receipt key e r None (fun e => checked (set_response Succeeded None None e)))
      end
  | RecordFailure =>
      assign e (ok_or (rd_error x) panic) (fun error =>
      let fail e := checked (set_response Failed None
                      (Some {| oe_code := re_code error; oe_message := re_message error;
                               oe_retryable := re_retryable error |}) e) in
      match j_kind e with
      | Model => fail e
      | Tool =>
          assign e (let? r := reconciliation_tool_result e x in ok_or r panic) (fun r =>
          assign_receipt key e r
            (if String.eqb (re_code error) "tool_outcome_unknown" then unknown_tool_observation
             else None) fail)
      end)
  | AcceptDeferred =>
      assign e (ok_or (rd_handle x) decision_invalid) (fun handle =>
      checked (set_receipt Deferred (j_identity_key e) (j_result_digest e) (j_result e) (j_error e)
                 (Some handle) (j_resume_observation e) e))
  | Defer | CheckpointTypes.Abort => (e, Ok tt)
  end.

Definition checkpoint_status (s : AgentStatus) : result CheckpointStatus :=
  match s with
  | WaitUserA => Ok WaitUserS
  | CompletedA => Ok CompletedS
  | FailedA => Ok FailedS
  | MaxCyclesA => Ok MaxCyclesS
  | _ => Err status_invalid
  end.
Definition is_operator_abort (r : AgentResult) : bool :=
  match or_else (ar_error_code r) (ae_code <$> ar_error r) with
  | Some code => existsb (String.eqb code) [abort_code; "cancelled_with_unknown_outcome";
                                            "lease_lost_with_unknown_outcome"]
  | None => false
  end.

(** ** Model terminals ([operations/model_terminal.rs]) *)

Definition model_identity_from_entry (e : OperationJournalEntry) : result ModelCallIdentity :=
  fail_if (j_kind e <>?? Model) with status_invalid ;;
  let? attempt := ok_or (u32_try_from (j_attempt e)) status_invalid in
  let? cycle_index := ok_or (u32_try_from (j_cycle_index e)) status_invalid in
  let? operation := ok_or (j_model_operation e) status_invalid in
  let? backend := ok_or (j_backend e) status_invalid in
  let? model := ok_or (j_model e) status_invalid in
  let? i := map_err (identity_create (j_operation_id e) attempt operation cycle_index backend model)
              status_invalid in
  fail_if (negb (opt_is (j_call_id e) (mi_call_id i))) with status_invalid ;;
  Ok i.
Definition require_effective_model_identity (i : ModelCallIdentity) (operation : ModelCallOperation)
    (backend model : string) : result unit :=
  fail_if ((mi_operation i <>?? operation) || negb (String.eqb (mi_backend i) backend)
           || negb (String.eqb (mi_model i) model)) with journal_mismatch ;;
  Ok tt.
Definition record_matches (i : ModelCallIdentity) (status : ModelCallStatus) (r : ModelCallRecord)
    : bool :=
  String.eqb (mc_call_id r) (mi_call_id i) && String.eqb (mc_operation_id r) (mi_operation_id i)
  && (mc_attempt r =? mi_attempt i)%N && (mc_operation r =?? mi_operation i)
  && (mc_cycle_index r =? mi_cycle_index i)%N && String.eqb (mc_backend r) (mi_backend i)
  && String.eqb (mc_model r) (mi_model i) && (mc_status r =?? status).
Definition event_matches (i : ModelCallIdentity) (e : RunEvent) : bool :=
  match ev_payload e with
  | ModelCallCompleted p _ | ModelCallFailed p _ _ _ =>
      (ev_cycle_index e =?? Some (mi_cycle_index i)) && String.eqb (mp_call_id p) (mi_call_id i)
      && String.eqb (mp_operation_id p) (mi_operation_id i) && (mp_attempt p =? mi_attempt i)%N
      && (mp_operation p =?? mi_operation i) && String.eqb (mp_backend p) (mi_backend i)
      && String.eqb (mp_model p) (mi_model i)
  | _ => false
  end.
Definition require_model_terminal_identity (e : OperationJournalEntry) (t : ModelCallTerminal)
    : result unit :=
  let? i := model_identity_from_entry e in
  let? status := match j_state e with
                 | Succeeded => Ok CompletedC
                 | Failed => Ok FailedC
                 | Ambiguous => Ok AmbiguousC
                 | _ => Err status_invalid
                 end in
  fail_if (negb (record_matches i status (mt_record t))) with status_invalid ;;
  fail_if (negb (event_matches i (mt_event t))) with status_invalid ;;
  Ok tt.

(** The terminal of a call with its stable event id. *)
Definition set_terminal_event (t : ModelCallTerminal) (e : RunEvent) : ModelCallTerminal :=
  {| mt_record := mt_record t; mt_event := e; mt_budget_exhaustion := mt_budget_exhaustion t;
     mt_budget_event := mt_budget_event t; mt_budget_usage := mt_budget_usage t |}.
Definition stable_model_terminal_event (e : RunEvent) (event_type : string) (i : ModelCallIdentity)
    : D RunEvent :=
  id ← stable_event_id event_type [mi_operation_id i; pretty (mi_attempt i)];
  d_lift (with_event_id e id).
Definition stable_terminal (t : ModelCallTerminal) (event_type : string) (i : ModelCallIdentity)
    : D ModelCallTerminal :=
  e ← stable_model_terminal_event (mt_event t) event_type i; mret (set_terminal_event t e).

(** The id and the time of a fresh event. *)
Definition fresh_stamp : D Stamp := n ← tick; mret (host_uuid n, host_stamp n).
Definition require_accounting (code : string) : D ModelCallCoordinator :=
  d ← get_driver; d_lift (ok_or (d_model_accounting d) code).

(** The record, its event and the budget event are queued on the local
    checkpoint as far as the first that is refused. *)
Definition queue_terminal (t : ModelCallTerminal) : D unit :=
  c ← require_checkpoint;
  d_reject (existsb (fun r => String.eqb (mc_call_id r) (mc_call_id (mt_record t))) (cp_model_calls c))
    status_invalid;;
  let c := set_model_calls c (cp_model_calls c ++ [mt_record t]) in
  put_local (match mt_budget_usage t with Some u => set_budget_usage c (Some u) | None => c end);;
  queue_outbox_event (mt_event t);;
  match mt_budget_event t with Some e => queue_outbox_event e | None => mret tt end.

Context (fuel : nat).

(** The ledger the coordinator shares with its caller is the one of
    [d_model_accounting]. *)
Definition replace_ledger : D unit :=
  c ← require_checkpoint;
  co ← require_accounting status_invalid;
  ledger ← d_lift (map_err (replace_checkpoint (co_ledger co) c) status_invalid);
  modify_driver (fun d => set_d_accounting d (Some (set_co_ledger co ledger))).
Definition commit_model_terminal (operation_id : string) (t : ModelCallTerminal) : D unit :=
  found ← find_operation Model operation_id;
  e ← d_lift (ok_or found status_invalid);
  d_lift (require_model_terminal_identity e t);;
  queue_terminal t;;
  progress;;
  replace_ledger;;
  deliver_pending_outbox fuel.

(** ** Durable events ([recovery.rs]) *)

Definition emit_durable (e : RunEvent) : D unit :=
  queue_outbox_event e;;
  c ← require_checkpoint;
  d_reject (is_none (cp_claim_token c)) claim_active;;
  progress;;
  deliver_pending_outbox fuel.
(** [u32::try_from(..).unwrap_or(u32::MAX)]. *)
Definition u32_saturate (n : N) : N := unwrap_or (u32_try_from n) U32_MAX.
Definition operation_event (tag : string) (e : OperationJournalEntry) (payload : string -> RunEventPayload)
    (coordinates : list string) : D RunEvent :=
  key ← checkpoint_key;
  id ← stable_event_id tag (j_operation_id e :: coordinates);
  checkpoint_event (u32_saturate (j_cycle_index e)) (payload key) id.
Definition emit_ambiguous (e : OperationJournalEntry) (o : ResumeObservation) : D unit :=
  event ← operation_event "operation_ambiguous" e (fun key => operation_ambiguous key e o)
            [pretty (j_attempt e)];
  emit_durable event.
Definition clear_agent (e : RunEvent) : RunEvent :=
  {| ev_event_id := ev_event_id e; ev_run_id := ev_run_id e; ev_trace_id := ev_trace_id e;
     ev_session_id := ev_session_id e; ev_parent_event_id := ev_parent_event_id e;
     ev_parent_run_id := ev_parent_run_id e; ev_created_at := ev_created_at e;
     ev_cycle_index := ev_cycle_index e; ev_agent_name := None; ev_metadata := ev_metadata e;
     ev_payload := ev_payload e; ev_extra_fields := ev_extra_fields e |}.
Definition emit_operation_replayed (e : OperationJournalEntry) : D unit :=
  event ← operation_event "operation_replayed" e (fun key => operation_replayed key e)
            [pretty (j_attempt e)];
  emit_durable (clear_agent event).

Definition acknowledge : D unit :=
  c ← require_checkpoint;
  if is_none (cp_terminal_result c) || cp_terminal_acknowledged c
     || existsb is_pending (cp_event_outbox c)
  then mret tt
  else
    ok ← call (fun _ => acknowledge_terminal (cp_checkpoint_key c) (cp_revision c));
    if (ok : bool) then reload
    else
      reload;;
      c ← require_checkpoint;
      d_reject (negb (cp_terminal_acknowledged c)) store_conflict.

(** ** Suspension *)

Definition suspend_for_observation (e : OperationJournalEntry) (o : ResumeObservation)
    (ambiguity_emitted : bool) : D AgentResult :=
  (if ambiguity_emitted then mret tt else emit_ambiguous e o);;
  event ← operation_event "reconciliation_required" e (fun key => reconciliation_required key e o)
            [pretty (j_attempt e)];
  emit_durable event;;
  with_checkpoint (fun c => set_status c ReconciliationRequiredS);;
  c ← require_checkpoint;
  claim_token ← d_lift (ok_or (cp_claim_token c) claim_active);
  ok ← call (fun _ => suspend_checkpoint c claim_token (cp_revision c));
  d_reject (negb ok) store_conflict;;
  reload;;
  modify_driver (fun d => set_d_owned d None);;
  stop_heartbeat;;
  c ← require_checkpoint;
  d_lift (reconciliation_result c o).
Definition suspend_for (e : OperationJournalEntry) : D AgentResult :=
  suspend_for_observation e (observation e) false.

(** ** Deferred batches *)

(** The driver gives its claim up with the batch. *)
Definition adopt_admission (a : DeferredBatchAdmission) : D DeferredBatchAdmission :=
  put_local (da_checkpoint a);;
  modify_driver (fun d => set_d_recovery (set_d_owned d None) false);;
  stop_heartbeat;;
  deliver_pending_outbox fuel;;
  reload;;
  c ← require_checkpoint;
  mret {| da_checkpoint := c; da_handles := da_handles a |}.
Definition admit_batch (entries : list DeferredBatchEntry) : D DeferredBatchAdmission :=
  c ← require_checkpoint;
  claim_token ← d_lift (ok_or (cp_claim_token c) claim_active);
  claimed_cycle ← d_lift (ok_or (cp_claimed_cycle c) claim_active);
  a ← call (fun clock => store_admit_deferred_batch clock (cp_checkpoint_key c) (cp_revision c)
                           claim_token claimed_cycle entries);
  adopt_admission a.
Definition accept_batch (decisions : list AcceptDeferredDecision) : D DeferredBatchAdmission :=
  c ← require_checkpoint;
  claim_token ← d_lift (ok_or (cp_claim_token c) claim_active);
  claimed_cycle ← d_lift (ok_or (cp_claimed_cycle c) claim_active);
  a ← call (fun clock => store_accept_deferred_batch clock (cp_checkpoint_key c) (cp_revision c)
                           claim_token claimed_cycle decisions);
  adopt_admission a.

(** ** Reconciliation *)

Definition reconciliation_decision (e : OperationJournalEntry) (o : ResumeObservation)
    : D ReconciliationDecision :=
  d ← get_driver;
  match host_reconcile with
  | Some reconcile =>
      n ← tick;
      x ← d_lift (reconcile n o);
      d_lift (decision_validate x);;
      mret x
  | None =>
      if (j_kind e =?? Model) && (j_attempt e <? 2)%N
         && (cf_ambiguous_model_policy (d_config d) =?? RetryWithDuplicateRisk)
      then
        event ← operation_event "model_retry_duplicate_risk" e
                  (fun key => model_retry_duplicate_risk key e) [pretty (j_attempt e + 1)%N];
        emit_durable event;;
        mret decision_retry
      else if (j_kind e =?? Tool) && (cf_ambiguous_tool_policy (d_config d) =?? RetryIdempotentOnly)
              && (j_idempotency_support e =?? Some Supported)
      then mret decision_retry
      else if (j_kind e =?? Tool) && (cf_ambiguous_tool_policy (d_config d) =?? SurfaceToModel)
      then mret (record_failure {| re_code := "tool_outcome_unknown";
                                   re_message := "The tool outcome is unknown.";
                                   re_retryable := false |})
      else mret decision_defer
  end.

(** An operation left in flight becomes ambiguous. *)
Definition ambiguate_model (started : OperationJournalEntry) : D unit :=
  i ← d_lift (model_identity_from_entry started);
  update_operation Model (j_operation_id started) (fun e => transition_to e Ambiguous);;
  co ← require_accounting status_invalid;
  s1 ← fresh_stamp;
  s2 ← fresh_stamp;
  t ← stable_terminal (failed_terminal co s1 s2 i "model_outcome_ambiguous" true None)
        "model_call_failed" i;
  commit_model_terminal (j_operation_id started) t.
Fixpoint ambiguate_entries (l : list OperationJournalEntry)
    : list OperationJournalEntry * result bool :=
  match l with
  | [] => ([], Ok false)
  | e :: r =>
      if j_state e =?? Started then
        let '(e', done) := transition_to e Ambiguous in
        match done with
        | Err code => (e' :: r, Err code)
        | Ok _ => let '(r', changed) := ambiguate_entries r in
                  (e' :: r', let? _ := changed in Ok true)
        end
      else let '(r', changed) := ambiguate_entries r in (e :: r', changed)
  end.
Definition ambiguate_tools : D unit :=
  c ← require_checkpoint;
  let '(journal, changed) := ambiguate_entries (cp_tool_journal c) in
  put_local (set_tool_journal c journal);;
  changed ← d_lift changed;
  if (changed : bool) then progress else mret tt.

(** A settled tool call: the store closes the operation with the receipt. *)
Definition settle_receipt (e : OperationJournalEntry) (r : ToolExecutionResult)
    (observation : option ResumeObservation) (event : RunEvent) : D unit :=
  update_operation (j_kind e) (j_operation_id e) (fun e =>
    (set_receipt (j_state e) (j_identity_key e) (j_result_digest e) (j_result e) (j_error e)
       (j_deferred_handle e) observation e, Ok tt));;
  queue_outbox_event event;;
  assert_heartbeat;;
  c ← require_checkpoint;
  claim_token ← d_lift (ok_or (cp_claim_token c) claim_active);
  ok ← call (fun clock => record_tool_receipt clock c (j_operation_id e) (j_attempt e)
                            (unwrap_or (j_tool_call_id e) EmptyString) (j_request_digest e) r
                            claim_token (cp_revision c) (j_cycle_index e));
  d_reject (negb ok) store_conflict;;
  reload;;
  deliver_pending_outbox fuel.

(** The decision on one ambiguous operation is carried out: retried, replayed
    or failed. *)
Definition resolve_operation (e : OperationJournalEntry) (o : ResumeObservation)
    (x : ReconciliationDecision) : D unit :=
  key ← checkpoint_key;
  let unknown := (rd_kind x =?? RecordFailure) && (j_kind e =?? Tool)
                 && is_some_and (rd_error x) (fun error => String.eqb (re_code error) "tool_outcome_unknown") in
  receipt ← d_lift (reconciliation_tool_result e x);
  (if is_none receipt then
     update_operation (j_kind e) (j_operation_id e) (fun e =>
       apply_reconciliation_decision e x key (if unknown then Some o else None))
   else mret tt);;
  event ← operation_event "reconciliation_resolved" e
            (fun key => ReconciliationResolved key (j_operation_id e) (j_kind e) (rd_kind x) None)
            [pretty (j_attempt e); decision_kind_str (rd_kind x)];
  match receipt with
  | Some r => settle_receipt e r (if unknown then Some o else None) event
  | None => emit_durable event
  end.

Definition handle_matches (key : string) (e : OperationJournalEntry) (h : DeferredToolHandle) : bool :=
  String.eqb (h_checkpoint_key h) key && String.eqb (h_operation_id h) (j_operation_id e)
  && (h_attempt h =? j_attempt e)%N && String.eqb (h_request_digest h) (j_request_digest e).

(** [inl] ends the loop with an interruption; [inr] goes on with the deferred
    decisions so far. *)
Definition reconcile_one (e : OperationJournalEntry) (deferred : list AcceptDeferredDecision)
    : D (AgentResult + list AcceptDeferredDecision) :=
  let o := observation e in
  emit_ambiguous e o;;
  x ← reconciliation_decision e o;
  match rd_kind x with
  | Defer => r ← suspend_for_observation e o true; mret (inl r)
  | CheckpointTypes.Abort =>
      c ← require_checkpoint; r ← d_lift (operator_abort_result c o); mret (inl r)
  | AcceptDeferred =>
      d_reject (j_kind e <>?? Tool) decision_invalid;;
      handle ← d_lift (ok_or (rd_handle x) decision_invalid);
      key ← checkpoint_key;
      d_reject (negb (handle_matches key e handle)) decision_invalid;;
      mret (inr (deferred ++ [accept_decision_new handle]))
  | _ => resolve_operation e o x;; mret (inr deferred)
  end.
Fixpoint reconcile_all (l : list OperationJournalEntry) (deferred : list AcceptDeferredDecision)
    : D (AgentResult + list AcceptDeferredDecision) :=
  match l with
  | [] => mret (inr deferred)
  | e :: rest =>
      step ← reconcile_one e deferred;
      match step with
      | inl r => mret (inl r)
      | inr deferred => reconcile_all rest deferred
      end
  end.

Definition recover_ambiguous_operations : D (option AgentResult) :=
  c ← require_checkpoint;
  let started := List.filter (fun e => j_state e =?? Started) (cp_model_call_journal c) in
  match started with
  | [] => mret tt
  | _ => _ ← require_accounting status_invalid; d_for ambiguate_model started
  end;;
  ambiguate_tools;;
  c ← require_checkpoint;
  outcome ← reconcile_all (List.filter (fun e => j_state e =?? Ambiguous) (journals c)) [];
  match outcome with
  | inl r => mret (Some r)
  | inr [] => mret None
  | inr deferred =>
      _ ← accept_batch deferred;
      c ← require_checkpoint;
      r ← deferred_result (cp_messages c) (cp_cycles c) (cp_shared_state c);
      mret (Some r)
  end.

(** ** Claims and creation *)

(** Whether the driver already executes the cycle; a claim of somebody else is
    only taken over in recovery. *)
Definition claim_held (cycle_index : N) : D bool :=
  c ← require_checkpoint;
  d ← get_driver;
  match cp_claim_token c with
  | None => mret false
  | Some claim_token =>
      if opt_is (d_owned_claim_token d) claim_token && (cp_claimed_cycle c =?? Some cycle_index)
      then mret true
      else d_reject (negb (d_first_claim_is_recovery d)) claim_active;; mret false
  end.
Definition next_claim_mode (d : Driver) : ClaimMode :=
  if d_first_claim_is_recovery d then Recovery else Continue.
Definition take_claim (cycle_index : N) (mode : ClaimMode) : D unit :=
  now ← now_ms;
  d ← get_driver;
  expiry ← d_lift (ok_or (checked_add now (d_lease_duration_ms d)) "checkpoint_claim_invalid");
  n ← tick;
  let claim_token := "claim_" +:+ host_uuid n in
  key ← checkpoint_key;
  claimed ← call (fun _ => claim_checkpoint key cycle_index claim_token expiry now mode);
  claimed ← d_lift (ok_or claimed claim_active);
  put_local claimed;;
  modify_driver (fun d => set_d_owned d (Some claim_token));;
  start_heartbeat.
Definition announce_resume : D unit :=
  c ← require_checkpoint;
  id ← stable_event_id "checkpoint_resumed" [pretty (cp_resume_attempt c)];
  event ← checkpoint_event (u32_saturate (cp_cycle_index c))
            (CheckpointResumed (cp_checkpoint_key c) (cp_resume_attempt c)) id;
  emit_durable event.
Definition ensure_claim (cycle_index : N) : D (option AgentResult) :=
  held ← claim_held cycle_index;
  if (held : bool) then mret None
  else
    d ← get_driver;
    let mode := next_claim_mode d in
    take_claim cycle_index mode;;
    interruption ← (if mode =?? Recovery then announce_resume;; recover_ambiguous_operations
                    else mret None);
    match interruption with
    | Some r => mret (Some r)
    | None => modify_driver (fun d => set_d_recovery d false);; mret None
    end.

Definition initial_checkpoint (d : Driver) (key : string) : Checkpoint :=
  {| cp_schema_version := cp_schema_version checkpoint_default;
     cp_run_definition_schema := cp_run_definition_schema checkpoint_default;
     cp_run_definition := d_run_definition d; cp_checkpoint_key := key; cp_task_id := d_task_id d;
     cp_root_run_id := d_run_id d; cp_trace_id := d_trace_id d;
     cp_run_definition_digest := d_run_definition_digest d;
     cp_resume_attempt := cp_resume_attempt checkpoint_default;
     cp_cycle_index := cp_cycle_index checkpoint_default; cp_status := cp_status checkpoint_default;
     cp_cancel_requested := cp_cancel_requested checkpoint_default;
     cp_active_host_interaction := None; cp_suspended_origin := None;
     cp_messages := d_initial_messages d; cp_cycles := []; cp_model_calls := [];
     cp_history := cp_history checkpoint_default; cp_shared_state := d_initial_shared_state d;
     cp_budget_usage := d_initial_budget_usage d; cp_event_cursor := None; cp_event_outbox := [];
     cp_extension_state := []; cp_model_call_journal := []; cp_tool_journal := [];
     cp_revision := cp_revision checkpoint_default; cp_claim_token := None;
     cp_claimed_cycle := None; cp_lease_expires_at_ms := None; cp_terminal_result := None;
     cp_terminal_acknowledged := false |}.
Definition create_new_checkpoint (key : string) : D unit :=
  d ← get_driver;
  c ← snapshot_extensions_into (initial_checkpoint d key);
  event ← checkpoint_event 0 (checkpoint_created key)
            (stable_event_id_for key "checkpoint_created" ["0"]);
  c ← d_lift (queue_event c event);
  d_lift (validate_checkpoint c);;
  created ← call (fun _ => create_checkpoint c);
  d_reject (negb created) "checkpoint_key_conflict";;
  put_local c;;
  modify_driver (fun d => set_d_created d true);;
  deliver_pending_outbox fuel.
End Driver.
