(* ===== verification/DriverOps.v ===== *)
(** * The checkpoint resume driver: operations

    [checkpoint_resume/operations.rs] with its parts [controller_state.rs],
    [authoritative.rs], [tool_receipt.rs], [host_interaction.rs],
    [deferred_dispatch.rs] and [terminal.rs], and
    [checkpoint_resume/terminal_admission.rs]: the operations the runtime calls
    on a run: admission, cycles, model calls, tool calls, host interactions and
    the end of the run. *)

From Stdlib Require Import Ascii String NArith Lia.
From stdpp Require Import base strings list sets gmap pretty.
From S2P Require Import Prelude Json Canonical CheckpointTypes ToolResult Journal TokenUsage.
From S2P Require Import Budget BudgetWire Records ResultCodec Events HostInteraction Controller.
From S2P Require Import Checkpoint History Deferred Transitions Store StoreController.
From S2P Require Import ToolPolicy Settings ModelCalls Driver.

#[global] Instance CompletionReason_eq_dec : EqDecision CompletionReason.
Proof. solve_decision. Defined.

Section DriverOps.
Context `{Env} `{StrictJson} `{Host} (fuel : nat).

(** ** Controller state *)

Definition set_next_claim_mode (mode : ClaimMode) : D unit :=
  modify_driver (fun d => set_d_recovery d (mode =?? Recovery)).
Definition set_lease_duration_ms (lease : N) : D unit :=
  d_reject (lease =? 0)%N "checkpoint_config_invalid";;
  modify_driver (fun d => set_d_lease d lease).
Definition bind_model_accounting (co : ModelCallCoordinator) : D unit :=
  modify_driver (fun d => set_d_accounting d (Some co)).
Definition hydrate_result (r : AgentResult) : D AgentResult :=
  c ← require_checkpoint;
  if (h_sequence (cp_history c) =? 0)%N then mret r
  else
    prefix ← call (fun _ => load_checkpoint_history (cp_checkpoint_key c));
    d_lift (hydrate_checkpoint_result (Ok prefix) c r).

(** ** Claims *)

Definition claim_token_invalid : string := "checkpoint_claim_invalid".
Definition adopt_claim_for_terminal_finalize (claim_token : string) (lease : N) : D unit :=
  d_reject (trim_is_empty claim_token) claim_token_invalid;;
  set_lease_duration_ms lease;;
  reload;;
  c ← require_checkpoint;
  d_reject (is_some (cp_terminal_result c) || negb (opt_is (cp_claim_token c) claim_token)
            || is_none (cp_claimed_cycle c)) claim_active;;
  modify_driver (fun d => set_d_owned d (Some claim_token));;
  renew_claim_before_dispatch;;
  start_heartbeat.
Definition adopt_existing_claim (claim_token : string) (claimed_cycle : N) : D unit :=
  d_reject (trim_is_empty claim_token) claim_token_invalid;;
  c ← require_checkpoint;
  now ← now_ms;
  d_reject (negb (opt_is (cp_claim_token c) claim_token)
            || (cp_claimed_cycle c <>?? Some claimed_cycle)
            || is_none_or (cp_lease_expires_at_ms c) (fun lease => (lease <=? now)%N)) claim_active;;
  modify_driver (fun d => set_d_recovery (set_d_owned d (Some claim_token)) false);;
  start_heartbeat.

(** ** Terminal results *)

Definition set_result_key (r : AgentResult) (key : option string) : AgentResult :=
  {| ar_status := ar_status r; ar_messages := ar_messages r; ar_cycles := ar_cycles r;
     ar_completion_reason := ar_completion_reason r;
     ar_completion_tool_name := ar_completion_tool_name r; ar_partial_output := ar_partial_output r;
     ar_budget_usage := ar_budget_usage r; ar_budget_exhaustion := ar_budget_exhaustion r;
     ar_checkpoint_key := key; ar_resume_observations := ar_resume_observations r;
     ar_final_answer := ar_final_answer r; ar_wait_reason := ar_wait_reason r;
     ar_error := ar_error r; ar_error_code := ar_error_code r; ar_shared_state := ar_shared_state r;
     ar_token_usage := ar_token_usage r |}.
Definition terminal_from (v : Value) : D AgentResult :=
  d_lift (map_err (agent_result_from_dict v) "checkpoint_terminal_result_invalid").
(** The stored result after its events are delivered and it is acknowledged. *)
Definition replay_terminal : D AgentResult :=
  deliver_pending_outbox fuel;;
  acknowledge;;
  c ← require_checkpoint;
  v ← d_lift (ok_or (cp_terminal_result c) panic);
  terminal_from v.
Definition replay_terminal_keyed : D AgentResult :=
  r ← replay_terminal; key ← checkpoint_key; mret (set_result_key r (Some key)).

Definition replay_terminal_if_present : D (option AgentResult) :=
  reload;;
  c ← require_checkpoint;
  match cp_terminal_result c with
  | None => mret None
  | Some terminal =>
      deliver_pending_outbox fuel;;
      acknowledge;;
      r ← terminal_from terminal;
      key ← checkpoint_key;
      mret (Some (set_result_key r (Some key)))
  end.

(** ** Committing a cycle *)

Definition commit_cycle (cycle_index : N) (messages : list Message) (cycles : list CycleRecord)
    (shared_state : object) (budget_usage : option BudgetUsageSnapshot) : D unit :=
  c ← require_checkpoint;
  if is_none (cp_claim_token c) then mret tt
  else
    d_reject ((cr_index <$> last cycles) <>?? Some cycle_index) "checkpoint_cycle_conflict";;
    progress;;
    deliver_pending_outbox fuel;;
    refresh_snapshot messages cycles shared_state budget_usage;;
    with_checkpoint (fun c => set_status (set_cycle_index c cycle_index) RunningS);;
    c ← require_checkpoint;
    claim_token ← d_lift (ok_or (cp_claim_token c) panic);
    ok ← call (fun _ => commit_checkpoint c claim_token (cp_revision c));
    d_reject (negb ok) store_conflict;;
    loaded ← call (fun _ => load_checkpoint (cp_checkpoint_key c));
    modify_driver (fun d => set_d_owned (set_d_recovery (set_d_checkpoint d loaded) false) None);;
    stop_heartbeat.

(** ** Admission *)

Definition existing_checkpoint (key : string) : D (option Checkpoint) :=
  d ← get_driver;
  modify_driver (fun d => set_d_preloaded d None);;
  match d_preloaded_checkpoint d with
  | Some c =>
      d_reject (negb (String.eqb (cp_checkpoint_key c) key)) "checkpoint_key_conflict";;
      mret (Some c)
  | None => call (fun _ => load_checkpoint key)
  end.
(** A cycle that was finished, with every operation closed, before its receipt
    was delivered. *)
Definition finished_cycle (c : Checkpoint) : option N :=
  let completed := cr_index <$> last (cp_cycles c) in
  let pending := existsb (fun e => is_pending e
                   && opt_is (get_str (ob_event e) "type") "tool_call_completed") (cp_event_outbox c) in
  let closed := forallb (fun e => match j_state e with Succeeded | Failed => true | _ => false end)
                  (journals c) in
  match completed with
  | Some cycle =>
      if (cycle =? saturating_add (cp_cycle_index c) 1)%N && pending && closed then Some cycle
      else None
  | None => None
  end.
Definition resume_existing (existing : Checkpoint) : D (option AgentResult) :=
  validate_existing_definition existing;;
  put_local existing;;
  if is_some (cp_terminal_result existing) then r ← replay_terminal_keyed; mret (Some r)
  else
    now ← now_ms;
    d_reject (is_some_and (cp_lease_expires_at_ms existing) (fun expiry => (now <? expiry)%N))
      claim_active;;
    restore_extensions;;
    modify_driver (fun d => set_d_recovery d true);;
    match finished_cycle existing with
    | None => mret None
    | Some cycle_index =>
        _ ← ensure_claim fuel cycle_index;
        c ← require_checkpoint;
        cycle_index ← d_lift (ok_or (u32_try_from cycle_index) "checkpoint_cycle_invalid");
        commit_cycle cycle_index (cp_messages c) (cp_cycles c) (cp_shared_state c)
          (cp_budget_usage c);;
        mret None
    end.
Definition with_key (d : Driver) (key : string) : Driver :=
  let f := d_config d in
  set_d_config d
    {| cf_store := cf_store f; cf_store_ref := cf_store_ref f; cf_key := Some key;
       cf_resume_policy := cf_resume_policy f;
       cf_ambiguous_model_policy := cf_ambiguous_model_policy f;
       cf_ambiguous_tool_policy := cf_ambiguous_tool_policy f;
       cf_required_extension_namespaces := cf_required_extension_namespaces f;
       cf_max_extension_state_bytes := cf_max_extension_state_bytes f;
       cf_credential_slots := cf_credential_slots f; cf_capability_refs := cf_capability_refs f |}.
Definition admit_run : D (option AgentResult) :=
  n ← tick;
  d ← get_driver;
  let key := unwrap_or (cf_key (d_config d)) ("checkpoint_" +:+ host_uuid n) in
  modify_driver (fun d => with_key d key);;
  existing ← existing_checkpoint key;
  match cf_resume_policy (d_config d), existing with
  | New, Some _ => d_throw "checkpoint_key_conflict"
  | New, None => create_new_checkpoint fuel key;; mret None
  | _, Some existing => resume_existing existing
  | policy, None =>
      d_reject (match policy with RequireExisting => true | _ => false end) "checkpoint_not_found";;
      created ← d_try (create_new_checkpoint fuel key);
      if is_ok created then mret None
      else
        loaded ← call (fun _ => load_checkpoint key);
        existing ← d_lift (ok_or loaded store_conflict);
        resume_existing existing
  end.

Definition begin_cycle (cycle_index : N) : D (option AgentResult) :=
  c ← require_checkpoint;
  if cp_status c =?? DeferredS
  then r ← deferred_result (cp_messages c) (cp_cycles c) (cp_shared_state c); mret (Some r)
  else ensure_claim fuel cycle_index.

(** ** Model calls *)

Record ModelCallDispatchRequest := {
  dq_accounting : ModelCallCoordinator;
  dq_request : LlmRequest;
  dq_operation : ModelCallOperation;
  dq_cycle_index : N;
  dq_operation_slot : string;
  dq_backend : string;
  dq_model : string
}.
Inductive ModelOperationOutcome :=
| MResponse (response : LLMResponse) (usage : TokenUsage) (exhaustion : option BudgetExhaustion)
| MError (e : LlmError)
| MInterrupted (r : AgentResult).

(** The coordinator is shared with its caller: the slots it counts stay
    counted. *)
Definition new_call_identity (q : ModelCallDispatchRequest) : D ModelCallIdentity :=
  co ← require_accounting panic;
  let '(created, co) := new_identity co (dq_cycle_index q) (dq_operation_slot q) (dq_operation q)
                          (dq_backend q) (dq_model q) 1 None in
  modify_driver (fun d => set_d_accounting d (Some co));;
  d_lift (map_err created journal_mismatch).

(** What the durable entry of the call says: the recorded outcome, or nothing
    when the call is still planned. *)
Definition replay_model (q : ModelCallDispatchRequest) (digest : string) (e : OperationJournalEntry)
    : D (option ModelOperationOutcome) :=
  d_reject (negb (String.eqb (j_request_digest e) digest)) journal_mismatch;;
  i ← d_lift (model_identity_from_entry e);
  d_lift (require_effective_model_identity i (dq_operation q) (dq_backend q) (dq_model q));;
  match j_state e with
  | Succeeded =>
      response ← d_lift (ok_or (j_response e) journal_mismatch);
      emit_operation_replayed fuel e;;
      response ← d_lift (ok_or (response_from_value response) journal_mismatch);
      mret (Some (MResponse response (response_usage response) None))
  | Failed =>
      let error := unwrap_or (j_error e)
        {| oe_code := "model_request_failed"; oe_message := "durable model operation failed";
           oe_retryable := false |} in
      emit_operation_replayed fuel e;;
      mret (Some (MError (Request (oe_code error +:+ ": " +:+ oe_message error))))
  | Planned => mret None
  | _ => d_throw journal_mismatch
  end.
Definition plan_model (q : ModelCallDispatchRequest) (digest : string) (i : ModelCallIdentity)
    : D unit :=
  with_checkpoint (fun c => set_model_call_journal c (cp_model_call_journal c ++
    [model_entry (mi_operation_id i) (dq_cycle_index q) (mi_attempt i) digest (mi_operation i)
       (mi_backend i) (mi_model i) (mi_call_id i)]));;
  progress.

(** The call becomes durable as started before the model hears of it;
    [inl] is a call that was not admitted. *)
Definition start_model (q : ModelCallDispatchRequest) (operation_id : string)
    : D (LlmError + ModelCallIdentity) :=
  found ← find_operation Model operation_id;
  e ← d_lift (ok_or found panic);
  d_reject (j_state e <>?? Planned) journal_mismatch;;
  i ← d_lift (model_identity_from_entry e);
  d_lift (require_effective_model_identity i (dq_operation q) (dq_backend q) (dq_model q));;
  co ← require_accounting panic;
  match check_admission co (dq_cycle_index q) with
  | Some error => mret (inl error)
  | None =>
      renew_claim_before_dispatch;;
      stamp ← fresh_stamp;
      id ← stable_event_id "model_call_started" [mi_operation_id i; pretty (mi_attempt i)];
      started ← d_lift (with_event_id (started_event co stamp i) id);
      update_operation Model operation_id (fun e => transition_to e Started);;
      queue_outbox_event started;;
      progress;;
      deliver_pending_outbox fuel;;
      mret (inr i)
  end.

(** The receipt of the call. *)
Definition set_usage (r : LLMResponse) (usage : TokenUsage) : LLMResponse :=
  {| lr_content := lr_content r; lr_tool_calls := lr_tool_calls r; lr_raw := lr_raw r;
     lr_token_usage := usage |}.
(** An outcome that is not known suspends the run. *)
Definition settle_ambiguous (operation_id : string) (i : ModelCallIdentity) (error_code : string)
    : D ModelOperationOutcome :=
  update_operation Model operation_id (assign_state Ambiguous);;
  co ← require_accounting panic;
  s1 ← fresh_stamp;
  s2 ← fresh_stamp;
  t ← stable_terminal (failed_terminal co s1 s2 i error_code true None) "model_call_failed" i;
  commit_model_terminal fuel operation_id t;;
  found ← find_operation Model operation_id;
  e ← d_lift (ok_or found panic);
  r ← suspend_for fuel e;
  mret (MInterrupted r).
Definition settle_model (operation_id : string) (i : ModelCallIdentity) (invocation : Invocation)
    : D ModelOperationOutcome :=
  match invocation with
  | Responded response =>
      let usage := response_usage response in
      let response := set_usage response usage in
      update_operation Model operation_id (fun e =>
        checked (set_response Succeeded (Some (response_to_value response)) None e));;
      co ← require_accounting panic;
      s1 ← fresh_stamp;
      s2 ← fresh_stamp;
      t ← stable_terminal (completed_terminal co s1 s2 i usage) "model_call_completed" i;
      commit_model_terminal fuel operation_id t;;
      mret (MResponse response usage (mt_budget_exhaustion t))
  | Refused error =>
      if is_definitive_model_error error then
        update_operation Model operation_id (fun e =>
          checked (set_response Failed (j_response e)
            (Some {| oe_code := model_error_code error;
                     oe_message := "model request failed with a definitive outcome";
                     oe_retryable := false |}) e));;
        co ← require_accounting panic;
        s1 ← fresh_stamp;
        s2 ← fresh_stamp;
        t ← stable_terminal (failed_terminal co s1 s2 i (model_error_code error) false None)
              "model_call_failed" i;
        commit_model_terminal fuel operation_id t;;
        mret (MError error)
      else settle_ambiguous operation_id i (model_error_code error)
  | Panicked => settle_ambiguous operation_id i "model_request_panicked"
  end.

Definition run_planned (q : ModelCallDispatchRequest) (operation_id : string) (invocation : Invocation)
    : D ModelOperationOutcome :=
  started ← start_model q operation_id;
  match started with
  | inl error => mret (MError error)
  | inr i =>
      emit (Invoked operation_id (mi_attempt i));;
      settle_model operation_id i invocation
  end.
Definition complete_model (q : ModelCallDispatchRequest) (budget_usage : option BudgetUsageSnapshot)
    (invocation : Invocation) : D ModelOperationOutcome :=
  d_reject (trim_is_empty (dq_operation_slot q)) journal_mismatch;;
  bind_model_accounting (dq_accounting q);;
  set_budget_snapshot budget_usage;;
  projection ← model_request_projection (dq_request q) (dq_backend q) (dq_model q);
  digest ← d_lift (operation_request_digest Model projection);
  i ← new_call_identity q;
  let operation_id := mi_operation_id i in
  known ← find_operation Model operation_id;
  d_reject (is_some_and known (fun e => negb (String.eqb (j_request_digest e) digest))) journal_mismatch;;
  interruption ← ensure_claim fuel (dq_cycle_index q);
  match interruption with
  | Some r => mret (MInterrupted r)
  | None =>
      known ← find_operation Model operation_id;
      match known with
      | Some e =>
          replayed ← replay_model q digest e;
          match replayed with
          | Some outcome => mret outcome
          | None => run_planned q operation_id invocation
          end
      | None => plan_model q digest i;; run_planned q operation_id invocation
      end
  end.

(** ** Tool calls *)

Record ToolOperationPlan := {
  tp_checkpoint_key : option string;
  tp_operation_id : option string;
  tp_attempt : option N;
  tp_request_digest : option string;
  tp_idempotency_support : ToolIdempotency;
  tp_idempotency_key : option string;
  tp_replay_result : option ToolExecutionResult
}.
Definition empty_plan (support : ToolIdempotency) : ToolOperationPlan :=
  {| tp_checkpoint_key := None; tp_operation_id := None; tp_attempt := None;
     tp_request_digest := None; tp_idempotency_support := support; tp_idempotency_key := None;
     tp_replay_result := None |}.
Definition entry_plan (key : string) (e : OperationJournalEntry) (support : ToolIdempotency)
    (idempotency_key : option string) (replay : option ToolExecutionResult) : ToolOperationPlan :=
  {| tp_checkpoint_key := Some key; tp_operation_id := Some (j_operation_id e);
     tp_attempt := Some (j_attempt e); tp_request_digest := Some (j_request_digest e);
     tp_idempotency_support := support; tp_idempotency_key := idempotency_key;
     tp_replay_result := replay |}.

(** A failed receipt is only replayed in canonical form, for the same call and
    with its digest. *)
Definition failed_receipt (e : OperationJournalEntry) (call_id : string) : result ToolExecutionResult :=
  let? value := ok_or (j_result e) journal_mismatch in
  let? r := map_err (from_dict value) journal_mismatch in
  fail_if (negb (value_eqb (to_dict r) value)) with journal_mismatch ;;
  fail_if (tr_status r <>?? Error) with journal_mismatch ;;
  fail_if (negb (String.eqb (tr_tool_call_id r) call_id)) with journal_mismatch ;;
  let? digest := tool_result_digest r in
  fail_if (negb (opt_is (j_result_digest e) digest)) with journal_mismatch ;;
  Ok r.
Definition plan_existing (key : string) (call : ToolCall) (support : ToolIdempotency)
    (idempotency_key source_digest : option string) (projection : Value) (e : OperationJournalEntry)
    : D ToolOperationPlan :=
  d_lift (verify_request e projection);;
  d_reject (is_some_and source_digest (fun source => negb (String.eqb source (j_request_digest e))))
    journal_mismatch;;
  d_reject (j_idempotency_support e <>?? Some support) journal_mismatch;;
  match j_state e with
  | Succeeded =>
      r ← d_lift (let? value := ok_or (j_result e) journal_mismatch in
                  map_err (from_dict value) journal_mismatch);
      emit_operation_replayed fuel e;;
      mret (entry_plan key e support idempotency_key (Some r))
  | Failed =>
      r ← d_lift (failed_receipt e (tc_id call));
      emit_operation_replayed fuel e;;
      mret (entry_plan key e support idempotency_key (Some r))
  | Planned => mret (entry_plan key e support idempotency_key None)
  | _ => d_throw journal_mismatch
  end.
Definition plan_tool (cycle_index : N) (call : ToolCall) (support : ToolIdempotency)
    (budget_usage : option BudgetUsageSnapshot) (source_digest source_key : option string)
    : D (ToolOperationPlan * option AgentResult) :=
  interruption ← ensure_claim fuel cycle_index;
  match interruption with
  | Some r => mret (empty_plan support, Some r)
  | None =>
      set_budget_snapshot budget_usage;;
      key ← checkpoint_key;
      let idempotency_key :=
        match support with
        | Unsupported => None
        | _ => match source_key with
               | Some k => Some k
               | None => Some (tool_idempotency_key key cycle_index (tc_id call))
               end
        end in
      let projection := tool_request_value (tc_id call) (tc_name call) (Object (tc_arguments call))
                          idempotency_key in
      digest ← d_lift (operation_request_digest Tool projection);
      d_reject (is_some_and source_digest (fun source => negb (String.eqb source digest)))
        journal_mismatch;;
      found ← find_tool_call cycle_index (tc_id call);
      match found with
      | Some e =>
          plan ← plan_existing key call support idempotency_key source_digest projection e;
          mret (plan, None)
      | None =>
          c ← require_checkpoint;
          let operation_id := "op_tool_cycle_" +:+ pretty cycle_index +:+ "_call_" +:+
                                pretty (N.of_nat (length (cp_tool_journal c)) + 1)%N in
          let e := tool_entry operation_id cycle_index 1 digest (tc_id call) (tc_name call)
                     (tc_arguments call) idempotency_key support in
          put_local (set_tool_journal c (cp_tool_journal c ++ [e]));;
          progress;;
          mret (entry_plan key e support idempotency_key None, None)
      end
  end.

Definition tool_missing {A} (o : option A) : D A := d_lift (ok_or o journal_mismatch).
Definition tool_started (cycle_index : N) (call : ToolCall) : D unit :=
  require_checkpoint;;
  found ← find_tool_call cycle_index (tc_id call);
  e ← tool_missing found;
  if j_state e =?? Planned then
    update_tool_call cycle_index (tc_id call) (assign_state Started);;
    progress;;
    renew_claim_before_dispatch
  else mret tt.
(** [preflight_tool_dispatch]. *)
Definition preflight_tool_dispatch (cycle_index : N) (call : ToolCall) : D unit :=
  c ← require_checkpoint;
  d_reject (is_none (cp_claim_token c)) claim_active;;
  found ← find_tool_call cycle_index (tc_id call);
  e ← tool_missing found;
  if j_state e =?? Planned then d_lift (validate_checkpoint c);; progress else mret tt.
Definition update_budget_usage (budget_usage : option BudgetUsageSnapshot) : D unit :=
  set_budget_snapshot budget_usage;;
  c ← require_checkpoint;
  if is_some (cp_claim_token c) then progress else mret tt.

(** The run stops at a tool call whose outcome is not known. *)
Definition suspend_tool (cycle_index : N) (call_id : string) : D (option AgentResult) :=
  update_tool_call cycle_index call_id (assign_state Ambiguous);;
  progress;;
  found ← find_tool_call cycle_index call_id;
  e ← tool_missing found;
  r ← suspend_for fuel e;
  mret (Some r).
(** A call refused before it started is closed locally. *)
Definition close_planned (key call_id : string) (r : ToolExecutionResult) (e : OperationJournalEntry)
    : OperationJournalEntry * result unit :=
  assign e (tool_receipt_identity_key key (j_operation_id e) (j_attempt e)
              (unwrap_or (j_tool_call_id e) call_id) (j_request_digest e)) (fun identity =>
  assign e (tool_result_digest r) (fun digest =>
  match tr_status r with
  | Success => checked (set_receipt Succeeded (Some identity) (Some digest) (Some (to_dict r)) None
                          None None e)
  | Error =>
      checked (set_receipt Failed (Some identity) (Some digest) (Some (to_dict r))
        (Some (operation_error_from_tool_result r)) None
        (if opt_is (tr_error_code r) "tool_outcome_unknown" then Some (unknown_tool_observation e)
         else None) e)
  | _ => (e, Err panic)
  end)).
Definition finish_planned (cycle_index : N) (r : ToolExecutionResult) (call_id : string) : D unit :=
  if opt_is (tr_error_code r) "tool_approval_required" || (tr_status r =?? Success) then mret tt
  else
    d_lift (validate_definitive_result r);;
    key ← checkpoint_key;
    update_tool_call cycle_index call_id (close_planned key call_id r);;
    progress.
Definition finish_started (cycle_index : N) (r : ToolExecutionResult) (call_id : string)
    (e : OperationJournalEntry) : D (option AgentResult) :=
  if is_ambiguous_tool_result r then suspend_tool cycle_index call_id
  else match tr_status r with
  | Success | Error =>
      c ← require_checkpoint;
      claim_token ← d_lift (ok_or (cp_claim_token c) claim_active);
      claimed_cycle ← d_lift (ok_or (cp_claimed_cycle c) claim_active);
      ok ← call (fun clock => record_tool_receipt clock c (j_operation_id e) (j_attempt e)
                                (unwrap_or (j_tool_call_id e) call_id) (j_request_digest e) r
                                claim_token (cp_revision c) claimed_cycle);
      d_reject (negb ok) store_conflict;;
      loaded ← call (fun _ => load_checkpoint (cp_checkpoint_key c));
      loaded ← d_lift (ok_or loaded "checkpoint_not_found");
      put_local loaded;;
      mret None
  | _ => suspend_tool cycle_index call_id
  end.
Definition finish_tool (cycle_index : N) (call : ToolCall) (r : ToolExecutionResult)
    (budget_usage : option BudgetUsageSnapshot) : D (option AgentResult) :=
  reload;;
  set_budget_snapshot budget_usage;;
  found ← find_tool_call cycle_index (tc_id call);
  e ← tool_missing found;
  call_id ← d_lift (ok_or (j_tool_call_id e) "tool_receipt_identity_invalid");
  d_reject (negb (String.eqb (tr_tool_call_id r) call_id)) "tool_receipt_identity_invalid";;
  if (tr_status r =?? WaitResponse) && (tr_directive r =?? DWaitUser) then
    (if j_state e =?? Started then
       c ← require_checkpoint;
       n ← tick;
       event ← d_lift (receipt_event (fun _ => host_stamp n) c e r);
       queue_outbox_entry event;;
       progress
     else mret tt);;
    mret None
  else if j_state e =?? Planned then finish_planned cycle_index r (tc_id call);; mret None
  else if j_state e =?? Started then finish_started cycle_index r (tc_id call) e
  else mret None.

(** ** Host interactions *)

Definition host_interaction_admission_context : D HostInteractionAdmissionContext :=
  assert_heartbeat;;
  c ← refresh_authoritative;
  claim_token ← d_lift (ok_or (cp_claim_token c) claim_required);
  d ← get_driver;
  d_reject (negb (opt_is (d_owned_claim_token d) claim_token)) claim_required;;
  claimed_cycle ← d_lift (ok_or (cp_claimed_cycle c) claim_required);
  now ← now_ms;
  lease ← d_lift (ok_or (cp_lease_expires_at_ms c) claim_required);
  d_lift (context_new (cp_checkpoint_key c) (cp_revision c) claim_token claimed_cycle now lease).
Definition with_snapshot (x : HostInteractionAdmissionContext) (c : Checkpoint)
    : HostInteractionAdmissionContext :=
  {| hx_checkpoint_key := hx_checkpoint_key x; hx_expected_revision := hx_expected_revision x;
     hx_claim_token := hx_claim_token x; hx_claimed_cycle := hx_claimed_cycle x;
     hx_now_ms := hx_now_ms x; hx_lease_expires_at_ms := hx_lease_expires_at_ms x;
     hx_cycle_snapshot := Some c |}.
Definition admit_interaction (request : HostInteractionRequest) (messages : list Message)
    (cycles : list CycleRecord) (shared_state : object)
    (budget_usage : option BudgetUsageSnapshot) : D HostInteractionOutcome :=
  x ← host_interaction_admission_context;
  refresh_snapshot messages cycles shared_state budget_usage;;
  c ← require_checkpoint;
  call (fun clock => produce_host_interaction clock request (with_snapshot x c)).
(** The tool call of a cancelled interaction still gets its receipt. *)
Definition interaction_call (request : HostInteractionRequest) (cycles : list CycleRecord)
    : option (N * ToolCall * ToolExecutionResult) :=
  cycle ← List.find (fun c => (cr_index c =? hi_logical_cycle request)%N) cycles;
  found ← List.find (fun x => String.eqb (tc_id x.1) (hi_tool_call_id request))
            (combine (cr_tool_calls cycle) (cr_tool_results cycle));
  Some (cr_index cycle, found.1, found.2).
Definition finish_host_interaction (request : HostInteractionRequest) (messages : list Message)
    (cycles : list CycleRecord) (shared_state : object)
    (budget_usage : option BudgetUsageSnapshot) : D AgentResult :=
  admission ← d_try (admit_interaction request messages cycles shared_state budget_usage);
  match admission with
  | Err code =>
      (if String.eqb code "checkpoint_cancel_requested" then
         match interaction_call request cycles with
         | Some (cycle_index, tool_call, r) =>
             _ ← finish_tool cycle_index tool_call r budget_usage; mret tt
         | None => mret tt
         end
       else mret tt);;
      d_throw code
  | Ok _ =>
      modify_driver (fun d => set_d_recovery (set_d_owned d None) false);;
      stop_heartbeat;;
      reload;;
      deliver_pending_outbox fuel;;
      c ← require_checkpoint;
      d_lift (interrupted_result c HostInteractionA messages cycles shared_state []
                (Some "host_interaction"))
  end.

(** ** The end of a run *)

Definition completion_is (r : AgentResult) (reason : CompletionReason) : bool :=
  ar_completion_reason r =?? Some reason.
Definition prepare_terminal (r : AgentResult) : D AgentResult :=
  key ← checkpoint_key;
  let r := set_result_key r (Some key) in
  if (ar_status r =?? ReconciliationRequiredA) || is_operator_abort r then mret r
  else
    reload;;
    c ← require_checkpoint;
    match cp_terminal_result c with
    | Some terminal => terminal_from terminal
    | None =>
        unresolved ← unresolved_operation;
        match unresolved with
        | None => mret r
        | Some e =>
            if (completion_is r CancelledR && (j_kind e =?? Tool))
               || (match ar_status r with WaitUserA | CompletedA | MaxCyclesA => true | _ => false end
                   && (j_state e =?? Planned))
               || (ar_status r =?? WaitUserA)
            then mret r
            else if j_state e =?? Started then
              update_operation (j_kind e) (j_operation_id e) (assign_state Ambiguous);;
              progress;;
              suspend_for fuel (set_state Ambiguous e)
            else suspend_for fuel e
        end
    end.
Definition persist_preterminal_event (e : RunEvent) (identity : string) : D unit :=
  id ← stable_event_id "preterminal" [identity; "0"];
  e ← d_lift (with_event_id e id);
  c ← require_checkpoint;
  if is_some (cp_claim_token c) then emit_durable fuel e else queue_outbox_event e.

Definition cancelled_code : string := "cancelled_with_unknown_outcome".
Definition cancellation_result (r : AgentResult) (c : Checkpoint) : result AgentResult :=
  let? usage := summarize_task_token_usage (cp_model_calls c) in
  Ok {| ar_status := FailedA; ar_messages := ar_messages r; ar_cycles := ar_cycles r;
        ar_completion_reason := Some CancelledR; ar_completion_tool_name := None;
        ar_partial_output := or_else (ar_partial_output r) (last_assistant_output (ar_cycles r));
        ar_budget_usage := ar_budget_usage r; ar_budget_exhaustion := None;
        ar_checkpoint_key := ar_checkpoint_key r; ar_resume_observations := [];
        ar_final_answer := None; ar_wait_reason := None;
        ar_error := Some {| ae_code := cancelled_code;
          ae_message := "Cancellation was accepted while the external outcome remained unknown.";
          ae_retryable := false |};
        ar_error_code := Some cancelled_code; ar_shared_state := ar_shared_state r;
        ar_token_usage := usage |}.
Definition set_parent_event (e : RunEvent) (id : string) : RunEvent :=
  {| ev_event_id := ev_event_id e; ev_run_id := ev_run_id e; ev_trace_id := ev_trace_id e;
     ev_session_id := ev_session_id e; ev_parent_event_id := Some id;
     ev_parent_run_id := ev_parent_run_id e; ev_created_at := ev_created_at e;
     ev_cycle_index := ev_cycle_index e; ev_agent_name := ev_agent_name e;
     ev_metadata := ev_metadata e; ev_payload := ev_payload e; ev_extra_fields := ev_extra_fields e |}.
Definition cancellation_event (stamp : Stamp) (e : RunEvent) (r : AgentResult) : RunEvent :=
  let x := event_new stamp.1 (ev_run_id e) (ev_trace_id e) (unwrap_or (ev_agent_name e) EmptyString)
             (ev_cycle_index e) stamp.2
             (RunCancelled (unwrap_or (ae_message <$> ar_error r) "run cancelled")) in
  let x := with_completion_details x (ar_completion_reason r) (ar_completion_tool_name r)
             (ar_partial_output r) in
  let x := with_budget_details x (ar_budget_usage r) (ar_budget_exhaustion r) in
  let x := match ev_session_id e with Some id => set_session x id | None => x end in
  let x := match ev_parent_event_id e with Some id => set_parent_event x id | None => x end in
  let x := match ev_parent_run_id e with Some id => set_parent_run x id | None => x end in
  fold_left (fun x kv => with_metadata x kv.1 kv.2) (ev_metadata e) x.

(** [event_type]. *)
Definition terminal_event_type (e : RunEvent) : string :=
  match ev_payload e with
  | RunFailed _ => "run_failed"
  | RunCancelled _ => "run_cancelled"
  | OtherPayload fields =>
      if opt_is (map_get "type" fields ≫= as_str) "run_completed" then "run_completed" else "terminal"
  | _ => "terminal"
  end.
Definition retain_result (r : AgentResult) (cycles : list CycleRecord) (usage : TaskTokenUsage)
    : AgentResult :=
  {| ar_status := ar_status r; ar_messages := ar_messages r; ar_cycles := cycles;
     ar_completion_reason := ar_completion_reason r;
     ar_completion_tool_name := ar_completion_tool_name r; ar_partial_output := ar_partial_output r;
     ar_budget_usage := ar_budget_usage r; ar_budget_exhaustion := ar_budget_exhaustion r;
     ar_checkpoint_key := ar_checkpoint_key r; ar_resume_observations := ar_resume_observations r;
     ar_final_answer := ar_final_answer r; ar_wait_reason := ar_wait_reason r;
     ar_error := ar_error r; ar_error_code := ar_error_code r; ar_shared_state := ar_shared_state r;
     ar_token_usage := usage |}.

(** A claim that is closed before any work of its cycle. *)
Definition closes_unstarted_claim (c : Checkpoint) (r : AgentResult) (terminal_cycle : N) : bool :=
  (terminal_cycle =? cp_cycle_index c)%N
  && (cp_claimed_cycle c =?? checked_add (cp_cycle_index c) 1)
  && (ar_status r =?? FailedA)
  && (completion_is r CancelledR
      || (completion_is r BudgetExhaustedR
          && is_some_and (ar_budget_exhaustion r) (fun x => ex_enforcement_boundary x =?? RunStart)))
  && match cp_model_call_journal c, cp_tool_journal c with [], [] => true | _, _ => false end
  && (ar_messages r =?? cp_messages c) && value_eqb (Object (ar_shared_state r)) (Object (cp_shared_state c)).
Definition terminal_cycle_of (c : Checkpoint) (r : AgentResult) : result N :=
  match cr_index <$> last (ar_cycles r) with
  | None => Ok (cp_cycle_index c)
  | Some cycle =>
      fail_if ((cycle <? cp_cycle_index c)%N
               || (is_some_and (cp_claimed_cycle c) (fun claimed => negb (claimed =? cycle)%N)
                   && negb (closes_unstarted_claim c r cycle)))
      with "checkpoint_cycle_conflict" ;;
      Ok cycle
  end.
Definition end_checkpoint (c : Checkpoint) (r : AgentResult) (status : CheckpointStatus)
    : result Checkpoint :=
  let? cycle := terminal_cycle_of c r in
  let c := set_status (set_cycle_index c cycle) status in
  let c := set_cycles (set_messages c (ar_messages r)) (retained_cycles c (ar_cycles r)) in
  let? usage := summarize_task_token_usage (cp_model_calls c) in
  let c := set_terminal_result c (Some (agent_result_to_dict (retain_result r (cp_cycles c) usage))) in
  Ok (set_budget_usage (set_shared_state c (ar_shared_state r)) (ar_budget_usage r)).

(** The events queued while nobody held the claim; reloading would lose them. *)
Definition staged_unclaimed_outbox : D (list EventOutboxEntry) :=
  d ← get_driver;
  mret (match d_checkpoint d with
        | Some c => if is_none (cp_claim_token c) then cp_event_outbox c else []
        | None => []
        end).
(** A cancelled run ends as cancelled, whatever its result was. *)
Definition apply_cancellation (r : AgentResult) (event : option RunEvent)
    : D (AgentResult * option RunEvent) :=
  (if completion_is r CancelledR && negb (is_operator_abort r)
   then with_checkpoint (fun c => set_cancel_requested c true) else mret tt);;
  c ← require_checkpoint;
  if cp_cancel_requested c && negb (is_operator_abort r) then
    r ← d_lift (cancellation_result r c);
    match event with
    | Some e => stamp ← fresh_stamp; mret (r, Some (cancellation_event stamp e r))
    | None => mret (r, None)
    end
  else mret (r, event).
Definition queue_terminal_event (event : option RunEvent) : D unit :=
  match event with
  | None => mret tt
  | Some e =>
      id ← stable_event_id "terminal" [terminal_event_type e; pretty (unwrap_or (ev_cycle_index e) 0%N)];
      e ← d_lift (with_event_id e id);
      queue_outbox_event e
  end.
(** The write that ends the run, under the claim the driver owns or without
    one. *)
Definition finalize_store : D bool :=
  c ← require_checkpoint;
  d ← get_driver;
  match cp_claim_token c with
  | Some claim_token =>
      d_reject (negb (opt_is (d_owned_claim_token d) claim_token)) claim_active;;
      call (fun clock => finalize_claimed_checkpoint clock c claim_token (cp_revision c))
  | None => call (fun clock => finalize_checkpoint clock c (cp_revision c))
  end.
(** A claim this driver does not own: a worker may still commit its outcome. *)
Definition foreign_claim (r : AgentResult) : D bool :=
  c ← require_checkpoint;
  d ← get_driver;
  mret ((ar_status r =?? FailedA)
        && is_some_and (cp_claim_token c) (fun claim => negb (opt_is (d_owned_claim_token d) claim))).
Definition finalize_open (r : AgentResult) (event : option RunEvent) : D AgentResult :=
  key ← checkpoint_key;
  let r := set_result_key r (Some key) in
  foreign ← foreign_claim r;
  if (foreign : bool) then stop_heartbeat;; mret r
  else
    status ← d_lift (checkpoint_status (ar_status r));
    c ← require_checkpoint;
    c ← d_lift (end_checkpoint c r status);
    put_local c;;
    snapshot_extensions;;
    queue_terminal_event event;;
    finalized ← finalize_store;
    reload;;
    c ← require_checkpoint;
    d_reject (negb finalized && is_none (cp_terminal_result c)) store_conflict;;
    stop_heartbeat;;
    replay_terminal.
Definition finalize (r : AgentResult) (event : option RunEvent) : D AgentResult :=
  if ar_status r =?? ReconciliationRequiredA
  then key ← checkpoint_key; mret (set_result_key r (Some key))
  else
    staged ← staged_unclaimed_outbox;
    reload;;
    c ← require_checkpoint;
    if is_some (cp_terminal_result c) then replay_terminal
    else
      ended ← apply_cancellation r event;
      let r := ended.1 in
      d_for queue_outbox_entry staged;;
      unresolved ← unresolved_operation;
      d_reject (is_some_and unresolved (fun e => j_state e <>?? Planned)
                && (ar_status r <>?? WaitUserA) && negb (is_operator_abort r))
        "checkpoint_terminal_unresolved_operation";;
      finalize_open r ended.2.
Definition close : D unit := stop_heartbeat.

(** ** Results of distributed workers *)

Definition admit_terminal_candidate (revision : N) (requires_claim : bool) (lease : N)
    : D (option AgentResult) :=
  d ← get_driver;
  key ← d_lift (ok_or (cf_key (d_config d)) "checkpoint_key_required");
  loaded ← call (fun _ => load_checkpoint key);
  c ← d_lift (ok_or loaded "checkpoint_not_found");
  d_reject (negb (String.eqb (cp_task_id c) (d_task_id d))
            || negb (String.eqb (cp_root_run_id c) (d_run_id d))
            || negb (String.eqb (cp_trace_id c) (d_trace_id d))
            || negb (String.eqb (cp_run_definition_digest c) (d_run_definition_digest d)))
    store_conflict;;
  put_local c;;
  if is_some (cp_terminal_result c)
  then r ← replay_terminal; mret (Some (set_result_key r (Some key)))
  else
    d_reject (negb (cp_revision c =? revision)%N || (requires_claim && is_none (cp_claim_token c)))
      store_conflict;;
    match cp_claim_token c with
    | Some claim_token => adopt_claim_for_terminal_finalize claim_token lease
    | None => mret tt
    end;;
    restore_extensions;;
    mret None.
End DriverOps.
