(* ===== verification/DriverRules.v ===== *)
(** * Rules for driver operations

    Structural rules for what a driver operation may do to the world, whatever
    the host does: [evolves R m] says that every run of [m] moves the world
    along [R], and every operation of [Driver.v] and [DriverOps.v] evolves
    along any [R] that holds of the primitive steps.  The rules are collected
    in the hint database [driver]. *)

From Stdlib Require Import Ascii String NArith Lia.
From stdpp Require Import base strings list sets gmap relations pretty.
From S2P Require Import Prelude Json Canonical CheckpointTypes ToolResult Journal TokenUsage.
From S2P Require Import Budget BudgetWire Records ResultCodec Events HostInteraction Controller.
From S2P Require Import Checkpoint History Deferred Transitions Store StoreController ApiMoves.
From S2P Require Import ToolPolicy Settings ModelCalls Driver DriverOps.

Create HintDb driver discriminated.

(** ** Running an operation *)

Lemma d_bind_run {A B} (m : D A) (f : A -> D B) w r w' :
  (m ≫= f) w = (r, w') ->
  (exists a w1, m w = (Ok a, w1) /\ f a w1 = (r, w')) \/
  (exists e, m w = (Err e, w') /\ r = Err e).
Proof.
  unfold mbind, D_bind. destruct (m w) as [[a|e] w1] eqn:E; intros Hr.
  - left. by exists a, w1.
  - right. exists e. by simplify_eq.
Qed.

(** [driver_inv] follows a run through its branches; the failures it meets
    are the run's own. *)
Ltac driver_step_inv :=
  match goal with
  | H : (mbind _ _) _ = (_, _) |- _ =>
      let H' := fresh "Hrun" in
      apply d_bind_run in H as [(? & ? & H' & H)|(? & H' & ?)]; [|first [discriminate|subst]]
  | H : d_lift _ _ = (_, _) |- _ => unfold d_lift in H; simplify_eq H; clear H; intros; subst
  | H : d_throw _ _ = (_, _) |- _ => unfold d_throw in H; simplify_eq H; clear H; intros; subst
  | H : get_driver _ = (_, _) |- _ => unfold get_driver in H; simplify_eq H; clear H; intros; subst
  | H : modify_driver _ _ = (_, _) |- _ =>
      unfold modify_driver in H; simplify_eq H; clear H; intros; subst
  | H : tick _ = (_, _) |- _ => unfold tick in H; simplify_eq H; clear H; intros; subst
  | H : emit _ _ = (_, _) |- _ => unfold emit in H; simplify_eq H; clear H; intros; subst
  | H : mret _ _ = (_, _) |- _ => unfold mret, D_ret in H; simplify_eq H; clear H; intros; subst
  | H : d_reject ?b _ _ = (_, _) |- _ => unfold d_reject in H; let E := fresh "Hrej" in destruct b eqn:E
  | H : (match ?x with _ => _ end) _ = (_, _) |- _ =>
      let E := fresh "Hcase" in destruct x eqn:E
  end.
Ltac driver_inv :=
  repeat (cbv zeta in *; driver_step_inv); repeat match goal with u : unit |- _ => destruct u end.

(** ** Evolution *)

Definition evolves (R : World -> World -> Prop) {A} (m : D A) : Prop := forall w, R w (m w).2.

Section Rules.
Context `{Env} `{StrictJson} `{Host}.

(** A call of the store that is one operation of its interface, or a read. *)
Definition api_call {A} (m : (string -> Number) -> M A) : Prop :=
  (forall clock s, (m clock s).2 = s) \/
  exists op, forall clock s, (m clock s).2 = (run_api clock op s).2.

Class Evolution (R : World -> World -> Prop) := {
  evo_preorder :: PreOrder R;
  evo_driver : forall f w, R w (modify_driver f w).2;
  evo_tick : forall w, R w (tick w).2;
  evo_delivered : forall e w, R w (emit (Delivered e) w).2;
  evo_call : forall A (m : (string -> Number) -> M A) w, api_call m -> R w (call m w).2
}.

Context (R : World -> World -> Prop).

Section Structural.
Context `{!PreOrder R}.
Lemma evolves_ret {A} (a : A) : evolves R (mret a).
Proof. intros w. reflexivity. Qed.
Lemma evolves_lift {A} (r : result A) : evolves R (d_lift r).
Proof. intros w. reflexivity. Qed.
Lemma evolves_throw {A} e : evolves R (d_throw e : D A).
Proof. intros w. reflexivity. Qed.
Lemma evolves_reject b e : evolves R (d_reject b e).
Proof. intros w. destruct b; reflexivity. Qed.
Lemma evolves_get : evolves R get_driver.
Proof. intros w. reflexivity. Qed.
Lemma evolves_bind {A B} (m : D A) (f : A -> D B) :
  evolves R m -> (forall a, evolves R (f a)) -> evolves R (m ≫= f).
Proof.
  intros Hm Hf w. unfold mbind, D_bind. specialize (Hm w).
  destruct (m w) as [[a|e] w1]; [|done]. etransitivity; [exact Hm|apply Hf].
Qed.
Lemma evolves_try {A} (m : D A) : evolves R m -> evolves R (d_try m).
Proof. intros Hm w. unfold d_try. specialize (Hm w). by destruct (m w). Qed.
Lemma evolves_for {A} (f : A -> D unit) l : (forall x, evolves R (f x)) -> evolves R (d_for f l).
Proof. intros Hf. induction l; [apply evolves_ret|by apply evolves_bind]. Qed.
End Structural.

Context `{!Evolution R}.
Lemma evolves_modify f : evolves R (modify_driver f).
Proof. exact (evo_driver f). Qed.
Lemma evolves_tick : evolves R tick.
Proof. exact evo_tick. Qed.
Lemma evolves_delivered e : evolves R (emit (Delivered e)).
Proof. exact (evo_delivered e). Qed.
Lemma evolves_call {A} (m : (string -> Number) -> M A) : api_call m -> evolves R (call m).
Proof. intros Hm w. by apply evo_call. Qed.
End Rules.

#[export] Hint Resolve evolves_ret evolves_lift evolves_throw evolves_reject evolves_get
  evolves_modify evolves_tick evolves_delivered evolves_try evolves_call evolves_for : driver.
#[export] Hint Extern 0 (PreOrder _) => typeclasses eauto : driver.
#[export] Hint Extern 0 (Evolution _) => typeclasses eauto : driver.

(** [evolve] takes an operation apart along its binds and branches. *)
Ltac evolve_step :=
  match goal with
  | |- forall _, _ => intros ?
  | |- Evolution _ => typeclasses eauto
  | |- PreOrder _ => typeclasses eauto
  | |- evolves _ (mbind _ _) => apply evolves_bind
  | |- evolves _ (let '_ := ?x in _) => destruct x
  | |- evolves _ (match ?x with _ => _ end) => destruct x
  | |- evolves _ _ => solve [eauto with driver nocore]
  end.
Ltac evolve := repeat (cbv zeta; evolve_step).

(** ** The calls of the driver *)

Section Calls.
Context `{Env} `{StrictJson}.

Lemma discard_store {A} (m : M A) s : (discard m s).2 = (m s).2.
Proof. unfold discard, mbind, M_bind. by destruct (m s) as [[?|?] ?]. Qed.
Lemma api_read {A} (m : (string -> Number) -> M A) : (forall clock s, (m clock s).2 = s) -> api_call m.
Proof. by left. Qed.
Lemma api_core {A} (m : (string -> Number) -> M A) op :
  (forall clock, run_op clock op = discard (m clock)) -> api_call m.
Proof.
  intros Hm. right. exists (ApiCore op). intros clock s. cbn [run_api]. by rewrite Hm, discard_store.
Qed.

Lemma api_load key : api_call (fun _ => load_checkpoint key).
Proof. by apply api_read. Qed.
Lemma api_load_history key : api_call (fun _ => load_checkpoint_history key).
Proof.
  apply api_read. intros _ s. unfold load_checkpoint_history, mbind, M_bind, get_store. cbn.
  by destruct (map_get key (st_checkpoints s)).
Qed.
Lemma api_create c : api_call (fun _ => create_checkpoint c).
Proof. by eapply (api_core _ (OpCreate _)). Qed.
Lemma api_claim key cycle token lease now mode :
  api_call (fun _ => claim_checkpoint key cycle token lease now mode).
Proof. by eapply (api_core _ (OpClaim _ _ _ _ _ _)). Qed.
Lemma api_renew key token lease now : api_call (fun _ => renew_checkpoint_claim key token lease now).
Proof. by eapply (api_core _ (OpRenew _ _ _ _)). Qed.
Lemma api_progress c token n : api_call (fun _ => progress_checkpoint c token n).
Proof. by eapply (api_core _ (OpProgress _ _ _)). Qed.
Lemma api_suspend c token n : api_call (fun _ => suspend_checkpoint c token n).
Proof. by eapply (api_core _ (OpSuspend _ _ _)). Qed.
Lemma api_commit c token n : api_call (fun _ => commit_checkpoint c token n).
Proof. by eapply (api_core _ (OpCommit _ _ _)). Qed.
Lemma api_finalize c n : api_call (fun clock => finalize_checkpoint clock c n).
Proof. by eapply (api_core _ (OpFinalize _ _)). Qed.
Lemma api_finalize_claimed c token n :
  api_call (fun clock => finalize_claimed_checkpoint clock c token n).
Proof. by eapply (api_core _ (OpFinalizeClaimed _ _ _)). Qed.
Lemma api_receipt c op attempt call digest x token n cycle :
  api_call (fun clock => record_tool_receipt clock c op attempt call digest x token n cycle).
Proof. by eapply (api_core _ (OpReceipt _ _ _ _ _ _ _ _ _)). Qed.
Lemma api_acknowledge key n : api_call (fun _ => acknowledge_terminal key n).
Proof. by eapply (api_core _ (OpAcknowledge _ _)). Qed.
Lemma api_delivery key token n event digest cursor :
  api_call (fun _ => record_event_delivery key token n event digest cursor).
Proof. by eapply (api_core _ (OpDelivery _ _ _ _ _ _)). Qed.
Lemma api_admit key n token cycle entries :
  api_call (fun clock => store_admit_deferred_batch clock key n token cycle entries).
Proof. by eapply (api_core _ (OpAdmit _ _ _ _ _)). Qed.
Lemma api_accept key n token cycle decisions :
  api_call (fun clock => store_accept_deferred_batch clock key n token cycle decisions).
Proof. by eapply (api_core _ (OpAccept _ _ _ _ _)). Qed.
Lemma api_produce request x : api_call (fun clock => produce_host_interaction clock request x).
Proof.
  right. exists (ApiProduce request x). intros clock s. cbn [run_api]. by rewrite discard_store.
Qed.
End Calls.

#[export] Hint Resolve api_load api_load_history api_create api_claim api_renew api_progress
  api_suspend api_commit api_finalize api_finalize_claimed api_receipt api_acknowledge api_delivery
  api_admit api_accept api_produce : driver.

(** ** Every operation evolves *)

Section Operations.
Context `{Env} `{StrictJson} `{Host} (R : World -> World -> Prop) `{!Evolution R} (fuel : nat).

(** *** Persistence *)
Lemma now_ms_evolves : evolves R now_ms. Proof. unfold now_ms. evolve. Qed.
Lemma require_checkpoint_evolves : evolves R require_checkpoint.
Proof. unfold require_checkpoint. evolve. Qed.
Lemma put_local_evolves c : evolves R (put_local c). Proof. unfold put_local. evolve. Qed.
Hint Resolve now_ms_evolves require_checkpoint_evolves put_local_evolves : driver.
Lemma with_checkpoint_evolves f : evolves R (with_checkpoint f).
Proof. unfold with_checkpoint. evolve. Qed.
Lemma checkpoint_key_evolves : evolves R checkpoint_key. Proof. unfold checkpoint_key. evolve. Qed.
Hint Resolve with_checkpoint_evolves checkpoint_key_evolves : driver.
Lemma reload_evolves : evolves R reload. Proof. unfold reload. evolve. Qed.
Lemma known_expiry_evolves lease : evolves R (known_expiry lease).
Proof. unfold known_expiry. evolve. Qed.
Lemma heartbeat_error_evolves : evolves R heartbeat_error.
Proof. unfold heartbeat_error. evolve. Qed.
Hint Resolve reload_evolves known_expiry_evolves heartbeat_error_evolves : driver.
Lemma assert_heartbeat_evolves : evolves R assert_heartbeat.
Proof. unfold assert_heartbeat. evolve. Qed.
Lemma stop_heartbeat_evolves : evolves R stop_heartbeat. Proof. unfold stop_heartbeat. evolve. Qed.
Hint Resolve assert_heartbeat_evolves stop_heartbeat_evolves : driver.
Lemma start_heartbeat_evolves : evolves R start_heartbeat.
Proof. unfold start_heartbeat. evolve. Qed.
Lemma renew_once_evolves key token lease known :
  evolves R (renew_heartbeat_once (renew_checkpoint_claim key token) lease known).
Proof. unfold renew_heartbeat_once. evolve. Qed.
Hint Resolve start_heartbeat_evolves renew_once_evolves : driver.
Lemma renew_claim_evolves : evolves R renew_claim_before_dispatch.
Proof. unfold renew_claim_before_dispatch. evolve. Qed.
Lemma snapshot_each_evolves required extensions acc :
  evolves R (snapshot_each required extensions acc).
Proof. revert acc. induction extensions as [|[??]]; intros acc; cbn [snapshot_each]; evolve. Qed.
Hint Resolve renew_claim_evolves snapshot_each_evolves : driver.
Lemma snapshot_into_evolves c : evolves R (snapshot_extensions_into c).
Proof. unfold snapshot_extensions_into. evolve. Qed.
Hint Resolve snapshot_into_evolves : driver.
Lemma snapshot_extensions_evolves : evolves R snapshot_extensions.
Proof. unfold snapshot_extensions. evolve. Qed.
Lemma restore_one_evolves kv : evolves R (restore_one kv). Proof. unfold restore_one. evolve. Qed.
Hint Resolve snapshot_extensions_evolves restore_one_evolves : driver.
Lemma restore_extensions_evolves : evolves R restore_extensions.
Proof. unfold restore_extensions. evolve. Qed.
Lemma progress_evolves : evolves R progress. Proof. unfold progress. evolve. Qed.
Lemma refresh_snapshot_evolves m c s b : evolves R (refresh_snapshot m c s b).
Proof. unfold refresh_snapshot. evolve. Qed.
Lemma set_budget_snapshot_evolves b : evolves R (set_budget_snapshot b).
Proof. unfold set_budget_snapshot. evolve. Qed.
Lemma existing_definition_evolves c : evolves R (validate_existing_definition c).
Proof. unfold validate_existing_definition. evolve. Qed.
Hint Resolve restore_extensions_evolves progress_evolves refresh_snapshot_evolves
  set_budget_snapshot_evolves existing_definition_evolves : driver.
Lemma refresh_authoritative_evolves : evolves R refresh_authoritative.
Proof. unfold refresh_authoritative. evolve. Qed.
Lemma projection_evolves r b m : evolves R (model_request_projection r b m).
Proof. unfold model_request_projection. evolve. Qed.
Lemma find_operation_evolves k id : evolves R (find_operation k id).
Proof. unfold find_operation. evolve. Qed.
Lemma find_tool_call_evolves n id : evolves R (find_tool_call n id).
Proof. unfold find_tool_call. evolve. Qed.
Lemma update_first_evolves k select f : evolves R (update_first k select f).
Proof. unfold update_first. evolve. Qed.
Lemma unresolved_evolves : evolves R unresolved_operation.
Proof. unfold unresolved_operation. evolve. Qed.
Lemma stable_event_id_evolves t l : evolves R (stable_event_id t l).
Proof. unfold stable_event_id. evolve. Qed.
Lemma checkpoint_event_evolves n p id : evolves R (checkpoint_event n p id).
Proof. unfold checkpoint_event. evolve. Qed.
Lemma queue_outbox_event_evolves e : evolves R (queue_outbox_event e).
Proof. unfold queue_outbox_event. evolve. Qed.
Lemma queue_outbox_entry_evolves e : evolves R (queue_outbox_entry e).
Proof. unfold queue_outbox_entry. evolve. Qed.
Lemma update_operation_evolves k id f : evolves R (update_operation k id f).
Proof. apply update_first_evolves. Qed.
Lemma update_tool_call_evolves n id f : evolves R (update_tool_call n id f).
Proof. apply update_first_evolves. Qed.
Hint Resolve refresh_authoritative_evolves projection_evolves find_operation_evolves
  find_tool_call_evolves update_operation_evolves update_tool_call_evolves unresolved_evolves
  stable_event_id_evolves
  checkpoint_event_evolves queue_outbox_event_evolves queue_outbox_entry_evolves : driver.

(** *** Delivery and recovery *)
Lemma hand_over_evolves p : evolves R (hand_over p).
Proof. unfold hand_over. evolve. Qed.
Lemma settle_delivery_evolves p x : evolves R (settle_delivery p x).
Proof. unfold settle_delivery. evolve. Qed.
Hint Resolve hand_over_evolves settle_delivery_evolves : driver.
Lemma deliver_one_evolves : evolves R deliver_one.
Proof. unfold deliver_one. evolve. Qed.
Hint Resolve deliver_one_evolves : driver.
Lemma deliver_evolves n : evolves R (deliver_pending_outbox n).
Proof. induction n; cbn [deliver_pending_outbox]; evolve. Qed.
Lemma terminal_event_evolves e t i : evolves R (stable_model_terminal_event e t i).
Proof. unfold stable_model_terminal_event. evolve. Qed.
Hint Resolve deliver_evolves terminal_event_evolves : driver.
Lemma stable_terminal_evolves t k i : evolves R (stable_terminal t k i).
Proof. unfold stable_terminal. evolve. Qed.
Lemma fresh_stamp_evolves : evolves R fresh_stamp. Proof. unfold fresh_stamp. evolve. Qed.
Lemma require_accounting_evolves e : evolves R (require_accounting e).
Proof. unfold require_accounting. evolve. Qed.
Lemma queue_terminal_evolves t : evolves R (queue_terminal t).
Proof. unfold queue_terminal. evolve. Qed.
Hint Resolve stable_terminal_evolves fresh_stamp_evolves require_accounting_evolves
  queue_terminal_evolves : driver.
Lemma replace_ledger_evolves : evolves R replace_ledger.
Proof. unfold replace_ledger. evolve. Qed.
Hint Resolve replace_ledger_evolves : driver.
Lemma commit_terminal_evolves id t : evolves R (commit_model_terminal fuel id t).
Proof. unfold commit_model_terminal. evolve. Qed.
Lemma emit_durable_evolves e : evolves R (emit_durable fuel e).
Proof. unfold emit_durable. evolve. Qed.
Lemma operation_event_evolves t e p l : evolves R (operation_event t e p l).
Proof. unfold operation_event. evolve. Qed.
Hint Resolve commit_terminal_evolves emit_durable_evolves operation_event_evolves : driver.
Lemma emit_ambiguous_evolves e o : evolves R (emit_ambiguous fuel e o).
Proof. unfold emit_ambiguous. evolve. Qed.
Lemma emit_replayed_evolves e : evolves R (emit_operation_replayed fuel e).
Proof. unfold emit_operation_replayed. evolve. Qed.
Lemma acknowledge_evolves : evolves R acknowledge. Proof. unfold acknowledge. evolve. Qed.
Hint Resolve emit_ambiguous_evolves emit_replayed_evolves acknowledge_evolves : driver.
Lemma suspend_observation_evolves e o b : evolves R (suspend_for_observation fuel e o b).
Proof. unfold suspend_for_observation. evolve. Qed.
Hint Resolve suspend_observation_evolves : driver.
Lemma suspend_for_evolves e : evolves R (suspend_for fuel e).
Proof. unfold suspend_for. evolve. Qed.
Lemma adopt_admission_evolves a : evolves R (adopt_admission fuel a).
Proof. unfold adopt_admission. evolve. Qed.
Hint Resolve suspend_for_evolves adopt_admission_evolves : driver.
Lemma admit_batch_evolves l : evolves R (admit_batch fuel l).
Proof. unfold admit_batch. evolve. Qed.
Lemma accept_batch_evolves l : evolves R (accept_batch fuel l).
Proof. unfold accept_batch. evolve. Qed.
Lemma deferred_result_evolves m c s : evolves R (deferred_result m c s).
Proof. unfold deferred_result. evolve. Qed.
Lemma decision_evolves e o : evolves R (reconciliation_decision fuel e o).
Proof. unfold reconciliation_decision. evolve. Qed.
Lemma ambiguate_model_evolves e : evolves R (ambiguate_model fuel e).
Proof. unfold ambiguate_model. evolve. Qed.
Lemma ambiguate_tools_evolves : evolves R ambiguate_tools.
Proof. unfold ambiguate_tools. evolve. Qed.
Lemma settle_receipt_evolves e r o x : evolves R (settle_receipt fuel e r o x).
Proof. unfold settle_receipt. evolve. Qed.
Hint Resolve admit_batch_evolves accept_batch_evolves deferred_result_evolves decision_evolves
  ambiguate_model_evolves ambiguate_tools_evolves settle_receipt_evolves : driver.
Lemma resolve_operation_evolves e o x : evolves R (resolve_operation fuel e o x).
Proof. unfold resolve_operation. evolve. Qed.
Hint Resolve resolve_operation_evolves : driver.
Lemma reconcile_one_evolves e l : evolves R (reconcile_one fuel e l).
Proof. unfold reconcile_one. evolve. Qed.
Hint Resolve reconcile_one_evolves : driver.
Lemma reconcile_all_evolves es l : evolves R (reconcile_all fuel es l).
Proof. revert l. induction es; intros l; cbn [reconcile_all]; evolve. Qed.
Hint Resolve reconcile_all_evolves : driver.
Lemma recover_evolves : evolves R (recover_ambiguous_operations fuel).
Proof. unfold recover_ambiguous_operations. evolve. Qed.
Lemma claim_held_evolves n : evolves R (claim_held n). Proof. unfold claim_held. evolve. Qed.
Lemma take_claim_evolves n mode : evolves R (take_claim n mode).
Proof. unfold take_claim. evolve. Qed.
Lemma announce_resume_evolves : evolves R (announce_resume fuel).
Proof. unfold announce_resume. evolve. Qed.
Hint Resolve recover_evolves claim_held_evolves take_claim_evolves announce_resume_evolves : driver.
Lemma ensure_claim_evolves n : evolves R (ensure_claim fuel n).
Proof. unfold ensure_claim. evolve. Qed.
Lemma create_new_evolves key : evolves R (create_new_checkpoint fuel key).
Proof. unfold create_new_checkpoint. evolve. Qed.
End Operations.

#[export] Hint Resolve now_ms_evolves require_checkpoint_evolves put_local_evolves
  with_checkpoint_evolves checkpoint_key_evolves reload_evolves assert_heartbeat_evolves
  stop_heartbeat_evolves start_heartbeat_evolves renew_claim_evolves snapshot_extensions_evolves
  restore_extensions_evolves progress_evolves refresh_snapshot_evolves set_budget_snapshot_evolves
  existing_definition_evolves refresh_authoritative_evolves projection_evolves
  find_operation_evolves find_tool_call_evolves update_operation_evolves update_tool_call_evolves
  unresolved_evolves stable_event_id_evolves checkpoint_event_evolves queue_outbox_event_evolves
  queue_outbox_entry_evolves deliver_evolves stable_terminal_evolves fresh_stamp_evolves
  require_accounting_evolves commit_terminal_evolves emit_durable_evolves operation_event_evolves
  emit_ambiguous_evolves emit_replayed_evolves acknowledge_evolves suspend_for_evolves
  admit_batch_evolves deferred_result_evolves ensure_claim_evolves create_new_evolves
  snapshot_into_evolves deliver_one_evolves queue_terminal_evolves replace_ledger_evolves
  suspend_observation_evolves adopt_admission_evolves accept_batch_evolves decision_evolves
  ambiguate_model_evolves ambiguate_tools_evolves settle_receipt_evolves resolve_operation_evolves
  reconcile_one_evolves reconcile_all_evolves recover_evolves claim_held_evolves
  take_claim_evolves announce_resume_evolves : driver.

Section Entries.
Context `{Env} `{StrictJson} `{Host} (R : World -> World -> Prop) `{!Evolution R} (fuel : nat).

Lemma set_lease_duration_evolves n : evolves R (set_lease_duration_ms n).
Proof. unfold set_lease_duration_ms. evolve. Qed.
Lemma bind_accounting_evolves co : evolves R (bind_model_accounting co).
Proof. unfold bind_model_accounting. evolve. Qed.
Lemma hydrate_result_evolves r : evolves R (hydrate_result r).
Proof. unfold hydrate_result. evolve. Qed.
Hint Resolve set_lease_duration_evolves bind_accounting_evolves : driver.
Lemma adopt_terminal_evolves t n : evolves R (adopt_claim_for_terminal_finalize t n).
Proof. unfold adopt_claim_for_terminal_finalize. evolve. Qed.
Lemma adopt_existing_evolves t n : evolves R (adopt_existing_claim t n).
Proof. unfold adopt_existing_claim. evolve. Qed.
Lemma terminal_from_evolves v : evolves R (terminal_from v).
Proof. unfold terminal_from. evolve. Qed.
Hint Resolve terminal_from_evolves adopt_terminal_evolves : driver.
Lemma replay_terminal_evolves : evolves R (replay_terminal fuel).
Proof. unfold replay_terminal. evolve. Qed.
Hint Resolve replay_terminal_evolves : driver.
Lemma replay_keyed_evolves : evolves R (replay_terminal_keyed fuel).
Proof. unfold replay_terminal_keyed. evolve. Qed.
Lemma replay_if_present_evolves : evolves R (replay_terminal_if_present fuel).
Proof. unfold replay_terminal_if_present. evolve. Qed.
Lemma commit_cycle_evolves n m c s b : evolves R (commit_cycle fuel n m c s b).
Proof. unfold commit_cycle. evolve. Qed.
Lemma existing_evolves key : evolves R (existing_checkpoint key).
Proof. unfold existing_checkpoint. evolve. Qed.
Hint Resolve replay_keyed_evolves commit_cycle_evolves existing_evolves : driver.
Lemma resume_existing_evolves c : evolves R (resume_existing fuel c).
Proof. unfold resume_existing. evolve. Qed.
Hint Resolve resume_existing_evolves : driver.
Lemma admit_evolves : evolves R (admit_run fuel). Proof. unfold admit_run. evolve. Qed.
Lemma begin_cycle_evolves n : evolves R (begin_cycle fuel n). Proof. unfold begin_cycle. evolve. Qed.

(** *** Model calls *)
Lemma new_call_identity_evolves q : evolves R (new_call_identity q).
Proof. unfold new_call_identity. evolve. Qed.
Lemma replay_model_evolves q d e : evolves R (replay_model fuel q d e).
Proof. unfold replay_model. evolve. Qed.
Lemma plan_model_evolves q d i : evolves R (plan_model q d i).
Proof. unfold plan_model. evolve. Qed.
Lemma start_model_evolves q id : evolves R (start_model fuel q id).
Proof. unfold start_model. evolve. Qed.
Lemma settle_ambiguous_evolves id i e : evolves R (settle_ambiguous fuel id i e).
Proof. unfold settle_ambiguous. evolve. Qed.
Hint Resolve new_call_identity_evolves replay_model_evolves plan_model_evolves start_model_evolves
  settle_ambiguous_evolves : driver.
Lemma settle_model_evolves id i v : evolves R (settle_model fuel id i v).
Proof. unfold settle_model. evolve. Qed.
Hint Resolve settle_model_evolves : driver.

(** Only a call of the model takes more than the primitive steps. *)
Definition may_invoke : Prop := forall id attempt, evolves R (emit (Invoked id attempt)).
Lemma run_planned_evolves q id v : may_invoke -> evolves R (run_planned fuel q id v).
Proof. intros Hi. unfold run_planned. evolve. Qed.
Hint Resolve run_planned_evolves : driver.
Lemma complete_model_evolves q b v : may_invoke -> evolves R (complete_model fuel q b v).
Proof. intros Hi. unfold complete_model. evolve. Qed.

(** *** Tool calls and the end of a run *)
Lemma plan_existing_evolves k c s ik sd p e : evolves R (plan_existing fuel k c s ik sd p e).
Proof. unfold plan_existing. evolve. Qed.
Lemma tool_missing_evolves {A} (o : option A) : evolves R (tool_missing o).
Proof. unfold tool_missing. evolve. Qed.
Hint Resolve plan_existing_evolves tool_missing_evolves : driver.
Lemma plan_tool_evolves n c s b sd sk : evolves R (plan_tool fuel n c s b sd sk).
Proof. unfold plan_tool. evolve. Qed.
Lemma tool_started_evolves n c : evolves R (tool_started n c).
Proof. unfold tool_started. evolve. Qed.
Lemma preflight_evolves n c : evolves R (preflight_tool_dispatch n c).
Proof. unfold preflight_tool_dispatch. evolve. Qed.
Lemma update_budget_evolves b : evolves R (update_budget_usage b).
Proof. unfold update_budget_usage. evolve. Qed.
Lemma suspend_tool_evolves n c : evolves R (suspend_tool fuel n c).
Proof. unfold suspend_tool. evolve. Qed.
Lemma finish_planned_evolves n r c : evolves R (finish_planned n r c).
Proof. unfold finish_planned. evolve. Qed.
Hint Resolve suspend_tool_evolves finish_planned_evolves : driver.
Lemma finish_started_evolves n r c e : evolves R (finish_started fuel n r c e).
Proof. unfold finish_started. evolve. Qed.
Hint Resolve finish_started_evolves : driver.
Lemma finish_tool_evolves n c r b : evolves R (finish_tool fuel n c r b).
Proof. unfold finish_tool. evolve. Qed.
Lemma context_evolves : evolves R host_interaction_admission_context.
Proof. unfold host_interaction_admission_context. evolve. Qed.
Hint Resolve finish_tool_evolves context_evolves : driver.
Lemma admit_interaction_evolves x m c s b : evolves R (admit_interaction x m c s b).
Proof. unfold admit_interaction. evolve. Qed.
Hint Resolve admit_interaction_evolves : driver.
Lemma finish_interaction_evolves x m c s b : evolves R (finish_host_interaction fuel x m c s b).
Proof. unfold finish_host_interaction. evolve. Qed.
Lemma prepare_terminal_evolves r : evolves R (prepare_terminal fuel r).
Proof. unfold prepare_terminal. evolve. Qed.
Lemma preterminal_evolves e i : evolves R (persist_preterminal_event fuel e i).
Proof. unfold persist_preterminal_event. evolve. Qed.
Lemma staged_evolves : evolves R staged_unclaimed_outbox.
Proof. unfold staged_unclaimed_outbox. evolve. Qed.
Lemma cancellation_evolves r e : evolves R (apply_cancellation r e).
Proof. unfold apply_cancellation. evolve. Qed.
Lemma terminal_queue_evolves e : evolves R (queue_terminal_event e).
Proof. unfold queue_terminal_event. evolve. Qed.
Lemma finalize_store_evolves : evolves R finalize_store. Proof. unfold finalize_store. evolve. Qed.
Lemma foreign_claim_evolves r : evolves R (foreign_claim r). Proof. unfold foreign_claim. evolve. Qed.
Hint Resolve staged_evolves cancellation_evolves terminal_queue_evolves finalize_store_evolves
  foreign_claim_evolves : driver.
Lemma finalize_open_evolves r e : evolves R (finalize_open fuel r e).
Proof. unfold finalize_open. evolve. Qed.
Hint Resolve finalize_open_evolves : driver.
Lemma finalize_evolves r e : evolves R (finalize fuel r e). Proof. unfold finalize. evolve. Qed.
Lemma candidate_evolves n b l : evolves R (admit_terminal_candidate fuel n b l).
Proof. unfold admit_terminal_candidate. evolve. Qed.
End Entries.

#[export] Hint Resolve bind_accounting_evolves new_call_identity_evolves replay_model_evolves
  plan_model_evolves start_model_evolves settle_ambiguous_evolves settle_model_evolves
  plan_existing_evolves plan_tool_evolves tool_missing_evolves tool_started_evolves
  suspend_tool_evolves finish_planned_evolves finish_started_evolves finish_tool_evolves
  replay_terminal_evolves commit_cycle_evolves resume_existing_evolves : driver.

(** ** Observations

    Operations that only look: time passes and nothing else. *)

Definition observed (w w' : World) : Prop :=
  w_driver w' = w_driver w /\ w_store w' = w_store w /\ w_log w' = w_log w.
#[global] Instance observed_preorder : PreOrder observed.
Proof.
  split; [by intros w; repeat split|].
  intros a b c (H1 & H2 & H3) (H4 & H5 & H6). repeat split; congruence.
Qed.
Lemma observed_run {A} (m : D A) w r w' : evolves observed m -> m w = (r, w') -> observed w w'.
Proof. intros Hm Hr. specialize (Hm w). by rewrite Hr in Hm. Qed.

Section Observations.
Context `{Env} `{StrictJson} `{Host}.
Lemma tick_observed : evolves observed tick. Proof. by intros w. Qed.
Hint Resolve tick_observed : driver.
Lemma now_ms_observed : evolves observed now_ms. Proof. unfold now_ms. evolve. Qed.
Lemma require_checkpoint_observed : evolves observed require_checkpoint.
Proof. unfold require_checkpoint. evolve. Qed.
Lemma known_expiry_observed lease : evolves observed (known_expiry lease).
Proof. unfold known_expiry. evolve. Qed.
Lemma heartbeat_error_observed : evolves observed heartbeat_error.
Proof. unfold heartbeat_error. evolve. Qed.
Hint Resolve now_ms_observed require_checkpoint_observed known_expiry_observed
  heartbeat_error_observed : driver.
Lemma assert_heartbeat_observed : evolves observed assert_heartbeat.
Proof. unfold assert_heartbeat. evolve. Qed.
Lemma checkpoint_key_observed : evolves observed checkpoint_key.
Proof. unfold checkpoint_key. evolve. Qed.
Hint Resolve assert_heartbeat_observed checkpoint_key_observed : driver.
Lemma snapshot_each_observed required l acc : evolves observed (snapshot_each required l acc).
Proof. revert acc. induction l as [|[??]]; intros acc; cbn [snapshot_each]; evolve. Qed.
Hint Resolve snapshot_each_observed : driver.
Lemma snapshot_into_observed c : evolves observed (snapshot_extensions_into c).
Proof. unfold snapshot_extensions_into. evolve. Qed.
Lemma hand_over_observed p : evolves observed (hand_over p).
Proof. unfold hand_over. evolve. Qed.
Lemma find_operation_observed k id : evolves observed (find_operation k id).
Proof. unfold find_operation. evolve. Qed.
Lemma find_tool_call_observed n id : evolves observed (find_tool_call n id).
Proof. unfold find_tool_call. evolve. Qed.
Lemma stable_event_id_observed t l : evolves observed (stable_event_id t l).
Proof. unfold stable_event_id. evolve. Qed.
Lemma checkpoint_event_observed n p id : evolves observed (checkpoint_event n p id).
Proof. unfold checkpoint_event. evolve. Qed.
Hint Resolve snapshot_into_observed find_operation_observed find_tool_call_observed
  stable_event_id_observed checkpoint_event_observed : driver.
Lemma operation_event_observed t e p l : evolves observed (operation_event t e p l).
Proof. unfold operation_event. evolve. Qed.
Lemma fresh_stamp_observed : evolves observed fresh_stamp. Proof. unfold fresh_stamp. evolve. Qed.
Lemma require_accounting_observed e : evolves observed (require_accounting e).
Proof. unfold require_accounting. evolve. Qed.
Lemma terminal_event_observed e t i : evolves observed (stable_model_terminal_event e t i).
Proof. unfold stable_model_terminal_event. evolve. Qed.
Hint Resolve terminal_event_observed : driver.
Lemma stable_terminal_observed t k i : evolves observed (stable_terminal t k i).
Proof. unfold stable_terminal. evolve. Qed.
Lemma projection_observed r b m : evolves observed (model_request_projection r b m).
Proof. unfold model_request_projection. evolve. Qed.
Lemma unresolved_observed : evolves observed unresolved_operation.
Proof. unfold unresolved_operation. evolve. Qed.
End Observations.
#[export] Hint Resolve tick_observed now_ms_observed require_checkpoint_observed
  assert_heartbeat_observed checkpoint_key_observed snapshot_into_observed find_operation_observed
  find_tool_call_observed stable_event_id_observed checkpoint_event_observed
  operation_event_observed fresh_stamp_observed require_accounting_observed
  stable_terminal_observed projection_observed unresolved_observed hand_over_observed : driver.

(** [observe H as p]: what the run [H], which only looked, left alone. *)
Tactic Notation "observe" ident(H) "as" simple_intropattern(p) :=
  match type of H with
  | ?m ?w = (_, ?w') =>
      let Ho := fresh in
      assert (Ho : observed w w')
        by (refine (observed_run m w _ w' _ H); solve [eauto with driver nocore]);
      destruct Ho as p
  end.
