(* ===== verification/DriverSafety.v ===== *)
(** * What the resume driver guarantees

    Theorems about [Driver.v] and [DriverOps.v], for every behaviour of the
    host and of the other processes unless a hypothesis says otherwise: the
    driver changes the store only through its interface; the model is called
    at most once by an operation, after the call is durable as started and
    before its answer is given; settled operations are replayed; delivery
    terminates; and recovery leaves no operation open. *)

From Stdlib Require Import Ascii String NArith Lia.
From stdpp Require Import base strings list sets gmap relations pretty.
From S2P Require Import Prelude Json Canonical CheckpointTypes ToolResult Journal TokenUsage.
From S2P Require Import Budget BudgetWire Records ResultCodec Events HostInteraction Controller.
From S2P Require Import Checkpoint History Deferred Transitions Store StoreController ApiMoves.
From S2P Require Import ApiSafety ToolPolicy Settings ModelCalls Driver DriverOps DriverRules.

(** ** The operations of the driver *)

Section Ops.
Context `{Env} `{StrictJson} `{Host} (fuel : nat).

Inductive DriverOp :=
| DoAdmit
| DoBegin (cycle : N)
| DoModel (q : ModelCallDispatchRequest) (budget : option BudgetUsageSnapshot) (v : Invocation)
| DoPlanTool (cycle : N) (call : ToolCall) (support : ToolIdempotency)
    (budget : option BudgetUsageSnapshot) (source_digest source_key : option string)
| DoPreflight (cycle : N) (call : ToolCall)
| DoToolStarted (cycle : N) (call : ToolCall)
| DoFinishTool (cycle : N) (call : ToolCall) (r : ToolExecutionResult)
    (budget : option BudgetUsageSnapshot)
| DoBudget (budget : option BudgetUsageSnapshot)
| DoDefer (entries : list DeferredBatchEntry)
| DoInteraction (request : HostInteractionRequest) (messages : list Message)
    (cycles : list CycleRecord) (shared_state : object) (budget : option BudgetUsageSnapshot)
| DoCommit (cycle : N) (messages : list Message) (cycles : list CycleRecord) (shared_state : object)
    (budget : option BudgetUsageSnapshot)
| DoPrepare (r : AgentResult)
| DoPreterminal (e : RunEvent) (identity : string)
| DoFinalize (r : AgentResult) (event : option RunEvent)
| DoReplay
| DoHydrate (r : AgentResult)
| DoAdoptTerminal (token : string) (lease : N)
| DoAdoptExisting (token : string) (cycle : N)
| DoCandidate (revision : N) (requires_claim : bool) (lease : N)
| DoRefresh.

Definition d_discard {A} (m : D A) : D unit := m ≫= fun _ => mret tt.
Definition run_driver (op : DriverOp) : D unit :=
  match op with
  | DoAdmit => d_discard (admit_run fuel)
  | DoBegin n => d_discard (begin_cycle fuel n)
  | DoModel q b v => d_discard (complete_model fuel q b v)
  | DoPlanTool n c s b sd sk => d_discard (plan_tool fuel n c s b sd sk)
  | DoPreflight n c => preflight_tool_dispatch n c
  | DoToolStarted n c => tool_started n c
  | DoFinishTool n c r b => d_discard (finish_tool fuel n c r b)
  | DoBudget b => update_budget_usage b
  | DoDefer l => d_discard (admit_batch fuel l)
  | DoInteraction x m c s b => d_discard (finish_host_interaction fuel x m c s b)
  | DoCommit n m c s b => commit_cycle fuel n m c s b
  | DoPrepare r => d_discard (prepare_terminal fuel r)
  | DoPreterminal e i => persist_preterminal_event fuel e i
  | DoFinalize r e => d_discard (finalize fuel r e)
  | DoReplay => d_discard (replay_terminal_if_present fuel)
  | DoHydrate r => d_discard (hydrate_result r)
  | DoAdoptTerminal t n => adopt_claim_for_terminal_finalize t n
  | DoAdoptExisting t n => adopt_existing_claim t n
  | DoCandidate n b l => d_discard (admit_terminal_candidate fuel n b l)
  | DoRefresh => d_discard refresh_authoritative
  end.

Lemma run_driver_evolves (R : World -> World -> Prop) `{!Evolution R} op :
  may_invoke R -> evolves R (run_driver op).
Proof.
  intros Hi. destruct op; cbn [run_driver]; unfold d_discard;
    try (apply evolves_bind; [typeclasses eauto| |intros; apply evolves_ret; typeclasses eauto]).
  - by apply admit_evolves.
  - by apply begin_cycle_evolves.
  - by apply complete_model_evolves.
  - by apply plan_tool_evolves.
  - by apply preflight_evolves.
  - by apply tool_started_evolves.
  - by apply finish_tool_evolves.
  - by apply update_budget_evolves.
  - by apply admit_batch_evolves.
  - by apply finish_interaction_evolves.
  - by apply commit_cycle_evolves.
  - by apply prepare_terminal_evolves.
  - by apply preterminal_evolves.
  - by apply finalize_evolves.
  - by apply replay_if_present_evolves.
  - by apply hydrate_result_evolves.
  - by apply adopt_terminal_evolves.
  - by apply adopt_existing_evolves.
  - by apply candidate_evolves.
  - by apply refresh_authoritative_evolves.
Qed.

(** ** The store moves through its interface *)

Context (kept : string -> Prop).

(** The store after every call, and at the end, is reached from the store at
    the beginning. *)
Definition store_reached (w w' : World) : Prop :=
  rtc (api_step kept) (w_store w) (w_store w') /\
  exists ext, w_log w' = w_log w ++ ext /\
    forall s, StoreAfter s ∈ ext -> rtc (api_step kept) (w_store w) s.

Lemma store_reached_same w w' (ext : list Effect) :
  w_store w' = w_store w -> w_log w' = w_log w ++ ext -> (forall s, StoreAfter s ∉ ext) ->
  store_reached w w'.
Proof.
  intros Hs Hl Hn. unfold store_reached. rewrite Hs. split; [reflexivity|]. exists ext.
  split; [done|]. intros s Hin. by apply Hn in Hin.
Qed.
#[global] Instance store_reached_preorder : PreOrder store_reached.
Proof.
  split.
  - intros w. apply (store_reached_same _ _ []); [done|by rewrite app_nil_r|set_solver].
  - intros w1 w2 w3 [H12 (e1 & He1 & Hs1)] [H23 (e2 & He2 & Hs2)]. split; [by etransitivity|].
    exists (e1 ++ e2). rewrite He2, He1, app_assoc. split; [done|].
    intros s [Hin|Hin]%elem_of_app; [by apply Hs1|]. etransitivity; [exact H12|by apply Hs2].
Qed.

Context (quiet_or_api : forall n s, rtc (api_step kept) s (host_interfere n s)).

Lemma call_reached {A} (m : (string -> Number) -> M A) w :
  api_call m -> store_reached w (call m w).2.
Proof.
  intros Hm. unfold call.
  destruct (m (fun _ => host_stamp (w_tick w)) (host_interfere (w_tick w) (w_store w))) as [r s] eqn:E.
  assert (Hs : rtc (api_step kept) (w_store w) s).
  { etransitivity; [apply quiet_or_api|]. destruct Hm as [Hm|[op Hm]].
    - specialize (Hm (fun _ => host_stamp (w_tick w)) (host_interfere (w_tick w) (w_store w))).
      rewrite E in Hm. cbn in Hm. by subst.
    - apply rtc_once. specialize (Hm (fun _ => host_stamp (w_tick w)) (host_interfere (w_tick w) (w_store w))).
      rewrite E in Hm. cbn in Hm. subst. apply as_op. }
  split; [done|]. exists [StoreAfter s]. split; [done|].
  intros s' Hin%list_elem_of_singleton. by simplify_eq.
Qed.
#[local] Instance store_evolution : Evolution store_reached.
Proof.
  constructor; [typeclasses eauto|..].
  - intros f w. apply (store_reached_same _ _ []); [done|by rewrite app_nil_r|set_solver].
  - intros w. apply (store_reached_same _ _ []); [done|by rewrite app_nil_r|set_solver].
  - intros e w. apply (store_reached_same _ _ [Delivered e]); [done|done|]. intros s Hin. set_solver.
  - intros A m w. apply call_reached.
Qed.
Lemma invoke_reached : may_invoke store_reached.
Proof.
  intros id attempt w. apply (store_reached_same _ _ [Invoked id attempt]); [done|done|].
  intros s Hin. set_solver.
Qed.
Lemma driver_store_reached op w : store_reached w (run_driver op w).2.
Proof. apply run_driver_evolves; [typeclasses eauto|apply invoke_reached]. Qed.
End Ops.

(** ** Runs of the basic operations *)

Section Runs.
Context `{Env} `{StrictJson} `{Host}.

Lemma require_run w c w' :
  require_checkpoint w = (Ok c, w') -> d_checkpoint (w_driver w) = Some c /\ w' = w.
Proof.
  unfold require_checkpoint. intros Hr. driver_inv.
  match goal with E : ok_or _ _ = Ok _ |- _ => by apply ok_or_Ok in E end.
Qed.
Lemma key_run w key w' :
  checkpoint_key w = (Ok key, w') ->
  exists c, d_checkpoint (w_driver w) = Some c /\ key = cp_checkpoint_key c /\ w' = w.
Proof. unfold checkpoint_key. intros Hr. driver_inv. apply require_run in Hrun as [Hc ->]. eauto. Qed.
Definition after_call (w : World) (s : Store) : World :=
  {| w_driver := w_driver w; w_store := s; w_tick := S (w_tick w);
     w_log := w_log w ++ [StoreAfter s] |}.
Lemma call_run {A} (m : (string -> Number) -> M A) w r w' :
  call m w = (r, w') -> exists s,
    m (fun _ => host_stamp (w_tick w)) (host_interfere (w_tick w) (w_store w)) = (r, s) /\
    w' = after_call w s.
Proof. unfold call. destruct (m _ _) as [x s]. intros [= <- <-]. by exists s. Qed.
Lemma reload_run w w' :
  reload w = (Ok tt, w') -> exists c c',
    d_checkpoint (w_driver w) = Some c /\
    map_get (cp_checkpoint_key c) (st_checkpoints (w_store w')) = Some c' /\
    w_store w' = host_interfere (w_tick w) (w_store w) /\
    w_driver w' = set_d_checkpoint (w_driver w) (Some c') /\
    w_log w' = w_log w ++ [StoreAfter (w_store w')].
Proof.
  unfold reload. intros Hr. driver_inv. apply key_run in Hrun as (c & Hc & -> & ->).
  apply call_run in Hrun0 as (s & Hm & ->).
  unfold load_checkpoint in Hm. store_inv. cbn [w_store w_driver w_log after_call].
  match goal with E : is_none ?o = false |- _ => destruct o as [c'|] eqn:Hget; [|done] end.
  exists c, c'. by repeat split.
Qed.
Lemma snapshot_run w w' :
  snapshot_extensions w = (Ok tt, w') -> exists c x,
    d_checkpoint (w_driver w) = Some c /\
    w_driver w' = set_d_checkpoint (w_driver w) (Some (set_extension_state c x)) /\
    w_store w' = w_store w /\ w_log w' = w_log w.
Proof.
  unfold snapshot_extensions, put_local. intros Hr. driver_inv.
  apply require_run in Hrun as [Hc ->]. observe Hrun0 as (Hd & Hs & Hl).
  unfold snapshot_extensions_into in Hrun0. driver_inv.
  cbn [w_driver w_store w_log]. rewrite Hd. by eauto 10.
Qed.
Lemma heartbeat_owned w w' c token :
  assert_heartbeat w = (Ok tt, w') -> d_checkpoint (w_driver w) = Some c ->
  cp_claim_token c = Some token -> d_owned_claim_token (w_driver w) = Some token.
Proof.
  intros Ha Hc Ht. unfold assert_heartbeat in Ha.
  apply d_bind_run in Ha as [(failed & w1 & Hrun & Ha)|(e & _ & ?)]; [|done].
  assert (Ho : observed w w1) by (eapply observed_run; [apply heartbeat_error_observed|exact Hrun]).
  destruct Ho as (Hd & _ & _). rewrite <- Hd in Hc |- *. destruct failed; [by driver_inv|].
  apply d_bind_run in Ha as [(d & w2 & Hg & Ha)|(e & _ & ?)]; [|done]. unfold get_driver in Hg.
  simplify_eq. rewrite Hc, Ht in Ha.
  apply d_bind_run in Ha as [(u & w3 & Hg & Ha)|(e & _ & ?)]; [|done].
  unfold d_reject in Hg. destruct (negb _) eqn:Hn; [done|].
  apply negb_false_iff, opt_is_true in Hn. done.
Qed.

(** What the history archive does not move. *)
Definition work (c : Checkpoint) :=
  (cp_model_call_journal c, cp_tool_journal c, cp_event_outbox c,
   (cp_claim_token c, cp_claimed_cycle c, cp_lease_expires_at_ms c), cp_checkpoint_key c,
   cp_revision c, cp_status c).
Lemma normalize_work c c' ob :
  validate_checkpoint c = Ok tt -> normalize_checkpoint_history c = Ok (c', ob) -> work c' = work c.
Proof.
  intros Hv Hn. pose proof (normalize_spec _ _ _ Hv Hn) as Hs. destruct ob as [batch|]; [|by subst].
  destruct Hs as (cycles & calls & Hai). rewrite (ai_frame _ _ _ _ _ Hai). by destruct c.
Qed.

(** A write of progress that went through: the store held the local journals
    under the driver's own claim. *)
Lemma prepared_progress current c token n d :
  prepare_progress current c token n = Ok (Some d) ->
  validate_checkpoint d = Ok tt /\ cp_checkpoint_key d = cp_checkpoint_key c /\
  cp_model_call_journal d = cp_model_call_journal c /\ cp_tool_journal d = cp_tool_journal c /\
  cp_claim_token d = Some token /\ cp_claimed_cycle d = cp_claimed_cycle current /\
  cp_revision d = (n + 1)%N.
Proof.
  intros Hp. pose proof (progress_spec _ _ _ _ _ Hp) as ([[Hv _ Hid] _] & _ & _ & _ & Ht & _ & _).
  split; [done|]. unfold prepare_progress in Hp. result_inv.
  apply seal_spec in Hdo0 as [-> _]. apply merge_spec in Hdo as (outbox & _ & ->). done.
Qed.
Lemma progress_run w w' :
  progress w = (Ok tt, w') -> exists c x token n s c' s2 c2,
    d_checkpoint (w_driver w) = Some c /\ cp_claim_token c = Some token /\
    d_owned_claim_token (w_driver w) = Some token /\
    progress_checkpoint (set_extension_state c x) token (cp_revision c)
      (host_interfere n (w_store w)) = (Ok true, s) /\
    map_get (cp_checkpoint_key c) (st_checkpoints s) = Some c' /\
    cp_claim_token c' = Some token /\ cp_model_call_journal c' = cp_model_call_journal c /\
    cp_tool_journal c' = cp_tool_journal c /\ cp_checkpoint_key c' = cp_checkpoint_key c /\
    s2 = host_interfere (S n) s /\ map_get (cp_checkpoint_key c) (st_checkpoints s2) = Some c2 /\
    w_store w' = s2 /\ w_driver w' = set_d_checkpoint (w_driver w) (Some c2) /\
    w_log w' = w_log w ++ [StoreAfter s; StoreAfter s2].
Proof.
  unfold progress. intros Hr. driver_inv.
  observe Hrun as (Hd & Hs & Hl). apply snapshot_run in Hrun0 as (c & x & Hc & Hd1 & Hs1 & Hl1).
  apply require_run in Hrun1 as [Hc1 ->]. rewrite Hd1 in Hc1. injection Hc1 as <-.
  match goal with E : ok_or _ _ = Ok ?t |- _ => apply ok_or_Ok in E as Ht; rename t into token end.
  apply negb_false_iff in Hrej as ->. rewrite Hd in Hc, Hd1.
  pose proof (heartbeat_owned _ _ _ _ Hrun Hc Ht) as Hown.
  apply call_run in Hrun3 as (s & Hp & ->). pose proof Hp as Hp'.
  unfold progress_checkpoint in Hp'.
  apply update_run in Hp' as (current & d & c' & ob & _ & Hprep & Hnorm & Hput).
  apply prepared_progress in Hprep as (Hv & Hk & Hm & Ht' & Htok & Hcy & _).
  pose proof (normalize_work _ _ _ Hv Hnorm) as Hw. unfold work in Hw. injection Hw as Wm Wt _ Wtok _ _ Wk _ _.
  assert (Hkey : cp_checkpoint_key c' = cp_checkpoint_key c) by (rewrite Wk; exact Hk).
  apply reload_run in Hr as (c1 & c2 & Hc2 & Hget & Hs2 & Hd2 & Hl2).
  cbn [after_call w_driver w_store w_log w_tick] in *. rewrite Hd1 in Hc2, Hd2. injection Hc2 as <-.
  exists c, x, token, (w_tick x2), s, c', (w_store w'), c2. rewrite Hs1, Hs in *.
  split_and!; try done.
  - rewrite Hput, Hkey. apply map_get_insert_eq.
  - by rewrite Wtok.
  - by rewrite Wm.
  - by rewrite Wt.
  - rewrite Hl2, Hl1, Hl, <- app_assoc. done.
Qed.

Lemma update_first_run k select f w w' :
  update_first k select f w = (Ok tt, w') -> exists c i e e',
    d_checkpoint (w_driver w) = Some c /\ journal_of k c !! i = Some e /\ select e = true /\
    f e = (e', Ok tt) /\ w_store w' = w_store w /\ w_log w' = w_log w /\
    w_driver w' = set_d_checkpoint (w_driver w)
                    (Some (set_journal k c (<[i := e']> (journal_of k c)))).
Proof.
  unfold update_first, put_local. intros Hr. driver_inv.
  apply require_run in Hrun as [Hc ->]. apply position_Some in Hcase as (e & He & Hsel).
  simplify_eq. by eauto 12.
Qed.
Lemma queue_run e w w' :
  queue_outbox_event e w = (Ok tt, w') -> exists c outbox,
    d_checkpoint (w_driver w) = Some c /\
    w_driver w' = set_d_checkpoint (w_driver w) (Some (set_event_outbox c outbox)) /\
    w_store w' = w_store w /\ w_log w' = w_log w.
Proof.
  unfold queue_outbox_event, put_local. intros Hr. driver_inv.
  apply require_run in Hrun as [Hc ->]. unfold queue_event in *. result_inv. by eauto 10.
Qed.
End Runs.

(** ** The log *)

Definition invocations (l : list Effect) : list (string * N) :=
  omap (fun x => match x with Invoked id attempt => Some (id, attempt) | _ => None end) l.
Lemma invocations_app l1 l2 : invocations (l1 ++ l2) = invocations l1 ++ invocations l2.
Proof. apply omap_app. Qed.
(** Nothing was asked of the model. *)
Definition log_quiet (w w' : World) : Prop :=
  exists ext, w_log w' = w_log w ++ ext /\ invocations ext = [].
Lemma log_quiet_same w w' : w_log w' = w_log w -> log_quiet w w'.
Proof. intros Hl. exists []. by rewrite app_nil_r. Qed.
#[global] Instance log_quiet_preorder : PreOrder log_quiet.
Proof.
  split; [by intros w; apply log_quiet_same|].
  intros w1 w2 w3 (e1 & He1 & Hi1) (e2 & He2 & Hi2). exists (e1 ++ e2).
  by rewrite He2, He1, app_assoc, invocations_app, Hi1, Hi2.
Qed.
Section Log.
Context `{Env} `{StrictJson} `{Host}.
#[global] Instance log_evolution : Evolution log_quiet.
Proof.
  constructor; [typeclasses eauto|..].
  - intros f w. by apply log_quiet_same.
  - intros w. by apply log_quiet_same.
  - intros e w. by exists [Delivered e].
  - intros A m w _. destruct (call m w) as [r w'] eqn:E. apply call_run in E as (s & _ & ->).
    by exists [StoreAfter s].
Qed.
Lemma log_step {A} (m : D A) w r w' : m w = (r, w') -> evolves log_quiet m -> log_quiet w w'.
Proof. intros Hr Hm. specialize (Hm w). by rewrite Hr in Hm. Qed.
End Log.

(** ** Durable operations *)

(** The store holds, under a claim, an operation with the property. *)
Definition durable (P : OperationJournalEntry -> Prop) (s : Store) : Prop :=
  exists k c token e, map_get k (st_checkpoints s) = Some c /\ cp_claim_token c = Some token /\
    e ∈ journals c /\ P e.
(** A call of the store left it with the property. *)
Definition recorded (ext : list Effect) (P : Store -> Prop) : Prop :=
  exists s, StoreAfter s ∈ ext /\ P s.
Lemma recorded_app l1 l2 P : recorded l1 P \/ recorded l2 P -> recorded (l1 ++ l2) P.
Proof. intros [(s & Hs & HP)|(s & Hs & HP)]; exists s; set_solver. Qed.

(** The log grows by writes that left the store with the property, and by no
    call of the model. *)
Definition logs (P : Store -> Prop) (w w' : World) : Prop :=
  exists ext, w_log w' = w_log w ++ ext /\ invocations ext = [] /\ recorded ext P.
Lemma logs_after P w1 w2 w3 : log_quiet w1 w2 -> logs P w2 w3 -> logs P w1 w3.
Proof.
  intros (e1 & He1 & Hi1) (e2 & He2 & Hi2 & Hr). exists (e1 ++ e2).
  rewrite He2, He1, app_assoc, invocations_app, Hi1, Hi2. auto using recorded_app.
Qed.
Lemma logs_before P w1 w2 w3 : logs P w1 w2 -> log_quiet w2 w3 -> logs P w1 w3.
Proof.
  intros (e1 & He1 & Hi1 & Hr) (e2 & He2 & Hi2). exists (e1 ++ e2).
  rewrite He2, He1, app_assoc, invocations_app, Hi1, Hi2. auto using recorded_app.
Qed.

Section Durable.
Context `{Env} `{StrictJson} `{Host} (fuel : nat).

Lemma journal_in k c e : e ∈ journal_of k c -> e ∈ journals c.
Proof. unfold journals. destruct k; cbn; set_solver. Qed.
Lemma progress_durable w w' c P e :
  progress w = (Ok tt, w') -> d_checkpoint (w_driver w) = Some c -> e ∈ journals c -> P e ->
  logs (durable P) w w'.
Proof.
  intros (c0 & x & token & n & s & c' & s2 & c2 & Hc & _ & _ & _ & Hget & Ht & Hm & Htj & _ & _ & _
    & _ & _ & Hl)%progress_run Hc0 He HP. simplify_eq.
  eexists. split; [exact Hl|]. split; [done|]. exists s. split; [by left|].
  exists (cp_checkpoint_key c0), c', token, e. split_and!; try done. unfold journals in *. by rewrite Hm, Htj.
Qed.
Lemma updated_in k c i e' : is_Some (journal_of k c !! i) -> e' ∈ journals (set_journal k c (<[i := e']> (journal_of k c))).
Proof.
  intros Hi%lookup_lt_is_Some. apply (journal_in k).
  replace (journal_of k (set_journal k c _)) with (<[i := e']> (journal_of k c)) by by destruct k.
  apply list_elem_of_lookup. exists i. by apply list_lookup_insert_eq.
Qed.

(** The local journals stay as they are. *)
Definition journals_kept (w w' : World) : Prop :=
  forall c, d_checkpoint (w_driver w) = Some c -> exists c',
    d_checkpoint (w_driver w') = Some c' /\ journals c' = journals c.
#[global] Instance journals_kept_preorder : PreOrder journals_kept.
Proof.
  split; [by intros w c; eauto|]. intros w1 w2 w3 H12 H23 c Hc.
  destruct (H12 c Hc) as (c2 & Hc2 & <-). by apply H23.
Qed.
Lemma observed_kept w w' : observed w w' -> journals_kept w w'.
Proof. intros (Hd & _) c. rewrite Hd. eauto. Qed.
Lemma queue_kept e w w' : queue_outbox_event e w = (Ok tt, w') -> journals_kept w w'.
Proof. intros (c & o & Hc & Hd & _)%queue_run c0 Hc0. rewrite Hd. simplify_eq. by eexists. Qed.
Lemma queue_terminal_kept t w w' : queue_terminal t w = (Ok tt, w') -> journals_kept w w'.
Proof.
  unfold queue_terminal, put_local. intros Hr. driver_inv.
  all: apply require_run in Hrun as [Hc ->]; intros c0 Hc0; simplify_eq.
  all: match goal with Hq : queue_outbox_event _ ?w1 = (_, ?w2) |- _ =>
         edestruct (queue_kept _ w1 w2 Hq _ eq_refl) as (c1 & Hc1 & Hj1) end.
  - destruct (queue_kept _ _ _ Hr _ Hc1) as (c2 & Hc2 & Hj2). exists c2. split; [done|].
    rewrite Hj2, Hj1. by destruct (mt_budget_usage t).
  - exists c1. split; [done|]. rewrite Hj1. by destruct (mt_budget_usage t).
Qed.

(** An entry that was updated locally is durable once progress is written. *)
Lemma update_durable k id f w w1 w2 w3 (P : OperationJournalEntry -> Prop) :
  update_operation k id f w = (Ok tt, w1) -> journals_kept w1 w2 -> progress w2 = (Ok tt, w3) ->
  (forall e e', j_operation_id e = id -> f e = (e', Ok tt) -> P e') -> logs (durable P) w2 w3.
Proof.
  intros (c & i & e & e' & _ & Hi & Hsel & Hf & _ & _ & Hd)%update_first_run Hkept Hp HP.
  destruct (Hkept (set_journal k c (<[i := e']> (journal_of k c)))) as (c2 & Hc2 & Hj); [by rewrite Hd|].
  apply (progress_durable _ _ _ _ e' Hp Hc2).
  - rewrite Hj. apply updated_in. by eexists.
  - apply (HP e); [by apply String.eqb_eq|done].
Qed.
Lemma transition_started e e' s :
  transition_to e s = (e', Ok tt) -> j_operation_id e' = j_operation_id e /\ j_state e' = s.
Proof. unfold transition_to. destruct (negb _); [done|]. by intros [= <- _]. Qed.

End Durable.

(** A chain of runs that asks nothing of the model. *)
Ltac quiet_run :=
  repeat match goal with
  | |- log_quiet ?w ?w => reflexivity
  | H : _ ?w = (_, ?w1) |- log_quiet ?w _ =>
      transitivity w1; [refine (log_step _ _ _ _ H _); solve [eauto with driver nocore]|]
  end.

(** A chain of runs that only looks. *)
Ltac kept_run :=
  repeat match goal with
  | |- journals_kept ?w ?w => reflexivity
  | H : _ ?w = (_, ?w1) |- journals_kept ?w _ =>
      transitivity w1;
      [apply observed_kept; refine (observed_run _ _ _ _ _ H); solve [eauto with driver nocore]|]
  end.

Section Settling.
Context `{Env} `{StrictJson} `{Host} (fuel : nat).

Lemma start_model_started q id w i w' :
  start_model fuel q id w = (Ok (inr i), w') ->
  logs (durable (fun e => j_operation_id e = id /\ j_state e = Started)) w w'.
Proof.
  unfold start_model. intros Hr. driver_inv.
  match goal with Hu : update_operation _ _ _ ?a = (_, ?b), Hq : queue_outbox_event _ ?b = (_, ?x),
    Hp : progress ?x = (_, ?y) |- _ =>
    apply (logs_after _ _ x); [quiet_run|apply (logs_before _ _ y); [|quiet_run]];
    apply (update_durable _ _ _ _ _ _ _ _ Hu (queue_kept _ _ _ Hq) Hp) end.
  intros e e' <- (Hid & Hs)%transition_started. done.
Qed.

Lemma commit_terminal_durable k id f w w1 w2 t w3 (P : OperationJournalEntry -> Prop) :
  update_operation k id f w = (Ok tt, w1) -> journals_kept w1 w2 ->
  commit_model_terminal fuel id t w2 = (Ok tt, w3) ->
  (forall e e', j_operation_id e = id -> f e = (e', Ok tt) -> P e') -> logs (durable P) w2 w3.
Proof.
  intros Hu Hk Hc HP. unfold commit_model_terminal in Hc. driver_inv.
  match goal with Hf : find_operation _ _ _ = (_, ?a), Hq : queue_terminal _ ?a = (_, ?x),
    Hp : progress ?x = (_, ?y) |- _ =>
    apply (logs_after _ _ x); [quiet_run|apply (logs_before _ _ y); [|quiet_run]];
    refine (update_durable _ _ _ _ _ _ _ _ Hu _ Hp HP); transitivity w2; [done|];
    transitivity a; [|by eapply queue_terminal_kept];
    exact (observed_kept _ _ (observed_run _ _ _ _ (find_operation_observed _ _) Hf)) end.
Qed.

(** From the local update to the committed terminal. *)
Ltac settle :=
  match goal with Hu : update_operation _ _ _ _ = (_, _), Hc : commit_model_terminal _ _ _ ?x = (_, ?y) |- _ =>
    apply (logs_after _ _ x); [quiet_run|apply (logs_before _ _ y); [|quiet_run]];
    refine (commit_terminal_durable _ _ _ _ _ _ _ _ _ Hu _ Hc _); [kept_run|]
  end.
(** What the receipt of a call says. *)
Definition settled_as (v : Invocation) (e : OperationJournalEntry) : Prop :=
  match v with
  | Responded r =>
      j_state e = Succeeded /\
      j_response e = Some (response_to_value (set_usage r (response_usage r)))
  | Refused error => j_state e = if is_definitive_model_error error then Failed else Ambiguous
  | Panicked => j_state e = Ambiguous
  end.
Lemma settle_ambiguous_durable id i code w o w' :
  settle_ambiguous fuel id i code w = (Ok o, w') ->
  logs (durable (fun e => j_operation_id e = id /\ j_state e = Ambiguous)) w w'.
Proof.
  unfold settle_ambiguous. intros Hr. driver_inv. settle.
  intros e e' <-. unfold assign_state. by intros [= <- _].
Qed.
Lemma settle_model_durable id i v w o w' :
  settle_model fuel id i v w = (Ok o, w') ->
  logs (durable (fun e => j_operation_id e = id /\ settled_as v e)) w w'.
Proof.
  unfold settle_model. intros Hr. destruct v as [r|error|]; cbn [settled_as].
  - driver_inv. settle. intros e e' <-. unfold checked. by intros [= <- _].
  - destruct (is_definitive_model_error error); [|by eapply settle_ambiguous_durable].
    driver_inv. settle. intros e e' <-. unfold checked. by intros [= <- _].
  - by eapply settle_ambiguous_durable.
Qed.
(** What an operation answers when the model was called. *)
Definition answers (v : Invocation) (o : ModelOperationOutcome) : Prop :=
  match v, o with
  | Responded r, MResponse response usage _ =>
      response = set_usage r (response_usage r) /\ usage = response_usage r
  | Refused error, MError e => is_definitive_model_error error = true /\ e = error
  | Refused error, MInterrupted r =>
      is_definitive_model_error error = false /\ ar_status r = ReconciliationRequiredA
  | Panicked, MInterrupted r => ar_status r = ReconciliationRequiredA
  | _, _ => False
  end.
Lemma reconciliation_status c o r : reconciliation_result c o = Ok r -> ar_status r = ReconciliationRequiredA.
Proof. unfold reconciliation_result, interrupted_result. intros Hr. by result_inv. Qed.
Lemma suspend_status e w r w' : suspend_for fuel e w = (Ok r, w') -> ar_status r = ReconciliationRequiredA.
Proof.
  unfold suspend_for, suspend_for_observation. intros Hr.
  repeat (apply d_bind_run in Hr as [(? & ? & _ & Hr)|(? & _ & ?)]; [|done]).
  unfold d_lift in Hr. simplify_eq. by eapply reconciliation_status.
Qed.
Lemma settle_model_answers id i v w o w' : settle_model fuel id i v w = (Ok o, w') -> answers v o.
Proof.
  assert (Ha : forall code w r w', settle_ambiguous fuel id i code w = (Ok r, w') ->
    exists x, r = MInterrupted x /\ ar_status x = ReconciliationRequiredA).
  { unfold settle_ambiguous. intros code w0 r w1 Hr. driver_inv. eauto using suspend_status. }
  unfold settle_model. intros Hr. destruct v as [r|error|]; cbn [answers].
  - by driver_inv.
  - destruct (is_definitive_model_error error) eqn:He; [by driver_inv|].
    apply Ha in Hr as (x & -> & Hx). done.
  - apply Ha in Hr as (x & -> & Hx). done.
Qed.

(** The model was called, once, between a write that left the call started and
    one that left it settled as the model answered. *)
Definition called (v : Invocation) (w : World) (r : result ModelOperationOutcome) (w' : World) : Prop :=
  exists id attempt before after,
    w_log w' = w_log w ++ before ++ Invoked id attempt :: after /\
    invocations before = [] /\ invocations after = [] /\
    recorded before (durable (fun e => j_operation_id e = id /\ j_state e = Started)) /\
    forall o, r = Ok o -> answers v o /\
      recorded after (durable (fun e => j_operation_id e = id /\ settled_as v e)).
(** The answer was read from a settled call. *)
Definition replayed (response : LLMResponse) (e : OperationJournalEntry) : Prop :=
  j_state e = Succeeded /\
  exists value, j_response e = Some value /\ response_from_value value = Some response.

Lemma called_after v w w1 r w2 : log_quiet w w1 -> called v w1 r w2 -> called v w r w2.
Proof.
  intros (ext & Hl & Hi) (id & attempt & before & after & Hl2 & Hb & Ha & Hrec & Hout).
  exists id, attempt, (ext ++ before), after.
  rewrite Hl2, Hl, <- !app_assoc, invocations_app, Hi, Hb. split_and!; auto using recorded_app.
Qed.
Lemma run_planned_called q id v w r w' :
  run_planned fuel q id v w = (r, w') ->
  (log_quiet w w' /\ forall o, r = Ok o -> exists e, o = MError e) \/ called v w r w'.
Proof.
  unfold run_planned. intros Hr.
  apply d_bind_run in Hr as [(started & w1 & Hs & Hr)|(e & Hs & ->)]; [|left; split; [quiet_run|done]].
  destruct started as [error|i].
  - left. unfold mret, D_ret in Hr. simplify_eq. split; [quiet_run|]. intros o [= <-]. eauto.
  - right. apply start_model_started in Hs as (before & Hl & Hb & Hrec).
    apply d_bind_run in Hr as [(u & w2 & Hi & Hr)|(e & Hi & _)]; [|done].
    unfold emit in Hi. simplify_eq. exists id, (mi_attempt i), before.
    destruct (log_step _ _ _ _ Hr) as (after & Hl2 & Ha); [eauto with driver nocore|].
    cbn [w_log] in Hl2. exists after. rewrite Hl2, Hl, <- !app_assoc. split_and!; try done.
    intros o ->. split; [by eapply settle_model_answers|].
    apply settle_model_durable in Hr as (ext & Hl3 & _ & Hr). cbn [w_log] in Hl3.
    rewrite Hl2 in Hl3. by apply app_inv_head in Hl3 as ->.
Qed.

(** An entry that is replayed is durable. *)
Lemma emit_replayed_durable e k w w' c (P : OperationJournalEntry -> Prop) :
  emit_operation_replayed fuel e w = (Ok tt, w') -> d_checkpoint (w_driver w) = Some c ->
  e ∈ journal_of k c -> P e -> logs (durable P) w w'.
Proof.
  intros Hr Hc He HP. unfold emit_operation_replayed, emit_durable in Hr. driver_inv.
  match goal with Ho : operation_event _ _ _ _ _ = (_, ?a), Hq : queue_outbox_event _ ?a = (_, ?x) |- _ =>
    pose proof (queue_kept _ _ _ Hq) as Hk;
    pose proof (observed_kept _ _ (observed_run _ _ _ _ (operation_event_observed _ _ _ _) Ho)) as Hk0 end.
  match goal with Hq : require_checkpoint ?x = (Ok ?c2, ?y), Hp : progress ?y = (_, ?z) |- _ =>
    apply require_run in Hq as [Hc2 ->];
    apply (logs_after _ _ x); [quiet_run|apply (logs_before _ _ z); [|quiet_run]];
    apply (progress_durable _ _ _ _ e Hp Hc2); [|done] end.
  destruct (Hk0 _ Hc) as (c3 & Hc3 & Hj3). destruct (Hk _ Hc3) as (c4 & Hc4 & Hj4). simplify_eq.
  rewrite Hj4, Hj3. by eapply journal_in.
Qed.
Lemma replay_model_durable q digest e w o w' c :
  replay_model fuel q digest e w = (Ok (Some o), w') -> d_checkpoint (w_driver w) = Some c ->
  e ∈ cp_model_call_journal c ->
  (exists response, o = MResponse response (response_usage response) None /\
     logs (durable (replayed response)) w w') \/
  (exists error, o = MError error /\ logs (durable (fun e => j_state e = Failed)) w w').
Proof.
  intros Hr Hc He. unfold replay_model in Hr. driver_inv.
  - left. eexists. split; [done|].
    repeat match goal with E : ok_or _ _ = Ok _ |- _ => apply ok_or_Ok in E end.
    eapply (emit_replayed_durable _ Model); [eassumption..|]. split; [done|]. eauto.
  - right. eexists. split; [done|]. by eapply (emit_replayed_durable _ Model).
Qed.
End Settling.

Lemma find_operation_run k id w e w' :
  find_operation k id w = (Ok (Some e), w') ->
  exists c, d_checkpoint (w_driver w) = Some c /\ e ∈ journal_of k c /\ w' = w.
Proof.
  unfold find_operation. intros Hr. driver_inv.
  destruct (d_checkpoint _) as [c|]; [|done]. cbn [mbind option_bind] in *.
  match goal with E : List.find _ _ = Some _ |- _ => apply List.find_some in E as [Hin _] end.
  exists c. split_and!; [done|by apply list_elem_of_In|done].
Qed.

(** ** Tool calls *)

Section Tools.
Context `{Env} `{StrictJson} `{Host} (fuel : nat).

(** A receipt that can be given again instead of running the tool. *)
Definition receipt_reads (r : ToolExecutionResult) (e : OperationJournalEntry) : Prop :=
  (j_state e = Succeeded \/ j_state e = Failed) /\
  exists value, j_result e = Some value /\ from_dict value = Ok r.

Lemma find_tool_run n id w o w' :
  find_tool_call n id w = (Ok o, w') -> w' = w /\
  o = d_checkpoint (w_driver w) ≫= (fun c => List.find (is_tool_call n id) (cp_tool_journal c)).
Proof. unfold find_tool_call. intros Hr. by driver_inv. Qed.
Lemma find_tool_some n id w e w' :
  find_tool_call n id w = (Ok (Some e), w') -> exists c, w' = w /\ d_checkpoint (w_driver w) = Some c /\
    List.find (is_tool_call n id) (cp_tool_journal c) = Some e /\
    e ∈ cp_tool_journal c /\ is_tool_call n id e = true.
Proof.
  intros [-> Ho]%find_tool_run. destruct (d_checkpoint _) as [c|]; [|done].
  cbn [mbind option_bind] in Ho. exists c. symmetry in Ho. pose proof Ho as [Hin Ht]%List.find_some.
  split_and!; try done. by apply list_elem_of_In.
Qed.
Lemma tool_call_durable n id f w w1 w2 (P : OperationJournalEntry -> Prop) :
  update_tool_call n id f w = (Ok tt, w1) -> progress w1 = (Ok tt, w2) ->
  (forall e e', is_tool_call n id e = true -> f e = (e', Ok tt) -> P e') -> logs (durable P) w1 w2.
Proof.
  intros (c & i & e & e' & _ & Hi & Hsel & Hf & _ & _ & Hd)%update_first_run Hp HP.
  eapply (progress_durable _ _ _ _ e' Hp); [by rewrite Hd|apply updated_in; by eexists|by eapply HP].
Qed.
Lemma failed_receipt_reads e id r :
  failed_receipt e id = Ok r -> j_state e = Failed -> receipt_reads r e.
Proof.
  unfold failed_receipt. intros Hr Hs. result_inv.
  repeat match goal with E : ok_or _ _ = Ok _ |- _ => apply ok_or_Ok in E
  | E : map_err _ _ = Ok _ |- _ => apply map_err_Ok in E end.
  split; [by right|]. eauto.
Qed.
Lemma started_written n call w w' :
  tool_started n call w = (Ok tt, w') -> exists c e, d_checkpoint (w_driver w) = Some c /\
    List.find (is_tool_call n (tc_id call)) (cp_tool_journal c) = Some e /\
    (j_state e = Planned ->
     logs (durable (fun e => is_tool_call n (tc_id call) e = true /\ j_state e = Started)) w w') /\
    (j_state e <> Planned -> w' = w).
Proof.
  unfold tool_started, tool_missing. intros Hr. driver_inv; apply require_run in Hrun as [Hc ->];
    match goal with E : ok_or ?o _ = Ok _ |- _ => apply ok_or_Ok in E; subst o end;
    match goal with E : find_tool_call _ _ _ = _ |- _ =>
      apply find_tool_some in E as (c & -> & Hc' & Hf & _ & _) end; exists c; eexists; 
    (split; [done|]; split; [exact Hf|]).
  - apply bool_decide_eq_true_1 in Hcase. split; [intros _|done].
    match goal with Hu : update_tool_call _ _ _ _ = (_, ?a), Hp : progress ?a = (_, ?b) |- _ =>
      apply (logs_after _ _ a); [quiet_run|apply (logs_before _ _ b); [|quiet_run]];
      apply (tool_call_durable _ _ _ _ _ _ _ Hu Hp) end.
    intros e e' Ht. unfold assign_state. intros [= <- _]. done.
  - apply bool_decide_eq_false_1 in Hcase. by split.
Qed.

Lemma plan_existing_run key call support ik sd v e w plan w' c n :
  plan_existing fuel key call support ik sd v e w = (Ok plan, w') ->
  d_checkpoint (w_driver w) = Some c -> e ∈ cp_tool_journal c ->
  is_tool_call n (tc_id call) e = true ->
  tp_operation_id plan = Some (j_operation_id e) /\
  match tp_replay_result plan with
  | Some r => logs (durable (fun e => is_tool_call n (tc_id call) e = true /\ receipt_reads r e)) w w'
  | None => j_state e = Planned /\ w' = w
  end.
Proof.
  unfold plan_existing. intros Hr Hc He Ht. driver_inv; (split; [done|]); cbn [tp_replay_result entry_plan].
  - done.
  - result_inv. repeat match goal with E : ok_or _ _ = Ok _ |- _ => apply ok_or_Ok in E
      | E : map_err _ _ = Ok _ |- _ => apply map_err_Ok in E end.
    eapply (emit_replayed_durable _ _ Tool); [eassumption..|]. split; [done|]. split; [by left|]. eauto.
  - eapply (emit_replayed_durable _ _ Tool); [eassumption..|]. split; [done|].
    by eapply failed_receipt_reads.
Qed.
Lemma plan_tool_run n call support b sd sk w plan w' :
  plan_tool fuel n call support b sd sk w = (Ok (plan, None), w') ->
  match tp_replay_result plan with
  | Some r => logs (durable (fun e => is_tool_call n (tc_id call) e = true /\ receipt_reads r e)) w w'
  | None =>
      (exists c e, d_checkpoint (w_driver w') = Some c /\ e ∈ cp_tool_journal c /\
         is_tool_call n (tc_id call) e = true /\ j_state e = Planned /\
         tp_operation_id plan = Some (j_operation_id e)) \/
      logs (durable (fun e => is_tool_call n (tc_id call) e = true /\ j_state e = Planned /\
                              tp_operation_id plan = Some (j_operation_id e))) w w'
  end.
Proof.
  unfold plan_tool. intros Hr. driver_inv.
  - match goal with E : find_tool_call _ _ ?a = _ |- _ =>
      apply find_tool_some in E as (c & -> & Hc & _ & He & Ht);
      apply (plan_existing_run _ _ _ _ _ _ _ _ _ _ c n) in Hrun2 as [Hid Hplan]; [|done..];
      destruct (tp_replay_result plan);
        [apply (logs_after _ _ a); [quiet_run|done]|] end.
    left. destruct Hplan as [Hs ->]. by exists c, o.
  - cbn [tp_replay_result entry_plan]. right.
    match goal with Hq : put_local ?d _ = (_, ?a), Hp : progress ?a = _ |- _ =>
      apply (logs_after _ _ a); [quiet_run|]; unfold put_local in Hq; driver_inv;
      eapply (progress_durable _ _ d _ _ Hp eq_refl) end.
    + unfold journals. cbn [set_tool_journal cp_model_call_journal cp_tool_journal].
      rewrite !elem_of_app. right. right. by left.
    + split_and!; try done. unfold is_tool_call. cbn. by rewrite N.eqb_refl, String.eqb_refl.
Qed.
End Tools.

(** A planned call either stops before the model or reaches it. *)
Ltac planned :=
  match goal with
  | Hm : run_planned _ _ _ _ ?a = _ |- _ =>
      destruct (run_planned_called _ _ _ _ _ _ _ Hm) as [[Hq Ho]|Hq];
      [right; split; [quiet_run; exact Hq|intros ??? E; by destruct (Ho _ E)]
      |left; apply (called_after _ _ a); [quiet_run|done]]
  end.

(** ** Properties *)

Section Properties.
Context `{Env} `{StrictJson} `{Host} (fuel : nat).

(** (C16) The model is called at most once by an operation, and never behind the
    store's back: before the call a write left it started in a claimed
    checkpoint, and an operation that then succeeds answers what the model
    said, after a write that left the call settled with exactly that outcome.
    An operation that gives a response without calling the model read it from
    a call that is durable as succeeded.  This holds for every host, clock,
    heartbeat and every interference of other processes. *)
Theorem model_call_write_ahead (q : ModelCallDispatchRequest) (budget : option BudgetUsageSnapshot)
    (v : Invocation) (w : World) :
  let r := (complete_model fuel q budget v w).1 in
  let w' := (complete_model fuel q budget v w).2 in
  called v w r w' \/
  log_quiet w w' /\
  forall response usage x, r = Ok (MResponse response usage x) ->
    usage = response_usage response /\ logs (durable (replayed response)) w w'.
Proof.
  cbv zeta. destruct (complete_model fuel q budget v w) as [r w'] eqn:Hr. cbn [fst snd].
  unfold complete_model in Hr. driver_inv.
  all: try (right; split; [quiet_run|done]).
  - match goal with Hf : find_operation _ _ ?a = (Ok (Some _), _), Hm : replay_model _ _ _ _ _ = _ |- _ =>
      apply find_operation_run in Hf as (c & Hc & He & ->);
      destruct (replay_model_durable _ _ _ _ _ _ _ _ Hm Hc He) as [(response & -> & Hl)|(e & -> & Hl)];
      right; (split; [quiet_run|]); intros response' usage x [= <- <- <-];
      split; [done|]; apply (logs_after _ _ a); [quiet_run|done] end.
  - planned.
  - planned.
Qed.


(** A sequence of operations of one driver, whatever each of them answers. *)
Definition run_ops (ops : list DriverOp) (w : World) : World :=
  foldl (fun w op => (run_driver fuel op w).2) w ops.

End Properties.

(** ** A run of the driver *)

(** Nobody interferes, the clock advances by a millisecond a tick, the sink
    takes everything. *)
Definition quiet_host : Host :=
  {| host_interfere := fun _ s => s; host_now := fun n => Ok (1000 + N.of_nat n)%N;
     host_stamp := fun n => PosInt (N.of_nat n); host_uuid := fun n => "u" +:+ pretty n;
     host_spawn := fun _ => true; host_beat_error := fun _ => None; host_beat_expiry := fun _ e => e;
     host_sink := fun _ _ => Ok tt; host_event_store := None; host_reconcile := None;
     host_snapshot := fun _ _ => Ok Null; host_restore := fun _ _ _ => Ok tt |}.
(** Event ids keep the first half of a digest, which the toy digest spends on
    zeros. *)
Definition front_sha256 (s : string) : string :=
  let h := toy_sha256 s in substring 32 32 h +:+ substring 0 32 h.
Definition front_digest : Digest :=
  {| canonicalizer_to_vec := fun v => Some (toy_print v); sha256_hex := front_sha256 |}.
Definition driver_env : Env :=
  {| env_digest := front_digest; env_text := toy_text; env_reader := toy_reader;
     env_definition := {| validate_run_definition := fun _ => Ok tt;
                          run_definition_digest := @sha256_canonical front_digest |} |}.

Section Sample.
Local Existing Instance quiet_host.
Local Existing Instance driver_env.
Local Existing Instance toy_strict.

Definition sample_config : CheckpointConfig :=
  {| cf_store := true; cf_store_ref := None; cf_key := Some "key"; cf_resume_policy := ResumeIfPresent;
     cf_ambiguous_model_policy := RequireModelReconciliation;
     cf_ambiguous_tool_policy := RequireToolReconciliation; cf_required_extension_namespaces := [];
     cf_max_extension_state_bytes := 1000000; cf_credential_slots := []; cf_capability_refs := [] |}.
Definition sample_controller : ControllerRequest :=
  {| cq_config := sample_config; cq_task_id := "task"; cq_run_id := "run"; cq_trace_id := "trace";
     cq_agent_name := "agent"; cq_run_definition := Object [];
     cq_run_definition_digest := ok_value "" (sha256_canonical (Object []));
     cq_initial_messages := []; cq_initial_shared_state := []; cq_initial_budget_usage := None;
     cq_extensions := []; cq_preloaded_checkpoint := None |}.
Definition sample_accounting : ModelCallCoordinator :=
  {| co_ledger := sample_ledger; co_run_id := "run"; co_trace_id := "trace";
     co_agent_name := "agent"; co_session_id := None; co_parent_run_id := None;
     co_budget_observer := None; co_budget_admission := None; co_slot_counts := [] |}.
Definition sample_driver : Driver :=
  ltac:(let r := eval vm_compute in (controller_new sample_controller) in
        match r with Ok ?d => exact (set_d_accounting d (Some sample_accounting)) end).
Definition world_of (s : Store) : World :=
  {| w_driver := sample_driver; w_store := s; w_tick := 0; w_log := [] |}.
Definition sample_question : ModelCallDispatchRequest :=
  {| dq_accounting := sample_accounting;
     dq_request := {| rq_messages := []; rq_tools := []; rq_model_settings := None |};
     dq_operation := AgentCycle; dq_cycle_index := 1; dq_operation_slot := "main"; dq_backend := "b";
     dq_model := "m" |}.
Definition sample_admitted : World := (admit_run 10 (world_of store_new)).2.
Definition ask_model (w : World) : result ModelOperationOutcome * World :=
  complete_model 10 sample_question None (Responded sample_response) w.
Definition sample_settled : World := (ask_model sample_admitted).2.
Definition gives_response (r : result ModelOperationOutcome) : bool :=
  match r with Ok (MResponse _ _ _) => true | _ => false end.

(** The model is called once, whether its answer is asked for once or twice. *)
Example sample_call_runs :
  gives_response (ask_model sample_admitted).1 = true /\
  invocations (w_log sample_settled) = [("op_model_cycle_1_main", 1%N)] /\
  gives_response (ask_model sample_settled).1 = true /\
  invocations (w_log (ask_model sample_settled).2) = [("op_model_cycle_1_main", 1%N)].
Proof. vm_compute. repeat split. Qed.

(** The process ends while the model answers: the store is the one of the last
    call before it. *)
Fixpoint store_at_call (s : Store) (l : list Effect) : Store :=
  match l with
  | [] | Invoked _ _ :: _ => s
  | StoreAfter s :: l => store_at_call s l
  | Delivered _ :: l => store_at_call s l
  end.
(** The lease of the dead process is over. *)
Definition late_host : Host :=
  {| host_interfere := fun _ s => s; host_now := fun n => Ok (1000000000 + N.of_nat n)%N;
     host_stamp := fun n => PosInt (N.of_nat n); host_uuid := fun n => "u" +:+ pretty n;
     host_spawn := fun _ => true; host_beat_error := fun _ => None; host_beat_expiry := fun _ e => e;
     host_sink := fun _ _ => Ok tt; host_event_store := None; host_reconcile := None;
     host_snapshot := fun _ _ => Ok Null; host_restore := fun _ _ _ => Ok tt |}.
Definition sample_crashed : Store := store_at_call store_new (w_log sample_settled).
Definition ask_again : result ModelOperationOutcome * World :=
  @complete_model _ late_host 10 sample_question None (Responded sample_response)
    (@admit_run _ late_host 10 (world_of sample_crashed)).2.
(** The next process finds the call started, does not repeat it and stops for
    reconciliation. *)
Example sample_crash_stops :
  match ask_again.1 with
  | Ok (MInterrupted r) => ar_status r =?? ReconciliationRequiredA
  | _ => false
  end = true /\ invocations (w_log ask_again.2) = [].
Proof. vm_compute. split; reflexivity. Qed.

Definition sample_tool_call : ToolCall :=
  {| tc_id := "call_1"; tc_name := "search"; tc_arguments := []; tc_extra_content := None |}.
Definition sample_planned : result (ToolOperationPlan * option AgentResult) * World :=
  plan_tool 10 1 sample_tool_call Supported None None None sample_settled.
Definition sample_finish (w : World) : result (option AgentResult) * World :=
  finish_tool 10 1 sample_tool_call (tool_error "call_1" "denied" "refused" []) None w.
(** A tool call is planned, started and closed; planning it again replays its
    receipt. *)
Example sample_tool_runs :
  let started := tool_started 1 sample_tool_call sample_planned.2 in
  let closed := sample_finish started.2 in
  let again := plan_tool 10 1 sample_tool_call Supported None None None closed.2 in
  (fmap (fun p => (is_none p.2, is_none (tp_replay_result p.1)))) (value_of sample_planned.1)
    = Some (true, true) /\
  started.1 = Ok tt /\ closed.1 = Ok None /\
  (fmap (fun p => is_some (tp_replay_result p.1))) (value_of again.1) = Some true.
Proof. vm_compute. repeat split. Qed.

End Sample.
