(* ===== verification/DriverDelivery.v ===== *)
(** * Delivery of the outbox

    The loop that delivers pending events, as a relation without fuel, and its
    termination: while other processes leave the checkpoint alone, the loop
    ends after at most one turn per pending event, having handed the pending
    events to the sink in order. *)

From Stdlib Require Import Ascii String NArith Lia.
From stdpp Require Import base strings list sets gmap relations pretty.
From S2P Require Import Prelude Json Canonical CheckpointTypes ToolResult Journal TokenUsage.
From S2P Require Import Budget BudgetWire Records ResultCodec Events HostInteraction Controller.
From S2P Require Import Checkpoint History Deferred Transitions Store StoreController ApiMoves.
From S2P Require Import ApiSafety ToolPolicy Settings ModelCalls Driver DriverOps DriverRules DriverSafety.

Definition deliveries (l : list Effect) : list RunEvent :=
  omap (fun x => match x with Delivered e => Some e | _ => None end) l.
Lemma deliveries_app l1 l2 : deliveries (l1 ++ l2) = deliveries l1 ++ deliveries l2.
Proof. apply omap_app. Qed.
Definition pending (c : Checkpoint) : list EventOutboxEntry :=
  List.filter is_pending (cp_event_outbox c).
Definition outbox_ids (c : Checkpoint) : list string := ob_event_id <$> cp_event_outbox c.
(** The driver's checkpoint is the stored one. *)
Definition synced (w : World) (c : Checkpoint) : Prop :=
  d_checkpoint (w_driver w) = Some c /\
  map_get (cp_checkpoint_key c) (st_checkpoints (w_store w)) = Some c.

(** ** Pending entries *)

Lemma find_pending_none l : List.find is_pending l = None -> List.filter is_pending l = [].
Proof. induction l as [|e l IH]; cbn; [done|]. by destruct (is_pending e). Qed.
Lemma find_pending_some l ob :
  List.find is_pending l = Some ob -> exists l1 l2, l = l1 ++ ob :: l2 /\
    List.filter is_pending l1 = [] /\ is_pending ob = true.
Proof.
  induction l as [|e l IH]; cbn; [done|]. destruct (is_pending e) eqn:He.
  - intros [= ->]. by exists [], l.
  - intros (l1 & l2 & -> & Hf & Hob)%IH. exists (e :: l1), l2. cbn. by rewrite He.
Qed.
Lemma deliver_not_pending e v : is_pending (deliver e v) = false.
Proof. done. Qed.
Lemma filter_insert_delivered l1 ob l2 v :
  List.filter is_pending l1 = [] -> is_pending ob = true ->
  List.filter is_pending (l1 ++ deliver ob v :: l2)
  = tail (List.filter is_pending (l1 ++ ob :: l2)).
Proof. intros H1 Hob. rewrite !List.filter_app, H1. cbn. by rewrite Hob. Qed.
Lemma find_entry_unique l1 ob l2 :
  NoDup (ob_event_id <$> (l1 ++ ob :: l2)) -> find_entry (ob_event_id ob) (l1 ++ ob :: l2) = Some ob.
Proof.
  unfold find_entry. induction l1 as [|e l1 IH]; cbn.
  - by rewrite String.eqb_refl.
  - intros [Hn Hd]%NoDup_cons. destruct (String.eqb_spec (ob_event_id e) (ob_event_id ob)) as [Heq|_].
    + destruct Hn. rewrite Heq, fmap_app. set_solver.
    + by apply IH.
Qed.
Lemma unique_index l1 ob l2 i e :
  NoDup (ob_event_id <$> (l1 ++ ob :: l2)) -> (l1 ++ ob :: l2) !! i = Some e ->
  ob_event_id e = ob_event_id ob -> i = length l1 /\ e = ob.
Proof.
  intros Hd He Hid. assert (i = length l1) as ->.
  { eapply (NoDup_lookup _ i (length l1) (ob_event_id ob) Hd).
    - by rewrite list_lookup_fmap, He, <- Hid.
    - by rewrite list_lookup_fmap, list_lookup_middle. }
  rewrite list_lookup_middle in He by done. by simplify_eq.
Qed.

(** ** A write that keeps the key *)
Section Delivery.
Context `{Env} `{StrictJson} `{Host}.

Lemma update_at_run key prepare s r s' :
  update_checkpoint_at key prepare s = (Ok r, s') ->
  if r then exists c d c' ob, map_get key (st_checkpoints s) = Some c /\ prepare c = Ok (Some d) /\
    normalize_checkpoint_history d = Ok (c', ob) /\
    st_checkpoints s' = map_insert key c' (st_checkpoints s)
  else s' = s.
Proof.
  unfold update_checkpoint_at, put_checkpoint. intros Hu. store_inv; try done.
  persisted. by eexists _, _, _, _.
Qed.
Lemma record_delivery_run key token n id digest cursor s c r s' :
  record_event_delivery key token n id digest cursor s = (Ok r, s') ->
  map_get key (st_checkpoints s) = Some c ->
  if r then exists c' i e, map_get key (st_checkpoints s') = Some c' /\
    cp_checkpoint_key c' = cp_checkpoint_key c /\
    cp_event_outbox c !! i = Some e /\ ob_event_id e = id /\
    cp_event_outbox c' = <[i := deliver e (cursor_to_value cursor)]> (cp_event_outbox c)
  else s' = s.
Proof.
  unfold record_event_delivery. intros Hr%update_at_run Hc. destruct r; [|done].
  destruct Hr as (c0 & d & c' & ob & Hc0 & Hp & Hn & Hs). simplify_eq.
  apply delivery_spec in Hp as ([[Hv _ _] _] & _ & _ & i & e & Hi & Hid & _ & _ & ->).
  pose proof (normalize_work _ _ _ Hv Hn) as Hw. unfold work in Hw.
  injection Hw as _ _ Ho _ _ _ Hk _ _.
  exists c', i, e. rewrite Hs. split_and!; [apply map_get_insert_eq|done..|exact Ho].
Qed.

(** ** One turn of the loop *)

(** The other processes leave the checkpoint alone. *)
Definition undisturbed (key : string) : Prop := forall n s,
  map_get key (st_checkpoints (host_interfere n s)) = map_get key (st_checkpoints s).

Lemma reload_synced key w c w' r :
  undisturbed key ->
  reload w = (r, w') -> d_checkpoint (w_driver w) = Some c -> cp_checkpoint_key c = key ->
  (exists c', map_get key (st_checkpoints (w_store w)) = Some c' /\ r = Ok tt /\
     d_checkpoint (w_driver w') = Some c' /\
     map_get key (st_checkpoints (w_store w')) = Some c') \/ exists e, r = Err e.
Proof.
  intros alone Hr Hc Hk. destruct r as [[]|e]; [left|by eauto].
  apply reload_run in Hr as (c0 & c' & Hc0 & Hget & Hs & Hd & _). simplify_eq.
  exists c'. rewrite Hd. split_and!; try done. by rewrite <- (alone (w_tick w)), <- Hs.
Qed.

Definition parses (ob : EventOutboxEntry) (e : RunEvent) : Prop := event_from_value (ob_event ob) = Some e.
Lemma hand_over_parses ob e cursor w w' : hand_over ob w = (Ok (e, cursor), w') -> parses ob e.
Proof.
  unfold hand_over, parses. intros Hr. driver_inv;
    match goal with E : ok_or _ _ = Ok _ |- _ => by apply ok_or_Ok in E end.
Qed.

(** Nothing was handed to the sink. *)
Definition undelivered (w w' : World) : Prop :=
  exists ext, w_log w' = w_log w ++ ext /\ deliveries ext = [].
Lemma undelivered_same w w' : w_log w' = w_log w -> undelivered w w'.
Proof. intros Hl. exists []. by rewrite app_nil_r. Qed.
#[local] Instance undelivered_preorder : PreOrder undelivered.
Proof.
  split; [by intros w; apply undelivered_same|].
  intros w1 w2 w3 (e1 & He1 & Hd1) (e2 & He2 & Hd2). exists (e1 ++ e2).
  by rewrite He2, He1, app_assoc, deliveries_app, Hd1, Hd2.
Qed.
Lemma settle_undelivered ob x : evolves undelivered (settle_delivery ob x).
Proof.
  assert (Hcall : forall A (m : (string -> Number) -> M A), evolves undelivered (call m)).
  { intros A m w. destruct (call m w) as [r w'] eqn:E. apply call_run in E as (s & _ & ->).
    by exists [StoreAfter s]. }
  assert (Hmod : forall f, evolves undelivered (modify_driver f)).
  { intros f w. by apply undelivered_same. }
  assert (Hreq : evolves undelivered require_checkpoint).
  { intros w. by destruct (require_checkpoint_observed w) as (_ & _ & ?%undelivered_same). }
  unfold settle_delivery, reload, checkpoint_key, put_local. evolve.
Qed.

Lemma settle_log ob x w r w' : settle_delivery ob x w = (r, w') -> undelivered w w'.
Proof. intros Hr. pose proof (settle_undelivered ob x w) as Hu. by rewrite Hr in Hu. Qed.

(** A recorded delivery leaves one pending event less, the first one. *)
Lemma settle_synced key w c ob cursor w' :
  undisturbed key ->
  settle_delivery ob cursor w = (Ok tt, w') -> synced w c -> cp_checkpoint_key c = key ->
  NoDup (outbox_ids c) -> List.find is_pending (cp_event_outbox c) = Some ob ->
  exists c' rest, pending c = ob :: rest /\ synced w' c' /\ cp_checkpoint_key c' = key /\
    outbox_ids c' = outbox_ids c /\ pending c' = rest.
Proof.
  unfold settle_delivery, pending, outbox_ids. intros alone Hr [Hc Hst] Hk Hnd Hf. driver_inv.
  all: apply require_run in Hrun as [? ->]; apply call_run in Hrun0 as (s & Hp & ->); simplify_eq.
  all: apply find_pending_some in Hf as (l1 & l2 & Ho & Hl1 & Hob).
  all: pose proof (record_delivery_run _ _ _ _ _ _ _ _ _ _ Hp (eq_trans (alone _ _) Hst)) as Hw; cbn in Hw.
  all: apply (reload_synced (cp_checkpoint_key x) _ x) in Hrun1 as [(c' & Hget & _ & Hd & Hst')|[? ?]]; try done.
  - destruct Hw as (c1 & i & e & Hget1 & Hk1 & Hi & Hid & Ho1). cbn [after_call w_store] in Hget. simplify_eq.
    rewrite Ho in *. destruct (unique_index _ _ _ _ _ Hnd Hi Hid) as [-> ->].
    exists c', (tail (List.filter is_pending (l1 ++ ob :: l2))).
    rewrite Ho1, <- (Nat.add_0_r (length l1)), insert_app_r. cbn [insert list_insert]. split_and!; try done.
    + rewrite List.filter_app, Hl1. cbn. by rewrite Hob.
    + split; [done|]. by rewrite Hk1.
    + by rewrite !fmap_app.
    + by apply filter_insert_delivered.
  - subst s. cbn [after_call w_store] in Hget. rewrite alone, Hst in Hget. simplify_eq.
    match goal with E : require_checkpoint _ = _ |- _ => apply require_run in E as [Hd' ->] end.
    simplify_eq. rewrite Ho, find_entry_unique in Hrej by by rewrite <- Ho. cbn in Hrej.
    unfold is_pending in Hob. apply String.eqb_eq in Hob. by rewrite Hob in Hrej.
Qed.

Lemma deliver_one_run key w c r w' :
  undisturbed key ->
  deliver_one w = (r, w') -> synced w c -> cp_checkpoint_key c = key -> NoDup (outbox_ids c) ->
  exists ext, w_log w' = w_log w ++ ext /\
  match r with
  | Ok false => pending c = [] /\ ext = [] /\ w' = w
  | Ok true => exists ob rest e c', pending c = ob :: rest /\ parses ob e /\ deliveries ext = [e] /\
      synced w' c' /\ cp_checkpoint_key c' = key /\ outbox_ids c' = outbox_ids c /\ pending c' = rest
  | Err _ => exists ob rest, pending c = ob :: rest /\
      (deliveries ext = [] \/ exists e, deliveries ext = [e] /\ parses ob e)
  end.
Proof.
  unfold deliver_one. intros alone Hr Hsync Hk Hnd.
  apply d_bind_run in Hr as [(x & w1 & Hq & Hr)|(e & Hq & ->)].
  2:{ unfold require_checkpoint in Hq. driver_inv. by rewrite (proj1 Hsync) in *. }
  apply require_run in Hq as [Hx ->]. rewrite (proj1 Hsync) in Hx. injection Hx as <-.
  destruct (List.find is_pending (cp_event_outbox c)) as [ob|] eqn:Hf.
  2:{ driver_inv. exists []. rewrite app_nil_r. split_and!; try done. by apply find_pending_none. }
  pose proof (find_pending_some _ _ Hf) as (l1 & l2 & Ho & Hl1 & Hob).
  assert (Hpend : pending c = ob :: List.filter is_pending l2).
  { unfold pending. rewrite Ho, List.filter_app, Hl1. cbn. by rewrite Hob. }
  apply d_bind_run in Hr as [([e cursor] & w1 & Hh & Hr)|(e & Hh & ->)].
  2:{ observe Hh as (_ & _ & Hl). exists []. rewrite Hl, app_nil_r. split; [done|]. eauto. }
  pose proof (hand_over_parses _ _ _ _ _ Hh) as Hparse. observe Hh as (Hd & Hs & Hl).
  apply d_bind_run in Hr as [(u & w2 & He & Hr)|(x & He & ->)]; [|done].
  unfold emit in He. simplify_eq He. intros <- <-. cbn [fst snd] in Hr.
  assert (Hsync' : synced {| w_driver := w_driver w1; w_store := w_store w1; w_tick := w_tick w1;
                             w_log := w_log w1 ++ [Delivered e] |} c).
  { split; cbn [w_driver w_store]; [rewrite Hd|rewrite Hs]; apply Hsync. }
  assert (Hext : forall x w3, settle_delivery ob cursor {| w_driver := w_driver w1;
      w_store := w_store w1; w_tick := w_tick w1; w_log := w_log w1 ++ [Delivered e] |} = (x, w3) ->
    exists ext, w_log w3 = w_log w ++ ext /\ deliveries ext = [e]).
  { intros x w3 (ext & Hle & Hde)%settle_log. exists (Delivered e :: ext).
    cbn [w_log] in Hle. rewrite Hle, Hl, <- app_assoc. split; [done|]. cbn. by f_equal. }
  apply d_bind_run in Hr as [([] & w3 & Hset & Hr)|(x & Hset & ->)];
    destruct (Hext _ _ Hset) as (ext & Hle & Hde).
  - apply (settle_synced key _ c) in Hset as (c' & rest & ? & ? & ? & ? & ?); [|done..].
    driver_inv. exists ext. split; [done|]. exists ob, (pending c'), e, c'. by split_and!.
  - exists ext. split; [done|]. exists ob. eauto 10.
Qed.

(** ** The loop *)

(** The runs of the source's loop, which has no fuel. *)
Inductive delivery_loop (w : World) : result unit -> World -> Prop :=
| dl_done w' : deliver_one w = (Ok false, w') -> delivery_loop w (Ok tt) w'
| dl_failed e w' : deliver_one w = (Err e, w') -> delivery_loop w (Err e) w'
| dl_again w1 r w' : deliver_one w = (Ok true, w1) -> delivery_loop w1 r w' -> delivery_loop w r w'.
Lemma delivery_loop_unique w r w' r2 w2 :
  delivery_loop w r w' -> delivery_loop w r2 w2 -> r = r2 /\ w' = w2.
Proof.
  intros Hl. revert r2 w2. induction Hl as [w w1 Hone|w e w1 Hone|w w1 r w' Hone _ IH]; intros r2 w2 Hl2;
    inversion Hl2 as [w3 H3|e3 w3 H3|w3 r3 w4 H3 H4]; subst; rewrite Hone in H3; simplify_eq; auto.
Qed.

(** The events handed over are the first of the pending ones. *)
Definition delivered_prefix (c : Checkpoint) (es : list RunEvent) : Prop :=
  exists sent rest, pending c = sent ++ rest /\ Forall2 parses sent es.

Lemma delivery_ends key fuel w c :
  undisturbed key -> synced w c -> cp_checkpoint_key c = key -> NoDup (outbox_ids c) ->
  length (pending c) < fuel -> exists r w' ext,
  deliver_pending_outbox fuel w = (r, w') /\ delivery_loop w r w' /\ w_log w' = w_log w ++ ext /\
  delivered_prefix c (deliveries ext) /\
  (r = Ok tt -> Forall2 parses (pending c) (deliveries ext) /\
     exists c', synced w' c' /\ cp_checkpoint_key c' = key /\ outbox_ids c' = outbox_ids c /\
       pending c' = []).
Proof.
  intros alone. revert w c. induction fuel as [|fuel IH]; intros w c Hs Hk Hnd Hf; [lia|].
  cbn [deliver_pending_outbox]. destruct (deliver_one w) as [one w1] eqn:Hrun1.
  destruct (deliver_one_run key _ _ _ _ alone Hrun1 Hs Hk Hnd) as (ext & Hl & Hone).
  unfold mbind at 1, D_bind. rewrite Hrun1. destruct one as [[]|e].
  - destruct Hone as (ob & rest & e & c' & Hp & He & Hd & Hs' & Hk' & Hids & Hp').
    destruct (IH w1 c') as (r & w' & ext2 & Hrun & Hloop & Hl2 & Hpre & Hok); try done.
    { by rewrite Hids. } { rewrite Hp'. rewrite Hp in Hf. cbn in Hf. lia. }
    exists r, w', (ext ++ ext2). rewrite Hl2, Hl, deliveries_app, Hd, app_assoc.
    split_and!; try done.
    + by eapply dl_again.
    + destruct Hpre as (sent & more & Hsent & Hall). exists (ob :: sent), more.
      rewrite Hp, <- Hp', Hsent. split; [done|]. by constructor.
    + intros Hr. destruct (Hok Hr) as (Hall & c2 & ? & ? & Hids2 & ?).
      rewrite Hp, <- Hp'. split; [by constructor|]. exists c2. by rewrite Hids2, Hids.
  - destruct Hone as (Hp & -> & ->). eexists _, _, []. rewrite app_nil_r. split_and!; try done.
    + by apply dl_done.
    + exists [], (pending c). by split.
    + intros _. rewrite Hp. split; [done|]. by exists c.
  - destruct Hone as (ob & rest & Hp & Hd). eexists _, _, ext. split_and!; try done.
    + by apply dl_failed.
    + destruct Hd as [->|(x & -> & Hx)]; [by exists [], (pending c)|].
      exists [ob], rest. split; [done|]. by repeat constructor.
Qed.
End Delivery.

(** ** Property *)


(** ** A delivery *)

Section Sample.
Local Existing Instance quiet_host.
Local Existing Instance driver_env.
Local Existing Instance toy_strict.

(** A new checkpoint whose first event is still to be delivered. *)
Definition undelivered_world : World := (create_new_checkpoint 0 "key" (world_of store_new)).2.
Definition undelivered_checkpoint : Checkpoint :=
  default checkpoint_default (d_checkpoint (w_driver undelivered_world)).

End Sample.
